(* ===== verification/_CoqProject ===== *)
-Q . S2P
Prelude.v
Numbers.v
Double.v
Json.v
Proto.v
Base64.v
ImageCrop.v
Builder.v
OtslGrid.v
Html.v
Markdown.v
Tree.v
DoctagsItems.v
DoctagsTree.v
Doctags.v
VlmProto.v
Secret.v
Presets.v
MarkupTree.v
LayoutText.v
Tilings.v
Layout.v
LayoutGrows.v
LayoutImages.v
MarkdownInline.v
Chandra.v
HtmlTables.v
Dots.v
NemotronText.v
Nemotron.v
LatexTables.v
DoclangText.v
Doclang.v
DoclangTables.v
Deepseek.v
Mapper.v
Endpoint.v
Config.v
Completion.v
VlmClient.v
Watchdog.v
Budget.v
Service.v
Stream.v
StreamBudget.v
StreamProgress.v
HttpGateway.v
Main.v
