(* ===== verification/Prelude.v ===== *)
(** * grpc-vlm-convert: a verification development

    The program is a gRPC service (C++, src/) that turns page images into
    structured documents.  A client streams options and PNG pages
    ([ConvertPages]); each page is posted to an OpenAI-compatible vision model;
    the model's answer, in one of several markup languages, is mapped to a
    [Document] fragment that goes back as an event.  An HTTP front end offers
    the same conversion as JSON.

    ** Parts and files

    - Prelude.v: bytes, character classes, the search functions of
      [std::string], bounded loops ([run_loop]), list and option lemmas,
      tactics.  Numbers.v: decimal parsing and printing ([strtoull],
      [from_chars], [std::to_string]).  Double.v: the IEEE doubles of boxes and
      scores.  Json.v: the values of the JSON library, the class [Json].
    - Proto.v, VlmProto.v: the protobuf messages and enums the program builds
      and reads (src/proto/).
    - Base64.v: [base64_encode], as the VLM client and the crops use it.
    - ImageCrop.v: mapping/image_crop.*, the page raster and its crop budgets;
      the image library is the class [Stb].
    - Builder.v: mapping/builder.h, the constructors of document items, the
      table caps and the finalizer that stamps references.  Tree.v: the shape
      of a finalized fragment, shared by the mappers.
    - OtslGrid.v: mapping/otsl.cpp.  Html.v: mapping/html.cpp.  Markdown.v:
      mapping/markdown.cpp.  DoctagsItems.v, DoctagsTree.v, Doctags.v:
      mapping/doctags.cpp, elements, their invariant and the page loop.
    - MarkupTree.v: mapping/markup_tree.*, the tolerant element tree of HTML and
      XML answers.  LayoutText.v: the free functions of mapping/layout.cpp
      (element text, table cells and their grid, text clean-ups); Tilings.v: what
      an exact table is, the measure of the three table notations.  Layout.v:
      its [LayoutWriter], the builder of one page's tree that the
      layout-grounded formats share; LayoutGrows.v: what a mapper's calls do to
      it; LayoutImages.v: what its pictures inline.  Deepseek.v:
      mapping/deepseek.cpp, both its formats.  MarkdownInline.v:
      mapping/markdown_inline.cpp, Markdown emphasis rendered as inline HTML.
      Chandra.v: mapping/chandra.cpp, layout HTML, and the HTML that the next two
      embed; HtmlTables.v: its tables, written and read.  Dots.v:
      mapping/dots.cpp, a JSON array of elements.  NemotronText.v, Nemotron.v:
      mapping/nemotron.cpp, its tokens and LaTeX tables, and the mappers of both
      versions; LatexTables.v: those tables, written and read.  DoclangText.v,
      Doclang.v: mapping/doclang.cpp, the reading of elements and the builder
      that dispatches on them; DoclangTables.v: its tables, written and read.
    - Mapper.v: mapping/mapper.cpp, the dispatch over every format.
    - Secret.v: secret.h.  Presets.v: presets.*.  Endpoint.v: [parse_endpoint]
      and the functions over it in vlm_client.cpp.  Config.v: config.*.
    - Completion.v, VlmClient.v: vlm_client.*, the answer and the call.  The
      JSON library is the class [Json]; the clock, the cancel probe, the
      watchdog's looks and the transport are a [Script] the retry loop runs
      against, so a theorem over all scripts is one over all timings.
      Watchdog.v: [CallGuard] as the two threads it is, the caller's and the
      watchdog's, sharing a mutex, a condition variable and a clock
      ([guard_step]); its runs are simulated by the scripts of VlmClient.v.
    - Budget.v: service/budget.h, the first-come first-served budgets, as a
      step relation of their users.
    - Service.v: service/vlm_convert_service.*, what one stream's options, one
      page and one page's conversion amount to, and [GetServiceInfo].
    - Stream.v: the rest of ConvertPagesCore.  One stream is a state (the
      reader's phase and counters, the workers, the writer, the shared flags,
      channels and ledgers) and [stream_step] lets any thread, another stream on
      the process's budgets, or the departing client move; [stream_run] is any
      schedule.  A timeout that only looks again is no step.  StreamBudget.v:
      what every lease stands for.  StreamProgress.v: the measures of its
      termination.
    - HttpGateway.v: http_gateway.*, routes, token, body and the two convert
      handlers over the same pipeline.  protobuf's JSON is the class
      [ProtoJson]; httplib hands a request over and takes an answer.
    - Main.v: main.cpp, startup up to serving or the exit code, and the signal
      pipe, the shutdown thread, the metrics thread and the shutdown sequence as
      a step relation.
    C++ names are kept: a method [m] is the definition [m], a struct is a
    record, an output parameter is a component of the result, an
    [std::optional] an option, a returned error text the left of a sum.

    ** What the theorems show

    - Round trips: OTSL tables, Markdown pages and pipe rows, DocTags elements,
      chat completions, element trees, DeepSeek-OCR, Chandra, DocLang and
      Nemotron pages and the two spellings of a format read back as printed;
      Unlimited-OCR pages are read as their DeepSeek-OCR form.
    - Tables: any exact tiling of a grid by cells with row and column spans
      (Tilings.v), written as HTML, as DocLang's tokens or as a LaTeX tabular, is
      read back as its cells and becomes the one table that lays them out.
    - Trees: whatever the model wrote, a mapped fragment is a tree, also one a
      layout writer finishes after any sequence of calls; a table's grid is
      covered and no two cells of an HTML table overlap; a key-value graph is
      closed; markup never nests past its cap; the tags emphasis turns into are
      properly nested.  A dots.ocr or Nemotron answer, however broken, never
      fails its page, and no located element of it is lost; a DocLang answer
      fails only without a root element.
    - Bounds: crops stay within their budgets and, in every format, the images a
      page inlines within its byte cap and its number of crops; tables stay within their caps, calls
      within six requests, a budget within its capacity, configured numbers
      within their documented ranges.
    - Confinement: the operator's key and, with overrides off, every page image
      go to the configured endpoint only; banner and service info disclose
      its origin only.
    - Order and progress: a budget grants in arrival order and starves nobody;
      a call that is cancelled says so.
    - Calls (Watchdog.v): whatever the caller, its watchdog, the clock and the
      endpoint do, a call returns what the sequential one returns for a script
      that makes nothing up; the watchdog only stops a client that exists; a
      tripped call sends nothing more and always comes to its end.
    - Streams (Stream.v, StreamBudget.v, StreamProgress.v): whatever the
      schedule, a stream that ends OK has announced and answered every page of
      its input once and written its trailer last; no answer precedes its
      page's announcement; its pages and calls stay within the three budgets;
      it takes at most a number of steps fixed by its input, and, while the
      other streams give back what they hold, it can always go on to its end,
      so no schedule deadlocks it; it halts early only for one of three causes.
    - HTTP: a 200 carries a complete conversion; with a token configured no
      path but the health check is served without it; a body becomes the
      message sequence of a gRPC client or is refused.
    - Process: it serves only what its configuration allows and it could bind; it
      goes down only when asked, and once asked no order of its threads' steps
      keeps it from returning.

    ** Fuel

    Loops of the source that are not structural run under [run_loop] with a fuel
    computed from their input (its length plus a constant: every pass consumes
    a byte, or is one of a fixed number of attempts).  The lemmas [run_loop_*]
    give the result without fuel once a measure falls, and every component
    proves its fuel enough, so no result is the default of an exhausted loop.
    The mutually recursive methods of the Chandra and DocLang builders run on a
    fuel above the height of the element tree (MarkupTree.v bounds it by the
    depth cap).  Threads that must end do so by [descent_total]: a rank that every
    step lowers, and a step for every state that is not at its end.

    ** Not modelled

    Wire encoding (generated code), stb_image, the JSON library and httplib
    (parameters with the behaviour the code relies on; of httplib's client, that
    [stop] waits for a connect, does nothing before it, and fails the request
    after it), the text of the metrics line, the model-serving scripts and the tests.  Memory
    ordering of the atomics is taken as sequentially consistent.

    ** Plan

    Every part of the program is modelled.  Left for later: the round trip of
    LaTeX header cells below the first row (in its first column one is read as a
    header of both kinds) and of cells with markup of their own. *)
From Stdlib Require Export ZArith Ascii Lia.
From Stdlib Require String.
From stdpp Require Export base tactics list strings option numbers gmap pretty.

#[export] Set Default Proof Using "Type".

(** * Bytes *)

(** A C++ [std::string] or [std::string_view] is its list of bytes. *)
Abbreviation bytes := (list ascii).

(** A string literal of the source. *)
Definition lit (s : string) : bytes := String.list_ascii_of_string s.

(** The value of a byte as [unsigned char]. *)
Definition code (c : ascii) : Z := Z.of_N (N_of_ascii c).
(** [static_cast<char>(z)] of a value in [0, 256). *)
Definition chr (z : Z) : ascii := ascii_of_N (Z.to_N z).

(** Control characters that have no printable literal. *)
Definition c_tab : ascii := "009"%char.
Definition c_nl : ascii := "010"%char.
Definition c_vt : ascii := "011"%char.
Definition c_ff : ascii := "012"%char.
Definition c_cr : ascii := "013"%char.
Definition c_quote : ascii := "034"%char.

Declare Scope bytes_scope.
Delimit Scope bytes_scope with bs.
Notation "x =b y" := (bool_decide (x = y)) (at level 70, only parsing) : bytes_scope.
Notation "c =c d" := (Ascii.eqb c d) (at level 70) : bytes_scope.
#[global] Open Scope bytes_scope.
#[global] Open Scope Z_scope.
#[global] Open Scope list_scope.

(** ** Character classes of the "C" locale (the program never calls
    [setlocale], so <cctype> is ASCII). *)
Definition in_range (lo hi : Z) (c : ascii) : bool := (lo <=? code c) && (code c <=? hi).
Definition isupper : ascii → bool := in_range 65 90.
Definition islower : ascii → bool := in_range 97 122.
Definition isalpha (c : ascii) : bool := isupper c || islower c.
Definition isdigit : ascii → bool := in_range 48 57.
Definition isalnum (c : ascii) : bool := isalpha c || isdigit c.
Definition isxdigit (c : ascii) : bool :=
  isdigit c || in_range 65 70 c || in_range 97 102 c.
Definition isspace (c : ascii) : bool := (code c =? 32) || in_range 9 13 c.
Definition tolower (c : ascii) : ascii := if isupper c then chr (code c + 32) else c.
Definition toupper (c : ascii) : ascii := if islower c then chr (code c - 32) else c.

(** ** The members of [std::string] the program calls

    A position is a [nat]; [npos] is [None].  [substr] is only reached with a
    position inside the string, where C++ does not throw. *)
Definition substr (s : bytes) (pos count : nat) : bytes := take count (drop pos s).
Definition substr_from (s : bytes) (pos : nat) : bytes := drop pos s.

Fixpoint starts_with (p s : bytes) : bool :=
  match p, s with
  | [], _ => true
  | _ :: _, [] => false
  | c :: p', d :: s' => (c =c d) && starts_with p' s'
  end.
Definition ends_with (p s : bytes) : bool :=
  bool_decide (length p ≤ length s)%nat && starts_with p (drop (length s - length p) s).

(** Scans [s], whose first byte has index [i] in the whole string. *)
Fixpoint find_if_at (test : bytes → bool) (s : bytes) (i : nat) : option nat :=
  match s with
  | [] => None
  | _ :: s' => if test s then Some i else find_if_at test s' (S i)
  end.
(** The first suffix at or after [from] that passes [test]. *)
Definition find_if (test : bytes → bool) (s : bytes) (from : nat) : option nat :=
  find_if_at test (drop from s) from.

Definition head_is (p : ascii → bool) (s : bytes) : bool :=
  match s with [] => false | c :: _ => p c end.

(** [s.find(needle, from)] for a non-empty needle. *)
Definition find (needle s : bytes) (from : nat) : option nat := find_if (starts_with needle) s from.
(** [s.find(c, from)], [s.find_first_of], [s.find_first_not_of]. *)
Definition find_char (c : ascii) (s : bytes) (from : nat) : option nat :=
  find_if (head_is (Ascii.eqb c)) s from.
Definition find_first (p : ascii → bool) (s : bytes) (from : nat) : option nat :=
  find_if (head_is p) s from.
(** [s.rfind(needle)]: the last occurrence. *)
Fixpoint rfind_at (needle s : bytes) (i : nat) : option nat :=
  match s with
  | [] => None
  | _ :: s' =>
      match rfind_at needle s' (S i) with
      | Some j => Some j
      | None => if starts_with needle s then Some i else None
      end
  end.
Definition rfind (needle s : bytes) : option nat := rfind_at needle s 0.
(** [s.contains(c)]. *)
Definition contains_char (c : ascii) (s : bytes) : bool := existsb (Ascii.eqb c) s.
(** [s[i]], tested with the bound the code tests. *)
Definition char_at (s : bytes) (i : nat) (p : ascii → bool) : bool :=
  match s !! i with Some c => p c | None => false end.

(** Dropping a run of bytes at either end. *)
Fixpoint lstrip (p : ascii → bool) (s : bytes) : bytes :=
  match s with
  | [] => []
  | c :: s' => if p c then lstrip p s' else s
  end.
Definition rstrip (p : ascii → bool) (s : bytes) : bytes := rev (lstrip p (rev s)).
(** The length of the leading run of bytes passing [p]. *)
Fixpoint span (p : ascii → bool) (s : bytes) : nat :=
  match s with
  | [] => 0
  | c :: s' => if p c then S (span p s') else 0
  end%nat.

(** Decides every comparison of two literals in the goal. *)
Ltac decide_lits :=
  repeat match goal with
  | |- context [bool_decide (lit ?a = lit ?b)] =>
      let v := eval vm_compute in (bool_decide (lit a = lit b)) in
      change (bool_decide (lit a = lit b)) with v
  | |- context [starts_with (lit ?a) (lit ?b)] =>
      let v := eval vm_compute in (starts_with (lit a) (lit b)) in
      change (starts_with (lit a) (lit b)) with v
  end.

(** * Loops

    A C++ loop is a step function on its local state: [inl s'] is the end of
    one iteration ([continue] or falling off the body), [inr r] leaves the loop
    ([break], [return], or the loop test failing).  [loop] runs it with fuel;
    [run_loop] gives the fuel a bound and returns [d] only when the fuel runs
    out, which [run_loop_spec] rules out from a measure. *)
Section Loop.
Context {St R : Type}.

Fixpoint loop (fuel : nat) (step : St → St + R) (s : St) : option R :=
  match fuel with
  | O => None
  | S fuel' =>
      match step s with
      | inl s' => loop fuel' step s'
      | inr r => Some r
      end
  end.

Definition run_loop (d : R) (fuel : nat) (step : St → St + R) (s : St) : R :=
  default d (loop fuel step s).

Lemma loop_S fuel step s :
  loop (S fuel) step s =
  match step s with inl s' => loop fuel step s' | inr r => Some r end.
Proof. done. Qed.

Lemma loop_mono fuel fuel' step s r :
  loop fuel step s = Some r → (fuel ≤ fuel')%nat → loop fuel' step s = Some r.
Proof.
  revert fuel' s; induction fuel as [|fuel IH]; intros fuel' s Hr Hle; [done|].
  destruct fuel' as [|fuel']; [lia|]. cbn in *.
  destruct (step s); [|done]. apply IH; [done|lia].
Qed.

(** Partial correctness: [Inv] is kept by every iteration and every exit
    meets [Post]. *)
Lemma loop_inv (Inv : St → Prop) (Post : R → Prop) fuel step s r :
  (∀ s, Inv s → match step s with inl s' => Inv s' | inr r => Post r end) →
  Inv s → loop fuel step s = Some r → Post r.
Proof.
  intros Hstep. revert s; induction fuel as [|fuel IH]; intros s Hs Hr; [done|].
  cbn in Hr. specialize (Hstep s Hs). destruct (step s); [exact (IH _ Hstep Hr)|].
  by simplify_eq.
Qed.

(** Termination: the measure [μ] falls at every iteration. *)
Lemma loop_total (Inv : St → Prop) (μ : St → nat) fuel step s :
  (∀ s s', Inv s → step s = inl s' → Inv s' ∧ (μ s' < μ s)%nat) →
  Inv s → (μ s < fuel)%nat → is_Some (loop fuel step s).
Proof.
  intros Hstep. revert s; induction fuel as [|fuel IH]; intros s Hs Hμ; [lia|].
  cbn. destruct (step s) as [s'|r] eqn:E; [|done].
  destruct (Hstep s s' Hs E). apply IH; [done|lia].
Qed.

(** Total correctness of a loop run with enough fuel. *)
Lemma run_loop_spec (Inv : St → Prop) (Post : R → Prop) (μ : St → nat) d fuel step s :
  (∀ s, Inv s →
    match step s with inl s' => Inv s' ∧ (μ s' < μ s)%nat | inr r => Post r end) →
  Inv s → (μ s < fuel)%nat → Post (run_loop d fuel step s).
Proof.
  intros Hstep Hs Hμ. unfold run_loop.
  destruct (loop_total Inv μ fuel step s) as [r Hr]; [|done|done|].
  { intros s1 s2 H1 E. specialize (Hstep s1 H1). by rewrite E in Hstep. }
  rewrite Hr. cbn. eapply (loop_inv Inv Post); [|done|done].
  intros s1 H1. specialize (Hstep s1 H1). destruct (step s1); [by destruct Hstep|done].
Qed.

(** What every iteration and every exit keeps, whatever the fuel. *)
Lemma run_loop_inv (Inv : St → Prop) (Post : R → Prop) d fuel step s :
  (∀ s, Inv s → match step s with inl s' => Inv s' | inr r => Post r end) →
  Inv s → Post d → Post (run_loop d fuel step s).
Proof.
  intros Hstep Hs Hd. unfold run_loop. destruct (loop fuel step s) as [r|] eqn:E; [|done].
  by eapply (loop_inv Inv Post).
Qed.

(** With enough fuel one iteration can be unfolded. *)
Lemma run_loop_unfold (μ : St → nat) d fuel step s :
  (∀ s s', step s = inl s' → (μ s' < μ s)%nat) → (μ s < fuel)%nat →
  run_loop d fuel step s =
  match step s with inl s' => run_loop d (S (μ s')) step s' | inr r => r end.
Proof.
  intros Hstep Hμ. unfold run_loop. destruct fuel as [|fuel]; [lia|].
  rewrite loop_S. destruct (step s) as [s'|r] eqn:E; [|done]. apply Hstep in E.
  destruct (loop_total (λ _, True) μ (S (μ s')) step s') as [r Hr];
    [intros ?? _ ?; split; [done|by apply Hstep]|done|lia|].
  by rewrite Hr, (loop_mono _ fuel _ _ _ Hr) by lia.
Qed.
End Loop.

(** A loop that terminates at all returns where its steps lead. *)
Lemma loop_rtc {St R} (step : St → St + R) fuel s s' r :
  rtc (λ s s', step s = inl s') s s' → step s' = inr r → is_Some (loop fuel step s) →
  loop fuel step s = Some r.
Proof.
  intros Hsteps Hr. revert fuel. induction Hsteps as [s|s s1 s2 Hstep _ IH]; intros fuel Htotal.
  - destruct fuel; [by destruct Htotal|]. cbn. by rewrite Hr.
  - destruct fuel; [by destruct Htotal|]. cbn in *. rewrite Hstep in *. by apply IH.
Qed.

(** Two loops that move in step end in related results. *)
Lemma loop_sim {St R St' R'} (I : St → St' → Prop) (Q : R → R' → Prop) step step' fuel s s' :
  (∀ s s', I s s' →
    match step s, step' s' with
    | inl s1, inl s1' => I s1 s1'
    | inr r, inr r' => Q r r'
    | _, _ => False
    end) →
  I s s' →
  match loop fuel step s, loop fuel step' s' with
  | Some r, Some r' => Q r r'
  | None, None => True
  | _, _ => False
  end.
Proof.
  intros Hstep. revert s s'. induction fuel as [|fuel IH]; intros s s' HI; cbn [loop]; [done|].
  specialize (Hstep s s' HI). destruct (step s), (step' s'); try done. by apply IH.
Qed.

Lemma run_loop_sim {St R St' R'} (I : St → St' → Prop) (Q : R → R' → Prop) step step' d d' fuel s s' :
  (∀ s s', I s s' →
    match step s, step' s' with
    | inl s1, inl s1' => I s1 s1'
    | inr r, inr r' => Q r r'
    | _, _ => False
    end) →
  I s s' → Q d d' → Q (run_loop d fuel step s) (run_loop d' fuel step' s').
Proof.
  intros Hstep HI Hd. pose proof (loop_sim I Q step step' fuel s s' Hstep HI) as H.
  unfold run_loop. by destruct (loop fuel step s), (loop fuel step' s').
Qed.

(** Threads that get on with something: every step of [R] lowers a rank, and a
    state that is not at its end has one. *)
Section Descent.
Context {A : Type} (R : A → A → Prop) (Inv Done : A → Prop) (rank : A → nat).
Hypothesis R_step : ∀ s s', Inv s → R s s' → Inv s' ∧ (rank s' < rank s)%nat.
Hypothesis R_live : ∀ s, Inv s → Done s ∨ ∃ s', R s s'.

Lemma descent_run n s s' : nsteps R n s s' → Inv s → Inv s' ∧ (n + rank s' ≤ rank s)%nat.
Proof using R_step.
  induction 1 as [s|n s t s' Hs _ IH]; intros Hinv; [split; [done|lia]|].
  destruct (R_step _ _ Hinv Hs) as [Ht ?]. destruct (IH Ht). split; [done|lia].
Qed.
Lemma descent_end s : Inv s → ∃ s', rtc R s s' ∧ Inv s' ∧ Done s'.
Proof using R_step R_live.
  remember (rank s) as n eqn:En. revert s En. induction (lt_wf n) as [n _ IH]. intros s -> Hinv.
  destruct (R_live s Hinv) as [?|[t Ht]]; [by exists s|].
  destruct (R_step _ _ Hinv Ht) as [Hinv' Hlt]. destruct (IH _ Hlt t eq_refl Hinv') as (s' & ? & ?).
  exists s'. split; [by eapply rtc_l|done].
Qed.
(** So every run of [R] is bounded, and is stuck only at the end. *)
Lemma descent_total s :
  Inv s →
  (∃ s', rtc R s s' ∧ Inv s' ∧ Done s') ∧
  ∀ n s', nsteps R n s s' → (n ≤ rank s)%nat ∧ Inv s' ∧ (Done s' ∨ ∃ s'', R s' s'').
Proof using R_step R_live.
  intros Hinv. split; [by apply descent_end|]. intros n s' Hn.
  destruct (descent_run _ _ _ Hn Hinv) as [Hinv' ?]. split_and!; [lia|done|by apply R_live].
Qed.
End Descent.


(** * Lemmas on the string operations *)

Lemma starts_with_app p s : starts_with p s = true ↔ ∃ r, s = p ++ r.
Proof.
  revert s; induction p as [|c p IH]; intros s; cbn.
  { split; [by exists s|done]. }
  destruct s as [|d s].
  { split; [done|by intros [r ?]]. }
  rewrite andb_true_iff, Ascii.eqb_eq, IH. split.
  - intros [-> [r ->]]. by exists r.
  - intros [r [= -> ->]]. eauto.
Qed.

Lemma find_if_at_spec test s i :
  match find_if_at test s i with
  | Some j => (i ≤ j < i + length s)%nat ∧ test (drop (j - i) s) = true ∧
              (∀ k, (i ≤ k < j)%nat → test (drop (k - i) s) = false)
  | None => ∀ k, (i ≤ k < i + length s)%nat → test (drop (k - i) s) = false
  end.
Proof.
  revert i; induction s as [|c s IH]; intros i; cbn [find_if_at]; [cbn; lia|].
  destruct (test (c :: s)) eqn:E.
  - rewrite Nat.sub_diag. cbn. split_and!; [lia|lia|done|lia].
  - specialize (IH (S i)).
    assert (Hd : ∀ k, (S i ≤ k)%nat → drop (k - i) (c :: s) = drop (k - S i) s).
    { intros k Hk. by replace (k - i)%nat with (S (k - S i)) by lia. }
    destruct (find_if_at test s (S i)) as [j|].
    + destruct IH as (? & ? & IH). cbn. split_and!; [lia|lia|rewrite Hd by lia; done|].
      intros k Hk. destruct (decide (k = i)) as [->|]; [by rewrite Nat.sub_diag|].
      rewrite Hd by lia. apply IH; lia.
    + intros k Hk. destruct (decide (k = i)) as [->|]; [by rewrite Nat.sub_diag|].
      cbn [length] in Hk. rewrite Hd by lia. apply IH; lia.
Qed.

(** [find_if] returns the first position at or after [from] that passes. *)
Lemma find_if_Some test s from j :
  find_if test s from = Some j →
  (from ≤ j < length s)%nat ∧ test (drop j s) = true ∧
  (∀ k, (from ≤ k < j)%nat → test (drop k s) = false).
Proof.
  unfold find_if. intros H. pose proof (find_if_at_spec test (drop from s) from) as S.
  rewrite H, length_drop in S. destruct S as (? & H2 & H3).
  assert (Hd : ∀ k, (from ≤ k)%nat → drop (k - from) (drop from s) = drop k s).
  { intros k Hk. rewrite drop_drop. f_equal; lia. }
  rewrite Hd in H2 by lia. split_and!; [lia|lia|done|].
  intros k Hk. rewrite <- Hd by lia. apply H3; lia.
Qed.

Lemma find_if_None test s from :
  find_if test s from = None →
  ∀ k, (from ≤ k < length s)%nat → test (drop k s) = false.
Proof.
  unfold find_if. intros H k Hk. pose proof (find_if_at_spec test (drop from s) from) as S.
  rewrite H, length_drop in S. specialize (S k ltac:(lia)).
  rewrite drop_drop in S. by replace (from + (k - from))%nat with k in S by lia.
Qed.

(** The first position is unique. *)
Lemma find_if_intro test s from j :
  (from ≤ j < length s)%nat → test (drop j s) = true →
  (∀ k, (from ≤ k < j)%nat → test (drop k s) = false) →
  find_if test s from = Some j.
Proof.
  intros Hj Ht Hlt. destruct (find_if test s from) as [i|] eqn:E.
  - apply find_if_Some in E as (Hi & Hti & Hlti). f_equal.
    destruct (decide (i < j)%nat) as [Hij|Hij].
    { specialize (Hlt i ltac:(lia)). congruence. }
    destruct (decide (j < i)%nat) as [Hji|Hji]; [|lia].
    specialize (Hlti j ltac:(lia)). congruence.
  - pose proof (find_if_None _ _ _ E j Hj). congruence.
Qed.

(** A search that starts later but before the hit finds the same hit: the
    fact the HTML scanner's cached searches rest on. *)
Lemma find_if_later test s from from' j :
  find_if test s from = Some j → (from ≤ from' ≤ j)%nat → find_if test s from' = Some j.
Proof.
  intros H ?. apply find_if_Some in H as (? & ? & Hlt).
  apply find_if_intro; [lia|done|]. intros k ?. apply Hlt; lia.
Qed.

Lemma find_if_later_None test s from from' :
  find_if test s from = None → (from ≤ from')%nat → find_if test s from' = None.
Proof.
  intros H ?. destruct (find_if test s from') as [j|] eqn:E; [|done].
  apply find_if_Some in E as (? & Ht & _).
  pose proof (find_if_None _ _ _ H j ltac:(lia)). congruence.
Qed.

Lemma find_char_Some c s from j :
  find_char c s from = Some j →
  (from ≤ j < length s)%nat ∧ s !! j = Some c ∧
  (∀ k, (from ≤ k < j)%nat → s !! k ≠ Some c).
Proof.
  intros H. apply find_if_Some in H as (? & Ht & Hlt).
  assert (Hhd : ∀ k, head_is (Ascii.eqb c) (drop k s) = true ↔ s !! k = Some c).
  { intros k. rewrite <- (Nat.add_0_r k) at 2. rewrite <- lookup_drop.
    destruct (drop k s) as [|d r]; cbn; [done|].
    rewrite Ascii.eqb_eq. split; [by intros ->|by intros [= ->]]. }
  split_and!; [lia|lia|by apply Hhd|].
  intros k Hk Hc. apply Hhd in Hc. rewrite Hlt in Hc by lia. done.
Qed.

Lemma find_char_lt c s from j : find_char c s from = Some j → (from ≤ j < length s)%nat.
Proof. intros H. by apply find_char_Some in H as [? _]. Qed.

Lemma find_lt needle s from j : find needle s from = Some j → (from ≤ j < length s)%nat.
Proof. intros H. by apply find_if_Some in H as [? _]. Qed.

Lemma find_end needle s from j :
  find needle s from = Some j → (j + length needle ≤ length s)%nat.
Proof.
  intros H. apply find_if_Some in H as (? & Ht & _).
  apply starts_with_app in Ht as [r Hr]. apply (f_equal length) in Hr.
  rewrite length_drop, length_app in Hr. lia.
Qed.

Lemma length_substr s pos n :
  length (substr s pos n) = Nat.min n (length s - pos).
Proof. unfold substr. by rewrite length_take, length_drop. Qed.

Lemma lstrip_suffix p s : ∃ l, s = l ++ lstrip p s ∧ Forall (λ c, p c = true) l.
Proof.
  induction s as [|c s [l [IH Hl]]]; cbn; [by exists []|].
  destruct (p c) eqn:E.
  - exists (c :: l). cbn. rewrite <- IH. auto.
  - by exists [].
Qed.

Lemma lstrip_head p s c : head (lstrip p s) = Some c → p c = false.
Proof.
  induction s as [|d s IH]; cbn; [done|]. destruct (p d) eqn:E; [done|].
  intros [= ->]. done.
Qed.

Lemma lstrip_id p s : (∀ c, head s = Some c → p c = false) → lstrip p s = s.
Proof. destruct s as [|c s]; cbn; [done|]. intros H. by rewrite (H c). Qed.

Lemma lstrip_idemp p s : lstrip p (lstrip p s) = lstrip p s.
Proof. apply lstrip_id, lstrip_head. Qed.

Lemma lstrip_nil p s : lstrip p s = [] ↔ Forall (λ c, p c = true) s.
Proof.
  induction s as [|c s IH]; cbn; [by rewrite Forall_nil|].
  rewrite Forall_cons. destruct (p c); [rewrite IH; tauto|].
  split; [done|by intros []].
Qed.

Lemma span_le p s : (span p s ≤ length s)%nat.
Proof. induction s as [|c s IH]; cbn; [lia|]. destruct (p c); lia. Qed.

(** A search over a string written as what precedes it, what it skips and
    what it hits. *)
Lemma find_if_skip test s pre mid rest from :
  s = pre ++ mid ++ rest → from = length pre →
  (∀ k, (k < length mid)%nat → test (drop k mid ++ rest) = false) →
  find_if test s from = find_if_at test rest (length pre + length mid).
Proof.
  intros -> -> Hmid. unfold find_if. rewrite drop_app_length.
  generalize (length pre) as i. revert Hmid.
  induction mid as [|c mid IH]; intros Hmid i; cbn [app length]; [f_equal; lia|].
  cbn [find_if_at]. pose proof (Hmid 0%nat ltac:(cbn; lia)) as E0. cbn in E0.
  rewrite E0, IH; [f_equal; lia|].
  intros k Hk. apply (Hmid (S k)). cbn. lia.
Qed.

Lemma find_if_hit test s pre mid rest from :
  s = pre ++ mid ++ rest → from = length pre →
  (∀ k, (k < length mid)%nat → test (drop k mid ++ rest) = false) →
  rest ≠ [] → test rest = true →
  find_if test s from = Some (length pre + length mid)%nat.
Proof.
  intros Hs Hfrom Hmid Hrest Ht. rewrite (find_if_skip test s pre mid rest) by done.
  destruct rest; [done|]. cbn [find_if_at]. by rewrite Ht.
Qed.

Lemma find_if_miss test s pre mid from :
  s = pre ++ mid → from = length pre →
  (∀ k, (k < length mid)%nat → test (drop k mid) = false) → find_if test s from = None.
Proof.
  intros Hs Hfrom Hmid. rewrite (find_if_skip test s pre mid []); rewrite ?app_nil_r; try done.
  intros k. rewrite app_nil_r. apply Hmid.
Qed.

(** A text in which the needle occurs nowhere, whatever comes after it. *)
Definition skips (needle s : bytes) : Prop :=
  ∀ rest k, (k < length s)%nat → starts_with needle (drop k s ++ rest) = false.
Lemma skips_app needle s t : skips needle s → skips needle t → skips needle (s ++ t).
Proof.
  intros Hs Ht rest k Hk. rewrite length_app in Hk. destruct (decide (k < length s)%nat).
  - rewrite drop_app_le by lia. rewrite <- app_assoc. by apply Hs.
  - rewrite drop_app_ge by lia. apply Ht. lia.
Qed.
Lemma skips_nil needle : skips needle [].
Proof. intros rest k Hk. cbn in Hk. lia. Qed.
Lemma skips_free c needle s : c ∉ s → skips (c :: needle) s.
Proof.
  intros Hc rest k Hk. destruct (lookup_lt_is_Some_2 s k Hk) as [d Hd]. rewrite (drop_S _ _ _ Hd). cbn.
  destruct (Ascii.eqb c d) eqn:E; [|done]. apply Ascii.eqb_eq in E as ->. destruct Hc. by eapply list_elem_of_lookup_2.
Qed.
Lemma find_after needle pre mid rest text :
  text = pre ++ mid ++ needle ++ rest → needle ≠ [] → skips needle mid →
  find needle text (length pre) = Some (length pre + length mid)%nat.
Proof.
  intros Ht Hn Hs. apply (find_if_hit _ _ pre mid (needle ++ rest)); [done..| | |].
  - intros k Hk. by apply Hs.
  - by destruct needle.
  - apply starts_with_app. by exists rest.
Qed.
Lemma find_none needle pre mid text :
  text = pre ++ mid → skips needle mid → find needle text (length pre) = None.
Proof.
  intros Ht Hs. apply (find_if_miss _ _ pre mid); [done..|]. intros k Hk. specialize (Hs [] k Hk). by rewrite app_nil_r in Hs.
Qed.

(** No byte of [s] is [c]. *)
Lemma head_is_other c s rest k :
  c ∉ s → (k < length s)%nat → head_is (Ascii.eqb c) (drop k s ++ rest) = false.
Proof.
  intros Hs Hk. destruct (lookup_lt_is_Some_2 s k Hk) as [d Hd].
  rewrite (drop_S _ _ _ Hd). cbn. apply Ascii.eqb_neq. intros ->.
  destruct Hs. by eapply list_elem_of_lookup_2.
Qed.

Lemma substr_cut s pre mid rest pos n :
  s = pre ++ mid ++ rest → pos = length pre → n = length mid → substr s pos n = mid.
Proof. intros -> -> ->. unfold substr. by rewrite drop_app_length, take_app_length. Qed.

Lemma substr_from_cut s pre rest pos :
  s = pre ++ rest → pos = length pre → substr_from s pos = rest.
Proof. intros -> ->. unfold substr_from. by rewrite drop_app_length. Qed.

Lemma contains_char_true c s : contains_char c s = true ↔ c ∈ s.
Proof.
  unfold contains_char. rewrite existsb_exists. setoid_rewrite Ascii.eqb_eq.
  setoid_rewrite <- list_elem_of_In. split; [by intros (? & ? & ->)|by exists c].
Qed.

Lemma not_contains c s : contains_char c s = false → c ∉ s.
Proof. intros H Hin%contains_char_true. congruence. Qed.

(** * Runs of bytes *)

Lemma lstrip_app p s t :
  lstrip p (s ++ t) = if bool_decide (lstrip p s = []) then lstrip p t else lstrip p s ++ t.
Proof.
  induction s as [|c s IH]; cbn; [done|]. destruct (p c); [done|].
  by rewrite bool_decide_false.
Qed.

Lemma rstrip_app p s t :
  rstrip p (s ++ t) = if bool_decide (rstrip p t = []) then rstrip p s else s ++ rstrip p t.
Proof.
  unfold rstrip. rewrite rev_app_distr, lstrip_app.
  assert (Hiff : lstrip p (rev t) = [] ↔ rev (lstrip p (rev t)) = []).
  { rewrite <- (rev_involutive (lstrip p (rev t))) at 1. split; [intros H|by intros ->].
    apply (f_equal (@rev ascii)) in H. by rewrite rev_involutive in H. }
  rewrite (bool_decide_ext _ _ Hiff). case_bool_decide; [done|].
  by rewrite rev_app_distr, rev_involutive.
Qed.

Lemma rstrip_cons p c s : p c = false → ∃ t, rstrip p (c :: s) = c :: t.
Proof.
  intros Hc. change (c :: s) with ([c] ++ s). rewrite rstrip_app.
  case_bool_decide; [|by eexists]. exists []. unfold rstrip. cbn. by rewrite Hc.
Qed.

Lemma rstrip_none p s : Forall (λ c, p c = false) s → rstrip p s = s.
Proof.
  intros H. unfold rstrip. rewrite lstrip_id; [apply rev_involutive|].
  intros c Hc. rewrite Forall_forall in H. apply H. apply list_elem_of_In, in_rev, list_elem_of_In.
  destruct (rev s); [done|]. injection Hc as ->. by left.
Qed.
Lemma rstrip_idemp p s : rstrip p (rstrip p s) = rstrip p s.
Proof. unfold rstrip. by rewrite rev_involutive, lstrip_idemp. Qed.

Lemma strip_idemp p s : rstrip p (lstrip p (rstrip p (lstrip p s))) = rstrip p (lstrip p s).
Proof.
  destruct (lstrip p s) as [|c t] eqn:E; [done|].
  assert (Hc : p c = false) by (apply (lstrip_head p s); by rewrite E).
  destruct (rstrip_cons p c t Hc) as [u Hu]. rewrite Hu at 1.
  rewrite lstrip_id by (by intros d [= <-]). by rewrite <- Hu, rstrip_idemp.
Qed.

(** The words of a text, and one space between each. *)
Section Words.
Variable space : ascii → bool.

Fixpoint words_from (word text : bytes) : list bytes :=
  match text with
  | [] => if bool_decide (word = []) then [] else [word]
  | c :: text' =>
      if space c then (if bool_decide (word = []) then [] else [word]) ++ words_from [] text'
      else words_from (word ++ [c]) text'
  end.
Definition words (text : bytes) : list bytes := words_from [] text.

Lemma words_from_nonempty word text : [] ∉ words_from word text.
Proof.
  revert word. induction text as [|c text IH]; intros word; cbn.
  - case_bool_decide; [by intros ?%elem_of_nil|]. by intros ?%list_elem_of_singleton.
  - destruct (space c); [|apply IH]. intros [Hin|Hin]%elem_of_app; [|by eapply IH].
    case_bool_decide; [by apply elem_of_nil in Hin|]. by apply list_elem_of_singleton in Hin.
Qed.
End Words.

Fixpoint join_words (ws : list bytes) : bytes :=
  match ws with
  | [] => []
  | [w] => w
  | w :: ws' => w ++ lit " " ++ join_words ws'
  end.

Lemma words_from_word space word w rest :
  Forall (λ c, space c = false) w → words_from space word (w ++ rest) = words_from space (word ++ w) rest.
Proof.
  intros Hw. revert word. induction Hw as [|c w Hc _ IH]; intros word; [by rewrite app_nil_r|].
  cbn [app words_from]. rewrite Hc, IH. by rewrite <- app_assoc.
Qed.
(** Words joined by spaces are the text's words. *)
Lemma words_join space ws :
  space " "%char = true → Forall (λ w, w ≠ [] ∧ Forall (λ c, space c = false) w) ws →
  words space (join_words ws) = ws.
Proof.
  intros Hsp Hws. unfold words. induction Hws as [|w ws [Hne Hw] _ IH]; [done|].
  destruct ws as [|w' ws].
  - cbn [join_words]. rewrite <- (app_nil_r w) at 1. rewrite words_from_word by done. cbn [app words_from].
    by rewrite bool_decide_eq_false_2.
  - change (join_words (w :: w' :: ws)) with (w ++ lit " " ++ join_words (w' :: ws)).
    rewrite words_from_word by done. cbn [app words_from lit String.list_ascii_of_string]. rewrite Hsp, bool_decide_eq_false_2 by done.
    by rewrite IH.
Qed.

Lemma join_words_nil ws : [] ∉ ws → join_words ws = [] → ws = [].
Proof.
  destruct ws as [|w [|w' ws]]; cbn; [done| |].
  - intros H ->. destruct H. by left.
  - by destruct w.
Qed.

(** The pieces between the separators. *)
Fixpoint split_on (sep : ascii) (text : bytes) : list bytes :=
  match text with
  | [] => [[]]
  | c :: text =>
      if c =c sep then [] :: split_on sep text
      else match split_on sep text with
           | piece :: pieces => (c :: piece) :: pieces
           | [] => [[c]]
           end
  end.

Lemma split_on_none sep text : sep ∉ text → split_on sep text = [text].
Proof.
  induction text as [|c text IH]; [done|]. intros [Hc Ht]%not_elem_of_cons. cbn [split_on].
  rewrite (proj2 (Ascii.eqb_neq c sep)) by congruence. by rewrite IH.
Qed.
Lemma split_on_app sep piece text :
  sep ∉ piece → split_on sep (piece ++ sep :: text) = piece :: split_on sep text.
Proof.
  induction piece as [|c piece IH]; cbn [app split_on]; [by rewrite Ascii.eqb_refl|].
  intros [Hc Hp]%not_elem_of_cons.
  rewrite (proj2 (Ascii.eqb_neq c sep)) by congruence. by rewrite IH.
Qed.

(** * Loops that may stop with an error *)

(** A loop over a list whose rounds may fail. *)
Fixpoint foldM {A S : Type} (f : S → A → option S) (s : S) (l : list A) : option S :=
  match l with
  | [] => Some s
  | x :: l => s ← f s x; foldM f s l
  end.

(** An invariant kept by the rounds that may occur holds at the end, and every
    round succeeds. *)
Lemma foldM_inv {A S : Type} (P : S → Prop) (f : S → A → option S) s l :
  P s → (∀ s x, x ∈ l → P s → ∃ s', f s x = Some s' ∧ P s') → ∃ s', foldM f s l = Some s' ∧ P s'.
Proof.
  intros Hs Hf. revert s Hs. induction l as [|x l IH]; intros s Hs; cbn [foldM]; [by exists s|].
  destruct (Hf s x) as (s' & -> & Hs'); [by left|done|]. cbn [mbind option_bind].
  apply IH; [|done]. intros s1 y Hy. apply Hf. by right.
Qed.
