(* ===== verification/Numbers.v ===== *)
(** Integers and their decimal text: the standard-library conversions the
    program calls, with the widths, the prefixes they accept and the ways
    they fail. *)
From S2P Require Import Prelude.

Definition int32_min : Z := - 2 ^ 31.
Definition int32_max : Z := 2 ^ 31 - 1.
Definition int64_min : Z := - 2 ^ 63.
Definition int64_max : Z := 2 ^ 63 - 1.
Definition uint64_max : Z := 2 ^ 64 - 1.

(** [std::to_string]. *)
Definition to_string (z : Z) : bytes := lit (pretty z).

#[export] Instance to_string_inj : Inj (=) (=) to_string.
Proof.
  intros x y H. apply (inj pretty). unfold to_string, lit in H.
  rewrite <- (String.string_of_list_ascii_of_string (pretty x)),
    <- (String.string_of_list_ascii_of_string (pretty y)). by rewrite H.
Qed.

Definition digit_value (c : ascii) : Z := code c - 48.

(** The value of the leading run of decimal digits, on top of [acc], and what
    follows it. *)
Fixpoint digits_value (acc : Z) (s : bytes) : Z * bytes :=
  match s with
  | c :: s' => if isdigit c then digits_value (acc * 10 + digit_value c) s' else (acc, s)
  | [] => (acc, [])
  end.

(** The prefix [strtol] and [strtoull] accept in base 10: white space, a sign,
    digits.  [None] when there is no digit. *)
Definition strto_prefix (s : bytes) : option (bool * Z * bytes) :=
  let s := lstrip isspace s in
  let '(negative, s) :=
    match s with
    | "-"%char :: s' => (true, s')
    | "+"%char :: s' => (false, s')
    | _ => (false, s)
    end in
  if head_is isdigit s then
    let '(v, rest) := digits_value 0 s in Some (negative, v, rest)
  else None.

Definition in_width (lo hi z : Z) : option Z :=
  if (lo <=? z) && (z <=? hi) then Some z else None.

(** [std::stol] and [std::stoi]; [None] is the exception. *)
Definition stol (s : bytes) : option Z :=
  match strto_prefix s with
  | Some (negative, v, _) => in_width int64_min int64_max (if negative then - v else v)
  | None => None
  end.
Definition stoi (s : bytes) : option Z :=
  match strto_prefix s with
  | Some (negative, v, _) => in_width int32_min int32_max (if negative then - v else v)
  | None => None
  end.

(** [strtoull(s, &end, 10)]: the value and [end], [None] for [end == s].  The
    value saturates, and a minus sign negates it modulo 2^64. *)
Definition strtoull (s : bytes) : Z * option bytes :=
  match strto_prefix s with
  | None => (0, None)
  | Some (negative, v, rest) =>
      if uint64_max <? v then (uint64_max, Some rest)
      else if negative then ((- v) mod 2 ^ 64, Some rest)
      else (v, Some rest)
  end.

(** [std::from_chars] into an [unsigned]: no white space, no sign.  [None] is
    an error code (no digit, or a value past 32 bits). *)
Definition from_chars_unsigned (s : bytes) : option (Z * bytes) :=
  if head_is isdigit s then
    let '(v, rest) := digits_value 0 s in
    if v <? 2 ^ 32 then Some (v, rest) else None
  else None.

(** [std::from_chars] into a [long long]: an optional minus sign. *)
Definition from_chars_ll (s : bytes) : option (Z * bytes) :=
  let '(negative, s) := match s with "-"%char :: s' => (true, s') | _ => (false, s) end in
  if head_is isdigit s then
    let '(v, rest) := digits_value 0 s in
    (λ z, (z, rest)) <$> in_width int64_min int64_max (if negative then - v else v)
  else None.

Lemma in_width_Some lo hi z z' : in_width lo hi z = Some z' → z' = z ∧ lo <= z <= hi.
Proof.
  unfold in_width. destruct (_ && _) eqn:E; [|done]. intros [= ->].
  apply andb_prop in E as [?%Z.leb_le ?%Z.leb_le]. lia.
Qed.

Lemma stoi_range s z : stoi s = Some z → int32_min <= z <= int32_max.
Proof.
  unfold stoi. destruct (strto_prefix s) as [[[neg v] r]|]; [|done]. cbn.
  intros [-> ?]%in_width_Some. done.
Qed.

(** ** Printing and reading back *)

(** The digits [pretty] writes, least significant last. *)
Lemma digits_value_app s t acc :
  Forall (λ c, isdigit c = true) s →
  digits_value acc (s ++ t) = digits_value (digits_value acc s).1 t.
Proof.
  revert acc. induction s as [|c s IH]; intros acc Hs; cbn; [done|].
  apply Forall_cons in Hs as [-> Hs]. by apply IH.
Qed.

Lemma digits_value_all s acc :
  Forall (λ c, isdigit c = true) s → (digits_value acc s).2 = [].
Proof.
  revert acc. induction s as [|c s IH]; intros acc Hs; cbn; [done|].
  apply Forall_cons in Hs as [-> Hs]. by apply IH.
Qed.

Lemma pretty_N_char_digit x :
  (x < 10)%N → isdigit (pretty_N_char x) = true ∧ digit_value (pretty_N_char x) = Z.of_N x.
Proof.
  intros Hx. assert (x = 0 ∨ x = 1 ∨ x = 2 ∨ x = 3 ∨ x = 4 ∨ x = 5 ∨ x = 6 ∨ x = 7 ∨ x = 8 ∨
    x = 9)%N as Hc by lia.
  repeat destruct Hc as [->|Hc]; [done..|by subst].
Qed.

Lemma pretty_N_go_digits x s :
  ∃ d, lit (pretty_N_go x s) = d ++ lit s ∧ Forall (λ c, isdigit c = true) d ∧
       (digits_value 0 d).1 = Z.of_N x ∧ ((0 < x)%N → d ≠ []).
Proof.
  revert s. induction (N.lt_wf_0 x) as [x _ IH]; intros s.
  assert (x = 0 ∨ 0 < x)%N as [->|Hx] by lia.
  { exists []. rewrite pretty_N_go_0. split_and!; try done. }
  rewrite pretty_N_go_step by done.
  destruct (IH (x `div` 10)%N) with (s := String (pretty_N_char (x `mod` 10)) s)
    as (d & Hd & Hall & Hv & _); [by apply N.div_lt|].
  destruct (pretty_N_char_digit (x `mod` 10)%N) as [Hc Hcv]; [by apply N.mod_lt|].
  exists (d ++ [pretty_N_char (x `mod` 10)]). split_and!.
  - rewrite Hd. unfold lit at 1. cbn. by rewrite <- app_assoc.
  - apply Forall_app_2; [done|]. by repeat constructor.
  - rewrite digits_value_app by done. cbn. rewrite Hc. cbn. rewrite Hv, Hcv.
    pose proof (N.div_mod x 10). lia.
  - intros _. by destruct d.
Qed.

(** [std::to_string] of a natural number is its digits. *)
Lemma to_string_digits z :
  0 <= z → Forall (λ c, isdigit c = true) (to_string z) ∧ to_string z ≠ [] ∧
           (digits_value 0 (to_string z)).1 = z.
Proof.
  intros Hz. unfold to_string, pretty, pretty_Z. destruct z as [|p|p]; [| |lia].
  { split_and!; [by repeat constructor|done|done]. }
  change (pretty p) with (pretty_N_go (N.pos p) "").
  destruct (pretty_N_go_digits (N.pos p) "") as (d & Hd & Hall & Hv & Hne).
  rewrite Hd, app_nil_r. split_and!; [done|by apply Hne|done].
Qed.

Lemma length_pretty_N_go x s :
  (0 < x)%N → (length (lit (pretty_N_go x s)) ≤ S (N.to_nat (N.log2 x)) + length (lit s))%nat.
Proof.
  revert s. induction (N.lt_wf_0 x) as [x _ IH]; intros s Hx. rewrite pretty_N_go_step by done.
  destruct (N.eq_0_gt_0_cases (x `div` 10)) as [Hd|Hd]; [rewrite Hd, pretty_N_go_0; change (length (lit (String _ s))) with (S (length (lit s))); lia|].
  etrans; [apply (IH (x `div` 10)%N); [by apply N.div_lt|done]|].
  assert (2 * (x / 10) <= x)%N as Hle by (pose proof (N.Div0.mul_div_le x 10); lia).
  apply N.log2_le_mono in Hle. rewrite N.log2_double in Hle by done.
  change (length (lit (String _ s))) with (S (length (lit s))). lia.
Qed.
(** A natural number below 2^31 has few digits. *)
Lemma length_to_string z : 0 <= z < 2 ^ 31 → (length (to_string z) ≤ 32)%nat.
Proof.
  intros Hz. unfold to_string, pretty, pretty_Z. destruct z as [|p|p]; [cbn; lia| |lia].
  change (pretty p) with (pretty_N_go (N.pos p) "").
  etrans; [by apply length_pretty_N_go|]. assert (N.log2 (N.pos p) <= N.log2 (2 ^ 31))%N as Hl by (apply N.log2_le_mono; lia).
  change (N.log2 (2 ^ 31)) with 31%N in Hl. cbn [lit String.list_ascii_of_string length]. lia.
Qed.

Lemma from_chars_ll_to_string z : 0 <= z <= int64_max → from_chars_ll (to_string z) = Some (z, []).
Proof.
  intros Hz. destruct (to_string_digits z) as (Hall & Hne & Hv); [lia|].
  pose proof (digits_value_all _ 0 Hall) as Hrest. unfold from_chars_ll.
  assert (match to_string z with "-"%char :: s' => (true, s') | _ => (false, to_string z) end = (false, to_string z)) as ->.
  { destruct (to_string z) as [|c s]; [done|]. apply Forall_cons in Hall as [Hc _].
    destruct c as [[] [] [] [] [] [] [] []]; by vm_compute in Hc |- *. }
  assert (head_is isdigit (to_string z) = true) as ->.
  { destruct (to_string z) as [|c s]; [done|]. by apply Forall_cons in Hall as [Hc _]. }
  destruct (digits_value 0 (to_string z)) as [v rest]. cbn [fst snd] in *. subst v rest.
  unfold in_width. rewrite (proj2 (Z.leb_le _ _)), (proj2 (Z.leb_le _ _)) by (unfold int64_min; lia). done.
Qed.

(** Reading a printed number back, with something that is not a digit (or
    nothing) after it. *)
Lemma digits_value_to_string z rest :
  0 <= z → head_is isdigit rest = false → digits_value 0 (to_string z ++ rest) = (z, rest).
Proof.
  intros Hz Hrest. destruct (to_string_digits z Hz) as (Hall & _ & Hv).
  rewrite digits_value_app, Hv by done. destruct rest as [|c rest]; [done|].
  cbn in Hrest |- *. by rewrite Hrest.
Qed.

Lemma head_to_string z rest : 0 <= z → head_is isdigit (to_string z ++ rest) = true.
Proof.
  intros Hz. destruct (to_string_digits z Hz) as (Hall & Hne & _).
  destruct (to_string z) as [|c s]; [done|]. by apply Forall_cons in Hall as [? _].
Qed.

Lemma from_chars_to_string z rest :
  0 <= z < 2 ^ 32 → head_is isdigit rest = false →
  from_chars_unsigned (to_string z ++ rest) = Some (z, rest).
Proof.
  intros Hz Hrest. unfold from_chars_unsigned.
  rewrite head_to_string, digits_value_to_string by (done || lia).
  by rewrite (proj2 (Z.ltb_lt z (2 ^ 32))) by lia.
Qed.
