(* ===== verification/Double.v ===== *)
(** Binary64 arithmetic, as the program's [double]s: the operations are
    [SpecFloat]'s (IEEE 754, round to nearest even, 53-bit significand), which
    compute inside the kernel; comparison is by value. *)
From S2P Require Import Prelude Numbers.
From Stdlib Require Import SpecFloat.

Abbreviation double := spec_float.

Definition dprec : Z := 53.
Definition demax : Z := 1024.

(** [static_cast<double>(z)] of an integer. *)
Definition of_Z (z : Z) : double := binary_normalize dprec demax z 0 false.
Definition dadd : double → double → double := SFadd dprec demax.
Definition dmul : double → double → double := SFmul dprec demax.
Definition ddiv : double → double → double := SFdiv dprec demax.
Definition dzero : double := S754_zero false.

Definition is_nan (x : double) : bool := match x with S754_nan => true | _ => false end.
Definition is_finite (x : double) : bool :=
  match x with S754_nan | S754_infinity _ => false | _ => true end.

(** A finite double is [M * 2^e]. *)
Definition parts (x : double) : Z * Z :=
  match x with
  | S754_finite s m e => (cond_Zopp s (Zpos m), e)
  | _ => (0, 0)
  end.

(** [x < y]; false as soon as one side is a NaN. *)
Definition dlt (x y : double) : bool :=
  match x, y with
  | S754_nan, _ | _, S754_nan => false
  | S754_infinity s, S754_infinity s' => s && negb s'
  | S754_infinity s, _ => s
  | _, S754_infinity s => negb s
  | _, _ =>
      let '(m, e) := parts x in
      let '(m', e') := parts y in
      let lo := Z.min e e' in
      Z.shiftl m (e - lo) <? Z.shiftl m' (e' - lo)
  end.

(** [std::clamp(v, lo, hi)]. *)
Definition dclamp (v lo hi : double) : double :=
  if dlt v lo then lo else if dlt hi v then hi else v.

(** [std::floor] and [std::ceil]; a zero result keeps the argument's sign. *)
Definition dfloor (x : double) : double :=
  match x with
  | S754_finite s m e =>
      if 0 <=? e then x
      else let z := Z.shiftl (cond_Zopp s (Zpos m)) e in
           if z =? 0 then S754_zero s else of_Z z
  | _ => x
  end.
Definition dceil (x : double) : double :=
  match x with
  | S754_finite s m e =>
      if 0 <=? e then x
      else let z := - Z.shiftl (- cond_Zopp s (Zpos m)) e in
           if z =? 0 then S754_zero s else of_Z z
  | _ => x
  end.
(** [x <= y]. *)
Definition dle (x y : double) : bool := negb (is_nan x) && negb (is_nan y) && negb (dlt y x).
(** [std::max]. *)
Definition dmax (x y : double) : double := if dlt x y then y else x.
(** [std::min], subtraction and [std::trunc]. *)
Definition dmin (x y : double) : double := if dlt y x then y else x.
Definition dsub : double → double → double := SFsub dprec demax.
Definition dtrunc (x : double) : double :=
  match x with
  | S754_finite s m e =>
      if 0 <=? e then x
      else let z := Z.shiftl (Zpos m) e in
           if z =? 0 then S754_zero s else of_Z (cond_Zopp s z)
  | _ => x
  end.
Definition dsqrt : double → double := SFsqrt dprec demax.
(** [std::nearbyint] in the default mode: halves go to the even integer. *)
Definition dnearbyint (x : double) : double :=
  match x with
  | S754_finite s m e =>
      if 0 <=? e then x
      else
        let q := Z.shiftr (Zpos m) (- e) in
        let twice_rest := 2 * (Zpos m - Z.shiftl q (- e)) in
        let unit := Z.shiftl 1 (- e) in
        let q := if (twice_rest <? unit) || (twice_rest =? unit) && Z.even q then q else q + 1 in
        if q =? 0 then S754_zero s else of_Z (cond_Zopp s q)
  | _ => x
  end.

(** [static_cast<int>(x)]: truncation toward zero.  C++ leaves it undefined
    for a NaN, an infinity or a value past [int]; the callers clamp first. *)
Definition to_int (x : double) : Z :=
  let '(m, e) := parts x in
  if m <? 0 then - Z.shiftl (- m) e else Z.shiftl m e.

(** The double nearest to [n / 10^k]. *)
Definition of_decimal (n : Z) (k : nat) : double :=
  if bool_decide (k = 0%nat) then of_Z n
  else if n =? 0 then dzero
  else
    let '(q, e, l) := SFdiv_core_binary dprec demax n 0 (10 ^ Z.of_nat k) 0 in
    binary_round_aux dprec demax false q e l.
(** [std::from_chars] into a [double], on text without sign or exponent: the
    digits with at most one period it begins with.  [None] is an error code: no
    digit, or a value past the range of normal numbers on either side. *)
Definition from_chars_double (s : bytes) : option (double * bytes) :=
  let '(whole, rest) := digits_value 0 s in
  let '(n, k, rest') :=
    match rest with
    | "."%char :: t => let '(n, rest') := digits_value whole t in (n, (length t - length rest')%nat, rest')
    | _ => (whole, 0%nat, rest)
    end in
  if bool_decide (length rest = length s ∧ k = 0%nat) then None else
  let x := of_decimal n k in
  if negb (is_finite x) || (negb (n =? 0) && match x with S754_zero _ => true | _ => false end) then None else Some (x, rest').

(** ** [std::from_chars] in its general format *)

(** The double nearest to [n * 10^e]. *)
Definition of_decimal_exp (n e : Z) : double :=
  if 0 <=? e then of_Z (n * 10 ^ e) else of_decimal n (Z.to_nat (- e)).
Definition dneg : double → double := SFopp.
(** An exponent, if one follows with a digit in it: its value and the rest. *)
Definition exponent_part (s : bytes) : Z * bytes :=
  match s with
  | ("e" | "E")%char :: t =>
      let '(negative, t) := match t with
                            | "-"%char :: t => (true, t) | "+"%char :: t => (false, t) | _ => (false, t) end in
      if head_is isdigit t then
        let '(n, rest) := digits_value 0 t in ((if negative then - n else n), rest)
      else (0, s)
  | _ => (0, s)
  end.
(** "inf", "infinity", "nan" and "nan(...)" in any case. *)
Definition special_part (s : bytes) : option (double * bytes) :=
  let folded := tolower <$> s in
  if starts_with (lit "infinity") folded then Some (S754_infinity false, drop 8 s)
  else if starts_with (lit "inf") folded then Some (S754_infinity false, drop 3 s)
  else if starts_with (lit "nan") folded then
    let rest := drop 3 s in
    let payload := span (λ c, isalnum c || (c =c "_"%char)) (drop 1 rest) in
    if head_is (Ascii.eqb "("%char) rest && head_is (Ascii.eqb ")"%char) (drop (S payload) rest)
    then Some (S754_nan, drop (2 + payload) rest) else Some (S754_nan, rest)
  else None.
(** Digits with at most one period and an exponent. *)
Definition number_part (s : bytes) : option (double * bytes) :=
  let '(whole, rest) := digits_value 0 s in
  let '(n, k, rest') :=
    match rest with
    | "."%char :: t => let '(n, rest') := digits_value whole t in (n, (length t - length rest')%nat, rest')
    | _ => (whole, 0%nat, rest)
    end in
  if bool_decide (length rest = length s ∧ k = 0%nat) then None else
  let '(e, rest'') := exponent_part rest' in
  let x := if n =? 0 then dzero else of_decimal_exp n (e - Z.of_nat k) in
  if negb (is_finite x) || (negb (n =? 0) && match x with S754_zero _ => true | _ => false end) then None
  else Some (x, rest'').
Definition from_chars_general (s : bytes) : option (double * bytes) :=
  let '(negative, t) := match s with "-"%char :: t => (true, t) | _ => (false, s) end in
  '(x, rest) ← match special_part t with Some r => Some r | None => number_part t end;
  Some (if negative then dneg x else x, rest).

(** ** Integers below 2^53 convert exactly *)

Lemma digits2_shift k m :
  Zpos (digits2_pos (Pos.iter xO m k)) = Zpos (digits2_pos m) + Zpos k.
Proof.
  induction k as [|k IH] using Pos.peano_ind; [cbn; lia|].
  rewrite Pos.iter_succ. cbn [digits2_pos]. lia.
Qed.

Lemma iter_xO k m : Zpos (Pos.iter xO m k) = Zpos m * 2 ^ Zpos k.
Proof.
  induction k as [|k IH] using Pos.peano_ind; [cbn; lia|].
  rewrite Pos.iter_succ, Pos2Z.inj_succ, Z.pow_succ_r by lia.
  rewrite Pos2Z.inj_xO, IH. lia.
Qed.

Lemma digits2_bound m d : Zpos m < 2 ^ d → 0 <= d → Zpos (digits2_pos m) <= d.
Proof.
  revert d; induction m as [m IH|m IH|]; intros d Hm Hd; cbn [digits2_pos].
  1, 2: destruct (Z.eq_dec d 0) as [->|]; [cbn in Hm; lia|];
    rewrite <- (Z.succ_pred d), Z.pow_succ_r in Hm by lia;
    specialize (IH (Z.pred d) ltac:(lia) ltac:(lia)); lia.
  destruct (Z.eq_dec d 0) as [->|]; [cbn in Hm; lia|lia].
Qed.

(** An already aligned significand needs no rounding. *)
Lemma round_aligned s m e :
  Zpos (digits2_pos m) = dprec → -1074 <= e <= 0 →
  binary_round_aux dprec demax s (Zpos m) e loc_Exact = S754_finite s m e.
Proof.
  intros Hd He. unfold binary_round_aux, shr_fexp.
  assert (Hf : fexp dprec demax (Zdigits2 (Zpos m) + e) - e = 0).
  { cbn [Zdigits2]. rewrite Hd. unfold fexp, SpecFloat.emin, dprec, demax. lia. }
  cbn [shr_record_of_loc]. rewrite Hf. cbn [shr shr_m loc_of_shr_record round_nearest_even].
  rewrite Hf. cbn [shr shr_m].
  destruct (Z.leb_spec e (demax - dprec)); [done|unfold demax, dprec in *; lia].
Qed.

Lemma binary_round_exact s m :
  Zpos m < 2 ^ 53 →
  ∃ m' e, binary_round dprec demax s m 0 = S754_finite s m' e ∧
          e <= 0 ∧ Zpos m' = Zpos m * 2 ^ (- e).
Proof.
  intros Hm. pose proof (digits2_bound m 53 Hm ltac:(lia)) as Hd.
  unfold binary_round.
  assert (Hf : fexp dprec demax (Zpos (digits2_pos m) + 0) = Zpos (digits2_pos m) - 53).
  { unfold fexp, SpecFloat.emin, dprec, demax. lia. }
  rewrite Hf. unfold shl_align.
  destruct (Zpos (digits2_pos m) - 53 - 0) as [|k|k] eqn:Hk; [|lia|].
  - rewrite round_aligned; [|unfold dprec; lia|lia]. exists m, 0. cbn. split_and!; [done|lia|lia].
  - rewrite round_aligned; [|rewrite digits2_shift; unfold dprec; lia|lia].
    eexists _, _. split_and!; [done|lia|]. rewrite iter_xO. do 2 f_equal. lia.
Qed.

Lemma of_Z_exact z :
  0 <= z < 2 ^ 53 →
  ∃ m e, parts (of_Z z) = (m, e) ∧ is_finite (of_Z z) = true ∧ e <= 0 ∧ m = z * 2 ^ (- e).
Proof.
  intros Hz. unfold of_Z, binary_normalize. destruct z as [|p|p]; [|  |lia].
  - exists 0, 0. done.
  - destruct (binary_round_exact false p ltac:(lia)) as (m & e & -> & ? & ?).
    exists (Zpos m), e. done.
Qed.

Lemma to_int_of_Z z : 0 <= z < 2 ^ 53 → to_int (of_Z z) = z.
Proof.
  intros Hz. destruct (of_Z_exact z Hz) as (m & e & E & _ & ? & ->).
  unfold to_int. rewrite E.
  destruct (Z.ltb_spec (z * 2 ^ (- e)) 0); [nia|].
  rewrite <- (Z.opp_involutive e) at 2.
  rewrite Z.shiftl_opp_r, Z.shiftr_div_pow2, Z.div_mul by lia. done.
Qed.

Lemma parts_of_Z z : 0 <= z < 2 ^ 53 → ∃ e, parts (of_Z z) = (z * 2 ^ (- e), e) ∧ e <= 0.
Proof. intros Hz. destruct (of_Z_exact z Hz) as (m & e & E & _ & He & ->). by exists e. Qed.
(** Comparing two of them compares the integers. *)
Lemma dlt_of_Z a b : 0 <= a < 2 ^ 53 → 0 <= b < 2 ^ 53 → dlt (of_Z a) (of_Z b) = (a <? b).
Proof.
  intros Ha Hb. destruct (of_Z_exact a Ha) as (ma & ea & Ea & Fa & Hea & ->).
  destruct (of_Z_exact b Hb) as (mb & eb & Eb & Fb & Heb & ->).
  assert (Hlt : dlt (of_Z a) (of_Z b) =
    (Z.shiftl (a * 2 ^ (- ea)) (ea - Z.min ea eb) <? Z.shiftl (b * 2 ^ (- eb)) (eb - Z.min ea eb))).
  { revert Ea Eb Fa Fb. destruct (of_Z a), (of_Z b); try done; cbn [dlt]; intros -> -> _ _; done. }
  rewrite Hlt. rewrite !Z.shiftl_mul_pow2 by lia.
  rewrite <- !Z.mul_assoc, <- !Z.pow_add_r by lia.
  replace (- ea + (ea - Z.min ea eb)) with (- Z.min ea eb) by lia.
  replace (- eb + (eb - Z.min ea eb)) with (- Z.min ea eb) by lia.
  pose proof (Z.pow_pos_nonneg 2 (- Z.min ea eb) ltac:(lia) ltac:(lia)) as Hp.
  apply eq_true_iff_eq. rewrite !Z.ltb_lt. split; intros; nia.
Qed.
Lemma dlt_asym x y : dlt x y = true → dlt y x = false.
Proof.
  assert (Hcore : ∀ p q : Z * Z, (let '(m, e) := p in let '(m', e') := q in
      let lo := Z.min e e' in Z.shiftl m (e - lo) <? Z.shiftl m' (e' - lo)) = true →
    (let '(m, e) := q in let '(m', e') := p in
      let lo := Z.min e e' in Z.shiftl m (e - lo) <? Z.shiftl m' (e' - lo)) = false).
  { intros [m e] [m' e']. cbv zeta. rewrite (Z.min_comm e' e), Z.ltb_lt, Z.ltb_ge. lia. }
  unfold dlt. destruct x as [| [] | |], y as [| [] | |]; try done; apply Hcore.
Qed.
Lemma dlt_dle x y : dlt x y = true → dle x y = true.
Proof. intros H. unfold dle. rewrite (dlt_asym _ _ H). by destruct x, y. Qed.
Lemma dle_of_Z a b : 0 <= a < 2 ^ 53 → 0 <= b < 2 ^ 53 → dle (of_Z a) (of_Z b) = (a <=? b).
Proof.
  intros Ha Hb. unfold dle. rewrite dlt_of_Z by done.
  destruct (of_Z_exact a Ha) as (? & ? & _ & Fa & _). destruct (of_Z_exact b Hb) as (? & ? & _ & Fb & _).
  assert (is_nan (of_Z a) = false) as -> by by destruct (of_Z a).
  assert (is_nan (of_Z b) = false) as -> by by destruct (of_Z b).
  apply eq_true_iff_eq. cbn. rewrite negb_true_iff, Z.ltb_ge, Z.leb_le. done.
Qed.

(** A natural number reads back as the double it converts to. *)
Lemma number_part_digits z : 0 <= z < 2 ^ 53 → number_part (to_string z) = Some (of_Z z, []).
Proof.
  intros Hz. destruct (to_string_digits z) as (_ & Hne & _); [lia|]. unfold number_part.
  rewrite <- (app_nil_r (to_string z)) at 1. rewrite digits_value_to_string by (done || lia).
  rewrite bool_decide_eq_false_2 by (intros [E _]; by destruct (to_string z)). cbn [exponent_part].
  destruct (Z.eqb_spec z 0) as [->|Hnz]; [done|].
  assert (of_decimal_exp z (0 - Z.of_nat 0) = of_Z z) as -> by (unfold of_decimal_exp; cbn; by rewrite Z.mul_1_r).
  destruct (of_Z_exact z Hz) as (m & e & E & F & He & Hm). rewrite F. cbn [negb orb andb].
  assert (m ≠ 0) as Hnm by (pose proof (Z.pow_pos_nonneg 2 (- e) ltac:(lia) ltac:(lia)); nia).
  destruct (of_Z z); try done. cbn in E. by injection E as <- _.
Qed.
Lemma from_chars_general_digits z : 0 <= z < 2 ^ 53 → from_chars_general (to_string z) = Some (of_Z z, []).
Proof.
  intros Hz. pose proof (number_part_digits z Hz) as Hn. revert Hn.
  destruct (to_string_digits z) as (Hall & Hne & _); [lia|].
  destruct (to_string z) as [|c s]; [done|]. apply Forall_cons in Hall as [Hc _].
  intros Hn. unfold from_chars_general.
  assert (special_part (c :: s) = None ∧ (c ≠ "-"%char)) as [Hspecial Hminus].
  { clear -Hc. destruct c as [[] [] [] [] [] [] [] []]; vm_compute in Hc; done. }
  destruct c as [[] [] [] [] [] [] [] []]; try (by destruct Hminus); rewrite Hspecial, Hn; done.
Qed.

(** ** Clamping *)

Lemma shiftl_mono a b n : a <= b → Z.shiftl a n <= Z.shiftl b n.
Proof.
  intros ?. destruct (Z.le_gt_cases 0 n).
  - rewrite !Z.shiftl_mul_pow2 by lia. nia.
  - rewrite <- (Z.opp_involutive n), !Z.shiftl_opp_r, !Z.shiftr_div_pow2 by lia.
    apply Z.div_le_mono; lia.
Qed.

(** Truncation is monotone on what [dlt] does not order the other way, from
    zero up. *)
Lemma to_int_mono x y :
  is_finite x = true → is_finite y = true → dlt y x = false →
  0 <= (parts x).1 → 0 <= (parts y).1 → to_int x <= to_int y.
Proof.
  intros Hx Hy Hlt H1 H2. unfold to_int.
  assert (Hlt' : let '(m, e) := parts y in let '(m', e') := parts x in
    (Z.shiftl m (e - Z.min e e') <? Z.shiftl m' (e' - Z.min e e')) = false).
  { destruct x, y; done. }
  destruct (parts x) as [m e], (parts y) as [m' e']. cbn [fst] in *.
  rewrite (proj2 (Z.ltb_ge m 0)), (proj2 (Z.ltb_ge m' 0)) by lia.
  apply Z.ltb_ge, (shiftl_mono _ _ (Z.min e' e)) in Hlt'.
  rewrite !Z.shiftl_shiftl in Hlt' by lia.
  by replace (e - Z.min e' e + Z.min e' e) with e in Hlt' by lia;
    replace (e' - Z.min e' e + Z.min e' e) with e' in Hlt' by lia.
Qed.

Lemma dlt_zero_parts v : is_finite v = true → dlt v dzero = false → 0 <= (parts v).1.
Proof.
  destruct v as [s|s| |s m e]; try done. intros _. destruct s; [|done].
  cbn -[Z.shiftl Z.min]. intros H. apply Z.ltb_ge in H.
  rewrite Z.shiftl_0_l, Z.shiftl_mul_pow2 in H by lia.
  pose proof (Z.pow_pos_nonneg 2 (e - Z.min e 0) ltac:(lia) ltac:(lia)). nia.
Qed.

(** The value [static_cast<int>(std::clamp(v, 0.0, w))] lies in [0, w]. *)
Lemma to_int_clamp v w :
  is_nan v = false → 0 <= w < 2 ^ 53 → 0 <= to_int (dclamp v dzero (of_Z w)) <= w.
Proof.
  intros Hn Hw. destruct (of_Z_exact w Hw) as (m & e & Em & Hf & ? & Hm).
  assert (0 <= m) by (subst; pose proof (Z.pow_nonneg 2 (- e)); nia).
  unfold dclamp. destruct (dlt v dzero) eqn:E0; [change (to_int dzero) with 0; lia|].
  destruct (dlt (of_Z w) v) eqn:E1; [rewrite to_int_of_Z by done; lia|].
  assert (Hv : is_finite v = true).
  { destruct v as [|s| |]; try done. destruct s; [done|]. by destruct (of_Z w). }
  pose proof (dlt_zero_parts v Hv E0). split.
  - unfold to_int. destruct (parts v) as [mv ev]. cbn [fst] in *.
    rewrite (proj2 (Z.ltb_ge mv 0)) by lia. by apply Z.shiftl_nonneg.
  - transitivity (to_int (of_Z w)); [|by rewrite to_int_of_Z].
    apply to_int_mono; try done. by rewrite Em.
Qed.
