(* ===== verification/Json.v ===== *)
(** JSON as the program reads it through nlohmann::json: a parsed value is one
    of [json], and parsing and printing are the interface [Json]. *)
From S2P Require Import Prelude Numbers Double.

(** An nlohmann value: non-negative integers parse as unsigned.  An object is
    the list of its members, one per key. *)
Inductive json :=
  | JNull
  | JBool (b : bool)
  | JUnsigned (z : Z)
  | JInteger (z : Z)
  | JFloat (d : double)
  | JString (s : bytes)
  | JArray (elements : list json)
  | JObject (members : list (bytes * json)).

(** [nlohmann::json::parse(s, nullptr, false)], [None] for a discarded value,
    and [dump()]. *)
Class Json := {
  json_parse : bytes → option json;
  json_dump : json → bytes }.

(** [find(key)] on an object. *)
Fixpoint member (key : bytes) (members : list (bytes * json)) : option json :=
  match members with
  | [] => None
  | (k, v) :: members' => if k =b key then Some v else member key members'
  end.

(** [is_number()] with [get<double>()]. *)
Definition number_of (value : json) : option double :=
  match value with
  | JUnsigned z | JInteger z => Some (of_Z z)
  | JFloat d => Some d
  | _ => None
  end.
(** A member that is a number, a string, an unsigned integer. *)
Definition number_member (key : bytes) (members : list (bytes * json)) : option double :=
  member key members ≫= number_of.
Definition string_member (key : bytes) (members : list (bytes * json)) : option bytes :=
  match member key members with Some (JString s) => Some s | _ => None end.
Definition unsigned_member (key : bytes) (members : list (bytes * json)) : option Z :=
  match member key members with Some (JUnsigned z) => Some z | _ => None end.
