(* ===== verification/Proto.v ===== *)
(** The protobuf messages the mappers build (proto/ai/pipestream/document/v1
    and proto/ai/pipestream/vlm/v1), with the fields the program sets; a field
    no code under src/ writes is left out.  A [string] or [bytes] field is its
    bytes, [optional] and message-typed fields are options, [repeated] ones
    lists, and every record has the [_empty] value of a fresh message. *)
From S2P Require Import Prelude Double.

(** * Enums *)

Inductive ContentLayer : Set :=
  | CONTENT_LAYER_UNSPECIFIED | CONTENT_LAYER_BODY | CONTENT_LAYER_FURNITURE
  | CONTENT_LAYER_BACKGROUND | CONTENT_LAYER_INVISIBLE | CONTENT_LAYER_NOTES.
#[export] Instance ContentLayer_eq_dec : EqDecision ContentLayer.
Proof. solve_decision. Defined.

Inductive GroupLabel : Set :=
  | GROUP_LABEL_UNSPECIFIED | GROUP_LABEL_LIST | GROUP_LABEL_ORDERED_LIST
  | GROUP_LABEL_CHAPTER | GROUP_LABEL_SECTION | GROUP_LABEL_SHEET | GROUP_LABEL_SLIDE
  | GROUP_LABEL_FORM_AREA | GROUP_LABEL_KEY_VALUE_AREA | GROUP_LABEL_COMMENT_SECTION
  | GROUP_LABEL_INLINE | GROUP_LABEL_PICTURE_AREA.
#[export] Instance GroupLabel_eq_dec : EqDecision GroupLabel.
Proof. solve_decision. Defined.

Inductive DocItemLabel : Set :=
  | DOC_ITEM_LABEL_UNSPECIFIED | DOC_ITEM_LABEL_CAPTION | DOC_ITEM_LABEL_CHART
  | DOC_ITEM_LABEL_CHECKBOX_SELECTED | DOC_ITEM_LABEL_CHECKBOX_UNSELECTED
  | DOC_ITEM_LABEL_CODE | DOC_ITEM_LABEL_DOCUMENT_INDEX | DOC_ITEM_LABEL_EMPTY_VALUE
  | DOC_ITEM_LABEL_FOOTNOTE | DOC_ITEM_LABEL_FORM | DOC_ITEM_LABEL_FORMULA
  | DOC_ITEM_LABEL_GRADING_SCALE | DOC_ITEM_LABEL_HANDWRITTEN_TEXT
  | DOC_ITEM_LABEL_KEY_VALUE_REGION | DOC_ITEM_LABEL_LIST_ITEM | DOC_ITEM_LABEL_PAGE_FOOTER
  | DOC_ITEM_LABEL_PAGE_HEADER | DOC_ITEM_LABEL_PARAGRAPH | DOC_ITEM_LABEL_PICTURE
  | DOC_ITEM_LABEL_REFERENCE | DOC_ITEM_LABEL_SECTION_HEADER | DOC_ITEM_LABEL_TABLE
  | DOC_ITEM_LABEL_TEXT | DOC_ITEM_LABEL_TITLE | DOC_ITEM_LABEL_FIELD_REGION
  | DOC_ITEM_LABEL_FIELD_HEADING | DOC_ITEM_LABEL_FIELD_ITEM | DOC_ITEM_LABEL_FIELD_KEY
  | DOC_ITEM_LABEL_FIELD_VALUE | DOC_ITEM_LABEL_FIELD_HINT | DOC_ITEM_LABEL_MARKER
  | DOC_ITEM_LABEL_SEAL | DOC_ITEM_LABEL_ASIDE | DOC_ITEM_LABEL_ALGORITHM.
#[export] Instance DocItemLabel_eq_dec : EqDecision DocItemLabel.
Proof. solve_decision. Defined.

Inductive CoordOrigin : Set :=
  | COORD_ORIGIN_UNSPECIFIED | COORD_ORIGIN_TOPLEFT | COORD_ORIGIN_BOTTOMLEFT.
#[export] Instance CoordOrigin_eq_dec : EqDecision CoordOrigin.
Proof. solve_decision. Defined.

Inductive CodeLanguageLabel : Set :=
  | CODE_LANGUAGE_LABEL_UNSPECIFIED | CODE_LANGUAGE_LABEL_ADA | CODE_LANGUAGE_LABEL_AWK
  | CODE_LANGUAGE_LABEL_BASH | CODE_LANGUAGE_LABEL_BC | CODE_LANGUAGE_LABEL_C
  | CODE_LANGUAGE_LABEL_C_SHARP | CODE_LANGUAGE_LABEL_C_PLUS_PLUS
  | CODE_LANGUAGE_LABEL_CMAKE | CODE_LANGUAGE_LABEL_COBOL | CODE_LANGUAGE_LABEL_CSS
  | CODE_LANGUAGE_LABEL_CEYLON | CODE_LANGUAGE_LABEL_CLOJURE | CODE_LANGUAGE_LABEL_CRYSTAL
  | CODE_LANGUAGE_LABEL_CUDA | CODE_LANGUAGE_LABEL_CYTHON | CODE_LANGUAGE_LABEL_D
  | CODE_LANGUAGE_LABEL_DART | CODE_LANGUAGE_LABEL_DC | CODE_LANGUAGE_LABEL_DOCKERFILE
  | CODE_LANGUAGE_LABEL_ELIXIR | CODE_LANGUAGE_LABEL_ERLANG | CODE_LANGUAGE_LABEL_FORTRAN
  | CODE_LANGUAGE_LABEL_FORTH | CODE_LANGUAGE_LABEL_GO | CODE_LANGUAGE_LABEL_HTML
  | CODE_LANGUAGE_LABEL_HASKELL | CODE_LANGUAGE_LABEL_HAXE | CODE_LANGUAGE_LABEL_JAVA
  | CODE_LANGUAGE_LABEL_JAVASCRIPT | CODE_LANGUAGE_LABEL_JSON | CODE_LANGUAGE_LABEL_JULIA
  | CODE_LANGUAGE_LABEL_KOTLIN | CODE_LANGUAGE_LABEL_LISP | CODE_LANGUAGE_LABEL_LUA
  | CODE_LANGUAGE_LABEL_MATLAB | CODE_LANGUAGE_LABEL_MOONSCRIPT | CODE_LANGUAGE_LABEL_NIM
  | CODE_LANGUAGE_LABEL_OCAML | CODE_LANGUAGE_LABEL_OBJECTIVEC | CODE_LANGUAGE_LABEL_OCTAVE
  | CODE_LANGUAGE_LABEL_PHP | CODE_LANGUAGE_LABEL_PASCAL | CODE_LANGUAGE_LABEL_PERL
  | CODE_LANGUAGE_LABEL_PROLOG | CODE_LANGUAGE_LABEL_PYTHON | CODE_LANGUAGE_LABEL_RACKET
  | CODE_LANGUAGE_LABEL_RUBY | CODE_LANGUAGE_LABEL_RUST | CODE_LANGUAGE_LABEL_SML
  | CODE_LANGUAGE_LABEL_SQL | CODE_LANGUAGE_LABEL_SCALA | CODE_LANGUAGE_LABEL_SCHEME
  | CODE_LANGUAGE_LABEL_SWIFT | CODE_LANGUAGE_LABEL_TYPESCRIPT
  | CODE_LANGUAGE_LABEL_UNKNOWN | CODE_LANGUAGE_LABEL_VISUALBASIC | CODE_LANGUAGE_LABEL_XML
  | CODE_LANGUAGE_LABEL_YAML | CODE_LANGUAGE_LABEL_LATEX | CODE_LANGUAGE_LABEL_TIKZ
  | CODE_LANGUAGE_LABEL_DOCLANG.
#[export] Instance CodeLanguageLabel_eq_dec : EqDecision CodeLanguageLabel.
Proof. solve_decision. Defined.

Inductive GraphCellLabel : Set :=
  | GRAPH_CELL_LABEL_UNSPECIFIED | GRAPH_CELL_LABEL_KEY | GRAPH_CELL_LABEL_VALUE
  | GRAPH_CELL_LABEL_CHECKBOX.
#[export] Instance GraphCellLabel_eq_dec : EqDecision GraphCellLabel.
Proof. solve_decision. Defined.

Inductive GraphLinkLabel : Set :=
  | GRAPH_LINK_LABEL_UNSPECIFIED | GRAPH_LINK_LABEL_TO_VALUE | GRAPH_LINK_LABEL_TO_KEY
  | GRAPH_LINK_LABEL_TO_PARENT | GRAPH_LINK_LABEL_TO_CHILD.
#[export] Instance GraphLinkLabel_eq_dec : EqDecision GraphLinkLabel.
Proof. solve_decision. Defined.

Inductive VlmStopReason : Set :=
  | VLM_STOP_REASON_UNSPECIFIED | VLM_STOP_REASON_LENGTH | VLM_STOP_REASON_STOP_SEQUENCE
  | VLM_STOP_REASON_END_OF_SEQUENCE | VLM_STOP_REASON_CONTENT_FILTERED
  | VLM_STOP_REASON_INFERENCE_ERROR.
#[export] Instance VlmStopReason_eq_dec : EqDecision VlmStopReason.
Proof. solve_decision. Defined.

Inductive PageWarningCode : Set :=
  | PAGE_WARNING_CODE_UNSPECIFIED | PAGE_WARNING_CODE_TABLE_TRUNCATED
  | PAGE_WARNING_CODE_TABLE_GRID_OMITTED | PAGE_WARNING_CODE_PICTURE_IMAGES_SKIPPED.
#[export] Instance PageWarningCode_eq_dec : EqDecision PageWarningCode.
Proof. solve_decision. Defined.

Inductive Script : Set :=
  | SCRIPT_UNSPECIFIED | SCRIPT_BASELINE | SCRIPT_SUB | SCRIPT_SUPER.
#[export] Instance Script_eq_dec : EqDecision Script.
Proof. solve_decision. Defined.

(** * Messages *)

Record BoundingBox := mk_BoundingBox {
  bb_l : double;
  bb_t : double;
  bb_r : double;
  bb_b : double;
  bb_coord_origin : CoordOrigin }.
Definition BoundingBox_empty : BoundingBox := mk_BoundingBox dzero dzero dzero dzero COORD_ORIGIN_UNSPECIFIED.

Record ProvenanceItem := mk_ProvenanceItem {
  pi_page_no : Z;
  pi_bbox : BoundingBox;
  pi_charspan : option (Z * Z) }.
Definition ProvenanceItem_empty : ProvenanceItem := mk_ProvenanceItem 0 BoundingBox_empty None.
Definition set_pi_charspan (x : option (Z * Z)) (r : ProvenanceItem) : ProvenanceItem :=
  mk_ProvenanceItem (pi_page_no r) (pi_bbox r) x.

Record CollectorSource := mk_CollectorSource {
  cs_collector : bytes;
  cs_model : bytes;
  cs_version : bytes;
  cs_raw_score : option double;
  cs_raw_score_kind : option bytes;
  cs_raw_score_samples : option Z }.
Definition CollectorSource_empty : CollectorSource := mk_CollectorSource [] [] [] None None None.

Record GenerationSource := mk_GenerationSource {
  gs_model : bytes;
  gs_endpoint : option bytes;
  gs_finish_reason : option bytes;
  gs_prompt_tokens : option Z;
  gs_completion_tokens : option Z;
  gs_stop_reason : VlmStopReason }.
Definition GenerationSource_empty : GenerationSource := mk_GenerationSource [] None None None None VLM_STOP_REASON_UNSPECIFIED.

Inductive SourceType :=
  | SourceCollector (c : CollectorSource)
  | SourceGeneration (g : GenerationSource).

Record HypothesisItem := mk_HypothesisItem {
  hy_text : bytes;
  hy_raw_score : option double;
  hy_raw_score_kind : option bytes }.
Definition HypothesisItem_empty : HypothesisItem := mk_HypothesisItem [] None None.

Record AlternativesMetaField := mk_AlternativesMetaField {
  am_hypotheses : list HypothesisItem;
  am_created_by : option bytes }.
Definition AlternativesMetaField_empty : AlternativesMetaField := mk_AlternativesMetaField [] None.

(** A [RefItem] is its [ref] string. *)
Abbreviation RefItem := bytes.

Record Formatting := mk_Formatting {
  fo_bold : bool;
  fo_italic : bool;
  fo_underline : bool;
  fo_strikethrough : bool;
  fo_script : Script }.
Definition Formatting_empty : Formatting := mk_Formatting false false false false SCRIPT_UNSPECIFIED.
#[export] Instance Formatting_eq_dec : EqDecision Formatting.
Proof. solve_decision. Defined.

Record TextItemBase := mk_TextItemBase {
  tb_self_ref : bytes;
  tb_parent : option RefItem;
  tb_children : list RefItem;
  tb_content_layer : ContentLayer;
  tb_label : DocItemLabel;
  tb_prov : list ProvenanceItem;
  tb_orig : bytes;
  tb_text : bytes;
  tb_source : list SourceType;
  tb_label_raw : option bytes;
  tb_formatting : option Formatting;
  tb_hyperlink : option bytes }.
Definition TextItemBase_empty : TextItemBase := mk_TextItemBase [] None [] CONTENT_LAYER_UNSPECIFIED DOC_ITEM_LABEL_UNSPECIFIED [] [] [] [] None None None.
Definition set_tb_children (x : list RefItem) (r : TextItemBase) : TextItemBase :=
  mk_TextItemBase (tb_self_ref r) (tb_parent r) x (tb_content_layer r) (tb_label r) (tb_prov r) (tb_orig r) (tb_text r) (tb_source r) (tb_label_raw r) (tb_formatting r) (tb_hyperlink r).
Definition set_tb_content_layer (x : ContentLayer) (r : TextItemBase) : TextItemBase :=
  mk_TextItemBase (tb_self_ref r) (tb_parent r) (tb_children r) x (tb_label r) (tb_prov r) (tb_orig r) (tb_text r) (tb_source r) (tb_label_raw r) (tb_formatting r) (tb_hyperlink r).
Definition set_tb_prov (x : list ProvenanceItem) (r : TextItemBase) : TextItemBase :=
  mk_TextItemBase (tb_self_ref r) (tb_parent r) (tb_children r) (tb_content_layer r) (tb_label r) x (tb_orig r) (tb_text r) (tb_source r) (tb_label_raw r) (tb_formatting r) (tb_hyperlink r).
Definition set_tb_orig (x : bytes) (r : TextItemBase) : TextItemBase :=
  mk_TextItemBase (tb_self_ref r) (tb_parent r) (tb_children r) (tb_content_layer r) (tb_label r) (tb_prov r) x (tb_text r) (tb_source r) (tb_label_raw r) (tb_formatting r) (tb_hyperlink r).
Definition set_tb_text (x : bytes) (r : TextItemBase) : TextItemBase :=
  mk_TextItemBase (tb_self_ref r) (tb_parent r) (tb_children r) (tb_content_layer r) (tb_label r) (tb_prov r) (tb_orig r) x (tb_source r) (tb_label_raw r) (tb_formatting r) (tb_hyperlink r).
Definition set_tb_label_raw (x : option bytes) (r : TextItemBase) : TextItemBase :=
  mk_TextItemBase (tb_self_ref r) (tb_parent r) (tb_children r) (tb_content_layer r) (tb_label r) (tb_prov r) (tb_orig r) (tb_text r) (tb_source r) x (tb_formatting r) (tb_hyperlink r).
Definition set_tb_formatting (x : option Formatting) (r : TextItemBase) : TextItemBase :=
  mk_TextItemBase (tb_self_ref r) (tb_parent r) (tb_children r) (tb_content_layer r) (tb_label r) (tb_prov r) (tb_orig r) (tb_text r) (tb_source r) (tb_label_raw r) x (tb_hyperlink r).
Definition set_tb_hyperlink (x : option bytes) (r : TextItemBase) : TextItemBase :=
  mk_TextItemBase (tb_self_ref r) (tb_parent r) (tb_children r) (tb_content_layer r) (tb_label r) (tb_prov r) (tb_orig r) (tb_text r) (tb_source r) (tb_label_raw r) (tb_formatting r) x.

Definition stamp_base (self_ref parent_ref : bytes) (r : TextItemBase) : TextItemBase :=
  mk_TextItemBase self_ref (Some parent_ref) (tb_children r) (tb_content_layer r) (tb_label r)
    (tb_prov r) (tb_orig r) (tb_text r) (tb_source r) (tb_label_raw r) (tb_formatting r) (tb_hyperlink r).

Record CodeItem := mk_CodeItem {
  ci_self_ref : bytes;
  ci_parent : option RefItem;
  ci_children : list RefItem;
  ci_content_layer : ContentLayer;
  ci_label : DocItemLabel;
  ci_prov : list ProvenanceItem;
  ci_orig : bytes;
  ci_text : bytes;
  ci_source : list SourceType;
  ci_captions : list RefItem;
  ci_footnotes : list RefItem;
  ci_code_language : option CodeLanguageLabel;
  ci_code_language_raw : option bytes }.
Definition CodeItem_empty : CodeItem := mk_CodeItem [] None [] CONTENT_LAYER_UNSPECIFIED DOC_ITEM_LABEL_UNSPECIFIED [] [] [] [] [] [] None None.
Definition set_ci_self_ref (x : bytes) (r : CodeItem) : CodeItem :=
  mk_CodeItem x (ci_parent r) (ci_children r) (ci_content_layer r) (ci_label r) (ci_prov r) (ci_orig r) (ci_text r) (ci_source r) (ci_captions r) (ci_footnotes r) (ci_code_language r) (ci_code_language_raw r).
Definition set_ci_parent (x : option RefItem) (r : CodeItem) : CodeItem :=
  mk_CodeItem (ci_self_ref r) x (ci_children r) (ci_content_layer r) (ci_label r) (ci_prov r) (ci_orig r) (ci_text r) (ci_source r) (ci_captions r) (ci_footnotes r) (ci_code_language r) (ci_code_language_raw r).
Definition set_ci_children (x : list RefItem) (r : CodeItem) : CodeItem :=
  mk_CodeItem (ci_self_ref r) (ci_parent r) x (ci_content_layer r) (ci_label r) (ci_prov r) (ci_orig r) (ci_text r) (ci_source r) (ci_captions r) (ci_footnotes r) (ci_code_language r) (ci_code_language_raw r).
Definition set_ci_content_layer (x : ContentLayer) (r : CodeItem) : CodeItem :=
  mk_CodeItem (ci_self_ref r) (ci_parent r) (ci_children r) x (ci_label r) (ci_prov r) (ci_orig r) (ci_text r) (ci_source r) (ci_captions r) (ci_footnotes r) (ci_code_language r) (ci_code_language_raw r).
Definition set_ci_orig (x : bytes) (r : CodeItem) : CodeItem :=
  mk_CodeItem (ci_self_ref r) (ci_parent r) (ci_children r) (ci_content_layer r) (ci_label r) (ci_prov r) x (ci_text r) (ci_source r) (ci_captions r) (ci_footnotes r) (ci_code_language r) (ci_code_language_raw r).
Definition set_ci_text (x : bytes) (r : CodeItem) : CodeItem :=
  mk_CodeItem (ci_self_ref r) (ci_parent r) (ci_children r) (ci_content_layer r) (ci_label r) (ci_prov r) (ci_orig r) x (ci_source r) (ci_captions r) (ci_footnotes r) (ci_code_language r) (ci_code_language_raw r).
Definition set_ci_captions (x : list RefItem) (r : CodeItem) : CodeItem :=
  mk_CodeItem (ci_self_ref r) (ci_parent r) (ci_children r) (ci_content_layer r) (ci_label r) (ci_prov r) (ci_orig r) (ci_text r) (ci_source r) x (ci_footnotes r) (ci_code_language r) (ci_code_language_raw r).
Definition set_ci_footnotes (x : list RefItem) (r : CodeItem) : CodeItem :=
  mk_CodeItem (ci_self_ref r) (ci_parent r) (ci_children r) (ci_content_layer r) (ci_label r) (ci_prov r) (ci_orig r) (ci_text r) (ci_source r) (ci_captions r) x (ci_code_language r) (ci_code_language_raw r).
Definition set_ci_code_language (x : option CodeLanguageLabel) (r : CodeItem) : CodeItem :=
  mk_CodeItem (ci_self_ref r) (ci_parent r) (ci_children r) (ci_content_layer r) (ci_label r) (ci_prov r) (ci_orig r) (ci_text r) (ci_source r) (ci_captions r) (ci_footnotes r) x (ci_code_language_raw r).

(** The [item] oneof of a [BaseTextItem]; the program never leaves it unset. *)
Inductive BaseTextItem :=
  | kTitle (base : TextItemBase)
  | kSectionHeader (base : TextItemBase) (level : Z)
  | kListItem (base : TextItemBase) (enumerated : bool) (marker : option bytes)
  | kCode (code : CodeItem)
  | kFormula (base : TextItemBase)
  | kText (base : TextItemBase)
  | kFieldHeading (base : TextItemBase)
  | kFieldValue (base : TextItemBase) (kind : option bytes).

Record TableCell := mk_TableCell {
  tc_row_span : Z;
  tc_col_span : Z;
  tc_start_row_offset_idx : Z;
  tc_end_row_offset_idx : Z;
  tc_start_col_offset_idx : Z;
  tc_end_col_offset_idx : Z;
  tc_text : bytes;
  tc_column_header : bool;
  tc_row_header : bool;
  tc_row_section : bool;
  tc_ref : option RefItem }.
Definition TableCell_empty : TableCell := mk_TableCell 0 0 0 0 0 0 [] false false false None.
Definition set_tc_ref (x : option RefItem) (r : TableCell) : TableCell :=
  mk_TableCell (tc_row_span r) (tc_col_span r) (tc_start_row_offset_idx r) (tc_end_row_offset_idx r)
    (tc_start_col_offset_idx r) (tc_end_col_offset_idx r) (tc_text r) (tc_column_header r) (tc_row_header r)
    (tc_row_section r) x.

(** A [TableRow] is its cells. *)
Abbreviation TableRow := (list TableCell).

Record TableData := mk_TableData {
  td_table_cells : list TableCell;
  td_num_rows : Z;
  td_num_cols : Z;
  td_grid : list TableRow }.
Definition TableData_empty : TableData := mk_TableData [] 0 0 [].

Record TableItem := mk_TableItem {
  ti_self_ref : bytes;
  ti_parent : option RefItem;
  ti_children : list RefItem;
  ti_content_layer : ContentLayer;
  ti_label : DocItemLabel;
  ti_prov : list ProvenanceItem;
  ti_captions : list RefItem;
  ti_data : option TableData;
  ti_source : list SourceType;
  ti_footnotes : list RefItem }.
Definition TableItem_empty : TableItem := mk_TableItem [] None [] CONTENT_LAYER_UNSPECIFIED DOC_ITEM_LABEL_UNSPECIFIED [] [] None [] [].
Definition set_ti_self_ref (x : bytes) (r : TableItem) : TableItem :=
  mk_TableItem x (ti_parent r) (ti_children r) (ti_content_layer r) (ti_label r) (ti_prov r) (ti_captions r) (ti_data r) (ti_source r) (ti_footnotes r).
Definition set_ti_parent (x : option RefItem) (r : TableItem) : TableItem :=
  mk_TableItem (ti_self_ref r) x (ti_children r) (ti_content_layer r) (ti_label r) (ti_prov r) (ti_captions r) (ti_data r) (ti_source r) (ti_footnotes r).
Definition set_ti_children (x : list RefItem) (r : TableItem) : TableItem :=
  mk_TableItem (ti_self_ref r) (ti_parent r) x (ti_content_layer r) (ti_label r) (ti_prov r) (ti_captions r) (ti_data r) (ti_source r) (ti_footnotes r).
Definition set_ti_label (x : DocItemLabel) (r : TableItem) : TableItem :=
  mk_TableItem (ti_self_ref r) (ti_parent r) (ti_children r) (ti_content_layer r) x (ti_prov r) (ti_captions r) (ti_data r) (ti_source r) (ti_footnotes r).
Definition set_ti_captions (x : list RefItem) (r : TableItem) : TableItem :=
  mk_TableItem (ti_self_ref r) (ti_parent r) (ti_children r) (ti_content_layer r) (ti_label r) (ti_prov r) x (ti_data r) (ti_source r) (ti_footnotes r).
Definition set_ti_data (x : option TableData) (r : TableItem) : TableItem :=
  mk_TableItem (ti_self_ref r) (ti_parent r) (ti_children r) (ti_content_layer r) (ti_label r) (ti_prov r) (ti_captions r) x (ti_source r) (ti_footnotes r).
Definition set_ti_footnotes (x : list RefItem) (r : TableItem) : TableItem :=
  mk_TableItem (ti_self_ref r) (ti_parent r) (ti_children r) (ti_content_layer r) (ti_label r) (ti_prov r) (ti_captions r) (ti_data r) (ti_source r) x.

Record ImageRef := mk_ImageRef {
  ir_mimetype : bytes;
  ir_dpi : Z;
  ir_width : double;
  ir_height : double;
  ir_uri : bytes }.
Definition ImageRef_empty : ImageRef := mk_ImageRef [] 0 dzero dzero [].

Record DescriptionMetaField := mk_DescriptionMetaField {
  dm_text : bytes;
  dm_created_by : bytes }.

Record ClassificationPrediction := mk_ClassificationPrediction {
  cp_class_name : bytes;
  cp_created_by : bytes }.

Record TabularChartMetaField := mk_TabularChartMetaField {
  tm_title : option bytes;
  tm_created_by : option bytes;
  tm_chart_data : TableData }.

Record MoleculeMetaField := mk_MoleculeMetaField {
  mm_smi : bytes;
  mm_created_by : bytes }.

Record PictureMeta := mk_PictureMeta {
  pm_description : option DescriptionMetaField;
  pm_classification : option (list ClassificationPrediction);
  pm_tabular_chart : option TabularChartMetaField;
  pm_molecule : option MoleculeMetaField }.
Definition PictureMeta_empty : PictureMeta := mk_PictureMeta None None None None.
Definition set_pm_description (x : option DescriptionMetaField) (r : PictureMeta) : PictureMeta :=
  mk_PictureMeta x (pm_classification r) (pm_tabular_chart r) (pm_molecule r).
Definition set_pm_classification (x : option (list ClassificationPrediction)) (r : PictureMeta) : PictureMeta :=
  mk_PictureMeta (pm_description r) x (pm_tabular_chart r) (pm_molecule r).
Definition set_pm_tabular_chart (x : option TabularChartMetaField) (r : PictureMeta) : PictureMeta :=
  mk_PictureMeta (pm_description r) (pm_classification r) x (pm_molecule r).
Definition set_pm_molecule (x : option MoleculeMetaField) (r : PictureMeta) : PictureMeta :=
  mk_PictureMeta (pm_description r) (pm_classification r) (pm_tabular_chart r) x.

Inductive PictureAnnotation :=
  | AnnotationDescription (kind text provenance : bytes)
  | AnnotationClassification (kind provenance : bytes) (predicted_classes : list bytes)
  | AnnotationTabularChart (kind title : bytes) (chart_data : TableData)
  | AnnotationMolecule (kind smi provenance : bytes).

Record PictureItem := mk_PictureItem {
  pc_self_ref : bytes;
  pc_parent : option RefItem;
  pc_children : list RefItem;
  pc_content_layer : ContentLayer;
  pc_meta : option PictureMeta;
  pc_label : DocItemLabel;
  pc_prov : list ProvenanceItem;
  pc_captions : list RefItem;
  pc_image : option ImageRef;
  pc_source : list SourceType;
  pc_annotations : list PictureAnnotation;
  pc_footnotes : list RefItem }.
Definition PictureItem_empty : PictureItem := mk_PictureItem [] None [] CONTENT_LAYER_UNSPECIFIED None DOC_ITEM_LABEL_UNSPECIFIED [] [] None [] [] [].
Definition set_pc_self_ref (x : bytes) (r : PictureItem) : PictureItem :=
  mk_PictureItem x (pc_parent r) (pc_children r) (pc_content_layer r) (pc_meta r) (pc_label r) (pc_prov r) (pc_captions r) (pc_image r) (pc_source r) (pc_annotations r) (pc_footnotes r).
Definition set_pc_parent (x : option RefItem) (r : PictureItem) : PictureItem :=
  mk_PictureItem (pc_self_ref r) x (pc_children r) (pc_content_layer r) (pc_meta r) (pc_label r) (pc_prov r) (pc_captions r) (pc_image r) (pc_source r) (pc_annotations r) (pc_footnotes r).
Definition set_pc_children (x : list RefItem) (r : PictureItem) : PictureItem :=
  mk_PictureItem (pc_self_ref r) (pc_parent r) x (pc_content_layer r) (pc_meta r) (pc_label r) (pc_prov r) (pc_captions r) (pc_image r) (pc_source r) (pc_annotations r) (pc_footnotes r).
Definition set_pc_meta (x : option PictureMeta) (r : PictureItem) : PictureItem :=
  mk_PictureItem (pc_self_ref r) (pc_parent r) (pc_children r) (pc_content_layer r) x (pc_label r) (pc_prov r) (pc_captions r) (pc_image r) (pc_source r) (pc_annotations r) (pc_footnotes r).
Definition set_pc_captions (x : list RefItem) (r : PictureItem) : PictureItem :=
  mk_PictureItem (pc_self_ref r) (pc_parent r) (pc_children r) (pc_content_layer r) (pc_meta r) (pc_label r) (pc_prov r) x (pc_image r) (pc_source r) (pc_annotations r) (pc_footnotes r).
Definition set_pc_image (x : option ImageRef) (r : PictureItem) : PictureItem :=
  mk_PictureItem (pc_self_ref r) (pc_parent r) (pc_children r) (pc_content_layer r) (pc_meta r) (pc_label r) (pc_prov r) (pc_captions r) x (pc_source r) (pc_annotations r) (pc_footnotes r).
Definition set_pc_annotations (x : list PictureAnnotation) (r : PictureItem) : PictureItem :=
  mk_PictureItem (pc_self_ref r) (pc_parent r) (pc_children r) (pc_content_layer r) (pc_meta r) (pc_label r) (pc_prov r) (pc_captions r) (pc_image r) (pc_source r) x (pc_footnotes r).
Definition set_pc_footnotes (x : list RefItem) (r : PictureItem) : PictureItem :=
  mk_PictureItem (pc_self_ref r) (pc_parent r) (pc_children r) (pc_content_layer r) (pc_meta r) (pc_label r) (pc_prov r) (pc_captions r) (pc_image r) (pc_source r) (pc_annotations r) x.

Record GroupItem := mk_GroupItem {
  gi_self_ref : bytes;
  gi_parent : option RefItem;
  gi_children : list RefItem;
  gi_content_layer : ContentLayer;
  gi_alternatives : option AlternativesMetaField;
  gi_name : option bytes;
  gi_label : GroupLabel }.
Definition GroupItem_empty : GroupItem := mk_GroupItem [] None [] CONTENT_LAYER_UNSPECIFIED None None GROUP_LABEL_UNSPECIFIED.
Definition set_gi_self_ref (x : bytes) (r : GroupItem) : GroupItem :=
  mk_GroupItem x (gi_parent r) (gi_children r) (gi_content_layer r) (gi_alternatives r) (gi_name r) (gi_label r).
Definition set_gi_parent (x : option RefItem) (r : GroupItem) : GroupItem :=
  mk_GroupItem (gi_self_ref r) x (gi_children r) (gi_content_layer r) (gi_alternatives r) (gi_name r) (gi_label r).
Definition set_gi_children (x : list RefItem) (r : GroupItem) : GroupItem :=
  mk_GroupItem (gi_self_ref r) (gi_parent r) x (gi_content_layer r) (gi_alternatives r) (gi_name r) (gi_label r).
Definition set_gi_content_layer (x : ContentLayer) (r : GroupItem) : GroupItem :=
  mk_GroupItem (gi_self_ref r) (gi_parent r) (gi_children r) x (gi_alternatives r) (gi_name r) (gi_label r).

Record GraphCell := mk_GraphCell {
  gc_label : GraphCellLabel;
  gc_cell_id : Z;
  gc_text : bytes;
  gc_orig : bytes;
  gc_prov : option ProvenanceItem }.

Record GraphLink := mk_GraphLink {
  gl_label : GraphLinkLabel;
  gl_source_cell_id : Z;
  gl_target_cell_id : Z }.

Record GraphData := mk_GraphData {
  gd_cells : list GraphCell;
  gd_links : list GraphLink }.
Definition GraphData_empty : GraphData := mk_GraphData [] [].

Record KeyValueItem := mk_KeyValueItem {
  kv_self_ref : bytes;
  kv_parent : option RefItem;
  kv_content_layer : ContentLayer;
  kv_label : DocItemLabel;
  kv_prov : list ProvenanceItem;
  kv_graph : option GraphData;
  kv_source : list SourceType }.
Definition KeyValueItem_empty : KeyValueItem := mk_KeyValueItem [] None CONTENT_LAYER_UNSPECIFIED DOC_ITEM_LABEL_UNSPECIFIED [] None [].
Definition set_kv_self_ref (x : bytes) (r : KeyValueItem) : KeyValueItem :=
  mk_KeyValueItem x (kv_parent r) (kv_content_layer r) (kv_label r) (kv_prov r) (kv_graph r) (kv_source r).
Definition set_kv_parent (x : option RefItem) (r : KeyValueItem) : KeyValueItem :=
  mk_KeyValueItem (kv_self_ref r) x (kv_content_layer r) (kv_label r) (kv_prov r) (kv_graph r) (kv_source r).
Definition set_kv_prov (x : list ProvenanceItem) (r : KeyValueItem) : KeyValueItem :=
  mk_KeyValueItem (kv_self_ref r) (kv_parent r) (kv_content_layer r) (kv_label r) x (kv_graph r) (kv_source r).
Definition set_kv_graph (x : option GraphData) (r : KeyValueItem) : KeyValueItem :=
  mk_KeyValueItem (kv_self_ref r) (kv_parent r) (kv_content_layer r) (kv_label r) (kv_prov r) x (kv_source r).

Record FieldRegionItem := mk_FieldRegionItem {
  fr_self_ref : bytes;
  fr_parent : option RefItem;
  fr_children : list RefItem;
  fr_content_layer : ContentLayer;
  fr_label : DocItemLabel;
  fr_prov : list ProvenanceItem;
  fr_source : list SourceType }.
Definition FieldRegionItem_empty : FieldRegionItem := mk_FieldRegionItem [] None [] CONTENT_LAYER_UNSPECIFIED DOC_ITEM_LABEL_UNSPECIFIED [] [].
Definition set_fr_self_ref (x : bytes) (r : FieldRegionItem) : FieldRegionItem :=
  mk_FieldRegionItem x (fr_parent r) (fr_children r) (fr_content_layer r) (fr_label r) (fr_prov r) (fr_source r).
Definition set_fr_parent (x : option RefItem) (r : FieldRegionItem) : FieldRegionItem :=
  mk_FieldRegionItem (fr_self_ref r) x (fr_children r) (fr_content_layer r) (fr_label r) (fr_prov r) (fr_source r).
Definition set_fr_children (x : list RefItem) (r : FieldRegionItem) : FieldRegionItem :=
  mk_FieldRegionItem (fr_self_ref r) (fr_parent r) x (fr_content_layer r) (fr_label r) (fr_prov r) (fr_source r).

Record PageItem := mk_PageItem {
  pg_page_no : Z;
  pg_width : double;
  pg_height : double }.

Record Document := mk_Document {
  doc_schema_name : option bytes;
  doc_version : option bytes;
  doc_name : bytes;
  doc_body : option GroupItem;
  doc_groups : list GroupItem;
  doc_texts : list BaseTextItem;
  doc_pictures : list PictureItem;
  doc_tables : list TableItem;
  doc_key_value_items : list KeyValueItem;
  doc_field_regions : list FieldRegionItem;
  doc_pages : gmap Z PageItem }.
Definition Document_empty : Document := mk_Document None None [] None [] [] [] [] [] [] ∅.
Definition set_doc_schema_name (x : option bytes) (r : Document) : Document :=
  mk_Document x (doc_version r) (doc_name r) (doc_body r) (doc_groups r) (doc_texts r) (doc_pictures r) (doc_tables r) (doc_key_value_items r) (doc_field_regions r) (doc_pages r).
Definition set_doc_version (x : option bytes) (r : Document) : Document :=
  mk_Document (doc_schema_name r) x (doc_name r) (doc_body r) (doc_groups r) (doc_texts r) (doc_pictures r) (doc_tables r) (doc_key_value_items r) (doc_field_regions r) (doc_pages r).
Definition set_doc_name (x : bytes) (r : Document) : Document :=
  mk_Document (doc_schema_name r) (doc_version r) x (doc_body r) (doc_groups r) (doc_texts r) (doc_pictures r) (doc_tables r) (doc_key_value_items r) (doc_field_regions r) (doc_pages r).
Definition set_doc_body (x : option GroupItem) (r : Document) : Document :=
  mk_Document (doc_schema_name r) (doc_version r) (doc_name r) x (doc_groups r) (doc_texts r) (doc_pictures r) (doc_tables r) (doc_key_value_items r) (doc_field_regions r) (doc_pages r).
Definition set_doc_groups (x : list GroupItem) (r : Document) : Document :=
  mk_Document (doc_schema_name r) (doc_version r) (doc_name r) (doc_body r) x (doc_texts r) (doc_pictures r) (doc_tables r) (doc_key_value_items r) (doc_field_regions r) (doc_pages r).
Definition set_doc_texts (x : list BaseTextItem) (r : Document) : Document :=
  mk_Document (doc_schema_name r) (doc_version r) (doc_name r) (doc_body r) (doc_groups r) x (doc_pictures r) (doc_tables r) (doc_key_value_items r) (doc_field_regions r) (doc_pages r).
Definition set_doc_pictures (x : list PictureItem) (r : Document) : Document :=
  mk_Document (doc_schema_name r) (doc_version r) (doc_name r) (doc_body r) (doc_groups r) (doc_texts r) x (doc_tables r) (doc_key_value_items r) (doc_field_regions r) (doc_pages r).
Definition set_doc_tables (x : list TableItem) (r : Document) : Document :=
  mk_Document (doc_schema_name r) (doc_version r) (doc_name r) (doc_body r) (doc_groups r) (doc_texts r) (doc_pictures r) x (doc_key_value_items r) (doc_field_regions r) (doc_pages r).
Definition set_doc_key_value_items (x : list KeyValueItem) (r : Document) : Document :=
  mk_Document (doc_schema_name r) (doc_version r) (doc_name r) (doc_body r) (doc_groups r) (doc_texts r) (doc_pictures r) (doc_tables r) x (doc_field_regions r) (doc_pages r).
Definition set_doc_field_regions (x : list FieldRegionItem) (r : Document) : Document :=
  mk_Document (doc_schema_name r) (doc_version r) (doc_name r) (doc_body r) (doc_groups r) (doc_texts r) (doc_pictures r) (doc_tables r) (doc_key_value_items r) x (doc_pages r).
Definition set_doc_pages (x : gmap Z PageItem) (r : Document) : Document :=
  mk_Document (doc_schema_name r) (doc_version r) (doc_name r) (doc_body r) (doc_groups r) (doc_texts r) (doc_pictures r) (doc_tables r) (doc_key_value_items r) (doc_field_regions r) x.

Record PageWarning := mk_PageWarning {
  pw_code : PageWarningCode;
  pw_message : bytes;
  pw_ref : bytes }.

