(* ===== verification/Base64.v ===== *)
(** Base64, as the VLM request and the inline picture crops encode it
    (src/vlm_client.cpp and, the same loop over a raw buffer,
    src/mapping/image_crop.cpp), against a decoder that is its specification. *)
From S2P Require Import Prelude.

Definition kAlphabet : bytes :=
  lit "ABCDEFGHIJKLMNOPQRSTUVWXYZabcdefghijklmnopqrstuvwxyz0123456789+/".

(** [kAlphabet[i]]. *)
Definition alphabet (i : Z) : ascii := nth (Z.to_nat i) kAlphabet "="%char.

(** The four characters of one group: its 24 bits, and how many of its three
    bytes the input had. *)
Definition encode_group (group : Z) (second third : bool) : bytes :=
  [ alphabet (Z.land (Z.shiftr group 18) 63);
    alphabet (Z.land (Z.shiftr group 12) 63);
    (if second then alphabet (Z.land (Z.shiftr group 6) 63) else "="%char);
    (if third then alphabet (Z.land group 63) else "="%char) ].

Fixpoint base64_encode (s : bytes) : bytes :=
  match s with
  | [] => []
  | [a] => encode_group (Z.shiftl (code a) 16) false false
  | [a; b] =>
      encode_group (Z.lor (Z.shiftl (code a) 16) (Z.shiftl (code b) 8)) true false
  | a :: b :: c :: s' =>
      encode_group
        (Z.lor (Z.lor (Z.shiftl (code a) 16) (Z.shiftl (code b) 8)) (code c)) true true
      ++ base64_encode s'
  end.

(** ** The specification: RFC 4648 decoding *)

Definition sextet (c : ascii) : option Z :=
  if isupper c then Some (code c - 65)
  else if islower c then Some (code c - 71)
  else if isdigit c then Some (code c + 4)
  else if (c =c "+"%char) then Some 62
  else if (c =c "/"%char) then Some 63
  else None.

Definition byte_of (z : Z) : ascii := chr (z mod 256).

Fixpoint base64_decode (s : bytes) : option bytes :=
  match s with
  | [] => Some []
  | w :: x :: y :: z :: s' =>
      p ← sextet w; q ← sextet x;
      if (z =c "="%char) then
        if bool_decide (s' = []) then
          if (y =c "="%char) then Some [byte_of (p * 4 + q / 16)]
          else r ← sextet y; Some [byte_of (p * 4 + q / 16); byte_of (q * 16 + r / 4)]
        else None
      else
        r ← sextet y; t ← sextet z; rest ← base64_decode s';
        Some (byte_of (p * 4 + q / 16) :: byte_of (q * 16 + r / 4) :: byte_of (r * 64 + t) :: rest)
  | _ => None
  end.

Lemma code_range c : 0 <= code c < 256.
Proof.
  unfold code. pose proof (N_ascii_bounded c). lia.
Qed.

Lemma chr_code c : chr (code c) = c.
Proof. unfold chr, code. by rewrite N2Z.id, ascii_N_embedding. Qed.

(** Every value below 64 has a character, that character decodes to it and is
    not the padding. *)
Lemma alphabet_sextet i : 0 <= i < 64 → sextet (alphabet i) = Some i ∧ alphabet i ≠ "="%char.
Proof.
  intros Hi.
  assert (H : forallb (λ n, bool_decide (sextet (alphabet (Z.of_nat n)) = Some (Z.of_nat n)
      ∧ alphabet (Z.of_nat n) ≠ "="%char)) (seq 0 64) = true) by (vm_compute; reflexivity).
  rewrite forallb_forall in H.
  specialize (H (Z.to_nat i)). rewrite in_seq, Z2Nat.id, bool_decide_eq_true in H by lia.
  apply H. lia.
Qed.

Lemma land63 z : 0 <= Z.land z 63 < 64.
Proof. change 63 with (Z.ones 6). rewrite Z.land_ones by lia. apply Z.mod_pos_bound. lia. Qed.

(** [hi << n | lo] is a sum when [lo] fits in [n] bits. *)
Lemma lor_shift hi lo n : 0 <= n → 0 <= lo < 2 ^ n → Z.lor (Z.shiftl hi n) lo = hi * 2 ^ n + lo.
Proof.
  intros Hn Hlo. rewrite <- Z.shiftl_mul_pow2, <- Z.add_lor_land by lia.
  assert (H : Z.land (Z.shiftl hi n) lo = 0); [|lia].
  apply Z.bits_inj'. intros i Hi. rewrite Z.land_spec, Z.bits_0, Z.shiftl_spec by lia.
  destruct (Z.lt_ge_cases i n) as [|Hni]; [by rewrite Z.testbit_neg_r by lia|].
  rewrite andb_false_iff. right.
  destruct (Z.eq_dec lo 0) as [->|]; [apply Z.bits_0|].
  apply Z.bits_above_log2; [lia|].
  apply Z.log2_lt_pow2; [lia|]. pose proof (Z.pow_le_mono_r 2 n i). lia.
Qed.

(** The 24-bit group as arithmetic. *)
Lemma group_sum a b c :
  0 <= b < 256 → 0 <= c < 256 →
  Z.lor (Z.lor (Z.shiftl a 16) (Z.shiftl b 8)) c = a * 65536 + b * 256 + c.
Proof.
  intros Hb Hc. replace (Z.shiftl a 16) with (Z.shiftl (Z.shiftl a 8) 8)
    by (by rewrite Z.shiftl_shiftl by lia).
  rewrite <- Z.shiftl_lor.
  rewrite !lor_shift by lia. lia.
Qed.

(** Decoding one group gives its bytes back. *)
Lemma group_bytes a b c (G := a * 65536 + b * 256 + c) :
  0 <= a < 256 → 0 <= b < 256 → 0 <= c < 256 →
  let p := Z.land (Z.shiftr G 18) 63 in
  let q := Z.land (Z.shiftr G 12) 63 in
  let r := Z.land (Z.shiftr G 6) 63 in
  let t := Z.land G 63 in
  (p * 4 + q / 16) mod 256 = a ∧ (q * 16 + r / 4) mod 256 = b ∧ (r * 64 + t) mod 256 = c.
Proof.
  intros Ha Hb Hc. cbn zeta. rewrite !Z.shiftr_div_pow2 by lia.
  change 63 with (Z.ones 6). rewrite !Z.land_ones by lia.
  change (2 ^ 18) with 262144. change (2 ^ 12) with 4096. change (2 ^ 6) with 64.
  subst G. split_and!; Z.to_euclidean_division_equations; lia.
Qed.

Lemma byte_of_code z c : z mod 256 = code c → byte_of z = c.
Proof. unfold byte_of. intros ->. apply chr_code. Qed.

(** Induction three bytes at a time, as the loop reads them. *)
Lemma group_ind (P : bytes → Prop) :
  P [] → (∀ a, P [a]) → (∀ a b, P [a; b]) → (∀ a b c s, P s → P (a :: b :: c :: s)) → ∀ s, P s.
Proof.
  intros H0 H1 H2 H3. fix IH 1. intros [|a [|b [|c s]]];
    [exact H0|exact (H1 a)|exact (H2 a b)|exact (H3 a b c s (IH s))].
Qed.

Lemma shiftl_code16 a : Z.shiftl (code a) 16 = code a * 65536 + 0 * 256 + 0.
Proof. rewrite Z.shiftl_mul_pow2 by lia. lia. Qed.

Lemma shiftl_code16_8 a b :
  Z.lor (Z.shiftl (code a) 16) (Z.shiftl (code b) 8) = code a * 65536 + code b * 256 + 0.
Proof.
  rewrite <- (Z.lor_0_r (Z.lor _ _)). apply group_sum; [apply code_range|lia].
Qed.

(** What the encoder emits decodes to the page bytes. *)
Lemma base64_decode_encode s : base64_decode (base64_encode s) = Some s.
Proof.
  assert (Hs : ∀ z, sextet (alphabet (Z.land z 63)) = Some (Z.land z 63)).
  { intros z. apply alphabet_sextet, land63. }
  assert (Hne : ∀ z, (alphabet (Z.land z 63) =c "="%char) = false).
  { intros z. apply Ascii.eqb_neq, alphabet_sextet, land63. }
  induction s as [|a|a b|a b c s IH] using group_ind; [done|..];
    cbn [base64_encode app encode_group base64_decode].
  - pose proof (group_bytes _ 0 0 (code_range a) ltac:(lia) ltac:(lia)) as (Ha & _).
    rewrite shiftl_code16, !Hs. cbn -[Z.land Z.shiftr Z.div Z.mul Z.add].
    by rewrite (byte_of_code _ _ Ha).
  - pose proof (group_bytes _ _ 0 (code_range a) (code_range b) ltac:(lia)) as (Ha & Hb & _).
    rewrite shiftl_code16_8, !Hs, Hne. cbn -[Z.land Z.shiftr Z.div Z.mul Z.add].
    by rewrite (byte_of_code _ _ Ha), (byte_of_code _ _ Hb).
  - pose proof (group_bytes _ _ _ (code_range a) (code_range b) (code_range c))
      as (Ha & Hb & Hc).
    rewrite group_sum, !Hs, Hne by apply code_range. cbn -[Z.land Z.shiftr Z.div Z.mul Z.add].
    rewrite IH. cbn -[Z.land Z.shiftr Z.div Z.mul Z.add].
    by rewrite (byte_of_code _ _ Ha), (byte_of_code _ _ Hb), (byte_of_code _ _ Hc).
Qed.

(** [out.reserve((size + 2) / 3 * 4)] is the exact size. *)
Lemma base64_encode_length s :
  length (base64_encode s) = ((length s + 2) / 3 * 4)%nat.
Proof.
  induction s as [|a|a b|a b c s IH] using group_ind; try done.
  cbn [base64_encode]. rewrite length_app, IH. cbn [length encode_group].
  replace (S (S (S (length s))) + 2)%nat with (1 * 3 + (length s + 2))%nat by lia.
  rewrite Nat.div_add_l by lia. lia.
Qed.
