(* ===== verification/ImageCrop.v ===== *)
(** Picture crops out of the page raster (src/mapping/image_crop.h and .cpp):
    the raster decoded at most once, and the budget that bounds the crops one
    page may carry.  stb is third-party: its three entry points are the
    [Stb] class. *)
From S2P Require Import Prelude Numbers Double Proto Base64.

(** stb_image and stb_image_write.  [stbi_info buffer len] is the size the
    header claims; [stbi_load buffer len] the decoded size and the RGBA bytes;
    [stbi_write_png w h pixels] the encoded PNG.  [None] is their failure
    value (0 or NULL). *)
Class Stb := {
  stbi_info : bytes → Z → option (Z * Z);
  stbi_load : bytes → Z → option (Z * Z * bytes);
  stbi_write_png : Z → Z → bytes → option bytes }.

Definition kMaxRasterPixels : Z := 40000000.
Definition kDefaultMaxInlineCropBytes : Z := 3 * 1024 * 1024.

Record CropBudget := mk_CropBudget {
  max_crops : Z;
  max_area_pages : double;
  max_inline_bytes : Z }.
Definition CropBudget_default : CropBudget :=
  mk_CropBudget 100 (of_Z 2) kDefaultMaxInlineCropBytes.

Inductive Crop := kAttached | kFailed | kOverBudget | kOverByteCap | kRasterTooLarge.
#[export] Instance Crop_eq_dec : EqDecision Crop.
Proof. solve_decision. Defined.

Record PageRaster := mk_PageRaster {
  pr_png : bytes;
  pr_page_width : Z;
  pr_page_height : Z;
  pr_budget : CropBudget;
  pr_tried : bool;
  pr_too_large : bool;
  pr_pixels : option bytes;
  pr_width : Z;
  pr_height : Z;
  pr_decodes : Z;
  pr_crops : Z;
  pr_cropped_pixels : Z;
  pr_inline_bytes : Z;
  pr_inline_bytes_spent : bool }.

Definition PageRaster_new (png : bytes) (page_width page_height : Z) (budget : CropBudget)
  : PageRaster :=
  mk_PageRaster png page_width page_height budget false false None 0 0 0 0 0 0 false.

Definition set_decoded (too_large : bool) (pixels : option bytes) (width height decodes : Z)
    (r : PageRaster) : PageRaster :=
  mk_PageRaster (pr_png r) (pr_page_width r) (pr_page_height r) (pr_budget r)
    true too_large pixels width height decodes
    (pr_crops r) (pr_cropped_pixels r) (pr_inline_bytes r) (pr_inline_bytes_spent r).

Definition set_spent (crops cropped_pixels inline_bytes : Z) (inline_bytes_spent : bool)
    (r : PageRaster) : PageRaster :=
  mk_PageRaster (pr_png r) (pr_page_width r) (pr_page_height r) (pr_budget r)
    (pr_tried r) (pr_too_large r) (pr_pixels r) (pr_width r) (pr_height r) (pr_decodes r)
    crops cropped_pixels inline_bytes inline_bytes_spent.

Section WithStb.
Context `{Stb}.

(** [PageRaster::decode]. *)
Definition decode (r : PageRaster) : bool * PageRaster :=
  if pr_tried r then (bool_decide (is_Some (pr_pixels r)), r)
  else
    let size := Z.min (Z.of_nat (length (pr_png r))) int32_max in
    match stbi_info (pr_png r) size with
    | Some (width, height) =>
        if (width <=? 0) || (height <=? 0) then
          (false, set_decoded false None (pr_width r) (pr_height r) (pr_decodes r) r)
        else if kMaxRasterPixels <? width * height then
          (false, set_decoded true None width height (pr_decodes r) r)
        else
          let decodes := pr_decodes r + 1 in
          match stbi_load (pr_png r) size with
          | Some (width', height', pixels) =>
              if (width' =? width) && (height' =? height) then
                (true, set_decoded false (Some pixels) width height decodes r)
              else (false, set_decoded false None width height decodes r)
          | None => (false, set_decoded false None width height decodes r)
          end
    | None => (false, set_decoded false None (pr_width r) (pr_height r) (pr_decodes r) r)
    end.

(** The box scaled into the decoded raster's pixels and clamped to it. *)
Definition crop_region (r : PageRaster) (left top right bottom : double) : Z * Z * Z * Z :=
  let sx := if 0 <? pr_page_width r
            then ddiv (of_Z (pr_width r)) (of_Z (pr_page_width r)) else of_Z 1 in
  let sy := if 0 <? pr_page_height r
            then ddiv (of_Z (pr_height r)) (of_Z (pr_page_height r)) else of_Z 1 in
  (to_int (dclamp (dfloor (dmul left sx)) dzero (of_Z (pr_width r))),
   to_int (dclamp (dfloor (dmul top sy)) dzero (of_Z (pr_height r))),
   to_int (dclamp (dceil (dmul right sx)) dzero (of_Z (pr_width r))),
   to_int (dclamp (dceil (dmul bottom sy)) dzero (of_Z (pr_height r)))).

(** The rows of the region, [std::copy_n] by [std::copy_n]. *)
Definition crop_pixels (pixels : bytes) (width x1 y1 crop_w crop_h : Z) : bytes :=
  concat (map (λ row, substr pixels (Z.to_nat (((y1 + Z.of_nat row) * width + x1) * 4))
                                    (Z.to_nat (crop_w * 4)))
              (seq 0 (Z.to_nat crop_h))).

Definition data_uri (png : bytes) : bytes :=
  lit "data:image/png;base64," ++ base64_encode png.

(** [size_t] subtraction wraps modulo 2^64. *)
Definition sub_size (a b : Z) : Z := (a - b) mod 2 ^ 64.

(** [PageRaster::crop]; the image is set exactly when it returns
    [kAttached]. *)
Definition crop (r : PageRaster) (left top right bottom : double)
  : Crop * option ImageRef * PageRaster :=
  let '(decoded, r) := decode r in
  if negb decoded then (if pr_too_large r then kRasterTooLarge else kFailed, None, r) else
  let pixels := default [] (pr_pixels r) in
  let '(x1, y1, x2, y2) := crop_region r left top right bottom in
  if (x2 <=? x1) || (y2 <=? y1) then (kFailed, None, r) else
  if pr_inline_bytes_spent r then (kOverByteCap, None, r) else
  let crop_w := x2 - x1 in
  let crop_h := y2 - y1 in
  let area := crop_w * crop_h in
  let area_budget :=
    dmul (dmul (max_area_pages (pr_budget r)) (of_Z (pr_width r))) (of_Z (pr_height r)) in
  if (max_crops (pr_budget r) <=? pr_crops r)
     || dlt area_budget (of_Z (pr_cropped_pixels r + area)) then (kOverBudget, None, r) else
  let r := set_spent (pr_crops r + 1) (pr_cropped_pixels r + area)
             (pr_inline_bytes r) (pr_inline_bytes_spent r) r in
  match stbi_write_png crop_w crop_h
          (crop_pixels pixels (pr_width r) x1 y1 crop_w crop_h) with
  | None | Some [] => (kFailed, None, r)
  | Some png =>
      let uri := data_uri png in
      let uri_size := Z.of_nat (length uri) in
      if sub_size (max_inline_bytes (pr_budget r)) (pr_inline_bytes r) <? uri_size then
        (kOverByteCap, None,
         set_spent (pr_crops r) (pr_cropped_pixels r) (pr_inline_bytes r) true r)
      else
        (kAttached,
         Some (mk_ImageRef (lit "image/png") 72 (of_Z crop_w) (of_Z crop_h) uri),
         set_spent (pr_crops r) (pr_cropped_pixels r) (pr_inline_bytes r + uri_size)
           (pr_inline_bytes_spent r) r)
  end.

(** [crop_png_image]: one crop from a raster of its own. *)
Definition crop_png_image (png : bytes) (left top right bottom : double)
    (page_width page_height : Z) : option ImageRef :=
  let '(result, image, _) :=
    crop (PageRaster_new png page_width page_height CropBudget_default) left top right bottom in
  if bool_decide (result = kAttached) then image else None.

(** A page asks for its crops one after the other. *)
Fixpoint crops (r : PageRaster) (boxes : list (double * double * double * double))
  : list (Crop * option ImageRef) * PageRaster :=
  match boxes with
  | [] => ([], r)
  | (l, t, ri, b) :: boxes' =>
      let '(result, image, r) := crop r l t ri b in
      let '(results, r) := crops r boxes' in
      ((result, image) :: results, r)
  end.

(** ** What one crop does to the raster's state *)

Definition uri_bytes (image : option ImageRef) : Z :=
  match image with Some i => Z.of_nat (length (ir_uri i)) | None => 0 end.
Definition image_count (image : option ImageRef) : Z := match image with Some _ => 1 | None => 0 end.

Record raster_inv (r : PageRaster) : Prop := {
  inv_cap : 0 <= max_inline_bytes (pr_budget r) < 2 ^ 64;
  inv_inline : 0 <= pr_inline_bytes r <= max_inline_bytes (pr_budget r);
  inv_crops : 0 <= pr_crops r <= Z.max 0 (max_crops (pr_budget r));
  inv_untried : pr_tried r = false → pr_decodes r = 0;
  inv_decodes : 0 <= pr_decodes r <= 1;
  inv_pixels : is_Some (pr_pixels r) →
    0 < pr_width r ∧ 0 < pr_height r ∧ pr_width r * pr_height r <= kMaxRasterPixels }.

Lemma raster_inv_new png w h budget :
  0 <= max_inline_bytes budget < 2 ^ 64 → raster_inv (PageRaster_new png w h budget).
Proof. intros ?. split; cbn; try lia. by intros []. Qed.

(** Decoding touches neither the budget nor what was spent of it. *)
Lemma decode_spec r ok r' :
  raster_inv r → decode r = (ok, r') →
  raster_inv r' ∧ pr_budget r' = pr_budget r ∧ pr_crops r' = pr_crops r ∧
  pr_inline_bytes r' = pr_inline_bytes r ∧
  pr_inline_bytes_spent r' = pr_inline_bytes_spent r ∧
  (ok = true → is_Some (pr_pixels r')).
Proof.
  intros [] Hd. unfold decode in Hd.
  repeat case_match; simplify_eq; cbn; split_and!; try done;
    try (intros ?; by eapply bool_decide_eq_true_1);
    (split; cbn; try done; try congruence; try (by intros []));
    rewrite ?inv_untried0 by done; intros; try lia.
Qed.

Lemma sub_size_id a b : 0 <= b <= a → a < 2 ^ 64 → sub_size a b = a - b.
Proof. intros. unfold sub_size. apply Z.mod_small. lia. Qed.

Lemma crop_spec r l t ri b result image r' :
  raster_inv r → crop r l t ri b = (result, image, r') →
  raster_inv r' ∧ pr_budget r' = pr_budget r ∧
  (is_Some image ↔ result = kAttached) ∧
  pr_inline_bytes r' = pr_inline_bytes r + uri_bytes image ∧
  pr_crops r + (if bool_decide (result = kAttached) then 1 else 0) <= pr_crops r' ∧
  (pr_inline_bytes_spent r = true → pr_inline_bytes_spent r' = true ∧ image = None) ∧
  (result = kOverByteCap → pr_inline_bytes_spent r' = true).
Proof.
  intros Hinv Hc. unfold crop in Hc.
  destruct (decode r) as [ok r1] eqn:Hd.
  destruct (decode_spec _ _ _ Hinv Hd) as ([] & Hb & Hcr & Hin & Hsp & _).
  rewrite <- Hb, <- Hcr, <- Hin, <- Hsp. clear Hb Hcr Hin Hsp Hd Hinv.
  destruct (crop_region r1 l t ri b) as [[[x1 y1] x2] y2].
  repeat case_match; simplify_eq; cbn in *;
    repeat match goal with
           | H : (_ || _) = false |- _ => apply orb_false_iff in H as [? ?]
           | H : (_ <=? _) = false |- _ => apply Z.leb_gt in H
           | H : (_ <? _) = false |- _ => apply Z.ltb_ge in H
           end;
    try rewrite sub_size_id in * by lia;
    split_and!; try done; try congruence; try lia; try (split; cbn; try done; lia);
    try (split; [by intros []|done]); try (rewrite bool_decide_eq_false_2 by done; lia).
Qed.

Lemma crop_counted r l t ri b result image r' :
  raster_inv r → crop r l t ri b = (result, image, r') → pr_crops r + image_count image <= pr_crops r'.
Proof.
  intros Hinv Hc. destruct (crop_spec _ _ _ _ _ _ _ _ Hinv Hc) as (_ & _ & Hi & _ & Hle & _).
  destruct image; cbn; [rewrite bool_decide_eq_true_2 in Hle by (by apply Hi); lia|].
  case_bool_decide; [|lia]. destruct (proj2 Hi H0). done.
Qed.

Lemma crops_spec r boxes results r' :
  raster_inv r → crops r boxes = (results, r') →
  raster_inv r' ∧ pr_budget r' = pr_budget r ∧
  pr_inline_bytes r + foldr (λ x, Z.add (uri_bytes x.2)) 0 results = pr_inline_bytes r' ∧
  pr_crops r + Z.of_nat (length (filter (λ x, x.1 = kAttached) results)) <= pr_crops r' ∧
  (pr_inline_bytes_spent r = true → Forall (λ x, x.2 = None) results).
Proof.
  revert r results; induction boxes as [|[[[l t] ri] b] boxes IH]; intros r results Hinv Hc;
    cbn in Hc; [simplify_eq; cbn; split_and!; try done; lia|].
  destruct (crop r l t ri b) as [[res img] r1] eqn:E1.
  destruct (crops r1 boxes) as [results1 r2] eqn:E2. simplify_eq.
  destruct (crop_spec _ _ _ _ _ _ _ _ Hinv E1) as (Hi1 & Hb1 & _ & Hin1 & Hc1 & Hs1 & _).
  destruct (IH _ _ Hi1 E2) as (Hi2 & Hb2 & Hin2 & Hc2 & Hs2).
  rewrite filter_cons. cbn [foldr fst snd].
  split_and!; [done|congruence|lia| |].
  - destruct (decide (res = kAttached)).
    + rewrite bool_decide_eq_true_2 in Hc1 by done. cbn [length]. lia.
    + rewrite bool_decide_eq_false_2 in Hc1 by done. lia.
  - intros Hsp. destruct (Hs1 Hsp). constructor; auto.
Qed.

(** The four scaled coordinates are numbers: [static_cast<int>] of a NaN is
    undefined. *)
Definition region_defined (r : PageRaster) (left top right bottom : double) : Prop :=
  let sx := if 0 <? pr_page_width r
            then ddiv (of_Z (pr_width r)) (of_Z (pr_page_width r)) else of_Z 1 in
  let sy := if 0 <? pr_page_height r
            then ddiv (of_Z (pr_height r)) (of_Z (pr_page_height r)) else of_Z 1 in
  is_nan (dfloor (dmul left sx)) = false ∧ is_nan (dfloor (dmul top sy)) = false ∧
  is_nan (dceil (dmul right sx)) = false ∧ is_nan (dceil (dmul bottom sy)) = false.

Lemma crop_region_bounds r l t ri b x1 y1 x2 y2 :
  raster_inv r → is_Some (pr_pixels r) → region_defined r l t ri b →
  crop_region r l t ri b = (x1, y1, x2, y2) →
  0 <= x1 <= pr_width r ∧ 0 <= y1 <= pr_height r ∧
  0 <= x2 <= pr_width r ∧ 0 <= y2 <= pr_height r.
Proof.
  intros [] Hpx (? & ? & ? & ?) [= <- <- <- <-]. destruct (inv_pixels0 Hpx) as (? & ? & ?).
  unfold kMaxRasterPixels in *. split_and!; apply to_int_clamp; first [done|nia].
Qed.

(** Copying the region's rows reads inside the decoded buffer: every row
    gives its full width. *)
Lemma crop_pixels_length pixels w h x1 y1 x2 y2 :
  Z.of_nat (length pixels) = w * h * 4 →
  0 <= x1 < x2 → x2 <= w → 0 <= y1 < y2 → y2 <= h →
  Z.of_nat (length (crop_pixels pixels w x1 y1 (x2 - x1) (y2 - y1))) =
  (x2 - x1) * (y2 - y1) * 4.
Proof.
  intros Hlen Hx ? Hy ?. unfold crop_pixels.
  set (row_len := Z.to_nat ((x2 - x1) * 4)).
  assert (Hrows : ∀ n, (n ≤ Z.to_nat (y2 - y1))%nat →
    length (concat (map (λ row, substr pixels (Z.to_nat (((y1 + Z.of_nat row) * w + x1) * 4))
      row_len) (seq 0 n))) = (n * row_len)%nat).
  { induction n as [|n IH]; intros Hn; [done|].
    rewrite seq_S, map_app, concat_app, length_app, IH by lia. cbn [map concat Nat.add].
    rewrite app_nil_r, length_substr, Nat.mul_succ_l. f_equal.
    assert (0 <= (y1 + Z.of_nat n) * w) by nia.
    assert ((y1 + Z.of_nat n) * w + w <= h * w) by nia. lia. }
  rewrite Hrows by done. subst row_len. nia.
Qed.
End WithStb.

(** ** Properties *)

Section Properties.
Context `{Stb}.

(** Whatever boxes a model's answer names, the crops of one page stay
    within its budget: the raster is decoded at most once, at most
    [max_crops] crops are attached, and the data URIs attached add up to the
    counter the page reports and to at most [max_inline_bytes] bytes. *)
Theorem crops_within_budget png w h budget boxes results r :
  0 <= max_inline_bytes budget < 2 ^ 64 →
  crops (PageRaster_new png w h budget) boxes = (results, r) →
  0 <= pr_decodes r <= 1 ∧
  Z.of_nat (length (filter (λ x, x.1 = kAttached) results)) <= Z.max 0 (max_crops budget) ∧
  foldr (λ x, Z.add (uri_bytes x.2)) 0 results = pr_inline_bytes r ∧
  pr_inline_bytes r <= max_inline_bytes budget.
Proof.
  intros Hcap E.
  destruct (crops_spec _ _ _ _ (raster_inv_new png w h budget Hcap) E)
    as ([] & Hb & Hin & Hc & _).
  rewrite Hb in *. cbn in *. split_and!; lia.
Qed.

(** Once the inline byte cap refused a crop, no later crop of the page
    is attached, however small it is. *)
Theorem crops_stop_at_byte_cap r l t ri b image r1 boxes :
  raster_inv r → crop r l t ri b = (kOverByteCap, image, r1) →
  image = None ∧ Forall (λ x, x.2 = None) (crops r1 boxes).1.
Proof.
  intros Hinv E1. destruct (crop_spec _ _ _ _ _ _ _ _ Hinv E1) as (Hi & _ & Ha & _ & _ & _ & Hs).
  destruct (crops r1 boxes) as [results r2] eqn:E2. split.
  - destruct image; [|done]. by destruct Ha as [Ha _]; specialize (Ha (mk_is_Some _ _ eq_refl)).
  - by eapply crops_spec; [..|apply Hs].
Qed.

(** A crop that is attached is a non-empty region inside the decoded
    raster, whose header claims at most 40 million pixels, and its pixels
    are copied from inside the decoded buffer. *)
Theorem crop_attached_in_raster r l t ri b image r' decoded r1 pixels x1 y1 x2 y2 :
  raster_inv r → crop r l t ri b = (kAttached, Some image, r') →
  decode r = (decoded, r1) → pr_pixels r1 = Some pixels →
  Z.of_nat (length pixels) = pr_width r1 * pr_height r1 * 4 →
  region_defined r1 l t ri b → crop_region r1 l t ri b = (x1, y1, x2, y2) →
  0 <= x1 < x2 ∧ x2 <= pr_width r1 ∧ 0 <= y1 < y2 ∧ y2 <= pr_height r1 ∧
  pr_width r1 * pr_height r1 <= kMaxRasterPixels ∧
  ir_width image = of_Z (x2 - x1) ∧ ir_height image = of_Z (y2 - y1) ∧
  Z.of_nat (length (crop_pixels pixels (pr_width r1) x1 y1 (x2 - x1) (y2 - y1))) =
    (x2 - x1) * (y2 - y1) * 4.
Proof.
  intros Hinv Hc Hd Hpx Hlen Hdef Hr. unfold crop in Hc. rewrite Hd, Hr in Hc.
  destruct (decode_spec _ _ _ Hinv Hd) as (Hi1 & _ & _ & _ & _ & Hok).
  pose proof (crop_region_bounds _ _ _ _ _ _ _ _ _ Hi1 (mk_is_Some _ _ Hpx) Hdef Hr).
  pose proof (inv_pixels _ Hi1 (mk_is_Some _ _ Hpx)) as (? & ? & ?).
  repeat case_match; simplify_eq; cbn.
  match goal with H : (_ || _) = false |- _ =>
    apply orb_false_iff in H as [?%Z.leb_gt ?%Z.leb_gt] end.
  split_and!; try done; try lia. apply crop_pixels_length with (pr_height r1); lia.
Qed.
End Properties.

(** A 2x2 raster whose encoder returns the pixels it is given. *)
Definition toy_stb : Stb := {|
  stbi_info _ _ := Some (2, 2);
  stbi_load _ _ := Some (2, 2, repeat "x"%char 16);
  stbi_write_png _ _ pixels := Some pixels |}.
Definition toy_raster (cap : Z) : PageRaster :=
  PageRaster_new (lit "png") 2 2 (mk_CropBudget 100 (of_Z 2) cap).

Definition toy_boxes : list (double * double * double * double) :=
  [(of_Z 0, of_Z 0, of_Z 2, of_Z 2); (of_Z 0, of_Z 0, of_Z 1, of_Z 1)].

Lemma crops_within_budget_witness :
  (@crops toy_stb (toy_raster 60) toy_boxes).1.*1 = [kAttached; kOverByteCap] ∧
  pr_inline_bytes (@crops toy_stb (toy_raster 60) toy_boxes).2 <= 60.
Proof.
  split; [vm_compute; reflexivity|].
  apply (@crops_within_budget toy_stb (lit "png") 2 2 (mk_CropBudget 100 (of_Z 2) 60) toy_boxes
    (@crops toy_stb (toy_raster 60) toy_boxes).1 (@crops toy_stb (toy_raster 60) toy_boxes).2).
  - split; vm_compute; congruence.
  - apply surjective_pairing.
Defined.

Lemma crops_stop_at_byte_cap_witness :
  Forall (λ x, x.2 = None)
    (@crops toy_stb (@crop toy_stb (toy_raster 30) (of_Z 0) (of_Z 0) (of_Z 2) (of_Z 2)).2
       [(of_Z 0, of_Z 0, of_Z 1, of_Z 1)]).1.
Proof.
  eapply (@crops_stop_at_byte_cap toy_stb (toy_raster 30) (of_Z 0) (of_Z 0) (of_Z 2) (of_Z 2) None).
  - apply raster_inv_new. split; vm_compute; congruence.
  - vm_compute; reflexivity.
Defined.

Definition toy_image : ImageRef :=
  mk_ImageRef (lit "image/png") 72 (of_Z 1) (of_Z 2) (data_uri (repeat "x"%char 8)).
Lemma crop_attached_in_raster_witness :
  (@crop toy_stb (toy_raster 60) (of_Z 0) (of_Z 0) (of_Z 1) (of_Z 2)).1
    = (kAttached, Some toy_image) ∧ 2 <= pr_height (@decode toy_stb (toy_raster 60)).2.
Proof.
  split; [vm_compute; reflexivity|].
  assert (Hinv : raster_inv (toy_raster 60)).
  { apply raster_inv_new. split; vm_compute; congruence. }
  apply (@crop_attached_in_raster toy_stb (toy_raster 60) (of_Z 0) (of_Z 0) (of_Z 1) (of_Z 2)
    toy_image (@crop toy_stb (toy_raster 60) (of_Z 0) (of_Z 0) (of_Z 1) (of_Z 2)).2 true
    (@decode toy_stb (toy_raster 60)).2 (repeat "x"%char 16) 0 0 1 2 Hinv);
    vm_compute; auto.
Defined.
