(* ===== verification/Builder.v ===== *)
(** The helpers every format mapper builds its fragment with
    (src/mapping/builder.h, and the [PageContext] of src/mapping/mapper.h):
    provenance, items, tables within the size caps, and the finalizer that
    stamps refs, parents and the page entry. *)
From S2P Require Import Prelude Numbers Double Proto ImageCrop.

(** * The page a response is mapped against *)

(** [has_generation] and [has_alternatives] are the options. *)
Record PageContext := mk_PageContext {
  page_no : Z;
  page_width : Z;
  page_height : Z;
  page_png : bytes;
  page_crops : CropBudget;
  page_source : CollectorSource;
  page_generation : option GenerationSource;
  page_alternatives : option AlternativesMetaField }.

(** [static_cast<int32_t>] of a [uint32_t]. *)
Definition to_int32 (z : Z) : Z := (z + 2 ^ 31) mod 2 ^ 32 - 2 ^ 31.

Definition full_page_box (page : PageContext) : BoundingBox :=
  mk_BoundingBox (of_Z 0) (of_Z 0) (of_Z (page_width page)) (of_Z (page_height page))
    COORD_ORIGIN_TOPLEFT.

Definition make_prov (page : PageContext) (box : BoundingBox) : ProvenanceItem :=
  mk_ProvenanceItem (to_int32 (page_no page)) box None.

Definition page_prov (page : PageContext) : ProvenanceItem :=
  make_prov page (full_page_box page).

(** [trim]: the ASCII white space it strips. *)
Definition is_blank (c : ascii) : bool :=
  (c =c " "%char) || (c =c c_tab) || (c =c c_cr) || (c =c c_nl).

Fixpoint find_last_at (p : ascii → bool) (s : bytes) (i : nat) : option nat :=
  match s with
  | [] => None
  | c :: s' =>
      match find_last_at p s' (S i) with
      | Some j => Some j
      | None => if p c then Some i else None
      end
  end.
Definition find_last (p : ascii → bool) (s : bytes) : option nat := find_last_at p s 0.

Definition trim (text : bytes) : bytes :=
  match find_first (λ c, negb (is_blank c)) text 0 with
  | None => []
  | Some first =>
      match find_last (λ c, negb (is_blank c)) text with
      | Some last => substr text first (last - first + 1)
      | None => []
      end
  end.

(** * Items *)

Definition add_sources (page : PageContext) : list SourceType :=
  SourceCollector (page_source page) ::
  match page_generation page with
  | Some generation => [SourceGeneration generation]
  | None => []
  end.

Definition fill_text_base (page : PageContext) (label : DocItemLabel) (prov : ProvenanceItem)
    (text : bytes) : TextItemBase :=
  mk_TextItemBase [] None [] CONTENT_LAYER_BODY label [prov] text text (add_sources page) None None None.

Definition push_text (item : BaseTextItem) (doc : Document) : Document :=
  set_doc_texts (doc_texts doc ++ [item]) doc.
Definition texts_size (doc : Document) : nat := length (doc_texts doc).
Definition pictures_size (doc : Document) : nat := length (doc_pictures doc).
Definition tables_size (doc : Document) : nat := length (doc_tables doc).
Definition groups_size (doc : Document) : nat := length (doc_groups doc).
Definition key_value_items_size (doc : Document) : nat := length (doc_key_value_items doc).

(** [doc->mutable_texts(i)] and its likes, changed in place. *)
Definition alter_text (f : BaseTextItem → BaseTextItem) (i : nat) (doc : Document) : Document :=
  set_doc_texts (alter f i (doc_texts doc)) doc.
Definition alter_picture (f : PictureItem → PictureItem) (i : nat) (doc : Document) : Document :=
  set_doc_pictures (alter f i (doc_pictures doc)) doc.
Definition alter_table (f : TableItem → TableItem) (i : nat) (doc : Document) : Document :=
  set_doc_tables (alter f i (doc_tables doc)) doc.
Definition alter_group (f : GroupItem → GroupItem) (i : nat) (doc : Document) : Document :=
  set_doc_groups (alter f i (doc_groups doc)) doc.
Definition alter_key_value (f : KeyValueItem → KeyValueItem) (i : nat) (doc : Document)
  : Document :=
  set_doc_key_value_items (alter f i (doc_key_value_items doc)) doc.
Definition alter_field_region (f : FieldRegionItem → FieldRegionItem) (i : nat)
    (doc : Document) : Document :=
  set_doc_field_regions (alter f i (doc_field_regions doc)) doc.

Definition add_text (page : PageContext) (label : DocItemLabel) (prov : ProvenanceItem)
    (text : bytes) : Document → Document :=
  push_text (kText (fill_text_base page label prov text)).
Definition add_section_header (page : PageContext) (level : Z) (prov : ProvenanceItem)
    (text : bytes) : Document → Document :=
  push_text (kSectionHeader (fill_text_base page DOC_ITEM_LABEL_SECTION_HEADER prov text) level).
Definition add_title (page : PageContext) (prov : ProvenanceItem) (text : bytes)
  : Document → Document :=
  push_text (kTitle (fill_text_base page DOC_ITEM_LABEL_TITLE prov text)).
Definition add_list_item (page : PageContext) (prov : ProvenanceItem) (text : bytes)
    (enumerated : bool) (marker : bytes) : Document → Document :=
  push_text (kListItem (fill_text_base page DOC_ITEM_LABEL_LIST_ITEM prov text) enumerated
    (if bool_decide (marker = []) then None else Some marker)).
Definition add_code (page : PageContext) (prov : ProvenanceItem) (text language_raw : bytes)
  : Document → Document :=
  push_text (kCode (mk_CodeItem [] None [] CONTENT_LAYER_BODY DOC_ITEM_LABEL_CODE [prov]
    text text (add_sources page) [] [] None
    (if bool_decide (language_raw = []) then None else Some language_raw))).
Definition add_formula (page : PageContext) (prov : ProvenanceItem) (text : bytes)
  : Document → Document :=
  push_text (kFormula (fill_text_base page DOC_ITEM_LABEL_FORMULA prov text)).
Definition add_picture (page : PageContext) (prov : ProvenanceItem) (doc : Document)
  : Document :=
  set_doc_pictures (doc_pictures doc ++
    [mk_PictureItem [] None [] CONTENT_LAYER_BODY None DOC_ITEM_LABEL_PICTURE [prov] [] None
       (add_sources page) [] []]) doc.
Definition add_table (page : PageContext) (prov : ProvenanceItem) (doc : Document) : Document :=
  set_doc_tables (doc_tables doc ++
    [mk_TableItem [] None [] CONTENT_LAYER_BODY DOC_ITEM_LABEL_TABLE [prov] [] None
       (add_sources page) []]) doc.

(** * Tables within the size caps *)

Definition kMaxTableRows : Z := 2000.
Definition kMaxTableCols : Z := 250.
Definition kMaxTableCells : Z := 50000.
Definition kMaxGridBytes : Z := 32 * 1024 * 1024.

Record TableCut := mk_TableCut {
  source_rows : Z;
  source_cols : Z;
  truncated : bool;
  grid_omitted : bool }.
Definition TableCut_default : TableCut := mk_TableCut 0 0 false false.

Definition kept_table_shape (rows cols : Z) : Z * Z :=
  let kept_cols := Z.min cols kMaxTableCols in
  let kept_rows := Z.min rows kMaxTableRows in
  (if 0 <? kept_cols then Z.min kept_rows (kMaxTableCells / kept_cols) else kept_rows, kept_cols).

Arguments kept_table_shape : simpl never.

(** The warnings a mapper collects; [None] is a null pointer. *)
Abbreviation Warnings := (option (list PageWarning)).

Definition add_warning (warnings : Warnings) (code : PageWarningCode) (message ref : bytes)
  : Warnings :=
  match warnings with
  | None => None
  | Some ws => Some (ws ++ [mk_PageWarning code message ref])
  end.

Definition note_table_cut (cut : TableCut) (data : TableData) (what ref : bytes)
    (warnings : Warnings) : Warnings :=
  let warnings :=
    if truncated cut then
      add_warning warnings PAGE_WARNING_CODE_TABLE_TRUNCATED
        (what ++ lit " held " ++ to_string (source_rows cut) ++ lit " rows by " ++
         to_string (source_cols cut) ++ lit " columns; kept the first " ++
         to_string (td_num_rows data) ++ lit " by " ++ to_string (td_num_cols data) ++
         lit " (caps: " ++ to_string kMaxTableRows ++ lit " rows, " ++
         to_string kMaxTableCols ++ lit " columns, " ++ to_string kMaxTableCells ++
         lit " cells)") ref
    else warnings in
  if grid_omitted cut then
    add_warning warnings PAGE_WARNING_CODE_TABLE_GRID_OMITTED
      (what ++ lit " grid would cost more than " ++ to_string kMaxGridBytes ++
       lit " bytes of cell copies (overlapping or long spanned cells); kept its " ++
       to_string (Z.of_nat (length (td_table_cells data))) ++ lit " cells with an empty grid") ref
  else warnings.

(** [table->data()]: a field that was never set reads as its default. *)
Definition data_of (table : TableItem) : TableData := default TableData_empty (ti_data table).

(** The 1x1 cell at (r, c) of a table given as rows of text. *)
Definition text_cell (row : list bytes) (header_rows r c : nat) : TableCell :=
  mk_TableCell 1 1 (Z.of_nat r) (Z.of_nat r + 1) (Z.of_nat c) (Z.of_nat c + 1)
    (default [] (row !! c))
    (match row !! c with Some _ => bool_decide (r < header_rows)%nat | None => false end)
    false false None.

Definition widest (f : list bytes → Z) (rows : list (list bytes)) : Z :=
  foldl (λ widest row, Z.max widest (f row)) 0 rows.

(** [fill_table_data] on a fresh [TableData]. *)
Definition fill_table_data (rows : list (list bytes)) (header_rows : nat)
  : TableData * TableCut :=
  let rows_count := Z.of_nat (length rows) in
  let cols_count := widest (λ row, Z.of_nat (length row)) rows in
  let '(num_rows, kept_cols) := kept_table_shape rows_count cols_count in
  let cut := mk_TableCut rows_count cols_count
    ((num_rows <? rows_count) || (kept_cols <? cols_count)) false in
  let kept := take (Z.to_nat num_rows) rows in
  let num_cols := widest (λ row, Z.min (Z.of_nat (length row)) kept_cols) kept in
  let columns := seq 0 (Z.to_nat num_cols) in
  let grid := imap (λ r row, map (text_cell row header_rows r) columns) kept in
  let cells := imap (λ r row, map (text_cell row header_rows r)
                 (filter (λ c, c < length row)%nat columns)) kept in
  (mk_TableData (concat cells) num_rows num_cols grid, cut).

(** * Refs, parents and the finalizer *)

(** What [finalize_document] writes on an item, whatever its kind. *)
Class Stamped (A : Type) := {
  self_ref_of : A → bytes;
  parent_of : A → option RefItem;
  stamp : bytes → bytes → A → A }.

Class StampedLaws (A : Type) `{Stamped A} : Prop := {
  self_ref_stamp s p (x : A) : self_ref_of (stamp s p x) = s;
  parent_stamp s p (x : A) : parent_of (stamp s p x) = Some p;
  stamp_stamp s p s' p' (x : A) : stamp s p (stamp s' p' x) = stamp s p x }.

Definition text_base (item : BaseTextItem) : option TextItemBase :=
  match item with
  | kTitle b | kSectionHeader b _ | kListItem b _ _ | kFormula b | kText b
  | kFieldHeading b | kFieldValue b _ => Some b
  | kCode _ => None
  end.

(** [internal::stamp_text_item]. *)
Definition stamp_text_item (self_ref parent_ref : bytes) (item : BaseTextItem) : BaseTextItem :=
  let st := stamp_base self_ref parent_ref in
  match item with
  | kTitle b => kTitle (st b)
  | kSectionHeader b level => kSectionHeader (st b) level
  | kListItem b enumerated marker => kListItem (st b) enumerated marker
  | kFormula b => kFormula (st b)
  | kText b => kText (st b)
  | kFieldHeading b => kFieldHeading (st b)
  | kFieldValue b kind => kFieldValue (st b) kind
  | kCode c => kCode (set_ci_parent (Some parent_ref) (set_ci_self_ref self_ref c))
  end.

#[export] Instance stamped_text : Stamped BaseTextItem := {
  self_ref_of item := match item with
    | kCode c => ci_self_ref c
    | _ => default [] (tb_self_ref <$> text_base item) end;
  parent_of item := match item with
    | kCode c => ci_parent c
    | _ => text_base item ≫= tb_parent end;
  stamp := stamp_text_item }.
#[export] Instance stamped_picture : Stamped PictureItem := {
  self_ref_of := pc_self_ref; parent_of := pc_parent;
  stamp s p x := set_pc_parent (Some p) (set_pc_self_ref s x) }.
#[export] Instance stamped_table : Stamped TableItem := {
  self_ref_of := ti_self_ref; parent_of := ti_parent;
  stamp s p x := set_ti_parent (Some p) (set_ti_self_ref s x) }.
#[export] Instance stamped_key_value : Stamped KeyValueItem := {
  self_ref_of := kv_self_ref; parent_of := kv_parent;
  stamp s p x := set_kv_parent (Some p) (set_kv_self_ref s x) }.
#[export] Instance stamped_field_region : Stamped FieldRegionItem := {
  self_ref_of := fr_self_ref; parent_of := fr_parent;
  stamp s p x := set_fr_parent (Some p) (set_fr_self_ref s x) }.
#[export] Instance stamped_group : Stamped GroupItem := {
  self_ref_of := gi_self_ref; parent_of := gi_parent;
  stamp s p x := set_gi_parent (Some p) (set_gi_self_ref s x) }.

#[export] Instance stamped_text_laws : StampedLaws BaseTextItem.
Proof. split; by intros; destruct x. Qed.
#[export] Instance stamped_picture_laws : StampedLaws PictureItem.
Proof. done. Qed.
#[export] Instance stamped_table_laws : StampedLaws TableItem.
Proof. done. Qed.
#[export] Instance stamped_key_value_laws : StampedLaws KeyValueItem.
Proof. done. Qed.
#[export] Instance stamped_field_region_laws : StampedLaws FieldRegionItem.
Proof. done. Qed.
#[export] Instance stamped_group_laws : StampedLaws GroupItem.
Proof. done. Qed.

Inductive Kind := TEXT | PICTURE | TABLE | KEY_VALUE | GROUP | FIELD_REGION.
#[export] Instance Kind_eq_dec : EqDecision Kind.
Proof. solve_decision. Defined.

(** [BodyChild]. *)
Record BodyChild := mk_BodyChild { bc_kind : Kind; bc_index : nat }.
#[export] Instance BodyChild_eq_dec : EqDecision BodyChild.
Proof. solve_decision. Defined.

Definition list_name (kind : Kind) : bytes :=
  match kind with
  | TEXT => lit "texts"
  | PICTURE => lit "pictures"
  | TABLE => lit "tables"
  | KEY_VALUE => lit "key_value_items"
  | GROUP => lit "groups"
  | FIELD_REGION => lit "field_regions"
  end.
Definition body_child_ref (kind : Kind) (index : nat) : bytes :=
  lit "#/" ++ list_name kind ++ lit "/" ++ to_string (Z.of_nat index).

(** The item a body child names, stamped. *)
Definition stamp_child (child : BodyChild) (parent_ref : bytes) (doc : Document) : Document :=
  let self_ref := body_child_ref (bc_kind child) (bc_index child) in
  match bc_kind child with
  | TEXT => alter_text (stamp self_ref parent_ref) (bc_index child) doc
  | PICTURE => alter_picture (stamp self_ref parent_ref) (bc_index child) doc
  | TABLE => alter_table (stamp self_ref parent_ref) (bc_index child) doc
  | KEY_VALUE => alter_key_value (stamp self_ref parent_ref) (bc_index child) doc
  | FIELD_REGION => alter_field_region (stamp self_ref parent_ref) (bc_index child) doc
  | GROUP => alter_group (stamp self_ref parent_ref) (bc_index child) doc
  end.

Definition kBodyRef : bytes := lit "#/body".

(** [finalize_document] with an explicit order. *)
Definition finalize_document (page : PageContext) (order : list BodyChild) (doc : Document)
  : Document :=
  let doc := set_doc_schema_name (Some (lit "docling_document_v2")) doc in
  let doc := set_doc_version (Some (lit "1.10.0")) doc in
  let doc := set_doc_name (lit "page-" ++ to_string (page_no page)) doc in
  let body := default GroupItem_empty (doc_body doc) in
  let body := mk_GroupItem kBodyRef (gi_parent body) (gi_children body) CONTENT_LAYER_BODY
    (match page_alternatives page with Some a => Some a | None => gi_alternatives body end)
    (gi_name body) (gi_label body) in
  let doc := foldl (λ doc child, stamp_child child kBodyRef doc) doc order in
  let body := set_gi_children
    (gi_children body ++ map (λ c, body_child_ref (bc_kind c) (bc_index c)) order) body in
  let doc := set_doc_body (Some body) doc in
  set_doc_pages
    (<[to_int32 (page_no page) :=
        mk_PageItem (to_int32 (page_no page)) (of_Z (page_width page)) (of_Z (page_height page))]>
      (doc_pages doc)) doc.

(** The default order: texts, then pictures, then tables. *)
Definition default_order (doc : Document) : list BodyChild :=
  map (mk_BodyChild TEXT) (seq 0 (texts_size doc)) ++
  map (mk_BodyChild PICTURE) (seq 0 (pictures_size doc)) ++
  map (mk_BodyChild TABLE) (seq 0 (tables_size doc)).
Definition finalize_document_default (page : PageContext) (doc : Document) : Document :=
  finalize_document page (default_order doc) doc.

(** A sum over the images the pictures carry: their bytes, their number. *)
Definition image_sum (weight : option ImageRef → Z) (pictures : list PictureItem) : Z :=
  foldr (λ p, Z.add (weight (pc_image p))) 0 pictures.
Abbreviation picture_bytes := (image_sum uri_bytes).
Abbreviation picture_crops := (image_sum image_count).
(** The images of a fragment are within a crop budget. *)
Definition images_within (budget : CropBudget) (doc : Document) : Prop :=
  picture_bytes (doc_pictures doc) <= max_inline_bytes budget ∧
  picture_crops (doc_pictures doc) <= Z.max 0 (max_crops budget).

(** * Lemmas *)

Lemma to_int32_id z : int32_min <= z <= int32_max → to_int32 z = z.
Proof. unfold int32_min, int32_max, to_int32. intros Hz. rewrite Z.mod_small; lia. Qed.

Section Trim.
Implicit Types s : bytes.

Lemma find_last_at_None p s i :
  Forall (λ c, p c = false) s → find_last_at p s i = None.
Proof. induction 1 as [|c s Hc _ IH] in i |- *; cbn; [done|]. by rewrite IH, Hc. Qed.

Lemma find_last_at_app p s c r i :
  p c = true → Forall (λ c, p c = false) r →
  find_last_at p (s ++ c :: r) i = Some (i + length s)%nat.
Proof.
  intros Hc Hr. revert i; induction s as [|d s IH]; intros i; cbn.
  - rewrite find_last_at_None, Hc by done. f_equal; lia.
  - rewrite IH. f_equal; lia.
Qed.

(** [trim] strips the blanks at both ends. *)
Lemma trim_strip s : trim s = rstrip is_blank (lstrip is_blank s).
Proof.
  destruct (lstrip_suffix is_blank s) as (l & Hs & Hl).
  unfold trim, find_first. destruct (lstrip is_blank s) as [|c m] eqn:Em.
  - destruct (find_if _ s 0) as [j|] eqn:E; [|done].
    apply find_if_Some in E as (? & Ht & _).
    rewrite app_nil_r in Hs. subst s.
    destruct (drop j l) as [|d r] eqn:Ed; [done|]. cbn in Ht.
    assert (l !! j = Some d) as Hd.
    { rewrite <- (Nat.add_0_r j), <- lookup_drop, Ed. done. }
    rewrite Forall_lookup in Hl. apply Hl in Hd. by rewrite Hd in Ht.
  - assert (Hc : is_blank c = false) by (eapply (lstrip_head _ s); by rewrite Em).
    assert (E : find_if (head_is (λ c, negb (is_blank c))) s 0 = Some (length l)).
    { apply find_if_intro.
      - rewrite Hs, length_app. cbn. lia.
      - rewrite Hs, drop_app_length. cbn. by rewrite Hc.
      - intros k Hk. rewrite Hs, drop_app_le by lia.
        destruct (drop k l) as [|d r] eqn:Ed.
        { apply (f_equal length) in Ed. rewrite length_drop in Ed. cbn in Ed. lia. }
        assert (l !! k = Some d) as Hd.
        { rewrite <- (Nat.add_0_r k), <- lookup_drop, Ed. done. }
        rewrite Forall_lookup in Hl. apply Hl in Hd. cbn. by rewrite Hd. }
    rewrite E. unfold rstrip.
    destruct (lstrip_suffix is_blank (rev (c :: m))) as (r & Hr & Hrb).
    destruct (lstrip is_blank (rev (c :: m))) as [|d q] eqn:Eq.
    { rewrite app_nil_r in Hr. apply lstrip_nil in Eq.
      rewrite Forall_forall in Eq. specialize (Eq c).
      rewrite Eq in Hc; [done|]. apply list_elem_of_In, in_rev. rewrite rev_involutive. by left. }
    assert (Hd : is_blank d = false) by (eapply (lstrip_head _ (rev (c :: m))); by rewrite Eq).
    assert (Hm : c :: m = rev q ++ d :: rev r).
    { rewrite <- (rev_involutive (c :: m)), Hr, rev_app_distr. cbn. by rewrite <- app_assoc. }
    unfold find_last.
    rewrite Hs, Hm, (app_assoc l), find_last_at_app; [|by rewrite Hd|].
    + unfold substr. rewrite <- app_assoc, drop_app_length, length_app.
      replace (0 + (length l + length (rev q)) - length l + 1)%nat
        with (length (rev q ++ [d])) by (rewrite length_app; cbn; lia).
      change (rev q ++ d :: rev r) with (rev q ++ [d] ++ rev r).
      rewrite (app_assoc (rev q)), take_app_length. by cbn.
    + apply Forall_forall. intros x Hx.
      rewrite Forall_forall in Hrb. rewrite Hrb; [done|].
      apply list_elem_of_In, in_rev. by apply list_elem_of_In.
Qed.

Lemma trim_nil s : trim s = [] ↔ Forall (λ c, is_blank c = true) s.
Proof.
  rewrite trim_strip. unfold rstrip. split.
  - intros H. apply (f_equal (@rev ascii)) in H. rewrite rev_involutive in H. cbn in H.
    apply lstrip_nil in H. apply Forall_rev in H. rewrite rev_involutive in H.
    destruct (lstrip_suffix is_blank s) as (l & -> & Hl). by apply Forall_app.
  - intros H. apply lstrip_nil in H. by rewrite H.
Qed.
Lemma trim_trim s : trim (trim s) = trim s.
Proof. rewrite !trim_strip. apply strip_idemp. Qed.
Lemma trim_none s : Forall (λ c, is_blank c = false) s → trim s = s.
Proof.
  intros Hs. rewrite trim_strip, lstrip_id; [by apply rstrip_none|].
  intros c Hc. destruct s as [|d s]; [done|]. injection Hc as ->. by apply Forall_cons in Hs as [Hd _].
Qed.
End Trim.

Lemma body_child_ref_inj k i k' i' :
  body_child_ref k i = body_child_ref k' i' → k = k' ∧ i = i'.
Proof.
  unfold body_child_ref. intros H. apply (inj (app _)) in H.
  assert (Hk : k = k').
  { by destruct k, k'; try done; cbn in H; simplify_eq. }
  subst k'. split; [done|]. do 2 apply (inj (app _)) in H.
  apply (inj to_string) in H. lia.
Qed.

(** The self ref and parent of the item a body child names. *)
Definition refs {A} `{Stamped A} (x : A) : bytes * option RefItem := (self_ref_of x, parent_of x).
Definition item_refs (doc : Document) (kind : Kind) (i : nat) : option (bytes * option RefItem) :=
  match kind with
  | TEXT => refs <$> doc_texts doc !! i
  | PICTURE => refs <$> doc_pictures doc !! i
  | TABLE => refs <$> doc_tables doc !! i
  | KEY_VALUE => refs <$> doc_key_value_items doc !! i
  | GROUP => refs <$> doc_groups doc !! i
  | FIELD_REGION => refs <$> doc_field_regions doc !! i
  end.

Lemma refs_alter {A} `{StampedLaws A} (l : list A) s p i j :
  refs <$> alter (stamp s p) i l !! j =
  if decide (i = j) then (λ _, (s, Some p)) <$> (refs <$> l !! j) else refs <$> l !! j.
Proof.
  case_decide as Hij; [subst|by rewrite list_lookup_alter_ne].
  rewrite list_lookup_alter_eq. destruct (l !! j) as [x|]; cbn; [|done].
  unfold refs. by rewrite self_ref_stamp, parent_stamp.
Qed.

Lemma item_refs_stamp_child doc child parent k i :
  item_refs (stamp_child child parent doc) k i =
  if decide (child = mk_BodyChild k i)
  then (λ _, (body_child_ref k i, Some parent)) <$> item_refs doc k i
  else item_refs doc k i.
Proof.
  destruct child as [k' i'].
  destruct (decide (k' = k)) as [->|Hk].
  - destruct k; unfold stamp_child; cbn [bc_kind bc_index item_refs];
      (etrans; [apply refs_alter|]); repeat case_decide; simplify_eq; done.
  - rewrite decide_False by congruence. by destruct k', k.
Qed.

Lemma item_refs_stamp_children doc parent order k i :
  item_refs (foldl (λ doc child, stamp_child child parent doc) doc order) k i =
  if decide (mk_BodyChild k i ∈ order)
  then (λ _, (body_child_ref k i, Some parent)) <$> item_refs doc k i
  else item_refs doc k i.
Proof.
  revert doc; induction order as [|child order IH]; intros doc; cbn [foldl].
  { rewrite decide_False; [done|apply not_elem_of_nil]. }
  rewrite IH, item_refs_stamp_child.
  destruct (decide (child = mk_BodyChild k i)) as [->|Hne].
  - rewrite (decide_True (P := _ ∈ _ :: _)) by (by left).
    destruct (item_refs doc k i); repeat case_decide; done.
  - assert (mk_BodyChild k i ∈ order ↔ mk_BodyChild k i ∈ child :: order) as Hiff.
    { rewrite elem_of_cons. split; [by right|]. intros [E|?]; [by rewrite E in Hne|done]. }
    destruct (decide (mk_BodyChild k i ∈ order)) as [Hin|Hin].
    + by rewrite decide_True by (by apply Hiff).
    + by rewrite decide_False by (by rewrite <- Hiff).
Qed.

Lemma item_refs_finalize page order doc k i :
  item_refs (finalize_document page order doc) k i =
  if decide (mk_BodyChild k i ∈ order)
  then (λ _, (body_child_ref k i, Some kBodyRef)) <$> item_refs doc k i
  else item_refs doc k i.
Proof.
  unfold finalize_document. set (doc1 := set_doc_name _ _).
  transitivity (item_refs (foldl (λ doc child, stamp_child child kBodyRef doc) doc1 order) k i).
  { by destruct k. }
  rewrite item_refs_stamp_children. by destruct k.
Qed.

(** ** Tables *)

Lemma kept_table_shape_spec rows cols rows' cols' :
  0 <= rows → 0 <= cols → kept_table_shape rows cols = (rows', cols') →
  0 <= rows' <= rows ∧ 0 <= cols' <= cols ∧ rows' <= kMaxTableRows ∧ cols' <= kMaxTableCols ∧
  rows' * cols' <= kMaxTableCells.
Proof.
  unfold kept_table_shape, kMaxTableRows, kMaxTableCols, kMaxTableCells.
  intros ?? [= <- <-]. destruct (Z.ltb_spec 0 (Z.min cols 250)).
  - pose proof (Z.mul_div_le 50000 (Z.min cols 250) ltac:(lia)).
    pose proof (Z.div_pos 50000 (Z.min cols 250) ltac:(lia) ltac:(lia)).
    split_and!; try lia. nia.
  - split_and!; lia.
Qed.

Section Widest.
Implicit Types (f : list bytes → Z) (rows : list (list bytes)).

Lemma widest_acc f rows acc : acc <= foldl (λ w row, Z.max w (f row)) acc rows.
Proof.
  revert acc; induction rows as [|row rows IH]; intros; cbn; [lia|].
  etrans; [|apply IH]. lia.
Qed.

Lemma widest_ge f rows row : row ∈ rows → f row <= widest f rows.
Proof.
  unfold widest. generalize 0. induction rows as [|r rows IH]; intros acc Hin.
  { by apply elem_of_nil in Hin. }
  cbn. apply elem_of_cons in Hin as [->|Hin]; [|by apply IH].
  etrans; [|apply widest_acc]. lia.
Qed.

Lemma widest_le f rows n : 0 <= n → (∀ row, row ∈ rows → f row <= n) → widest f rows <= n.
Proof.
  unfold widest. generalize 0 as acc.
  induction rows as [|r rows IH]; intros acc Hacc H; cbn; [done|].
  apply IH; [|intros; apply H; by right]. specialize (H r ltac:(by left)). lia.
Qed.
End Widest.

Lemma imap_concat_map {A B} (f : nat → A → list B) (g : A → list B) l :
  (∀ i x, l !! i = Some x → f i x = g x) → concat (imap f l) = concat (map g l).
Proof.
  intros H. f_equal. apply list_eq. intros i.
  rewrite list_lookup_imap, list_lookup_fmap.
  destruct (l !! i) as [x|] eqn:E; cbn; [|done]. by rewrite (H i x E).
Qed.

Lemma fmap_concat_imap {A B C} (g : B → C) (f : nat → A → list B) l :
  g <$> concat (imap f l) = concat (imap (λ i x, g <$> f i x) l).
Proof.
  revert f; induction l as [|x l IH]; intros f; cbn; [done|]. by rewrite fmap_app, IH.
Qed.

Lemma filter_seq_lt m s n : filter (λ c, c < m)%nat (seq s n) = seq s (Nat.min (m - s) n).
Proof.
  revert s; induction n as [|n IH]; intros s; cbn [seq]; [by rewrite Nat.min_0_r|].
  rewrite filter_cons, IH. case_decide.
  - by replace (Nat.min (m - s) (S n)) with (S (Nat.min (m - S s) n)) by lia.
  - by replace (Nat.min (m - s) (S n)) with 0%nat by lia;
      replace (Nat.min (m - S s) n) with 0%nat by lia.
Qed.

Lemma text_cells (row : list bytes) header_rows r n :
  tc_text <$> map (text_cell row header_rows r) (seq 0 (Nat.min (length row) n)) = take n row.
Proof.
  apply list_eq. intros c. rewrite list_lookup_fmap, list_lookup_fmap.
  destruct (decide (c < Nat.min (length row) n)%nat) as [Hc|Hc].
  - rewrite lookup_seq_lt by done. cbn. rewrite lookup_take_lt by lia.
    destruct (lookup_lt_is_Some_2 row c) as [x Hx]; [lia|]. by rewrite Hx.
  - rewrite lookup_seq_ge by lia. cbn. symmetry. apply lookup_ge_None.
    rewrite length_take. lia.
Qed.

(** The shape [fill_table_data] keeps. *)
Lemma fill_table_shape rows header_rows data cut :
  fill_table_data rows header_rows = (data, cut) →
  let '(num_rows, kept_cols) := kept_table_shape (source_rows cut) (source_cols cut) in
  0 <= num_rows <= Z.of_nat (length rows) ∧ 0 <= kept_cols ∧
  td_num_rows data = num_rows ∧ 0 <= td_num_cols data <= kept_cols ∧
  (∀ row, row ∈ take (Z.to_nat num_rows) rows →
     Z.min (Z.of_nat (length row)) kept_cols <= td_num_cols data).
Proof.
  unfold fill_table_data.
  set (rc := Z.of_nat (length rows)). set (cc := widest _ rows).
  assert (0 <= cc) by apply widest_acc.
  destruct (kept_table_shape rc cc) as [nr kc] eqn:E. intros [= <- <-]. cbn. rewrite E.
  destruct (kept_table_shape_spec rc cc nr kc ltac:(lia) ltac:(lia) E) as (? & ? & _).
  split_and!; try lia.
  - apply widest_acc.
  - apply widest_le; [lia|]. intros; lia.
  - intros row Hrow. by apply (widest_ge (λ row, Z.min (Z.of_nat (length row)) kc)).
Qed.

Lemma alter_snoc {A} (f : A → A) (l : list A) x :
  alter f (length (l ++ [x]) - 1)%nat (l ++ [x]) = l ++ [f x].
Proof.
  rewrite length_app. cbn [length]. replace (length l + 1 - 1)%nat with (length l + 0)%nat by lia.
  by rewrite alter_app_r.
Qed.

(** ** What a finalized fragment holds, refs aside *)

Definition contents {A} `{Stamped A} (items : list A) : list A := stamp [] [] <$> items.

(** The text a reader sees. *)
Definition item_text (item : BaseTextItem) : bytes :=
  match item with
  | kCode c => ci_text c
  | _ => default [] (tb_text <$> text_base item)
  end.

Lemma contents_alter {A} `{StampedLaws A} (items : list A) s p i :
  contents (alter (stamp s p) i items) = contents items.
Proof.
  unfold contents. apply list_eq. intros j. rewrite !list_lookup_fmap.
  destruct (decide (i = j)) as [->|]; [|by rewrite list_lookup_alter_ne].
  rewrite list_lookup_alter_eq. destruct (items !! j); cbn; [|done]. by rewrite stamp_stamp.
Qed.

Record same_contents (doc doc' : Document) : Prop := {
  sc_texts : contents (doc_texts doc) = contents (doc_texts doc');
  sc_pictures : contents (doc_pictures doc) = contents (doc_pictures doc');
  sc_tables : contents (doc_tables doc) = contents (doc_tables doc');
  sc_key_values : contents (doc_key_value_items doc) = contents (doc_key_value_items doc');
  sc_groups : contents (doc_groups doc) = contents (doc_groups doc');
  sc_field_regions : contents (doc_field_regions doc) = contents (doc_field_regions doc') }.

#[export] Instance same_contents_equiv : Equivalence same_contents.
Proof.
  split.
  - done.
  - by intros ?? [].
  - intros ??? [] []. split; congruence.
Qed.

Lemma same_contents_stamp doc child parent : same_contents (stamp_child child parent doc) doc.
Proof. destruct child as [[] i]; split; try done; apply contents_alter. Qed.

Lemma finalize_same_contents page order doc : same_contents (finalize_document page order doc) doc.
Proof.
  transitivity (foldl (λ doc child, stamp_child child kBodyRef doc)
    (set_doc_name (lit "page-" ++ to_string (page_no page))
      (set_doc_version (Some (lit "1.10.0"))
        (set_doc_schema_name (Some (lit "docling_document_v2")) doc))) order); [by split|].
  transitivity (set_doc_name (lit "page-" ++ to_string (page_no page))
      (set_doc_version (Some (lit "1.10.0"))
        (set_doc_schema_name (Some (lit "docling_document_v2")) doc))); [|by split].
  generalize (set_doc_name (lit "page-" ++ to_string (page_no page))
      (set_doc_version (Some (lit "1.10.0"))
        (set_doc_schema_name (Some (lit "docling_document_v2")) doc))) as d.
  induction order as [|child order IH]; intros d; cbn [foldl]; [done|].
  rewrite IH. apply same_contents_stamp.
Qed.

(** A function the stamp does not change reads the same off both. *)
Lemma contents_fmap {A B} `{Stamped A} (f : A → B) (items items' : list A) :
  (∀ x, f (stamp [] [] x) = f x) → contents items = contents items' → f <$> items = f <$> items'.
Proof.
  intros Hf E. apply (f_equal (fmap f)) in E. unfold contents in E. rewrite <- !list_fmap_compose in E.
  by rewrite !(list_fmap_ext (f ∘ stamp [] []) f) in E by (intros; apply Hf).
Qed.

Lemma item_text_stamp s p item : item_text (stamp s p item) = item_text item.
Proof. by destruct item. Qed.

Lemma same_contents_texts doc doc' :
  same_contents doc doc' → item_text <$> doc_texts doc = item_text <$> doc_texts doc'.
Proof. intros H. apply contents_fmap; [apply item_text_stamp|apply H]. Qed.

Lemma same_contents_tables doc doc' :
  same_contents doc doc' → ti_data <$> doc_tables doc = ti_data <$> doc_tables doc'.
Proof. intros H. by apply contents_fmap; [|apply H]. Qed.

(** ** The images pictures carry *)

Lemma images_alter f i (pictures : list PictureItem) :
  (∀ p, pc_image (f p) = pc_image p) → pc_image <$> alter f i pictures = pc_image <$> pictures.
Proof.
  intros Hf. revert i. induction pictures as [|p pictures IH]; intros [|i]; try done; cbn.
  - by rewrite Hf.
  - f_equal. apply IH.
Qed.
Lemma image_sum_image weight image i pictures :
  weight None = 0 → pc_image <$> pictures !! i = Some None →
  image_sum weight (alter (set_pc_image (Some image)) i pictures) =
  image_sum weight pictures + weight (Some image).
Proof.
  intros Hw. unfold image_sum. revert i. induction pictures as [|p pictures IH]; intros [|i]; try done.
  - cbn. intros [= ->]. rewrite Hw. cbn. lia.
  - cbn. intros Hi. specialize (IH i Hi). cbn in *. lia.
Qed.
Lemma image_sum_ext weight pictures pictures' :
  pc_image <$> pictures = pc_image <$> pictures' → image_sum weight pictures = image_sum weight pictures'.
Proof.
  unfold image_sum. revert pictures'. induction pictures as [|p pictures IH]; intros [|p' pictures'] E; try done.
  injection E as Ep E. cbn. by rewrite Ep, (IH pictures').
Qed.
Lemma image_sum_push weight p pictures :
  weight None = 0 → pc_image p = None → image_sum weight (pictures ++ [p]) = image_sum weight pictures.
Proof. intros Hw Hp. unfold image_sum. rewrite foldr_app. cbn. by rewrite Hp, Hw. Qed.
Lemma same_contents_images doc doc' :
  same_contents doc doc' → pc_image <$> doc_pictures doc = pc_image <$> doc_pictures doc'.
Proof. intros H. apply contents_fmap; [done|apply H]. Qed.
Lemma images_within_ext budget doc doc' :
  pc_image <$> doc_pictures doc = pc_image <$> doc_pictures doc' → images_within budget doc → images_within budget doc'.
Proof. intros E. unfold images_within. by rewrite !(image_sum_ext _ _ _ E). Qed.

(** The raster's account of the images a fragment's pictures carry. *)
Section Charged.
Context `{Stb}.
Record images_charged (page : PageContext) (raster : PageRaster) (doc : Document) : Prop := {
  im_raster : raster_inv raster;
  im_budget : pr_budget raster = page_crops page;
  im_bytes : picture_bytes (doc_pictures doc) = pr_inline_bytes raster;
  im_crops : picture_crops (doc_pictures doc) <= pr_crops raster }.
Lemma images_charged_ext page raster doc doc' :
  pc_image <$> doc_pictures doc' = pc_image <$> doc_pictures doc →
  images_charged page raster doc → images_charged page raster doc'.
Proof. intros E []. split; rewrite ?(image_sum_ext _ _ _ E); done. Qed.
Lemma images_charged_new page raster doc :
  0 <= max_inline_bytes (page_crops page) < 2 ^ 64 → doc_pictures doc = [] →
  raster = PageRaster_new (page_png page) (page_width page) (page_height page) (page_crops page) →
  images_charged page raster doc.
Proof. intros ? E ->. split; rewrite ?E; try done. by apply raster_inv_new. Qed.
(** What a crop attaches, it charges. *)
Lemma images_charged_crop page raster doc l t r b result image raster' index :
  images_charged page raster doc → crop raster l t r b = (result, image, raster') →
  pc_image <$> doc_pictures doc !! index = Some None →
  images_charged page raster' (match image with Some image => alter_picture (set_pc_image (Some image)) index doc | None => doc end).
Proof.
  intros [Hr Hb Hi Hc] Hcrop Hfresh. pose proof (crop_counted _ _ _ _ _ _ _ _ Hr Hcrop).
  apply crop_spec in Hcrop as (Hr' & Hb' & _ & Hbytes & _); [|done].
  destruct image as [image|]; (split; [done|congruence|..]);
    cbn [doc_pictures alter_picture set_doc_pictures]; rewrite ?image_sum_image by done; cbn [uri_bytes image_count] in *; lia.
Qed.
Lemma images_charged_within page raster doc : images_charged page raster doc → images_within (page_crops page) doc.
Proof. intros [[] Hb Hi Hc]. rewrite Hb in *. split; lia. Qed.
End Charged.

Lemma finalize_children page order doc :
  gi_children <$> doc_body (finalize_document page order doc) =
  Some (default [] (gi_children <$> doc_body doc) ++
        map (λ c, body_child_ref (bc_kind c) (bc_index c)) order).
Proof. unfold finalize_document. cbn. by destruct (doc_body doc). Qed.

Lemma length_default_order doc :
  length (default_order doc) = (texts_size doc + pictures_size doc + tables_size doc)%nat.
Proof. unfold default_order. rewrite !length_app, !length_map, !length_seq. lia. Qed.

(** ** The items a body lists, stamped *)

(** Children of one kind stamped in order: each of that kind's items with its own
    ref under the body, and the other lists as they were. *)
Lemma stamp_listed {A} `{Stamped A} (get : Document → list A) k before items doc :
  (∀ i doc, get (stamp_child (mk_BodyChild k i) kBodyRef doc) =
            alter (stamp (body_child_ref k i) kBodyRef) i (get doc)) →
  get doc = before ++ items →
  get (foldl (λ doc child, stamp_child child kBodyRef doc) doc
        (mk_BodyChild k <$> seq (length before) (length items))) =
  before ++ imap (λ i item, stamp (body_child_ref k (length before + i)) kBodyRef item) items.
Proof.
  intros Hget. revert before doc. induction items as [|item items IH]; intros before doc Ht; [done|].
  cbn [length seq fmap list_fmap foldl imap].
  specialize (IH (before ++ [stamp (body_child_ref k (length before)) kBodyRef item])
    (stamp_child (mk_BodyChild k (length before)) kBodyRef doc)).
  rewrite length_app, Nat.add_1_r in IH. etrans; [apply IH|].
  - rewrite Hget, Ht. replace (length before) with (length before + 0)%nat at 2 by lia.
    rewrite alter_app_r. by rewrite <- app_assoc.
  - rewrite <- app_assoc. cbn. rewrite Nat.add_0_r. do 2 f_equal. apply imap_ext. intros i x _. cbn.
    by rewrite <- plus_n_Sm.
Qed.
Lemma stamp_unlisted {A} (get : Document → A) children doc :
  Forall (λ child, ∀ doc, get (stamp_child child kBodyRef doc) = get doc) children →
  get (foldl (λ doc child, stamp_child child kBodyRef doc) doc children) = get doc.
Proof.
  intros Hget. revert doc. induction Hget as [|child children Hchild _ IH]; intros doc; [done|].
  cbn [foldl]. by rewrite IH.
Qed.

(** What a mapper has emitted so far. *)
Definition emitted (out : Document) (texts : list bytes) (tables : list (option TableData))
    (pictures : list PictureItem) : Prop :=
  item_text <$> doc_texts out = texts ∧ ti_data <$> doc_tables out = tables ∧
  doc_pictures out = pictures ∧ doc_body out = None.

Lemma emitted_push item text out texts tables pictures :
  item_text item = text → emitted out texts tables pictures →
  emitted (push_text item out) (texts ++ [text]) tables pictures.
Proof. intros <- (<- & <- & <- & Hbody). unfold emitted. cbn. by rewrite fmap_app. Qed.

Lemma emitted_table page prov data out texts tables pictures :
  emitted out texts tables pictures →
  emitted (alter_table (set_ti_data (Some data)) (tables_size (add_table page prov out) - 1)
             (add_table page prov out)) texts (tables ++ [Some data]) pictures.
Proof.
  intros (<- & <- & <- & Hbody). unfold emitted, alter_table, tables_size, add_table.
  cbn [doc_texts doc_tables doc_pictures set_doc_tables].
  rewrite alter_snoc, fmap_app. done.
Qed.

(** * Properties *)

(** The part of a table the caps keep is a prefix of the source that is
    within every cap at once (2000 rows, 250 columns, 50000 cells), and it is
    the largest one: a row is dropped only when one more row would break a
    cap. *)
Theorem kept_table_shape_bounds rows cols rows' cols' :
  0 <= rows → 0 <= cols → kept_table_shape rows cols = (rows', cols') →
  0 <= rows' <= rows ∧ 0 <= cols' <= cols ∧
  rows' <= kMaxTableRows ∧ cols' <= kMaxTableCols ∧ rows' * cols' <= kMaxTableCells ∧
  (cols' < cols → cols' = kMaxTableCols) ∧
  (rows' < rows → rows' = kMaxTableRows ∨ kMaxTableCells < (rows' + 1) * cols').
Proof.
  intros Hr Hc E. destruct (kept_table_shape_spec _ _ _ _ Hr Hc E) as (? & ? & ? & ? & ?).
  split_and!; try lia; unfold kept_table_shape in E; injection E as <- <-; [lia|].
  unfold kMaxTableRows, kMaxTableCols, kMaxTableCells in *.
  destruct (Z.ltb_spec 0 (Z.min cols 250)); [|lia].
  pose proof (Z.mul_succ_div_gt 50000 (Z.min cols 250) ltac:(lia)). intros ?.
  destruct (Z.min_spec (Z.min rows 2000) (50000 / Z.min cols 250)) as [[? ->]|[? ->]]; [lia|].
  right. unfold Z.succ in *. lia.
Qed.

(** A table built from rows of text is rectangular and loses nothing inside
    the caps: the grid is [num_rows] rows of [num_cols] cells, the source cells
    are the kept rows' cells in reading order with their own text, and the
    grid's cell at (r, c) sits at its own offsets with the source text, or empty
    where a short row was padded. *)
Theorem fill_table_data_spec rows header_rows data cut :
  fill_table_data rows header_rows = (data, cut) →
  let '(num_rows, kept_cols) := kept_table_shape (source_rows cut) (source_cols cut) in
  tc_text <$> td_table_cells data =
    concat (map (take (Z.to_nat kept_cols)) (take (Z.to_nat num_rows) rows)) ∧
  Z.of_nat (length (td_grid data)) = td_num_rows data ∧
  (∀ r row, td_grid data !! r = Some row → Z.of_nat (length row) = td_num_cols data) ∧
  (∀ r c row cell, td_grid data !! r = Some row → row !! c = Some cell →
     tc_text cell = default [] (rows !! r ≫= λ cells, cells !! c) ∧
     (tc_start_row_offset_idx cell, tc_end_row_offset_idx cell) = (Z.of_nat r, Z.of_nat r + 1) ∧
     (tc_start_col_offset_idx cell, tc_end_col_offset_idx cell) = (Z.of_nat c, Z.of_nat c + 1)).
Proof.
  intros E. pose proof (fill_table_shape _ _ _ _ E) as Hs. unfold fill_table_data in E.
  destruct (kept_table_shape _ _) as [nr kc] eqn:Ek in E. injection E as <- <-.
  cbn [source_rows source_cols] in *. rewrite Ek in *. cbn in Hs.
  destruct Hs as (Hnr & Hkc & _ & Hnc & Hw). cbn [td_table_cells td_grid td_num_rows td_num_cols].
  set (nc := widest _ (take _ _)) in *. split_and!.
  - rewrite fmap_concat_imap. apply imap_concat_map. intros r row Hrow. cbn.
    rewrite filter_seq_lt, Nat.sub_0_r, text_cells.
    assert (Hin : row ∈ take (Z.to_nat nr) rows) by (by eapply list_elem_of_lookup_2).
    apply Hw in Hin. destruct (Nat.le_gt_cases (Z.to_nat nc) (Z.to_nat kc)); [|lia].
    destruct (Nat.le_gt_cases (length row) (Z.to_nat nc)).
    + rewrite !take_ge by lia. done.
    + by replace (Z.to_nat nc) with (Z.to_nat kc) by lia.
  - rewrite length_imap, length_take. lia.
  - intros r row Hrow. rewrite list_lookup_imap in Hrow.
    apply fmap_Some in Hrow as (cells & _ & ->). rewrite length_map, length_seq. lia.
  - intros r c row cell Hrow Hcell. rewrite list_lookup_imap in Hrow.
    apply fmap_Some in Hrow as (cells & Hcells & ->).
    rewrite list_lookup_fmap in Hcell. apply fmap_Some in Hcell as (c' & Hc & ->).
    apply lookup_seq in Hc as [-> _]. cbn.
    apply lookup_take_Some in Hcells as [-> _]. done.
Qed.

(** [finalize_document] makes the fragment a tree: the body's children are
    the refs of the order it is given, in that order; every item the order names
    carries its own ref and the body as parent, every other item keeps what it
    had; and a ref names one item only. *)
Theorem finalize_document_refs page order doc k i :
  let out := finalize_document page order doc in
  (gi_children <$> doc_body out) =
    Some (default [] (gi_children <$> doc_body doc) ++
          map (λ c, body_child_ref (bc_kind c) (bc_index c)) order) ∧
  (item_refs out k i =
     if decide (mk_BodyChild k i ∈ order)
     then (λ _, (body_child_ref k i, Some kBodyRef)) <$> item_refs doc k i
     else item_refs doc k i) ∧
  (∀ k' i', body_child_ref k i = body_child_ref k' i' → k = k' ∧ i = i').
Proof.
  cbn. split_and!.
  - apply (finalize_children page).
  - apply item_refs_finalize.
  - intros. by apply body_child_ref_inj.
Qed.

(** ** Witnesses *)

Lemma kept_table_shape_bounds_witness :
  kept_table_shape 4000 4000 = (200, 250) ∧ 50000 < (200 + 1) * 250.
Proof.
  split; [reflexivity|].
  destruct (kept_table_shape_bounds 4000 4000 200 250) as (_ & _ & _ & _ & _ & _ & H);
    [lia|lia|reflexivity|]. destruct H; [lia| |]; unfold kMaxTableRows, kMaxTableCells in *; lia.
Defined.

Definition sample_rows : list (list bytes) := [[lit "a"; lit "b"]; [lit "c"]].
Lemma fill_table_data_spec_witness :
  tc_text <$> td_table_cells (fill_table_data sample_rows 1).1 = [lit "a"; lit "b"; lit "c"].
Proof.
  apply (fill_table_data_spec sample_rows 1 (fill_table_data sample_rows 1).1
    (fill_table_data sample_rows 1).2). reflexivity.
Defined.
