(* ===== verification/OtslGrid.v ===== *)
(** The OTSL table parser (src/mapping/otsl.cpp, otsl_grid.h): the token scan,
    the spans its filler tokens spell, the grid every anchor is stamped on, and
    the OTSL format mapper.  [ByteSizeLong] is generated protobuf code, a
    parameter. *)
From S2P Require Import Prelude Numbers Double Proto ImageCrop Builder.

Class ProtobufSize := { ByteSizeLong : TableCell → Z }.

(** What a format mapper returns: a fragment with its warnings, or why the
    response does not parse. *)
Inductive MapResult :=
  | Mapped (doc : Document) (warnings : Warnings)
  | MapFailed (error : bytes).

Record OtslToken := mk_OtslToken { tok_tag : bytes; tok_text : bytes }.

Definition is_anchor (tag : bytes) : bool :=
  (tag =b lit "fcel") || (tag =b lit "ecel") || (tag =b lit "ched") || (tag =b lit "rhed")
  || (tag =b lit "srow").
Definition is_horizontal_filler (tag : bytes) : bool := (tag =b lit "lcel") || (tag =b lit "xcel").
Definition is_vertical_filler (tag : bytes) : bool := (tag =b lit "ucel") || (tag =b lit "xcel").
Definition is_cell_token (tag : bytes) : bool :=
  is_anchor tag || is_horizontal_filler tag || is_vertical_filler tag.

(** A '<' and a letter right after it. *)
Definition opens_tag (s : bytes) : bool :=
  match s with
  | "<"%char :: c :: _ => isalpha c
  | _ => false
  end.
(** [find_tag]: the next token opener. *)
Definition find_tag (body : bytes) (from : nat) : option nat := find_if opens_tag body from.

(** [next_token]: the tag (empty at end of input), its text, the new position. *)
Definition next_token (body : bytes) (pos : nat) : bytes * bytes * nat :=
  match find_tag body pos with
  | None => ([], [], length body)
  | Some open =>
      match find_char ">"%char body open with
      | None => ([], [], length body)
      | Some close =>
          let tag := substr body (open + 1) (close - open - 1) in
          match find_tag body (close + 1) with
          | None => (tag, trim (substr_from body (close + 1)), length body)
          | Some next => (tag, trim (substr body (close + 1) (next - close - 1)), next)
          end
      end
  end.

(** The local state of [scan_rows]; [visits] are the calls of [visit] so far. *)
Record Scan := mk_Scan {
  sc_row : nat; sc_col : nat; sc_rows : nat; sc_cols : nat; sc_pos : nat;
  sc_visits : list (nat * nat * OtslToken) }.

(** What one token does to the walk; [pos] is the position after it. *)
Definition advance (s : Scan) (token : OtslToken) (pos : nat) : Scan :=
  let tag := tok_tag token in
  if tag =b lit "nl" then
    let '(row, col) := if bool_decide (0 < sc_col s)%nat then (S (sc_row s), 0%nat)
                       else (sc_row s, sc_col s) in
    mk_Scan row col (sc_rows s) (sc_cols s) pos (sc_visits s)
  else if negb (is_cell_token tag) then
    mk_Scan (sc_row s) (sc_col s) (sc_rows s) (sc_cols s) pos (sc_visits s)
  else
    let '(row, col) := if (tag =b lit "srow") && bool_decide (0 < sc_col s)%nat
                       then (S (sc_row s), 0%nat) else (sc_row s, sc_col s) in
    mk_Scan row (S col) (Nat.max (sc_rows s) (S row)) (Nat.max (sc_cols s) (S col)) pos
      (sc_visits s ++ [(row, col, token)]).

Definition scan_step (body : bytes) (s : Scan) : Scan + Scan :=
  if negb (bool_decide (sc_pos s < length body)%nat) then inr s else
  let '(tag, text, pos) := next_token body (sc_pos s) in
  if tag =b [] then inr s else inl (advance s (mk_OtslToken tag text) pos).

Definition scan_init : Scan := mk_Scan 0 0 0 0 0 [].
(** [scan_rows]: the cell tokens with their grid position, and the shape. *)
Definition scan_rows (body : bytes) : Scan :=
  run_loop scan_init (S (length body)) (scan_step body) scan_init.

(** The second pass keeps the tokens within the caps, row by row. *)
Definition keep_rows (visits : list (nat * nat * OtslToken)) (kept_rows kept_cols : nat)
  : list (list OtslToken) :=
  foldl (λ rows '(row, col, token),
      if bool_decide (row < kept_rows)%nat && bool_decide (col < kept_cols)%nat
      then alter (λ tokens, tokens ++ [token]) row rows else rows)
    (replicate kept_rows []) visits.

(** How many tokens in a row pass [filler], from the head. *)
Fixpoint filler_run (filler : bytes → bool) (tokens : list OtslToken) : nat :=
  match tokens with
  | [] => 0
  | t :: tokens' => if filler (tok_tag t) then S (filler_run filler tokens') else 0
  end%nat.
(** Column [c] of the rows below, up to the first row that is too short. *)
Fixpoint column (c : nat) (rows : list (list OtslToken)) : list OtslToken :=
  match rows with
  | [] => []
  | row :: rows' => match row !! c with Some t => t :: column c rows' | None => [] end
  end.

(** The cell of the anchor token at (r, c). *)
Definition anchor_cell (rows : list (list OtslToken)) (row : list OtslToken) (r c : nat)
    (token : OtslToken) : TableCell :=
  let col_span := 1 + Z.of_nat (filler_run is_horizontal_filler (drop (S c) row)) in
  let row_span := 1 + Z.of_nat (filler_run is_vertical_filler (column c (drop (S r) rows))) in
  mk_TableCell row_span col_span (Z.of_nat r) (Z.of_nat r + row_span)
    (Z.of_nat c) (Z.of_nat c + col_span)
    (if tok_tag token =b lit "ecel" then [] else tok_text token)
    (tok_tag token =b lit "ched") (tok_tag token =b lit "rhed") (tok_tag token =b lit "srow") None.

Definition anchor_cells (rows : list (list OtslToken)) : list TableCell :=
  mjoin (imap (λ r row,
    mjoin (imap (λ c token,
      if is_anchor (tok_tag token) then [anchor_cell rows row r c token] else []) row)) rows).

Section WithSize.
Context `{ProtobufSize}.

(** What copying one anchor over its span costs. *)
Definition cell_cost (num_rows num_cols : Z) (cell : TableCell) : Z :=
  (Z.min (tc_end_row_offset_idx cell) num_rows - tc_start_row_offset_idx cell) *
  (Z.min (tc_end_col_offset_idx cell) num_cols - tc_start_col_offset_idx cell) *
  ByteSizeLong cell.
(** The running sum passed [kMaxGridBytes]. *)
Fixpoint grid_too_big (num_rows num_cols : Z) (cells : list TableCell) (grid_bytes : Z) : bool :=
  match cells with
  | [] => false
  | cell :: cells' =>
      let grid_bytes := grid_bytes + cell_cost num_rows num_cols cell in
      if kMaxGridBytes <? grid_bytes then true
      else grid_too_big num_rows num_cols cells' grid_bytes
  end.
End WithSize.

(** The filler of an uncovered position. *)
Definition empty_cell (r c : Z) : TableCell :=
  mk_TableCell 1 1 r (r + 1) c (c + 1) [] false false false None.
Definition empty_grid (num_rows num_cols : nat) : list TableRow :=
  (λ r, (λ c, empty_cell (Z.of_nat r) (Z.of_nat c)) <$> seq 0 num_cols) <$> seq 0 num_rows.

(** [start <= i < min(end, bound)]. *)
Definition span_range (start stop bound : Z) : list nat :=
  seq (Z.to_nat start) (Z.to_nat (Z.min stop bound - start)).
Definition set_cell (cell : TableCell) (r c : nat) (grid : list TableRow) : list TableRow :=
  alter (λ row, <[c := cell]> row) r grid.
(** One anchor stamped over every position its span covers. *)
Definition stamp_cell (num_rows num_cols : Z) (grid : list TableRow) (cell : TableCell)
  : list TableRow :=
  foldl (λ grid r,
      foldl (λ grid c, set_cell cell r c grid) grid
        (span_range (tc_start_col_offset_idx cell) (tc_end_col_offset_idx cell) num_cols))
    grid (span_range (tc_start_row_offset_idx cell) (tc_end_row_offset_idx cell) num_rows).

Definition max_row (rows : list (list OtslToken)) : nat :=
  foldl (λ m row, Nat.max m (length row)) 0%nat rows.

(** [parse_otsl_grid] on a fresh [TableData]: false, with nothing written, when
    the body holds no cell. *)
Definition parse_otsl_grid `{ProtobufSize} (body : bytes) : bool * TableData * TableCut :=
  let scan := scan_rows body in
  if bool_decide (sc_rows scan = 0%nat) then (false, TableData_empty, TableCut_default) else
  let rows_count := Z.of_nat (sc_rows scan) in
  let cols_count := Z.of_nat (sc_cols scan) in
  let '(kept_rows, kept_cols) := kept_table_shape rows_count cols_count in
  let cut := mk_TableCut rows_count cols_count
    ((kept_rows <? rows_count) || (kept_cols <? cols_count)) false in
  let rows := keep_rows (sc_visits scan) (Z.to_nat kept_rows) (Z.to_nat kept_cols) in
  let num_rows := Z.of_nat (length rows) in
  let num_cols := Z.of_nat (max_row rows) in
  let cells := anchor_cells rows in
  if grid_too_big num_rows num_cols cells 0 then
    (true, mk_TableData cells num_rows num_cols [],
     mk_TableCut (source_rows cut) (source_cols cut) (truncated cut) true)
  else
    let grid := foldl (stamp_cell num_rows num_cols) (empty_grid (length rows) (max_row rows)) cells in
    (true, mk_TableData cells num_rows num_cols grid, cut).

(** The OTSL payload, wrapped in <otsl>...</otsl> or bare. *)
Definition otsl_body (text : bytes) : bytes :=
  match find (lit "<otsl>") text 0 with
  | None => text
  | Some open =>
      match find (lit "</otsl>") text open with
      | None => substr_from text (open + 6)
      | Some close => substr text (open + 6) (close - open - 6)
      end
  end.

Definition map_otsl `{ProtobufSize} (text : bytes) (page : PageContext) (out : Document)
    (warnings : Warnings) : MapResult :=
  let out := add_table page (page_prov page) out in
  let '(ok, data, cut) := parse_otsl_grid (otsl_body text) in
  if negb ok then MapFailed (lit "OTSL response held no complete table row") else
  let out := set_doc_tables
    (alter (set_ti_data (Some data)) (tables_size out - 1)%nat (doc_tables out)) out in
  let warnings := note_table_cut cut data (lit "table") (body_child_ref TABLE 0) warnings in
  Mapped (finalize_document_default page out) warnings.

(** * The scan *)

Lemma find_tag_lt body from j : find_tag body from = Some j → (from ≤ j < length body)%nat.
Proof. intros H. by apply find_if_Some in H as [? _]. Qed.

Lemma next_token_progress body pos tag text pos' :
  (pos < length body)%nat → next_token body pos = (tag, text, pos') → tag ≠ [] →
  (pos < pos' ≤ length body)%nat.
Proof.
  unfold next_token. intros Hpos H Htag.
  destruct (find_tag body pos) as [open|] eqn:E1; [|by simplify_eq].
  destruct (find_char _ body open) as [close|] eqn:E2; [|by simplify_eq].
  apply find_tag_lt in E1. apply find_char_lt in E2.
  destruct (find_tag body (close + 1)) as [next|] eqn:E3; simplify_eq; [|lia].
  apply find_tag_lt in E3. lia.
Qed.

Definition in_row (r : nat) (v : nat * nat * OtslToken) : Prop := v.1.1 = r.
#[export] Instance in_row_dec r v : Decision (in_row r v).
Proof. unfold in_row. apply _. Defined.
Definition row_of (r : nat) (visits : list (nat * nat * OtslToken)) := filter (in_row r) visits.

(** Every row's tokens are visited at columns 0, 1, 2, ...; the current row
    is the last one with tokens; the shape is the furthest token. *)
Record scan_inv (body : bytes) (s : Scan) : Prop := {
  si_pos : (sc_pos s ≤ length body)%nat;
  si_cols : ∀ r, (λ v, v.1.2) <$> row_of r (sc_visits s) = seq 0 (length (row_of r (sc_visits s)));
  si_col : length (row_of (sc_row s) (sc_visits s)) = sc_col s;
  si_later : ∀ r, (sc_row s < r)%nat → row_of r (sc_visits s) = [];
  si_shape : ∀ r c t, (r, c, t) ∈ sc_visits s →
    (r < sc_rows s)%nat ∧ (c < sc_cols s)%nat ∧ is_cell_token (tok_tag t) = true;
  si_tight : sc_visits s = [] ∧ sc_rows s = 0%nat ∧ sc_cols s = 0%nat ∨
    (∃ r c t c' t', (r, c, t) ∈ sc_visits s ∧ S r = sc_rows s ∧
       (c', t') ∈ ((λ v, (v.1.2, v.2)) <$> sc_visits s) ∧ S c' = sc_cols s) }.

Lemma row_of_app r visits v :
  row_of r (visits ++ [v]) = row_of r visits ++ if decide (v.1.1 = r) then [v] else [].
Proof.
  unfold row_of. by rewrite filter_app.
Qed.

Lemma scan_inv_init body : scan_inv body scan_init.
Proof.
  split; cbn; try done; try lia; try (by left).
  by intros ??? ?%elem_of_nil.
Qed.

(** One more cell token at the current column. *)
Lemma scan_inv_visit body s row token pos :
  scan_inv body s → (sc_row s ≤ row)%nat → (pos ≤ length body)%nat →
  is_cell_token (tok_tag token) = true →
  let col := length (row_of row (sc_visits s)) in
  scan_inv body (mk_Scan row (S col) (Nat.max (sc_rows s) (S row)) (Nat.max (sc_cols s) (S col))
    pos (sc_visits s ++ [(row, col, token)])).
Proof.
  intros [] Hrow Hpos Htok col. split; cbn [sc_row sc_col sc_rows sc_cols sc_pos sc_visits].
  - done.
  - intros r. rewrite row_of_app, fmap_app, length_app, seq_app, si_cols0. f_equal. cbn.
    case_decide; subst; done.
  - rewrite row_of_app, length_app. cbn. rewrite decide_True by done. cbn. subst col. lia.
  - intros r Hr. rewrite row_of_app, si_later0 by lia. cbn. by rewrite decide_False by lia.
  - intros r c t [Hin|Hin]%elem_of_app.
    + destruct (si_shape0 _ _ _ Hin) as (? & ? & ?). split_and!; [lia|lia|done].
    + apply list_elem_of_singleton in Hin as [= -> -> ->]. split_and!; [lia|lia|done].
  - right.
    assert (Hnew : (row, col, token) ∈ sc_visits s ++ [(row, col, token)]).
    { apply elem_of_app. right. by apply list_elem_of_singleton. }
    assert (Hnew' : (col, token) ∈ ((λ v, (v.1.2, v.2)) <$> sc_visits s ++ [(row, col, token)])).
    { rewrite fmap_app. apply elem_of_app. right. by apply list_elem_of_singleton. }
    destruct si_tight0 as [(_ & Er & Ec)|(r & c & t & c' & t' & H1 & H2 & H3 & H4)].
    { exists row, col, token, col, token. split_and!; [done|lia|done|lia]. }
    assert (Hold : (r, c, t) ∈ sc_visits s ++ [(row, col, token)]) by (apply elem_of_app; by left).
    assert (Hold' : (c', t') ∈ ((λ v, (v.1.2, v.2)) <$> sc_visits s ++ [(row, col, token)])).
    { rewrite fmap_app. apply elem_of_app. by left. }
    destruct (Nat.max_spec (sc_rows s) (S row)) as [[? ->]|[? ->]];
      destruct (Nat.max_spec (sc_cols s) (S col)) as [[? ->]|[? ->]]; eauto 15.
Qed.

(** A row break. *)
Lemma scan_inv_break body s pos :
  scan_inv body s → (pos ≤ length body)%nat →
  scan_inv body (mk_Scan (S (sc_row s)) 0 (sc_rows s) (sc_cols s) pos (sc_visits s)).
Proof.
  intros [] ?. split; cbn [sc_row sc_col sc_rows sc_cols sc_pos sc_visits]; try done.
  - by rewrite si_later0 by lia.
  - intros. apply si_later0. lia.
Qed.

Lemma scan_inv_skip body s pos :
  scan_inv body s → (pos ≤ length body)%nat →
  scan_inv body (mk_Scan (sc_row s) (sc_col s) (sc_rows s) (sc_cols s) pos (sc_visits s)).
Proof. by intros [] ?; split. Qed.

Lemma scan_step_inv body s :
  scan_inv body s →
  match scan_step body s with
  | inl s' => scan_inv body s' ∧ (length body - sc_pos s' < length body - sc_pos s)%nat
  | inr r => scan_inv body r
  end.
Proof.
  intros Hs. unfold scan_step. case_bool_decide as Hlt; cbn [negb]; [|done].
  destruct (next_token body (sc_pos s)) as [[tag text] pos] eqn:En.
  case_bool_decide as Ht; [done|].
  pose proof (next_token_progress _ _ _ _ _ Hlt En Ht). unfold advance. cbn [tok_tag].
  destruct (tag =b lit "nl")%bs.
  { case_bool_decide; cbn; (split; [|lia]); [by apply scan_inv_break; [|lia]|].
    by apply scan_inv_skip; [|lia]. }
  destruct (is_cell_token tag) eqn:Hcell; cbn [negb].
  2: { split; [by apply scan_inv_skip; [|lia]|cbn; lia]. }
  destruct ((tag =b lit "srow")%bs && bool_decide (0 < sc_col s)%nat); cbn; (split; [|lia]).
  - replace 0%nat with (length (row_of (S (sc_row s)) (sc_visits s)))
      by (by rewrite (si_later body) by (first [done|lia])).
    apply scan_inv_visit; [done|lia|lia|done].
  - rewrite <- (si_col _ _ Hs). apply scan_inv_visit; [done|lia|lia|done].
Qed.

(** The scan terminates within its fuel and leaves the invariant. *)
Lemma scan_rows_inv body : scan_inv body (scan_rows body).
Proof.
  unfold scan_rows.
  apply (run_loop_spec (scan_inv body) (scan_inv body) (λ s, length body - sc_pos s)%nat).
  - intros s Hs. by apply scan_step_inv.
  - apply scan_inv_init.
  - cbn. lia.
Qed.

Lemma scan_terminates body :
  is_Some (loop (S (length body)) (scan_step body) scan_init).
Proof.
  apply (loop_total (scan_inv body) (λ s, length body - sc_pos s)%nat).
  - intros s s' Hs E. pose proof (scan_step_inv body s Hs) as H. by rewrite E in H.
  - apply scan_inv_init.
  - cbn. lia.
Qed.

(** * The kept rows *)

Lemma keep_rows_lookup visits kr kc r :
  (∀ r, (λ v, v.1.2) <$> row_of r visits = seq 0 (length (row_of r visits))) →
  keep_rows visits kr kc !! r =
  if decide (r < kr)%nat then Some (take kc (snd <$> row_of r visits)) else None.
Proof.
  unfold keep_rows. induction visits as [|[[row col] token] visits IH] using rev_ind; intros Hcols.
  { cbn. case_decide.
    - rewrite lookup_replicate_2 by done. by rewrite take_nil.
    - apply lookup_replicate_None. lia. }
  assert (Hprev : ∀ r, (λ v, v.1.2) <$> row_of r visits = seq 0 (length (row_of r visits))).
  { intros r'. specialize (Hcols r'). rewrite row_of_app, fmap_app, length_app, seq_app in Hcols.
    by apply app_inj_1 in Hcols as [? _]; [|by rewrite length_fmap, length_seq]. }
  specialize (IH Hprev). rewrite foldl_app. cbn [foldl].
  assert (Hcol : col = length (row_of row visits)).
  { specialize (Hcols row). rewrite row_of_app, fmap_app, length_app, seq_app in Hcols.
    cbn in Hcols. rewrite decide_True in Hcols by done. cbn in Hcols.
    apply app_inj_2 in Hcols as [_ Hcols]; [|done]. by injection Hcols. }
  rewrite row_of_app. cbn [fst snd].
  destruct (decide (row = r)) as [->|Hne].
  - rewrite fmap_app. cbn.
    destruct (bool_decide (r < kr)%nat && bool_decide (col < kc)%nat) eqn:Hkeep.
    + apply andb_prop in Hkeep as [?%bool_decide_eq_true ?%bool_decide_eq_true].
      rewrite list_lookup_alter_eq, IH. rewrite !decide_True by done. cbn. f_equal.
      rewrite !take_ge; [done|..]; rewrite ?length_app, ?length_fmap; cbn; lia.
    + rewrite IH. case_decide; [|done]. f_equal.
      rewrite bool_decide_true in Hkeep by done. apply bool_decide_eq_false in Hkeep.
      rewrite take_app_le; [done|]. rewrite length_fmap. lia.
  - rewrite app_nil_r. destruct (_ && _); [|done]. by rewrite list_lookup_alter_ne.
Qed.

Lemma keep_rows_length visits kr kc : length (keep_rows visits kr kc) = kr.
Proof.
  unfold keep_rows. rewrite <- (length_replicate kr (@nil OtslToken)) at 2.
  generalize (replicate kr (@nil OtslToken)) as rows.
  induction visits as [|[[row col] token] visits IH]; intros rows; cbn [foldl]; [done|].
  rewrite IH. destruct (_ && _); [by rewrite length_alter|done].
Qed.

(** * Stamping the grid *)

Definition grid_at (grid : list TableRow) (r c : nat) : option TableCell :=
  row ← grid !! r; row !! c.
(** Every row of the grid holds [cols] cells and there are [rows] of them. *)
Definition rectangular (rows cols : nat) (grid : list TableRow) : Prop :=
  length grid = rows ∧ Forall (λ row, length row = cols) grid.
Definition covers (cell : TableCell) (r c : nat) : Prop :=
  tc_start_row_offset_idx cell ≤ Z.of_nat r < tc_end_row_offset_idx cell ∧
  tc_start_col_offset_idx cell ≤ Z.of_nat c < tc_end_col_offset_idx cell.
#[export] Instance covers_dec cell r c : Decision (covers cell r c).
Proof. unfold covers. apply _. Defined.

Lemma rectangular_alter rows cols r f grid :
  (∀ row : TableRow, length (f row) = length row) → rectangular rows cols grid →
  rectangular rows cols (alter f r grid).
Proof.
  intros Hf [<- Hrows]. split; [by rewrite length_alter|].
  apply Forall_alter; [done|]. intros row _ <-. apply Hf.
Qed.

Lemma grid_at_Some rows cols grid r c :
  rectangular rows cols grid → (r < rows)%nat → (c < cols)%nat → is_Some (grid_at grid r c).
Proof.
  intros [<- Hall] Hr Hc. unfold grid_at.
  destruct (lookup_lt_is_Some_2 grid r Hr) as [row Hrow]. rewrite Hrow. cbn.
  apply lookup_lt_is_Some. by rewrite (Forall_lookup_1 _ _ _ _ Hall Hrow).
Qed.

Lemma set_cell_at cell r c grid r' c' :
  grid_at (set_cell cell r c grid) r' c' =
  if decide (r' = r ∧ c' = c) then (λ _, cell) <$> grid_at grid r' c' else grid_at grid r' c'.
Proof.
  unfold grid_at, set_cell. destruct (decide (r' = r)) as [->|Hr].
  - rewrite list_lookup_alter_eq. destruct (grid !! r) as [row|]; cbn; [|by case_decide].
    destruct (decide (c' = c)) as [->|Hc].
    + rewrite decide_True by done. destruct (row !! c) eqn:E; cbn.
      * apply list_lookup_insert_eq. by eapply lookup_lt_Some.
      * apply lookup_ge_None. rewrite length_insert. by apply lookup_ge_None.
    + rewrite decide_False by tauto. by apply list_lookup_insert_ne.
  - rewrite decide_False by tauto. by rewrite list_lookup_alter_ne.
Qed.

Lemma set_cells_at cell r cs grid r' c' :
  grid_at (foldl (λ g c, set_cell cell r c g) grid cs) r' c' =
  if decide (r' = r ∧ c' ∈ cs) then (λ _, cell) <$> grid_at grid r' c' else grid_at grid r' c'.
Proof.
  revert grid. induction cs as [|c cs IH]; intros grid; cbn [foldl].
  { rewrite decide_False; [done|]. by intros [_ ?%elem_of_nil]. }
  rewrite IH, set_cell_at. destruct (grid_at grid r' c'); repeat case_decide; try done;
    rewrite elem_of_cons in *; tauto.
Qed.

Lemma stamp_cell_at rows cols cell grid r c :
  grid_at (stamp_cell rows cols grid cell) r c =
  if decide (r ∈ span_range (tc_start_row_offset_idx cell) (tc_end_row_offset_idx cell) rows ∧
             c ∈ span_range (tc_start_col_offset_idx cell) (tc_end_col_offset_idx cell) cols)
  then (λ _, cell) <$> grid_at grid r c else grid_at grid r c.
Proof.
  unfold stamp_cell. set (cs := span_range (tc_start_col_offset_idx cell) _ cols).
  generalize (span_range (tc_start_row_offset_idx cell) (tc_end_row_offset_idx cell) rows) as rs.
  intros rs. revert grid. induction rs as [|r' rs IH]; intros grid; cbn [foldl].
  { rewrite decide_False; [done|]. by intros [?%elem_of_nil _]. }
  rewrite IH, set_cells_at. destruct (grid_at grid r c); repeat case_decide; try done;
    rewrite elem_of_cons in *; tauto.
Qed.

Lemma foldl_rectangular {A} rows cols (f : list TableRow → A → list TableRow) grid xs :
  (∀ g x, rectangular rows cols g → rectangular rows cols (f g x)) →
  rectangular rows cols grid → rectangular rows cols (foldl f grid xs).
Proof. intros Hf. revert grid. induction xs; intros grid ?; cbn; auto. Qed.

Lemma stamp_cell_rectangular rows cols nr nc grid cell :
  rectangular rows cols grid → rectangular rows cols (stamp_cell nr nc grid cell).
Proof.
  intros. unfold stamp_cell. apply foldl_rectangular; [|done]. intros g r Hg.
  apply foldl_rectangular; [|done]. intros g' c Hg'. apply rectangular_alter; [|done].
  intros row. apply length_insert.
Qed.

Lemma elem_of_span_range start stop bound i :
  0 ≤ start → i ∈ span_range start stop bound ↔ start ≤ Z.of_nat i < Z.min stop bound.
Proof. intros. unfold span_range. rewrite elem_of_seq. lia. Qed.

Definition inside (rows cols : Z) (cell : TableCell) : Prop :=
  0 ≤ tc_start_row_offset_idx cell ∧ tc_end_row_offset_idx cell ≤ rows ∧
  0 ≤ tc_start_col_offset_idx cell ∧ tc_end_col_offset_idx cell ≤ cols ∧
  tc_end_row_offset_idx cell = tc_start_row_offset_idx cell + tc_row_span cell ∧
  tc_end_col_offset_idx cell = tc_start_col_offset_idx cell + tc_col_span cell ∧
  1 ≤ tc_row_span cell ∧ 1 ≤ tc_col_span cell.

(** Every position holds the last anchor that covers it. *)
Lemma stamp_cells_at rows cols cells grid r c :
  Forall (inside rows cols) cells → is_Some (grid_at grid r c) →
  grid_at (foldl (stamp_cell rows cols) grid cells) r c =
  match last (filter (λ cell, covers cell r c) cells) with
  | Some cell => Some cell
  | None => grid_at grid r c
  end.
Proof.
  intros Hin Hsome. induction cells as [|cell cells IH] using rev_ind; [done|].
  apply Forall_app in Hin as [Hin Hcell]. apply Forall_cons in Hcell as [Hcell _].
  rewrite foldl_app. cbn [foldl]. rewrite stamp_cell_at, IH, filter_app, filter_cons, filter_nil
    by done.
  destruct Hcell as (? & ? & ? & ? & _).
  destruct (decide (covers cell r c)) as [Hc|Hc].
  - rewrite decide_True.
    + rewrite last_snoc. destruct (last _); [done|]. by destruct Hsome as [? ->].
    + unfold covers in Hc. rewrite !elem_of_span_range by done. lia.
  - rewrite decide_False, app_nil_r; [done|].
    unfold covers in Hc. rewrite !elem_of_span_range by done. lia.
Qed.

Lemma empty_grid_rectangular rows cols : rectangular rows cols (empty_grid rows cols).
Proof.
  unfold empty_grid. split; [by rewrite length_fmap, length_seq|].
  apply Forall_fmap, Forall_true. intros r. cbn. by rewrite length_fmap, length_seq.
Qed.

Lemma empty_grid_at rows cols r c :
  (r < rows)%nat → (c < cols)%nat →
  grid_at (empty_grid rows cols) r c = Some (empty_cell (Z.of_nat r) (Z.of_nat c)).
Proof.
  intros Hr Hc. unfold grid_at, empty_grid.
  rewrite list_lookup_fmap, lookup_seq_lt by done. cbn.
  by rewrite list_lookup_fmap, lookup_seq_lt by done.
Qed.

(** * The anchors *)

Lemma filler_run_le filler tokens : (filler_run filler tokens ≤ length tokens)%nat.
Proof. induction tokens as [|t tokens IH]; cbn; [lia|]. case_match; lia. Qed.

Lemma column_le c rows : (length (column c rows) ≤ length rows)%nat.
Proof. induction rows as [|row rows IH]; cbn; [lia|]. case_match; cbn; lia. Qed.

Lemma max_row_ge rows row : row ∈ rows → (length row ≤ max_row rows)%nat.
Proof.
  unfold max_row. generalize 0%nat as m.
  assert (∀ rows m, (m ≤ foldl (λ m row, m `max` length (row : list OtslToken)) m rows)%nat) as Hge.
  { clear. induction rows as [|row rows IH]; intros m; cbn; [lia|].
    specialize (IH (m `max` length row)%nat). lia. }
  induction rows as [|row' rows IH]; intros m Hin; [by apply elem_of_nil in Hin|].
  cbn. apply elem_of_cons in Hin as [->|Hin]; [|by apply IH].
  specialize (Hge rows (m `max` length row')%nat). lia.
Qed.

Lemma max_row_le rows n : Forall (λ row, length row ≤ n)%nat rows → (max_row rows ≤ n)%nat.
Proof.
  unfold max_row. assert (0 ≤ n)%nat as H0 by lia. revert H0. generalize 0%nat as m.
  induction rows as [|row rows IH]; intros m Hm Hall; cbn; [done|].
  apply Forall_cons in Hall as [? ?]. apply IH; [lia|done].
Qed.

Lemma anchor_cells_elem rows cell :
  cell ∈ anchor_cells rows →
  ∃ r c row token, rows !! r = Some row ∧ row !! c = Some token ∧
    is_anchor (tok_tag token) = true ∧ cell = anchor_cell rows row r c token.
Proof.
  unfold anchor_cells. intros (cells & Hin & Hcells)%list_elem_of_join.
  apply elem_of_lookup_imap_1 in Hcells as (r & row & -> & Hrow).
  apply list_elem_of_join in Hin as (cells & Hin & Hcells).
  apply elem_of_lookup_imap_1 in Hcells as (c & token & -> & Htoken).
  destruct (is_anchor (tok_tag token)) eqn:Ha; [|by apply elem_of_nil in Hin].
  apply list_elem_of_singleton in Hin as ->. eauto 10.
Qed.

Lemma anchor_cell_inside rows row r c token :
  rows !! r = Some row → row !! c = Some token →
  inside (Z.of_nat (length rows)) (Z.of_nat (max_row rows)) (anchor_cell rows row r c token).
Proof.
  intros Hrow Htoken. unfold inside, anchor_cell. cbn.
  pose proof (lookup_lt_Some _ _ _ Hrow). pose proof (lookup_lt_Some _ _ _ Htoken).
  pose proof (max_row_ge rows row (list_elem_of_lookup_2 _ _ _ Hrow)).
  pose proof (filler_run_le is_horizontal_filler (drop (S c) row)) as H3.
  pose proof (filler_run_le is_vertical_filler (column c (drop (S r) rows))) as H4.
  pose proof (column_le c (drop (S r) rows)) as H5.
  rewrite length_drop in H3. rewrite length_drop in H5. split_and!; lia.
Qed.

Lemma anchor_cells_inside rows :
  Forall (inside (Z.of_nat (length rows)) (Z.of_nat (max_row rows))) (anchor_cells rows).
Proof.
  apply Forall_forall. intros cell (r & c & row & token & ? & ? & _ & ->)%anchor_cells_elem.
  by apply anchor_cell_inside.
Qed.

Lemma keep_rows_widest body kr kc :
  (max_row (keep_rows (sc_visits (scan_rows body)) kr kc) ≤ kc)%nat.
Proof.
  apply max_row_le, Forall_lookup. intros r row.
  rewrite keep_rows_lookup by (by destruct (scan_rows_inv body)).
  case_decide; [|done]. intros [= <-]. rewrite length_take. lia.
Qed.

Section Properties.
Context `{ProtobufSize}.

(** An OTSL body that holds a cell token yields a table within every cap,
    whose cells all lie inside it with end offset = start offset + span; and
    unless its copies would pass the byte cap, a full rectangular grid in
    which each position holds the last anchor covering it, or an empty 1x1
    cell where no anchor does. *)
Theorem otsl_grid_covering body data cut :
  parse_otsl_grid body = (true, data, cut) →
  0 < source_rows cut ∧ 0 < source_cols cut ∧
  td_num_rows data <= kMaxTableRows ∧ td_num_cols data <= kMaxTableCols ∧
  td_num_rows data * td_num_cols data <= kMaxTableCells ∧
  Forall (inside (td_num_rows data) (td_num_cols data)) (td_table_cells data) ∧
  (if grid_omitted cut then td_grid data = []
   else rectangular (Z.to_nat (td_num_rows data)) (Z.to_nat (td_num_cols data)) (td_grid data) ∧
     ∀ r c, Z.of_nat r < td_num_rows data → Z.of_nat c < td_num_cols data →
       grid_at (td_grid data) r c = Some
         match last (filter (λ cell, covers cell r c) (td_table_cells data)) with
         | Some cell => cell
         | None => empty_cell (Z.of_nat r) (Z.of_nat c)
         end).
Proof.
  unfold parse_otsl_grid. case_bool_decide as Hempty; [done|].
  pose proof (scan_rows_inv body) as Hinv.
  assert (Hwide : ∀ kr kc, (max_row (keep_rows (sc_visits (scan_rows body)) kr kc) ≤ kc)%nat)
    by apply keep_rows_widest.
  revert Hempty Hinv Hwide. generalize (scan_rows body) as scan. intros scan Hempty Hinv Hwide.
  destruct (kept_table_shape _ _) as [kr kc] eqn:Hshape.
  pose proof (keep_rows_length (sc_visits scan) (Z.to_nat kr) (Z.to_nat kc)) as Hlen.
  specialize (Hwide (Z.to_nat kr) (Z.to_nat kc)).
  apply kept_table_shape_spec in Hshape as (? & ? & ? & ? & ?); [|lia|lia].
  assert (0 < sc_cols scan)%nat.
  { destruct (si_tight _ _ Hinv) as [(_ & ? & _)|(? & ? & ? & c' & ? & _ & _ & _ & <-)]; lia. }
  revert Hlen Hwide. generalize (keep_rows (sc_visits scan) (Z.to_nat kr) (Z.to_nat kc)).
  intros rows Hlen Hwide. pose proof (anchor_cells_inside rows) as Hin.
  destruct (grid_too_big _ _ _ _); intros [= <- <-]; cbn; split_and!; try lia; try done; try nia.
  { apply foldl_rectangular; [intros; by apply stamp_cell_rectangular|].
    rewrite !Nat2Z.id. apply empty_grid_rectangular. }
  intros r c Hr Hc. rewrite stamp_cells_at; [|done|].
  - rewrite empty_grid_at by lia. by destruct (last _).
  - rewrite empty_grid_at by lia. done.
Qed.
End Properties.

(** * Printing a table and reading it back *)

Definition print_token (token : OtslToken) : bytes :=
  lit "<" ++ tok_tag token ++ lit ">" ++ tok_text token.
Definition print_tokens (tokens : list OtslToken) : bytes := mjoin (print_token <$> tokens).
(** A tag opens with a letter and holds no '>'; the text holds no '<' and no
    surrounding blanks. *)
Definition plain_token (token : OtslToken) : Prop :=
  head_is isalpha (tok_tag token) = true ∧ (">"%char ∉ tok_tag token) ∧
  ("<"%char ∉ tok_text token) ∧ trim (tok_text token) = tok_text token.

Lemma opens_tag_other s rest k :
  "<"%char ∉ s → (k < length s)%nat → opens_tag (drop k s ++ rest) = false.
Proof.
  intros Hs Hk. destruct (lookup_lt_is_Some_2 s k Hk) as [c Hc].
  rewrite (drop_S _ _ _ Hc). cbn.
  destruct c as [[] [] [] [] [] [] [] []]; try done.
  destruct Hs. by eapply list_elem_of_lookup_2.
Qed.

Lemma print_tokens_opens tokens :
  Forall plain_token tokens → print_tokens tokens = [] ∨ opens_tag (print_tokens tokens) = true.
Proof.
  destruct tokens as [|[tag text] tokens]; [by left|].
  intros [(Htag & _) _]%Forall_cons. right. cbn in *. by destruct tag.
Qed.

Ltac cut_size := repeat progress (cbn [length app lit]; rewrite ?length_app); cbn; lia.

Lemma next_token_print pre token tokens :
  plain_token token → Forall plain_token tokens →
  next_token (pre ++ print_tokens (token :: tokens)) (length pre) =
  (tok_tag token, tok_text token, length (pre ++ print_token token)).
Proof.
  destruct token as [tag text]. intros (Htag & Hgt & Hlt & Htrim) Htokens.
  cbn [tok_tag tok_text] in *. pose proof (print_tokens_opens tokens Htokens) as Hrest.
  change (print_tokens (?t :: ?ts)) with (print_token t ++ print_tokens ts).
  revert Hrest. generalize (print_tokens tokens) as rest. intros rest Hrest.
  match goal with |- next_token ?b _ = _ => set (body := b) end.
  assert (Hbody : body = pre ++ lit "<" ++ tag ++ lit ">" ++ text ++ rest)
    by (subst body; unfold print_token; cbn; by rewrite <- !app_assoc).
  unfold next_token, find_tag, find_char.
  rewrite (find_if_hit opens_tag body pre [] (lit "<" ++ tag ++ lit ">" ++ text ++ rest));
    [|done|done|cbn; lia|done|by destruct tag].
  rewrite (find_if_hit (head_is (Ascii.eqb ">"%char)) body pre (lit "<" ++ tag)
    (lit ">" ++ text ++ rest)); [|by rewrite Hbody, <- app_assoc|cut_size| |done|done].
  2: { intros k Hk. apply head_is_other; [|done]. by intros [|]%elem_of_cons. }
  rewrite (substr_cut body (pre ++ lit "<") tag (lit ">" ++ text ++ rest));
    [|by rewrite Hbody, <- app_assoc|cut_size|cut_size].
  set (pre' := pre ++ lit "<" ++ tag ++ lit ">").
  assert (Hbody' : body = pre' ++ text ++ rest).
  { subst pre'. rewrite Hbody. by rewrite <- !app_assoc. }
  destruct Hrest as [->|Hrest].
  - rewrite (find_if_miss opens_tag body pre' text); [|by rewrite Hbody', app_nil_r|subst pre'; cut_size|].
    2: { intros k Hk. rewrite <- (app_nil_r (drop k text)). by apply opens_tag_other. }
    rewrite (substr_from_cut body pre' text); [|by rewrite Hbody', app_nil_r|subst pre'; cut_size].
    rewrite Htrim. f_equal. subst body. unfold print_token. cut_size.
  - rewrite (find_if_hit opens_tag body pre' text rest);
      [|done|subst pre'; cut_size|by intros; apply opens_tag_other|by destruct rest|done].
    rewrite (substr_cut body pre' text rest); [|done|subst pre'; cut_size|subst pre'; cut_size].
    rewrite Htrim. f_equal. subst body pre'. unfold print_token. cut_size.
Qed.

(** The scan of printed tokens is a fold over the tokens. *)
Definition advance_print (s : Scan) (token : OtslToken) : Scan :=
  advance s token (sc_pos s + length (print_token token)).

Lemma advance_pos s token pos : sc_pos (advance s token pos) = pos.
Proof. unfold advance. by repeat case_match. Qed.

Lemma loop_print tokens s pre fuel :
  Forall plain_token tokens → sc_pos s = length pre →
  (length (print_tokens tokens) < fuel)%nat →
  loop fuel (scan_step (pre ++ print_tokens tokens)) s = Some (foldl advance_print s tokens).
Proof.
  revert s pre fuel. induction tokens as [|token tokens IH]; intros s pre fuel Hplain Hpos Hfuel.
  { destruct fuel; [lia|]. cbn [loop]. unfold scan_step.
    rewrite bool_decide_false; [done|]. cbn. rewrite app_nil_r. lia. }
  apply Forall_cons in Hplain as [Ht Hts]. destruct fuel as [|fuel]; [lia|].
  change (print_tokens (token :: tokens)) with (print_token token ++ print_tokens tokens) in Hfuel.
  rewrite length_app in Hfuel.
  assert (0 < length (print_token token))%nat by (unfold print_token; cbn; lia).
  cbn [loop foldl]. unfold scan_step at 1. rewrite Hpos, next_token_print by done.
  rewrite bool_decide_true.
  2: { change (print_tokens (token :: tokens)) with (print_token token ++ print_tokens tokens).
       rewrite !length_app. lia. }
  cbn [negb]. destruct token as [tag text]. cbn [tok_tag tok_text] in *.
  rewrite (bool_decide_false (tag = [])) by (destruct Ht as [Ht _]; by destruct tag).
  change (print_tokens (?t :: tokens)) with (print_token t ++ print_tokens tokens).
  rewrite (app_assoc pre). rewrite IH; [|done|by rewrite advance_pos|lia].
  do 2 f_equal. unfold advance_print. by rewrite Hpos, <- length_app.
Qed.

Lemma scan_print tokens :
  Forall plain_token tokens →
  scan_rows (print_tokens tokens) = foldl advance_print scan_init tokens.
Proof.
  intros Hplain. unfold scan_rows, run_loop.
  pose proof (loop_print tokens scan_init [] (S (length (print_tokens tokens))) Hplain) as E.
  cbn [app] in E. rewrite E; [done|done|lia].
Qed.

(** The tokens of a table of plain cells, one row after the other. *)
Definition cell_token (text : bytes) : OtslToken := mk_OtslToken (lit "fcel") text.
Definition row_tokens (row : list bytes) : list OtslToken :=
  (cell_token <$> row) ++ [mk_OtslToken (lit "nl") []].
Definition print_table (rows : list (list bytes)) : bytes :=
  print_tokens (mjoin (row_tokens <$> rows)).
Definition plain_text (text : bytes) : Prop := ("<"%char ∉ text) ∧ trim text = text.
Definition row_visits (r : nat) (row : list bytes) : list (nat * nat * OtslToken) :=
  imap (λ c text, (r, c, cell_token text)) row.

(** What the walk holds but for its position. *)
Definition at_row (s : Scan) (r c rows cols : nat) (visits : list (nat * nat * OtslToken)) : Prop :=
  sc_row s = r ∧ sc_col s = c ∧ sc_rows s = rows ∧ sc_cols s = cols ∧ sc_visits s = visits.

Lemma advance_cells row s r c rows cols visits :
  at_row s r c rows cols visits → row ≠ [] →
  at_row (foldl advance_print s (cell_token <$> row)) r (c + length row) (rows `max` S r)
    (cols `max` (c + length row))
    (visits ++ imap (λ i text, (r, (c + i)%nat, cell_token text)) row).
Proof.
  revert s c rows cols visits.
  induction row as [|text row IH]; intros s c rows cols visits Hs Hne; [done|].
  cbn [fmap list_fmap foldl imap].
  assert (Hstep : at_row (advance_print s (cell_token text)) r (S c) (rows `max` S r)
    (cols `max` S c) (visits ++ [(r, c, cell_token text)])).
  { destruct Hs as (<- & <- & <- & <- & <-). done. }
  destruct row as [|text' row].
  { cbn. replace (c + 1)%nat with (S c) by lia. by rewrite Nat.add_0_r. }
  specialize (IH _ _ _ _ _ Hstep ltac:(done)).
  replace (c + length (text :: text' :: row))%nat with (S c + length (text' :: row))%nat by (cbn; lia).
  destruct IH as (E1 & E2 & E3 & E4 & E5). split_and!; [done|done|..].
  - rewrite E3. lia.
  - rewrite E4. lia.
  - rewrite E5, <- app_assoc. rewrite Nat.add_0_r. do 2 f_equal. apply imap_ext.
    intros i x _. cbn. do 2 f_equal. lia.
Qed.

Lemma advance_row row s r rows cols visits :
  at_row s r 0 rows cols visits → row ≠ [] →
  at_row (foldl advance_print s (row_tokens row)) (S r) 0 (rows `max` S r)
    (cols `max` length row) (visits ++ row_visits r row).
Proof.
  intros Hs Hne. unfold row_tokens. rewrite foldl_app.
  destruct (advance_cells row s r 0 rows cols visits Hs Hne) as (E1 & E2 & E3 & E4 & E5).
  cbn [foldl]. unfold advance_print at 1, advance. cbn [tok_tag].
  rewrite (bool_decide_true (lit "nl" = lit "nl")) by done. rewrite E1, E2.
  rewrite bool_decide_true by (destruct row; [done|cbn; lia]). done.
Qed.

Lemma advance_table rows n s r cols visits :
  (0 < n)%nat → Forall (λ row, length row = n) rows → at_row s r 0 r cols visits →
  (cols = 0%nat ∨ cols = n) →
  at_row (foldl advance_print s (mjoin (row_tokens <$> rows))) (r + length rows) 0 (r + length rows)
    (if rows is [] then cols else n)
    (visits ++ mjoin (imap (λ i row, row_visits (r + i) row) rows)).
Proof.
  intros Hn. revert s r cols visits.
  induction rows as [|row rows IH]; intros s r cols visits Hrows Hs Hcols.
  { cbn. by rewrite Nat.add_0_r, app_nil_r. }
  apply Forall_cons in Hrows as [Hrow Hrows]. cbn [fmap list_fmap imap].
  change (mjoin (?x :: ?xs)) with (x ++ mjoin xs). rewrite foldl_app.
  pose proof (advance_row row s r r cols visits Hs ltac:(by destruct row; cbn in *; [lia|])) as H1.
  replace (r `max` S r)%nat with (S r) in H1 by lia.
  replace (cols `max` length row)%nat with n in H1 by lia.
  specialize (IH _ _ _ _ Hrows H1 (or_intror eq_refl)).
  change (mjoin (?x :: ?xs)) with (x ++ mjoin xs). rewrite Nat.add_0_r.
  cbn [length]. replace (r + S (length rows))%nat with (S r + length rows)%nat by lia.
  rewrite app_assoc. erewrite (imap_ext _ _ rows); [by destruct rows|].
  intros i x _. cbn. f_equal. lia.
Qed.

Definition table_visits (rows : list (list bytes)) : list (nat * nat * OtslToken) :=
  mjoin (imap row_visits rows).
Definition cell_rows (rows : list (list bytes)) : list (list OtslToken) :=
  fmap (M:=list) (fmap (M:=list) cell_token) rows.

Lemma row_of_row_visits r i row :
  row_of r (row_visits i row) = if decide (r = i) then row_visits i row else [].
Proof.
  unfold row_of, row_visits. induction row as [|text row IH] using rev_ind; [by case_decide|].
  rewrite imap_app, filter_app, IH. cbn. unfold in_row. cbn.
  repeat case_decide; subst; try done.
Qed.

Lemma row_of_table r (rows : list (list bytes)) :
  row_of r (table_visits rows) =
  match rows !! r with Some row => row_visits r row | None => [] end.
Proof.
  induction rows as [|row rows IH] using rev_ind; [done|].
  unfold table_visits in *. rewrite imap_app, join_app.
  assert (Happ : ∀ l1 l2, row_of r (l1 ++ l2) = row_of r l1 ++ row_of r l2) by apply filter_app.
  rewrite Happ, IH. cbn [imap]. change (mjoin [?x]) with (x ++ []).
  rewrite app_nil_r. unfold compose. rewrite Nat.add_0_r, row_of_row_visits. destruct (decide (r < length rows)%nat).
  - rewrite lookup_app_l by done. rewrite decide_False by lia. by rewrite app_nil_r.
  - rewrite (lookup_ge_None_2 rows) by lia. cbn.
    destruct (decide (r = length rows)) as [->|].
    + by rewrite list_lookup_middle.
    + rewrite lookup_ge_None_2; [done|]. rewrite length_app. cbn. lia.
Qed.

Lemma row_visits_texts r row : snd <$> row_visits r row = cell_token <$> row.
Proof.
  apply list_eq. intros i. unfold row_visits. rewrite !list_lookup_fmap, list_lookup_imap.
  by destruct (row !! i).
Qed.

Lemma row_visits_cols r row :
  (λ v, v.1.2) <$> row_visits r row = seq 0 (length (row_visits r row)).
Proof.
  unfold row_visits. rewrite length_imap. apply list_eq. intros i.
  rewrite list_lookup_fmap, list_lookup_imap.
  destruct (row !! i) as [text|] eqn:E; cbn.
  - by rewrite lookup_seq_lt by (by eapply lookup_lt_Some).
  - symmetry. apply lookup_ge_None_2. rewrite length_seq. by apply lookup_ge_None.
Qed.

Lemma keep_rows_table (rows : list (list bytes)) n :
  Forall (λ row, length row = n) rows →
  keep_rows (table_visits rows) (length rows) n = cell_rows rows.
Proof.
  intros Hrows. apply list_eq. intros r. rewrite keep_rows_lookup.
  2: { intros r'. rewrite row_of_table. destruct (rows !! r'); [apply row_visits_cols|done]. }
  unfold cell_rows. rewrite row_of_table, list_lookup_fmap.
  destruct (rows !! r) as [row|] eqn:E; cbn.
  - rewrite decide_True by (by eapply lookup_lt_Some). rewrite row_visits_texts. f_equal.
    apply take_ge. rewrite length_fmap. by rewrite (Forall_lookup_1 _ _ _ _ Hrows E).
  - rewrite decide_False; [done|]. apply lookup_ge_None in E. lia.
Qed.

(** The cells of a table with no span, each at its own position. *)
Definition plain_cell (r c : nat) (text : bytes) : TableCell :=
  mk_TableCell 1 1 (Z.of_nat r) (Z.of_nat r + 1) (Z.of_nat c) (Z.of_nat c + 1) text
    false false false None.
Definition plain_grid (rows : list (list bytes)) : list TableRow :=
  imap (λ r row, imap (plain_cell r) row) rows.
Definition plain_cells (rows : list (list bytes)) : list TableCell := mjoin (plain_grid rows).

Lemma plain_grid_at rows r c : grid_at (plain_grid rows) r c = plain_cell r c <$> (rows !! r ≫= (.!! c)).
Proof.
  unfold grid_at, plain_grid. rewrite list_lookup_imap. destruct (rows !! r) as [row|]; [|done]. cbn.
  by rewrite list_lookup_imap.
Qed.
Lemma elem_of_plain_cells rows cell :
  cell ∈ plain_cells rows ↔ ∃ r c text, rows !! r ≫= (.!! c) = Some text ∧ cell = plain_cell r c text.
Proof.
  unfold plain_cells. rewrite list_elem_of_join. split.
  - intros (row & (c & Hc)%list_elem_of_lookup & (r & Hr)%list_elem_of_lookup).
    assert (Hat : grid_at (plain_grid rows) r c = Some cell) by (unfold grid_at; by rewrite Hr).
    rewrite plain_grid_at in Hat. apply fmap_Some in Hat as (text & ? & ?). by exists r, c, text.
  - intros (r & c & text & Ht & ->).
    assert (Hat : grid_at (plain_grid rows) r c = Some (plain_cell r c text)) by (by rewrite plain_grid_at, Ht).
    unfold grid_at in Hat. apply bind_Some in Hat as (row & Hr & Hc). exists row.
    split; by eapply list_elem_of_lookup_2.
Qed.
Lemma plain_cells_inside rows n :
  Forall (λ row, length row = n) rows →
  Forall (inside (Z.of_nat (length rows)) (Z.of_nat n)) (plain_cells rows).
Proof.
  intros Hlen. apply Forall_forall. intros cell (r & c & text & Ht & ->)%elem_of_plain_cells.
  apply bind_Some in Ht as (row & Hr & Hc). rewrite Forall_forall in Hlen.
  pose proof (Hlen row (list_elem_of_lookup_2 _ _ _ Hr)) as Hn.
  apply lookup_lt_Some in Hr, Hc. unfold inside. cbn. lia.
Qed.
(** At each position only its own cell. *)
Lemma plain_cells_covering rows r c text :
  rows !! r ≫= (.!! c) = Some text →
  last (filter (λ cell, covers cell r c) (plain_cells rows)) = Some (plain_cell r c text).
Proof.
  intros Ht. assert (Hin : plain_cell r c text ∈ filter (λ cell, covers cell r c) (plain_cells rows)).
  { apply list_elem_of_filter. split; [unfold covers; cbn; lia|]. apply elem_of_plain_cells. by exists r, c, text. }
  destruct (last _) as [cell|] eqn:E; [|apply last_None in E; rewrite E in Hin; by apply elem_of_nil in Hin].
  apply last_Some_elem_of in E. apply list_elem_of_filter in E as [Hcov (r' & c' & text' & Ht' & ->)%elem_of_plain_cells].
  unfold covers in Hcov. cbn in Hcov. replace r' with r in * by lia. replace c' with c in * by lia. congruence.
Qed.

Lemma rectangular_eq rows cols (g g' : list TableRow) :
  rectangular rows cols g → rectangular rows cols g' →
  (∀ r c, (r < rows)%nat → (c < cols)%nat → grid_at g r c = grid_at g' r c) → g = g'.
Proof.
  intros [Hg Hrows] [Hg' Hrows'] Hat. apply list_eq_same_length with rows; [done|done|].
  intros r row row' Hr Hrow Hrow'. rewrite Forall_lookup in Hrows, Hrows'.
  apply list_eq_same_length with cols; [by eapply Hrows'|by eapply Hrows|].
  intros c x x' Hc Hx Hx'. specialize (Hat r c Hr Hc). unfold grid_at in Hat. rewrite Hrow, Hrow' in Hat.
  cbn in Hat. congruence.
Qed.
Lemma plain_grid_rectangular rows n :
  Forall (λ row, length row = n) rows → rectangular (length rows) n (plain_grid rows).
Proof.
  intros Hlen. unfold plain_grid. split; [apply length_imap|]. apply Forall_lookup. intros r row.
  rewrite list_lookup_imap. rewrite Forall_lookup in Hlen.
  destruct (rows !! r) as [texts|] eqn:Hr; [|done]. intros [= <-]. rewrite length_imap. by eapply Hlen.
Qed.

Section GridCost.
Context `{ProtobufSize}.
(** What a grid of [cells] costs, a copy for each position a span covers, and
    when it is too much. *)
Definition total_cost (cost : TableCell → Z) (cells : list TableCell) : Z := foldr (λ cell, Z.add (cost cell)) 0 cells.
Lemma total_cost_nonneg cost cells : Forall (λ cell, 0 <= cost cell) cells → 0 <= total_cost cost cells.
Proof. unfold total_cost. induction 1; cbn; lia. Qed.
Lemma grid_too_big_total num_rows num_cols cells acc :
  Forall (λ cell, 0 <= cell_cost num_rows num_cols cell) cells → acc <= kMaxGridBytes →
  grid_too_big num_rows num_cols cells acc =
    (kMaxGridBytes <? acc + total_cost (cell_cost num_rows num_cols) cells).
Proof.
  intros Hcost. revert acc. induction Hcost as [|cell cells Hc Hcells IH]; intros acc Hacc; cbn.
  - destruct (Z.ltb_spec kMaxGridBytes (acc + 0)); [lia|done].
  - pose proof (total_cost_nonneg _ _ Hcells) as Hn. unfold total_cost in *.
    destruct (Z.ltb_spec kMaxGridBytes (acc + cell_cost num_rows num_cols cell)).
    + symmetry. apply Z.ltb_lt. lia.
    + rewrite IH by lia. by rewrite Z.add_assoc.
Qed.
End GridCost.

Lemma filler_run_cells filler row :
  filler (lit "fcel") = false → filler_run filler (cell_token <$> row) = 0%nat.
Proof. intros H. destruct row; [done|]. cbn [fmap list_fmap filler_run tok_tag cell_token]. by rewrite H. Qed.

Lemma column_cells c (rows : list (list bytes)) :
  ∃ col, column c (cell_rows rows) = cell_token <$> col.
Proof.
  induction rows as [|row rows [col IH]]; [by exists []|].
  unfold cell_rows. cbn [fmap list_fmap column]. change (list_fmap _ _ ?f ?l) with (f <$> l).
  rewrite list_lookup_fmap. destruct (row !! c) as [text|]; cbn.
  - exists (text :: col). cbn. f_equal. apply IH.
  - by exists [].
Qed.

Lemma mjoin_imap_singleton {A B} (f : nat → A → B) l :
  mjoin (imap (λ i x, [f i x]) l) = imap f l.
Proof.
  revert f. induction l as [|x l IH]; intros f; [done|]. cbn. f_equal. apply (IH (f ∘ S)).
Qed.

Lemma anchor_cells_table (rows : list (list bytes)) :
  anchor_cells (cell_rows rows) = plain_cells rows.
Proof.
  unfold anchor_cells, plain_cells, cell_rows. f_equal. rewrite imap_fmap. apply imap_ext.
  intros r row _. cbn. etrans; [|apply mjoin_imap_singleton]. f_equal. rewrite imap_fmap.
  apply imap_ext. intros c text _. cbn -[is_anchor anchor_cell]. f_equal.
  unfold anchor_cell. rewrite <- (fmap_drop cell_token (S c) row), filler_run_cells by done.
  destruct (column_cells c (drop (S r) rows)) as [col Hcol].
  rewrite <- fmap_drop. unfold cell_rows in Hcol. by rewrite Hcol, filler_run_cells by done.
Qed.

Lemma max_row_table (rows : list (list bytes)) n :
  rows ≠ [] → Forall (λ row, length row = n) rows → max_row (cell_rows rows) = n.
Proof.
  intros Hne Hrows. unfold cell_rows. apply Nat.le_antisymm.
  - apply max_row_le, Forall_fmap. eapply Forall_impl; [done|]. cbn. intros row <-.
    by rewrite length_fmap.
  - destruct rows as [|row rows]; [done|]. apply Forall_cons in Hrows as [<- _].
    rewrite <- (length_fmap cell_token row). apply max_row_ge. by left.
Qed.

Lemma kept_table_shape_id rows cols :
  0 <= rows <= kMaxTableRows → 0 < cols <= kMaxTableCols → rows * cols <= kMaxTableCells →
  kept_table_shape rows cols = (rows, cols).
Proof.
  unfold kept_table_shape, kMaxTableRows, kMaxTableCols, kMaxTableCells. intros ? ? ?.
  rewrite (Z.min_l cols 250), (Z.min_l rows 2000) by lia.
  destruct (Z.ltb_spec 0 cols); [|lia]. f_equal. apply Z.min_l, Z.div_le_lower_bound; lia.
Qed.

Lemma scan_print_table rows n :
  (0 < n)%nat → rows ≠ [] → Forall (λ row, length row = n) rows → Forall (Forall plain_text) rows →
  at_row (scan_rows (print_table rows)) (length rows) 0 (length rows) n (table_visits rows).
Proof.
  intros Hn Hne Hlen Hplain. unfold print_table. rewrite scan_print.
  - pose proof (advance_table rows n scan_init 0 0 [] Hn Hlen ltac:(done) ltac:(by left)) as H.
    by destruct rows.
  - clear -Hplain. induction Hplain as [|row rows Hrow _ IH]; [constructor|].
    cbn [fmap list_fmap]. change (mjoin (?x :: ?xs)) with (x ++ mjoin xs).
    apply Forall_app. split; [|done]. unfold row_tokens. apply Forall_app. split.
    + apply Forall_fmap. eapply Forall_impl; [done|]. intros text [Hlt Htrim].
      split_and!; [done|by apply not_contains|done|done].
    + repeat constructor; by apply not_contains.
Qed.

Lemma advance_no_cells s tokens :
  (∀ token, token ∈ tokens → is_cell_token (tok_tag token) = false) →
  sc_rows (foldl advance_print s tokens) = sc_rows s.
Proof.
  revert s. induction tokens as [|token tokens IH]; intros s Hno; [done|]. cbn [foldl].
  rewrite IH by (intros; apply Hno; by right).
  unfold advance_print, advance. case_bool_decide; [by case_bool_decide|].
  by rewrite Hno by (by left).
Qed.

Lemma advance_rows_mono s tokens : (sc_rows s ≤ sc_rows (foldl advance_print s tokens))%nat.
Proof.
  revert s. induction tokens as [|token tokens IH]; intros s; [done|]. cbn [foldl].
  etrans; [|apply IH]. unfold advance_print, advance. repeat case_match; cbn; lia.
Qed.

Lemma advance_some_cell s tokens token :
  token ∈ tokens → is_cell_token (tok_tag token) = true →
  (0 < sc_rows (foldl advance_print s tokens))%nat.
Proof.
  intros Hin Hcell. revert s. induction Hin as [token tokens|token t tokens _ IH]; intros s; cbn [foldl].
  - eapply Nat.lt_le_trans; [|apply advance_rows_mono]. unfold advance_print, advance.
    case_bool_decide as Hnl; [by rewrite Hnl in Hcell|].
    rewrite Hcell. cbn [negb]. case_match; cbn; lia.
  - by apply IH.
Qed.

Section RoundTrip.
Context `{ProtobufSize}.

Lemma plain_too_big rows n :
  (∀ cell, 0 <= ByteSizeLong cell) → Forall (λ row, length row = n) rows →
  grid_too_big (Z.of_nat (length rows)) (Z.of_nat n) (plain_cells rows) 0 =
    (kMaxGridBytes <? total_cost ByteSizeLong (plain_cells rows)).
Proof.
  intros Hsize Hlen.
  assert (Hcost : Forall (λ cell, cell_cost (Z.of_nat (length rows)) (Z.of_nat n) cell = ByteSizeLong cell) (plain_cells rows)).
  { pose proof (plain_cells_inside rows n Hlen) as Hin. rewrite Forall_forall in Hin |- *.
    intros cell Hcell. specialize (Hin cell Hcell). apply elem_of_plain_cells in Hcell as (r & c & text & _ & ->).
    unfold inside in Hin. unfold cell_cost. cbn in *. rewrite !Z.min_l by lia. nia. }
  rewrite grid_too_big_total; [|eapply Forall_impl; [exact Hcost|]; by intros cell ->|done].
  f_equal. rewrite Z.add_0_l. unfold total_cost. clear -Hcost.
  induction Hcost as [|cell cells Hc _ IH]; [done|]. cbn. by rewrite Hc, IH.
Qed.
Lemma plain_stamped rows n :
  Forall (λ row, length row = n) rows →
  foldl (stamp_cell (Z.of_nat (length rows)) (Z.of_nat n)) (empty_grid (length rows) n) (plain_cells rows) =
    plain_grid rows.
Proof.
  intros Hlen. apply (rectangular_eq (length rows) n).
  - apply foldl_rectangular; [intros; by apply stamp_cell_rectangular|apply empty_grid_rectangular].
  - by apply plain_grid_rectangular.
  - intros r c Hr Hc. rewrite stamp_cells_at; [|by apply plain_cells_inside|by rewrite empty_grid_at].
    destruct (lookup_lt_is_Some_2 rows r Hr) as [row Hrow].
    assert (length row = n) as Hn by (rewrite Forall_lookup in Hlen; by eapply Hlen).
    destruct (lookup_lt_is_Some_2 row c ltac:(lia)) as [text Htext].
    assert (Ht : rows !! r ≫= (.!! c) = Some text) by (by rewrite Hrow).
    by rewrite (plain_cells_covering rows r c text Ht), plain_grid_at, Ht.
Qed.

(** C30: Printing a rectangular table of plain cells as OTSL and parsing it back
    gives the table, for any table within the caps (at most 2000 rows, 250
    columns and 50000 cells): one 1x1 cell per text, in row order, at the text's
    own row and column, nothing cut; and a grid that holds, row by row, exactly
    those cells, left out just when their sizes add up to more than 32 MiB. *)
Theorem otsl_roundtrip (rows : list (list bytes)) (n : nat) :
  (∀ cell, 0 <= ByteSizeLong cell) →
  (0 < n)%nat → rows ≠ [] → Forall (λ row, length row = n) rows →
  Forall (Forall plain_text) rows →
  Z.of_nat (length rows) <= kMaxTableRows → Z.of_nat n <= kMaxTableCols →
  Z.of_nat (length rows) * Z.of_nat n <= kMaxTableCells →
  let omitted := kMaxGridBytes <? total_cost ByteSizeLong (plain_cells rows) in
  parse_otsl_grid (print_table rows) =
    (true,
     mk_TableData (plain_cells rows) (Z.of_nat (length rows)) (Z.of_nat n)
       (if omitted then [] else plain_grid rows),
     mk_TableCut (Z.of_nat (length rows)) (Z.of_nat n) false omitted).
Proof.
  intros Hsize Hn Hne Hlen Hplain Hr Hc Hrc omitted.
  destruct (scan_print_table rows n Hn Hne Hlen Hplain) as (_ & _ & Erows & Ecols & Evis).
  unfold parse_otsl_grid. rewrite Erows, Ecols, Evis.
  rewrite bool_decide_false by (destruct rows; [done|cbn; lia]).
  rewrite kept_table_shape_id by lia. rewrite !Z.ltb_irrefl, !Nat2Z.id. cbn [orb].
  rewrite keep_rows_table, anchor_cells_table, (max_row_table rows n) by done.
  unfold cell_rows. rewrite length_fmap.
  pose proof (plain_cells_inside rows n Hlen) as Hin.
  rewrite (plain_too_big rows n) by done. fold omitted. destruct omitted; [done|].
  rewrite (plain_stamped rows n) by done. done.
Qed.

(** The OTSL mapper accepts a token stream exactly when it holds a cell
    token; row breaks, unknown tags and free text alone are an error. *)
Theorem otsl_accepts_cells tokens :
  Forall plain_token tokens →
  (parse_otsl_grid (print_tokens tokens)).1.1 = existsb (is_cell_token ∘ tok_tag) tokens.
Proof.
  intros Hplain. unfold parse_otsl_grid. rewrite scan_print by done.
  destruct (existsb _ tokens) eqn:E.
  - apply existsb_exists in E as (token & Hin%list_elem_of_In & Hcell).
    pose proof (advance_some_cell scan_init tokens token Hin Hcell).
    rewrite bool_decide_false by lia. by repeat case_match.
  - rewrite bool_decide_true; [done|]. rewrite advance_no_cells; [done|].
    intros token Hin. destruct (is_cell_token (tok_tag token)) eqn:Ht; [|done].
    rewrite <- E. symmetry. apply existsb_exists. exists token. by rewrite <- list_elem_of_In.
Qed.
End RoundTrip.

(** * Concrete instances *)

Definition toy_size : ProtobufSize := {| ByteSizeLong cell := 20 + Z.of_nat (length (tc_text cell)) |}.
(** A spanned header, a filler above a filler, a ragged row. *)
Definition toy_otsl : bytes :=
  lit "<otsl><ched>H<lcel><nl><fcel>a<ecel><nl><ucel><fcel>b<fcel>c<nl></otsl>".
Definition toy_rows : list (list bytes) := [[lit "a"; lit "b"]; [lit "x y"; []]].

Lemma otsl_grid_covering_witness :
  ∃ data cut, @parse_otsl_grid toy_size toy_otsl = (true, data, cut) ∧
    td_num_rows data <= kMaxTableRows ∧ td_num_cols data = 3 ∧
    grid_at (td_grid data) 2 0 = grid_at (td_grid data) 1 0.
Proof.
  eexists _, _. split; [vm_compute; reflexivity|]. split_and!; [|reflexivity|reflexivity].
  by pose proof (@otsl_grid_covering toy_size toy_otsl _ _ ltac:(vm_compute; reflexivity))
    as (_ & _ & Hrows & _).
Defined.

Lemma otsl_roundtrip_witness :
  @parse_otsl_grid toy_size (print_table toy_rows) =
    (true, mk_TableData (plain_cells toy_rows) 2 2 (plain_grid toy_rows), mk_TableCut 2 2 false false).
Proof.
  etrans; [apply (@otsl_roundtrip toy_size toy_rows 2);
    [cbn; lia|lia|done|by repeat constructor| |done|done|done]|vm_compute; reflexivity].
  repeat constructor; by apply not_contains.
Defined.

Lemma otsl_accepts_cells_witness :
  (@parse_otsl_grid toy_size (print_tokens [mk_OtslToken (lit "nl") []; cell_token (lit "a")])).1.1
  = true.
Proof.
  rewrite (@otsl_accepts_cells toy_size); [reflexivity|].
  repeat constructor; by apply not_contains.
Defined.
