(* ===== verification/Html.v ===== *)
(** The HTML format mapper (src/mapping/html.cpp): the element scanner with its
    cached searches, the tag stripper, the table reader and [map_html]. *)
From S2P Require Import Prelude Numbers Double Proto ImageCrop Builder OtslGrid.

Definition lower (c : ascii) : ascii := tolower c.
Definition is_space (c : ascii) : bool :=
  (c =c " "%char) || (c =c c_tab) || (c =c c_nl) || (c =c c_vt) || (c =c c_ff) || (c =c c_cr).

(** [s] starts with [name] (lowercase), ignoring case. *)
Fixpoint starts_ci (name s : bytes) : bool :=
  match name, s with
  | [], _ => true
  | _ :: _, [] => false
  | n :: name', c :: s' => (lower c =c n) && starts_ci name' s'
  end.
Definition at_ci (text : bytes) (pos : nat) (name : bytes) : bool :=
  bool_decide (pos ≤ length text)%nat && starts_ci name (drop pos text).
Definition find_ci (text needle : bytes) (from : nat) : option nat :=
  find_if (starts_ci needle) text from.

(** * The element scanner *)

Record Found := mk_Found { fd_name : bytes; fd_content : bytes }.

(** A search result that later searches from further on can reuse. *)
Record Cached := mk_Cached {
  ca_tag : bytes; ca_searched : bool; ca_from : nat; ca_at : option nat }.
Definition Cached_default : Cached := mk_Cached [] false 0 None.

Record ElementScanner := mk_ElementScanner {
  es_text : bytes; es_names : list bytes; es_close : list Cached; es_gt : Cached; es_pos : nat }.
Definition set_es_pos (pos : nat) (s : ElementScanner) : ElementScanner :=
  mk_ElementScanner (es_text s) (es_names s) (es_close s) (es_gt s) pos.
Definition set_es_gt (gt : Cached) (s : ElementScanner) : ElementScanner :=
  mk_ElementScanner (es_text s) (es_names s) (es_close s) gt (es_pos s).
Definition set_es_close (close : list Cached) (s : ElementScanner) : ElementScanner :=
  mk_ElementScanner (es_text s) (es_names s) close (es_gt s) (es_pos s).

Definition close_tag (name : bytes) : bytes := lit "</" ++ name ++ lit ">".
Definition ElementScanner_new (text : bytes) (names : list bytes) : ElementScanner :=
  mk_ElementScanner text names ((λ name, mk_Cached (close_tag name) false 0 None) <$> names)
    Cached_default 0.

(** The test under which a cached result is searched again. *)
Definition stale (c : Cached) (from : nat) : bool :=
  negb (ca_searched c) ||
  match ca_at c with
  | None => bool_decide (from < ca_from c)%nat
  | Some at_ => bool_decide (at_ < from)%nat
  end.
Definition next_gt (from : nat) (s : ElementScanner) : option nat * ElementScanner :=
  if stale (es_gt s) from then
    let at_ := find_char ">"%char (es_text s) from in
    (at_, set_es_gt (mk_Cached (ca_tag (es_gt s)) true from at_) s)
  else (ca_at (es_gt s), s).
Definition next_close (name from : nat) (s : ElementScanner) : option nat * ElementScanner :=
  match es_close s !! name with
  | None => (None, s)
  | Some cached =>
      if stale cached from then
        let at_ := find_ci (es_text s) (ca_tag cached) from in
        (at_, set_es_close (<[name := mk_Cached (ca_tag cached) true from at_]> (es_close s)) s)
      else (ca_at cached, s)
  end.

(** A listed name right after '<', ending right there. *)
Definition opens_name (text : bytes) (open : nat) (name : bytes) : bool :=
  let name_end := (open + 1 + length name)%nat in
  at_ci text (open + 1) name && bool_decide (name_end < length text)%nat &&
  char_at text name_end (λ c, is_space c || (c =c ">"%char) || (c =c "/"%char)).

(** The [for] loop over the names, from index [i]: [inr] returns from
    [next], [inl] goes on with the next '<'. *)
Fixpoint try_names (names : list bytes) (i open : nat) (s : ElementScanner)
  : ElementScanner + (option Found * ElementScanner) :=
  match names with
  | [] => inl s
  | name :: names' =>
      if negb (opens_name (es_text s) open name) then try_names names' (S i) open s else
      let '(gt, s) := next_gt (open + 1 + length name) s in
      match gt with
      | None => inr (None, set_es_pos (length (es_text s)) s)
      | Some gt =>
          let '(close, s) := next_close i (gt + 1) s in
          match close with
          | None => inl s
          | Some close =>
              inr (Some (mk_Found name (substr (es_text s) (gt + 1) (close - gt - 1))),
                   set_es_pos (close + length (close_tag name)) s)
          end
      end
  end.
Definition next_step (s : ElementScanner) : ElementScanner + (option Found * ElementScanner) :=
  if negb (bool_decide (es_pos s < length (es_text s))%nat) then inr (None, s) else
  match find_char "<"%char (es_text s) (es_pos s) with
  | None => inr (None, s)
  | Some open => try_names (es_names s) 0 open (set_es_pos (open + 1) s)
  end.
Definition next (s : ElementScanner) : option Found * ElementScanner :=
  run_loop (None, s) (S (length (es_text s))) next_step s.

Arguments next : simpl never.

(** [while (found = scanner.next())]: every element in order. *)
Definition elements_step (st : ElementScanner * list Found)
  : ElementScanner * list Found + list Found :=
  let '(s, acc) := st in
  match next s with
  | (None, _) => inr acc
  | (Some found, s) => inl (s, acc ++ [found])
  end.
Definition elements (text : bytes) (names : list bytes) : list Found :=
  run_loop [] (S (length text)) elements_step (ElementScanner_new text names, []).

Arguments elements : simpl never.

(** * Stripping tags *)

(** "<br", white space, an optional '/', '>': the position after it. *)
Definition br_end (html : bytes) (at_ : nat) : option nat :=
  let i := (at_ + 3 + span is_space (drop (at_ + 3) html))%nat in
  let i := if char_at html i (Ascii.eqb "/"%char) then S i else i in
  if char_at html i (Ascii.eqb ">"%char) then Some (S i) else None.
Definition space_br_step (html : bytes) (st : nat * bytes) : nat * bytes + bytes :=
  let '(pos, spaced) := st in
  match find (lit "<br") html pos with
  | None => inr (spaced ++ substr_from html pos)
  | Some at_ =>
      match br_end html at_ with
      | Some i => inl (i, spaced ++ substr html pos (at_ - pos) ++ lit " ")
      | None => inl ((at_ + 1)%nat, spaced ++ substr html pos (at_ + 1 - pos))
      end
  end.
Definition space_br (html : bytes) : bytes :=
  run_loop [] (S (length html)) (space_br_step html) (0%nat, []).

Definition drop_tags_step (spaced : bytes) (st : nat * bytes) : nat * bytes + bytes :=
  let '(pos, text) := st in
  match find_char "<"%char spaced pos with
  | None => inr (text ++ substr_from spaced pos)
  | Some open =>
      match find_char ">"%char spaced (open + 1) with
      | None => inr (text ++ substr_from spaced pos)
      | Some close => inl ((close + 1)%nat, text ++ substr spaced pos (open - pos))
      end
  end.
Definition drop_tags (spaced : bytes) : bytes :=
  run_loop [] (S (length spaced)) (drop_tags_step spaced) (0%nat, []).

Definition kEntities : list (bytes * bytes) :=
  [(lit "&amp;", lit "&"); (lit "&lt;", lit "<"); (lit "&gt;", lit ">");
   (lit "&quot;", [c_quote]); (lit "&#39;", lit "'"); (lit "&nbsp;", lit " ")].

(** [text.replace(pos, needle.size(), replacement)], the scan resuming one
    byte further. *)
Definition replace_step (needle replacement : bytes) (st : nat * bytes) : nat * bytes + bytes :=
  let '(pos, text) := st in
  match find needle text pos with
  | None => inr text
  | Some at_ =>
      inl ((at_ + 1)%nat, take at_ text ++ replacement ++ drop (at_ + length needle) text)
  end.
Definition replace_all (needle replacement text : bytes) : bytes :=
  run_loop [] (S (length text)) (replace_step needle replacement) (0%nat, text).
Definition decode_entities (text : bytes) : bytes :=
  foldl (λ text '(entity, replacement), replace_all entity replacement text) text kEntities.

Fixpoint collapse (in_space : bool) (text : bytes) : bytes :=
  match text with
  | [] => []
  | c :: text' =>
      if is_space c then (if in_space then [] else lit " ") ++ collapse true text'
      else c :: collapse false text'
  end.

Definition strip_tags (html : bytes) : bytes :=
  trim (collapse false (decode_entities (drop_tags (space_br html)))).

Arguments strip_tags : simpl never.

(** * Tables and the mapper *)

Definition cells_of (row_html : bytes) : list bytes * bool :=
  let found := elements row_html [lit "th"; lit "td"] in
  let cells := (λ cell, strip_tags (fd_content cell)) <$> found in
  (cells, negb (bool_decide (cells = [])) && forallb (λ cell, fd_name cell =b lit "th") found).

(** The rows with their header flags. *)
Definition table_rows (table_html : bytes) : list (list bytes * bool) :=
  let rows := filter (λ row, row.1 ≠ [])
                ((λ row, cells_of (fd_content row)) <$> elements table_html [lit "tr"]) in
  if bool_decide (rows = []) then filter (λ row, row.1 ≠ []) [cells_of table_html] else rows.
Fixpoint leading (flags : list bool) : nat :=
  match flags with
  | true :: flags' => S (leading flags')
  | _ => 0
  end.
Definition parse_table_rows (table_html : bytes) : list (list bytes) * nat :=
  let rows := table_rows table_html in (rows.*1, leading rows.*2).

Arguments parse_table_rows : simpl never.

Definition kBlockNames : list bytes :=
  [lit "h1"; lit "h2"; lit "h3"; lit "h4"; lit "h5"; lit "h6"; lit "p"; lit "li"; lit "pre";
   lit "code"; lit "table"].

(** One block of the page: nothing for an empty one that is not a table. *)
Definition map_html_block (page : PageContext) (st : Document * Warnings * nat) (block : Found)
  : Document * Warnings * nat :=
  let '(out, warnings, items) := st in
  let tag := fd_name block in
  let body := strip_tags (fd_content block) in
  if (body =b []) && negb (tag =b lit "table") then (out, warnings, items) else
  if head_is (Ascii.eqb "h"%char) tag then
    let level := match tag !! 1%nat with Some c => code c - 48 | None => 0 end in
    (add_section_header page level (page_prov page) body out, warnings, S items)
  else if tag =b lit "li" then
    (add_list_item page (page_prov page) body false [] out, warnings, S items)
  else if (tag =b lit "pre") || (tag =b lit "code") then
    (add_code page (page_prov page) body [] out, warnings, S items)
  else if tag =b lit "table" then
    let out := add_table page (page_prov page) out in
    let '(rows, header_rows) := parse_table_rows (fd_content block) in
    let rows := if bool_decide (rows = []) && negb (body =b []) then rows ++ [[body]] else rows in
    let '(data, cut) := fill_table_data rows header_rows in
    let out := alter_table (set_ti_data (Some data)) (tables_size out - 1) out in
    (out, note_table_cut cut data (lit "table") (body_child_ref TABLE (tables_size out - 1)) warnings,
     S items)
  else (add_text page DOC_ITEM_LABEL_PARAGRAPH (page_prov page) body out, warnings, S items).

Definition map_html (text : bytes) (page : PageContext) (out : Document) (warnings : Warnings)
  : MapResult :=
  let '(out, warnings, items) :=
    foldl (map_html_block page) (out, warnings, 0%nat) (elements text kBlockNames) in
  if bool_decide (items = 0%nat) then
    MapFailed (lit "HTML response held no block-level elements")
  else Mapped (finalize_document_default page out) warnings.

(** * The scanner without its cache *)

(** What [next] returns with every search started afresh: the reference the
    cached scanner is compared with. *)
Fixpoint find_name (names : list bytes) (text : bytes) (open : nat) : option bytes :=
  match names with
  | [] => None
  | name :: names' => if opens_name text open name then Some name else find_name names' text open
  end.
Definition plain_step (text : bytes) (names : list bytes) (pos : nat)
  : nat + option (Found * nat) :=
  match find_char "<"%char text pos with
  | None => inr None
  | Some open =>
      match find_name names text open with
      | None => inl (open + 1)%nat
      | Some name =>
          match find_char ">"%char text (open + 1 + length name) with
          | None => inr None
          | Some gt =>
              match find_ci text (close_tag name) (gt + 1) with
              | None => inl (open + 1)%nat
              | Some close =>
                  inr (Some (mk_Found name (substr text (gt + 1) (close - gt - 1)),
                             (close + length (close_tag name))%nat))
              end
          end
      end
  end.
Definition plain_next (text : bytes) (names : list bytes) (pos : nat) : option (Found * nat) :=
  run_loop None (S (length text)) (plain_step text names) pos.
Arguments plain_next : simpl never.
Definition plain_elements_step (text : bytes) (names : list bytes) (st : nat * list Found)
  : nat * list Found + list Found :=
  match plain_next text names st.1 with
  | None => inr st.2
  | Some (found, pos) => inl (pos, st.2 ++ [found])
  end.
Definition plain_elements (text : bytes) (names : list bytes) : list Found :=
  run_loop [] (S (length text)) (plain_elements_step text names) (0%nat, []).

Lemma starts_ci_length name s : starts_ci name s = true → (length name ≤ length s)%nat.
Proof.
  revert s. induction name as [|n name IH]; intros [|c s]; cbn; try done; [lia|].
  intros [_ H]%andb_prop. apply IH in H. lia.
Qed.

Lemma starts_ci_lookup name s i n :
  starts_ci name s = true → name !! i = Some n → ∃ c, s !! i = Some c ∧ lower c = n.
Proof.
  revert s i. induction name as [|m name IH]; intros [|c s] [|i]; cbn; try done.
  - intros [E%Ascii.eqb_eq _]%andb_prop [= <-]. eauto.
  - intros [_ H]%andb_prop ?. by eapply IH.
Qed.

Lemma find_ci_end text needle from j :
  find_ci text needle from = Some j → (from ≤ j)%nat ∧ (j + length needle ≤ length text)%nat.
Proof.
  intros H. apply find_if_Some in H as (? & Ht & _). apply starts_ci_length in Ht.
  rewrite length_drop in Ht. lia.
Qed.

(** No byte of a name is '<', so none of the bytes it matched is. *)
Lemma opens_name_spec text open name k :
  opens_name text open name = true → ("<"%char ∉ name) →
  (open + 1 + length name < length text)%nat ∧
  ((open < k < open + 1 + length name)%nat → text !! k ≠ Some "<"%char).
Proof.
  unfold opens_name, at_ci. rewrite !andb_true_iff, !bool_decide_eq_true.
  intros [[[_ Hci] Hlen] _] Hname. split; [done|]. intros Hk Hc.
  destruct (lookup_lt_is_Some_2 name (k - (open + 1))) as [n Hn]; [lia|].
  destruct (starts_ci_lookup _ _ _ _ Hci Hn) as (c & Hc' & Hl).
  rewrite lookup_drop in Hc'. replace (open + 1 + (k - (open + 1)))%nat with k in Hc' by lia.
  rewrite Hc in Hc'. injection Hc' as <-. apply Hname. rewrite <- Hl in Hn. change (lower "<"%char) with "<"%char in Hn.
  by eapply list_elem_of_lookup_2.
Qed.

(** What the caches hold: the results of the searches they name, none of which
    starts past the part of the text still ahead. *)
Record cache_inv (s : ElementScanner) : Prop := {
  ci_gt : ca_searched (es_gt s) = true →
    ca_at (es_gt s) = find_char ">"%char (es_text s) (ca_from (es_gt s));
  ci_ahead : ∀ k, ca_searched (es_gt s) = true → (es_pos s ≤ k < ca_from (es_gt s))%nat →
    es_text s !! k ≠ Some "<"%char;
  ci_tags : ca_tag <$> es_close s = close_tag <$> es_names s;
  ci_close : ∀ i c, es_close s !! i = Some c → ca_searched c = true →
    ca_at c = find_ci (es_text s) (ca_tag c) (ca_from c) ∧ ca_searched (es_gt s) = true ∧
    ∀ gt, find_char ">"%char (es_text s) (ca_from (es_gt s)) = Some gt → (ca_from c ≤ gt + 1)%nat }.

(** A cached result that is not stale is the search from further on. *)
Lemma cached_search test text (c : Cached) from :
  ca_at c = find_if test text (ca_from c) → (ca_from c ≤ from)%nat → stale c from = false →
  ca_at c = find_if test text from.
Proof.
  unfold stale. intros Hat Hle [_ Hs]%orb_false_elim.
  destruct (ca_at c) as [j|] eqn:E; symmetry.
  - apply bool_decide_eq_false in Hs. eapply find_if_later; [by symmetry|lia].
  - by eapply find_if_later_None.
Qed.

Lemma find_if_mono test s from from' j j' :
  find_if test s from = Some j → find_if test s from' = Some j' → (from ≤ from')%nat → (j ≤ j')%nat.
Proof.
  intros H H' Hle. apply find_if_Some in H as (? & _ & Hlt). apply find_if_Some in H' as (? & Ht & _).
  destruct (decide (j ≤ j')%nat); [done|]. rewrite Hlt in Ht by lia. done.
Qed.

Definition same_source (s s' : ElementScanner) : Prop :=
  es_text s' = es_text s ∧ es_names s' = es_names s.

Lemma cache_inv_pos s pos : cache_inv s → (es_pos s ≤ pos)%nat → cache_inv (set_es_pos pos s).
Proof. intros [] ?. split; cbn; try done. intros k Hs ?. apply ci_ahead0; [done|lia]. Qed.

Lemma next_gt_spec s from r s' :
  cache_inv s → (ca_searched (es_gt s) = true → ca_from (es_gt s) ≤ from)%nat →
  (∀ k, (es_pos s ≤ k < from)%nat → es_text s !! k ≠ Some "<"%char) →
  next_gt from s = (r, s') →
  r = find_char ">"%char (es_text s) from ∧ cache_inv s' ∧ same_source s s' ∧
  es_pos s' = es_pos s ∧ ca_searched (es_gt s') = true ∧ ca_at (es_gt s') = r.
Proof.
  intros Hinv Hfrom Hahead. unfold next_gt. destruct (stale (es_gt s) from) eqn:Hs; intros [= <- <-].
  - split_and!; try done. destruct Hinv. split; cbn; try done.
    { intros k _ ?. by apply Hahead. }
    intros i c Hc Hsc. destruct (ci_close0 i c Hc Hsc) as (Hat & Hgt & Hle). split_and!; try done.
    intros gt Hfind. destruct (find_char ">"%char (es_text s) (ca_from (es_gt s))) as [gt0|] eqn:E.
    + pose proof (find_if_mono _ _ _ _ _ _ E Hfind (Hfrom Hgt)). specialize (Hle _ eq_refl). lia.
    + pose proof (find_if_later_None _ _ _ from E (Hfrom Hgt)) as E'.
      change (find_char ">"%char (es_text s) from = None) in E'.
      change (find_char ">"%char (es_text s) from = Some gt) in Hfind. congruence.
  - assert (Hsc : ca_searched (es_gt s) = true).
    { unfold stale in Hs. by destruct (ca_searched (es_gt s)). }
    split_and!; try done. eapply cached_search; [by apply ci_gt|by apply Hfrom|done].
Qed.

Lemma next_close_spec s i gt name r s' :
  cache_inv s → es_names s !! i = Some name → ca_searched (es_gt s) = true →
  ca_at (es_gt s) = Some gt → next_close i (gt + 1) s = (r, s') →
  r = find_ci (es_text s) (close_tag name) (gt + 1) ∧ cache_inv s' ∧ same_source s s' ∧
  es_pos s' = es_pos s.
Proof.
  intros Hinv Hname Hgt Hat. unfold next_close.
  assert (∃ c, es_close s !! i = Some c ∧ ca_tag c = close_tag name) as (c & Hc & Htag).
  { pose proof (ci_tags _ Hinv) as H. apply (f_equal (lookup i)) in H.
    rewrite !list_lookup_fmap, Hname in H. cbn in H.
    destruct (es_close s !! i) as [c|]; [|done]. injection H. eauto. }
  rewrite Hc. assert (Hfind : find_char ">"%char (es_text s) (ca_from (es_gt s)) = Some gt).
  { by rewrite <- ci_gt. }
  destruct (stale c (gt + 1)) eqn:Hs; intros [= <- <-].
  - split_and!; try done; [by rewrite Htag|]. destruct Hinv. split; cbn; try done.
    { rewrite list_fmap_insert, <- ci_tags0. cbn. apply list_insert_id.
      by rewrite list_lookup_fmap, Hc. }
    intros j c'. destruct (decide (j = i)) as [->|].
    + rewrite list_lookup_insert_eq by (by eapply lookup_lt_Some). intros [= <-] _. cbn.
      split_and!; try done. intros gt' Hgt'. rewrite Hfind in Hgt'. by simplify_eq.
    + rewrite list_lookup_insert_ne by done. apply ci_close0.
  - assert (Hsc : ca_searched c = true).
    { unfold stale in Hs. by destruct (ca_searched c). }
    destruct (ci_close _ Hinv i c Hc Hsc) as (Hca & _ & Hle).
    split_and!; try done. rewrite <- Htag. eapply cached_search; [done|by apply Hle|done].
Qed.

Definition names_ok (names : list bytes) : Prop := Forall (λ name, "<"%char ∉ name) names.

(** What a step of the cached scanner says to a step of the plain one. *)
Definition step_agrees (s0 : ElementScanner) (r : ElementScanner + (option Found * ElementScanner))
    (p : nat + option (Found * nat)) : Prop :=
  match r, p with
  | inl s', inl pos => cache_inv s' ∧ same_source s0 s' ∧ es_pos s' = pos
  | inr (Some found, s'), inr (Some (found', pos)) =>
      found = found' ∧ cache_inv s' ∧ same_source s0 s' ∧ es_pos s' = pos
  | inr (None, _), inr None => True
  | _, _ => False
  end.

(** What the plain scanner does with the '<' at [open] and these names. *)
Definition plain_open (text : bytes) (names : list bytes) (open : nat) : nat + option (Found * nat) :=
  match find_name names text open with
  | None => inl (open + 1)%nat
  | Some name =>
      match find_char ">"%char text (open + 1 + length name) with
      | None => inr None
      | Some gt =>
          match find_ci text (close_tag name) (gt + 1) with
          | None => inl (open + 1)%nat
          | Some close =>
              inr (Some (mk_Found name (substr text (gt + 1) (close - gt - 1)),
                         (close + length (close_tag name))%nat))
          end
      end
  end.

Lemma try_names_spec names i open s :
  cache_inv s → names_ok names → es_pos s = (open + 1)%nat →
  (ca_searched (es_gt s) = true → ca_from (es_gt s) ≤ open)%nat →
  drop i (es_names s) = names →
  step_agrees s (try_names names i open s) (plain_open (es_text s) names open).
Proof.
  unfold plain_open. intros Hinv Hok Hpos Hfrom. revert i Hok.
  induction names as [|name names IH]; intros i Hok Hdrop; cbn [try_names find_name]; [done|].
  apply Forall_cons in Hok as [Hname Hok].
  destruct (opens_name (es_text s) open name) eqn:Hopen; cbn [negb].
  2: { apply IH; [done|]. replace (S i) with (i + 1)%nat by lia. by rewrite <- drop_drop, Hdrop. }
  assert (Hi : es_names s !! i = Some name).
  { rewrite <- (Nat.add_0_r i), <- lookup_drop, Hdrop. done. }
  pose proof (opens_name_spec _ _ _ (0%nat) Hopen Hname) as [Hlt _].
  destruct (next_gt _ s) as [r s1] eqn:E1.
  apply next_gt_spec in E1 as (-> & Hinv1 & [Ht1 Hn1] & Hp1 & Hs1 & Ha1);
    [|done|intros H; specialize (Hfrom H); lia|].
  2: { intros k Hk. eapply opens_name_spec; [done|done|lia]. }
  destruct (find_char ">"%char (es_text s) (open + 1 + length name)) as [gt|] eqn:Hgt; [|done].
  destruct (next_close i (gt + 1) s1) as [r s2] eqn:E2.
  apply (next_close_spec _ _ _ name) in E2 as (-> & Hinv2 & [Ht2 Hn2] & Hp2); [|done|by rewrite Hn1|done|done].
  rewrite Ht1. destruct (find_ci (es_text s) (close_tag name) (gt + 1)) as [close|] eqn:Hclose; cbn.
  - rewrite Ht2, Ht1. split_and!; [done| |split; cbn; congruence|done].
    apply cache_inv_pos; [done|]. rewrite Hp2, Hp1, Hpos.
    apply find_ci_end in Hclose. apply find_char_lt in Hgt. lia.
  - split_and!; [done|split; cbn; congruence|congruence].
Qed.

Lemma next_step_spec s :
  cache_inv s → names_ok (es_names s) →
  step_agrees s (next_step s) (plain_step (es_text s) (es_names s) (es_pos s)).
Proof.
  intros Hinv Hok. unfold next_step, plain_step. case_bool_decide as Hlt; cbn [negb].
  - destruct (find_char "<"%char (es_text s) (es_pos s)) as [open|] eqn:Hopen; [|done].
    apply find_char_Some in Hopen as (Hrange & Hc & _).
    pose proof (try_names_spec (es_names s) 0 open (set_es_pos (open + 1) s)) as H.
    cbn in H. apply H; [|done|done| |done].
    + apply cache_inv_pos; [done|lia].
    + intros Hs. destruct (decide (ca_from (es_gt s) ≤ open)%nat) as [|Hgt]; [done|].
      destruct (ci_ahead _ Hinv open Hs); [lia|done].
  - destruct (find_char "<"%char (es_text s) (es_pos s)) as [open|] eqn:Hopen; [|done].
    apply find_char_lt in Hopen. lia.
Qed.

(** ** Progress *)

Lemma plain_step_progress text names pos :
  match plain_step text names pos with
  | inl pos' | inr (Some (_, pos')) => (pos < pos' ≤ length text)%nat
  | inr None => True
  end.
Proof.
  unfold plain_step. destruct (find_char "<"%char text pos) as [open|] eqn:Hopen; [|done].
  apply find_char_lt in Hopen. destruct (find_name names text open) as [name|]; [|lia].
  destruct (find_char ">"%char text _) as [gt|] eqn:Hgt; [|done]. apply find_char_lt in Hgt.
  destruct (find_ci text (close_tag name) (gt + 1)) as [close|] eqn:Hclose; [|lia].
  apply find_ci_end in Hclose. lia.
Qed.

Lemma plain_next_progress text names pos :
  match plain_next text names pos with
  | Some (_, pos') => (pos < pos' ≤ length text)%nat
  | None => True
  end.
Proof.
  unfold plain_next, run_loop.
  destruct (loop _ _ pos) as [r|] eqn:E; cbn; [|done].
  apply (loop_inv (λ p, pos ≤ p)%nat
    (λ r, match r with Some (_, pos') => pos < pos' ≤ length text | None => True end)%nat) in E;
    [done| |done].
  intros p Hp. pose proof (plain_step_progress text names p).
  destruct (plain_step text names p) as [p'|[[f p']|]]; lia.
Qed.

(** The fuel of one [next] is enough. *)
Lemma plain_next_total text names pos :
  is_Some (loop (S (length text)) (plain_step text names) pos).
Proof.
  apply (loop_total (λ _, True) (λ p, length text - p)%nat); [|done|lia].
  intros p p' _ E. pose proof (plain_step_progress text names p) as H. rewrite E in H.
  split; [done|lia].
Qed.

(** The fuel of the walk over the elements is enough. *)
Lemma plain_elements_total text names :
  is_Some (loop (S (length text)) (plain_elements_step text names) (0%nat, [])).
Proof.
  apply (loop_total (λ _, True) (λ st, length text - st.1)%nat); [|done|cbn; lia].
  intros [p acc] [p' acc'] _ E. split; [done|]. unfold plain_elements_step in E. cbn [fst snd] in *.
  pose proof (plain_next_progress text names p) as H.
  destruct (plain_next text names p) as [[f p1]|]; [|done]. injection E as <- <-. lia.
Qed.

(** The fuel-free reading of one [next]. *)
Lemma next_agrees s :
  cache_inv s → names_ok (es_names s) →
  match next s with
  | (Some found, s') =>
      plain_next (es_text s) (es_names s) (es_pos s) = Some (found, es_pos s') ∧
      cache_inv s' ∧ same_source s s'
  | (None, _) => plain_next (es_text s) (es_names s) (es_pos s) = None
  end.
Proof.
  intros Hinv Hok. unfold next, plain_next.
  apply (run_loop_sim
    (λ s1 pos, cache_inv s1 ∧ same_source s s1 ∧ es_pos s1 = pos)
    (λ r (p : option (Found * nat)), match r with
       | (Some found, s') => p = Some (found, es_pos s') ∧ cache_inv s' ∧ same_source s s'
       | (None, _) => p = None
       end)); [|by split_and!|done].
  intros s1 pos (Hinv1 & [Ht Hn] & Hpos).
  pose proof (next_step_spec s1 Hinv1) as H. rewrite Hn, Ht, Hpos in H. specialize (H Hok).
  unfold same_source in *.
  destruct (next_step s1) as [s'|[[found|] s']], (plain_step _ _ pos) as [pos'|[[found' pos']|]];
    cbn in H; try done; unfold same_source in H.
  - destruct H as (? & [? ?] & ?). split_and!; try done; congruence.
  - destruct H as (-> & ? & [? ?] & ->). split_and!; try done; congruence.
Qed.

Lemma elements_agrees text names :
  names_ok names → elements text names = plain_elements text names.
Proof.
  intros Hok. unfold elements, plain_elements.
  apply (run_loop_sim
    (λ st st', cache_inv st.1 ∧ es_text st.1 = text ∧ es_names st.1 = names ∧
       es_pos st.1 = st'.1 ∧ st.2 = st'.2) (=)); [| |done].
  - intros [s acc] [pos acc'] (Hinv & Ht & Hn & Hp & Hacc). cbn in *.
    unfold plain_elements_step, elements_step. cbn [fst snd].
    pose proof (next_agrees s Hinv) as H. rewrite Hn, Ht, Hp in H. specialize (H Hok).
    destruct (next s) as [[found|] s'].
    + destruct H as (-> & ? & [? ?]). cbn. split_and!; first [done|congruence].
    + rewrite H. cbn. by rewrite Hacc.
  - cbn. split_and!; try done. split; cbn; try done.
    + by rewrite <- list_fmap_compose.
    + intros i c. rewrite list_lookup_fmap. destruct (names !! i); [|done].
      by intros [= <-].
Qed.

(** * The text of a block *)


Lemma is_blank_space c : is_space c = false → is_blank c = false.
Proof. unfold is_space, is_blank. rewrite !orb_false_iff. tauto. Qed.

Lemma collapse_words text word :
  word ≠ [] → Forall (λ c, is_space c = false) word →
  rstrip is_blank (word ++ collapse false text) = join_words (words_from is_space word text).
Proof.
  intros Hne Hword.
  assert (∀ text, (rstrip is_blank (collapse true text) = join_words (words_from is_space [] text)) ∧
    ∀ word, word ≠ [] → Forall (λ c, is_space c = false) word →
      rstrip is_blank (word ++ collapse false text) = join_words (words_from is_space word text))
    as Hall; [|by apply Hall].
  clear. induction text as [|c text [IH1 IH2]]; cbn.
  { split; [done|]. intros word Hne Hword. rewrite app_nil_r, bool_decide_false by done.
    apply rstrip_none. eapply Forall_impl; [done|]. apply is_blank_space. }
  destruct (is_space c) eqn:Hc.
  - split; [done|]. intros word Hne Hword. rewrite (bool_decide_false (word = [])) by done.
    replace (word ++ " "%char :: collapse true text) with ((word ++ lit " ") ++ collapse true text)
      by (by rewrite <- app_assoc).
    rewrite rstrip_app, IH1.
    pose proof (words_from_nonempty is_space [] text) as Hnn.
    case_bool_decide as Hj.
    + apply join_words_nil in Hj; [|done]. rewrite Hj. cbn.
      rewrite rstrip_app. cbn. apply rstrip_none. eapply Forall_impl; [done|]. apply is_blank_space.
    + destruct (words_from is_space [] text) as [|w ws]; [done|]. cbn. by rewrite <- app_assoc.
  - split.
    + apply (IH2 [c]); [done|]. by repeat constructor.
    + intros word Hne Hword. rewrite <- IH2; [by rewrite <- app_assoc|by destruct word|].
      apply Forall_app. split; [done|by repeat constructor].
Qed.

(** The collapse and the trim together leave the words, a space between each. *)
Lemma trim_collapse text : trim (collapse false text) = join_words (words is_space text).
Proof.
  rewrite trim_strip. unfold words. induction text as [|c text IH]; [done|]. cbn.
  destruct (is_space c) eqn:Hc.
  - cbn. rewrite <- IH. clear. f_equal.
    induction text as [|c text IH]; [done|]. cbn. destruct (is_space c) eqn:Hc; cbn; [done|done].
  - rewrite <- collapse_words by (by repeat constructor). cbn.
    by rewrite (is_blank_space c Hc).
Qed.

(** The text of a block is its words, one space between each, whatever the
    white space, line breaks and entities it was written with. *)
Theorem strip_tags_words html :
  strip_tags html = join_words (words is_space (decode_entities (drop_tags (space_br html)))).
Proof. apply trim_collapse. Qed.

(** A page as text and tags in turn. *)
Definition markup (segments : list (bytes * bytes)) (tail : bytes) : bytes :=
  mjoin ((λ seg, seg.1 ++ lit "<" ++ seg.2 ++ lit ">") <$> segments) ++ tail.
Definition plain_segment (seg : bytes * bytes) : Prop :=
  ("<"%char ∉ seg.1) ∧ (">"%char ∉ seg.2).

Lemma drop_tags_loop segments tail pre acc fuel :
  Forall plain_segment segments → ("<"%char ∉ tail) → (length (markup segments tail) < fuel)%nat →
  loop fuel (drop_tags_step (pre ++ markup segments tail)) (length pre, acc) =
  Some (acc ++ mjoin segments.*1 ++ tail).
Proof.
  revert pre acc fuel. induction segments as [|[text tag] segments IH];
    intros pre acc fuel Hsegs Htail Hfuel; (destruct fuel as [|fuel]; [lia|]); cbn [loop].
  - unfold drop_tags_step, markup. cbn [fmap list_fmap]. change (mjoin [] ++ tail) with tail.
    unfold find_char. rewrite (find_if_miss _ _ pre tail) by
      (first [done|intros k Hk; rewrite <- (app_nil_r (drop k tail)); by apply head_is_other]).
    by rewrite (substr_from_cut _ pre tail).
  - apply Forall_cons in Hsegs as [[Htext Htag] Hsegs]. cbn [fst snd] in *.
    set (rest := markup segments tail).
    assert (Hmk : markup ((text, tag) :: segments) tail = text ++ lit "<" ++ tag ++ lit ">" ++ rest).
    { unfold markup. cbn [fmap list_fmap fst snd]. change (mjoin (?x :: ?xs)) with (x ++ mjoin xs).
      subst rest. unfold markup. by rewrite <- !app_assoc. }
    rewrite Hmk in *. unfold drop_tags_step at 1, find_char.
    rewrite (find_if_hit _ _ pre text (lit "<" ++ tag ++ lit ">" ++ rest));
      [|done|done|by intros; apply head_is_other|done|done].
    rewrite (find_if_hit _ _ (pre ++ text ++ lit "<") tag (lit ">" ++ rest));
      [|by rewrite <- !app_assoc|rewrite !length_app; cbn; lia|by intros; apply head_is_other|done|done].
    rewrite (substr_cut _ pre text (lit "<" ++ tag ++ lit ">" ++ rest)); [|done|done|lia].
    replace (pre ++ text ++ lit "<" ++ tag ++ lit ">" ++ rest)
      with ((pre ++ text ++ lit "<" ++ tag ++ lit ">") ++ rest) by (by rewrite <- !app_assoc).
    replace (length (pre ++ text ++ lit "<") + length tag + 1)%nat
      with (length (pre ++ text ++ lit "<" ++ tag ++ lit ">"))
      by (rewrite !length_app; cbn; lia).
    rewrite IH; [|done|done|rewrite !length_app in Hfuel; subst rest; cbn in Hfuel; lia].
    cbn [fmap list_fmap fst]. change (mjoin (?x :: ?xs)) with (x ++ mjoin xs).
    by rewrite <- !app_assoc.
Qed.

(** Every complete tag comes off and nothing else: a page written as texts
    without '<', tags without '>' between them, is stripped to its texts. *)
Theorem drop_tags_texts segments tail :
  Forall plain_segment segments → ("<"%char ∉ tail) →
  drop_tags (markup segments tail) = mjoin segments.*1 ++ tail.
Proof.
  intros Hsegs Htail. unfold drop_tags, run_loop.
  pose proof (drop_tags_loop segments tail [] [] (S (length (markup segments tail))) Hsegs Htail) as H.
  cbn [app length] in H. rewrite H; [done|lia].
Qed.

(** The entity pass decodes "&amp;" first and goes on with what it wrote, so
    an escaped entity is decoded twice: the text the page shows as "&lt;b" is
    read as "<b". *)
Theorem entities_decoded_twice :
  decode_entities (lit "&amp;lt;b") = lit "<b" ∧
  strip_tags (lit "<code>&amp;lt;b</code>") = lit "<b".
Proof. split; vm_compute; reflexivity. Qed.

(** * The fragment of a page *)

#[local] Opaque strip_tags elements parse_table_rows fill_table_data.

Definition body_of (block : Found) : bytes := strip_tags (fd_content block).
Definition is_table (block : Found) : Prop := fd_name block = lit "table".
#[export] Instance is_table_dec block : Decision (is_table block).
Proof. unfold is_table. apply _. Defined.
(** A block that becomes an item. *)
Definition kept_block (block : Found) : Prop := body_of block ≠ [] ∨ is_table block.
#[export] Instance kept_block_dec block : Decision (kept_block block).
Proof. unfold kept_block. apply _. Defined.
(** The data of a table block: its rows, or its text as one cell. *)
Definition block_table (block : Found) : TableData :=
  let '(rows, header_rows) := parse_table_rows (fd_content block) in
  (fill_table_data
    (if bool_decide (rows = []) && negb (body_of block =b []) then rows ++ [[body_of block]] else rows)
    header_rows).1.

Lemma map_html_block_spec page block out warnings items texts tables pictures :
  emitted out texts tables pictures →
  let '(out', warnings', items') := map_html_block page (out, warnings, items) block in
  emitted out'
    (texts ++ if decide (kept_block block ∧ ¬ is_table block) then [body_of block] else [])
    (tables ++ if decide (is_table block) then [Some (block_table block)] else []) pictures ∧
  items' = (items + if decide (kept_block block) then 1 else 0)%nat.
Proof.
  intros Hout. destruct (decide (is_table block)) as [Htag|Htag].
  - rewrite (decide_False (P := _ ∧ _)) by tauto.
    rewrite (decide_True (P := kept_block block)) by (by right). rewrite app_nil_r.
    destruct block as [tag content]. unfold is_table in Htag. cbn in Htag. subst tag.
    unfold map_html_block, block_table, body_of. cbn [fd_name fd_content].
    decide_lits. cbn [negb]. rewrite andb_false_r.
    change (head_is (Ascii.eqb "h"%char) (lit "table")) with false. cbn [orb].
    destruct (parse_table_rows content) as [rows header_rows].
    destruct (fill_table_data _ header_rows) as [data cut]. split; [|lia]. cbn [fst].
    by apply emitted_table.
  - unfold map_html_block. unfold is_table in Htag.
    rewrite !(bool_decide_false (fd_name block = lit "table")) by done.
    cbn [negb]. rewrite andb_true_r, app_nil_r.
    change (strip_tags (fd_content block)) with (body_of block).
    case_bool_decide as Hbody.
    { rewrite !decide_False by (unfold kept_block, is_table; tauto). by rewrite app_nil_r, Nat.add_0_r. }
    rewrite !decide_True by (unfold kept_block, is_table; tauto).
    repeat case_match; simplify_eq; (split; [by eapply emitted_push|lia]).
Qed.

Lemma map_html_blocks_spec page blocks out warnings items texts tables pictures :
  emitted out texts tables pictures →
  let '(out', warnings', items') := foldl (map_html_block page) (out, warnings, items) blocks in
  emitted out'
    (texts ++ (body_of <$> filter (λ b, kept_block b ∧ ¬ is_table b) blocks))
    (tables ++ ((λ b, Some (block_table b)) <$> filter is_table blocks)) pictures ∧
  items' = (items + length (filter kept_block blocks))%nat.
Proof.
  revert out warnings items texts tables.
  induction blocks as [|block blocks IH]; intros out warnings items texts tables Hout; cbn [foldl].
  { cbn. by rewrite !app_nil_r, Nat.add_0_r. }
  pose proof (map_html_block_spec page block out warnings items texts tables pictures Hout) as H.
  destruct (map_html_block page (out, warnings, items) block) as [[out1 warnings1] items1].
  destruct H as [H1 ->]. specialize (IH _ warnings1 (items + if decide (kept_block block) then 1 else 0)%nat _ _ H1).
  destruct (foldl (map_html_block page) _ blocks) as [[out' warnings'] items'].
  destruct IH as [IH ->]. rewrite !filter_cons. rewrite <- !app_assoc in IH.
  repeat case_decide; cbn in *; (split; [done|lia]).
Qed.

Lemma length_kept blocks :
  length (filter kept_block blocks) =
  (length (filter (λ b, kept_block b ∧ ¬ is_table b) blocks) + length (filter is_table blocks))%nat.
Proof.
  induction blocks as [|b blocks IH]; [done|]. rewrite !filter_cons.
  assert (is_table b → kept_block b) by (by right).
  repeat case_decide; cbn [length]; try lia; tauto.
Qed.

(** * Properties *)

Lemma kBlockNames_ok : names_ok kBlockNames.
Proof. repeat constructor; by apply not_contains. Qed.

(** The cached searches change nothing: for tag names without '<' the
    scanner finds exactly the elements a scanner that starts every search
    afresh finds, and the walk over a text of n bytes ends within n + 1
    elements, each found within n + 1 candidates. *)
Theorem element_scanner_cache text names :
  names_ok names →
  elements text names = plain_elements text names ∧
  is_Some (loop (S (length text)) (plain_elements_step text names) (0%nat, [])) ∧
  ∀ pos, is_Some (loop (S (length text)) (plain_step text names) pos).
Proof.
  intros Hok. split_and!; [by apply elements_agrees|apply plain_elements_total|].
  intros. apply plain_next_total.
Qed.

(** Mapping an HTML page loses no block.  It fails exactly when no block
    has text or is a table; otherwise the fragment's texts are the bodies of
    the other blocks in page order, its tables hold the rows of the table
    blocks in page order, and the body lists one child per kept block. *)
Theorem map_html_blocks text page warnings :
  let blocks := elements text kBlockNames in
  match map_html text page Document_empty warnings with
  | MapFailed _ => filter kept_block blocks = []
  | Mapped doc _ =>
      filter kept_block blocks ≠ [] ∧
      item_text <$> doc_texts doc = body_of <$> filter (λ b, kept_block b ∧ ¬ is_table b) blocks ∧
      ti_data <$> doc_tables doc = (λ b, Some (block_table b)) <$> filter is_table blocks ∧
      length (default [] (gi_children <$> doc_body doc)) = length (filter kept_block blocks)
  end.
Proof.
  intros blocks. unfold map_html. fold blocks.
  pose proof (map_html_blocks_spec page blocks Document_empty warnings 0 [] [] [] ltac:(done)) as H.
  destruct (foldl _ _ blocks) as [[out warnings'] items]. destruct H as [Hout ->]. cbn [app plus] in *.
  case_bool_decide as Hitems; [by apply length_zero_iff_nil|].
  pose proof (finalize_same_contents page (default_order out) out) as Hsame.
  fold (finalize_document_default page out) in Hsame.
  destruct Hout as (Htexts & Htables & Hpictures & Hbody). split_and!.
  - by destruct (filter kept_block blocks).
  - by rewrite (same_contents_texts _ _ Hsame).
  - by rewrite (same_contents_tables _ _ Hsame).
  - unfold finalize_document_default. rewrite finalize_children.
    change (default [] (Some ?l)) with l. rewrite length_app, length_map, length_default_order.
    rewrite length_kept. unfold texts_size, pictures_size, tables_size.
    rewrite <- (length_fmap item_text), <- (length_fmap ti_data), Htexts, Htables, Hpictures.
    rewrite !length_fmap, Hbody. cbn. lia.
Qed.

(** * Concrete instances *)

Definition toy_html : bytes :=
  lit "<H1 class=x>Hi</h1><p>a<br/>b <p>c</p><track><table><tr><th>A</th></tr></table>".

Lemma element_scanner_cache_witness :
  elements toy_html kBlockNames = plain_elements toy_html kBlockNames ∧
  length (elements toy_html kBlockNames) = 3%nat.
Proof.
  split; [|vm_compute; reflexivity].
  apply (element_scanner_cache toy_html kBlockNames). repeat constructor; by apply not_contains.
Defined.

Lemma drop_tags_texts_witness :
  drop_tags (lit "Hi <b>there</b>!") = lit "Hi there!".
Proof.
  apply (drop_tags_texts [(lit "Hi ", lit "b"); (lit "there", lit "/b")] (lit "!")).
  - repeat constructor; by apply not_contains.
  - by apply not_contains.
Defined.
