(* ===== verification/Markdown.v ===== *)
(** The Markdown format mapper (src/mapping/markdown.cpp): lines, fenced code,
    ATX headings, pipe tables, list items and paragraphs. *)
From S2P Require Import Prelude Numbers Double Proto ImageCrop Builder OtslGrid.

(** A pipe-table separator row. *)
Definition is_separator_row (line : bytes) : bool :=
  forallb (λ c, (c =c "-"%char) || (c =c "|"%char) || (c =c ":"%char) || (c =c " "%char)
             || (c =c c_tab)) line &&
  existsb (λ c, c =c "-"%char) line.

(** The [for] loop of [split_pipe_row]: the cells closed, the open cell, the
    last boundary. *)
Fixpoint split_cells (row : bytes) (i : nat) (cells : list bytes) (cell : bytes)
    (last_boundary : option nat) : list bytes * bytes * option nat :=
  match row with
  | [] => (cells, cell, last_boundary)
  | c :: row' =>
      let other :=
        if c =c "|"%char then split_cells row' (S i) (cells ++ [trim cell]) [] (Some i)
        else split_cells row' (S i) cells (cell ++ [c]) last_boundary in
      if c =c "\"%char then
        match row' with
        | d :: row'' =>
            if d =c "|"%char
            then split_cells row'' (S (S i)) cells (cell ++ lit "|") last_boundary
            else other
        | [] => other
        end
      else other
  end.
Definition split_pipe_row (line : bytes) : list bytes :=
  let row := trim line in
  let row := if starts_with (lit "|") row then drop 1 row else row in
  let '(cells, cell, last_boundary) := split_cells row 0 [] [] None in
  let cells := cells ++ [trim cell] in
  if negb (bool_decide (row = [])) && bool_decide (last_boundary = Some (length row - 1)%nat)
  then removelast cells else cells.

Definition emit_pipe_table (lines : list bytes) (page : PageContext) (doc : Document)
    (warnings : Warnings) : Document * Warnings :=
  let doc := add_table page (page_prov page) doc in
  let ref := body_child_ref TABLE (tables_size doc - 1) in
  let header_rows :=
    match lines with
    | _ :: second :: _ => if is_separator_row second then 1%nat else 0%nat
    | _ => 0%nat
    end in
  let lines :=
    match lines with
    | first :: _ :: lines' => if bool_decide (header_rows = 1%nat) then first :: lines' else lines
    | _ => lines
    end in
  let '(data, cut) := fill_table_data (map split_pipe_row lines) header_rows in
  (alter_table (set_ti_data (Some data)) (tables_size doc - 1) doc,
   note_table_cut cut data (lit "table") ref warnings).

(** * Lines *)

Definition pop_cr (line : bytes) : bytes :=
  if ends_with [c_cr] line then removelast line else line.
Definition lines_step (text : bytes) (st : nat * list bytes) : nat * list bytes + list bytes :=
  let '(start, lines) := st in
  if negb (bool_decide (start ≤ length text)%nat) then inr lines else
  let nl := default (length text) (find_char c_nl text start) in
  inl ((nl + 1)%nat, lines ++ [pop_cr (substr text start (nl - start))]).
Definition split_lines (text : bytes) : list bytes :=
  run_loop [] (S (S (length text))) (lines_step text) (0%nat, []).

(** The leading run of lines passing [p], and the rest. *)
Fixpoint span_lines (p : bytes → bool) (lines : list bytes) : list bytes * list bytes :=
  match lines with
  | [] => ([], [])
  | line :: lines' =>
      if p line then let '(run, rest) := span_lines p lines' in (line :: run, rest)
      else ([], lines)
  end.

(** * The block loop *)

(** The locals of [map_markdown]: the lines not read yet, the open paragraph,
    and what was emitted. *)
Record MdState := mk_MdState {
  md_lines : list bytes; md_paragraph : bytes; md_out : Document; md_warnings : Warnings;
  md_items : nat }.

Definition flush_paragraph (page : PageContext) (s : MdState) : MdState :=
  let body := trim (md_paragraph s) in
  if bool_decide (body = []) then
    mk_MdState (md_lines s) [] (md_out s) (md_warnings s) (md_items s)
  else
    mk_MdState (md_lines s) []
      (add_text page DOC_ITEM_LABEL_PARAGRAPH (page_prov page) body (md_out s))
      (md_warnings s) (S (md_items s)).

Definition kFence : bytes := lit "```".
Definition is_fence (line : bytes) : bool := starts_with kFence (trim line).
Definition is_pipe_line (line : bytes) : bool := starts_with (lit "|") (trim line).

Definition hashes_of (stripped : bytes) : nat := span (Ascii.eqb "#"%char) stripped.
Definition is_heading (stripped : bytes) : bool :=
  let hashes := hashes_of stripped in
  bool_decide (1 ≤ hashes)%nat && bool_decide (hashes ≤ 6)%nat && char_at stripped hashes isspace.
Definition heading_text (stripped : bytes) : bytes :=
  let heading := trim (substr_from stripped (hashes_of stripped)) in
  match find_last (λ c, negb (c =c "#"%char)) heading with
  | None => []
  | Some last_non_hash =>
      if bool_decide (last_non_hash + 1 < length heading)%nat &&
         char_at heading last_non_hash (λ c, (c =c " "%char) || (c =c c_tab))
      then trim (substr heading 0 last_non_hash) else heading
  end.

Definition is_bulleted (stripped : bytes) : bool :=
  bool_decide (2 < length stripped)%nat &&
  char_at stripped 0 (λ c, (c =c "-"%char) || (c =c "*"%char) || (c =c "+"%char)) &&
  char_at stripped 1 isspace.
Definition number_end_of (stripped : bytes) : nat := span isdigit stripped.
Definition is_enumerated (stripped : bytes) : bool :=
  let number_end := number_end_of stripped in
  bool_decide (0 < number_end)%nat && bool_decide (number_end + 1 < length stripped)%nat &&
  char_at stripped number_end (λ c, (c =c "."%char) || (c =c ")"%char)) &&
  char_at stripped (number_end + 1) isspace.

Definition emit_item (lines : list bytes) (out : Document) (warnings : Warnings) (s : MdState)
  : MdState :=
  mk_MdState lines (md_paragraph s) out warnings (S (md_items s)).

Definition md_step (page : PageContext) (s : MdState) : MdState + MdState :=
  match md_lines s with
  | [] => inr s
  | line :: lines =>
      let stripped := trim line in
      let prov := page_prov page in
      if starts_with kFence stripped then
        let s := flush_paragraph page s in
        let language := trim (substr_from stripped 3) in
        let '(body, rest) := span_lines (λ l, negb (is_fence l)) lines in
        let code := mjoin ((λ l, l ++ [c_nl]) <$> body) in
        inl (emit_item (drop 1 rest)
          (add_code page prov (if bool_decide (code = []) then code else take (length code - 1) code)
             language (md_out s)) (md_warnings s) s)
      else if is_heading stripped then
        let s := flush_paragraph page s in
        inl (emit_item lines
          (add_section_header page (Z.of_nat (hashes_of stripped)) prov (heading_text stripped)
             (md_out s)) (md_warnings s) s)
      else if starts_with (lit "|") stripped then
        let s := flush_paragraph page s in
        let '(table_lines, rest) := span_lines is_pipe_line (line :: lines) in
        let '(out, warnings) := emit_pipe_table table_lines page (md_out s) (md_warnings s) in
        inl (emit_item rest out warnings s)
      else
        let bulleted := is_bulleted stripped in
        let enumerated := is_enumerated stripped in
        let number_end := number_end_of stripped in
        if bulleted || enumerated then
          let s := flush_paragraph page s in
          let marker := if bulleted then substr stripped 0 1 else substr stripped 0 (number_end + 1) in
          let body := trim (substr_from stripped (if bulleted then 1 else number_end + 1)) in
          inl (emit_item lines (add_list_item page prov body enumerated marker (md_out s))
            (md_warnings s) s)
        else
          let s := mk_MdState lines (md_paragraph s) (md_out s) (md_warnings s) (md_items s) in
          if bool_decide (stripped = []) then inl (flush_paragraph page s)
          else inl (mk_MdState lines (md_paragraph s ++ stripped ++ [c_nl]) (md_out s)
                      (md_warnings s) (md_items s))
  end.

Definition map_markdown (text : bytes) (page : PageContext) (out : Document) (warnings : Warnings)
  : MapResult :=
  if bool_decide (trim text = []) then MapFailed (lit "empty markdown response") else
  let lines := split_lines text in
  let s := mk_MdState lines [] out warnings 0 in
  let s := flush_paragraph page (run_loop s (S (length lines)) (md_step page) s) in
  if bool_decide (md_items s = 0%nat) then
    MapFailed (lit "markdown response produced no document items")
  else Mapped (finalize_document_default page (md_out s)) (md_warnings s).

(** * Pipe rows *)

Lemma trim_pad cell : trim (lit " " ++ cell ++ lit " ") = trim cell.
Proof.
  rewrite !trim_strip. cbn [lit String.list_ascii_of_string app].
  change (lstrip is_blank (" "%char :: ?s)) with (lstrip is_blank s).
  rewrite lstrip_app. case_bool_decide as H.
  - rewrite H. done.
  - rewrite rstrip_app. done.
Qed.

Lemma trim_framed c s : is_blank c = false → trim (c :: s ++ [c]) = c :: s ++ [c].
Proof.
  intros Hc. rewrite trim_strip. rewrite lstrip_id by (intros d [= <-]; done).
  rewrite app_comm_cons, rstrip_app. unfold rstrip at 1 3. cbn. by rewrite Hc.
Qed.

(** A cell as a pipe table writes it. *)
Definition escape (cell : bytes) : bytes :=
  mjoin ((λ c, if c =c "|"%char then lit "\|" else [c]) <$> cell).
Definition print_cell (cell : bytes) : bytes := lit " " ++ escape cell ++ lit " |".
Definition print_pipe_row (cells : list bytes) : bytes :=
  lit "|" ++ mjoin (print_cell <$> cells).

Lemma escape_cons c cell :
  escape (c :: cell) = (if c =c "|"%char then lit "\|" else [c]) ++ escape cell.
Proof. done. Qed.

Lemma escape_head cell rest :
  ∃ d tail, escape cell ++ " "%char :: rest = d :: tail ∧ (d =c "|"%char) = false.
Proof.
  destruct cell as [|c cell]; [by exists " "%char, rest|]. rewrite escape_cons.
  destruct (c =c "|"%char) eqn:E; cbn; eauto.
Qed.

Lemma split_escape cell rest i cells acc last :
  split_cells (escape cell ++ " "%char :: rest) i cells acc last =
  split_cells (" "%char :: rest) (i + length (escape cell)) cells (acc ++ cell) last.
Proof.
  revert i acc. induction cell as [|c cell IH]; intros i acc.
  { cbn [escape fmap list_fmap app]. change (escape []) with (@nil ascii).
    by rewrite Nat.add_0_r, app_nil_r. }
  rewrite escape_cons, <- app_assoc, length_app.
  destruct (c =c "|"%char) eqn:E.
  - apply Ascii.eqb_eq in E as ->. cbn [lit String.list_ascii_of_string app length].
    change (split_cells ("\"%char :: "|"%char :: ?r) i cells acc last)
      with (split_cells r (S (S i)) cells (acc ++ lit "|") last).
    rewrite IH, <- app_assoc. f_equal. lia.
  - cbn [app length]. destruct (escape_head cell rest) as (d & tail & Hd & Hpipe).
    assert (Hstep : split_cells (c :: escape cell ++ " "%char :: rest) i cells acc last =
      split_cells (escape cell ++ " "%char :: rest) (S i) cells (acc ++ [c]) last).
    { cbn [split_cells]. rewrite E, Hd. rewrite Hpipe. by destruct (c =c "\"%char). }
    rewrite Hstep, IH, <- app_assoc. f_equal. lia.
Qed.

Lemma split_print_cell cell rest i cells last :
  trim cell = cell →
  split_cells (print_cell cell ++ rest) i cells [] last =
  split_cells rest (i + length (print_cell cell)) (cells ++ [cell]) []
    (Some (i + length (print_cell cell) - 1)%nat).
Proof.
  intros Htrim. unfold print_cell. rewrite <- !app_assoc.
  change (split_cells (lit " " ++ ?s) i cells [] last) with (split_cells s (S i) cells (lit " ") last).
  change (lit " |" ++ rest) with (" "%char :: "|"%char :: rest). rewrite split_escape.
  set (j := (S i + length (escape cell))%nat).
  change (split_cells (" "%char :: "|"%char :: rest) j cells (lit " " ++ cell) last)
    with (split_cells rest (S (S j)) (cells ++ [trim ((lit " " ++ cell) ++ lit " ")]) [] (Some (S j))).
  rewrite <- app_assoc, trim_pad, Htrim. rewrite !length_app. cbn [length lit String.list_ascii_of_string].
  f_equal; [|f_equal]; subst j; lia.
Qed.

Lemma split_print_cells cells i closed last :
  Forall (λ cell, trim cell = cell) cells →
  split_cells (mjoin (print_cell <$> cells)) i closed [] last =
  (closed ++ cells, [],
   if bool_decide (cells = []) then last
   else Some (i + length (mjoin (print_cell <$> cells)) - 1)%nat).
Proof.
  intros Htrim. revert i closed last. induction Htrim as [|cell cells Hcell _ IH]; intros i closed last.
  { by rewrite app_nil_r. }
  cbn [fmap list_fmap]. change (mjoin (?x :: ?xs)) with (x ++ mjoin xs).
  rewrite split_print_cell, IH by done. rewrite <- app_assoc. f_equal.
  rewrite (bool_decide_false (cell :: cells = [])) by done. rewrite length_app.
  assert (0 < length (print_cell cell))%nat by (unfold print_cell; cbn; lia).
  case_bool_decide; subst; cbn; f_equal; lia.
Qed.

Lemma print_pipe_row_framed cells :
  cells ≠ [] → ∃ body, print_pipe_row cells = "|"%char :: body ++ ["|"%char].
Proof.
  intros Hne. destruct cells as [|cell cells _] using rev_ind; [done|].
  exists (mjoin (print_cell <$> cells) ++ lit " " ++ escape cell ++ lit " ").
  unfold print_pipe_row. rewrite fmap_app, join_app. cbn [fmap list_fmap].
  change (mjoin [?x]) with (x ++ []). unfold print_cell at 2. rewrite app_nil_r.
  change (lit " |") with (lit " " ++ lit "|"). cbn [lit String.list_ascii_of_string app].
  f_equal. rewrite <- !app_assoc. cbn. by rewrite <- !app_assoc.
Qed.

(** * Lines *)

Definition nonblank (s : bytes) : Prop := trim s ≠ [].

Lemma trim_app_nil s t : trim (s ++ t) = [] ↔ trim s = [] ∧ trim t = [].
Proof. rewrite !trim_nil. apply Forall_app. Qed.

(** The lines between newlines, the reference [split_lines] is compared with. *)
Fixpoint split_nl (text : bytes) : list bytes :=
  match text with
  | [] => [[]]
  | c :: text' =>
      if c =c c_nl then [] :: split_nl text'
      else match split_nl text' with
           | line :: lines => (c :: line) :: lines
           | [] => [[c]]
           end
  end.

Lemma split_nl_cases text :
  (c_nl ∉ text) ∧ split_nl text = [text] ∨
  ∃ line rest, text = line ++ c_nl :: rest ∧ (c_nl ∉ line) ∧ split_nl text = line :: split_nl rest.
Proof.
  induction text as [|c text IH]; [left; split; [apply not_elem_of_nil|done]|].
  cbn [split_nl]. destruct (c =c c_nl) eqn:E.
  - apply Ascii.eqb_eq in E as ->. right. exists [], text. split_and!; try done. apply not_elem_of_nil.
  - apply Ascii.eqb_neq in E. destruct IH as [[Hno ->]|(line & rest & -> & Hno & ->)].
    + left. split; [|done]. by intros [?|?]%elem_of_cons.
    + right. exists (c :: line), rest. split_and!; try done. by intros [?|?]%elem_of_cons.
Qed.

Lemma lines_loop pre rest acc fuel :
  (S (length rest) < fuel)%nat →
  loop fuel (lines_step (pre ++ rest)) (length pre, acc) = Some (acc ++ (pop_cr <$> split_nl rest)).
Proof.
  revert pre rest acc. induction fuel as [|fuel IH]; intros pre rest acc Hfuel; [lia|].
  cbn [loop]. unfold lines_step at 1. rewrite bool_decide_true by (rewrite length_app; lia).
  cbn [negb]. unfold find_char.
  destruct (split_nl_cases rest) as [[Hno ->]|(line & rest' & -> & Hno & ->)].
  - rewrite (find_if_miss _ _ pre rest); [|done|done|].
    2: { intros k Hk. rewrite <- (app_nil_r (drop k rest)). by apply head_is_other. }
    change (default ?d None) with d. rewrite (substr_cut _ pre rest []);
      [|by rewrite app_nil_r|done|rewrite length_app; lia].
    destruct fuel as [|fuel]; [lia|]. cbn [loop]. unfold lines_step.
    rewrite bool_decide_false by lia. done.
  - rewrite (find_if_hit _ _ pre line (c_nl :: rest')); [|done|done|by intros; apply head_is_other|done|done].
    change (default ?d (Some ?x)) with x. rewrite (substr_cut _ pre line (c_nl :: rest')); [|done|done|lia].
    replace (pre ++ line ++ c_nl :: rest') with ((pre ++ line ++ [c_nl]) ++ rest')
      by (by rewrite <- !app_assoc).
    replace (length pre + length line + 1)%nat with (length (pre ++ line ++ [c_nl]))
      by (rewrite !length_app; cbn; lia).
    rewrite IH by (rewrite length_app in Hfuel; cbn in Hfuel; lia). by rewrite <- app_assoc.
Qed.

(** [split_lines] terminates within its fuel on the reference lines. *)
Lemma split_lines_spec text : split_lines text = pop_cr <$> split_nl text.
Proof.
  unfold split_lines, run_loop. pose proof (lines_loop [] text [] (S (S (length text)))) as H.
  cbn [app length] in H. by rewrite H by lia.
Qed.

Lemma pop_cr_trim line : trim (pop_cr line) = [] → trim line = [].
Proof.
  unfold pop_cr. destruct (ends_with [c_cr] line) eqn:E; [|done].
  unfold ends_with in E. apply andb_prop in E as [Hlen%bool_decide_eq_true H].
  destruct line as [|c line _] using rev_ind; [done|].
  rewrite removelast_last, length_app in *. cbn [length] in H.
  replace (length line + 1 - 1)%nat with (length line + 0)%nat in H by lia.
  rewrite drop_app_add in H. cbn [drop starts_with] in H. rewrite andb_true_r in H. apply Ascii.eqb_eq in H as <-.
  intros Hnil. by rewrite trim_app_nil.
Qed.

(** A text that is not blank has a line that is not. *)
Lemma split_lines_nonblank text :
  nonblank text → Exists nonblank (split_lines text).
Proof.
  rewrite split_lines_spec. unfold nonblank. intros Ht.
  apply Exists_fmap. apply (not_Forall_Exists (λ l, trim (pop_cr l) = [])). intros Hall. apply Ht. clear Ht.
  assert (Forall (λ l, trim l = []) (split_nl text)) as Hblank.
  { eapply Forall_impl; [done|]. cbn. intros l Hl. by apply pop_cr_trim. }
  clear Hall. remember (length text) as n eqn:Hn. revert text Hn Hblank.
  induction n as [n IH] using lt_wf_ind. intros text -> Hblank.
  destruct (split_nl_cases text) as [[_ E]|(line & rest & -> & _ & E)]; rewrite E in Hblank.
  - by apply Forall_cons in Hblank as [? _].
  - apply Forall_cons in Hblank as [Hline Hrest]. apply trim_app_nil. split; [done|].
    change (c_nl :: rest) with ([c_nl] ++ rest). apply trim_app_nil. split; [done|].
    eapply IH; [|done|done]. rewrite length_app. cbn. lia.
Qed.

(** * The block loop *)

Lemma span_lines_spec p lines :
  let '(run, rest) := span_lines p lines in
  lines = run ++ rest ∧ Forall (λ l, p l = true) run ∧ (∀ l, head rest = Some l → p l = false).
Proof.
  induction lines as [|line lines IH]; cbn; [done|].
  destruct (p line) eqn:E.
  - destruct (span_lines p lines) as [run rest]. destruct IH as (-> & ? & ?). auto.
  - split_and!; try done. by intros l [= <-].
Qed.

Lemma span_lines_stop p run rest :
  Forall (λ l, p l = true) run → (∀ l, head rest = Some l → p l = false) →
  span_lines p (run ++ rest) = (run, rest).
Proof.
  intros Hrun Hrest. induction Hrun as [|line run Hline _ IH]; cbn.
  - destruct rest as [|l rest]; [done|]. cbn. by rewrite (Hrest l).
  - by rewrite Hline, IH.
Qed.

Lemma flush_lines page s : md_lines (flush_paragraph page s) = md_lines s.
Proof. unfold flush_paragraph. by case_match. Qed.

Lemma md_step_progress page s s' :
  md_step page s = inl s' → (length (md_lines s') < length (md_lines s))%nat.
Proof.
  unfold md_step. destruct (md_lines s) as [|line lines] eqn:Hl; [done|].
  destruct (starts_with kFence (trim line)).
  { pose proof (span_lines_spec (λ l, negb (is_fence l)) lines) as H.
    destruct (span_lines _ lines) as [body rest]. destruct H as (-> & _).
    intros [= <-]. cbn. rewrite length_drop, length_app. lia. }
  destruct (is_heading (trim line)); [intros [= <-]; cbn; lia|].
  destruct (starts_with (lit "|") (trim line)) eqn:Hpipe.
  { pose proof (span_lines_spec is_pipe_line (line :: lines)) as H.
    cbn [span_lines] in *. unfold is_pipe_line at 1 in H. unfold is_pipe_line at 1. rewrite Hpipe in *.
    destruct (span_lines is_pipe_line lines) as [run rest]. destruct H as (H & _). injection H as ->.
    destruct (emit_pipe_table _ _ _ _). intros [= <-]. cbn. rewrite length_app. lia. }
  destruct (_ || _); [intros [= <-]; cbn; lia|].
  case_bool_decide; intros [= <-]; rewrite ?flush_lines; cbn; lia.
Qed.

(** The block loop terminates within its fuel. *)
Lemma md_loop_total page s : is_Some (loop (S (length (md_lines s))) (md_step page) s).
Proof.
  apply (loop_total (λ _, True) (λ s, length (md_lines s))); [|done|lia].
  intros s1 s2 _ H. split; [done|]. by apply (md_step_progress page).
Qed.

(** Something was emitted, or is about to be. *)
Definition pending (s : MdState) : Prop :=
  (0 < md_items s)%nat ∨ nonblank (md_paragraph s) ∨ Exists nonblank (md_lines s).

Lemma md_step_pending page s :
  pending s → match md_step page s with inl s' => pending s' | inr r => pending r ∧ md_lines r = [] end.
Proof.
  intros Hs. unfold md_step. destruct (md_lines s) as [|line lines] eqn:Hl; [done|].
  destruct (starts_with kFence (trim line)).
  { destruct (span_lines _ lines). left. cbn. lia. }
  destruct (is_heading (trim line)); [left; cbn; lia|].
  destruct (starts_with (lit "|") (trim line)).
  { destruct (span_lines is_pipe_line (line :: lines)). destruct (emit_pipe_table _ _ _ _). left. cbn. lia. }
  destruct (_ || _); [left; cbn; lia|].
  unfold pending in *. rewrite Hl in Hs. case_bool_decide as Hblank.
  - unfold flush_paragraph. cbn. case_bool_decide as Hp; cbn; [|left; lia].
    destruct Hs as [?|[Hs|Hs]]; [by left|done|].
    apply Exists_cons in Hs as [Hs|Hs]; [done|by right; right].
  - right. left. unfold nonblank. cbn [md_paragraph].
    rewrite !trim_app_nil, trim_trim. tauto.
Qed.

(** * Writing a page and reading it back *)

Inductive MdBlock :=
  | MdHeading (level : nat) (text : bytes)
  | MdParagraph (text : bytes)
  | MdCode (language : bytes) (code : list bytes)
  | MdTable (header : list bytes) (rows : list (list bytes))
  | MdBullet (text : bytes).

(** The lines of a block, and the blank line that closes it. *)
Definition render (block : MdBlock) : list bytes :=
  match block with
  | MdHeading level text => [replicate level "#"%char ++ lit " " ++ text; []]
  | MdParagraph text => [text; []]
  | MdCode language code => (kFence ++ language) :: code ++ [kFence; []]
  | MdTable header rows => print_pipe_row header :: lit "|---|" :: map print_pipe_row rows ++ [[]]
  | MdBullet text => [lit "- " ++ text; []]
  end.

Fixpoint join_nl (lines : list bytes) : bytes :=
  match lines with
  | [] => []
  | [line] => line
  | line :: lines' => line ++ [c_nl] ++ join_nl lines'
  end.

Definition trimmed (text : bytes) : Prop := trim text = text.
Definition one_line (line : bytes) : Prop := (c_nl ∉ line) ∧ pop_cr line = line.
(** A line [map_markdown] reads as paragraph text. *)
Definition paragraph_line (text : bytes) : bool :=
  negb (starts_with kFence text || is_heading text || starts_with (lit "|") text ||
        is_bulleted text || is_enumerated text).

Definition block_ok (block : MdBlock) : Prop :=
  Forall one_line (render block) ∧
  match block with
  | MdHeading level text =>
      (1 ≤ level ≤ 6)%nat ∧ trimmed text ∧ text ≠ [] ∧ last text ≠ Some "#"%char
  | MdParagraph text => trimmed text ∧ text ≠ [] ∧ paragraph_line text = true
  | MdCode language code => trimmed language ∧ Forall (λ l, is_fence l = false) code
  | MdTable header rows => Forall (λ row, row ≠ [] ∧ Forall trimmed row) (header :: rows)
  | MdBullet text => trimmed text ∧ text ≠ []
  end.

Definition block_tables (block : MdBlock) : list (option TableData) :=
  match block with
  | MdTable header rows => [Some (fill_table_data (header :: rows) 1).1]
  | _ => []
  end.

Lemma split_nl_join lines :
  lines ≠ [] → Forall (λ line, c_nl ∉ line) lines → split_nl (join_nl lines) = lines.
Proof.
  intros Hne Hall. induction lines as [|line lines IH]; [done|].
  apply Forall_cons in Hall as [Hline Hall].
  assert (Hone : ∀ rest, split_nl (line ++ c_nl :: rest) = line :: split_nl rest).
  { intros rest. clear -Hline. induction line as [|c line IH]; [done|].
    apply not_elem_of_cons in Hline as [Hc Hline]. cbn [app split_nl].
    rewrite (proj2 (Ascii.eqb_neq c c_nl)) by congruence. by rewrite IH. }
  destruct lines as [|line' lines].
  - cbn [join_nl]. clear -Hline. induction line as [|c line IH]; [done|].
    apply not_elem_of_cons in Hline as [Hc Hline]. cbn [split_nl].
    rewrite (proj2 (Ascii.eqb_neq c c_nl)) by congruence. by rewrite IH.
  - change (join_nl (line :: line' :: lines)) with (line ++ c_nl :: join_nl (line' :: lines)).
    by rewrite Hone, IH.
Qed.

Lemma split_lines_join lines :
  lines ≠ [] → Forall one_line lines → split_lines (join_nl lines) = lines.
Proof.
  intros Hne Hall. rewrite split_lines_spec, split_nl_join; [|done|].
  - clear Hne. induction Hall as [|line lines [_ Hcr] _ IH]; [done|]. cbn. by rewrite Hcr, IH.
  - eapply Forall_impl; [done|]. by intros line [].
Qed.

(** ** The shape of rendered lines *)

Lemma trim_snoc_blank s c : is_blank c = true → trim (s ++ [c]) = trim s.
Proof.
  intros Hc. rewrite !trim_strip, lstrip_app. case_bool_decide as H.
  - rewrite H. unfold rstrip. cbn. by rewrite Hc.
  - rewrite rstrip_app. unfold rstrip at 1. cbn. by rewrite Hc.
Qed.

Lemma trim_cons_blank s c : is_blank c = true → trim (c :: s) = trim s.
Proof. intros Hc. rewrite !trim_strip. cbn. by rewrite Hc. Qed.

Lemma trimmed_rstrip t : trimmed t → rstrip is_blank t = t.
Proof. unfold trimmed. intros <-. rewrite !trim_strip. apply rstrip_idemp. Qed.

Lemma trimmed_append c s t :
  is_blank c = false → trimmed t → t ≠ [] → trimmed (c :: s ++ t).
Proof.
  intros Hc Ht Hne. unfold trimmed. rewrite trim_strip, lstrip_id by (by intros d [= <-]).
  rewrite app_comm_cons, rstrip_app, (trimmed_rstrip t Ht). by rewrite bool_decide_false.
Qed.

Lemma span_replicate (c : ascii) n s :
  (∀ d, head s = Some d → (c =c d) = false) → span (Ascii.eqb c) (replicate n c ++ s) = n.
Proof.
  intros Hs. induction n as [|n IH]; cbn [replicate app span].
  - destruct s as [|d s]; [done|]. cbn. by rewrite (Hs d).
  - by rewrite Ascii.eqb_refl, IH.
Qed.

Lemma find_last_snoc p s c : p c = true → find_last p (s ++ [c]) = Some (length s).
Proof.
  intros Hc. unfold find_last. cut (∀ i, find_last_at p (s ++ [c]) i = Some (i + length s)%nat).
  { intros H. apply (H 0%nat). }
  induction s as [|d s IH]; intros i; cbn [app find_last_at length].
  - rewrite Hc. f_equal. lia.
  - rewrite IH. f_equal. lia.
Qed.

Lemma code_lines code :
  code ≠ [] → mjoin ((λ l, l ++ [c_nl]) <$> code) = join_nl code ++ [c_nl].
Proof.
  induction code as [|line code IH]; [done|]. intros _. destruct code as [|line' code].
  - cbn. by rewrite app_nil_r.
  - change (mjoin (?f <$> line :: line' :: code))
      with ((line ++ [c_nl]) ++ mjoin (f <$> line' :: code)).
    rewrite IH by done. change (join_nl (line :: line' :: code)) with (line ++ [c_nl] ++ join_nl (line' :: code)).
    by rewrite <- !app_assoc.
Qed.

Lemma heading_line level text :
  (1 ≤ level ≤ 6)%nat → trimmed text → text ≠ [] → last text ≠ Some "#"%char →
  let line := replicate level "#"%char ++ lit " " ++ text in
  trim line = line ∧ starts_with kFence line = false ∧ is_heading line = true ∧
  hashes_of line = level ∧ heading_text line = text.
Proof.
  intros Hlevel Ht Hne Hlast line.
  assert (Hhash : hashes_of line = level) by (apply span_replicate; by intros d [= <-]).
  split_and!; [| | |done|].
  - destruct level as [|level]; [lia|]. subst line. cbn [replicate app].
    rewrite app_assoc. by apply trimmed_append.
  - destruct level as [|level]; [lia|]. done.
  - unfold is_heading. rewrite Hhash, !bool_decide_true by lia. cbn [andb].
    unfold char_at. subst line. rewrite lookup_app_r by (rewrite length_replicate; lia).
    by rewrite length_replicate, Nat.sub_diag.
  - unfold heading_text. rewrite Hhash. unfold substr_from. subst line.
    rewrite drop_app_length' by (by rewrite length_replicate).
    change (lit " " ++ text) with (" "%char :: text). rewrite trim_cons_blank by done. rewrite Ht.
    destruct text as [|c text _] using rev_ind; [done|]. rewrite last_snoc in Hlast.
    rewrite find_last_snoc.
    + rewrite bool_decide_false; [done|]. rewrite length_app. cbn. lia.
    + apply negb_true_iff, Ascii.eqb_neq. congruence.
Qed.

Lemma pipe_row_line cells :
  cells ≠ [] →
  let line := print_pipe_row cells in
  trim line = line ∧ starts_with kFence line = false ∧ is_heading line = false ∧
  starts_with (lit "|") line = true.
Proof.
  intros Hne line. destruct (print_pipe_row_framed cells Hne) as [body E].
  assert (Hline : line = "|"%char :: body ++ ["|"%char]) by done.
  clearbody line. subst line. split_and!; [by apply trim_framed|done|done|done].
Qed.

Lemma split_print_pipe_row cells :
  cells ≠ [] → Forall trimmed cells → split_pipe_row (print_pipe_row cells) = cells.
Proof.
  intros Hne Htrim. unfold split_pipe_row.
  destruct (pipe_row_line cells Hne) as (-> & _ & _ & ->).
  change (drop 1 (print_pipe_row cells)) with (mjoin (print_cell <$> cells)).
  rewrite split_print_cells by done. cbn [app plus].
  rewrite (bool_decide_false (cells = [])) by done.
  assert (0 < length (mjoin (print_cell <$> cells)))%nat.
  { destruct cells; [done|]. cbn [fmap list_fmap]. change (mjoin (?x :: ?xs)) with (x ++ mjoin xs).
    rewrite length_app. unfold print_cell. cbn. lia. }
  rewrite (bool_decide_false (mjoin _ = [])) by (intros E; rewrite E in *; cbn in *; lia).
  rewrite bool_decide_true by done. cbn [negb andb]. change (trim []) with (@nil ascii).
  by rewrite removelast_last.
Qed.

Lemma bullet_line text :
  trimmed text → text ≠ [] →
  let line := lit "- " ++ text in
  trim line = line ∧ starts_with kFence line = false ∧ is_heading line = false ∧
  starts_with (lit "|") line = false ∧ is_bulleted line = true ∧ is_enumerated line = false.
Proof.
  intros Ht Hne line. split_and!; try done.
  - apply (trimmed_append "-"%char (lit " ")); done.
  - unfold is_bulleted. subst line. rewrite bool_decide_true; [done|].
    rewrite length_app. destruct text; [done|cbn; lia].
Qed.

Lemma fence_line language :
  trimmed language → trim (kFence ++ language) = kFence ++ language.
Proof.
  intros Ht. destruct language as [|c language]; [done|].
  by apply (trimmed_append "`"%char (lit "``")).
Qed.

(** ** One block at a time *)

(** The items a block stands for on a page, before the body is stamped on them. *)
Definition block_items (page : PageContext) (block : MdBlock) : list BaseTextItem :=
  let base label := fill_text_base page label (page_prov page) in
  match block with
  | MdHeading level text => [kSectionHeader (base DOC_ITEM_LABEL_SECTION_HEADER text) (Z.of_nat level)]
  | MdParagraph text => [kText (base DOC_ITEM_LABEL_PARAGRAPH text)]
  | MdCode language code =>
      [kCode (mk_CodeItem [] None [] CONTENT_LAYER_BODY DOC_ITEM_LABEL_CODE [page_prov page]
         (join_nl code) (join_nl code) (add_sources page) [] [] None
         (if bool_decide (language = []) then None else Some language))]
  | MdBullet text => [kListItem (base DOC_ITEM_LABEL_LIST_ITEM text) false (Some (lit "-"))]
  | MdTable _ _ => []
  end.
Definition table_item (page : PageContext) (data : option TableData) : TableItem :=
  mk_TableItem [] None [] CONTENT_LAYER_BODY DOC_ITEM_LABEL_TABLE [page_prov page] [] data
    (add_sources page) [].
Definition block_table_items (page : PageContext) (block : MdBlock) : list TableItem :=
  table_item page <$> block_tables block.

(** A document that holds these items and nothing else, without a body yet. *)
Record wrote_items (doc : Document) (texts : list BaseTextItem) (tables : list TableItem) : Prop := {
  wi_texts : doc_texts doc = texts;
  wi_tables : doc_tables doc = tables;
  wi_others : doc_pictures doc = [] ∧ doc_groups doc = [] ∧ doc_field_regions doc = [] ∧
              doc_key_value_items doc = [];
  wi_body : doc_body doc = None }.

Lemma wrote_text_item item doc texts tables :
  wrote_items doc texts tables → wrote_items (push_text item doc) (texts ++ [item]) tables.
Proof. intros [<- <- ? ?]. done. Qed.
Lemma wrote_table page data doc texts tables :
  wrote_items doc texts tables →
  wrote_items (alter_table (set_ti_data data) (tables_size (add_table page (page_prov page) doc) - 1)
                 (add_table page (page_prov page) doc)) texts (tables ++ [table_item page data]).
Proof.
  intros [<- <- ? ?]. split; try done. unfold alter_table, tables_size, add_table.
  cbn [doc_tables set_doc_tables]. by rewrite alter_snoc.
Qed.

(** A finished page of these items: the body lists the texts in order and then
    the tables, each item carries its own ref and the body as its parent, and
    there is no other item. *)
Record item_page (doc : Document) (texts : list BaseTextItem) (tables : list TableItem) : Prop := {
  ip_texts : doc_texts doc = imap (λ i, stamp (body_child_ref TEXT i) kBodyRef) texts;
  ip_tables : doc_tables doc = imap (λ i, stamp (body_child_ref TABLE i) kBodyRef) tables;
  ip_others : doc_pictures doc = [] ∧ doc_groups doc = [] ∧ doc_field_regions doc = [] ∧
              doc_key_value_items doc = [];
  ip_body : gi_children <$> doc_body doc =
    Some ((body_child_ref TEXT <$> seq 0 (length texts)) ++ (body_child_ref TABLE <$> seq 0 (length tables))) }.

Lemma finalize_wrote page doc texts tables :
  wrote_items doc texts tables → item_page (finalize_document_default page doc) texts tables.
Proof.
  intros [Ht Htb (Hp & Hg & Hf & Hk) Hb]. unfold finalize_document_default.
  assert (default_order doc =
    (mk_BodyChild TEXT <$> seq 0 (length texts)) ++ (mk_BodyChild TABLE <$> seq 0 (length tables))) as Ho.
  { unfold default_order, texts_size, pictures_size, tables_size. by rewrite Ht, Htb, Hp. }
  rewrite Ho. destruct (finalize_same_contents page (default_order doc) doc) as [_ Ep _ Ek Eg Ef].
  rewrite Ho, ?Hp, ?Hg, ?Hf, ?Hk in *.
  split.
  - unfold finalize_document. cbn [doc_texts set_doc_pages set_doc_body]. rewrite foldl_app.
    rewrite (stamp_unlisted doc_texts) by (apply Forall_fmap, Forall_forall; done).
    by apply (stamp_listed doc_texts TEXT [] texts).
  - unfold finalize_document. cbn [doc_tables set_doc_pages set_doc_body]. rewrite foldl_app.
    apply (stamp_listed doc_tables TABLE [] tables); [done|].
    rewrite (stamp_unlisted doc_tables) by (apply Forall_fmap, Forall_forall; done). done.
  - split_and!; by eapply fmap_nil_inv.
  - rewrite finalize_children, Hb. cbn. rewrite map_app. by rewrite <- !list_fmap_compose.
Qed.

Section Blocks.
Variable page : PageContext.
Let step := λ s s', md_step page s = inl s'.
(** Between two blocks. *)
Definition between (lines : list bytes) (out : Document) (warnings : Warnings) (items : nat)
  : MdState := mk_MdState lines [] out warnings items.

Lemma md_blank rest out warnings items :
  step (between ([] :: rest) out warnings items) (between rest out warnings items).
Proof. done. Qed.

Lemma flush_between lines out warnings items :
  flush_paragraph page (between lines out warnings items) = between lines out warnings items.
Proof. done. Qed.

Lemma heading_step level text rest out warnings items texts tables :
  block_ok (MdHeading level text) → wrote_items out texts tables →
  ∃ out' warnings',
    rtc step (between (render (MdHeading level text) ++ rest) out warnings items)
             (between rest out' warnings' (S items)) ∧
    wrote_items out' (texts ++ block_items page (MdHeading level text)) tables.
Proof.
  intros (_ & Hlevel & Ht & Hne & Hlast) Hout.
  destruct (heading_line level text Hlevel Ht Hne Hlast) as (E1 & E2 & E3 & E4 & E5).
  eexists (add_section_header page (Z.of_nat level) _ text out), warnings. split.
  - eapply rtc_l; [|apply rtc_once, md_blank]. unfold step, md_step.
    cbn [between md_lines render app]. rewrite E1, E2, E3, E4, E5. by rewrite flush_between.
  - exact (wrote_text_item _ _ _ _ Hout).
Qed.

Lemma bullet_step text rest out warnings items texts tables :
  block_ok (MdBullet text) → wrote_items out texts tables →
  ∃ out' warnings',
    rtc step (between (render (MdBullet text) ++ rest) out warnings items)
             (between rest out' warnings' (S items)) ∧
    wrote_items out' (texts ++ block_items page (MdBullet text)) tables.
Proof.
  intros (_ & Ht & Hne) Hout.
  destruct (bullet_line text Ht Hne) as (E1 & E2 & E3 & E4 & E5 & E6).
  eexists (add_list_item page _ text false (lit "-") out), warnings. split.
  - eapply rtc_l; [|apply rtc_once, md_blank]. unfold step, md_step.
    cbn [between md_lines render app]. rewrite E1, E2, E3, E4, E5, E6. cbn [orb].
    rewrite flush_between. change (substr_from (lit "- " ++ text) 1) with (" "%char :: text).
    by rewrite trim_cons_blank, Ht by done.
  - exact (wrote_text_item _ _ _ _ Hout).
Qed.

Lemma paragraph_step text rest out warnings items texts tables :
  block_ok (MdParagraph text) → wrote_items out texts tables →
  ∃ out' warnings',
    rtc step (between (render (MdParagraph text) ++ rest) out warnings items)
             (between rest out' warnings' (S items)) ∧
    wrote_items out' (texts ++ block_items page (MdParagraph text)) tables.
Proof.
  intros (_ & Ht & Hne & Hplain) Hout. unfold paragraph_line in Hplain.
  apply negb_true_iff in Hplain. rewrite !orb_false_iff in Hplain.
  destruct Hplain as ((((E1 & E2) & E3) & E4) & E5).
  eexists (add_text page _ _ text out), warnings. split.
  - eapply rtc_l with (mk_MdState ([] :: rest) (text ++ [c_nl]) out warnings items).
    + unfold step, md_step. cbn [between md_lines render app]. rewrite Ht, E1, E2, E3, E4, E5.
      cbn [orb]. by rewrite bool_decide_false.
    + apply rtc_once. unfold step, md_step. cbn [md_lines]. change (trim []) with (@nil ascii).
      cbn [md_paragraph md_out md_warnings md_items].
      change (starts_with kFence []) with false. change (is_heading []) with false.
      change (starts_with (lit "|") []) with false. change (is_bulleted [] || is_enumerated []) with false.
      rewrite bool_decide_true by done. unfold flush_paragraph.
      cbn [md_lines md_paragraph md_out md_warnings md_items].
      rewrite trim_snoc_blank, Ht by done. by rewrite bool_decide_false.
  - exact (wrote_text_item _ _ _ _ Hout).
Qed.

Lemma code_step language code rest out warnings items texts tables :
  block_ok (MdCode language code) → wrote_items out texts tables →
  ∃ out' warnings',
    rtc step (between (render (MdCode language code) ++ rest) out warnings items)
             (between rest out' warnings' (S items)) ∧
    wrote_items out' (texts ++ block_items page (MdCode language code)) tables.
Proof.
  intros (_ & Ht & Hcode) Hout.
  eexists (add_code page _ (join_nl code) language out), warnings. split.
  - eapply rtc_l; [|apply rtc_once, md_blank]. unfold step, md_step.
    cbn [between md_lines render app]. rewrite fence_line by done.
    change (starts_with kFence (kFence ++ language)) with true. cbn match.
    rewrite <- app_assoc, span_lines_stop.
    + rewrite flush_between. change (substr_from (kFence ++ language) 3) with language.
      rewrite Ht. cbn [app drop]. unfold emit_item. cbn [md_paragraph between md_out md_warnings md_items].
      destruct code as [|line code]; [done|].
      rewrite code_lines by done. rewrite bool_decide_false by (by intros [_ ?]%app_eq_nil).
      rewrite length_app. cbn [length]. rewrite Nat.add_sub, take_app_length. done.
    + eapply Forall_impl; [done|]. cbn. intros l ->. done.
    + by intros l [= <-].
  - exact (wrote_text_item _ _ _ _ Hout).
Qed.

Lemma table_step header rows rest out warnings items texts tables :
  block_ok (MdTable header rows) → wrote_items out texts tables →
  ∃ out' warnings',
    rtc step (between (render (MdTable header rows) ++ rest) out warnings items)
             (between rest out' warnings' (S items)) ∧
    wrote_items out' texts (tables ++ block_table_items page (MdTable header rows)).
Proof.
  intros (_ & Hrows) Hout. pose proof Hrows as [[Hne Htrim] _]%Forall_cons.
  set (lines := print_pipe_row header :: lit "|---|" :: map print_pipe_row rows).
  assert (Hspan : span_lines is_pipe_line (lines ++ [] :: rest) = (lines, [] :: rest)).
  { apply span_lines_stop; [|by intros l [= <-]].
    assert (Hpipe : ∀ cells, cells ≠ [] → is_pipe_line (print_pipe_row cells) = true).
    { intros cells Hc. unfold is_pipe_line. by destruct (pipe_row_line cells Hc) as (-> & _ & _ & ->). }
    repeat constructor; [by apply Hpipe|]. apply Forall_cons in Hrows as [_ Hrows].
    apply Forall_fmap. eapply Forall_impl; [done|]. intros row [Hr _]. by apply Hpipe. }
  assert (Hemit : ∃ warnings', emit_pipe_table lines page out warnings =
    (alter_table (set_ti_data (Some (fill_table_data (header :: rows) 1).1))
       (tables_size (add_table page (page_prov page) out) - 1) (add_table page (page_prov page) out),
     warnings')).
  { unfold emit_pipe_table, lines. change (is_separator_row (lit "|---|")) with true. cbn match.
    rewrite bool_decide_true by done. cbn [map]. rewrite map_map.
    rewrite split_print_pipe_row by done.
    replace (map (λ x, split_pipe_row (print_pipe_row x)) rows) with rows.
    - destruct (fill_table_data (header :: rows) 1) as [data cut]. eauto.
    - apply Forall_cons in Hrows as [_ Hrows]. clear -Hrows.
      induction Hrows as [|row rows [Hr Ht] _ IH]; [done|]. cbn [map]. by rewrite split_print_pipe_row, <- IH. }
  destruct Hemit as [warnings' Hemit].
  eexists _, warnings'. split.
  - eapply rtc_l; [|apply rtc_once, md_blank]. unfold step, md_step.
    change (render (MdTable header rows) ++ rest) with
      (print_pipe_row header :: (lit "|---|" :: map print_pipe_row rows ++ [[]]) ++ rest).
    cbn [between md_lines]. destruct (pipe_row_line header Hne) as (-> & -> & -> & ->).
    replace (print_pipe_row header :: (lit "|---|" :: map print_pipe_row rows ++ [[]]) ++ rest)
      with (lines ++ [] :: rest) by (unfold lines; cbn; by rewrite <- app_assoc).
    rewrite Hspan, flush_between. cbn [between md_out md_warnings]. by rewrite Hemit.
  - by apply wrote_table.
Qed.

Lemma block_step block rest out warnings items texts tables :
  block_ok block → wrote_items out texts tables →
  ∃ out' warnings',
    rtc step (between (render block ++ rest) out warnings items)
             (between rest out' warnings' (S items)) ∧
    wrote_items out' (texts ++ block_items page block) (tables ++ block_table_items page block).
Proof.
  destruct block; intros Hok Hout; cbn [block_items]; rewrite ?app_nil_r;
    try (unfold block_table_items; cbn [block_tables fmap list_fmap]; rewrite app_nil_r);
    by eauto using heading_step, paragraph_step, code_step, bullet_step, table_step.
Qed.

Lemma blocks_steps blocks out warnings items texts tables :
  Forall block_ok blocks → wrote_items out texts tables →
  ∃ out' warnings',
    rtc step (between (mjoin (render <$> blocks)) out warnings items)
             (between [] out' warnings' (items + length blocks)) ∧
    wrote_items out' (texts ++ mjoin (block_items page <$> blocks))
      (tables ++ mjoin (block_table_items page <$> blocks)).
Proof.
  intros Hok. revert out warnings items texts tables.
  induction Hok as [|block blocks Hblock _ IH]; intros out warnings items texts tables Hout.
  - exists out, warnings. rewrite !app_nil_r, Nat.add_0_r. done.
  - cbn [fmap list_fmap length]. change (mjoin (?x :: ?xs)) with (x ++ mjoin xs).
    destruct (block_step block (mjoin (render <$> blocks)) out warnings items texts tables Hblock Hout)
      as (out1 & warnings1 & Hsteps1 & Hout1).
    destruct (IH out1 warnings1 (S items) _ _ Hout1) as (out2 & warnings2 & Hsteps2 & Hout2).
    exists out2, warnings2. split.
    + etrans; [done|]. replace (items + S (length blocks))%nat with (S items + length blocks)%nat by lia.
      done.
    + by rewrite <- !app_assoc in Hout2.
Qed.
End Blocks.

(** * Properties *)

Lemma trim_join_nonblank lines :
  Exists nonblank lines → nonblank (join_nl lines).
Proof.
  unfold nonblank. induction lines as [|line lines IH]; intros H; [by inversion H|].
  destruct lines as [|line' lines].
  - apply Exists_cons in H as [H|H]; [done|by inversion H].
  - change (join_nl (line :: line' :: lines)) with (line ++ [c_nl] ++ join_nl (line' :: lines)).
    rewrite !trim_app_nil. apply Exists_cons in H as [H|H]; [tauto|]. apply IH in H. tauto.
Qed.

Lemma render_nonblank block : block_ok block → Exists nonblank (render block).
Proof.
  intros (_ & Hok). unfold nonblank. destruct block; cbn [render]; left.
  - destruct Hok as (Hlevel & Ht & Hne & Hl).
    destruct (heading_line level text Hlevel Ht Hne Hl) as (E & _).
    rewrite E.
    by destruct level; [lia|].
  - destruct Hok as (-> & ? & _). done.
  - destruct Hok as [Ht _]. by rewrite fence_line.
  - apply Forall_cons in Hok as [[Hne _] _].
    by destruct (pipe_row_line header Hne) as (-> & _).
  - destruct Hok as (Ht & Hne). by destruct (bullet_line text Ht Hne) as (-> & _).
Qed.

(** A pipe row reads back as the cells it was written from, pipes inside a
    cell escaped: a backslash-escaped pipe is never a column boundary. *)
Theorem pipe_row_roundtrip cells :
  cells ≠ [] → Forall trimmed cells → split_pipe_row (print_pipe_row cells) = cells.
Proof. apply split_print_pipe_row. Qed.

(** A response that is not blank always maps: the second error of
    [map_markdown] is never returned, and the first one exactly for a blank
    response. *)
Theorem map_markdown_total text page out warnings :
  if bool_decide (trim text = []) then
    map_markdown text page out warnings = MapFailed (lit "empty markdown response")
  else ∃ doc warnings', map_markdown text page out warnings = Mapped doc warnings'.
Proof.
  unfold map_markdown. case_bool_decide as Hblank; [done|].
  set (s0 := mk_MdState (split_lines text) [] out warnings 0).
  assert (Hpending : pending s0) by (right; right; by apply split_lines_nonblank).
  assert (Hend : pending (run_loop s0 (S (length (split_lines text))) (md_step page) s0) ∧
                 md_lines (run_loop s0 (S (length (split_lines text))) (md_step page) s0) = []).
  { apply (run_loop_spec pending (λ s, pending s ∧ md_lines s = []) (λ s, length (md_lines s)));
      [|done|cbn; lia].
    intros s Hs. pose proof (md_step_pending page s Hs) as H. revert H.
    destruct (md_step page s) as [s'|] eqn:E; [|done]. intros H. split; [done|].
    by apply (md_step_progress page). }
  revert Hend. generalize (run_loop s0 (S (length (split_lines text))) (md_step page) s0) as s.
  intros s ([Hs|[Hs|Hs]] & Hl).
  - rewrite bool_decide_false; [by eexists _, _|]. unfold flush_paragraph. case_match; cbn; lia.
  - unfold flush_paragraph. rewrite (bool_decide_false (trim _ = [])) by exact Hs. cbn. by eexists _, _.
  - rewrite Hl in Hs. by inversion Hs.
Qed.

(** C40: A page written as headings, paragraphs of one line, fenced code, pipe
    tables and bullets, each closed by a blank line, maps to exactly the items it
    was written from. The text items are, in page order, a section header with its
    level, a paragraph, a code item with its language and its lines, or a list item
    with its bullet as marker, each with the whole page as its box; the tables hold
    their rows, as far as the table caps keep them, the first as header; the body
    lists every text and then every table, each with its own ref and the body as
    parent; and there is no picture, group, field region or key-value item. It
    holds for texts that are trimmed, not empty and one line each, a heading of
    level 1 to 6 that does not end with a hash, a paragraph that does not start as
    another block, code without a fence line, and table rows of trimmed cells with
    at least one each. *)
Theorem map_markdown_roundtrip blocks page warnings :
  blocks ≠ [] → Forall block_ok blocks →
  ∃ doc warnings',
    map_markdown (join_nl (mjoin (render <$> blocks))) page Document_empty warnings =
      Mapped doc warnings' ∧
    item_page doc (mjoin (block_items page <$> blocks)) (mjoin (block_table_items page <$> blocks)).
Proof.
  intros Hne Hok. unfold map_markdown.
  assert (Hlines : Forall one_line (mjoin (render <$> blocks))).
  { clear -Hok. induction Hok as [|block blocks [Hb _] _ IH]; [constructor|].
    cbn [fmap list_fmap]. change (mjoin (?x :: ?xs)) with (x ++ mjoin xs). by apply Forall_app. }
  assert (Hnonblank : Exists nonblank (mjoin (render <$> blocks))).
  { destruct blocks as [|block blocks]; [done|]. apply Forall_cons in Hok as [Hb _].
    cbn [fmap list_fmap]. change (mjoin (?x :: ?xs)) with (x ++ mjoin xs).
    apply Exists_app. left. by apply render_nonblank. }
  rewrite bool_decide_false by (by apply trim_join_nonblank).
  rewrite split_lines_join; [|by intros E; rewrite E in Hnonblank; inversion Hnonblank|done].
  destruct (blocks_steps page blocks Document_empty warnings 0 [] [] Hok ltac:(done))
    as (out & warnings' & Hsteps & Hout).
  unfold run_loop. erewrite (loop_rtc (md_step page)); [|exact Hsteps|done|apply md_loop_total].
  change (default ?d (Some ?x)) with x. cbn [plus].
  rewrite flush_between. cbn [between md_items md_out md_warnings].
  rewrite bool_decide_false by (destruct blocks; [done|cbn; lia]).
  eexists _, _. split; [done|]. by apply finalize_wrote.
Qed.

(** * Concrete instances *)

Definition toy_page : PageContext :=
  mk_PageContext 1 100 200 [] CropBudget_default CollectorSource_empty None None.
Definition toy_blocks : list MdBlock :=
  [MdHeading 2 (lit "Title"); MdParagraph (lit "Some text"); MdCode (lit "c") [lit "int x;"; []];
   MdTable [lit "a"; lit "b|c"] [[lit "1"; []]]; MdBullet (lit "item")].

Lemma toy_blocks_ok : Forall block_ok toy_blocks.
Proof.
  assert (Hlines : ∀ lines, forallb (λ l, negb (contains_char c_nl l) && bool_decide (pop_cr l = l)) lines
    = true → Forall one_line lines).
  { intros lines H. apply Forall_forall. intros l Hl. rewrite forallb_forall in H.
    specialize (H l (proj1 (list_elem_of_In _ _) Hl)). apply andb_prop in H as [H1 H2%bool_decide_eq_true].
    split; [|done]. apply not_contains. by apply negb_true_iff. }
  unfold toy_blocks.
  repeat (apply Forall_cons; split; [split; [apply Hlines; vm_compute; reflexivity|]|]);
    [| | | | |done]; repeat constructor; done || lia.
Qed.

Lemma pipe_row_roundtrip_witness :
  split_pipe_row (lit "| a | b\|c |") = [lit "a"; lit "b|c"].
Proof. apply (pipe_row_roundtrip [lit "a"; lit "b|c"]); [done|by repeat constructor]. Defined.

Lemma map_markdown_roundtrip_witness :
  ∃ doc warnings',
    map_markdown (join_nl (mjoin (render <$> toy_blocks))) toy_page Document_empty (Some []) =
      Mapped doc warnings' ∧
    item_text <$> doc_texts doc =
      [lit "Title"; lit "Some text"; lit "int x;" ++ [c_nl]; lit "item"] ∧
    gi_children <$> doc_body doc =
      Some [lit "#/texts/0"; lit "#/texts/1"; lit "#/texts/2"; lit "#/texts/3"; lit "#/tables/0"].
Proof.
  destruct (map_markdown_roundtrip toy_blocks toy_page (Some []) ltac:(done) toy_blocks_ok)
    as (doc & warnings' & Hmap & [Htexts _ _ Hbody]).
  exists doc, warnings'. split; [exact Hmap|]. rewrite Htexts, Hbody. split; reflexivity.
Defined.
