(* ===== verification/Tree.v ===== *)
(** The fragment as a tree, independent of the mapper that builds it: every
    item is a root (a child of the body) or was adopted by a group that is a
    root.  The lemmas say how the builder's steps keep it one. *)
From S2P Require Import Prelude Numbers Double Proto ImageCrop Builder.

(** An item a group adopted: its parent is the group, whose children list
    it. *)
Definition adopted (doc : Document) (k : Kind) (i : nat) (r : bytes * option RefItem) : Prop :=
  ∃ g children, gi_children <$> doc_groups doc !! g = Some children ∧
    r = (body_child_ref k i, Some (body_child_ref GROUP g)) ∧
    body_child_ref k i ∈ children.

Record tree_inv (doc : Document) (roots : list BodyChild) : Prop := {
  tr_nodup : NoDup roots;
  tr_items : ∀ k i, mk_BodyChild k i ∈ roots → is_Some (item_refs doc k i);
  tr_parents : ∀ k i r, item_refs doc k i = Some r →
    mk_BodyChild k i ∈ roots ∨ k ≠ GROUP ∧ adopted doc k i r }.

(** The children of every group of [doc] are those of [doc']. *)
Definition same_groups (doc doc' : Document) : Prop :=
  ∀ g children, gi_children <$> doc_groups doc !! g = Some children →
    gi_children <$> doc_groups doc' !! g = Some children.

#[export] Instance same_groups_refl : Reflexive same_groups.
Proof. by intros doc g children. Qed.

Lemma adopted_same doc doc' k i r : same_groups doc doc' → adopted doc k i r → adopted doc' k i r.
Proof. intros Hg (g & children & Hc & -> & Hin). exists g, children. auto. Qed.

Lemma tree_inv_empty : tree_inv Document_empty [].
Proof.
  split; [constructor|by intros ?? ?%elem_of_nil|]. intros k i r. by destruct k.
Qed.

(** Changing what items hold, not their refs. *)
Lemma tree_same doc doc' roots :
  tree_inv doc roots → (∀ k i, item_refs doc' k i = item_refs doc k i) → same_groups doc doc' →
  tree_inv doc' roots.
Proof.
  intros [Hn Hi Hp] Hrefs Hg. split; [done| |].
  - intros k i Hin. rewrite Hrefs. by apply Hi.
  - intros k i r. rewrite Hrefs. intros [|[? Ha]]%Hp; [by left|].
    right. split; [done|]. by eapply adopted_same.
Qed.

Lemma tree_permute doc roots roots' :
  roots ≡ₚ roots' → tree_inv doc roots → tree_inv doc roots'.
Proof.
  intros Hperm [Hn Hi Hp]. split; [by rewrite <- Hperm| |].
  - intros k i. rewrite <- Hperm. apply Hi.
  - intros k i r Hr. rewrite <- Hperm. by apply Hp.
Qed.

(** A new item, listed as a root. *)
Lemma tree_append doc doc' roots k i :
  tree_inv doc roots → item_refs doc k i = None → is_Some (item_refs doc' k i) →
  (∀ k' i', mk_BodyChild k' i' ≠ mk_BodyChild k i → item_refs doc' k' i' = item_refs doc k' i') →
  same_groups doc doc' → tree_inv doc' (roots ++ [mk_BodyChild k i]).
Proof.
  intros [Hn Hi Hp] Hnone Hsome Hother Hg.
  assert (Hnew : mk_BodyChild k i ∉ roots).
  { intros Hin. apply Hi in Hin as [? Hin]. congruence. }
  split.
  - apply NoDup_app. split_and!; [done| |apply NoDup_singleton].
    intros c Hc ->%list_elem_of_singleton. done.
  - intros k' i' [Hin|Heq%list_elem_of_singleton]%elem_of_app; [|by injection Heq as -> ->].
    rewrite Hother; [by apply Hi|]. by intros [= -> ->].
  - intros k' i' r Hr. rewrite elem_of_app, list_elem_of_singleton.
    destruct (decide (mk_BodyChild k' i' = mk_BodyChild k i)) as [E|E]; [by left; right|].
    rewrite Hother in Hr by done. destruct (Hp k' i' r Hr) as [|[? Ha]]; [by left; left|].
    right. split; [done|]. by eapply adopted_same.
Qed.

(** A root that a group adopts is one no more. *)
Definition leaf_kind (k : Kind) : Prop := k = TEXT ∨ k = PICTURE ∨ k = TABLE.

Definition adopt_doc (group : nat) (child : BodyChild) (doc : Document) : Document :=
  alter_group (λ g, set_gi_children
      (gi_children g ++ [body_child_ref (bc_kind child) (bc_index child)]) g) group
    (stamp_child child (body_child_ref GROUP group) doc).

Lemma item_refs_alter_group_children f g doc k i :
  item_refs (alter_group (λ x, set_gi_children (f (gi_children x)) x) g doc) k i = item_refs doc k i.
Proof.
  destruct k; try done. cbn. destruct (decide (g = i)) as [->|].
  - rewrite list_lookup_alter_eq. by destruct (doc_groups doc !! i).
  - by rewrite list_lookup_alter_ne.
Qed.

Lemma groups_alter_children f g doc g' :
  gi_children <$> doc_groups (alter_group (λ x, set_gi_children (f (gi_children x)) x) g doc) !! g' =
  if decide (g = g') then f <$> (gi_children <$> doc_groups doc !! g')
  else gi_children <$> doc_groups doc !! g'.
Proof.
  cbn. case_decide as Hg; [subst|by rewrite list_lookup_alter_ne].
  rewrite list_lookup_alter_eq. by destruct (doc_groups doc !! g').
Qed.

Lemma groups_stamp_child child parent doc g :
  gi_children <$> doc_groups (stamp_child child parent doc) !! g = gi_children <$> doc_groups doc !! g.
Proof.
  destruct child as [[] i]; try done. unfold stamp_child. cbn.
  destruct (decide (i = g)) as [->|]; [|by rewrite list_lookup_alter_ne].
  rewrite list_lookup_alter_eq. by destruct (doc_groups doc !! g).
Qed.

Lemma tree_adopt doc child group l1 l2 :
  tree_inv doc (l1 ++ child :: l2) → leaf_kind (bc_kind child) →
  (group < length (doc_groups doc))%nat →
  tree_inv (adopt_doc group child doc) (l1 ++ l2).
Proof.
  intros Hinv Hleaf Hgroup. destruct child as [k i]. cbn in Hleaf.
  assert (Hinv' : tree_inv doc (mk_BodyChild k i :: l1 ++ l2)).
  { eapply tree_permute; [|done]. by rewrite Permutation_middle. }
  destruct Hinv' as [[Hnin Hn]%NoDup_cons Hi Hp].
  set (ref := body_child_ref k i).
  assert (Hrefs : ∀ k' i', item_refs (adopt_doc group (mk_BodyChild k i) doc) k' i' =
    if decide (mk_BodyChild k i = mk_BodyChild k' i')
    then (λ _, (body_child_ref k' i', Some (body_child_ref GROUP group))) <$> item_refs doc k' i'
    else item_refs doc k' i').
  { intros. unfold adopt_doc.
    rewrite (item_refs_alter_group_children (λ c, c ++ [ref])). apply item_refs_stamp_child. }
  assert (Hgroups : ∀ g, gi_children <$> doc_groups (adopt_doc group (mk_BodyChild k i) doc) !! g =
    if decide (group = g) then (λ c, c ++ [ref]) <$> (gi_children <$> doc_groups doc !! g)
    else gi_children <$> doc_groups doc !! g).
  { intros. unfold adopt_doc.
    rewrite (groups_alter_children (λ c, c ++ [ref])). by rewrite groups_stamp_child. }
  split; [done| |].
  - intros k' i' Hin. rewrite Hrefs. rewrite decide_False by (by intros [= -> ->]).
    apply Hi. by right.
  - intros k' i' r Hr. rewrite Hrefs in Hr. case_decide as Heq.
    + injection Heq as <- <-. destruct (item_refs doc k i) as [r0|]; [|done]. injection Hr as <-.
      right. split; [by destruct Hleaf as [-> | [-> | ->]]|].
      destruct (lookup_lt_is_Some_2 _ _ Hgroup) as [grp Hgrp].
      exists group, (gi_children grp ++ [ref]). split_and!; [|done|].
      * rewrite Hgroups, decide_True by done. by rewrite Hgrp.
      * apply elem_of_app. right. by apply list_elem_of_singleton.
    + destruct (Hp k' i' r Hr) as [[Heq'|?]%elem_of_cons|[Hk (g & children & Hc & -> & Hin)]].
      * by symmetry in Heq'.
      * by left.
      * right. split; [done|]. destruct (decide (group = g)) as [->|Hne].
        -- exists g, (children ++ [ref]). split_and!; [|done|by apply elem_of_app; left].
           rewrite Hgroups, decide_True by done. by rewrite Hc.
        -- exists g, children. split_and!; [|done|done]. by rewrite Hgroups, decide_False.
Qed.

(** * The finished fragment *)

Lemma groups_finalize page order doc g :
  gi_children <$> doc_groups (finalize_document page order doc) !! g =
  gi_children <$> doc_groups doc !! g.
Proof.
  pose proof (sc_groups _ _ (finalize_same_contents page order doc)) as H.
  apply (f_equal (lookup g)) in H. unfold contents in H. rewrite !list_lookup_fmap in H.
  destruct (doc_groups (finalize_document page order doc) !! g), (doc_groups doc !! g);
    cbn in H |- *; try done. injection H. congruence.
Qed.

(** Every item of the fragment has its own ref and one parent, which lists it:
    the body, or a group that the body lists. *)
Definition well_parented (doc : Document) (k : Kind) (i : nat) (r : bytes * option RefItem) : Prop :=
  r.1 = body_child_ref k i ∧
  (r.2 = Some kBodyRef ∧ body_child_ref k i ∈ default [] (gi_children <$> doc_body doc) ∨
   ∃ g children, r.2 = Some (body_child_ref GROUP g) ∧
     gi_children <$> doc_groups doc !! g = Some children ∧ body_child_ref k i ∈ children ∧
     item_refs doc GROUP g = Some (body_child_ref GROUP g, Some kBodyRef)).

Lemma ref_in_order k i order :
  body_child_ref k i ∈ map (λ c, body_child_ref (bc_kind c) (bc_index c)) order ↔
  mk_BodyChild k i ∈ order.
Proof.
  rewrite list_elem_of_In, in_map_iff. split.
  - intros ([k' i'] & E & Hin). cbn in E. apply body_child_ref_inj in E as [-> ->].
    by apply list_elem_of_In.
  - intros Hin. exists (mk_BodyChild k i). by rewrite <- list_elem_of_In.
Qed.

Lemma finalize_tree page order doc k i r :
  tree_inv doc order → doc_body doc = None →
  item_refs (finalize_document page order doc) k i = Some r →
  well_parented (finalize_document page order doc) k i r.
Proof.
  intros Hinv Hbody Hr.
  assert (Hchildren : default [] (gi_children <$> doc_body (finalize_document page order doc)) =
    map (λ c, body_child_ref (bc_kind c) (bc_index c)) order).
  { rewrite finalize_children, Hbody. done. }
  unfold well_parented. rewrite Hchildren, ref_in_order.
  rewrite item_refs_finalize in Hr. case_decide as Hin.
  - destruct (item_refs doc k i); [|done]. injection Hr as <-. cbn. auto.
  - destruct (tr_parents _ _ Hinv k i r Hr) as [|[_ (g & children & Hc & -> & Hch)]]; [done|].
    split; [done|]. right. exists g, children. rewrite groups_finalize. split_and!; try done.
    assert (Hg : is_Some (item_refs doc GROUP g)) by (cbn; destruct (doc_groups doc !! g); [done|done]).
    destruct Hg as [rg Hg]. rewrite item_refs_finalize, Hg.
    rewrite decide_True; [done|]. by destruct (tr_parents _ _ Hinv GROUP g rg Hg) as [|[]].
Qed.

Lemma body_children_nodup order :
  NoDup order → NoDup (map (λ c, body_child_ref (bc_kind c) (bc_index c)) order).
Proof.
  intros H. induction H as [|c order Hc _ IH]; [constructor|].
  cbn [map]. constructor; [|done]. destruct c as [k i]. cbn [bc_kind bc_index].
  by intros ?%ref_in_order.
Qed.
