(* ===== verification/DoctagsItems.v ===== *)
(** The items of the DocTags mapper (src/mapping/doctags.cpp): locations, token
    text, classification and language labels, and the emit functions that turn a
    parsed element or a container chunk into Document items. *)
From S2P Require Import Prelude Numbers Double Proto ImageCrop Builder OtslGrid.

Definition kLocGrid : double := of_Z 500.
Definition kCreatedBy : bytes := lit "load_from_doctags".

(** What one page's mapping carries beside the Document. *)
Record PageState := mk_PageState {
  ps_raster : PageRaster; ps_warnings : Warnings;
  crops_over_budget : nat; crops_over_bytes : nat; crops_too_large : nat }.

Record Element := mk_Element {
  el_name : bytes; el_locs : list Z; el_text : bytes; el_otsl : bytes;
  el_class_tags : list bytes; el_has_caption : bool; el_caption_locs : list Z;
  el_caption_text : bytes }.
Definition Element_empty : Element := mk_Element [] [] [] [] [] false [] [].

(** * Locations and token text *)

Definition locs_box (locs : list Z) (page : PageContext) : BoundingBox :=
  match locs with
  | l0 :: l1 :: l2 :: l3 :: _ =>
      if (page_width page =? 0) || (page_height page =? 0) then full_page_box page else
      mk_BoundingBox
        (dmul (ddiv (of_Z l0) kLocGrid) (of_Z (page_width page)))
        (dmul (ddiv (of_Z l1) kLocGrid) (of_Z (page_height page)))
        (dmul (ddiv (of_Z l2) kLocGrid) (of_Z (page_width page)))
        (dmul (ddiv (of_Z l3) kLocGrid) (of_Z (page_height page)))
        COORD_ORIGIN_TOPLEFT
  | _ => full_page_box page
  end.

Definition prov_with_charspan (page : PageContext) (box : BoundingBox) (start stop : Z)
  : ProvenanceItem := set_pi_charspan (Some (start, stop)) (make_prov page box).

(** UTF-8 lead bytes. *)
Definition char_length (text : bytes) : Z :=
  Z.of_nat (length (filter (λ c, Z.land (code c) 192 ≠ 128) text)).

Definition is_container (tag : bytes) : bool :=
  (tag =b lit "picture") || (tag =b lit "chart") || (tag =b lit "table") || (tag =b lit "otsl").
Definition is_group_container (tag : bytes) : bool :=
  (tag =b lit "ordered_list") || (tag =b lit "unordered_list") || (tag =b lit "inline") ||
  (tag =b lit "key_value_region").

Definition first_locs_step (chunk : bytes) (st : nat * list Z) : nat * list Z + list Z :=
  let '(pos, locs) := st in
  if negb (bool_decide (length locs < 4)%nat) then inr locs else
  match find (lit "<loc_") chunk pos with
  | None => inr locs
  | Some open =>
      match find_char ">"%char chunk open with
      | None => inr locs
      | Some gt =>
          inl ((gt + 1)%nat,
               match stol (substr chunk (open + 5) (gt - open - 5)) with
               | Some loc => locs ++ [loc]
               | None => locs
               end)
      end
  end.
Definition first_locs (chunk : bytes) : list Z :=
  run_loop [] (S (length chunk)) (first_locs_step chunk) (0%nat, []).

(** Drops every "<...>" token [keep] refuses. *)
Definition strip_tokens_step (keep : bytes → bool) (chunk : bytes) (st : nat * bytes)
  : nat * bytes + bytes :=
  let '(pos, out) := st in
  if negb (bool_decide (pos < length chunk)%nat) then inr out else
  match find_char "<"%char chunk pos with
  | None => inr (out ++ substr_from chunk pos)
  | Some open =>
      match find_char ">"%char chunk open with
      | None => inr (out ++ substr_from chunk pos)
      | Some gt =>
          let token := substr chunk (open + 1) (gt - open - 1) in
          let out := out ++ substr chunk pos (open - pos) in
          inl ((gt + 1)%nat, if keep token then out ++ substr chunk open (gt - open + 1) else out)
      end
  end.
Definition strip_tokens (keep : bytes → bool) (chunk : bytes) : bytes :=
  run_loop [] (S (length chunk)) (strip_tokens_step keep chunk) (0%nat, []).

(** The tokens [inner_text] keeps: empty ones, "_..._", and a '<' that opens
    no tag. *)
Definition keep_inner (token : bytes) : bool :=
  bool_decide (token = []) ||
  (head_is (Ascii.eqb "_"%char) token && ends_with (lit "_") token) ||
  (negb (head_is isalpha token) && negb (head_is (Ascii.eqb "/"%char) token)).
Definition inner_text (chunk : bytes) : bytes := trim (strip_tokens keep_inner chunk).

(** The tokens [clean_cell_text] keeps: all but loc_* and link_*. *)
Definition keep_cell (token : bytes) : bool :=
  negb (starts_with (lit "loc_") token || starts_with (lit "link_") token).
Definition clean_cell_text (content : bytes) : bytes := trim (strip_tokens keep_cell content).

Definition link_targets_step (content : bytes) (st : nat * list Z) : nat * list Z + list Z :=
  let '(pos, targets) := st in
  if negb (bool_decide (pos < length content)%nat) then inr targets else
  match find (lit "<link_") content pos with
  | None => inr targets
  | Some open =>
      match find_char ">"%char content open with
      | None => inr targets
      | Some gt =>
          inl ((gt + 1)%nat,
               match stoi (substr content (open + 6) (gt - open - 6)) with
               | Some target => targets ++ [target]
               | None => targets
               end)
      end
  end.
Definition link_targets (content : bytes) : list Z :=
  run_loop [] (S (length content)) (link_targets_step content) (0%nat, []).

(** * Labels *)

Definition kClassificationLabels : list (bytes * bytes) :=
  [(lit "logo", lit "logo"); (lit "photograph", lit "photograph"); (lit "icon", lit "icon");
   (lit "engineering_drawing", lit "engineering_drawing"); (lit "line_chart", lit "line_chart");
   (lit "bar_chart", lit "bar_chart"); (lit "other", lit "other"); (lit "table", lit "table");
   (lit "flow_chart", lit "flow_chart");
   (lit "screenshot_from_computer", lit "screenshot_from_computer");
   (lit "signature", lit "signature");
   (lit "screenshot_from_manual", lit "screenshot_from_manual");
   (lit "geographical_map", lit "geographical_map"); (lit "pie_chart", lit "pie_chart");
   (lit "page_thumbnail", lit "page_thumbnail"); (lit "stamp", lit "stamp");
   (lit "music", lit "music"); (lit "calendar", lit "calendar"); (lit "qr_code", lit "qr_code");
   (lit "bar_code", lit "bar_code"); (lit "full_page_image", lit "full_page_image");
   (lit "scatter_plot", lit "scatter_plot");
   (lit "chemistry_structure", lit "chemistry_structure");
   (lit "topographical_map", lit "topographical_map");
   (lit "crossword_puzzle", lit "crossword_puzzle"); (lit "box_plot", lit "box_plot");
   (lit "stacked_bar_chart", lit "stacked_bar_chart");
   (lit "scatter_chart", lit "scatter_chart"); (lit "heatmap", lit "heatmap");
   (lit "natural_image", lit "natural_image"); (lit "remote_sensing", lit "remote_sensing");
   (lit "screenshot", lit "screenshot");
   (lit "chemistry_molecular_structure", lit "chemistry_molecular_structure");
   (lit "chemistry_markush_structure", lit "chemistry_markush_structure");
   (lit "picture_group", lit "picture_group"); (lit "line", lit "line_chart");
   (lit "dot_line", lit "line_chart"); (lit "vbar_categorical", lit "bar_chart");
   (lit "hbar_categorical", lit "bar_chart")].

Definition is_classification_tag (token : bytes) : bool :=
  existsb (λ label, token =b label.1) kClassificationLabels.
(** The first label of the list that was seen, not the first seen. *)
Fixpoint pick_label (labels : list (bytes * bytes)) (seen : list bytes) : bytes :=
  match labels with
  | [] => []
  | (tag, mapped) :: labels' =>
      if bool_decide (tag ∈ seen) then mapped else pick_label labels' seen
  end.
Definition pick_classification (seen : list bytes) : bytes := pick_label kClassificationLabels seen.

Definition kLanguages : list (bytes * CodeLanguageLabel) :=
  [(lit "Ada", CODE_LANGUAGE_LABEL_ADA); (lit "Awk", CODE_LANGUAGE_LABEL_AWK);
   (lit "Bash", CODE_LANGUAGE_LABEL_BASH); (lit "bc", CODE_LANGUAGE_LABEL_BC);
   (lit "C", CODE_LANGUAGE_LABEL_C); (lit "C#", CODE_LANGUAGE_LABEL_C_SHARP);
   (lit "C++", CODE_LANGUAGE_LABEL_C_PLUS_PLUS); (lit "CMake", CODE_LANGUAGE_LABEL_CMAKE);
   (lit "COBOL", CODE_LANGUAGE_LABEL_COBOL); (lit "CSS", CODE_LANGUAGE_LABEL_CSS);
   (lit "Ceylon", CODE_LANGUAGE_LABEL_CEYLON); (lit "Clojure", CODE_LANGUAGE_LABEL_CLOJURE);
   (lit "Crystal", CODE_LANGUAGE_LABEL_CRYSTAL); (lit "Cuda", CODE_LANGUAGE_LABEL_CUDA);
   (lit "Cython", CODE_LANGUAGE_LABEL_CYTHON); (lit "D", CODE_LANGUAGE_LABEL_D);
   (lit "Dart", CODE_LANGUAGE_LABEL_DART); (lit "dc", CODE_LANGUAGE_LABEL_DC);
   (lit "Dockerfile", CODE_LANGUAGE_LABEL_DOCKERFILE);
   (lit "DocLang", CODE_LANGUAGE_LABEL_DOCLANG); (lit "Elixir", CODE_LANGUAGE_LABEL_ELIXIR);
   (lit "Erlang", CODE_LANGUAGE_LABEL_ERLANG); (lit "FORTRAN", CODE_LANGUAGE_LABEL_FORTRAN);
   (lit "Forth", CODE_LANGUAGE_LABEL_FORTH); (lit "Go", CODE_LANGUAGE_LABEL_GO);
   (lit "HTML", CODE_LANGUAGE_LABEL_HTML); (lit "Haskell", CODE_LANGUAGE_LABEL_HASKELL);
   (lit "Haxe", CODE_LANGUAGE_LABEL_HAXE); (lit "Java", CODE_LANGUAGE_LABEL_JAVA);
   (lit "JavaScript", CODE_LANGUAGE_LABEL_JAVASCRIPT); (lit "JSON", CODE_LANGUAGE_LABEL_JSON);
   (lit "Julia", CODE_LANGUAGE_LABEL_JULIA); (lit "Kotlin", CODE_LANGUAGE_LABEL_KOTLIN);
   (lit "Latex", CODE_LANGUAGE_LABEL_LATEX); (lit "Lisp", CODE_LANGUAGE_LABEL_LISP);
   (lit "Lua", CODE_LANGUAGE_LABEL_LUA); (lit "Matlab", CODE_LANGUAGE_LABEL_MATLAB);
   (lit "MoonScript", CODE_LANGUAGE_LABEL_MOONSCRIPT); (lit "Nim", CODE_LANGUAGE_LABEL_NIM);
   (lit "OCaml", CODE_LANGUAGE_LABEL_OCAML); (lit "ObjectiveC", CODE_LANGUAGE_LABEL_OBJECTIVEC);
   (lit "Octave", CODE_LANGUAGE_LABEL_OCTAVE); (lit "PHP", CODE_LANGUAGE_LABEL_PHP);
   (lit "Pascal", CODE_LANGUAGE_LABEL_PASCAL); (lit "Perl", CODE_LANGUAGE_LABEL_PERL);
   (lit "Prolog", CODE_LANGUAGE_LABEL_PROLOG); (lit "Python", CODE_LANGUAGE_LABEL_PYTHON);
   (lit "Racket", CODE_LANGUAGE_LABEL_RACKET); (lit "Ruby", CODE_LANGUAGE_LABEL_RUBY);
   (lit "Rust", CODE_LANGUAGE_LABEL_RUST); (lit "SML", CODE_LANGUAGE_LABEL_SML);
   (lit "SQL", CODE_LANGUAGE_LABEL_SQL); (lit "Scala", CODE_LANGUAGE_LABEL_SCALA);
   (lit "Scheme", CODE_LANGUAGE_LABEL_SCHEME); (lit "Swift", CODE_LANGUAGE_LABEL_SWIFT);
   (lit "Tikz", CODE_LANGUAGE_LABEL_TIKZ); (lit "TypeScript", CODE_LANGUAGE_LABEL_TYPESCRIPT);
   (lit "VisualBasic", CODE_LANGUAGE_LABEL_VISUALBASIC); (lit "XML", CODE_LANGUAGE_LABEL_XML);
   (lit "YAML", CODE_LANGUAGE_LABEL_YAML)].
Fixpoint find_language (languages : list (bytes * CodeLanguageLabel)) (raw : bytes)
  : CodeLanguageLabel :=
  match languages with
  | [] => CODE_LANGUAGE_LABEL_UNKNOWN
  | (name, label) :: languages' => if raw =b name then label else find_language languages' raw
  end.
Definition code_language_of (raw : bytes) : CodeLanguageLabel := find_language kLanguages raw.

(** * Emitting items *)

(** What the emit functions write: the Document, the body order, the page
    state. *)
Record Emission := mk_Emission {
  em_doc : Document; em_order : list BodyChild; em_state : PageState }.
Definition set_em_doc (doc : Document) (em : Emission) : Emission :=
  mk_Emission doc (em_order em) (em_state em).
Definition push_order (child : BodyChild) (em : Emission) : Emission :=
  mk_Emission (em_doc em) (em_order em ++ [child]) (em_state em).
Definition set_em_state (state : PageState) (em : Emission) : Emission :=
  mk_Emission (em_doc em) (em_order em) state.
Definition warn (f : Warnings → Warnings) (state : PageState) : PageState :=
  mk_PageState (ps_raster state) (f (ps_warnings state)) (crops_over_budget state)
    (crops_over_bytes state) (crops_too_large state).

(** A text item and its place in the body. *)
Definition emit_text (add : Document → Document) (em : Emission) : Emission :=
  let doc := add (em_doc em) in
  push_order (mk_BodyChild TEXT (texts_size doc - 1)) (set_em_doc doc em).

Definition emit_caption (element : Element) (page : PageContext) (em : Emission)
  : option nat * Emission :=
  if negb (el_has_caption element) then (None, em) else
  let text := trim (el_caption_text element) in
  let prov := prov_with_charspan page (locs_box (el_caption_locs element) page) 0 (char_length text) in
  let em := emit_text (add_text page DOC_ITEM_LABEL_CAPTION prov text) em in
  (Some (texts_size (em_doc em) - 1)%nat, em).

Definition meta_of (picture : PictureItem) : PictureMeta := default PictureMeta_empty (pc_meta picture).
Definition add_annotation (annotation : PictureAnnotation) (picture : PictureItem) : PictureItem :=
  set_pc_annotations (pc_annotations picture ++ [annotation]) picture.

Definition describe (description : bytes) (picture : PictureItem) : PictureItem :=
  if bool_decide (description = []) then picture else
  add_annotation (AnnotationDescription (lit "description") description kCreatedBy)
    (set_pc_meta (Some (set_pm_description (Some (mk_DescriptionMetaField description kCreatedBy))
                          (meta_of picture))) picture).
Definition classify (classification : bytes) (picture : PictureItem) : PictureItem :=
  if bool_decide (classification = []) then picture else
  add_annotation (AnnotationClassification (lit "classification") kCreatedBy [classification])
    (set_pc_meta (Some (set_pm_classification
       (Some (default [] (pm_classification (meta_of picture)) ++
              [mk_ClassificationPrediction classification kCreatedBy])) (meta_of picture))) picture).
Definition chart (title : bytes) (chart_data : TableData) (picture : PictureItem) : PictureItem :=
  add_annotation (AnnotationTabularChart (lit "tabular_chart_data") title chart_data)
    (set_pc_meta (Some (set_pm_tabular_chart
       (Some (mk_TabularChartMetaField (Some title) None chart_data)) (meta_of picture))) picture).

(** The outcome of one crop on the page state. *)
Definition count_crop (raster : PageRaster) (result : Crop) (state : PageState) : PageState :=
  mk_PageState raster (ps_warnings state)
    (crops_over_budget state + (if bool_decide (result = kOverBudget) then 1 else 0))
    (crops_over_bytes state + (if bool_decide (result = kOverByteCap) then 1 else 0))
    (crops_too_large state + (if bool_decide (result = kRasterTooLarge) then 1 else 0)).

Section Emit.
Context `{ProtobufSize} `{Stb}.
Variable page : PageContext.

Definition add_caption_ref (caption_index : option nat) (captions : list RefItem) : list RefItem :=
  match caption_index with
  | Some i => captions ++ [body_child_ref TEXT i]
  | None => captions
  end.

Definition update_picture (index : nat) (f : PictureItem → PictureItem) (em : Emission) : Emission :=
  set_em_doc (alter_picture f index (em_doc em)) em.
Definition update_table (index : nat) (f : TableItem → TableItem) (em : Emission) : Emission :=
  set_em_doc (alter_table f index (em_doc em)) em.

(** The embedded OTSL of a chart, as its data. *)
Definition emit_chart (element : Element) (classification : bytes) (index : nat) (em : Emission)
  : Emission :=
  if (el_name element =b lit "chart") && negb (bool_decide (el_otsl element = [])) then
    let '(ok, chart_data, cut) := parse_otsl_grid (el_otsl element) in
    if ok then
      let state := warn (note_table_cut cut chart_data (lit "chart data")
                           (body_child_ref PICTURE index)) (em_state em) in
      let title := if bool_decide (classification = []) then lit "other" else classification in
      update_picture index (chart title chart_data) (set_em_state state em)
    else em
  else em.

(** The region crop, and what a refused one is counted as. *)
Definition emit_crop (element : Element) (box : BoundingBox) (index : nat) (em : Emission)
  : Emission :=
  if negb (bool_decide (page_png page = [])) && bool_decide (4 ≤ length (el_locs element))%nat then
    let '(result, image, raster) :=
      crop (ps_raster (em_state em)) (bb_l box) (bb_t box) (bb_r box) (bb_b box) in
    let em := set_em_state (count_crop raster result (em_state em)) em in
    match image with
    | Some image => update_picture index (set_pc_image (Some image)) em
    | None => em
    end
  else em.

Definition emit_picture (element : Element) (em : Emission) : bool * Emission :=
  let box := locs_box (el_locs element) page in
  let '(caption_index, em) := emit_caption element page em in
  let doc := add_picture page (prov_with_charspan page box 0 0) (em_doc em) in
  let index := (pictures_size doc - 1)%nat in
  let em := push_order (mk_BodyChild PICTURE index) (set_em_doc doc em) in
  let em := update_picture index (λ picture,
    set_pc_captions (add_caption_ref caption_index (pc_captions picture)) picture) em in
  let em := update_picture index (describe (trim (el_text element))) em in
  let classification := pick_classification (el_class_tags element) in
  let em := update_picture index (classify classification) em in
  (true, emit_crop element box index (emit_chart element classification index em)).

Definition emit_table (element : Element) (text : bytes) (em : Emission) : bool * Emission :=
  let '(caption_index, em) := emit_caption element page em in
  let prov := prov_with_charspan page (locs_box (el_locs element) page) 0 0 in
  let doc := add_table page prov (em_doc em) in
  let index := (tables_size doc - 1)%nat in
  let em := push_order (mk_BodyChild TABLE index) (set_em_doc doc em) in
  let em := update_table index (λ table,
    set_ti_captions (add_caption_ref caption_index (ti_captions table)) table) em in
  let body := if (el_name element =b lit "otsl") && bool_decide (el_otsl element = []) then text
              else el_otsl element in
  if bool_decide (body = []) then (true, em) else
  let '(_, data, cut) := parse_otsl_grid body in
  let em := update_table index (set_ti_data (Some data)) em in
  (true, set_em_state (warn (note_table_cut cut data (lit "table") (body_child_ref TABLE index))
                         (em_state em)) em).

(** The leading "<_language_>" token of a code element: the raw language
    and the code after it. *)
Definition code_body (text : bytes) : CodeLanguageLabel * bytes * bytes :=
  if starts_with (lit "<_") text then
    match find (lit "_>") text 2 with
    | Some stop =>
        let language_raw := substr text 2 (stop - 2) in
        (code_language_of language_raw, language_raw, substr_from text (stop + 2))
    | None => (CODE_LANGUAGE_LABEL_UNKNOWN, [], text)
    end
  else (CODE_LANGUAGE_LABEL_UNKNOWN, [], text).
Definition set_code_language (language : CodeLanguageLabel) (item : BaseTextItem) : BaseTextItem :=
  match item with
  | kCode c => kCode (set_ci_code_language (Some language) c)
  | _ => item
  end.
(** Applies [f] to the item [add] appends. *)
Definition add_then (add : Document → Document) (f : BaseTextItem → BaseTextItem) (doc : Document)
  : Document :=
  let doc := add doc in alter_text f (texts_size doc - 1) doc.
Definition map_base (f : TextItemBase → TextItemBase) (item : BaseTextItem) : BaseTextItem :=
  match item with
  | kText base => kText (f base)
  | _ => item
  end.

Definition header_level (tag : bytes) : Z :=
  match stoi (substr_from tag 21) with
  | Some level => Z.max 1 level
  | None => 1
  end.

Definition emit_element (element : Element) (forced_box : option BoundingBox) (em : Emission)
  : bool * Emission :=
  let text := trim (el_text element) in
  let box := match forced_box with Some box => box | None => locs_box (el_locs element) page end in
  let prov := prov_with_charspan page box 0 (char_length text) in
  let tag := el_name element in
  let labelled label := (true, emit_text (add_text page label prov text) em) in
  if tag =b lit "title" then (true, emit_text (add_title page prov text) em)
  else if starts_with (lit "section_header_level_") tag then
    (true, emit_text (add_section_header page (header_level tag) prov text) em)
  else if starts_with (lit "subtitle-level_") tag then
    (true, emit_text (add_section_header page 1 prov text) em)
  else if tag =b lit "list_item" then
    (true, emit_text (add_list_item page prov text false []) em)
  else if tag =b lit "code" then
    let '(language, language_raw, body) := code_body text in
    (true, emit_text (add_then (add_code page prov body language_raw) (set_code_language language)) em)
  else if tag =b lit "formula" then (true, emit_text (add_formula page prov text) em)
  else if (tag =b lit "picture") || (tag =b lit "chart") then emit_picture element em
  else if (tag =b lit "table") || (tag =b lit "otsl") then emit_table element text em
  else if (tag =b lit "page_header") || (tag =b lit "page_footer") then
    (true, emit_text (add_then
      (add_text page (if tag =b lit "page_header" then DOC_ITEM_LABEL_PAGE_HEADER
                      else DOC_ITEM_LABEL_PAGE_FOOTER) prov text)
      (map_base (set_tb_content_layer CONTENT_LAYER_FURNITURE))) em)
  else if tag =b lit "footnote" then labelled DOC_ITEM_LABEL_FOOTNOTE
  else if tag =b lit "caption" then labelled DOC_ITEM_LABEL_CAPTION
  else if tag =b lit "checkbox_selected" then labelled DOC_ITEM_LABEL_CHECKBOX_SELECTED
  else if tag =b lit "checkbox_unselected" then labelled DOC_ITEM_LABEL_CHECKBOX_UNSELECTED
  else if tag =b lit "document_index" then labelled DOC_ITEM_LABEL_DOCUMENT_INDEX
  else if (tag =b lit "text") || (tag =b lit "paragraph") then labelled DOC_ITEM_LABEL_TEXT
  else if bool_decide (text = []) && bool_decide (el_otsl element = []) then (false, em)
  else
    (true, emit_text (add_then (add_text page DOC_ITEM_LABEL_TEXT prov text)
                        (map_base (set_tb_label_raw (Some tag)))) em).

(** * Container chunks *)

(** The local state of the cell loop of [emit_key_value_region]. *)
Record KvState := mk_KvState {
  kvs_pos : nat; kvs_cells : list GraphCell; kvs_raw_links : list (Z * Z) }.

(** The next cell opener: its position and whether it is a key. *)
Definition next_cell (chunk : bytes) (pos : nat) : option (nat * bool) :=
  match find (lit "<key_") chunk pos, find (lit "<value_") chunk pos with
  | Some key_pos, Some value_pos =>
      if bool_decide (key_pos < value_pos)%nat then Some (key_pos, true) else Some (value_pos, false)
  | Some key_pos, None => Some (key_pos, true)
  | None, Some value_pos => Some (value_pos, false)
  | None, None => None
  end.

Definition locs_prov (content : bytes) : option ProvenanceItem :=
  let locs := first_locs content in
  if bool_decide (length locs = 4)%nat
  then Some (prov_with_charspan page (locs_box locs page) 0 0) else None.

Definition graph_cell (is_key : bool) (cell_id : Z) (content : bytes) : GraphCell :=
  let text := clean_cell_text content in
  mk_GraphCell (if is_key then GRAPH_CELL_LABEL_KEY else GRAPH_CELL_LABEL_VALUE) cell_id text text
    (locs_prov content).

Definition kv_step (chunk : bytes) (s : KvState) : KvState + KvState :=
  if negb (bool_decide (kvs_pos s < length chunk)%nat) then inr s else
  match next_cell chunk (kvs_pos s) with
  | None => inr s
  | Some (open, is_key) =>
      let id_start := (open + if is_key then 5 else 7)%nat in
      match find_char ">"%char chunk id_start with
      | None => inr s
      | Some gt =>
          match stoi (substr chunk id_start (gt - id_start)) with
          | None => inl (mk_KvState (gt + 1) (kvs_cells s) (kvs_raw_links s))
          | Some cell_id =>
              let close_tag := (if is_key then lit "</key_" else lit "</value_") ++
                               to_string cell_id ++ lit ">" in
              match find close_tag chunk (gt + 1) with
              | None => inl (mk_KvState (gt + 1) (kvs_cells s) (kvs_raw_links s))
              | Some stop =>
                  let content := substr chunk (gt + 1) (stop - gt - 1) in
                  inl (mk_KvState (stop + length close_tag)
                         (kvs_cells s ++ [graph_cell is_key cell_id content])
                         (kvs_raw_links s ++ map (pair cell_id) (link_targets content)))
              end
          end
      end
  end.

(** The position after the container's opening tag. *)
Definition head_start_of (chunk : bytes) : nat :=
  match find_char ">"%char chunk 0 with Some gt => gt + 1 | None => 0 end.

Definition kv_graph_of (chunk : bytes) : GraphData :=
  let s0 := mk_KvState (head_start_of chunk) [] [] in
  let s := run_loop s0 (S (length chunk)) (kv_step chunk) s0 in
  let cell_ids := gc_cell_id <$> kvs_cells s in
  mk_GraphData (kvs_cells s)
    ((λ link, mk_GraphLink GRAPH_LINK_LABEL_TO_VALUE link.1 link.2) <$>
       filter (λ link, link.2 ∈ cell_ids) (kvs_raw_links s)).

Definition emit_key_value_region (chunk : bytes) (em : Emission) : bool * Emission :=
  let head_start := head_start_of chunk in
  let prov :=
    match find (lit "<key_") chunk head_start with
    | Some first_key =>
        match locs_prov (substr chunk head_start (first_key - head_start)) with
        | Some prov => [prov]
        | None => []
        end
    | None => []
    end in
  let kv := mk_KeyValueItem [] None CONTENT_LAYER_BODY DOC_ITEM_LABEL_KEY_VALUE_REGION prov
              (Some (kv_graph_of chunk)) (add_sources page) in
  let doc := set_doc_key_value_items (doc_key_value_items (em_doc em) ++ [kv]) (em_doc em) in
  (true, push_order (mk_BodyChild KEY_VALUE (key_value_items_size doc - 1)) (set_em_doc doc em)).

(** A group appended to the Document, listed in the body. *)
Definition open_group (name : bytes) (label : GroupLabel) (em : Emission) : Emission :=
  let doc := set_doc_groups (doc_groups (em_doc em) ++
    [mk_GroupItem [] None [] CONTENT_LAYER_BODY None (Some name) label]) (em_doc em) in
  push_order (mk_BodyChild GROUP (groups_size doc - 1)) (set_em_doc doc em).
(** An item parented to the group, and its ref in the group's children. *)
Definition adopt (group : nat) (child : BodyChild) (em : Emission) : Emission :=
  let doc := match bc_kind child with
    | TEXT | PICTURE | TABLE => stamp_child child (body_child_ref GROUP group) (em_doc em)
    | _ => em_doc em
    end in
  set_em_doc (alter_group (λ g, set_gi_children
    (gi_children g ++ [body_child_ref (bc_kind child) (bc_index child)]) g) group doc) em.

Definition list_step (chunk : bytes) (ordered : bool) (group : nat) (st : nat * Z * Emission)
  : nat * Z * Emission + Emission :=
  let '(pos, enum_value, em) := st in
  if negb (bool_decide (pos < length chunk)%nat) then inr em else
  match find (lit "<list_item>") chunk pos with
  | None => inr em
  | Some open =>
      let content_start := (open + 11)%nat in
      match find (lit "</list_item>") chunk content_start with
      | None => inr em
      | Some stop =>
          let content := substr chunk content_start (stop - content_start) in
          let enum_value := enum_value + 1 in
          let text := inner_text content in
          let marker := if ordered then to_string enum_value ++ lit "." else [] in
          let prov := prov_with_charspan page (locs_box (first_locs content) page) 0
                        (char_length text) in
          let doc := add_list_item page prov text ordered marker (em_doc em) in
          let em := adopt group (mk_BodyChild TEXT (texts_size doc - 1)) (set_em_doc doc em) in
          inl ((stop + 12)%nat, enum_value, em)
      end
  end.
Definition emit_list_group (chunk : bytes) (ordered : bool) (em : Emission) : bool * Emission :=
  let em := open_group (lit "list") GROUP_LABEL_LIST em in
  let group := (groups_size (em_doc em) - 1)%nat in
  (true, run_loop em (S (length chunk)) (list_step chunk ordered group) (0%nat, 0, em)).

(** The text between the opening tag and the last close. *)
Definition inline_content (chunk : bytes) : bytes :=
  let content_start := head_start_of chunk in
  match rfind (lit "</inline>") chunk with
  | None => substr_from chunk content_start
  | Some close =>
      if bool_decide (close < content_start)%nat then substr_from chunk content_start
      else substr chunk content_start (close - content_start)
  end.

(** A '<' that can open a tag: a letter, '/' or '_' follows. *)
Definition opens_markup (text : bytes) (open : nat) : bool :=
  char_at text (open + 1) (λ c, isalpha c || (c =c "/"%char) || (c =c "_"%char)).

(** The children [emit_element] listed are parented to the group instead. *)
Definition emit_inline_child (box : BoundingBox) (group : nat) (token child_chunk : bytes)
    (em : Emission) : Emission :=
  let child := mk_Element token [] (inner_text child_chunk) [] [] false [] [] in
  let '(ok, emitted) := emit_element child (Some box) (mk_Emission (em_doc em) [] (em_state em)) in
  if negb ok then em else
  foldl (λ em emitted, adopt group emitted em)
    (mk_Emission (em_doc emitted) (em_order em) (em_state emitted)) (em_order emitted).

Definition inline_step (content : bytes) (box : BoundingBox) (group : nat) (st : nat * Emission)
  : nat * Emission + Emission :=
  let '(pos, em) := st in
  if negb (bool_decide (pos < length content)%nat) then inr em else
  match find_char "<"%char content pos with
  | None => inr em
  | Some open =>
      if negb (opens_markup content open) then inl ((open + 1)%nat, em) else
      match find_char ">"%char content open with
      | None => inr em
      | Some gt =>
          let token := substr content (open + 1) (gt - open - 1) in
          let pos := (gt + 1)%nat in
          if bool_decide (token = []) || head_is (Ascii.eqb "/"%char) token ||
             head_is (Ascii.eqb "_"%char) token || starts_with (lit "loc_") token
          then inl (pos, em) else
          let close_tag := lit "</" ++ token ++ lit ">" in
          match find close_tag content pos with
          | None => inl (pos, em)
          | Some stop =>
              let child_chunk := substr content open (stop + length close_tag - open) in
              inl ((stop + length close_tag)%nat,
                   emit_inline_child box group token child_chunk em)
          end
      end
  end.
Definition emit_inline_group (chunk : bytes) (em : Emission) : bool * Emission :=
  let em := open_group (lit "group") GROUP_LABEL_INLINE em in
  let group := (groups_size (em_doc em) - 1)%nat in
  let content := inline_content chunk in
  let locs := first_locs content in
  let box := if bool_decide (length locs = 4)%nat then locs_box locs page else full_page_box page in
  (true, run_loop em (S (length content)) (inline_step content box group) (0%nat, em)).
End Emit.
