(* ===== verification/DoctagsTree.v ===== *)
(** What the DocTags emit functions keep: the fragment stays a tree, the order
    only grows, and the images inlined are the bytes the raster charged. *)
From S2P Require Import Prelude Numbers Double Proto ImageCrop Builder OtslGrid Tree DoctagsItems.

(** Closes what an update elsewhere in the Document leaves as it was. *)
Ltac quiet := try done; try reflexivity; try (by intros g ? ?).

Section Emits.
Context `{ProtobufSize} `{Stb}.
Variable page : PageContext.

Definition images_inv (em : Emission) : Prop := images_charged page (ps_raster (em_state em)) (em_doc em).

(** One emit step: the order grows by [new]. *)
Record emits_new (new : list BodyChild) (em em' : Emission) : Prop := {
  es_order : em_order em' = em_order em ++ new;
  es_tree : ∀ loose, tree_inv (em_doc em) (loose ++ em_order em) →
    tree_inv (em_doc em') (loose ++ em_order em');
  es_groups : (length (doc_groups (em_doc em)) ≤ length (doc_groups (em_doc em')))%nat;
  es_body : doc_body (em_doc em') = doc_body (em_doc em);
  es_images : images_inv em → images_inv em' }.
Definition emits (em em' : Emission) : Prop := ∃ new, emits_new new em em'.
Definition emits_leaves (em em' : Emission) : Prop :=
  ∃ new, emits_new new em em' ∧ Forall (λ c, leaf_kind (bc_kind c)) new.

Lemma emits_new_refl em : emits_new [] em em.
Proof. split; try done. by rewrite app_nil_r. Qed.

Lemma emits_new_trans n1 n2 em1 em2 em3 :
  emits_new n1 em1 em2 → emits_new n2 em2 em3 → emits_new (n1 ++ n2) em1 em3.
Proof.
  intros [E1 ? ? ? ?] [E2 ? ? ? ?]. split; try naive_solver; try lia; [|congruence].
  by rewrite E2, E1, app_assoc.
Qed.

#[export] Instance emits_preorder : PreOrder emits.
Proof.
  split.
  - intros em. exists []. apply emits_new_refl.
  - intros em1 em2 em3 [n1 H1] [n2 H2]. exists (n1 ++ n2). by eapply emits_new_trans.
Qed.
#[export] Instance emits_leaves_preorder : PreOrder emits_leaves.
Proof.
  split.
  - intros em. exists []. split; [apply emits_new_refl|constructor].
  - intros em1 em2 em3 (n1 & H1 & L1) (n2 & H2 & L2). exists (n1 ++ n2).
    split; [by eapply emits_new_trans|by apply Forall_app].
Qed.

Lemma emits_leaves_emits em em' : emits_leaves em em' → emits em em'.
Proof. intros (new & Hnew & _). by exists new. Qed.

(** ** Steps that change nothing the tree or the images see *)

Lemma emits_quiet em doc state :
  (∀ k i, item_refs doc k i = item_refs (em_doc em) k i) → same_groups (em_doc em) doc →
  (length (doc_groups (em_doc em)) ≤ length (doc_groups doc))%nat →
  doc_body doc = doc_body (em_doc em) →
  (images_inv em → images_inv (mk_Emission doc (em_order em) state)) →
  emits_leaves em (mk_Emission doc (em_order em) state).
Proof.
  intros Hrefs Hg Hl Hb Him. exists []. split; [|constructor].
  split; cbn; try done; [by rewrite app_nil_r|].
  intros loose Ht. by eapply tree_same.
Qed.

Lemma emits_warn f em : emits_leaves em (set_em_state (warn f (em_state em)) em).
Proof. by apply (emits_quiet em); quiet. Qed.

Lemma refs_alter_same {A} `{Stamped A} (f : A → A) (l : list A) i j :
  (∀ x, refs (f x) = refs x) → refs <$> alter f i l !! j = refs <$> l !! j.
Proof.
  intros Hf. destruct (decide (i = j)) as [->|]; [|by rewrite list_lookup_alter_ne].
  rewrite list_lookup_alter_eq. destruct (l !! j); cbn; [|done]. by rewrite Hf.
Qed.

Lemma emits_update_picture f i em :
  (∀ p, refs (f p) = refs p) → (∀ p, pc_image (f p) = pc_image p) →
  emits_leaves em (set_em_doc (alter_picture f i (em_doc em)) em).
Proof.
  intros Hrefs Him. apply (emits_quiet em); quiet.
  - intros k j. destruct k; try done. cbn. by apply refs_alter_same.
  - apply images_charged_ext. by apply images_alter.
Qed.

Lemma emits_update_table f i em :
  (∀ t, refs (f t) = refs t) →
  emits_leaves em (set_em_doc (alter_table f i (em_doc em)) em).
Proof.
  intros Hrefs. apply (emits_quiet em); quiet.
  - intros k j. destruct k; try done. cbn. by apply refs_alter_same.
  - by apply images_charged_ext.
Qed.

(** ** New items *)

Lemma emits_append k i doc em :
  item_refs (em_doc em) k i = None → is_Some (item_refs doc k i) →
  (∀ k' i', mk_BodyChild k' i' ≠ mk_BodyChild k i → item_refs doc k' i' = item_refs (em_doc em) k' i') →
  same_groups (em_doc em) doc →
  (length (doc_groups (em_doc em)) ≤ length (doc_groups doc))%nat →
  doc_body doc = doc_body (em_doc em) →
  pc_image <$> doc_pictures doc = pc_image <$> doc_pictures (em_doc em) ∨
    (∃ p, pc_image p = None ∧ doc_pictures doc = doc_pictures (em_doc em) ++ [p]) →
  emits_new [mk_BodyChild k i] em (push_order (mk_BodyChild k i) (set_em_doc doc em)).
Proof.
  intros Hnone Hsome Hother Hg Hl Hb Him. split; cbn; try done.
  - intros loose Ht. rewrite app_assoc. by eapply tree_append.
  - destruct Him as [Him|(p & Hp & Him)]; [by apply images_charged_ext|]. intros []. split; cbn; try done;
      by rewrite Him, image_sum_push.
Qed.

(** The refs of a list after a push at its end. *)
Lemma refs_push {A} `{Stamped A} (l : list A) x i :
  i ≠ length l → refs <$> (l ++ [x]) !! i = refs <$> l !! i.
Proof.
  intros Hi. destruct (decide (i < length l)%nat); [by rewrite lookup_app_l|].
  rewrite !lookup_ge_None_2; [done|lia|rewrite length_app; cbn; lia].
Qed.
Lemma refs_pushed {A} `{Stamped A} (l : list A) x :
  is_Some (refs <$> (l ++ [x]) !! length l).
Proof. by rewrite list_lookup_middle. Qed.
Lemma refs_unpushed {A} `{Stamped A} (l : list A) : refs <$> l !! length l = None.
Proof. by rewrite lookup_ge_None_2. Qed.

Lemma size_push {A} (l : list A) x : (length (l ++ [x]) - 1)%nat = length l.
Proof. rewrite length_app. cbn. lia. Qed.

Lemma emits_push_text item em :
  emits_leaves em (emit_text (push_text item) em).
Proof.
  exists [mk_BodyChild TEXT (texts_size (em_doc em))]. split; [|repeat constructor; by left].
  unfold emit_text.
  replace (texts_size (push_text item (em_doc em)) - 1)%nat with (texts_size (em_doc em))
    by (symmetry; apply size_push). apply emits_append; quiet; try by left.
  - apply refs_unpushed.
  - apply refs_pushed.
  - intros k i Hne. destruct k; try done. cbn. apply refs_push. intros ->. by apply Hne.
Qed.

Lemma emits_add_picture prov em :
  let doc := add_picture page prov (em_doc em) in
  emits_leaves em (push_order (mk_BodyChild PICTURE (pictures_size doc - 1)) (set_em_doc doc em)).
Proof.
  intros doc. subst doc. exists [mk_BodyChild PICTURE (pictures_size (em_doc em))].
  split; [|repeat constructor; by right; left].
  replace (pictures_size (add_picture page prov (em_doc em)) - 1)%nat
    with (pictures_size (em_doc em)) by (symmetry; apply size_push). apply emits_append; quiet; try by left.
  - apply refs_unpushed.
  - apply refs_pushed.
  - intros k i Hne. destruct k; try done. cbn. apply refs_push. intros ->. by apply Hne.
  - right. eexists. split; [|reflexivity]. done.
Qed.

Lemma emits_add_table prov em :
  let doc := add_table page prov (em_doc em) in
  emits_leaves em (push_order (mk_BodyChild TABLE (tables_size doc - 1)) (set_em_doc doc em)).
Proof.
  intros doc. subst doc. exists [mk_BodyChild TABLE (tables_size (em_doc em))].
  split; [|repeat constructor; by right; right].
  replace (tables_size (add_table page prov (em_doc em)) - 1)%nat
    with (tables_size (em_doc em)) by (symmetry; apply size_push). apply emits_append; quiet; try by left.
  - apply refs_unpushed.
  - apply refs_pushed.
  - intros k i Hne. destruct k; try done. cbn. apply refs_push. intros ->. by apply Hne.
Qed.

(** ** The emit functions *)

Lemma emits_caption element em : emits_leaves em (emit_caption element page em).2.
Proof. unfold emit_caption. case_match; [reflexivity|]. apply emits_push_text. Qed.

Lemma emit_text_add_then item f em :
  emit_text (add_then (push_text item) f) em = emit_text (push_text (f item)) em.
Proof.
  unfold emit_text, add_then.
  replace (alter_text f (texts_size (push_text item (em_doc em)) - 1) (push_text item (em_doc em)))
    with (push_text (f item) (em_doc em)); [done|].
  unfold alter_text, texts_size, push_text. cbn [doc_texts set_doc_texts]. by rewrite alter_snoc.
Qed.

(** A picture that carries no image yet. *)
Definition fresh_picture (index : nat) (em : Emission) : Prop :=
  pc_image <$> doc_pictures (em_doc em) !! index = Some None.

Lemma fresh_update index f em :
  (∀ p, pc_image (f p) = pc_image p) → fresh_picture index em →
  fresh_picture index (update_picture index f em).
Proof.
  unfold fresh_picture. cbn. intros Hf Hfresh. rewrite list_lookup_alter_eq.
  destruct (doc_pictures (em_doc em) !! index); [|done]. cbn in *. by rewrite Hf.
Qed.

Lemma emits_crop element box index em :
  fresh_picture index em → emits_leaves em (emit_crop page element box index em).
Proof.
  intros Hfresh. unfold emit_crop. case_match; [|reflexivity].
  destruct (crop _ _ _ _ _) as [[result image] raster] eqn:Hcrop.
  assert (images_inv em → images_charged page raster
    (match image with Some image => alter_picture (set_pc_image (Some image)) index (em_doc em) | None => em_doc em end)) as Him
    by (intros Hi; by eapply images_charged_crop).
  destruct image as [image|].
  - apply (emits_quiet em); quiet. intros k i. destruct k; try done. cbn. by apply refs_alter_same.
  - by apply (emits_quiet em); quiet.
Qed.

Lemma chart_quiet title data p :
  refs (chart title data p) = refs p ∧ pc_image (chart title data p) = pc_image p.
Proof. done. Qed.

Lemma emits_chart element classification index em :
  emits_leaves em (emit_chart element classification index em) ∧
  (fresh_picture index em → fresh_picture index (emit_chart element classification index em)).
Proof.
  unfold emit_chart. case_match; [|by split; [reflexivity|]].
  destruct (parse_otsl_grid (el_otsl element)) as [[[] data] cut]; [|by split; [reflexivity|]].
  split.
  - etrans; [apply emits_warn|]. by apply emits_update_picture.
  - intros Hfresh. by apply fresh_update.
Qed.

Lemma describe_quiet description p :
  refs (describe description p) = refs p ∧ pc_image (describe description p) = pc_image p.
Proof. unfold describe. by case_match. Qed.
Lemma classify_quiet classification p :
  refs (classify classification p) = refs p ∧ pc_image (classify classification p) = pc_image p.
Proof. unfold classify. by case_match. Qed.

Lemma emits_picture element em : emits_leaves em (emit_picture page element em).2.
Proof.
  unfold emit_picture. pose proof (emits_caption element em) as H1.
  destruct (emit_caption element page em) as [caption_index em1]. cbn [snd] in *.
  etrans; [exact H1|]. cbv zeta.
  set (prov := prov_with_charspan page _ 0 0).
  etrans; [apply (emits_add_picture prov)|].
  set (index := (pictures_size (add_picture page prov (em_doc em1)) - 1)%nat).
  set (em2 := push_order (mk_BodyChild PICTURE index)
    (set_em_doc (add_picture page prov (em_doc em1)) em1)).
  assert (Hfresh : fresh_picture index em2).
  { unfold fresh_picture, index, em2, pictures_size. cbn. by rewrite size_push, list_lookup_middle. }
  clearbody em2.
  assert (Hstep : ∀ f em, (∀ p, refs (f p) = refs p ∧ pc_image (f p) = pc_image p) →
    fresh_picture index em →
    emits_leaves em (update_picture index f em) ∧ fresh_picture index (update_picture index f em)).
  { intros f e Hf Hfr. split; [apply emits_update_picture|apply fresh_update]; try done;
      intros p; apply Hf. }
  destruct (Hstep (λ picture, set_pc_captions (add_caption_ref caption_index (pc_captions picture)) picture)
    em2 ltac:(done) Hfresh) as [S1 F1].
  destruct (Hstep _ _ (describe_quiet (trim (el_text element))) F1) as [S2 F2].
  destruct (Hstep _ _ (classify_quiet (pick_classification (el_class_tags element))) F2) as [S3 F3].
  etrans; [exact S1|]. etrans; [exact S2|]. etrans; [exact S3|].
  destruct (emits_chart element (pick_classification (el_class_tags element)) index
    (update_picture index (classify (pick_classification (el_class_tags element)))
      (update_picture index (describe (trim (el_text element)))
        (update_picture index (λ picture,
           set_pc_captions (add_caption_ref caption_index (pc_captions picture)) picture) em2))))
    as [S4 F4].
  etrans; [exact S4|]. apply emits_crop. by apply F4.
Qed.

Lemma emits_table element text em : emits_leaves em (emit_table page element text em).2.
Proof.
  unfold emit_table. pose proof (emits_caption element em) as H1.
  destruct (emit_caption element page em) as [caption_index em1]. cbn [snd] in *.
  etrans; [exact H1|]. cbv zeta.
  set (prov := prov_with_charspan page _ 0 0).
  etrans; [apply (emits_add_table prov)|].
  match goal with |- emits_leaves ?e _ => generalize e end. intros em2.
  match goal with |- context [update_table ?i ?f em2] =>
    assert (H2 : emits_leaves em2 (update_table i f em2)) by (by apply emits_update_table);
    set (em3 := update_table i f em2) in * end.
  clearbody em3. case_bool_decide; [done|].
  match goal with |- context [parse_otsl_grid ?b] => destruct (parse_otsl_grid b) as [[ok data] cut] end.
  etrans; [exact H2|]. etrans; [|apply emits_warn]. by apply emits_update_table.
Qed.

Lemma emits_element element forced em : emits_leaves em (emit_element page element forced em).2.
Proof.
  assert (Hthen : ∀ item f, emits_leaves em (emit_text (add_then (push_text item) f) em)).
  { intros. rewrite emit_text_add_then. apply emits_push_text. }
  unfold emit_element.
  repeat (case_match; cbn [snd];
    [first [by apply emits_push_text | by apply emits_picture | by apply emits_table | by apply Hthen
           | idtac]|]); try reflexivity; try apply Hthen.
  - destruct (code_body _) as [[language language_raw] body]. apply Hthen.
Qed.

Lemma emits_key_value_region chunk em : emits em (emit_key_value_region page chunk em).2.
Proof.
  unfold emit_key_value_region. cbv zeta. cbn [snd].
  match goal with |- context [doc_key_value_items (em_doc em) ++ [?kv]] => generalize kv end.
  intros kv. exists [mk_BodyChild KEY_VALUE (key_value_items_size (em_doc em))].
  match goal with |- context [key_value_items_size ?d] =>
    replace (key_value_items_size d - 1)%nat with (key_value_items_size (em_doc em))
      by (symmetry; apply size_push) end.
  apply emits_append; quiet; try by left.
  - apply refs_unpushed.
  - apply refs_pushed.
  - intros k i Hne. destruct k; try done. cbn. apply refs_push. intros ->. by apply Hne.
Qed.

Lemma emits_open_group name label em :
  let em' := open_group name label em in
  emits em em' ∧ (groups_size (em_doc em') - 1 < length (doc_groups (em_doc em')))%nat.
Proof.
  cbv zeta. unfold open_group, groups_size. split.
  2: { cbn. rewrite length_app. cbn. lia. }
  exists [mk_BodyChild GROUP (groups_size (em_doc em))]. cbn [doc_groups set_doc_groups].
  rewrite size_push. apply emits_append; quiet; try by left.
  - apply refs_unpushed.
  - apply refs_pushed.
  - intros k i Hne. destruct k; try done. cbn. apply refs_push. intros ->. by apply Hne.
  - intros g children Hg. cbn. destruct (decide (g < length (doc_groups (em_doc em)))%nat).
    + by rewrite lookup_app_l.
    + by rewrite lookup_ge_None_2 in Hg by lia.
  - cbn. rewrite length_app. lia.
Qed.

Lemma adopt_leaf group child em :
  leaf_kind (bc_kind child) → adopt group child em = set_em_doc (adopt_doc group child (em_doc em)) em.
Proof. unfold adopt, adopt_doc. by intros [-> | [-> | ->]]. Qed.

Lemma groups_adopt_doc group child doc :
  leaf_kind (bc_kind child) → length (doc_groups (adopt_doc group child doc)) = length (doc_groups doc).
Proof.
  destruct child as [k i]. unfold adopt_doc. cbn [bc_kind].
  intros [-> | [-> | ->]]; cbn; by rewrite length_alter.
Qed.

Lemma body_adopt_doc group child doc :
  leaf_kind (bc_kind child) → doc_body (adopt_doc group child doc) = doc_body doc.
Proof. destruct child as [k i]. unfold adopt_doc. cbn [bc_kind]. by intros [-> | [-> | ->]]. Qed.

Lemma pictures_adopt_doc group child doc :
  leaf_kind (bc_kind child) →
  pc_image <$> doc_pictures (adopt_doc group child doc) = pc_image <$> doc_pictures doc.
Proof.
  destruct child as [k i]. unfold adopt_doc. cbn [bc_kind].
  intros [-> | [-> | ->]]; try done. cbn. by apply images_alter.
Qed.

(** A list item: appended, then adopted. *)
Lemma emits_list_item item group em :
  (group < length (doc_groups (em_doc em)))%nat →
  let doc := push_text item (em_doc em) in
  emits_new [] em (adopt group (mk_BodyChild TEXT (texts_size doc - 1)) (set_em_doc doc em)).
Proof.
  intros Hgroup doc. assert (Hleaf : leaf_kind TEXT) by by left. rewrite adopt_leaf by done.
  split; cbn [em_order em_doc set_em_doc].
  - by rewrite app_nil_r.
  - intros loose Ht. rewrite <- (app_nil_r (loose ++ em_order em)).
    apply tree_adopt; [|done|done].
    destruct (emits_push_text item em) as (new & Hnew & _).
    pose proof (es_order _ _ _ Hnew) as E. pose proof (es_tree _ _ _ Hnew loose Ht) as Ht'.
    rewrite E, app_assoc in Ht'. cbn in E. apply (inj (app _)) in E. by subst new.
  - by rewrite groups_adopt_doc.
  - by rewrite body_adopt_doc.
  - intros []. split; cbn [em_state em_doc set_em_doc]; try done.
Qed.

Lemma list_step_emits chunk ordered group pos enum_value em :
  (group < length (doc_groups (em_doc em)))%nat →
  match list_step page chunk ordered group (pos, enum_value, em) with
  | inl (pos', _, em') => emits em em' ∧ (group < length (doc_groups (em_doc em')))%nat ∧
      (length chunk - pos' < length chunk - pos)%nat
  | inr em' => em' = em
  end.
Proof.
  intros Hgroup. unfold list_step. case_bool_decide; cbn [negb]; [|done].
  destruct (find _ chunk pos) as [open|] eqn:E1; [|done].
  destruct (find _ chunk (open + 11)) as [stop|] eqn:E2; [|done].
  apply find_lt in E1. apply find_lt in E2.
  match goal with |- context [add_list_item page ?p ?t ordered ?m (em_doc em)] =>
    set (item := kListItem (fill_text_base page DOC_ITEM_LABEL_LIST_ITEM p t) ordered
      (if bool_decide (m = []) then None else Some m));
    change (add_list_item page p t ordered m (em_doc em)) with (push_text item (em_doc em)) end.
  pose proof (emits_list_item item group em Hgroup) as Hnew. cbv zeta in *.
  split_and!; [by exists []| |lia].
  pose proof (es_groups _ _ _ Hnew). lia.
Qed.

Lemma emits_list_group chunk ordered em : emits em (emit_list_group page chunk ordered em).2.
Proof.
  unfold emit_list_group. cbn [snd].
  destruct (emits_open_group (lit "list") GROUP_LABEL_LIST em) as [H1 Hgroup].
  set (em1 := open_group _ _ em) in *. clearbody em1. revert Hgroup.
  set (group := (groups_size (em_doc em1) - 1)%nat). clearbody group. intros Hgroup.
  etrans; [exact H1|].
  apply (run_loop_spec (λ st, emits em1 st.2 ∧ (group < length (doc_groups (em_doc st.2)))%nat)
    (emits em1) (λ st, length chunk - st.1.1)%nat); [|by split|cbn; lia].
  intros [[pos enum_value] e] [He Hg]. cbn [fst snd] in *.
  pose proof (list_step_emits chunk ordered group pos enum_value e Hg) as H'.
  destruct (list_step _ _ _ _ _) as [[[pos' n'] e']|e'].
  - destruct H' as (? & ? & ?). cbn. split_and!; [by etrans|done|done].
  - by subst e'.
Qed.

(** The adopted children of an inline group. *)
Lemma foldl_adopt group children em l1 :
  (group < length (doc_groups (em_doc em)))%nat → Forall (λ c, leaf_kind (bc_kind c)) children →
  let em' := foldl (λ em c, adopt group c em) em children in
  em_order em' = em_order em ∧ em_state em' = em_state em ∧
  (tree_inv (em_doc em) (l1 ++ children) → tree_inv (em_doc em') l1) ∧
  length (doc_groups (em_doc em')) = length (doc_groups (em_doc em)) ∧
  doc_body (em_doc em') = doc_body (em_doc em) ∧
  pc_image <$> doc_pictures (em_doc em') = pc_image <$> doc_pictures (em_doc em).
Proof.
  intros Hgroup Hleaf. revert em Hgroup. induction Hleaf as [|c children Hc _ IH]; intros em Hgroup em'.
  { subst em'. cbn. split_and!; try done. by rewrite app_nil_r. }
  subst em'. cbn [foldl]. rewrite adopt_leaf by done.
  destruct (IH (set_em_doc (adopt_doc group c (em_doc em)) em)) as (E1 & E2 & E3 & E4 & E5 & E6).
  { cbn [em_doc set_em_doc]. by rewrite groups_adopt_doc. }
  cbn [em_order em_doc em_state set_em_doc] in *.
  rewrite E4, E5, E6, groups_adopt_doc, body_adopt_doc, pictures_adopt_doc by done.
  split_and!; try done. intros Ht. apply E3. by apply tree_adopt.
Qed.

Lemma emits_inline_child box group token child_chunk em :
  (group < length (doc_groups (em_doc em)))%nat →
  emits_new [] em (emit_inline_child page box group token child_chunk em).
Proof.
  intros Hgroup. unfold emit_inline_child.
  set (child := mk_Element _ _ _ _ _ _ _ _). set (em0 := mk_Emission (em_doc em) [] (em_state em)).
  destruct (emits_element child (Some box) em0) as (new & Hnew & Hleaf).
  destruct (emit_element page child (Some box) em0) as [ok em1]. cbn [snd] in *.
  destruct ok; cbn [negb]; [|apply emits_new_refl].
  destruct Hnew as [E Htree Hgroups Hbody Himages]. cbn in *. rewrite E.
  set (em2 := mk_Emission (em_doc em1) (em_order em) (em_state em1)).
  assert (Hfold : ∀ l1, let em' := foldl (λ em c, adopt group c em) em2 new in
    em_order em' = em_order em2 ∧ em_state em' = em_state em2 ∧
    (tree_inv (em_doc em2) (l1 ++ new) → tree_inv (em_doc em') l1) ∧
    length (doc_groups (em_doc em')) = length (doc_groups (em_doc em2)) ∧
    doc_body (em_doc em') = doc_body (em_doc em2) ∧
    pc_image <$> doc_pictures (em_doc em') = pc_image <$> doc_pictures (em_doc em2)).
  { intros l1. apply foldl_adopt; [cbn; lia|done]. }
  cbv zeta in Hfold. split.
  - destruct (Hfold []) as (-> & _). cbn. by rewrite app_nil_r.
  - intros loose Ht. destruct (Hfold (loose ++ em_order em)) as (-> & _ & Hf & _).
    apply Hf. cbn. rewrite <- E. apply Htree. by rewrite app_nil_r.
  - destruct (Hfold []) as (_ & _ & _ & -> & _). done.
  - destruct (Hfold []) as (_ & _ & _ & _ & -> & _). done.
  - intros Hi. destruct (Hfold []) as (_ & Es & _ & _ & _ & Ep).
    assert (Hi0 : images_inv em0) by (by destruct Hi).
    unfold images_inv. rewrite Es. eapply images_charged_ext; [apply Ep|by apply Himages].
Qed.

Lemma inline_step_emits content box group pos em :
  (group < length (doc_groups (em_doc em)))%nat →
  match inline_step page content box group (pos, em) with
  | inl (pos', em') => emits em em' ∧ (group < length (doc_groups (em_doc em')))%nat ∧
      (length content - pos' < length content - pos)%nat
  | inr em' => em' = em
  end.
Proof.
  intros Hgroup. unfold inline_step. case_bool_decide; cbn [negb]; [|done].
  destruct (find_char "<"%char content pos) as [open|] eqn:E1; [|done]. apply find_char_lt in E1.
  destruct (opens_markup content open); cbn [negb].
  2: { split_and!; [reflexivity|done|lia]. }
  destruct (find_char ">"%char content open) as [gt|] eqn:E2; [|done]. apply find_char_lt in E2.
  match goal with |- context [if ?b then inl _ else _] => destruct b end; [split_and!; [reflexivity|done|lia]|].
  destruct (find _ content (gt + 1)) as [stop|] eqn:E3; [|split_and!; [reflexivity|done|lia]].
  apply find_lt in E3.
  pose proof (λ token chunk, emits_inline_child box group token chunk em Hgroup) as Hnew.
  split_and!; [by eexists; apply Hnew| |].
  - eapply Nat.lt_le_trans; [exact Hgroup|]. by eapply es_groups.
  - rewrite !length_app. cbn. lia.
Qed.

Lemma emits_inline_group chunk em : emits em (emit_inline_group page chunk em).2.
Proof.
  unfold emit_inline_group. cbn [snd].
  destruct (emits_open_group (lit "group") GROUP_LABEL_INLINE em) as [H1 Hgroup].
  set (em1 := open_group _ _ em) in *. clearbody em1. revert Hgroup.
  set (group := (groups_size (em_doc em1) - 1)%nat). clearbody group. intros Hgroup.
  etrans; [exact H1|]. set (content := inline_content chunk).
  match goal with |- context [inline_step page content ?b group] => generalize b end. intros box.
  apply (run_loop_spec (λ st, emits em1 st.2 ∧ (group < length (doc_groups (em_doc st.2)))%nat)
    (emits em1) (λ st, length content - st.1)%nat); [|by split|cbn; lia].
  intros [pos e] [He Hg]. cbn [fst snd] in *.
  pose proof (inline_step_emits content box group pos e Hg) as H'.
  destruct (inline_step _ _ _ _ _) as [[pos' e']|e'].
  - destruct H' as (? & ? & ?). cbn. split_and!; [by etrans|done|done].
  - by subst e'.
Qed.
End Emits.
