(* ===== verification/Doctags.v ===== *)
(** The DocTags format mapper (src/mapping/doctags.cpp, [map_doctags]): the
    tokenizer that walks the response, opens and closes elements, and hands
    container chunks to the emit functions. *)
From S2P Require Import Prelude Numbers Double Proto ImageCrop Builder OtslGrid Tree DoctagsItems.
From S2P Require Import DoctagsTree.

(** The locals of [map_doctags]. *)
Record DocTags := mk_DocTags {
  dt_pos : nat; dt_current : Element; dt_element_open : bool; dt_in_otsl : bool;
  dt_in_caption : bool; dt_pending_locs : list Z; dt_items : nat; dt_em : Emission }.

Definition set_dt_pos (pos : nat) (s : DocTags) : DocTags :=
  mk_DocTags pos (dt_current s) (dt_element_open s) (dt_in_otsl s) (dt_in_caption s)
    (dt_pending_locs s) (dt_items s) (dt_em s).
Definition set_dt_current (current : Element) (s : DocTags) : DocTags :=
  mk_DocTags (dt_pos s) current (dt_element_open s) (dt_in_otsl s) (dt_in_caption s)
    (dt_pending_locs s) (dt_items s) (dt_em s).
Definition set_dt_in_otsl (in_otsl : bool) (s : DocTags) : DocTags :=
  mk_DocTags (dt_pos s) (dt_current s) (dt_element_open s) in_otsl (dt_in_caption s)
    (dt_pending_locs s) (dt_items s) (dt_em s).
Definition set_dt_in_caption (in_caption : bool) (s : DocTags) : DocTags :=
  mk_DocTags (dt_pos s) (dt_current s) (dt_element_open s) (dt_in_otsl s) in_caption
    (dt_pending_locs s) (dt_items s) (dt_em s).
Definition set_dt_pending_locs (pending : list Z) (s : DocTags) : DocTags :=
  mk_DocTags (dt_pos s) (dt_current s) (dt_element_open s) (dt_in_otsl s) (dt_in_caption s)
    pending (dt_items s) (dt_em s).

Definition set_el_locs (locs : list Z) (e : Element) : Element :=
  mk_Element (el_name e) locs (el_text e) (el_otsl e) (el_class_tags e) (el_has_caption e)
    (el_caption_locs e) (el_caption_text e).
Definition set_el_text (text : bytes) (e : Element) : Element :=
  mk_Element (el_name e) (el_locs e) text (el_otsl e) (el_class_tags e) (el_has_caption e)
    (el_caption_locs e) (el_caption_text e).
Definition set_el_otsl (otsl : bytes) (e : Element) : Element :=
  mk_Element (el_name e) (el_locs e) (el_text e) otsl (el_class_tags e) (el_has_caption e)
    (el_caption_locs e) (el_caption_text e).
Definition set_el_class_tags (tags : list bytes) (e : Element) : Element :=
  mk_Element (el_name e) (el_locs e) (el_text e) (el_otsl e) tags (el_has_caption e)
    (el_caption_locs e) (el_caption_text e).
Definition set_el_caption (locs : list Z) (text : bytes) (e : Element) : Element :=
  mk_Element (el_name e) (el_locs e) (el_text e) (el_otsl e) (el_class_tags e) true locs text.

(** Text inside the open element, or inside its caption. *)
Definition append_text (text : bytes) (s : DocTags) : DocTags :=
  if dt_element_open s then
    let e := dt_current s in
    set_dt_current
      (if dt_in_caption s
       then mk_Element (el_name e) (el_locs e) (el_text e) (el_otsl e) (el_class_tags e)
              (el_has_caption e) (el_caption_locs e) (el_caption_text e ++ text)
       else set_el_text (el_text e ++ text) e) s
  else s.
(** A location goes to the caption, the open element or the pending list. *)
Definition push_loc (loc : Z) (s : DocTags) : DocTags :=
  let e := dt_current s in
  if dt_in_caption s then
    set_dt_current (mk_Element (el_name e) (el_locs e) (el_text e) (el_otsl e) (el_class_tags e)
      (el_has_caption e) (el_caption_locs e ++ [loc]) (el_caption_text e)) s
  else if dt_element_open s then set_dt_current (set_el_locs (el_locs e ++ [loc]) e) s
  else set_dt_pending_locs (dt_pending_locs s ++ [loc]) s.

Section MapDoctags.
Context `{ProtobufSize} `{Stb}.
Variable page : PageContext.

Definition flush (s : DocTags) : DocTags :=
  let '(emitted, em) :=
    if dt_element_open s then emit_element page (dt_current s) None (dt_em s) else (false, dt_em s) in
  mk_DocTags (dt_pos s) Element_empty false (dt_in_otsl s) false []
    (if emitted then S (dt_items s) else dt_items s) em.

(** A new element with the pending locations. *)
Definition open_element (name : bytes) (s : DocTags) : DocTags :=
  let e := dt_current s in
  mk_DocTags (dt_pos s)
    (mk_Element name (dt_pending_locs s) (el_text e) (el_otsl e) (el_class_tags e)
       (el_has_caption e) (el_caption_locs e) (el_caption_text e))
    true (dt_in_otsl s) (dt_in_caption s) [] (dt_items s) (dt_em s).

(** A container chunk, from its '<' at [open] to the matching close. *)
Definition container_chunk (text token : bytes) (open : nat) (s : DocTags) : DocTags :=
  let s := flush s in
  let close_tag := lit "</" ++ token ++ lit ">" in
  let '(chunk, pos) :=
    match find close_tag text (dt_pos s) with
    | None => (substr_from text open, length text)
    | Some stop => (substr text open (stop + length close_tag - open), (stop + length close_tag)%nat)
    end in
  let '(emitted, em) :=
    if token =b lit "key_value_region" then emit_key_value_region page chunk (dt_em s)
    else if token =b lit "inline" then emit_inline_group page chunk (dt_em s)
    else emit_list_group page chunk (token =b lit "ordered_list") (dt_em s) in
  mk_DocTags pos (dt_current s) (dt_element_open s) (dt_in_otsl s) (dt_in_caption s)
    (dt_pending_locs s) (if emitted then S (dt_items s) else dt_items s) em.

(** What one complete token does; [dt_pos] is already past it. *)
Definition on_token (text token : bytes) (open : nat) (s : DocTags) : DocTags :=
  if starts_with (lit "loc_") token then
    match stol (substr_from token 4) with
    | Some loc => push_loc loc s
    | None => s
    end
  else if (token =b lit "doctag") || (token =b lit "/doctag") then s
  else if head_is (Ascii.eqb "_"%char) token then append_text (lit "<" ++ token ++ lit ">") s
  else if dt_in_caption s then
    if token =b lit "/caption" then set_dt_in_caption false s else s
  else if (token =b lit "caption") && dt_element_open s && is_container (el_name (dt_current s)) then
    let e := dt_current s in
    set_dt_in_caption true (set_dt_current (set_el_caption (el_caption_locs e) (el_caption_text e) e) s)
  else if token =b lit "otsl" then
    let s := set_dt_in_otsl true s in
    if dt_element_open s then s else open_element (lit "otsl") s
  else if is_group_container token then container_chunk text token open s
  else if dt_element_open s && is_container (el_name (dt_current s)) &&
          (token =b lit "/" ++ el_name (dt_current s)) then flush s
  else if dt_element_open s &&
          ((el_name (dt_current s) =b lit "picture") || (el_name (dt_current s) =b lit "chart")) &&
          is_classification_tag token then
    let e := dt_current s in set_dt_current (set_el_class_tags (el_class_tags e ++ [token]) e) s
  else if head_is (Ascii.eqb "/"%char) token then
    if dt_element_open s && (token =b lit "/" ++ el_name (dt_current s)) then flush s else s
  else open_element token (flush s).

Definition doctags_step (text : bytes) (s : DocTags) : DocTags + DocTags :=
  let pos := dt_pos s in
  if negb (bool_decide (pos < length text)%nat) then inr s else
  if dt_in_otsl s then
    let stop := find (lit "</otsl>") text pos in
    let e := dt_current s in
    let body := match stop with None => substr_from text pos | Some stop => substr text pos (stop - pos) end in
    let s := set_dt_current (set_el_otsl (el_otsl e ++ body) e) s in
    inl (set_dt_in_otsl false
           (set_dt_pos (match stop with None => length text | Some stop => stop + 7 end) s))
  else
  match find_char "<"%char text pos with
  | None => inr (append_text (substr_from text pos) s)
  | Some open =>
      if negb (opens_markup text open) then
        inl (set_dt_pos (open + 1) (append_text (substr text pos (open - pos + 1)) s))
      else
      let s := if bool_decide (pos < open)%nat then append_text (substr text pos (open - pos)) s else s in
      match find_char ">"%char text open with
      | None => inr s
      | Some close =>
          let token := substr text (open + 1) (close - open - 1) in
          inl (on_token text token open (set_dt_pos (close + 1) s))
      end
  end.

(** The page's crop warnings, one per cap that refused crops. *)
Definition crop_warnings (state : PageState) : Warnings :=
  let warn (count : nat) (message : bytes) (warnings : Warnings) :=
    if bool_decide (0 < count)%nat then
      add_warning warnings PAGE_WARNING_CODE_PICTURE_IMAGES_SKIPPED
        (to_string (Z.of_nat count) ++ lit " picture(s) carry no image: " ++ message) []
    else warnings in
  let budget := page_crops page in
  let warnings := warn (crops_over_budget state)
    (lit "the page's crop budget (" ++ to_string (max_crops budget) ++ lit " crops, " ++
     to_string (to_int (max_area_pages budget)) ++ lit "x the page's pixels) ran out")
    (ps_warnings state) in
  let warnings := warn (crops_over_bytes state)
    (lit "the page's inline image cap (" ++ to_string (max_inline_bytes budget) ++
     lit " bytes, " ++ to_string (pr_inline_bytes (ps_raster state)) ++ lit " attached) ran out")
    warnings in
  warn (crops_too_large state)
    (lit "the page raster is " ++ to_string (pr_width (ps_raster state)) ++ lit "x" ++
     to_string (pr_height (ps_raster state)) ++ lit ", above the " ++ to_string kMaxRasterPixels ++
     lit "-pixel decode cap")
    warnings.

Definition doctags_init (out : Document) (warnings : Warnings) : DocTags :=
  let raster := PageRaster_new (page_png page) (page_width page) (page_height page) (page_crops page) in
  mk_DocTags 0 Element_empty false false false [] 0
    (mk_Emission out [] (mk_PageState raster warnings 0 0 0)).

Definition map_doctags (text : bytes) (out : Document) (warnings : Warnings) : MapResult :=
  if negb (contains_char "<"%char text) then MapFailed (lit "response holds no DocTags markup") else
  let s0 := doctags_init out warnings in
  let s := flush (run_loop s0 (S (length text)) (doctags_step text) s0) in
  if bool_decide (dt_items s = 0%nat) then
    MapFailed (lit "DocTags response produced no document items")
  else
    Mapped (finalize_document page (em_order (dt_em s)) (em_doc (dt_em s)))
      (crop_warnings (em_state (dt_em s))).
End MapDoctags.

(** * The tokenizer's steps *)

Section Steps.
Context `{ProtobufSize} `{Stb}.
Variable page : PageContext.
Local Abbreviation emits := (emits page).

Lemma flush_spec s :
  dt_pos (flush page s) = dt_pos s ∧ emits (dt_em s) (dt_em (flush page s)).
Proof.
  unfold flush. destruct (dt_element_open s).
  - pose proof (emits_element page (dt_current s) None (dt_em s)) as He.
    destruct (emit_element _ _ _ _) as [emitted em]. split; [done|]. by apply emits_leaves_emits.
  - by split.
Qed.

Lemma append_text_spec text s :
  dt_pos (append_text text s) = dt_pos s ∧ dt_em (append_text text s) = dt_em s.
Proof. unfold append_text. by repeat case_match. Qed.

Lemma push_loc_spec loc s : dt_pos (push_loc loc s) = dt_pos s ∧ dt_em (push_loc loc s) = dt_em s.
Proof. unfold push_loc. by repeat case_match. Qed.

Lemma container_chunk_spec text token open s :
  (dt_pos s ≤ length text)%nat →
  (dt_pos s ≤ dt_pos (container_chunk page text token open s))%nat ∧
  emits (dt_em s) (dt_em (container_chunk page text token open s)).
Proof.
  intros Hpos. unfold container_chunk. destruct (flush_spec s) as [Hp He]. rewrite Hp.
  assert (Hemit : ∀ chunk em, emits em
    (if token =b lit "key_value_region" then emit_key_value_region page chunk em
     else if token =b lit "inline" then emit_inline_group page chunk em
     else emit_list_group page chunk (token =b lit "ordered_list") em).2).
  { intros chunk em. case_bool_decide; [apply emits_key_value_region|].
    case_bool_decide; [apply emits_inline_group|apply emits_list_group]. }
  destruct (find _ text (dt_pos s)) as [stop|] eqn:E.
  - apply find_lt in E. match goal with |- context [substr text open ?n] => generalize (substr text open n) end.
    intros chunk. specialize (Hemit chunk (dt_em (flush page s))).
    destruct (if token =b _ then _ else _) as [emitted em]. cbn [dt_pos dt_em snd] in *.
    split; [lia|by etrans].
  - specialize (Hemit (substr_from text open) (dt_em (flush page s))).
    destruct (if token =b _ then _ else _) as [emitted em]. cbn [dt_pos dt_em snd] in *.
    split; [lia|by etrans].
Qed.

Lemma on_token_spec text token open s :
  (dt_pos s ≤ length text)%nat →
  (dt_pos s ≤ dt_pos (on_token page text token open s))%nat ∧
  emits (dt_em s) (dt_em (on_token page text token open s)).
Proof.
  intros Hpos. unfold on_token.
  assert (Hsame : ∀ s', dt_pos s' = dt_pos s ∧ dt_em s' = dt_em s →
    (dt_pos s ≤ dt_pos s')%nat ∧ emits (dt_em s) (dt_em s')).
  { intros s' [-> ->]. by split. }
  assert (Hflush : ∀ s', dt_pos s' = dt_pos (flush page s) ∧ dt_em s' = dt_em (flush page s) →
    (dt_pos s ≤ dt_pos s')%nat ∧ emits (dt_em s) (dt_em s')).
  { intros s' [-> ->]. destruct (flush_spec s) as [-> He]. split; [lia|done]. }
  destruct (starts_with _ token).
  { destruct (stol _); apply Hsame; [apply push_loc_spec|done]. }
  destruct ((token =b lit "doctag") || _)%bs; [by apply Hsame|].
  destruct (head_is (Ascii.eqb "_"%char) token); [apply Hsame, append_text_spec|].
  destruct (dt_in_caption s); [case_bool_decide; by apply Hsame|].
  destruct ((token =b lit "caption") && _ && _)%bs; [by apply Hsame|].
  case_bool_decide; [apply Hsame; by destruct (dt_element_open s) eqn:E; cbn; rewrite E|].
  destruct (is_group_container token); [by apply container_chunk_spec|].
  destruct (dt_element_open s && is_container _ && _)%bs; [by apply Hflush|].
  destruct (dt_element_open s && _ && _)%bs; [by apply Hsame|].
  destruct (head_is (Ascii.eqb "/"%char) token).
  { destruct (dt_element_open s && _)%bs; [by apply Hflush|by apply Hsame]. }
  by apply Hflush.
Qed.

Lemma doctags_step_spec text s :
  match doctags_step page text s with
  | inl s' => emits (dt_em s) (dt_em s') ∧ (length text - dt_pos s' < length text - dt_pos s)%nat
  | inr s' => emits (dt_em s) (dt_em s')
  end.
Proof.
  unfold doctags_step. case_bool_decide as Hlt; cbn [negb]; [|done].
  destruct (dt_in_otsl s).
  { split; [done|]. cbn. destruct (find _ text (dt_pos s)) as [stop|] eqn:E; [|lia].
    apply find_lt in E. lia. }
  destruct (find_char "<"%char text (dt_pos s)) as [open|] eqn:E1.
  2: { destruct (append_text_spec (substr_from text (dt_pos s)) s) as [_ ->]. done. }
  apply find_char_lt in E1. destruct (opens_markup text open); cbn [negb].
  2: { cbn [set_dt_pos dt_em dt_pos].
       destruct (append_text_spec (substr text (dt_pos s) (open - dt_pos s + 1)) s) as [_ ->].
       split; [done|lia]. }
  set (s1 := if bool_decide _ then _ else s).
  assert (Hs1 : dt_pos s1 = dt_pos s ∧ dt_em s1 = dt_em s).
  { subst s1. case_bool_decide; [apply append_text_spec|done]. }
  clearbody s1. destruct Hs1 as [Hp1 He1].
  destruct (find_char ">"%char text open) as [close|] eqn:E2; [|by rewrite He1].
  apply find_char_lt in E2.
  destruct (on_token_spec text (substr text (open + 1) (close - open - 1)) open
    (set_dt_pos (close + 1) s1)) as [Hp He]; [cbn; lia|].
  cbn [set_dt_pos dt_pos dt_em] in Hp, He. rewrite He1 in He. split; [done|lia].
Qed.

(** The tokenizer terminates within its fuel. *)
Lemma doctags_loop_total text s :
  is_Some (loop (S (length text)) (doctags_step page text) s).
Proof.
  apply (loop_total (λ _, True) (λ s, length text - dt_pos s)%nat); [|done|lia].
  intros s1 s2 _ E. pose proof (doctags_step_spec text s1) as Hs. rewrite E in Hs.
  by destruct Hs.
Qed.

Lemma doctags_run text s d :
  emits (dt_em s) (dt_em (run_loop d (S (length text)) (doctags_step page text) s)).
Proof.
  destruct (doctags_loop_total text s) as [r Hr]. unfold run_loop. rewrite Hr.
  change (default d (Some r)) with r.
  eapply (loop_inv (λ s', emits (dt_em s) (dt_em s')) (λ r, emits (dt_em s) (dt_em r))); [|done|done].
  intros s' Hs'. pose proof (doctags_step_spec text s') as Hstep.
  destruct (doctags_step page text s'); [destruct Hstep; by etrans|by etrans].
Qed.

Lemma map_doctags_emits text out warnings doc warnings' :
  map_doctags page text out warnings = Mapped doc warnings' →
  ∃ em, emits (dt_em (doctags_init page out warnings)) em ∧
    doc = finalize_document page (em_order em) (em_doc em).
Proof.
  unfold map_doctags. destruct (contains_char _ text); cbn [negb]; [|done]. cbv zeta.
  set (s0 := doctags_init page out warnings).
  pose proof (doctags_run text s0 s0) as Hrun.
  set (s1 := run_loop _ _ _ _) in *. clearbody s1.
  destruct (flush_spec s1) as [_ Hflush]. case_bool_decide; [done|]. intros [= <- _].
  eexists. split; [|done]. by etrans.
Qed.
End Steps.

(** * Plain elements *)

(** Tags whose element becomes one text item. *)
Definition simple_tags : list bytes :=
  [lit "title"; lit "section_header_level_1"; lit "section_header_level_2"; lit "formula";
   lit "list_item"; lit "page_header"; lit "page_footer"; lit "footnote"; lit "caption";
   lit "checkbox_selected"; lit "checkbox_unselected"; lit "document_index"; lit "text";
   lit "paragraph"].
Definition print_element (element : bytes * bytes) : bytes :=
  lit "<" ++ element.1 ++ lit ">" ++ element.2 ++ lit "</" ++ element.1 ++ lit ">".
Definition simple_element (element : bytes * bytes) : Prop :=
  element.1 ∈ simple_tags ∧ ("<"%char ∉ element.2).

Section RoundTrip.
Context `{ProtobufSize} `{Stb}.
Variable page : PageContext.

(** Between two elements. *)
Definition between_elements (pos items : nat) (em : Emission) : DocTags :=
  mk_DocTags pos Element_empty false false false [] items em.
(** Inside a plain element. *)
Definition inside_element (name text : bytes) (pos items : nat) (em : Emission) : DocTags :=
  mk_DocTags pos (mk_Element name [] text [] [] false [] []) true false false [] items em.

Lemma simple_tag_facts tag :
  tag ∈ simple_tags →
  (∀ text s pos items em,
     on_token page text tag s (between_elements pos items em) = inside_element tag [] pos items em) ∧
  (∀ text body s pos items em,
     on_token page text (lit "/" ++ tag) s (inside_element tag body pos items em) =
     flush page (inside_element tag body pos items em)) ∧
  (∀ body em, ∃ item,
     emit_element page (mk_Element tag [] body [] [] false [] []) None em =
       (true, emit_text (push_text item) em) ∧ item_text item = trim body) ∧
  head_is isalpha tag = true ∧ (">"%char ∉ tag).
Proof.
  assert (Hthen : ∀ item f em, emit_text (add_then (push_text item) f) em = emit_text (push_text (f item)) em).
  { apply emit_text_add_then. }
  unfold simple_tags. intros Hin.
  repeat (apply elem_of_cons in Hin as [-> | Hin];
    [split_and!; [reflexivity|reflexivity| |reflexivity|by apply not_contains];
     intros body em; eexists; split;
     [first [reflexivity | (etrans; [|apply (f_equal (pair true)), Hthen]; reflexivity)]|reflexivity]|]).
  by apply elem_of_nil in Hin.
Qed.

Lemma char_at_app s pre rest p i :
  s = pre ++ rest → i = length pre → head_is p rest = true → char_at s i p = true.
Proof.
  intros -> -> Hp. unfold char_at. rewrite lookup_app_r, Nat.sub_diag by lia.
  by destruct rest.
Qed.

(** The '<' at the end of [pre ++ mid] is the next token. *)
Lemma token_step text pre mid token rest s :
  text = pre ++ mid ++ lit "<" ++ token ++ lit ">" ++ rest →
  dt_pos s = length pre → dt_in_otsl s = false → ("<"%char ∉ mid) →
  head_is (λ c, isalpha c || (c =c "/"%char) || (c =c "_"%char)) token = true → (">"%char ∉ token) →
  doctags_step page text s =
  inl (on_token page text token (length (pre ++ mid))
    (set_dt_pos (length (pre ++ mid ++ lit "<" ++ token ++ lit ">"))
      (if bool_decide (mid = []) then s else append_text mid s))).
Proof.
  intros Htext Hpos Hotsl Hmid Hhead Htoken. unfold doctags_step.
  assert (Hlen : length text = (length pre + length mid + 2 + length token + length rest)%nat).
  { rewrite Htext, !length_app. cbn. lia. }
  rewrite bool_decide_true by lia. cbn [negb]. rewrite Hotsl, Hpos. unfold find_char.
  rewrite (find_if_hit _ text pre mid (lit "<" ++ token ++ lit ">" ++ rest));
    [|done|done|by intros; apply head_is_other|done|done].
  replace (opens_markup text (length pre + length mid)) with true.
  2: { symmetry. unfold opens_markup.
       eapply (char_at_app text (pre ++ mid ++ lit "<") (token ++ lit ">" ++ rest)).
       - by rewrite Htext, <- !app_assoc.
       - rewrite !length_app. cbn. lia.
       - by destruct token. }
  cbn [negb].
  rewrite (find_if_hit _ text (pre ++ mid) (lit "<" ++ token) (lit ">" ++ rest));
    [|by rewrite Htext, <- !app_assoc|by rewrite length_app| |done|done].
  2: { intros k Hk. apply head_is_other; [|done]. by intros [|]%elem_of_cons. }
  rewrite (substr_cut text (pre ++ mid ++ lit "<") token (lit ">" ++ rest));
    [|by rewrite Htext, <- !app_assoc|rewrite !length_app; cbn; lia|rewrite !length_app; cbn; lia].
  rewrite (substr_cut text pre mid (lit "<" ++ token ++ lit ">" ++ rest)) by (done || lia).
  replace (length (pre ++ mid) + length (lit "<" ++ token) + 1)%nat
    with (length (pre ++ mid ++ lit "<" ++ token ++ lit ">")) by (rewrite !length_app; cbn; lia).
  rewrite (length_app pre mid). do 3 f_equal.
  destruct mid as [|c mid].
  - rewrite bool_decide_false by (cbn; lia). by rewrite bool_decide_true.
  - rewrite bool_decide_true by (cbn; lia). by rewrite bool_decide_false.
Qed.

Lemma element_steps element pre rest items em :
  simple_element element →
  let text := pre ++ print_element element ++ rest in
  ∃ item, item_text item = trim element.2 ∧
    rtc (λ s s', doctags_step page text s = inl s')
      (between_elements (length pre) items em)
      (between_elements (length (pre ++ print_element element)) (S items)
         (emit_text (push_text item) em)).
Proof.
  destruct element as [tag body]. intros [Htag Hbody] text. cbn [fst snd] in *.
  destruct (simple_tag_facts tag Htag) as (Hopen & Hclose & Hemit & Halpha & Hgt).
  destruct (Hemit body em) as (item & Hitem & Htext). exists item. split; [done|].
  eapply rtc_l with (inside_element tag [] (length (pre ++ lit "<" ++ tag ++ lit ">")) items em).
  { rewrite (token_step text pre [] tag (body ++ lit "</" ++ tag ++ lit ">" ++ rest));
      [|by unfold text, print_element; cbn [fst snd]; rewrite <- !app_assoc
       |done|done|apply not_elem_of_nil| |done].
    - rewrite bool_decide_true by done. cbn [app]. f_equal. apply Hopen.
    - destruct tag; [done|]. cbn in Halpha |- *. by rewrite Halpha. }
  eapply rtc_l; [|apply rtc_refl].
  rewrite (token_step text (pre ++ lit "<" ++ tag ++ lit ">") body (lit "/" ++ tag) rest);
    [|by unfold text, print_element; cbn [fst snd]; rewrite <- !app_assoc
     |done|done|done|done|by intros [|]%elem_of_cons].
  set (pos := length ((pre ++ lit "<" ++ tag ++ lit ">") ++ body ++ lit "<" ++ (lit "/" ++ tag) ++ lit ">")).
  assert (Hpos : pos = length (pre ++ print_element (tag, body))).
  { unfold pos, print_element. cbn [fst snd]. rewrite !length_app. cbn. rewrite ?length_app. cbn. lia. }
  replace (set_dt_pos pos _) with (inside_element tag body pos items em)
    by (case_bool_decide; [by subst body|done]).
  rewrite Hclose. unfold flush. cbn [dt_element_open inside_element dt_current dt_em].
  rewrite Hitem. by rewrite <- Hpos.
Qed.

Lemma elements_steps elements pre items em :
  Forall simple_element elements →
  let text := pre ++ mjoin (print_element <$> elements) in
  ∃ new, item_text <$> new = (λ e, trim e.2) <$> elements ∧
    rtc (λ s s', doctags_step page text s = inl s')
      (between_elements (length pre) items em)
      (between_elements (length text) (items + length elements)
         (foldl (λ em item, emit_text (push_text item) em) em new)).
Proof.
  intros Hall. revert pre items em. induction Hall as [|element elements Hel _ IH]; intros pre items em text.
  - exists []. split; [done|]. unfold text. cbn. rewrite app_nil_r, Nat.add_0_r. apply rtc_refl.
  - subst text. cbn [fmap list_fmap]. change (mjoin (?x :: ?xs)) with (x ++ mjoin xs).
    destruct (element_steps element pre (mjoin (print_element <$> elements)) items em Hel)
      as (item & Hitem & Hsteps).
    destruct (IH (pre ++ print_element element) (S items) (emit_text (push_text item) em))
      as (new & Hnew & Hsteps'). rewrite <- app_assoc in Hsteps'.
    exists (item :: new). split; [cbn; by rewrite Hitem, Hnew|].
    etrans; [exact Hsteps|]. cbn [length foldl].
    by replace (items + S (length elements))%nat with (S items + length elements)%nat by lia.
Qed.

Lemma emit_texts_doc new em :
  item_text <$> doc_texts (em_doc (foldl (λ em item, emit_text (push_text item) em) em new)) =
  (item_text <$> doc_texts (em_doc em)) ++ (item_text <$> new).
Proof.
  revert em. induction new as [|item new IH]; intros em; cbn [foldl fmap list_fmap].
  - by rewrite app_nil_r.
  - rewrite IH. cbn. by rewrite fmap_app, <- app_assoc.
Qed.
End RoundTrip.

(** * Properties *)

Section Properties.
Context `{ProtobufSize} `{Stb}.

(** Whatever the model wrote, the fragment of a DocTags response is a
    tree: every text, picture, table, key-value item and group carries its own
    ref and exactly one parent, the body or a group that the body lists, and
    that parent lists it; no ref appears twice among the body's children. *)
Theorem map_doctags_tree page text warnings doc warnings' :
  map_doctags page text Document_empty warnings = Mapped doc warnings' →
  (∀ k i r, item_refs doc k i = Some r → well_parented doc k i r) ∧
  NoDup (default [] (gi_children <$> doc_body doc)).
Proof.
  intros (em & [new Hem] & ->)%map_doctags_emits.
  assert (Htree : tree_inv (em_doc em) (em_order em)).
  { pose proof (es_tree _ _ _ _ Hem [] tree_inv_empty) as Ht. done. }
  assert (Hbody : doc_body (em_doc em) = None) by apply (es_body _ _ _ _ Hem).
  split.
  - intros k i r. by apply finalize_tree.
  - rewrite finalize_children, Hbody. change (default [] (Some ?l)) with l. cbn [from_option].
    apply body_children_nodup. apply Htree.
Qed.

Lemma doctags_images page text warnings doc warnings' :
  0 <= max_inline_bytes (page_crops page) < 2 ^ 64 →
  map_doctags page text Document_empty warnings = Mapped doc warnings' →
  images_within (page_crops page) doc.
Proof.
  intros Hcap (em & [new Hem] & ->)%map_doctags_emits.
  assert (images_inv page em) as Hi by (by apply (es_images _ _ _ _ Hem), images_charged_new).
  apply (images_within_ext _ (em_doc em)); [|by eapply images_charged_within].
  symmetry. apply same_contents_images, finalize_same_contents.
Qed.

(** However many pictures the model names, the images a fragment inlines never
    exceed the page's byte cap nor its number of crops. *)
Theorem map_doctags_images page text warnings doc warnings' :
  0 <= max_inline_bytes (page_crops page) < 2 ^ 64 →
  map_doctags page text Document_empty warnings = Mapped doc warnings' →
  images_within (page_crops page) doc.
Proof. apply doctags_images. Qed.

(** C29: A response made of plain elements maps to one text item per element,
    in order, each holding its element's text. *)
Theorem map_doctags_roundtrip page elements warnings :
  elements ≠ [] → Forall simple_element elements →
  ∃ doc warnings',
    map_doctags page (mjoin (print_element <$> elements)) Document_empty warnings =
      Mapped doc warnings' ∧
    item_text <$> doc_texts doc = (λ e, trim e.2) <$> elements.
Proof.
  intros Hne Hall. set (text := mjoin (print_element <$> elements)).
  destruct (elements_steps page elements [] 0 (dt_em (doctags_init page Document_empty warnings)) Hall)
    as (new & Hnew & Hsteps).
  cbv zeta in Hsteps. cbn [app length plus] in Hsteps. fold text in Hsteps.
  unfold map_doctags.
  assert (Hlt : contains_char "<"%char text = true).
  { apply contains_char_true. destruct elements as [|e elements]; [done|]. by left. }
  rewrite Hlt. cbn [negb]. cbv zeta. unfold run_loop.
  erewrite (loop_rtc (doctags_step page text)); [|exact Hsteps| |apply doctags_loop_total].
  2: { unfold doctags_step. cbn [dt_pos between_elements]. by rewrite bool_decide_false by lia. }
  change (default ?d (Some ?x)) with x. unfold flush. cbn [between_elements dt_element_open dt_items dt_em].
  rewrite bool_decide_false by (destruct elements; [done|cbn; lia]).
  eexists _, _. split; [done|].
  rewrite (same_contents_texts _ _ (finalize_same_contents page _ _)), emit_texts_doc, Hnew. done.
Qed.
End Properties.

(** * Key-value regions *)

Section KeyValue.
Variable page : PageContext.

Lemma next_cell_lt chunk pos open is_key :
  next_cell chunk pos = Some (open, is_key) → (pos ≤ open < length chunk)%nat.
Proof.
  unfold next_cell. destruct (find (lit "<key_") chunk pos) as [k|] eqn:E1;
    destruct (find (lit "<value_") chunk pos) as [v|] eqn:E2; [case_bool_decide| | |done];
    intros [= <- <-]; (by apply find_lt in E1) || (by apply find_lt in E2).
Qed.

(** Every raw link starts at a cell emitted so far. *)
Definition links_from_cells (s : KvState) : Prop :=
  Forall (λ link, link.1 ∈ gc_cell_id <$> kvs_cells s) (kvs_raw_links s).

Lemma kv_step_spec chunk s :
  links_from_cells s →
  match kv_step page chunk s with
  | inl s' => links_from_cells s' ∧ (length chunk - kvs_pos s' < length chunk - kvs_pos s)%nat
  | inr s' => links_from_cells s'
  end.
Proof.
  intros Hs. unfold kv_step. case_bool_decide; cbn [negb]; [|done].
  destruct (next_cell chunk (kvs_pos s)) as [[open is_key]|] eqn:E1; [|done].
  apply next_cell_lt in E1.
  destruct (find_char ">"%char chunk _) as [gt|] eqn:E2; [|done]. apply find_char_lt in E2.
  destruct (stoi _) as [cell_id|]; [|split; [done|cbn; lia]]. cbv zeta.
  match goal with |- context [find ?t chunk (gt + 1)] => set (close_tag := t) end.
  destruct (find close_tag chunk (gt + 1)) as [stop|] eqn:E3; [|split; [done|cbn; lia]].
  apply find_lt in E3. split; [|cbn; lia]. unfold links_from_cells in *. cbn.
  apply Forall_app. split.
  - eapply Forall_impl; [done|]. cbn. intros link Hlink. rewrite fmap_app. apply elem_of_app. by left.
  - apply Forall_forall. intros link Hlink. apply list_elem_of_In, in_map_iff in Hlink as (t & <- & _).
    rewrite fmap_app. apply elem_of_app. right. by apply list_elem_of_singleton.
Qed.

(** A key-value region's graph is closed: every TO_VALUE link joins two
    cells the region emitted, whatever <link_N> tokens the model wrote. *)
Theorem kv_graph_closed chunk link :
  link ∈ gd_links (kv_graph_of page chunk) →
  gl_source_cell_id link ∈ gc_cell_id <$> gd_cells (kv_graph_of page chunk) ∧
  gl_target_cell_id link ∈ gc_cell_id <$> gd_cells (kv_graph_of page chunk).
Proof.
  unfold kv_graph_of. cbn [gd_cells gd_links].
  set (s0 := mk_KvState (head_start_of chunk) [] []).
  assert (Hs : links_from_cells (run_loop s0 (S (length chunk)) (kv_step page chunk) s0)).
  { apply (run_loop_spec links_from_cells links_from_cells (λ s, length chunk - kvs_pos s)%nat).
    - intros s. apply kv_step_spec.
    - constructor.
    - cbn. lia. }
  revert Hs. generalize (run_loop s0 (S (length chunk)) (kv_step page chunk) s0) as s. intros s Hs.
  intros ((source & target) & -> & [Ht Hin]%list_elem_of_filter)%list_elem_of_fmap. cbn in *.
  split; [|done]. unfold links_from_cells in Hs. rewrite Forall_forall in Hs.
  apply (Hs (source, target) Hin).
Qed.
End KeyValue.

(** * What the code does with locations *)

Definition toy_page : PageContext :=
  mk_PageContext 1 1000 1000 [] CropBudget_default CollectorSource_empty None None.
(** The box of the first text item. *)
Definition first_box (result : MapResult) : option BoundingBox :=
  match result with
  | Mapped doc _ =>
      match doc_texts doc with
      | kText base :: _ => match tb_prov base with prov :: _ => Some (pi_bbox prov) | [] => None end
      | _ => None
      end
  | MapFailed _ => None
  end.

Section Locations.
Context `{ProtobufSize} `{Stb}.

(** Locations read before a tag never reach the element the tag opens,
    since closing whatever was open clears them first: the element starts
    with no location, so a text after its <loc_*> tokens gets the full-page
    box, where the same tokens inside the element give it a box of its
    own. *)
Theorem pending_locs_dropped page name s :
  el_locs (dt_current (open_element name (flush page s))) = [] ∧
  first_box (map_doctags toy_page (lit "<loc_1><loc_2><loc_3><loc_4><text>a</text>")
    Document_empty None) = Some (full_page_box toy_page) ∧
  first_box (map_doctags toy_page (lit "<text><loc_1><loc_2><loc_3><loc_4>a</text>")
    Document_empty None) = Some (locs_box [1; 2; 3; 4] toy_page).
Proof.
  split_and!; [|vm_compute; reflexivity|vm_compute; reflexivity].
  unfold flush. by destruct (if dt_element_open s then _ else _).
Qed.

(** An inline group's shared box is given to its text children only: for a
    picture, chart or table child [emit_element] ignores the box it is told
    to use. *)
Theorem forced_box_ignored page element box em :
  el_name element ∈ [lit "picture"; lit "chart"; lit "table"; lit "otsl"] →
  emit_element page element (Some box) em = emit_element page element None em.
Proof.
  destruct element as [name locs text otsl tags has_caption caption_locs caption_text].
  cbn [el_name]. intros Hin.
  repeat (apply elem_of_cons in Hin as [-> | Hin];
    [unfold emit_element; cbn [el_name]; decide_lits; reflexivity|]).
  exfalso. by apply elem_of_nil in Hin.
Qed.
End Locations.

(** * Concrete instances *)

Definition toy_doctags : bytes :=
  lit "<doctag><title>T</title><inline><text>a</text></inline><picture><loc_1><loc_1><loc_250><loc_250></picture></doctag>".
Definition toy_raster_page : PageContext :=
  mk_PageContext 1 2 2 (lit "png") (mk_CropBudget 4 (of_Z 2) 100) CollectorSource_empty None None.
Definition toy_elements : list (bytes * bytes) :=
  [(lit "title", lit "T"); (lit "text", lit " a > b "); (lit "footnote", [])].
Definition toy_region : bytes :=
  lit "<key_value_region><key_0>K<link_1><link_7></key_0><value_1>V</value_1></key_value_region>".

Lemma map_doctags_tree_witness :
  ∃ doc warnings,
    @map_doctags toy_size toy_stb toy_page toy_doctags Document_empty None = Mapped doc warnings ∧
    NoDup (default [] (gi_children <$> doc_body doc)).
Proof.
  eexists _, _. split; [vm_compute; reflexivity|].
  eapply (@map_doctags_tree toy_size toy_stb toy_page toy_doctags None). vm_compute. reflexivity.
Defined.

Lemma map_doctags_images_witness :
  ∃ doc warnings,
    @map_doctags toy_size toy_stb toy_raster_page toy_doctags Document_empty None = Mapped doc warnings ∧
    picture_bytes (doc_pictures doc) <= 100 ∧ picture_crops (doc_pictures doc) <= 4.
Proof.
  eexists _, _. split; [vm_compute; reflexivity|].
  apply (@map_doctags_images toy_size toy_stb toy_raster_page toy_doctags None _ None);
    [cbn; lia|vm_compute; reflexivity].
Defined.

Lemma map_doctags_roundtrip_witness :
  ∃ doc warnings,
    @map_doctags toy_size toy_stb toy_page (mjoin (print_element <$> toy_elements)) Document_empty None
      = Mapped doc warnings ∧
    item_text <$> doc_texts doc = [lit "T"; lit "a > b"; []].
Proof.
  apply (@map_doctags_roundtrip toy_size toy_stb toy_page toy_elements None); [done|].
  repeat constructor; try (by apply not_contains); apply (bool_decide_unpack _); vm_compute; done.
Defined.

Lemma kv_graph_closed_witness :
  length (gd_links (kv_graph_of toy_page toy_region)) = 1%nat ∧
  1 ∈ gc_cell_id <$> gd_cells (kv_graph_of toy_page toy_region).
Proof.
  split; [vm_compute; reflexivity|].
  apply (kv_graph_closed toy_page toy_region (mk_GraphLink GRAPH_LINK_LABEL_TO_VALUE 0 1)).
  vm_compute. left.
Defined.

Lemma forced_box_ignored_witness :
  let child := mk_Element (lit "table") [] [] [] [] false [] [] in
  let em := dt_em (doctags_init toy_page Document_empty None) in
  @emit_element toy_size toy_stb toy_page child (Some BoundingBox_empty) em =
  @emit_element toy_size toy_stb toy_page child None em.
Proof.
  intros child em. apply (@forced_box_ignored toy_size toy_stb toy_page child BoundingBox_empty em).
  right. right. left.
Defined.
