(* ===== verification/VlmProto.v ===== *)
(** The messages of the service's own contract
    (src/proto/ai/pipestream/vlm/v1/vlm_convert.proto) with the fields the
    program reads or sets.  A proto3 enum is open: a value no name is known for
    keeps its number.  An unset oneof is [None]. *)
From S2P Require Import Prelude Numbers Double Proto.

(** * Enums *)

Inductive VlmPreset :=
  | VLM_PRESET_UNSPECIFIED
  | VLM_PRESET_SMOLDOCLING
  | VLM_PRESET_GRANITE_DOCLING
  | VLM_PRESET_GOT_OCR_2
  | VLM_PRESET_GRANITE_VISION
  | VLM_PRESET_DEEPSEEK_OCR
  | VLM_PRESET_NANONETS_OCR2
  | VLM_PRESET_GLM_OCR
  | VLM_PRESET_LIGHTON_OCR
  | VLM_PRESET_RAW
  | VLM_PRESET_NORTH_MICRO_VISION
  | VLM_PRESET_unrecognized (number : Z).
#[export] Instance VlmPreset_eq_dec : EqDecision VlmPreset.
Proof. solve_decision. Defined.

Inductive ResponseFormat :=
  | RESPONSE_FORMAT_UNSPECIFIED
  | RESPONSE_FORMAT_DOCTAGS
  | RESPONSE_FORMAT_MARKDOWN
  | RESPONSE_FORMAT_HTML
  | RESPONSE_FORMAT_OTSL
  | RESPONSE_FORMAT_PLAINTEXT
  | RESPONSE_FORMAT_DOCLANG
  | RESPONSE_FORMAT_DEEPSEEKOCR_MARKDOWN
  | RESPONSE_FORMAT_UNLIMITED_OCR_MARKDOWN
  | RESPONSE_FORMAT_CHANDRA_HTML
  | RESPONSE_FORMAT_DOTS_JSON
  | RESPONSE_FORMAT_NEMOTRON_PARSE_V2
  | RESPONSE_FORMAT_NEMOTRON_PARSE_V3_5
  | RESPONSE_FORMAT_MINERU2
  | RESPONSE_FORMAT_unrecognized (number : Z).
#[export] Instance ResponseFormat_eq_dec : EqDecision ResponseFormat.
Proof. solve_decision. Defined.

(** The enum as the .proto lists it: each value at its number, by its name. *)
Definition ResponseFormat_values : list (ResponseFormat * bytes) := [
  (RESPONSE_FORMAT_UNSPECIFIED, lit "RESPONSE_FORMAT_UNSPECIFIED");
  (RESPONSE_FORMAT_DOCTAGS, lit "RESPONSE_FORMAT_DOCTAGS");
  (RESPONSE_FORMAT_MARKDOWN, lit "RESPONSE_FORMAT_MARKDOWN");
  (RESPONSE_FORMAT_HTML, lit "RESPONSE_FORMAT_HTML");
  (RESPONSE_FORMAT_OTSL, lit "RESPONSE_FORMAT_OTSL");
  (RESPONSE_FORMAT_PLAINTEXT, lit "RESPONSE_FORMAT_PLAINTEXT");
  (RESPONSE_FORMAT_DOCLANG, lit "RESPONSE_FORMAT_DOCLANG");
  (RESPONSE_FORMAT_DEEPSEEKOCR_MARKDOWN, lit "RESPONSE_FORMAT_DEEPSEEKOCR_MARKDOWN");
  (RESPONSE_FORMAT_UNLIMITED_OCR_MARKDOWN, lit "RESPONSE_FORMAT_UNLIMITED_OCR_MARKDOWN");
  (RESPONSE_FORMAT_CHANDRA_HTML, lit "RESPONSE_FORMAT_CHANDRA_HTML");
  (RESPONSE_FORMAT_DOTS_JSON, lit "RESPONSE_FORMAT_DOTS_JSON");
  (RESPONSE_FORMAT_NEMOTRON_PARSE_V2, lit "RESPONSE_FORMAT_NEMOTRON_PARSE_V2");
  (RESPONSE_FORMAT_NEMOTRON_PARSE_V3_5, lit "RESPONSE_FORMAT_NEMOTRON_PARSE_V3_5");
  (RESPONSE_FORMAT_MINERU2, lit "RESPONSE_FORMAT_MINERU2")].

(** [ResponseFormat_IsValid], [_Name] ("" when it has none), [_Parse] and the
    number, as protoc generates them from that list. *)
Definition ResponseFormat_IsValid (format : ResponseFormat) : bool :=
  match format with RESPONSE_FORMAT_unrecognized _ => false | _ => true end.
Definition ResponseFormat_entry (format : ResponseFormat) : option (nat * (ResponseFormat * bytes)) :=
  list_find (λ entry, entry.1 = format) ResponseFormat_values.
Definition ResponseFormat_Name (format : ResponseFormat) : bytes :=
  match ResponseFormat_entry format with Some (_, (_, name)) => name | None => [] end.
Definition ResponseFormat_number (format : ResponseFormat) : Z :=
  match format with
  | RESPONSE_FORMAT_unrecognized number => number
  | _ => match ResponseFormat_entry format with Some (number, _) => Z.of_nat number | None => 0 end
  end.
Definition ResponseFormat_Parse (name : bytes) : option ResponseFormat :=
  match list_find (λ entry, entry.2 = name) ResponseFormat_values with
  | Some (_, (format, _)) => Some format
  | None => None
  end.
(** [static_cast<ResponseFormat>(number)]. *)
Definition ResponseFormat_of (number : Z) : ResponseFormat :=
  match (if 0 <=? number then ResponseFormat_values !! Z.to_nat number else None) with
  | Some (format, _) => format
  | None => RESPONSE_FORMAT_unrecognized number
  end.

(** * Requests *)

Record ConvertOptions := mk_ConvertOptions {
  co_preset : VlmPreset;
  co_preset_raw : bytes;
  co_response_format : ResponseFormat;
  co_prompt : bytes;
  co_endpoint : bytes;
  co_concurrency : Z;
  co_abort_on_error : bool;
  co_top_logprobs : Z;
  co_response_format_raw : bytes }.
Definition ConvertOptions_empty : ConvertOptions :=
  mk_ConvertOptions VLM_PRESET_UNSPECIFIED [] RESPONSE_FORMAT_UNSPECIFIED [] [] 0 false 0 [].

Record PageImage := mk_PageImage {
  im_png : bytes;
  im_page_no : Z;
  im_width : Z;
  im_height : Z }.
Definition PageImage_empty : PageImage := mk_PageImage [] 0 0 0.

(** The payload oneof of a request. *)
Inductive Payload :=
  | kOptions (options : ConvertOptions)
  | kPageImage (image : PageImage)
  | kPdfChunk (data : bytes).
Definition ConvertPagesRequest : Type := option Payload.

(** * Responses *)

Record PageDocument := mk_PageDocument {
  pd_page_no : Z;
  pd_document : Document;
  pd_warnings : list PageWarning }.
Record PageRaw := mk_PageRaw {
  pr_page_no : Z;
  pr_text : bytes;
  pr_error : bytes }.
Record ConvertComplete := mk_ConvertComplete {
  cc_pages_started : Z;
  cc_pages_ok : Z;
  cc_pages_failed : Z }.

(** The event oneof of a response; the pipeline always sets one. *)
Inductive ConvertPagesResponse :=
  | kPageStarted (started_page_no : Z)
  | kPageDocument (document : PageDocument)
  | kPageRaw (raw : PageRaw)
  | kComplete (complete : ConvertComplete).

Record UiInfo := mk_UiInfo { ui_title : bytes; ui_path : bytes; ui_description : bytes }.
Record GetServiceInfoResponse := mk_GetServiceInfoResponse {
  si_version : bytes;
  si_endpoint : bytes;
  si_presets : list VlmPreset;
  si_raw_presets : list bytes;
  si_concurrency : Z;
  si_max_page_bytes : Z;
  si_max_pages : Z;
  si_ui : UiInfo;
  si_response_formats : list ResponseFormat }.

(** * RPC statuses *)

(** The [grpc::StatusCode]s the program names. *)
Inductive StatusCode :=
  | OK | CANCELLED | INVALID_ARGUMENT | PERMISSION_DENIED | RESOURCE_EXHAUSTED
  | FAILED_PRECONDITION | ABORTED | UNIMPLEMENTED | INTERNAL | UNAUTHENTICATED.
#[export] Instance StatusCode_eq_dec : EqDecision StatusCode.
Proof. solve_decision. Defined.

Record Status := mk_Status { status_code : StatusCode; status_message : bytes }.
Definition Status_OK : Status := mk_Status OK [].
Definition status_ok (status : Status) : bool := bool_decide (status_code status = OK).

(** * The enum tables agree with themselves *)

Lemma ResponseFormat_Name_Parse name format :
  ResponseFormat_Parse name = Some format → ResponseFormat_Name format = name ∧
  ResponseFormat_IsValid format = true.
Proof.
  unfold ResponseFormat_Parse. destruct (list_find _ _) as [[i [f n]]|] eqn:E; [|done].
  intros [= ->]. apply list_find_Some in E as (Hi & <- & _). cbn [snd].
  apply list_elem_of_lookup_2 in Hi. clear i. revert format n Hi.
  assert (Hall : Forall (λ entry, ResponseFormat_Name entry.1 = entry.2 ∧
    ResponseFormat_IsValid entry.1 = true) ResponseFormat_values).
  { unfold ResponseFormat_values. repeat (apply Forall_cons_2; [split; vm_compute; reflexivity|]).
    apply Forall_nil_2. }
  intros format n Hi. rewrite Forall_forall in Hall. apply (Hall (format, n) Hi).
Qed.

Lemma ResponseFormat_Parse_Name format :
  ResponseFormat_IsValid format = true →
  ResponseFormat_Parse (ResponseFormat_Name format) = Some format.
Proof. by destruct format. Qed.

Lemma ResponseFormat_of_number format :
  ResponseFormat_IsValid format = true → ResponseFormat_of (ResponseFormat_number format) = format.
Proof. by destruct format. Qed.
