(* ===== verification/Secret.v ===== *)
(** Credentials (src/secret.h): the comparison the bearer check rests on. *)
From S2P Require Import Prelude.

Record Secret := mk_Secret { secret_value : bytes }.
Definition Secret_empty : Secret := mk_Secret [].
Definition secret_is_empty (secret : Secret) : bool := bool_decide (secret_value secret = []).
(** [reveal]: the one way out. *)
Definition reveal (secret : Secret) : bytes := secret_value secret.

(** The loop of [matches]: every byte of the candidate is folded into the
    difference; past the secret's end the byte compared against is 0. *)
Fixpoint fold_difference (value candidate : bytes) (difference : Z) : Z :=
  match candidate with
  | [] => difference
  | c :: candidate' =>
      let expected := match value with v :: _ => code v | [] => 0 end in
      fold_difference (tail value) candidate' (Z.lor difference (Z.lxor expected (code c)))
  end.
Definition secret_matches (candidate : bytes) (secret : Secret) : bool :=
  if secret_is_empty secret then false else
  let difference := if bool_decide (length candidate = length (secret_value secret)) then 0 else 1 in
  fold_difference (secret_value secret) candidate difference =? 0.

Lemma code_inj c d : code c = code d → c = d.
Proof.
  unfold code. intros H%N2Z.inj. rewrite <- (ascii_N_embedding c), <- (ascii_N_embedding d).
  by rewrite H.
Qed.

Lemma fold_difference_zero value candidate difference :
  fold_difference value candidate difference = 0 ↔
  difference = 0 ∧ ∀ i c, candidate !! i = Some c →
    code c = match value !! i with Some v => code v | None => 0 end.
Proof.
  revert value difference. induction candidate as [|c candidate IH]; intros value difference.
  { cbn. split; [intros ->; done|by intros []]. }
  cbn [fold_difference]. rewrite IH, Z.lor_eq_0_iff, Z.lxor_eq_0_iff. split.
  - intros [[-> He] Hrest]. split; [done|]. intros [|i] d Hd; cbn in Hd.
    + injection Hd as <-. rewrite <- He. by destruct value.
    + rewrite (Hrest i d Hd). by destruct value.
  - intros [-> Hall]. split_and!; [done| |].
    + rewrite (Hall 0%nat c eq_refl). by destruct value.
    + intros i d Hd. rewrite (Hall (S i) d Hd). by destruct value.
Qed.

Lemma secret_matches_value secret candidate :
  secret_matches candidate secret = true ↔ secret_value secret ≠ [] ∧ candidate = secret_value secret.
Proof.
  unfold secret_matches, secret_is_empty. destruct secret as [value]. cbn [secret_value].
  case_bool_decide as He; [split; [done|by intros []]|].
  rewrite Z.eqb_eq, fold_difference_zero. case_bool_decide as Hlen; [|split; [by intros []|]].
  - split.
    + intros [_ Hall]. split; [done|]. apply list_eq_same_length with (length value); [done..|].
      intros i v c Hi Hv Hc. apply code_inj. rewrite (Hall i v Hv). by rewrite Hc.
    + intros [_ ->]. split; [done|]. intros i c ->. done.
  - intros [_ ->]. done.
Qed.

(** [Secret::matches] holds for exactly one candidate, the secret itself,
    and for none when the secret is empty: the constant-time loop (a length
    flag or-ed with the exclusive or of every byte pair) decides equality. *)
Theorem secret_matches_iff secret candidate :
  secret_matches candidate secret = true ↔ secret_value secret ≠ [] ∧ candidate = secret_value secret.
Proof. apply secret_matches_value. Qed.
