(* ===== verification/Presets.v ===== *)
(** Model presets and response-format names (src/presets.h, src/presets.cpp). *)
From S2P Require Import Prelude Numbers Double Proto VlmProto.

Record PresetSpec := mk_PresetSpec {
  ps_preset : VlmPreset;
  ps_name : bytes;
  ps_model : bytes;
  ps_prompt : bytes;
  ps_format : ResponseFormat;
  ps_stop : list bytes;
  ps_max_tokens : Z }.

Definition kPresets : list PresetSpec := [
  mk_PresetSpec VLM_PRESET_SMOLDOCLING (lit "smoldocling")
    (lit "HuggingFaceTB/SmolDocling-256M-preview") (lit "Convert this page to docling.")
    RESPONSE_FORMAT_DOCTAGS [lit "</doctag>"; lit "<end_of_utterance>"] 4096;
  mk_PresetSpec VLM_PRESET_GRANITE_DOCLING (lit "granite-docling")
    (lit "ibm-granite/granite-docling-258M") (lit "Convert this page to DocTags.")
    RESPONSE_FORMAT_DOCTAGS [lit "</doctag>"; lit "<|end_of_text|>"] 8192;
  mk_PresetSpec VLM_PRESET_GOT_OCR_2 (lit "got-ocr-2") (lit "stepfun-ai/GOT-OCR-2.0-hf")
    (lit "Convert this page to markdown.") RESPONSE_FORMAT_MARKDOWN [] 4096;
  mk_PresetSpec VLM_PRESET_GRANITE_VISION (lit "granite-vision")
    (lit "ibm-granite/granite-vision-3.2-2b") (lit "Convert this page to markdown.")
    RESPONSE_FORMAT_MARKDOWN [] 4096;
  mk_PresetSpec VLM_PRESET_DEEPSEEK_OCR (lit "deepseek-ocr") (lit "deepseek-ai/DeepSeek-OCR")
    (lit "Convert this document to markdown.") RESPONSE_FORMAT_MARKDOWN [] 4096;
  mk_PresetSpec VLM_PRESET_NANONETS_OCR2 (lit "nanonets-ocr2") (lit "nanonets/Nanonets-OCR2-3B")
    (lit "Extract the text from the above document as if you were reading it naturally.")
    RESPONSE_FORMAT_MARKDOWN [] 4096;
  mk_PresetSpec VLM_PRESET_GLM_OCR (lit "glm-ocr") (lit "zai-org/GLM-OCR")
    (lit "Convert this page to markdown.") RESPONSE_FORMAT_MARKDOWN [] 4096;
  mk_PresetSpec VLM_PRESET_LIGHTON_OCR (lit "lighton-ocr") (lit "lightonai/LightOnOCR-1B")
    (lit "Convert this page to markdown.") RESPONSE_FORMAT_MARKDOWN [] 4096;
  mk_PresetSpec VLM_PRESET_NORTH_MICRO_VISION (lit "north-micro-vision")
    (lit "CohereLabs/North-Micro-Vision-Instruct")
    (lit "Convert this page to markdown. Keep the reading order, every heading, " ++
     lit "paragraph, list and table (tables as markdown tables), and transcribe " ++
     lit "the text exactly; do not summarize or describe.")
    RESPONSE_FORMAT_MARKDOWN [] 8192].

Definition all_presets : list PresetSpec := kPresets.

Fixpoint find_spec (test : PresetSpec → bool) (specs : list PresetSpec) : option PresetSpec :=
  match specs with
  | [] => None
  | spec :: specs' => if test spec then Some spec else find_spec test specs'
  end.
Definition find_preset (preset : VlmPreset) : option PresetSpec :=
  find_spec (λ spec, bool_decide (ps_preset spec = preset)) kPresets.
Definition find_preset_by_name (name : bytes) : option PresetSpec :=
  find_spec (λ spec, ps_name spec =b name) kPresets.

(** The output parameters of [resolve_request]. *)
Record Resolved := mk_Resolved {
  rs_model : bytes;
  rs_prompt : bytes;
  rs_format : ResponseFormat;
  rs_stop : list bytes;
  rs_max_tokens : Z }.

(** [None] is the return of false, after which the caller reads none of the
    output parameters. *)
Definition resolve_request (options : ConvertOptions) : option Resolved :=
  let defaults :=
    if bool_decide (co_preset options = VLM_PRESET_RAW) then
      if bool_decide (co_preset_raw options = []) then None
      else Some (mk_Resolved (co_preset_raw options) (lit "Convert this page to DocTags.")
                   RESPONSE_FORMAT_DOCTAGS [] 4096)
    else
      let preset := if bool_decide (co_preset options = VLM_PRESET_UNSPECIFIED)
                    then VLM_PRESET_GRANITE_DOCLING else co_preset options in
      match find_preset preset with
      | None => None
      | Some spec => Some (mk_Resolved (ps_model spec) (ps_prompt spec) (ps_format spec)
                             (ps_stop spec) (ps_max_tokens spec))
      end in
  match defaults with
  | None => None
  | Some r =>
      let model := if negb (bool_decide (co_preset_raw options = [])) &&
                      negb (bool_decide (co_preset options = VLM_PRESET_RAW))
                   then co_preset_raw options else rs_model r in
      let prompt := if bool_decide (co_prompt options = []) then rs_prompt r
                    else co_prompt options in
      let format := if bool_decide (co_response_format options = RESPONSE_FORMAT_UNSPECIFIED)
                    then rs_format r else co_response_format options in
      Some (mk_Resolved model prompt format (rs_stop r) (rs_max_tokens r))
  end.

Definition kFormatPrefix : bytes := lit "RESPONSE_FORMAT_".

(** The loop that appends the upper-cased value; [None] at an upper-case
    byte. *)
Fixpoint append_upper (name value : bytes) : option bytes :=
  match value with
  | [] => Some name
  | c :: value' => if isupper c then None else append_upper (name ++ [toupper c]) value'
  end.
Definition response_format_from_docling (value : bytes) : option ResponseFormat :=
  if bool_decide (value = []) then None else
  match append_upper kFormatPrefix value with
  | None => None
  | Some name =>
      match ResponseFormat_Parse name with
      | None => None
      | Some format =>
          if bool_decide (format = RESPONSE_FORMAT_UNSPECIFIED) then None else Some format
      end
  end.

Definition docling_response_format_name (format : ResponseFormat) : bytes :=
  if bool_decide (format = RESPONSE_FORMAT_UNSPECIFIED) || negb (ResponseFormat_IsValid format)
  then [] else map tolower (substr_from (ResponseFormat_Name format) 16).

Definition response_format_served (format : ResponseFormat) : bool :=
  ResponseFormat_IsValid format &&
  negb (bool_decide (format = RESPONSE_FORMAT_UNSPECIFIED)) &&
  negb (bool_decide (format = RESPONSE_FORMAT_MINERU2)).

(** * Lookups *)

Lemma find_spec_Some test specs spec :
  find_spec test specs = Some spec → spec ∈ specs ∧ test spec = true.
Proof.
  induction specs as [|s specs IH]; cbn; [done|]. destruct (test s) eqn:E.
  - intros [= ->]. split; [left|done].
  - intros [? ?]%IH. split; [by right|done].
Qed.

Lemma find_preset_Some preset spec :
  find_preset preset = Some spec → spec ∈ kPresets ∧ ps_preset spec = preset.
Proof. intros [? ?%bool_decide_eq_true]%find_spec_Some. done. Qed.

Lemma find_preset_by_name_Some name spec :
  find_preset_by_name name = Some spec → spec ∈ kPresets ∧ ps_name spec = name.
Proof. intros [? ?%bool_decide_eq_true]%find_spec_Some. done. Qed.

(** What holds of every built-in preset, checked on the table. *)
Lemma kPresets_Forall (P : PresetSpec → Prop) `{∀ spec, Decision (P spec)} :
  forallb (λ spec, bool_decide (P spec)) kPresets = true → ∀ spec, spec ∈ kPresets → P spec.
Proof.
  intros Hall spec Hin. rewrite forallb_forall in Hall.
  apply (bool_decide_eq_true (P spec)), Hall. by apply list_elem_of_In.
Qed.

(** * Resolution *)

Lemma resolve_request_fields options :
  (is_Some (resolve_request options) ↔
   if bool_decide (co_preset options = VLM_PRESET_RAW) then co_preset_raw options ≠ []
   else co_preset options = VLM_PRESET_UNSPECIFIED ∨
        ∃ spec, spec ∈ kPresets ∧ ps_preset spec = co_preset options) ∧
  (∀ r, resolve_request options = Some r →
     rs_model r ≠ [] ∧ rs_prompt r ≠ [] ∧ 0 < rs_max_tokens r ∧
     (co_preset_raw options ≠ [] → rs_model r = co_preset_raw options) ∧
     (co_prompt options ≠ [] → rs_prompt r = co_prompt options) ∧
     (co_response_format options ≠ RESPONSE_FORMAT_UNSPECIFIED →
      rs_format r = co_response_format options) ∧
     (co_response_format options = RESPONSE_FORMAT_UNSPECIFIED →
      response_format_served (rs_format r) = true)).
Proof.
  pose proof (kPresets_Forall (λ spec, ps_model spec ≠ [] ∧ ps_prompt spec ≠ [] ∧
    0 < ps_max_tokens spec ∧ response_format_served (ps_format spec) = true) eq_refl) as Hspecs.
  unfold resolve_request. case_bool_decide as Hraw.
  { case_bool_decide as Hempty.
    { split; [by split; [intros []|]|done]. }
    split; [by split; [|eauto]|]. intros r [= <-]. cbn.
    repeat case_bool_decide; split_and!; done || congruence. }
  rewrite andb_true_r. set (preset := if bool_decide _ then _ else _).
  destruct (find_preset preset) as [spec|] eqn:E.
  - apply find_preset_Some in E as [Hin Hp]. destruct (Hspecs spec Hin) as (?&?&?&?). split.
    + split; [|eauto]. intros _. subst preset. case_bool_decide; eauto.
    + intros r [= <-]. cbn. repeat case_bool_decide; cbn; split_and!; done || congruence.
  - split; [|done]. split; [by intros []|]. subst preset. intros [Hu|(spec & Hin & Hp)].
    + by rewrite bool_decide_true in E.
    + case_bool_decide; [by vm_compute in E|]. rewrite <- Hp in E.
      exfalso. revert spec Hin E Hp. clear. intros spec Hin E _.
      pose proof (kPresets_Forall (λ spec, find_preset (ps_preset spec) ≠ None)) as Hall.
      refine (Hall _ spec Hin E). vm_compute. reflexivity.
Qed.

(** Resolution succeeds exactly for the RAW preset with a model name, the
    unspecified preset (granite-docling) and the built-in presets; whatever it
    returns has a non-empty model and prompt, a positive token budget, and a
    request's own model name, prompt and format win over the preset's. *)
Theorem resolve_request_spec options :
  (is_Some (resolve_request options) ↔
   if bool_decide (co_preset options = VLM_PRESET_RAW) then co_preset_raw options ≠ []
   else co_preset options = VLM_PRESET_UNSPECIFIED ∨
        ∃ spec, spec ∈ kPresets ∧ ps_preset spec = co_preset options) ∧
  (∀ r, resolve_request options = Some r →
     rs_model r ≠ [] ∧ rs_prompt r ≠ [] ∧ 0 < rs_max_tokens r ∧
     (co_preset_raw options ≠ [] → rs_model r = co_preset_raw options) ∧
     (co_prompt options ≠ [] → rs_prompt r = co_prompt options) ∧
     (co_response_format options ≠ RESPONSE_FORMAT_UNSPECIFIED →
      rs_format r = co_response_format options) ∧
     (co_response_format options = RESPONSE_FORMAT_UNSPECIFIED →
      response_format_served (rs_format r) = true)).
Proof. apply resolve_request_fields. Qed.

(** ** Docling's spelling of a format *)

Lemma append_upper_spec name value :
  append_upper name value =
  if forallb (λ c, negb (isupper c)) value then Some (name ++ map toupper value) else None.
Proof.
  revert name. induction value as [|c value IH]; intros name; cbn; [by rewrite app_nil_r|].
  destruct (isupper c); cbn; [done|]. rewrite IH. by rewrite <- app_assoc.
Qed.

(** A property of every byte, by running through them. *)
Lemma every_byte (p : ascii → bool) :
  forallb (λ n, p (ascii_of_nat n)) (seq 0 256) = true → ∀ c, p c = true.
Proof.
  intros Hall c. rewrite forallb_forall in Hall. rewrite <- (ascii_nat_embedding c).
  apply Hall, in_seq. pose proof (nat_ascii_bounded c). lia.
Qed.

Lemma tolower_toupper c : isupper c = false → tolower (toupper c) = c.
Proof.
  intros H. pose proof (every_byte (λ c, isupper c || (tolower (toupper c) =c c)) eq_refl c) as E.
  cbv beta in E. rewrite H in E. by apply Ascii.eqb_eq.
Qed.

Lemma response_format_name_iff value format :
  response_format_from_docling value = Some format ↔
  value ≠ [] ∧ docling_response_format_name format = value.
Proof.
  assert (Hback : docling_response_format_name format ≠ [] →
    response_format_from_docling (docling_response_format_name format) = Some format)
    by (destruct format; try done; intros _; vm_compute; reflexivity).
  split; [|by intros [? <-]; apply Hback].
  unfold response_format_from_docling. case_bool_decide as Hne; [done|].
  rewrite append_upper_spec. destruct (forallb _ _) eqn:Hlow; [|done].
  destruct (ResponseFormat_Parse _) as [f|] eqn:Hp; [|done].
  case_bool_decide as Hu; [done|]. intros [= ->]. split; [done|].
  apply ResponseFormat_Name_Parse in Hp as [Hn Hv].
  unfold docling_response_format_name. rewrite Hn, Hv, bool_decide_false by done. cbn [orb negb].
  change (substr_from _ 16) with (map toupper value).
  rewrite map_map. rewrite forallb_forall in Hlow.
  rewrite <- (map_id value) at 2. apply map_ext_in. intros c Hc.
  apply tolower_toupper. specialize (Hlow c Hc). by destruct (isupper c).
Qed.

(** Docling's string spelling and the format are inverse to one another: a
    string names a format exactly when it is that format's docling name, and
    every known format but the unspecified one has such a name. *)
Theorem docling_format_roundtrip value format :
  (response_format_from_docling value = Some format ↔
   value ≠ [] ∧ docling_response_format_name format = value) ∧
  (docling_response_format_name format = [] ↔
   format = RESPONSE_FORMAT_UNSPECIFIED ∨ ResponseFormat_IsValid format = false).
Proof.
  split; [apply response_format_name_iff|].
  unfold docling_response_format_name. case_bool_decide; cbn [orb]; [tauto|].
  destruct (ResponseFormat_IsValid format) eqn:Hv; cbn [negb]; [|tauto].
  split; [|by intros [?|?]]. intros Hnil. destruct format; try done; by vm_compute in Hnil.
Qed.
