(* ===== verification/MarkupTree.v ===== *)
(** The tolerant element tree (src/mapping/markup_tree.h, markup_tree.cpp): the
    entity decoder, the tag reader, the builder with its open elements and the
    parser.  What is proved: the parser ends on every input, its tree is no
    deeper than the walkers can take, and XML printed from a tree reads back as
    that tree. *)
From S2P Require Import Prelude Numbers.

Definition kMaxMarkupDepth : nat := 128.
Definition kMaxTagBytes : nat := Z.to_nat (64 * 1024).

(** A text node has the empty tag. *)
Inductive MarkupNode := mk_MarkupNode {
  nd_tag : bytes;
  nd_text : bytes;
  nd_attrs : list (bytes * bytes);
  nd_children : list MarkupNode }.
Definition is_text (node : MarkupNode) : bool := nd_tag node =b [].
Definition has_attr (node : MarkupNode) (name : bytes) : bool :=
  existsb (λ attr, attr.1 =b name) (nd_attrs node).
Fixpoint find_attr (name : bytes) (attrs : list (bytes * bytes)) : option bytes :=
  match attrs with
  | [] => None
  | (key, value) :: attrs => if key =b name then Some value else find_attr name attrs
  end.
Definition attr (node : MarkupNode) (name fallback : bytes) : bytes :=
  default fallback (find_attr name (nd_attrs node)).

Inductive MarkupMode := kHtml | kXml.
#[export] Instance MarkupMode_eq_dec : EqDecision MarkupMode.
Proof. solve_decision. Defined.

Definition lower (c : ascii) : ascii := tolower c.
Definition is_space (c : ascii) : bool :=
  (c =c " "%char) || (c =c c_tab) || (c =c c_nl) || (c =c c_vt) || (c =c c_ff) || (c =c c_cr).
Definition is_name_char (c : ascii) : bool :=
  isalnum c || (c =c "-"%char) || (c =c "_"%char) || (c =c ":"%char) || (c =c "."%char) ||
  (128 <=? code c).

Definition kVoidTags : list bytes := lit <$>
  ["area"; "base"; "br"; "col"; "embed"; "hr"; "img"; "input"; "link"; "meta"; "param"; "source";
   "track"; "wbr"]%string.
Definition kHtmlBlockTags : list bytes := lit <$>
  ["div"; "p"; "h1"; "h2"; "h3"; "h4"; "h5"; "h6"; "table"; "ul"; "ol"; "li"; "pre"; "figure";
   "form"; "caption"; "figcaption"; "hr"]%string.
Definition contains (names : list bytes) (name : bytes) : bool := existsb (λ n, n =b name) names.

Definition fold (name : bytes) (mode : MarkupMode) : bytes :=
  match mode with kHtml => lower <$> name | kXml => name end.

(** * Entities *)

Definition append_utf8 (cp : Z) : bytes :=
  let cp := if (cp =? 0) || (0x10FFFF <? cp) || ((0xD800 <=? cp) && (cp <=? 0xDFFF)) then 0xFFFD else cp in
  let continuation n := chr (Z.lor 0x80 (Z.land (Z.shiftr cp n) 0x3F)) in
  if cp <? 0x80 then [chr cp]
  else if cp <? 0x800 then [chr (Z.lor 0xC0 (Z.shiftr cp 6)); continuation 0]
  else if cp <? 0x10000 then [chr (Z.lor 0xE0 (Z.shiftr cp 12)); continuation 6; continuation 0]
  else [chr (Z.lor 0xF0 (Z.shiftr cp 18)); continuation 12; continuation 6; continuation 0].

Definition reference_digit (hex : bool) (c : ascii) : option Z :=
  if isdigit c then Some (code c - 48)
  else if hex && isxdigit c then Some (code (lower c) - 97 + 10) else None.
Fixpoint reference_value (hex : bool) (digits : bytes) (value : Z) : option Z :=
  match digits with
  | [] => Some value
  | c :: digits =>
      match reference_digit hex c with
      | None => None
      | Some digit =>
          if 0x10FFFF <? value then None
          else reference_value hex digits (value * (if hex then 16 else 10) + digit)
      end
  end.
Definition numeric_reference (name : bytes) : option bytes :=
  let hex := char_at name 1 (λ c, (c =c "x"%char) || (c =c "X"%char)) in
  let digits := substr_from name (if hex then 2 else 1) in
  if digits =b [] then None else append_utf8 <$> reference_value hex digits 0.
(** What the entity between '&' and ';' stands for, if it is decoded. *)
Definition entity (name : bytes) : option bytes :=
  if name =b lit "amp" then Some (lit "&")
  else if name =b lit "lt" then Some (lit "<")
  else if name =b lit "gt" then Some (lit ">")
  else if name =b lit "quot" then Some [c_quote]
  else if name =b lit "apos" then Some (lit "'")
  else if name =b lit "nbsp" then Some (append_utf8 0xA0)
  else if bool_decide (2 ≤ length name)%nat && char_at name 0 (Ascii.eqb "#") then numeric_reference name
  else None.

Definition decode_step (text : bytes) (s : nat * bytes) : nat * bytes + bytes :=
  let '(i, out) := s in
  match text !! i with
  | None => inr out
  | Some c =>
      if negb (c =c "&"%char) then inl (S i, out ++ [c]) else
      match find_char ";"%char text (i + 1) with
      | None => inl (S i, out ++ [c])
      | Some semi =>
          if bool_decide (10 < semi - i)%nat then inl (S i, out ++ [c]) else
          match entity (substr text (i + 1) (semi - i - 1)) with
          | Some decoded => inl (S semi, out ++ decoded)
          | None => inl (S i, out ++ [c])
          end
      end
  end.
Definition decode_entities (text : bytes) : bytes :=
  run_loop [] (S (length text)) (decode_step text) (0%nat, []).

(** * Tags *)

Record Tag := mk_Tag {
  tg_name : bytes;
  tg_closing : bool;
  tg_self_closing : bool;
  tg_attrs : list (bytes * bytes) }.

(** "/>" at the head. *)
Definition slash_gt (s : bytes) : bool := starts_with (lit "/>") s.
(** The length of the attribute name at the head. *)
Fixpoint attr_name_length (s : bytes) : nat :=
  match s with
  | [] => 0
  | c :: s' =>
      if is_space c || (c =c "="%char) || (c =c ">"%char) || slash_gt s then 0
      else S (attr_name_length s')
  end%nat.
(** After the '=': the value and the position past it; [None] for an
    unterminated quote. *)
Definition read_value (text : bytes) (i : nat) : option (bytes * nat) :=
  let i := (i + span is_space (drop i text))%nat in
  match text !! i with
  | Some quote =>
      if (quote =c c_quote) || (quote =c "'"%char) then
        match find_char quote text (i + 1) with
        | None => None
        | Some close => Some (decode_entities (substr text (i + 1) (close - i - 1)), S close)
        end
      else
        let n := span (λ c, negb (is_space c) && negb (c =c ">"%char)) (drop i text) in
        Some (decode_entities (substr text i n), i + n)%nat
  | None => Some (decode_entities [], i)
  end.
(** One pass of the attribute loop; [inr None] is [return false]. *)
Definition attr_step (text : bytes) (mode : MarkupMode) (name : bytes) (closing : bool)
    (s : nat * list (bytes * bytes)) : nat * list (bytes * bytes) + option (Tag * nat) :=
  let '(i, attrs) := s in
  let i := (i + span is_space (drop i text))%nat in
  if bool_decide (length text ≤ i)%nat then inr None else
  if char_at text i (Ascii.eqb ">") then inr (Some (mk_Tag name closing false attrs, S i)) else
  if slash_gt (drop i text) then inr (Some (mk_Tag name closing true attrs, i + 2)%nat) else
  let n := attr_name_length (drop i text) in
  if bool_decide (n = 0%nat) then inl (S i, attrs) else
  let key := fold (substr text i n) mode in
  let i := (i + n)%nat in
  let i := (i + span is_space (drop i text))%nat in
  let add value := if closing then attrs else attrs ++ [(key, value)] in
  if char_at text i (Ascii.eqb "=") then
    match read_value text (S i) with
    | None => inr None
    | Some (value, i) => inl (i, add value)
    end
  else inl (i, add []).
(** [read_tag] at a '<': the tag and the position past it. *)
Definition read_tag (text : bytes) (pos : nat) (mode : MarkupMode) : option (Tag * nat) :=
  let i := S pos in
  let closing := char_at text i (Ascii.eqb "/") in
  let name_start := if closing then S i else i in
  let n := span is_name_char (drop name_start text) in
  if bool_decide (n = 0%nat) || negb (char_at text name_start isalpha) then None else
  let name := fold (substr text name_start n) mode in
  run_loop None (S (length text)) (attr_step text mode name closing) ((name_start + n)%nat, []).

(** * The builder

    The open elements, innermost first, each with the children it has so far:
    [stack_] without the pointers.  The last is the root.  An element that is
    still open is the last child of the one below it, so it is filed there when
    it closes. *)
Record Frame := mk_Frame {
  fr_tag : bytes;
  fr_attrs : list (bytes * bytes);
  fr_children : list MarkupNode }.
Record TreeBuilder := mk_TreeBuilder { tr_top : Frame; tr_below : list Frame }.

Definition TreeBuilder_new : TreeBuilder := mk_TreeBuilder (mk_Frame (lit "root") [] []) [].
Definition stack_size (b : TreeBuilder) : nat := S (length (tr_below b)).
Definition add_child (node : MarkupNode) (f : Frame) : Frame :=
  mk_Frame (fr_tag f) (fr_attrs f) (fr_children f ++ [node]).
Definition node_of (f : Frame) : MarkupNode := mk_MarkupNode (fr_tag f) [] (fr_attrs f) (fr_children f).
(** [stack_.resize(i)] at the innermost element. *)
Definition file_frame (f parent : Frame) : Frame := add_child (node_of f) parent.

Definition text_node (text : bytes) : MarkupNode := mk_MarkupNode [] text [] [].
(** [text]: character data joins a text node it follows. *)
Fixpoint add_text (decoded : bytes) (children : list MarkupNode) : list MarkupNode :=
  match children with
  | [] => [text_node decoded]
  | [node] =>
      if is_text node
      then [mk_MarkupNode (nd_tag node) (nd_text node ++ decoded) (nd_attrs node) (nd_children node)]
      else [node; text_node decoded]
  | node :: children => node :: add_text decoded children
  end.
Definition builder_text (raw : bytes) (b : TreeBuilder) : TreeBuilder :=
  if raw =b [] then b else
  mk_TreeBuilder (mk_Frame (fr_tag (tr_top b)) (fr_attrs (tr_top b))
                    (add_text (decode_entities raw) (fr_children (tr_top b)))) (tr_below b).

(** The scans of [close] and [close_up_to] from the innermost element out: the
    root is never closed, and a boundary stops the scan. *)
Fixpoint close_to (target boundary : bytes → bool) (top : Frame) (below : list Frame)
  : option TreeBuilder :=
  match below with
  | [] => None
  | parent :: below =>
      if target (fr_tag top) then Some (mk_TreeBuilder (file_frame top parent) below)
      else if boundary (fr_tag top) then None
      else close_to target boundary (file_frame top parent) below
  end.
Definition builder_close (name : bytes) (b : TreeBuilder) : TreeBuilder :=
  default b (close_to (λ tag, tag =b name) (λ _, false) (tr_top b) (tr_below b)).
Definition implicit_close (name : bytes) (b : TreeBuilder) : TreeBuilder :=
  let close_up_to targets boundary :=
    default b (close_to (contains (lit <$> targets)) boundary (tr_top b) (tr_below b)) in
  if (name =b lit "td") || (name =b lit "th") then
    close_up_to ["td"; "th"]%string (λ tag, (tag =b lit "tr") || (tag =b lit "table"))
  else if name =b lit "tr" then close_up_to ["tr"]%string (λ tag, tag =b lit "table")
  else if name =b lit "li" then
    close_up_to ["li"]%string (λ tag, (tag =b lit "ul") || (tag =b lit "ol"))
  else if name =b lit "p" then
    close_up_to ["p"]%string (λ tag, negb (tag =b lit "p") && contains kHtmlBlockTags tag)
  else b.
Definition builder_open (mode : MarkupMode) (tag : Tag) (b : TreeBuilder) : TreeBuilder :=
  let b := if decide (mode = kHtml) then implicit_close (tg_name tag) b else b in
  let empty := tg_self_closing tag || bool_decide (mode = kHtml) && contains kVoidTags (tg_name tag) in
  if negb empty && bool_decide (stack_size b ≤ kMaxMarkupDepth)%nat
  then mk_TreeBuilder (mk_Frame (tg_name tag) (tg_attrs tag) []) (tr_top b :: tr_below b)
  else mk_TreeBuilder (add_child (mk_MarkupNode (tg_name tag) [] (tg_attrs tag) []) (tr_top b)) (tr_below b).

Fixpoint file_all (top : Frame) (below : list Frame) : Frame :=
  match below with
  | [] => top
  | parent :: below => file_all (file_frame top parent) below
  end.
(** [take]: the root, every open element filed. *)
Definition take_tree (b : TreeBuilder) : MarkupNode := node_of (file_all (tr_top b) (tr_below b)).

(** * The parser *)

(** CDATA is literal: its '&'s are escaped before the text is decoded. *)
Definition escape_amp (data : bytes) : bytes :=
  mjoin ((λ c, if c =c "&"%char then lit "&amp;" else [c]) <$> data).

(** The end of a script or style body: the '<' of its closing tag. *)
Definition closes_raw (closer : bytes) (s : bytes) : bool :=
  head_is (Ascii.eqb "<") s && ((lower <$> take (length closer) s) =b closer).
Definition raw_close (text closer : bytes) (from : nat) : option nat :=
  find_if (closes_raw closer) text from.

(** Everything after an opening tag whose body is not markup. *)
Definition skip_raw (text name : bytes) (stop : nat) (b : TreeBuilder) : nat * TreeBuilder :=
  match raw_close text (lit "</" ++ name) stop with
  | None => (length text, b)
  | Some close =>
      let b := builder_text (substr text stop (close - stop)) b in
      let stop := match find_char ">"%char text close with
                  | None => length text | Some gt => S gt end in
      (stop, builder_close name b)
  end.

(** A closing tag or an opening one, with a raw body after it. *)
Definition on_tag (text : bytes) (mode : MarkupMode) (tag : Tag) (stop : nat) (b : TreeBuilder)
  : nat * TreeBuilder :=
  if tg_closing tag then (stop, builder_close (tg_name tag) b) else
  let b := builder_open mode tag b in
  if bool_decide (mode = kHtml) &&
     ((tg_name tag =b lit "script") || (tg_name tag =b lit "style"))
  then skip_raw text (tg_name tag) stop b else (stop, b).

Record Parse := mk_Parse { pa_pos : nat; pa_text_start : nat; pa_builder : TreeBuilder }.
Definition parse_step (text : bytes) (mode : MarkupMode) (s : Parse) : Parse + Parse :=
  let '(mk_Parse pos text_start b) := s in
  match find_char "<"%char text pos with
  | None => inr s
  | Some open =>
      let b' := builder_text (substr text text_start (open - text_start)) b in
      let skip close after b :=
        let pos := match close with None => length text | Some at_ => (at_ + after)%nat end in
        inl (mk_Parse pos pos b) in
      if starts_with (lit "<!--") (drop open text) then skip (find (lit "-->") text (open + 4)) 3%nat b'
      else if starts_with (lit "<![CDATA[") (drop open text) then
        let close := find (lit "]]>") text (open + 9) in
        let data_end := default (length text) close in
        skip close 3%nat (builder_text (escape_amp (substr text (open + 9) (data_end - open - 9))) b')
      else if char_at text (S open) (λ c, (c =c "!"%char) || (c =c "?"%char)) then
        skip (find_char ">"%char text (open + 2)) 1%nat b'
      else
        match read_tag (take (Nat.min (length text) (open + kMaxTagBytes)) text) open mode with
        | None => inl (mk_Parse (S open) text_start b)
        | Some (tag, stop) =>
            let '(stop, b) := on_tag text mode tag stop b' in inl (mk_Parse stop stop b)
        end
  end.
Definition parse_init : Parse := mk_Parse 0 0 TreeBuilder_new.
Definition parse_loop (text : bytes) (mode : MarkupMode) : Parse :=
  run_loop parse_init (S (length text)) (parse_step text mode) parse_init.
Definition parse_markup (text : bytes) (mode : MarkupMode) : MarkupNode :=
  let s := parse_loop text mode in
  take_tree (builder_text (substr_from text (pa_text_start s)) (pa_builder s)).

Example parse_small :
  parse_markup (lit "<Table><tr><td colspan=2>a &amp;lt; b<td>c<br>d</table><p>x") kHtml =
  mk_MarkupNode (lit "root") [] [] [
    mk_MarkupNode (lit "table") [] [] [
      mk_MarkupNode (lit "tr") [] [] [
        mk_MarkupNode (lit "td") [] [(lit "colspan", lit "2")] [text_node (lit "a &lt; b")];
        mk_MarkupNode (lit "td") [] [] [text_node (lit "c"); mk_MarkupNode (lit "br") [] [] [];
                                        text_node (lit "d")]]];
    mk_MarkupNode (lit "p") [] [] [text_node (lit "x")]].
Proof. vm_compute. reflexivity. Qed.

(** * Progress *)

Lemma decode_step_progress text i out i' out' :
  decode_step text (i, out) = inl (i', out') → (i < i' ≤ length text)%nat.
Proof.
  unfold decode_step. destruct (text !! i) as [c|] eqn:Hi; [|done]. apply lookup_lt_Some in Hi.
  destruct (negb _); [intros [= <- _]; lia|].
  destruct (find_char _ _ _) as [semi|] eqn:Hs; [|intros [= <- _]; lia]. apply find_char_lt in Hs.
  case_bool_decide; [intros [= <- _]; lia|].
  destruct (entity _); intros [= <- _]; lia.
Qed.

Lemma read_value_progress text i value i' :
  read_value text i = Some (value, i') → (i ≤ length text)%nat → (i ≤ i' ≤ length text)%nat.
Proof.
  unfold read_value. pose proof (span_le is_space (drop i text)) as Hs. rewrite length_drop in Hs.
  set (j := (i + span is_space (drop i text))%nat) in *.
  destruct (text !! j) as [quote|] eqn:Hj; [|intros [= _ <-]; lia]. apply lookup_lt_Some in Hj.
  destruct (_ || _).
  - destruct (find_char _ _ _) as [close|] eqn:Hc; [|done]. apply find_char_lt in Hc.
    intros [= _ <-]. lia.
  - intros [= _ <-]. pose proof (span_le (λ c, negb (is_space c) && negb (c =c ">"%char)) (drop j text)) as Hl.
    rewrite length_drop in Hl. lia.
Qed.

Lemma attr_name_length_le s : (attr_name_length s ≤ length s)%nat.
Proof. induction s as [|c s IH]; cbn [attr_name_length length]; [lia|]. destruct (_ || _); lia. Qed.

Lemma attr_step_progress text mode name closing i attrs :
  match attr_step text mode name closing (i, attrs) with
  | inl (i', _) => (i < i' ≤ length text)%nat
  | inr (Some (tag, stop)) => (i < stop ≤ length text)%nat ∧ tg_name tag = name
  | inr None => True
  end.
Proof.
  unfold attr_step. pose proof (span_le is_space (drop i text)) as Hs. rewrite length_drop in Hs.
  set (j := (i + span is_space (drop i text))%nat) in *.
  case_bool_decide as Hj; [done|].
  destruct (char_at _ _ _); [cbn; split; [lia|done]|].
  destruct (slash_gt _) eqn:Hg.
  { apply starts_with_app in Hg as [r Hr]. apply (f_equal length) in Hr.
    rewrite length_drop, length_app in Hr. cbn in *. split; [lia|done]. }
  pose proof (attr_name_length_le (drop j text)) as Hn. rewrite length_drop in Hn.
  set (n := attr_name_length _) in *. case_bool_decide; [lia|].
  pose proof (span_le is_space (drop (j + n) text)) as Hs'. rewrite length_drop in Hs'.
  set (k := (j + n + span is_space (drop (j + n) text))%nat) in *.
  destruct (char_at text k _) eqn:Hk; [|lia].
  unfold char_at in Hk. destruct (text !! k) eqn:Hkk; [|done]. apply lookup_lt_Some in Hkk.
  destruct (read_value _ _) as [[value i']|] eqn:Hv; [|done].
  apply read_value_progress in Hv; lia.
Qed.

Lemma read_tag_progress text pos mode tag stop :
  read_tag text pos mode = Some (tag, stop) → (S pos < stop ≤ length text)%nat.
Proof.
  unfold read_tag. set (name_start := if char_at _ _ _ then _ else _).
  assert (Hstart : (S pos ≤ name_start)%nat) by (unfold name_start; destruct (char_at _ _ _); lia).
  set (n := span _ _). case_bool_decide as Hn; [done|]. destruct (negb _); [done|]. cbn [orb].
  set (r := run_loop _ _ _ _).
  cut (match r with Some (_, stop) => (name_start + n < stop ≤ length text)%nat | None => True end).
  { intros Hr E. rewrite E in Hr. lia. }
  apply (run_loop_inv (λ s : nat * list (bytes * bytes), (name_start + n ≤ s.1)%nat)
    (λ r : option (Tag * nat), match r with Some (_, stop) => (name_start + n < stop ≤ length text)%nat | None => True end));
    [|cbn; lia|done].
  intros [i attrs] Hi. cbn in Hi. pose proof (attr_step_progress text mode (fold (substr text name_start n) mode)
    (char_at text (S pos) (Ascii.eqb "/")) i attrs) as H.
  destruct (attr_step _ _ _ _ _) as [[i' attrs']|[[tag' stop']|]]; cbn; [lia|lia|done].
Qed.

Lemma on_tag_progress text mode tag stop b :
  (stop ≤ length text)%nat → (stop ≤ (on_tag text mode tag stop b).1 ≤ length text)%nat.
Proof.
  intros Hs. unfold on_tag. destruct (tg_closing tag); [cbn; lia|].
  destruct (_ && _); [|cbn; lia]. unfold skip_raw, raw_close.
  destruct (find_if _ _ _) as [close|] eqn:Hc; [|cbn; lia]. apply find_if_Some in Hc as (Hc & _).
  destruct (find_char _ _ _) as [gt|] eqn:Hg; [apply find_char_lt in Hg|]; cbn; lia.
Qed.

Lemma parse_step_progress text mode s s' :
  parse_step text mode s = inl s' → (pa_pos s < pa_pos s' ≤ length text)%nat.
Proof.
  unfold parse_step. destruct s as [pos text_start b]. cbn [pa_pos].
  destruct (find_char _ text pos) as [open|] eqn:Ho; [|done]. apply find_char_lt in Ho.
  assert (Hskip : ∀ close after b' (s : Parse),
    (∀ at_, close = Some at_ → open ≤ at_ ∧ at_ + after ≤ length text ∧ 0 < after)%nat →
    inl (mk_Parse match close with None => length text | Some at_ => (at_ + after)%nat end
           match close with None => length text | Some at_ => (at_ + after)%nat end b') = inl (B := Parse) s →
    (pos < pa_pos s ≤ length text)%nat).
  { intros [at_|] after b' s Hat [= <-]; cbn; [|lia]. destruct (Hat at_ eq_refl) as (? & ? & ?). lia. }
  destruct (starts_with (lit "<!--") _).
  { apply Hskip. intros at_ Hf. pose proof (find_end _ _ _ _ Hf). apply find_lt in Hf. cbn in *. lia. }
  destruct (starts_with (lit "<![CDATA[") _).
  { apply Hskip. intros at_ Hf. pose proof (find_end _ _ _ _ Hf). apply find_lt in Hf. cbn in *. lia. }
  destruct (char_at _ _ _).
  { apply Hskip. intros at_ Hf. apply find_char_lt in Hf. lia. }
  destruct (read_tag _ _ _) as [[tag stop]|] eqn:Ht; [|intros [= <-]; cbn; lia].
  apply read_tag_progress in Ht. rewrite length_take in Ht.
  set (b' := builder_text _ _). pose proof (on_tag_progress text mode tag stop b' ltac:(lia)) as Hp.
  destruct (on_tag _ _ _ _ _) as [stop' b'']. cbn in Hp. intros [= <-]. cbn. lia.
Qed.

(** The parser never fails to end: on every input each of its three loops
    leaves within its fuel, so no tree, tag or decoded text is the default of an
    exhausted loop. *)
Theorem parse_markup_total text mode :
  is_Some (loop (S (length text)) (parse_step text mode) parse_init) ∧
  (∀ name closing i attrs, is_Some (loop (S (length text)) (attr_step text mode name closing) (i, attrs))) ∧
  is_Some (loop (S (length text)) (decode_step text) (0%nat, [])).
Proof.
  split_and!.
  - apply (loop_total (λ _, True) (λ s, length text - pa_pos s)%nat); [|done|cbn; lia].
    intros s s' _ E. apply parse_step_progress in E. split; [done|lia].
  - intros name closing i attrs.
    apply (loop_total (λ _, True) (λ s, length text - s.1)%nat); [|done|cbn; lia].
    intros [j l] [j' l'] _ E. pose proof (attr_step_progress text mode name closing j l) as H.
    rewrite E in H. cbn. split; [done|lia].
  - apply (loop_total (λ _, True) (λ s, length text - s.1)%nat); [|done|cbn; lia].
    intros [j l] [j' l'] _ E. apply decode_step_progress in E. cbn. split; [done|lia].
Qed.

(** * Depth *)

(** Edges below a node. *)
Fixpoint height (node : MarkupNode) : nat :=
  match node with
  | mk_MarkupNode _ _ _ children => foldr (λ child m, Nat.max (S (height child)) m) 0%nat children
  end.
Definition heights (children : list MarkupNode) (n : nat) : Prop :=
  Forall (λ child, (height child < n)%nat) children.

Lemma height_le node n : heights (nd_children node) n ↔ (height node ≤ n)%nat.
Proof.
  destruct node as [tag text attrs children]. unfold heights. cbn.
  induction children as [|child children IH]; cbn; [split; [lia|done]|].
  rewrite Forall_cons, IH. lia.
Qed.

(** The frames' completed children fit under the level they are at: the
    innermost of [k] open elements is [k] levels below the root. *)
Fixpoint frames_ok (frames : list Frame) : Prop :=
  match frames with
  | [] => True
  | f :: below =>
      (length below ≤ kMaxMarkupDepth)%nat ∧
      heights (fr_children f) (S kMaxMarkupDepth - length below) ∧ frames_ok below
  end.
Definition builder_ok (b : TreeBuilder) : Prop := frames_ok (tr_top b :: tr_below b).

Lemma heights_snoc children node n :
  heights children n → (height node < n)%nat → heights (children ++ [node]) n.
Proof. intros ??. apply Forall_app. split; [done|]. by constructor. Qed.

Lemma frames_file f parent below :
  frames_ok (f :: parent :: below) → frames_ok (file_frame f parent :: below).
Proof.
  intros (Hl & Hf & Hp & Hc & Hb). cbn in *. split_and!; [done| |done].
  apply heights_snoc; [done|]. assert (Hn : (height (node_of f) ≤ S kMaxMarkupDepth - S (length below))%nat)
    by (by apply height_le). lia.
Qed.

Lemma builder_text_ok raw b : builder_ok b → builder_ok (builder_text raw b).
Proof.
  unfold builder_text. case_bool_decide; [done|]. intros (Hl & Hf & Hb). split_and!; [done| |done].
  cbn [tr_top fr_children]. revert Hf. generalize (decode_entities raw) as text. intros text.
  unfold heights. induction 1 as [|node children Hn Hc IH]; cbn [add_text].
  - repeat constructor. cbn. lia.
  - destruct children as [|node' children]; [|by constructor].
    destruct (is_text node); repeat constructor; try done; cbn; [|lia]. by destruct node.
Qed.

Lemma close_to_ok target boundary top below b :
  frames_ok (top :: below) → close_to target boundary top below = Some b → builder_ok b.
Proof.
  revert top. induction below as [|parent below IH]; intros top Hf; cbn [close_to]; [done|].
  apply frames_file in Hf. destruct (target _); [by intros [= <-]|]. destruct (boundary _); [done|]. by apply IH.
Qed.

Lemma close_default_ok target boundary b :
  builder_ok b → builder_ok (default b (close_to target boundary (tr_top b) (tr_below b))).
Proof. intros Hb. destruct (close_to _ _ _ _) eqn:E; [|done]. by eapply close_to_ok. Qed.

Lemma builder_open_ok mode tag b : builder_ok b → builder_ok (builder_open mode tag b).
Proof.
  intros Hb. unfold builder_open. set (b' := if decide _ then _ else b).
  assert (Hb' : builder_ok b').
  { subst b'. case_decide; [|done]. unfold implicit_close. repeat case_match; try done; by apply close_default_ok. }
  clearbody b'. clear Hb b. destruct (negb _ && _) eqn:E.
  - apply andb_prop in E as [_ E%bool_decide_eq_true]. unfold stack_size in E.
    split; [done|]. split; [constructor|done].
  - destruct Hb' as (Hl & Hf & Hb'). split_and!; [done| |done]. apply heights_snoc; [done|]. cbn. lia.
Qed.

Lemma on_tag_ok text mode tag stop b : builder_ok b → builder_ok (on_tag text mode tag stop b).2.
Proof.
  intros Hb. unfold on_tag. destruct (tg_closing tag); [by apply close_default_ok|].
  pose proof (builder_open_ok mode tag b Hb). destruct (_ && _); [|done]. unfold skip_raw.
  destruct (raw_close _ _ _); [|done]. cbn. by apply close_default_ok, builder_text_ok.
Qed.

Lemma parse_step_ok text mode s :
  builder_ok (pa_builder s) →
  match parse_step text mode s with
  | inl s' => builder_ok (pa_builder s')
  | inr s' => builder_ok (pa_builder s')
  end.
Proof.
  destruct s as [pos text_start b]. cbn [pa_builder]. intros Hb. unfold parse_step.
  destruct (find_char _ _ _) as [open|]; [|done].
  pose proof (builder_text_ok (substr text text_start (open - text_start)) b Hb) as Hb'.
  destruct (starts_with (lit "<!--") _); [done|].
  destruct (starts_with (lit "<![CDATA[") _); [by apply builder_text_ok|].
  destruct (char_at _ _ _); [done|]. destruct (read_tag _ _ _) as [[tag stop]|]; [|done].
  pose proof (on_tag_ok text mode tag stop _ Hb') as H. by destruct (on_tag _ _ _ _ _).
Qed.

(** However a model nests its markup, the tree is at most one level deeper
    than [kMaxMarkupDepth], so the recursive walkers' stacks are bounded. *)
Theorem parse_markup_depth text mode : (height (parse_markup text mode) ≤ S kMaxMarkupDepth)%nat.
Proof.
  unfold parse_markup.
  assert (Hs : builder_ok (pa_builder (parse_loop text mode))).
  { apply (run_loop_inv (λ s, builder_ok (pa_builder s)) (λ s, builder_ok (pa_builder s)));
      [apply parse_step_ok|..]; repeat constructor; cbn; lia. }
  apply (builder_text_ok (substr_from text (pa_text_start (parse_loop text mode)))) in Hs.
  revert Hs. generalize (builder_text (substr_from text (pa_text_start (parse_loop text mode)))
    (pa_builder (parse_loop text mode))) as b.
  intros [top below]. unfold take_tree, builder_ok. cbn [tr_top tr_below]. revert top.
  induction below as [|parent below IH]; intros top Hf; cbn [file_all].
  - destruct Hf as (_ & Hf & _). apply height_le. cbn [nd_children node_of]. by rewrite Nat.sub_0_r in Hf.
  - apply IH. by apply frames_file.
Qed.

Lemma height_child child node : child ∈ nd_children node → (height child < height node)%nat.
Proof.
  intros Hin. pose proof (proj2 (height_le node (height node)) (le_n _)) as Hh. unfold heights in Hh.
  rewrite Forall_forall in Hh. by apply Hh.
Qed.

(** * Printing *)

Lemma MarkupNode_rect_children (P : MarkupNode → Prop) :
  (∀ tag text attrs children, Forall P children → P (mk_MarkupNode tag text attrs children)) →
  ∀ node, P node.
Proof.
  intros Hnode. fix IH 1. intros [tag text attrs children]. apply Hnode.
  induction children as [|child children IHc]; constructor; [apply IH|apply IHc].
Qed.

Definition escape_char (c : ascii) : bytes :=
  if c =c "&"%char then lit "&amp;" else if c =c "<"%char then lit "&lt;"
  else if c =c c_quote then lit "&quot;" else [c].
Definition escape (text : bytes) : bytes := mjoin (escape_char <$> text).
Definition print_attr (attr : bytes * bytes) : bytes :=
  lit " " ++ attr.1 ++ lit "=" ++ [c_quote] ++ escape attr.2 ++ [c_quote].
Definition print_open (tag : bytes) (attrs : list (bytes * bytes)) : bytes :=
  lit "<" ++ tag ++ mjoin (print_attr <$> attrs) ++ lit ">".
Definition print_close (tag : bytes) : bytes := lit "</" ++ tag ++ lit ">".
Fixpoint print_node (node : MarkupNode) : bytes :=
  match node with
  | mk_MarkupNode tag text attrs children =>
      if tag =b [] then escape text
      else print_open tag attrs ++ foldr (λ child s, print_node child ++ s) [] children ++ print_close tag
  end.
Definition print_nodes (nodes : list MarkupNode) : bytes :=
  foldr (λ child s, print_node child ++ s) [] nodes.

(** ** Entities read back *)

Lemma decode_step_entity pre name decoded rest out :
  ";"%char ∉ name → (length name < 10)%nat → entity name = Some decoded →
  decode_step (pre ++ lit "&" ++ name ++ lit ";" ++ rest) (length pre, out) =
  inl (length (pre ++ lit "&" ++ name ++ lit ";"), out ++ decoded).
Proof.
  intros Hn Hl He. unfold decode_step.
  change ((pre ++ lit "&" ++ name ++ lit ";" ++ rest) !! length pre)
    with ((pre ++ "&"%char :: (name ++ lit ";" ++ rest)) !! length pre).
  rewrite list_lookup_middle by done.
  assert (Hfind : find_char ";"%char (pre ++ lit "&" ++ name ++ lit ";" ++ rest) (length pre + 1) =
    Some (length pre + 1 + length name)%nat).
  { unfold find_char. rewrite (find_if_hit _ _ (pre ++ lit "&") name (lit ";" ++ rest)).
    - by rewrite length_app.
    - by rewrite <- !app_assoc.
    - by rewrite length_app.
    - intros k Hk. by apply head_is_other.
    - done.
    - done. }
  change (negb ("&" =c "&")%char) with false. cbv iota. rewrite Hfind.
  rewrite bool_decide_false by lia.
  rewrite (substr_cut _ (pre ++ lit "&") name (lit ";" ++ rest));
    [|by rewrite <- !app_assoc|by rewrite length_app|lia].
  rewrite He. do 2 f_equal. rewrite !length_app. cbn [length lit String.list_ascii_of_string]. lia.
Qed.

Lemma decode_step_plain pre c rest out :
  c ≠ "&"%char → decode_step (pre ++ [c] ++ rest) (length pre, out) = inl (length (pre ++ [c]), out ++ [c]).
Proof.
  intros Hc. unfold decode_step.
  change ((pre ++ [c] ++ rest) !! length pre) with ((pre ++ c :: rest) !! length pre).
  rewrite list_lookup_middle by done.
  rewrite (proj2 (Ascii.eqb_neq c "&"%char)) by done. cbn. do 2 f_equal. rewrite length_app. cbn. lia.
Qed.

Lemma decode_escape_char pre c rest out :
  decode_step (pre ++ escape_char c ++ rest) (length pre, out) = inl (length (pre ++ escape_char c), out ++ [c]).
Proof.
  unfold escape_char. destruct (Ascii.eqb_spec c "&"%char) as [->|Ha].
  { apply (decode_step_entity pre (lit "amp") (lit "&")); [by apply not_contains|cbn; lia|done]. }
  destruct (Ascii.eqb_spec c "<"%char) as [->|Hb].
  { apply (decode_step_entity pre (lit "lt") (lit "<")); [by apply not_contains|cbn; lia|done]. }
  destruct (Ascii.eqb_spec c c_quote) as [->|Hq].
  { apply (decode_step_entity pre (lit "quot") [c_quote]); [by apply not_contains|cbn; lia|done]. }
  by apply decode_step_plain.
Qed.

Lemma decode_escape text : decode_entities (escape text) = text.
Proof.
  unfold decode_entities, run_loop.
  assert (Hrun : ∀ pre out, rtc (λ s s', decode_step (pre ++ escape text) s = inl s') (length pre, out)
    (length (pre ++ escape text), out ++ text)).
  { induction text as [|c text IH]; intros pre out; cbn [escape fmap list_fmap mjoin list_join].
    - rewrite !app_nil_r. constructor.
    - change (escape_char c ++ mjoin (escape_char <$> text)) with (escape_char c ++ escape text).
      eapply rtc_l; [by apply decode_escape_char|].
      specialize (IH (pre ++ escape_char c) (out ++ [c])). by rewrite <- !app_assoc in IH. }
  specialize (Hrun [] []).
  rewrite (loop_rtc _ _ _ _ text Hrun); [done| |].
  - unfold decode_step. cbn [app]. by rewrite lookup_ge_None_2.
  - apply (parse_markup_total (escape text) kXml).
Qed.

(** ** Tags read back *)

Section Read.
Variable mode : MarkupMode.

(** Names an HTML tag gives a meaning of their own: elements without content,
    raw bodies and those that close others. *)
Definition kSpecialTags : list bytes :=
  kVoidTags ++ (lit <$> ["script"; "style"; "td"; "th"; "tr"; "li"; "p"]%string).
(** Those that close others leave them alone right inside their container. *)
Definition in_place (parent name : bytes) : bool :=
  if (name =b lit "td") || (name =b lit "th") then parent =b lit "tr"
  else if name =b lit "tr" then parent =b lit "table"
  else if name =b lit "li" then (parent =b lit "ul") || (parent =b lit "ol")
  else if name =b lit "p" then negb (parent =b lit "p") && contains kHtmlBlockTags parent
  else false.
Definition name_ok (name : bytes) : Prop :=
  match name with
  | [] => False
  | c :: _ => isalpha c = true
  end ∧ Forall (λ c, is_name_char c = true) name ∧ fold name mode = name.
Definition tag_name_ok (parent name : bytes) : Prop :=
  name_ok name ∧ (mode = kHtml → contains kSpecialTags name && negb (in_place parent name) = false).
Definition attr_char (c : ascii) : bool :=
  negb (is_space c || (c =c "="%char) || (c =c ">"%char) || (c =c "/"%char)).
Definition attr_ok (attr : bytes * bytes) : Prop :=
  attr.1 ≠ [] ∧ Forall (λ c, attr_char c = true) attr.1 ∧ fold attr.1 mode = attr.1.

Lemma span_stop p s rest :
  Forall (λ c, p c = true) s → head_is p rest = false → span p (s ++ rest) = length s.
Proof.
  intros Hs Hrest. induction Hs as [|c s Hc _ IH]; cbn; [|by rewrite Hc, IH].
  destruct rest as [|c rest]; [done|]. cbn in *. by rewrite Hrest.
Qed.

Lemma attr_name_length_stop s rest :
  Forall (λ c, attr_char c = true) s → head_is attr_char rest = false → slash_gt rest = false →
  head_is (Ascii.eqb "/"%char) rest = false → attr_name_length (s ++ rest) = length s.
Proof.
  intros Hs Hrest Hg Hslash. induction Hs as [|c s Hc _ IH]; cbn [app attr_name_length length].
  - destruct rest as [|c rest]; [done|]. cbn [attr_name_length]. rewrite Hg.
    revert Hrest Hslash. unfold attr_char. cbn [head_is]. rewrite (Ascii.eqb_sym "/"%char c).
    destruct (is_space c), (c =c "="%char)%bs, (c =c ">"%char)%bs, (c =c "/"%char)%bs; done.
  - revert Hc. unfold attr_char at 1. unfold slash_gt. cbn [starts_with lit String.list_ascii_of_string app].
    rewrite (Ascii.eqb_sym "/"%char c).
    destruct (is_space c), (c =c "="%char)%bs, (c =c ">"%char)%bs, (c =c "/"%char)%bs; try done.
    intros _. cbn. by rewrite IH.
Qed.

Lemma length_escape text : (length (escape text) ≤ 6 * length text)%nat.
Proof.
  induction text as [|d text IH]; [done|]. change (escape (d :: text)) with (escape_char d ++ escape text).
  rewrite length_app. cbn [length]. enough (length (escape_char d) ≤ 6)%nat by lia.
  unfold escape_char. repeat case_match; cbn; lia.
Qed.
Lemma not_in_escape c text : c = "<"%char ∨ c = c_quote → c ∉ escape text.
Proof.
  intros Hc. induction text as [|d text IH]; [by intros ?%elem_of_nil|].
  change (escape (d :: text)) with (escape_char d ++ escape text).
  rewrite elem_of_app. intros [Hin|Hin]; [|done]. revert Hin. unfold escape_char.
  repeat match goal with |- context [Ascii.eqb d ?e] => destruct (Ascii.eqb_spec d e) end;
    [destruct Hc as [-> | ->]; by apply not_contains..|].
  intros ->%list_elem_of_singleton. by destruct Hc as [-> | ->].
Qed.

Lemma drop_cut (s pre rest : bytes) : s = pre ++ rest → drop (length pre) s = rest.
Proof. intros ->. apply drop_app_length. Qed.

Lemma lookup_mid (pre rest : bytes) (c : ascii) i :
  i = length pre → (pre ++ c :: rest) !! i = Some c.
Proof. intros ->. by rewrite list_lookup_middle. Qed.

Lemma read_value_print text pre value rest :
  text = pre ++ c_quote :: escape value ++ c_quote :: rest →
  read_value text (length pre) = Some (value, length pre + length (escape value) + 2)%nat.
Proof.
  intros Ht. unfold read_value.
  assert (Hdrop : drop (length pre) text = c_quote :: escape value ++ c_quote :: rest)
    by (rewrite Ht; apply drop_app_length).
  rewrite Hdrop. change (span is_space (c_quote :: _)) with 0%nat. rewrite Nat.add_0_r.
  assert (Hq : text !! length pre = Some c_quote) by (rewrite Ht, lookup_mid by done; done).
  rewrite Hq. change (c_quote =c c_quote)%bs with true. cbn [orb].
  assert (Hf : find_char c_quote text (length pre + 1) = Some (length (pre ++ [c_quote]) + length (escape value))%nat).
  { apply (find_if_hit _ _ _ _ (c_quote :: rest)); [|by rewrite length_app| |done|done].
    - rewrite Ht. by rewrite <- app_assoc.
    - intros k Hk. apply head_is_other; [|done]. apply not_in_escape. by right. }
  rewrite Hf. rewrite (substr_cut text (pre ++ [c_quote]) (escape value) (c_quote :: rest));
    [|rewrite Ht; by rewrite <- app_assoc|by rewrite length_app|rewrite length_app; cbn; lia].
  rewrite decode_escape. do 2 f_equal. rewrite length_app. cbn. lia.
Qed.

(** A name neither starts with white space nor ends a tag. *)
Lemma key_head key rest :
  key ≠ [] → Forall (λ c, attr_char c = true) key →
  head_is is_space (key ++ rest) = false ∧ head_is (Ascii.eqb ">") (key ++ rest) = false ∧
  slash_gt (key ++ rest) = false.
Proof.
  intros Hne Hkey. destruct key as [|c key]; [done|]. apply Forall_cons in Hkey as [Hc _].
  revert Hc. unfold attr_char, slash_gt. cbn [app head_is starts_with lit String.list_ascii_of_string].
  rewrite (Ascii.eqb_sym ">"%char c), (Ascii.eqb_sym "/"%char c).
  by destruct (is_space c), (c =c "="%char)%bs, (c =c ">"%char)%bs, (c =c "/"%char)%bs.
Qed.

Lemma char_at_drop text i p : char_at text i p = head_is p (drop i text).
Proof.
  unfold char_at. replace (text !! i) with (drop i text !! 0%nat) by (rewrite lookup_drop; f_equal; lia).
  by destruct (drop i text).
Qed.

(** One printed attribute is one pass of the loop. *)
Lemma attr_step_print text name closing pre key value rest attrs :
  text = pre ++ print_attr (key, value) ++ rest → attr_ok (key, value) →
  attr_step text mode name closing (length pre, attrs) =
  inl (length (pre ++ print_attr (key, value)), if closing then attrs else attrs ++ [(key, value)]).
Proof.
  intros Ht (Hne & Hkey & Hfold). cbn in Hne, Hkey, Hfold. unfold print_attr in Ht. cbn [fst snd] in Ht.
  set (tl := c_quote :: escape value ++ c_quote :: rest).
  assert (Ht1 : text = (pre ++ lit " ") ++ key ++ "="%char :: tl)
    by (subst text tl; by rewrite <- !app_assoc).
  destruct (key_head key ("="%char :: tl) Hne Hkey) as (Hsp & Hgt & Hslash).
  assert (Hdrop : drop (length pre) text = lit " " ++ key ++ "="%char :: tl)
    by (rewrite Ht1, <- app_assoc; apply drop_app_length).
  assert (Hdrop1 : drop (length (pre ++ lit " ")) text = key ++ "="%char :: tl)
    by (rewrite Ht1; apply drop_app_length).
  assert (Hdrop2 : drop (length (pre ++ lit " " ++ key)) text = "="%char :: tl)
    by (apply drop_cut; rewrite Ht1; by rewrite <- !app_assoc).
  unfold attr_step. rewrite Hdrop, (span_stop is_space (lit " ")) by (by repeat constructor).
  replace (length pre + length (lit " "))%nat with (length (pre ++ lit " ")) by (by rewrite length_app).
  rewrite bool_decide_false by (rewrite Ht1, (length_app (pre ++ lit " ")), length_app; destruct key; [done|cbn; lia]).
  rewrite char_at_drop, Hdrop1, Hgt, Hslash, (attr_name_length_stop key) by done.
  rewrite bool_decide_false by (destruct key; [done|cbn; lia]).
  rewrite (substr_cut text (pre ++ lit " ") key ("="%char :: tl)), Hfold by done.
  replace (length (pre ++ lit " ") + length key)%nat with (length (pre ++ lit " " ++ key))
    by (rewrite !length_app; lia).
  rewrite Hdrop2. change (span is_space ("="%char :: tl)) with 0%nat. rewrite Nat.add_0_r.
  rewrite char_at_drop, Hdrop2. change (head_is (Ascii.eqb "=") ("="%char :: tl)) with true. cbv iota.
  replace (S (length (pre ++ lit " " ++ key))) with (length (pre ++ lit " " ++ key ++ lit "="))
    by (rewrite !length_app; cbn; lia).
  rewrite (read_value_print _ _ value rest) by (subst text; by rewrite <- !app_assoc).
  do 2 f_equal. unfold print_attr. cbn [fst snd]. rewrite !length_app. cbn. lia.
Qed.

Lemma read_attrs text name closing pre attrs rest :
  text = pre ++ mjoin (print_attr <$> attrs) ++ lit ">" ++ rest → Forall attr_ok attrs →
  run_loop None (S (length text)) (attr_step text mode name closing) (length pre, []) =
  Some (mk_Tag name closing false (if closing then [] else attrs),
        length (pre ++ mjoin (print_attr <$> attrs) ++ lit ">")).
Proof.
  intros Ht Hok. unfold run_loop.
  assert (Hrun : ∀ pre acc, text = pre ++ mjoin (print_attr <$> attrs) ++ lit ">" ++ rest →
    rtc (λ s s', attr_step text mode name closing s = inl s') (length pre, acc)
      (length (pre ++ mjoin (print_attr <$> attrs)), if closing then acc else acc ++ attrs)).
  { clear pre Ht. induction Hok as [|[key value] attrs Hattr _ IH]; intros pre acc Ht.
    - cbn. rewrite !app_nil_r. by destruct closing; constructor.
    - cbn [fmap list_fmap mjoin list_join] in Ht |- *.
      eapply rtc_l; [apply (attr_step_print text name closing pre key value
        (mjoin (print_attr <$> attrs) ++ lit ">" ++ rest)); [by rewrite Ht, <- app_assoc|done]|].
      specialize (IH (pre ++ print_attr (key, value)) (if closing then acc else acc ++ [(key, value)])).
      rewrite <- !app_assoc in IH. destruct closing; [by apply IH; rewrite Ht, <- app_assoc|].
      rewrite <- app_assoc in IH. by apply IH; rewrite Ht, <- app_assoc. }
  specialize (Hrun pre [] Ht).
  rewrite (loop_rtc _ _ _ _ (Some (mk_Tag name closing false (if closing then [] else attrs),
        length (pre ++ mjoin (print_attr <$> attrs) ++ lit ">"))) Hrun); [done| |apply (parse_markup_total text mode)].
  unfold attr_step.
  assert (Hdrop : drop (length (pre ++ mjoin (print_attr <$> attrs))) text = lit ">" ++ rest)
    by (apply drop_cut; rewrite Ht; by rewrite <- !app_assoc).
  rewrite Hdrop. change (span is_space (lit ">" ++ rest)) with 0%nat. rewrite Nat.add_0_r.
  rewrite bool_decide_false by (rewrite Ht, app_assoc, length_app, length_app; cbn; lia).
  rewrite char_at_drop, Hdrop. change (head_is (Ascii.eqb ">") (lit ">" ++ rest)) with true. cbv iota.
  rewrite app_assoc, (length_app (pre ++ _)). cbn [length lit String.list_ascii_of_string].
  by rewrite Nat.add_1_r.
Qed.

(** A printed tag is read as itself, whatever follows it within the window. *)
Lemma read_tag_print text pre (closing : bool) tag attrs rest :
  text = pre ++ lit "<" ++ (if closing then lit "/" else []) ++ tag ++ mjoin (print_attr <$> attrs) ++
         lit ">" ++ rest →
  name_ok tag → Forall attr_ok attrs →
  read_tag text (length pre) mode =
  Some (mk_Tag tag closing false (if closing then [] else attrs),
        length (pre ++ lit "<" ++ (if closing then lit "/" else []) ++ tag ++ mjoin (print_attr <$> attrs) ++ lit ">")).
Proof.
  intros Ht (Hhead & Hname & Hfold) Hattrs. destruct tag as [|c tag]; [done|].
  set (tl := mjoin (print_attr <$> attrs) ++ lit ">" ++ rest).
  set (sl := if closing then lit "/" else []) in *.
  assert (Ht1 : text = (pre ++ lit "<" ++ sl) ++ (c :: tag) ++ tl) by (subst text tl; by rewrite <- !app_assoc).
  assert (Hnot : (c =c "/"%char)%bs = false).
  { destruct (Ascii.eqb_spec c "/"%char) as [->|]; [by vm_compute in Hhead|done]. }
  assert (Hclosing : char_at text (S (length pre)) (Ascii.eqb "/") = closing).
  { rewrite char_at_drop. replace (S (length pre)) with (length (pre ++ lit "<")) by (rewrite length_app; cbn; lia).
    rewrite (drop_cut text (pre ++ lit "<") (sl ++ (c :: tag) ++ tl)) by (rewrite Ht1; by rewrite <- !app_assoc).
    unfold sl. destruct closing; [done|]. cbn [app head_is]. by rewrite Ascii.eqb_sym. }
  unfold read_tag. rewrite Hclosing.
  assert (Hstart : (if closing then S (S (length pre)) else S (length pre)) = length (pre ++ lit "<" ++ sl))
    by (unfold sl; rewrite !length_app; destruct closing; cbn; lia).
  rewrite Hstart.
  assert (Hdrop : drop (length (pre ++ lit "<" ++ sl)) text = (c :: tag) ++ tl)
    by (rewrite Ht1; apply drop_app_length).
  rewrite char_at_drop, Hdrop, (span_stop is_name_char (c :: tag)); [|done|].
  2: { unfold tl. destruct attrs as [|[key value] attrs]; done. }
  cbn [head_is app length]. rewrite Hhead. cbn [orb negb].
  rewrite bool_decide_false by done.
  rewrite (substr_cut text (pre ++ lit "<" ++ sl) (c :: tag) tl), Hfold by done.
  replace (length (pre ++ lit "<" ++ sl) + S (length tag))%nat with (length (pre ++ lit "<" ++ sl ++ c :: tag))
    by (rewrite !length_app; cbn; lia).
  rewrite (read_attrs text _ closing (pre ++ lit "<" ++ sl ++ c :: tag) attrs rest);
    [by rewrite <- !app_assoc| |done].
  rewrite Ht1. unfold tl. by rewrite <- !app_assoc.
Qed.

(** ** Trees read back *)

(** A node the printer can write under [room] more levels: a text node holds
    text, an element has a name and attribute names the reader takes, a tag that
    fits its window, and no two text nodes in a row. *)
Fixpoint separated (nodes : list MarkupNode) : Prop :=
  match nodes with
  | node :: (next :: _) as nodes' => ¬ (is_text node = true ∧ is_text next = true) ∧ separated nodes'
  | _ => True
  end.
Fixpoint node_ok_in (parent : bytes) (room : nat) (node : MarkupNode) : Prop :=
  match node with
  | mk_MarkupNode tag text attrs children =>
      if tag =b [] then text ≠ [] ∧ attrs = [] ∧ children = [] else
      match room with
      | O => False
      | S room' =>
          tag_name_ok parent tag ∧ text = [] ∧ Forall attr_ok attrs ∧
          (length (print_open tag attrs) < kMaxTagBytes)%nat ∧ separated children ∧
          foldr (λ child P, node_ok_in tag room' child ∧ P) True children
      end
  end.
Definition nodes_ok_in (parent : bytes) (room : nat) (nodes : list MarkupNode) : Prop :=
  foldr (λ child P, node_ok_in parent room child ∧ P) True nodes.
(** Wherever it stands. *)
Abbreviation node_ok := (node_ok_in []).
Abbreviation nodes_ok := (nodes_ok_in []).

Lemma in_place_nil name : in_place [] name = false.
Proof. unfold in_place. repeat case_match; done. Qed.
Lemma node_ok_anywhere parent room node : node_ok room node → node_ok_in parent room node.
Proof.
  destruct node as [tag text attrs children]. destruct room; cbn [node_ok_in]; [done|]. destruct (tag =b []); [done|].
  intros ([Hname Hs] & ?). split; [|done]. split; [done|]. intros Hm. specialize (Hs Hm).
  by rewrite in_place_nil, andb_true_r in Hs; rewrite Hs.
Qed.
Lemma nodes_ok_anywhere parent room nodes : nodes_ok room nodes → nodes_ok_in parent room nodes.
Proof. induction nodes as [|node nodes IH]; [done|]. intros [? ?]. split; [by apply node_ok_anywhere|by apply IH]. Qed.

Definition add_children (nodes : list MarkupNode) (b : TreeBuilder) : TreeBuilder :=
  mk_TreeBuilder (mk_Frame (fr_tag (tr_top b)) (fr_attrs (tr_top b)) (fr_children (tr_top b) ++ nodes)) (tr_below b).
Definition ends_in_text (b : TreeBuilder) : Prop :=
  ∃ node, last (fr_children (tr_top b)) = Some node ∧ is_text node = true.

(** The parser stands after [pre]; what follows up to [mid] is character data it
    has not filed yet. *)
Record reads (text : bytes) (s : Parse) (pre mid rest : bytes) (b : TreeBuilder) : Prop := {
  rd_text : text = pre ++ mid ++ rest;
  rd_pos : pa_pos s = length pre;
  rd_start : pa_text_start s = length pre;
  rd_mid : "<"%char ∉ mid;
  rd_builder : builder_text mid (pa_builder s) = b }.
(** Nothing unfiled, so character data would start a text node of its own. *)
Definition fresh (mid : bytes) (b : TreeBuilder) : Prop := mid = [] ∧ ¬ ends_in_text b.

Lemma add_text_fresh text children :
  ¬ (∃ node, last children = Some node ∧ is_text node = true) → add_text text children = children ++ [text_node text].
Proof.
  induction children as [|node children IH]; cbn [add_text app]; [done|]. intros Hlast.
  destruct children as [|node' children].
  - destruct (is_text node) eqn:E; [|done]. destruct Hlast. by exists node.
  - rewrite IH; [done|]. intros (n & Hn & Ht). apply Hlast. by exists n.
Qed.

Lemma not_ends_in_text b node :
  is_text node = false → ¬ ends_in_text (add_children [node] b).
Proof. intros Hn (n & Hl & Ht). cbn in Hl. rewrite last_snoc in Hl. congruence. Qed.

Lemma add_children_app b nodes nodes' : add_children nodes' (add_children nodes b) = add_children (nodes ++ nodes') b.
Proof. unfold add_children. cbn. by rewrite app_assoc. Qed.

Lemma find_open text s pre mid rest b :
  reads text s pre mid (lit "<" ++ rest) b → find_char "<"%char text (pa_pos s) = Some (length pre + length mid)%nat.
Proof.
  intros [-> -> _ Hmid _]. apply (find_if_hit _ _ pre mid (lit "<" ++ rest)); [done|done| |done|done].
  intros k Hk. by apply head_is_other.
Qed.

(** What a name without a meaning of its own, or in its place, does not do. *)
Lemma special_raw parent tag :
  tag_name_ok parent tag →
  bool_decide (mode = kHtml) && ((tag =b lit "script") || (tag =b lit "style")) = false.
Proof.
  intros (_ & Hs). case_bool_decide as Hm; [|done]. specialize (Hs Hm). cbn [andb].
  repeat case_bool_decide; subst; [by apply andb_false_iff in Hs as [Hs|Hs]; vm_compute in Hs..|done].
Qed.
Lemma close_to_boundary targets boundary top below :
  targets (fr_tag top) = false → boundary (fr_tag top) = true → close_to targets boundary top below = None.
Proof. intros Ht Hb. destruct below; [done|]. cbn [close_to]. by rewrite Ht, Hb. Qed.
Lemma implicit_close_in_place tag b : in_place (fr_tag (tr_top b)) tag = true → implicit_close tag b = b.
Proof.
  unfold in_place, implicit_close. destruct (_ || _).
  { intros E%bool_decide_eq_true. by rewrite close_to_boundary by (by rewrite E). }
  destruct (tag =b lit "tr").
  { intros E%bool_decide_eq_true. by rewrite close_to_boundary by (by rewrite E). }
  destruct (tag =b lit "li").
  { intros [E%bool_decide_eq_true|E%bool_decide_eq_true]%orb_true_iff; by rewrite close_to_boundary by (by rewrite E). }
  destruct (tag =b lit "p"); [|done].
  intros [Hp Hblock]%andb_true_iff. rewrite close_to_boundary; [done| |by rewrite Hp, Hblock].
  unfold contains. cbn [existsb fmap list_fmap]. rewrite orb_false_r, bool_decide_eq_false.
  by apply negb_true_iff, bool_decide_eq_false in Hp.
Qed.
Lemma special_open parent tag b :
  tag_name_ok parent tag → parent = fr_tag (tr_top b) ∨ parent = [] →
  (if decide (mode = kHtml) then implicit_close tag b else b) = b ∧
  bool_decide (mode = kHtml) && contains kVoidTags tag = false.
Proof.
  intros (_ & Hs) Hparent. rewrite bool_decide_decide. destruct (decide _) as [E|]; [|done]. specialize (Hs E).
  apply andb_false_iff in Hs as [Hs|Hs%negb_false_iff].
  - split.
    + unfold implicit_close. repeat case_bool_decide; subst; try (by vm_compute in Hs); done.
    + unfold contains, kSpecialTags in Hs. rewrite existsb_app in Hs. by apply orb_false_elim in Hs as [].
  - destruct Hparent as [-> | ->]; [|by rewrite in_place_nil in Hs]. split; [by apply implicit_close_in_place|].
    revert Hs. unfold in_place. repeat case_bool_decide; subst; done.
Qed.

(** A tag the parser meets is handed to the builder, the character data first. *)
Lemma parse_step_tag text s pre mid (closing : bool) parent tag attrs rest b :
  reads text s pre mid (lit "<" ++ (if closing then lit "/" else []) ++ tag ++
    mjoin (print_attr <$> attrs) ++ lit ">" ++ rest) b →
  tag_name_ok parent tag → Forall attr_ok attrs →
  (length (print_open tag attrs) < kMaxTagBytes)%nat →
  let read := pre ++ mid ++ lit "<" ++ (if closing then lit "/" else []) ++ tag ++ mjoin (print_attr <$> attrs) ++ lit ">" in
  parse_step text mode s =
  inl (mk_Parse (length read) (length read)
         (if closing then builder_close tag b
          else builder_open mode (mk_Tag tag false false attrs) b)).
Proof.
  intros Hr [Hname Hspecial] Hattrs Hwindow read. pose proof (find_open _ _ _ _ _ _ Hr) as Hopen.
  destruct Hr as [Ht Hpos Hstart Hmid <-]. destruct s as [pos text_start b0]. cbn in Hpos, Hstart. subst pos text_start.
  set (sl := if closing then lit "/" else []) in *.
  set (after := tag ++ mjoin (print_attr <$> attrs) ++ lit ">" ++ rest) in *.
  assert (Hdrop : drop (length pre + length mid) text = lit "<" ++ sl ++ after).
  { rewrite <- length_app. apply drop_cut. rewrite Ht. by rewrite <- app_assoc. }
  assert (Hafter : ∃ c tl, sl ++ after = c :: tl ∧ (c =c "!"%char)%bs = false ∧ (c =c "?"%char)%bs = false).
  { unfold sl, after. destruct closing; [by eexists _, _|]. destruct Hname as [Hhead _].
    destruct tag as [|c tag]; [done|]. eexists c, _. split; [done|].
    split; apply Ascii.eqb_neq; intros ->; by vm_compute in Hhead. }
  destruct Hafter as (c & tl & Hc & Hbang & Hquestion).
  unfold parse_step. cbn [pa_pos pa_builder] in Hopen |- *. rewrite Hopen, Hdrop, Hc.
  assert (Hnot : starts_with (lit "<!--") (lit "<" ++ c :: tl) = false ∧
    starts_with (lit "<![CDATA[") (lit "<" ++ c :: tl) = false).
  { cbn [starts_with lit String.list_ascii_of_string app]. rewrite (Ascii.eqb_sym "!"%char c), Hbang. done. }
  destruct Hnot as [-> ->]. rewrite char_at_drop.
  replace (S (length pre + length mid)) with (length (pre ++ mid ++ lit "<")) by (rewrite !length_app; cbn; lia).
  rewrite (drop_cut text (pre ++ mid ++ lit "<") (c :: tl))
    by (rewrite Ht, Hc; by rewrite <- !app_assoc).
  cbn [head_is]. rewrite Hbang, Hquestion. cbn [orb].
  rewrite (substr_cut text pre mid (lit "<" ++ sl ++ after)) by (first [done|lia]).
  set (n := Nat.min _ _).
  assert (Hlen : (length read ≤ n)%nat).
  { assert (Hop : length read = (length pre + length mid + length sl + length (print_open tag attrs))%nat)
      by (unfold read, print_open; rewrite !length_app; lia).
    assert (Htl : length text = (length read + length rest)%nat)
      by (rewrite Ht; unfold read, after; rewrite !length_app; lia).
    assert (Hsl : (length sl ≤ 1)%nat) by (unfold sl; destruct closing; cbn; lia).
    unfold n. lia. }
  assert (Hwin : take n text = (pre ++ mid) ++ lit "<" ++ sl ++ tag ++ mjoin (print_attr <$> attrs) ++ lit ">" ++
    take (n - length read) rest).
  { rewrite Ht. transitivity (take n (read ++ rest)); [unfold read, after; by rewrite <- !app_assoc|].
    rewrite take_app, take_ge by done. unfold read. by rewrite <- !app_assoc. }
  rewrite <- length_app, (read_tag_print _ (pre ++ mid) closing tag attrs _ Hwin) by done.
  replace (length ((pre ++ mid) ++ _)) with (length read) by (unfold read; by rewrite <- !app_assoc).
  unfold on_tag. cbn [tg_closing tg_name]. destruct closing; [done|].
  by rewrite (special_raw parent tag) by done.
Qed.

(** Reaching a configuration where more of the text has been read. *)
Definition reaches (text : bytes) (s : Parse) (upto rest : bytes) (b : TreeBuilder) (is_fresh : Prop) : Prop :=
  ∃ s' pre' mid', rtc (λ s s', parse_step text mode s = inl s') s s' ∧
    reads text s' pre' mid' rest b ∧ pre' ++ mid' = upto ∧ (is_fresh → fresh mid' b).

Definition node_reads (node : MarkupNode) : Prop := ∀ text s pre mid rest b parent room,
  node_ok_in parent room node → parent = fr_tag (tr_top b) ∨ parent = [] → (stack_size b + room)%nat = S kMaxMarkupDepth →
  reads text s pre mid (print_node node ++ rest) b →
  (is_text node = true → fresh mid b) →
  reaches text s (pre ++ mid ++ print_node node) rest (add_children [node] b) (is_text node = false).

Lemma escape_nil text : escape text = [] → text = [].
Proof.
  destruct text as [|c text]; [done|]. change (escape (c :: text)) with (escape_char c ++ escape text).
  unfold escape_char. by repeat match goal with |- context [Ascii.eqb c ?e] => destruct (Ascii.eqb c e) end.
Qed.

Lemma text_reads text attrs children : node_reads (mk_MarkupNode [] text attrs children).
Proof.
  intros whole s pre mid rest b parent room Hok _ _ [Ht Hpos Hstart Hmid Hb] Hfresh.
  change (print_node (mk_MarkupNode [] text attrs children)) with (escape text) in *.
  assert (Hok' : text ≠ [] ∧ attrs = [] ∧ children = []) by (by destruct room).
  destruct Hok' as (Hne & -> & ->). destruct (Hfresh eq_refl) as [-> Hlast].
  exists s, pre, (escape text). split_and!; [constructor| |done|done].
  split; [done|done|done| |].
  - apply not_in_escape. by left.
  - cbn in Hb. subst b. unfold builder_text. rewrite bool_decide_false by (by intros ?%escape_nil).
    rewrite decode_escape, add_text_fresh by done. done.
Qed.

Lemma nodes_read nodes : Forall node_reads nodes → ∀ text s pre mid rest b parent room,
  nodes_ok_in parent room nodes → separated nodes → parent = fr_tag (tr_top b) ∨ parent = [] → (stack_size b + room)%nat = S kMaxMarkupDepth →
  reads text s pre mid (print_nodes nodes ++ rest) b →
  (∀ node, head nodes = Some node → is_text node = true → fresh mid b) →
  reaches text s (pre ++ mid ++ print_nodes nodes) rest (add_children nodes b) False.
Proof.
  induction 1 as [|node nodes Hnode Hnodes IH]; intros text s pre mid rest b parent room Hok Hsep Hparent Hroom Hr Hfresh.
  - exists s, pre, mid. cbn [print_nodes foldr] in *. rewrite app_nil_r. split_and!; [constructor| |done|done].
    destruct b as [[tag attrs children] below]. unfold add_children. cbn. by rewrite app_nil_r.
  - cbn [nodes_ok_in print_nodes foldr] in *. destruct Hok as [Hok Hoks]. rewrite <- app_assoc in Hr.
    destruct (Hnode text s pre mid _ b parent room Hok Hparent Hroom Hr (Hfresh node eq_refl))
      as (s1 & pre1 & mid1 & Hrun1 & Hr1 & Hupto1 & Hfresh1).
    destruct (IH text s1 pre1 mid1 rest (add_children [node] b) parent room) as (s2 & pre2 & mid2 & Hrun2 & Hr2 & Hupto2 & _).
    + done.
    + by destruct nodes; [|destruct Hsep].
    + done.
    + done.
    + done.
    + intros next Hnext Htext. apply Hfresh1. destruct nodes as [|n nodes]; [done|]. injection Hnext as ->.
      destruct Hsep as [Hsep _]. destruct (is_text node); [by destruct Hsep|done].
    + exists s2, pre2, mid2. split_and!; [by etrans| | |done].
      * by rewrite add_children_app in Hr2.
      * rewrite Hupto2, app_assoc, Hupto1. by rewrite <- !app_assoc.
Qed.

Lemma print_node_element tag text attrs children :
  tag ≠ [] → print_node (mk_MarkupNode tag text attrs children) =
  print_open tag attrs ++ print_nodes children ++ print_close tag.
Proof. by destruct tag. Qed.

Lemma element_ok parent room tag text attrs children :
  tag ≠ [] → node_ok_in parent room (mk_MarkupNode tag text attrs children) →
  ∃ room', room = S room' ∧ tag_name_ok parent tag ∧ text = [] ∧ Forall attr_ok attrs ∧
    (length (print_open tag attrs) < kMaxTagBytes)%nat ∧ separated children ∧ nodes_ok_in tag room' children.
Proof. destruct tag; [done|]. intros _. destruct room as [|room]; [done|]. intros H. by exists room. Qed.

Lemma element_reads tag text attrs children :
  tag ≠ [] → Forall node_reads children → node_reads (mk_MarkupNode tag text attrs children).
Proof.
  intros Htag Hchildren whole s pre mid rest b parent room Hok Hparent Hroom Hr _.
  rewrite print_node_element in Hr |- * by done.
  destruct (element_ok _ _ _ _ _ _ Htag Hok) as (room' & -> & Hname & -> & Hattrs & Hwindow & Hsep & Hoks).
  clear Hok. rename room' into room.
  set (b1 := mk_TreeBuilder (mk_Frame tag attrs []) (tr_top b :: tr_below b)).
  assert (Hopen : builder_open mode (mk_Tag tag false false attrs) b = b1).
  { unfold builder_open, b1. cbn [tg_name tg_self_closing tg_attrs].
    destruct (special_open parent tag b Hname Hparent) as [-> Hvoid]. rewrite Hvoid.
    rewrite (bool_decide_true (stack_size b ≤ kMaxMarkupDepth)%nat) by lia. done. }
  assert (Hr0 : reads whole s pre mid (lit "<" ++ (if false then lit "/" else []) ++ tag ++
      mjoin (print_attr <$> attrs) ++ lit ">" ++ print_nodes children ++ print_close tag ++ rest) b).
  { destruct Hr as [Ht ????]. split; try done. rewrite Ht. unfold print_open. by rewrite <- !app_assoc. }
  pose proof (parse_step_tag _ _ _ _ false _ _ _ _ _ Hr0 Hname Hattrs Hwindow) as Hstep1. cbv zeta in Hstep1.
  rewrite Hopen in Hstep1. set (pre1 := pre ++ mid ++ _) in Hstep1.
  destruct (nodes_read children Hchildren whole (mk_Parse (length pre1) (length pre1) b1) pre1 []
    (print_close tag ++ rest) b1 tag room) as (s2 & pre2 & mid2 & Hrun2 & Hr2 & Hupto2 & _); [done|done|by left| | | |].
  { unfold b1, stack_size in *. cbn [tr_below length]. lia. }
  { split; try done; [|by intros ?%elem_of_nil]. destruct Hr0 as [Ht ????]. rewrite Ht. unfold pre1.
    by rewrite <- !app_assoc. }
  { intros ???. split; [done|]. by intros (? & ? & ?). }
  assert (Hr3 : reads whole s2 pre2 mid2 (lit "<" ++ (if true then lit "/" else []) ++ tag ++
      mjoin (print_attr <$> []) ++ lit ">" ++ rest) (add_children children b1)).
  { destruct Hr2 as [Ht ????]. split; try done. rewrite Ht. unfold print_close. by rewrite <- !app_assoc. }
  assert (Hclosewin : (length (print_open tag []) < kMaxTagBytes)%nat).
  { revert Hwindow. unfold print_open. rewrite !length_app. cbn. lia. }
  pose proof (parse_step_tag _ _ _ _ true parent tag [] _ _ Hr3 Hname (List.Forall_nil _) Hclosewin) as Hstep3. cbv zeta in Hstep3.
  set (pre3 := pre2 ++ mid2 ++ _) in Hstep3.
  assert (Hclose : builder_close tag (add_children children b1) = add_children [mk_MarkupNode tag [] attrs children] b).
  { unfold builder_close, b1. cbn [close_to tr_top tr_below add_children fr_tag fr_attrs fr_children app].
    rewrite bool_decide_true by done. done. }
  rewrite Hclose in Hstep3.
  exists (mk_Parse (length pre3) (length pre3) (add_children [mk_MarkupNode tag [] attrs children] b)), pre3, [].
  split_and!.
  - eapply rtc_l; [exact Hstep1|]. etrans; [exact Hrun2|]. eapply rtc_once. exact Hstep3.
  - split; try done; [|by intros ?%elem_of_nil]. destruct Hr3 as [Ht ????]. rewrite Ht. unfold pre3. cbn [app].
    by rewrite <- !app_assoc.
  - rewrite app_nil_r. unfold pre3. rewrite app_assoc, Hupto2. unfold pre1, print_open, print_close.
    cbn [fmap list_fmap mjoin list_join app]. by rewrite <- !app_assoc.
  - intros Hnt. split; [done|]. by apply not_ends_in_text.
Qed.

Lemma all_nodes_read node : node_reads node.
Proof.
  induction node as [tag text attrs children IH] using MarkupNode_rect_children.
  destruct (decide (tag = [])) as [->|]; [apply text_reads|by apply element_reads].
Qed.

Lemma parse_print_nodes nodes :
  nodes_ok kMaxMarkupDepth nodes → separated nodes →
  parse_markup (print_nodes nodes) mode = mk_MarkupNode (lit "root") [] [] nodes.
Proof.
  intros Hok Hsep. set (text := print_nodes nodes).
  destruct (nodes_read nodes (Forall_true _ _ all_nodes_read) text parse_init [] [] [] TreeBuilder_new
    [] kMaxMarkupDepth Hok Hsep) as (s & pre & mid & Hrun & [Ht Hpos Hstart Hmid Hb] & Hupto & _).
  - by right.
  - done.
  - split; try done; [by rewrite app_nil_r|by intros ?%elem_of_nil].
  - intros ???. split; [done|]. by intros (? & ? & ?).
  - unfold parse_markup, parse_loop, run_loop. rewrite app_nil_r in Ht.
    rewrite (loop_rtc _ _ _ _ s Hrun); [| |apply (parse_markup_total text mode)].
    + cbn [default id]. rewrite Hstart. rewrite (substr_from_cut text pre mid) by done. rewrite Hb. done.
    + unfold parse_step. destruct s as [pos start b]. cbn in Hpos. subst pos.
      unfold find_char. rewrite (find_if_miss _ _ pre mid); [done..|].
      intros k Hk. rewrite <- (app_nil_r (drop k mid)). by apply head_is_other.
Qed.

(** C27: Markup printed from a tree reads back as that tree: names, attributes
    and text with every special character, nested as deep as the parser goes; in
    HTML, where names fold to lower case, elements without content or with a raw
    body excepted, and those that close others only right inside their container
    (cells in rows, rows in tables, items in lists). *)
Theorem markup_roundtrip nodes :
  nodes_ok kMaxMarkupDepth nodes → separated nodes →
  parse_markup (print_nodes nodes) mode = mk_MarkupNode (lit "root") [] [] nodes.
Proof. apply parse_print_nodes. Qed.

End Read.
Abbreviation node_ok mode := (node_ok_in mode []).
Abbreviation nodes_ok mode := (nodes_ok_in mode []).

(** ** Witnesses *)

Definition toy_nodes : list MarkupNode :=
  [mk_MarkupNode (lit "doctag") [] [(lit "version", lit "1 & 2 <3>"); (lit "x:y", [])]
     [text_node (lit "a < b"); mk_MarkupNode (lit "p") [] [] []; text_node (lit "&amp;")]].
Lemma element_in mode parent room tag attrs children :
  tag_name_ok mode parent tag → Forall (attr_ok mode) attrs → Z.of_nat (length (print_open tag attrs)) < 64 * 1024 →
  separated children → nodes_ok_in mode tag room children →
  node_ok_in mode parent (S room) (mk_MarkupNode tag [] attrs children).
Proof.
  intros Hname Hattrs Hlen Hsep Hok. destruct tag as [|c tag]; [by destruct Hname as [[]]|].
  split_and!; try done. unfold kMaxTagBytes. lia.
Qed.

Lemma element_intro mode room tag attrs children :
  tag_name_ok mode [] tag → Forall (attr_ok mode) attrs → Z.of_nat (length (print_open tag attrs)) < 64 * 1024 →
  separated children → nodes_ok_in mode [] room children → node_ok_in mode [] (S room) (mk_MarkupNode tag [] attrs children).
Proof. intros. apply element_in; [done..|]. by apply nodes_ok_anywhere. Qed.
Lemma text_intro mode room text : text ≠ [] → node_ok_in mode [] room (text_node text).
Proof. intros Hne. by destruct room. Qed.

Lemma toy_nodes_ok room : nodes_ok_in kXml [] (S (S room)) toy_nodes.
Proof.
  split; [|done]. apply element_intro; [split_and!; try done; by repeat constructor|by repeat constructor|by vm_compute| |].
  - split; [by intros [_ ?]|]. split; [by intros [? _]|done].
  - split; [by apply text_intro|]. split; [|split; [by apply text_intro|done]].
    apply element_intro; [split_and!; try done; by repeat constructor|constructor|by vm_compute|done|done].
Qed.

Lemma markup_roundtrip_witness :
  parse_markup (print_nodes toy_nodes) kXml = mk_MarkupNode (lit "root") [] [] toy_nodes.
Proof.
  apply markup_roundtrip; [exact (toy_nodes_ok 126)|exact I].
Defined.
