(* ===== verification/LayoutText.v ===== *)
(** The text clean-ups and table readers the layout formats share
    (src/mapping/layout.h, the free functions of layout.cpp): an HTML element's
    text, the cells of an HTML table with their spans, the grid they are laid
    out on, and docling's Markdown and math clean-ups. *)
From S2P Require Import Prelude Numbers Double Proto ImageCrop Builder OtslGrid.
From S2P Require Import MarkupTree.

(** [std::ispunct] of an ASCII byte. *)
Definition ispunct (c : ascii) : bool :=
  in_range 33 47 c || in_range 58 64 c || in_range 91 96 c || in_range 123 126 c.

(** Bytes that begin a UTF-8 character. *)
Definition char_count (text : bytes) : Z :=
  Z.of_nat (length (filter (λ c, Z.land (code c) 0xC0 ≠ 0x80) text)).

(** * The text of an element *)

Definition is_block_tag (tag : bytes) : bool := contains kHtmlBlockTags tag.
Definition kBallotBox : bytes := chr <$> [0xE2; 0x98; 0x90].
Definition kBallotBoxChecked : bytes := chr <$> [0xE2; 0x98; 0x91].
Definition input_text (node : MarkupNode) : bytes :=
  let type := tolower <$> attr node (lit "type") [] in
  if (type =b lit "checkbox") || (type =b lit "radio")
  then if has_attr node (lit "checked") then kBallotBoxChecked else kBallotBox
  else attr node (lit "value") [].

Fixpoint html_text (node : MarkupNode) : bytes :=
  match node with
  | mk_MarkupNode tag text _ children =>
      if tag =b [] then text
      else if tag =b lit "br" then [c_nl]
      else if tag =b lit "input" then input_text node
      else foldr (λ child out,
             html_text child ++ (if negb (is_text child) && is_block_tag (nd_tag child) then [c_nl] else []) ++ out)
           [] children
  end.

Fixpoint collapse_from (out : bytes) (pending : bool) (text : bytes) : bytes :=
  match text with
  | [] => out
  | c :: text =>
      if is_space c then collapse_from out (negb (out =b [])) text
      else collapse_from (out ++ (if pending then [" "%char] else []) ++ [c]) false text
  end.
Definition collapse_whitespace (text : bytes) : bytes := collapse_from [] false text.

(** The first element named [tag] below a node, depth first. *)
Fixpoint find_element (tag : bytes) (node : MarkupNode) : option MarkupNode :=
  match node with
  | mk_MarkupNode _ _ _ children =>
      foldr (λ child rest,
          if is_text child then rest
          else if nd_tag child =b tag then Some child
          else match find_element tag child with Some found => Some found | None => rest end)
        None children
  end.

(** * The cells of a table *)

Record SpanCell := mk_SpanCell {
  sp_row : nat;
  sp_col : nat;
  sp_row_span : nat;
  sp_col_span : nat;
  sp_text : bytes;
  sp_column_header : bool;
  sp_row_header : bool;
  sp_node : option MarkupNode }.

(** The number of a run of digits, saturating at 2^30. *)
Fixpoint span_number (digits : bytes) (number : Z) : Z :=
  match digits with
  | [] => number
  | c :: digits => span_number digits (Z.min (number * 10 + (code c - 48)) (2 ^ 30))
  end.
(** [parse_span]: 1 for a value that is not a number. *)
Definition parse_span (value : bytes) (maximum : nat) : nat :=
  let value := lstrip is_space value in
  let n := span isdigit value in
  let rest := lstrip is_space (drop n value) in
  if bool_decide (n = 0%nat) || negb (rest =b []) then 1
  else Nat.min maximum (Nat.max 1 (Z.to_nat (span_number (take n value) 0))).

Record Row := mk_Row {
  rw_node : MarkupNode;
  rw_in_header : bool;
  rw_group_end : nat }.  (* 0: the table end *)
Definition is_element (tag : bytes) (node : MarkupNode) : bool := negb (is_text node) && (nd_tag node =b tag).
Definition table_rows (table : MarkupNode) : list Row :=
  foldl (λ rows child,
      if is_element (lit "tr") child then rows ++ [mk_Row child false 0]
      else if is_element (lit "thead") child || is_element (lit "tbody") child || is_element (lit "tfoot") child then
        let group := filter (λ row, is_element (lit "tr") row = true) (nd_children child) in
        rows ++ ((λ row, mk_Row row (nd_tag child =b lit "thead") (length rows + length group)) <$> group)
      else rows)
    [] (nd_children table).

(** The furthest a cell may reach to the right. *)
Definition kColumnLimit : nat := Z.to_nat (kMaxTableCols * 4).
(** Column to first free row. *)
Abbreviation Occupied := (gmap nat nat).
(** The first column from [col] that is free in the row. *)
Fixpoint free_column (fuel : nat) (occupied : Occupied) (row col : nat) : nat :=
  match fuel with
  | O => col
  | S fuel =>
      match occupied !! col with
      | Some until => if bool_decide (row < until)%nat then free_column fuel occupied row (S col) else col
      | None => col
      end
  end.
Definition occupy (until : nat) (occupied : Occupied) (c : nat) : Occupied :=
  <[c := Nat.max (default 0%nat (occupied !! c)) until]> occupied.

(** The cells of one row from column [col] on. *)
Fixpoint row_cells (rows : nat) (index : nat) (row : Row) (nodes : list MarkupNode) (col : nat)
    (occupied : Occupied) : list SpanCell * Occupied :=
  match nodes with
  | [] => ([], occupied)
  | node :: nodes =>
      if negb (is_element (lit "td") node || is_element (lit "th") node)
      then row_cells rows index row nodes col occupied else
      let col_span := parse_span (attr node (lit "colspan") (lit "1")) (Z.to_nat kMaxTableCells) in
      let remaining := ((if bool_decide (rw_group_end row = 0%nat) then rows else rw_group_end row) - index)%nat in
      let row_span := if attr node (lit "rowspan") [] =b lit "0" then remaining
                      else parse_span (attr node (lit "rowspan") (lit "1")) remaining in
      let col := free_column (S kColumnLimit) occupied index col in
      if bool_decide (kColumnLimit < col + col_span)%nat then ([], occupied) else
      let occupied := foldl (occupy (index + row_span)) occupied (seq col col_span) in
      let th := nd_tag node =b lit "th" in
      let cell := mk_SpanCell index col row_span col_span (collapse_whitespace (html_text node))
        ((attr node (lit "scope") [] =b lit "col") || th && (rw_in_header row || bool_decide (index = 0%nat)))
        ((attr node (lit "scope") [] =b lit "row") ||
         th && bool_decide (col = 0%nat) && bool_decide (0 < index)%nat && negb (rw_in_header row))
        (Some node) in
      let '(cells, occupied) := row_cells rows index row nodes (col + col_span) occupied in
      (cell :: cells, occupied)
  end.
Fixpoint rows_cells (rows : nat) (index : nat) (todo : list Row) (occupied : Occupied) : list SpanCell :=
  match todo with
  | [] => []
  | row :: todo =>
      let '(cells, occupied) := row_cells rows index row (nd_children (rw_node row)) 0 occupied in
      cells ++ rows_cells rows (S index) todo occupied
  end.
Definition chandra_table_cells (table : MarkupNode) : list SpanCell :=
  let rows := table_rows table in rows_cells (length rows) 0 rows ∅.

(** * The grid *)

Definition sp_end_row (cell : SpanCell) : nat := (sp_row cell + sp_row_span cell)%nat.
Definition sp_end_col (cell : SpanCell) : nat := (sp_col cell + sp_col_span cell)%nat.

(** The cell within the kept part, its span clipped. *)
Definition clip_cell (kept_rows kept_cols : Z) (cell : SpanCell) : option TableCell :=
  if (kept_rows <=? Z.of_nat (sp_row cell)) || (kept_cols <=? Z.of_nat (sp_col cell)) then None else
  let row := Z.of_nat (sp_row cell) in
  let col := Z.of_nat (sp_col cell) in
  let end_row := Z.min (Z.of_nat (sp_end_row cell)) kept_rows in
  let end_col := Z.min (Z.of_nat (sp_end_col cell)) kept_cols in
  Some (mk_TableCell (end_row - row) (end_col - col) row end_row col end_col (sp_text cell)
          (sp_column_header cell) (sp_row_header cell) false None).

Section FillSpanTable.
Context `{ProtobufSize}.

Fixpoint span_grid_too_big (cells : list TableCell) (grid_bytes : Z) : bool :=
  match cells with
  | [] => false
  | cell :: cells =>
      let grid_bytes := grid_bytes + tc_row_span cell * tc_col_span cell * ByteSizeLong cell in
      if kMaxGridBytes <? grid_bytes then true else span_grid_too_big cells grid_bytes
  end.
(** A cell over [start, end) of its rows and columns. *)
Definition stamp_span (grid : list TableRow) (cell : TableCell) : list TableRow :=
  stamp_cell (tc_end_row_offset_idx cell) (tc_end_col_offset_idx cell) grid cell.

Definition fill_span_table (cells : list SpanCell) : TableData * TableCut :=
  let source_rows := foldl (λ m cell, Z.max m (Z.of_nat (sp_end_row cell))) 0 cells in
  let source_cols := foldl (λ m cell, Z.max m (Z.of_nat (sp_end_col cell))) 0 cells in
  let '(kept_rows, kept_cols) := kept_table_shape source_rows source_cols in
  let truncated := (kept_rows <? source_rows) || (kept_cols <? source_cols) in
  let table_cells := omap (clip_cell kept_rows kept_cols) cells in
  if span_grid_too_big table_cells 0 then
    (mk_TableData table_cells kept_rows kept_cols [], mk_TableCut source_rows source_cols truncated true)
  else
    let grid := foldl stamp_span (empty_grid (Z.to_nat kept_rows) (Z.to_nat kept_cols)) table_cells in
    (mk_TableData table_cells kept_rows kept_cols grid, mk_TableCut source_rows source_cols truncated false).
End FillSpanTable.

(** * Markdown and math clean-ups *)

Definition is_hspace (c : ascii) : bool := (c =c " "%char) || (c =c c_tab).
Definition strip_markdown_heading (text : bytes) : bytes * Z :=
  let hashes := span (Ascii.eqb "#") text in
  if bool_decide (hashes = 0%nat) || bool_decide (6 < hashes)%nat || negb (char_at text hashes is_hspace)
  then (text, 0)
  else (rstrip is_space (lstrip is_hspace (drop hashes text)), Z.of_nat hashes).

(** The first pass: "\(" and "\)" go, "\\" stays. *)
Fixpoint drop_parens (text : bytes) : bytes :=
  match text with
  | [] => []
  | c :: rest =>
      if c =c "\"%char then
        match rest with
        | d :: rest' =>
            if d =c "\"%char then lit "\\" ++ drop_parens rest'
            else if (d =c "("%char) || (d =c ")"%char) then drop_parens rest'
            else c :: drop_parens rest
        | [] => [c]
        end
      else c :: drop_parens rest
  end.
Definition inner (n : nat) (s : bytes) : bytes := substr s n (length s - 2 * n).
Definition absent (needle s : bytes) : bool := match find needle s 0 with Some _ => false | None => true end.
(** One wrapping pair, if one encloses the whole formula. *)
Definition unwrap (s : bytes) : option bytes :=
  if bool_decide (4 ≤ length s)%nat && starts_with (lit "$$") s && ends_with (lit "$$") s &&
     absent (lit "$$") (inner 2 s) then Some (inner 2 s)
  else if bool_decide (4 ≤ length s)%nat && starts_with (lit "\[") s && ends_with (lit "\]") s &&
     absent (lit "\[") (inner 2 s) && absent (lit "\]") (inner 2 s) then Some (inner 2 s)
  else if bool_decide (2 ≤ length s)%nat && starts_with (lit "$") s && ends_with (lit "$") s &&
     absent (lit "$") (inner 1 s) then Some (inner 1 s)
  else None.
Definition unwrap_step (s : bytes) : bytes + bytes :=
  match unwrap s with
  | Some s' => inl (trim s')
  | None => inr s
  end.
Definition strip_math_delimiters (text : bytes) : bytes :=
  let out := trim (drop_parens text) in
  run_loop [] (S (length out)) unwrap_step out.

(** A span from [i] closed by [close] from [from] on. *)
Definition copy_span (text : bytes) (i : nat) (out close : bytes) (at_ : nat) : nat * bytes :=
  let stop := (at_ + length close)%nat in (stop, out ++ substr text i (stop - i)).
Definition unescape_step (text : bytes) (s : nat * bytes) : nat * bytes + bytes :=
  let '(i, out) := s in
  match text !! i with
  | None => inr out
  | Some c =>
      let next := text !! S i in
      if c =c "`"%char then
        let run := span (Ascii.eqb "`") (drop i text) in
        let fence := replicate run "`"%char in
        match find fence text (i + run) with
        | Some close => inl (copy_span text i out fence close)
        | None => inl (i + run, out ++ fence)%nat
        end
      else
        let delim := if bool_decide (next = Some "$"%char) then lit "$$" else lit "$" in
        let close := if c =c "$"%char then find delim text (i + length delim) else None in
        let closes := match close with
                      | Some close => bool_decide (delim = lit "$$") || absent [c_nl] (substr text i (close - i))
                      | None => false end in
        if closes then inl (copy_span text i out delim (default 0%nat close)) else
        let plain := inl (S i, out ++ [c]) in
        match next with
        | Some d =>
            if negb (c =c "\"%char) then plain
            else if (d =c "*"%char) || (d =c "_"%char) then inl (i + 2, out ++ [d])%nat
            else if d =c "\"%char then inl (i + 2, out ++ lit "\\")%nat
            else if (d =c "("%char) || (d =c "["%char) then
              let closer := if d =c "("%char then lit "\)" else lit "\]" in
              match find closer text (i + 2) with
              | Some close => inl (copy_span text i out closer close)
              | None => plain
              end
            else plain
        | None => plain
        end
  end.
Definition unescape_markdown_literals (text : bytes) : bytes :=
  run_loop [] (S (length text)) (unescape_step text) (0%nat, []).

(** One line of [markdown_to_text], from position [i]. *)
Definition plain_step (line : bytes) (s : nat * bytes) : nat * bytes + bytes :=
  let '(i, plain) := s in
  match line !! i with
  | None => inr plain
  | Some c =>
      let next := line !! S i in
      let escaped := match next with Some d => (c =c "\"%char) && ispunct d | None => false end in
      if escaped then inl (i + 2, plain ++ option_list next)%nat
      else if (c =c "*"%char) || (c =c "`"%char) then inl (S i, plain)
      else if (c =c "_"%char) && bool_decide (next = Some "_"%char) then inl (i + 2, plain)%nat
      else if (c =c "_"%char) &&
              (bool_decide (i = 0%nat) || char_at line (i - 1) is_space ||
               match next with None => true | Some d => is_space d end) then inl (S i, plain)
      else
        let close := if c =c "["%char then find (lit "](") line (S i) else None in
        let paren := close ≫= find_char ")"%char line in
        match close, paren with
        | Some close, Some paren => inl (S paren, plain ++ substr line (S i) (close - i - 1))
        | _, _ => inl (S i, plain ++ [c])
        end
  end.
Definition plain_line (line : bytes) : bytes :=
  run_loop [] (S (length line)) (plain_step line) (0%nat, []).
Definition text_line_step (markdown : bytes) (s : nat * bytes) : nat * bytes + bytes :=
  let '(line_start, out) := s in
  if bool_decide (length markdown < line_start)%nat then inr out else
  let line_end := default (length markdown) (find_char c_nl markdown line_start) in
  let line := trim (substr markdown line_start (line_end - line_start)) in
  let plain := collapse_whitespace (plain_line (strip_markdown_heading line).1) in
  let out := if plain =b [] then out else out ++ (if out =b [] then [] else [c_nl]) ++ plain in
  if bool_decide (line_end = length markdown) then inr out else inl (S line_end, out).
Definition markdown_to_text (markdown : bytes) : bytes :=
  run_loop [] (S (length markdown)) (text_line_step markdown) (0%nat, []).

(** * Qwen2-VL's input size *)

Definition kFactor : double := of_Z 28.
Definition kMinPixels : double := of_Z 200704.
Definition kMaxPixels : double := of_Z 2500000.
Definition qwen2vl_image_size (width height : double) : double * double :=
  let mw := dfloor width in
  let mh := dfloor height in
  if dle mw dzero || dle mh dzero then (width, height) else
  let h_bar := dmul (dnearbyint (ddiv mh kFactor)) kFactor in
  let w_bar := dmul (dnearbyint (ddiv mw kFactor)) kFactor in
  if dlt kMaxPixels (dmul h_bar w_bar) then
    let beta := dsqrt (ddiv (dmul mh mw) kMaxPixels) in
    (dmax kFactor (dmul (dfloor (ddiv (ddiv mw beta) kFactor)) kFactor),
     dmax kFactor (dmul (dfloor (ddiv (ddiv mh beta) kFactor)) kFactor))
  else if dlt (dmul h_bar w_bar) kMinPixels then
    let beta := dsqrt (ddiv kMinPixels (dmul mh mw)) in
    (dmul (dceil (ddiv (dmul mw beta) kFactor)) kFactor,
     dmul (dceil (ddiv (dmul mh beta) kFactor)) kFactor)
  else (w_bar, h_bar).

Example html_text_small :
  html_text (parse_markup (lit "<div>a<br>b<p>c</p><input type=CHECKBOX checked></div>") kHtml) =
  lit "a" ++ [c_nl] ++ lit "b" ++ lit "c" ++ [c_nl] ++ kBallotBoxChecked ++ [c_nl].
Proof. vm_compute. reflexivity. Qed.
Example collapse_small : collapse_whitespace (lit "  a   b ") = lit "a b".
Proof. reflexivity. Qed.
Example strip_math_small : strip_math_delimiters (lit " $$ \(x\) $$ ") = lit "x".
Proof. vm_compute. reflexivity. Qed.
Example unescape_small : unescape_markdown_literals (lit "a\*b `\*` $\*$ \_") = lit "a*b `\*` $\*$ _".
Proof. vm_compute. reflexivity. Qed.
Example plain_small : markdown_to_text (lit "## A **b** [c](d) x_y _z_") = lit "A b c x_y z".
Proof. vm_compute. reflexivity. Qed.
Example cells_small :
  (λ c, (sp_row c, sp_col c, sp_row_span c, sp_col_span c, sp_text c, sp_column_header c)) <$>
  chandra_table_cells (default (text_node []) (find_element (lit "table")
    (parse_markup (lit "<table><tr><th rowspan=2>a<th>b<tr><td>c</table>") kHtml))) =
  [(0, 0, 2, 1, lit "a", true); (0, 1, 1, 1, lit "b", true); (1, 1, 1, 1, lit "c", false)]%nat.
Proof. vm_compute. reflexivity. Qed.
Example qwen_small : qwen2vl_image_size (of_Z 612) (of_Z 792) = (of_Z 616, of_Z 784).
Proof. vm_compute. reflexivity. Qed.

(** * The cells do not collide *)

Lemma parse_span_range value maximum : (1 ≤ maximum)%nat → (1 ≤ parse_span value maximum ≤ maximum)%nat.
Proof. intros. unfold parse_span. destruct (_ || _); lia. Qed.

Definition span_covers (cell : SpanCell) (r c : nat) : Prop :=
  (sp_row cell ≤ r < sp_end_row cell ∧ sp_col cell ≤ c < sp_end_col cell)%nat.
Definition free_of (prior : list SpanCell) (cell : SpanCell) : Prop :=
  Forall (λ earlier, ¬ span_covers earlier (sp_row cell) (sp_col cell)) prior.
Fixpoint all_free (prior cells : list SpanCell) : Prop :=
  match cells with
  | [] => True
  | cell :: cells => free_of prior cell ∧ all_free (prior ++ [cell]) cells
  end.
(** A cell is at least one position large and ends within the table and the
    column limit. *)
Definition span_ok (rows : nat) (cell : SpanCell) : Prop :=
  (1 ≤ sp_row_span cell ∧ 1 ≤ sp_col_span cell ∧ sp_end_row cell ≤ rows ∧ sp_end_col cell ≤ kColumnLimit)%nat.

(** The map holds every column a cell takes up to the cell's last row. *)
Record occupied_inv (occupied : Occupied) (cells : list SpanCell) : Prop := {
  oc_marks : ∀ cell c, cell ∈ cells → (sp_col cell ≤ c < sp_end_col cell)%nat →
    ∃ until, occupied !! c = Some until ∧ (sp_end_row cell ≤ until)%nat;
  oc_bound : ∀ c until, occupied !! c = Some until → (c < kColumnLimit)%nat }.

Lemma occupied_inv_empty : occupied_inv ∅ [].
Proof. split; [by intros ?? ?%elem_of_nil|]. intros c until. by rewrite lookup_empty. Qed.

Lemma free_column_spec occupied row fuel col :
  (∀ c until, occupied !! c = Some until → (c < kColumnLimit)%nat) → (kColumnLimit - col < fuel)%nat →
  (col ≤ free_column fuel occupied row col)%nat ∧
  ∀ until, occupied !! free_column fuel occupied row col = Some until → (until ≤ row)%nat.
Proof.
  intros Hb. revert col. induction fuel as [|fuel IH]; intros col Hfuel; [lia|]. cbn [free_column].
  destruct (occupied !! col) as [until|] eqn:Hcol; [|split; [lia|congruence]].
  apply Hb in Hcol as Hlt. case_bool_decide as Hrow.
  - destruct (IH (S col)) as [??]; [lia|]. split; [lia|done].
  - split; [lia|]. intros u Hu. assert (u = until) by congruence. lia.
Qed.

Lemma occupy_lookup until occupied cs c :
  foldl (occupy until) occupied cs !! c =
  if decide (c ∈ cs) then Some (Nat.max (default 0%nat (occupied !! c)) until) else occupied !! c.
Proof.
  revert occupied. induction cs as [|c' cs IH]; intros occupied; cbn [foldl].
  { by rewrite decide_False by apply not_elem_of_nil. }
  rewrite IH. unfold occupy. destruct (decide (c = c')) as [->|Hne].
  - rewrite lookup_insert_eq, (decide_True (P := _ ∈ _ :: _)) by (by left). cbn. case_decide; [f_equal; lia|done].
  - rewrite lookup_insert_ne by done.
    destruct (decide (c ∈ cs)); [rewrite decide_True by (by right)|rewrite decide_False by (by intros [|]%elem_of_cons)]; done.
Qed.

Lemma occupied_inv_add occupied cells cell :
  occupied_inv occupied cells → (sp_end_col cell ≤ kColumnLimit)%nat →
  occupied_inv (foldl (occupy (sp_end_row cell)) occupied (seq (sp_col cell) (sp_col_span cell))) (cells ++ [cell]).
Proof.
  intros [Hm Hb] Hlimit. unfold sp_end_col in *. split.
  - intros cell' c [Hin| ->%list_elem_of_singleton]%elem_of_app Hc; rewrite occupy_lookup.
    + destruct (Hm _ _ Hin Hc) as (until & Hu & Hle). rewrite Hu. case_decide; eexists; (split; [done|cbn; lia]).
    + unfold sp_end_col in Hc. rewrite decide_True by (apply elem_of_seq; lia). eexists. split; [done|lia].
  - intros c until. rewrite occupy_lookup. case_decide as Hin; [apply elem_of_seq in Hin; lia|by apply Hb].
Qed.

Lemma free_of_column occupied cells cell :
  occupied_inv occupied cells →
  (∀ until, occupied !! sp_col cell = Some until → (until ≤ sp_row cell)%nat) → free_of cells cell.
Proof.
  intros [Hm _] Hfree. apply Forall_forall. intros earlier Hin [Hr Hc].
  destruct (Hm _ _ Hin Hc) as (until & Hu & Hle). apply Hfree in Hu. lia.
Qed.

Lemma row_cells_spec rows index row nodes col occupied prior cells occupied' :
  occupied_inv occupied prior →
  (index < (if bool_decide (rw_group_end row = 0%nat) then rows else rw_group_end row) ≤ rows)%nat →
  row_cells rows index row nodes col occupied = (cells, occupied') →
  occupied_inv occupied' (prior ++ cells) ∧ all_free prior cells ∧ Forall (span_ok rows) cells.
Proof.
  intros Hinv Hgroup. revert col occupied prior cells occupied' Hinv.
  induction nodes as [|node nodes IH]; intros col occupied prior cells occupied' Hinv; cbn [row_cells].
  { intros [= <- <-]. by rewrite app_nil_r. }
  destruct (negb _); [by apply IH|].
  set (group_end := if bool_decide _ then _ else _) in *.
  assert (Hcs : (1 ≤ parse_span (attr node (lit "colspan") (lit "1")) (Z.to_nat kMaxTableCells))%nat).
  { apply parse_span_range. unfold kMaxTableCells. lia. }
  set (col_span := parse_span (attr node (lit "colspan") (lit "1")) _) in *.
  set (row_span := if attr node (lit "rowspan") [] =b lit "0" then _ else _).
  assert (Hrs : (1 ≤ row_span ≤ group_end - index)%nat).
  { unfold row_span. case_bool_decide; [lia|]. apply parse_span_range. lia. }
  destruct (free_column_spec occupied index (S kColumnLimit) col (oc_bound _ _ Hinv)) as [Hcol Hfree]; [lia|].
  set (col' := free_column _ _ _ _) in *. case_bool_decide as Hlimit.
  { intros [= <- <-]. by rewrite app_nil_r. }
  destruct (row_cells rows index row nodes _ _) as [rest occupied''] eqn:Erest.
  set (cell := mk_SpanCell _ _ _ _ _ _ _ _). intros [= <- <-].
  assert (Hend : (sp_end_col cell ≤ kColumnLimit)%nat) by (unfold sp_end_col, cell; cbn [sp_col sp_col_span]; lia).
  pose proof (occupied_inv_add occupied prior cell Hinv Hend) as Hinv'.
  destruct (IH _ _ _ _ _ Hinv' Erest) as (Hinv'' & Hall & Hok). rewrite <- app_assoc in Hinv''.
  split_and!; [done| |].
  - split; [|done]. by apply (free_of_column occupied).
  - constructor; [|done]. unfold span_ok, sp_end_row in *. unfold cell at 1 2 3 4.
    cbn [sp_row sp_row_span sp_col_span]. lia.
Qed.

Lemma all_free_app prior cells cells' :
  all_free prior cells → all_free (prior ++ cells) cells' → all_free prior (cells ++ cells').
Proof.
  revert prior. induction cells as [|cell cells IH]; intros prior; cbn; [by rewrite app_nil_r|].
  intros [? Hc] Hc'. split; [done|]. apply IH; [done|]. by rewrite <- app_assoc.
Qed.

(** Each row knows where its group ends. *)
Definition rows_ok (rows : nat) (index : nat) (todo : list Row) : Prop :=
  ∀ i row, todo !! i = Some row →
    (index + i < (if bool_decide (rw_group_end row = 0) then rows else rw_group_end row) ≤ rows)%nat.

Lemma rows_cells_spec rows index todo occupied prior :
  occupied_inv occupied prior → rows_ok rows index todo →
  all_free prior (rows_cells rows index todo occupied) ∧ Forall (span_ok rows) (rows_cells rows index todo occupied).
Proof.
  revert index occupied prior. induction todo as [|row todo IH]; intros index occupied prior Hinv Hrows; cbn [rows_cells]; [done|].
  destruct (row_cells _ _ _ _ _ _) as [cells occupied'] eqn:E.
  pose proof (Hrows 0%nat row eq_refl) as Hrow. rewrite Nat.add_0_r in Hrow.
  destruct (row_cells_spec _ _ _ _ _ _ _ _ _ Hinv Hrow E) as (Hinv' & Hfree & Hok).
  destruct (IH (S index) occupied' (prior ++ cells) Hinv') as [Hfree' Hok'].
  { intros i row' Hi. specialize (Hrows (S i) row' Hi). by rewrite Nat.add_succ_r in Hrows. }
  split; [by apply all_free_app|by apply Forall_app].
Qed.

Lemma table_rows_ok table : rows_ok (length (table_rows table)) 0 (table_rows table).
Proof.
  unfold table_rows.
  assert (Hkeep : ∀ children rows, rows_ok (length rows) 0 rows →
    let rows' := foldl (λ rows child,
      if is_element (lit "tr") child then rows ++ [mk_Row child false 0]
      else if is_element (lit "thead") child || is_element (lit "tbody") child || is_element (lit "tfoot") child then
        let group := filter (λ row, is_element (lit "tr") row = true) (nd_children child) in
        rows ++ ((λ row, mk_Row row (nd_tag child =b lit "thead") (length rows + length group)) <$> group)
      else rows) rows children in rows_ok (length rows') 0 rows').
  { induction children as [|child children IH]; intros rows Hrows; cbn [foldl]; [done|].
    assert (Hold : ∀ n, (length rows ≤ n)%nat → rows_ok n 0 rows).
    { intros n Hn i row Hi. pose proof (lookup_lt_Some _ _ _ Hi). specialize (Hrows i row Hi).
      case_bool_decide; lia. }
    apply IH. destruct (is_element (lit "tr") child).
    { intros i row [Hi|[Hge Hi]]%lookup_app_Some; rewrite length_app; cbn [length].
      - apply (Hold (length rows + 1)%nat); [lia|done].
      - apply list_lookup_singleton_Some in Hi as [? <-]. cbn [rw_group_end].
        rewrite bool_decide_true by done. lia. }
    destruct (_ || _); [|done].
    set (group := filter _ _). intros i row [Hi|[Hge Hi]]%lookup_app_Some; rewrite length_app, length_fmap.
    - apply (Hold (length rows + length group)%nat); [lia|done].
    - rewrite list_lookup_fmap in Hi. apply fmap_Some in Hi as (node & Hn & ->). apply lookup_lt_Some in Hn.
      cbn [rw_group_end]. case_bool_decide; lia. }
  apply Hkeep. intros i row. by rewrite lookup_nil.
Qed.

Lemma all_free_later prior cells earlier later j :
  all_free prior cells → earlier ∈ prior → cells !! j = Some later →
  ¬ span_covers earlier (sp_row later) (sp_col later).
Proof.
  revert prior j. induction cells as [|cell cells IH]; intros prior j Hall Hin Hj; [done|].
  destruct Hall as [Hfree Hall]. destruct j as [|j].
  - injection Hj as ->. unfold free_of in Hfree. rewrite Forall_forall in Hfree. by apply Hfree.
  - apply (IH (prior ++ [cell]) j); [done|by apply elem_of_app; left|done].
Qed.

Lemma all_free_lookup prior cells i j earlier later :
  all_free prior cells → (i < j)%nat → cells !! i = Some earlier → cells !! j = Some later →
  ¬ span_covers earlier (sp_row later) (sp_col later).
Proof.
  revert prior i j. induction cells as [|cell cells IH]; intros prior i j Hall Hij Hi Hj; [done|].
  destruct Hall as [Hfree Hall]. destruct j as [|j]; [lia|].
  destruct i as [|i]; [|apply (IH (prior ++ [cell]) i j); [done|lia|done..]].
  injection Hi as ->. apply (all_free_later (prior ++ [earlier]) cells _ _ j); [done| |done].
  apply elem_of_app. right. by apply list_elem_of_singleton.
Qed.

(** The cells read off an HTML table lie inside it, and none starts on a
    position an earlier cell spans: rows and columns a span takes are skipped by
    every later row, whatever the markup claims. *)
Theorem chandra_table_cells_free table :
  let cells := chandra_table_cells table in
  Forall (span_ok (length (table_rows table))) cells ∧
  ∀ i j earlier later, (i < j)%nat → cells !! i = Some earlier → cells !! j = Some later →
    ¬ span_covers earlier (sp_row later) (sp_col later).
Proof.
  cbv zeta. unfold chandra_table_cells.
  destruct (rows_cells_spec (length (table_rows table)) 0 (table_rows table) ∅ []
    occupied_inv_empty (table_rows_ok table)) as [Hfree Hok].
  split; [done|]. intros i j earlier later. by apply all_free_lookup with (prior := []).
Qed.

(** * The grid covers the table *)

Lemma clip_cell_inside kept_rows kept_cols cell clipped :
  (1 ≤ sp_row_span cell)%nat → (1 ≤ sp_col_span cell)%nat →
  clip_cell kept_rows kept_cols cell = Some clipped → inside kept_rows kept_cols clipped.
Proof.
  unfold clip_cell, inside, sp_end_row, sp_end_col. intros Hr Hc. destruct (_ || _) eqn:E; [done|].
  apply orb_false_elim in E as [E1%Z.leb_gt E2%Z.leb_gt]. intros [= <-]. cbn. lia.
Qed.

(** The clipped cell covers what the source cell covers of the kept part. *)
Lemma clip_cell_covers kept_rows kept_cols cell clipped r c :
  clip_cell kept_rows kept_cols cell = Some clipped →
  Z.of_nat r < kept_rows → Z.of_nat c < kept_cols → (covers clipped r c ↔ span_covers cell r c).
Proof.
  unfold clip_cell, covers, span_covers, sp_end_row, sp_end_col. destruct (_ || _); [done|].
  intros [= <-]. cbn. lia.
Qed.

Lemma stamp_span_clipped rows cols grid cell :
  inside rows cols cell → stamp_span grid cell = stamp_cell rows cols grid cell.
Proof.
  intros (_ & ? & _ & ? & _). unfold stamp_span, stamp_cell, span_range.
  rewrite !Z.min_id, !Z.min_l by lia. done.
Qed.

Lemma stamp_spans_clipped rows cols grid cells :
  Forall (inside rows cols) cells → foldl stamp_span grid cells = foldl (stamp_cell rows cols) grid cells.
Proof.
  intros Hin. revert grid. induction Hin as [|cell cells Hc _ IH]; intros grid; cbn [foldl]; [done|].
  rewrite (stamp_span_clipped rows cols) by done. apply IH.
Qed.

Section Grid.
Context `{ProtobufSize}.

(** What the copies of a cell over its span cost. *)
Definition span_cost (cell : TableCell) : Z := tc_row_span cell * tc_col_span cell * ByteSizeLong cell.
Lemma span_grid_too_big_total cells acc :
  Forall (λ cell, 0 <= span_cost cell) cells → acc <= kMaxGridBytes →
  span_grid_too_big cells acc = (kMaxGridBytes <? acc + total_cost span_cost cells).
Proof.
  intros Hcost. revert acc. induction Hcost as [|cell cells Hc Hcells IH]; intros acc Hacc; cbn.
  - destruct (Z.ltb_spec kMaxGridBytes (acc + 0)); [lia|done].
  - pose proof (total_cost_nonneg _ _ Hcells) as Hn. unfold total_cost in *. fold (span_cost cell).
    destruct (Z.ltb_spec kMaxGridBytes (acc + span_cost cell)).
    + symmetry. apply Z.ltb_lt. lia.
    + rewrite IH by lia. by rewrite Z.add_assoc.
Qed.

(** C28: A table laid out from spanned cells stays within every cap; its cells
    are the source cells that start in the kept part, their spans clipped to it,
    in order.  The grid is left out exactly when its copies, each cell's size for
    each position it spans, add up to more than 32 MiB; otherwise it is full: a
    position holds the last cell that spans it, or an empty one. *)
Theorem fill_span_table_covering cells data cut :
  Forall (λ cell, 1 ≤ sp_row_span cell ∧ 1 ≤ sp_col_span cell)%nat cells →
  fill_span_table cells = (data, cut) →
  td_num_rows data <= kMaxTableRows ∧ td_num_cols data <= kMaxTableCols ∧
  td_num_rows data * td_num_cols data <= kMaxTableCells ∧
  td_table_cells data = omap (clip_cell (td_num_rows data) (td_num_cols data)) cells ∧
  Forall (inside (td_num_rows data) (td_num_cols data)) (td_table_cells data) ∧
  (truncated cut = false → length (td_table_cells data) = length cells) ∧
  ((∀ cell, 0 <= ByteSizeLong cell) →
   grid_omitted cut = (kMaxGridBytes <? total_cost span_cost (td_table_cells data))) ∧
  (if grid_omitted cut then td_grid data = []
   else rectangular (Z.to_nat (td_num_rows data)) (Z.to_nat (td_num_cols data)) (td_grid data) ∧
     ∀ r c, Z.of_nat r < td_num_rows data → Z.of_nat c < td_num_cols data →
       grid_at (td_grid data) r c = Some
         (default (empty_cell (Z.of_nat r) (Z.of_nat c))
            (last (filter (λ cell, covers cell r c) (td_table_cells data))))).
Proof.
  intros Hspans. unfold fill_span_table.
  set (sr := foldl _ 0 cells). set (sc := foldl _ 0 cells).
  assert (Hmax : ∀ (f : SpanCell → Z) l acc, acc <= foldl (λ m cell, Z.max m (f cell)) acc l ∧
    ∀ cell, cell ∈ l → f cell <= foldl (λ m cell, Z.max m (f cell)) acc l).
  { clear. intros f l. induction l as [|cell l IH]; intros acc; cbn [foldl]; [split; [lia|by intros ? ?%elem_of_nil]|].
    destruct (IH (Z.max acc (f cell))) as [H1 H2]. split; [lia|].
    intros cell' [->|Hin]%elem_of_cons; [lia|by apply H2]. }
  destruct (Hmax (λ cell, Z.of_nat (sp_end_row cell)) cells 0) as [Hsr0 Hsr].
  destruct (Hmax (λ cell, Z.of_nat (sp_end_col cell)) cells 0) as [Hsc0 Hsc].
  fold sr in Hsr0, Hsr. fold sc in Hsc0, Hsc.
  destruct (kept_table_shape sr sc) as [kr kc] eqn:Hshape.
  apply kept_table_shape_spec in Hshape as (? & ? & ? & ? & ?); [|done..].
  set (kept := omap (clip_cell kr kc) cells).
  assert (Hin : Forall (inside kr kc) kept).
  { apply Forall_forall. intros clipped (cell & Hc & Hclip)%list_elem_of_omap.
    rewrite Forall_forall in Hspans. destruct (Hspans cell Hc). by eapply clip_cell_inside. }
  assert (Hall : (kr <? sr) || (kc <? sc) = false → length kept = length cells).
  { intros [E1%Z.ltb_ge E2%Z.ltb_ge]%orb_false_elim. unfold kept.
    assert (Hsome : ∀ cell, cell ∈ cells → is_Some (clip_cell kr kc cell)).
    { intros cell Hc. rewrite Forall_forall in Hspans. destruct (Hspans cell Hc).
      specialize (Hsr cell Hc). specialize (Hsc cell Hc). unfold clip_cell, sp_end_row, sp_end_col in *.
      destruct (Z.leb_spec kr (Z.of_nat (sp_row cell))); [lia|].
      destruct (Z.leb_spec kc (Z.of_nat (sp_col cell))); [lia|]. done. }
    clear -Hsome. induction cells as [|cell cells IH]; cbn; [done|].
    destruct (Hsome cell) as [clipped ->]; [by left|]. cbn. f_equal. apply IH. intros. apply Hsome. by right. }
  assert (Hcap : (∀ cell, 0 <= ByteSizeLong cell) →
    span_grid_too_big kept 0 = (kMaxGridBytes <? total_cost span_cost kept)).
  { intros Hsize. rewrite span_grid_too_big_total; [by rewrite Z.add_0_l| |done].
    eapply Forall_impl; [exact Hin|]. intros cell (_ & _ & _ & _ & _ & _ & Hr & Hc). unfold span_cost.
    specialize (Hsize cell). nia. }
  destruct (span_grid_too_big kept 0); intros [= <- <-]; cbn; split_and!; try done.
  - rewrite (stamp_spans_clipped kr kc) by done. apply foldl_rectangular; [intros; by apply stamp_cell_rectangular|apply empty_grid_rectangular].
  - intros r c Hr Hc.
    rewrite (stamp_spans_clipped kr kc), stamp_cells_at; [|done| |done].
    + rewrite empty_grid_at by lia. by destruct (last _).
    + rewrite empty_grid_at by lia. done.
Qed.
End Grid.

(** * The clean-ups end *)

Lemma span_stop_at p s i : (i < length s)%nat → char_at s i p = true → (0 < span p (drop i s))%nat.
Proof.
  intros Hi. unfold char_at. destruct (s !! i) as [c|] eqn:E; [|done]. rewrite (drop_S _ _ _ E). cbn.
  intros ->. lia.
Qed.

Lemma unescape_step_progress text i out i' out' :
  unescape_step text (i, out) = inl (i', out') → (i < i' ∧ i < length text)%nat.
Proof.
  unfold unescape_step. destruct (text !! i) as [c|] eqn:Hi; [|done]. apply lookup_lt_Some in Hi as Hlt.
  destruct (Ascii.eqb_spec c "`"%char) as [->|_].
  { assert (0 < span (Ascii.eqb "`") (drop i text))%nat
      by (apply span_stop_at; [done|unfold char_at; by rewrite Hi]).
    destruct (find _ _ _) as [close|] eqn:Hf; [|intros [= <- _]; lia].
    apply find_lt in Hf. unfold copy_span. rewrite length_replicate. intros [= <- _]. lia. }
  set (delim := if bool_decide _ then _ else _).
  assert (Hdelim : (1 ≤ length delim)%nat) by (unfold delim; case_bool_decide; cbn; lia).
  set (close := if (c =c "$"%char)%bs then _ else _).
  destruct (match close with Some _ => _ | None => _ end) eqn:Hcloses.
  { destruct close as [close'|] eqn:Hc; [|done]. unfold close in Hc. destruct (c =c "$"%char)%bs; [|done].
    apply find_lt in Hc. unfold copy_span. cbn. intros [= <- _]. lia. }
  destruct (text !! S i) as [d|] eqn:Hd; [|intros [= <- _]; lia].
  destruct (negb _); [intros [= <- _]; lia|]. destruct (_ || _); [intros [= <- _]; lia|].
  destruct (d =c "\"%char)%bs; [intros [= <- _]; lia|]. destruct (_ || _); [|intros [= <- _]; lia].
  destruct (find _ text (i + 2)) as [close'|] eqn:Hf; [|intros [= <- _]; lia].
  apply find_lt in Hf. unfold copy_span. intros [= <- _]. lia.
Qed.

Lemma markdown_step_progress line i plain i' plain' :
  plain_step line (i, plain) = inl (i', plain') → (i < i' ∧ i < length line)%nat.
Proof.
  unfold plain_step. destruct (line !! i) as [c|] eqn:Hi; [|done]. apply lookup_lt_Some in Hi as Hlt.
  destruct (match line !! S i with Some _ => _ | None => _ end); [intros [= <- _]; lia|].
  destruct (_ || _); [intros [= <- _]; lia|]. destruct (_ && bool_decide _); [intros [= <- _]; lia|].
  destruct (_ && _); [intros [= <- _]; lia|].
  destruct (if (c =c "["%char)%bs then _ else _) as [close|] eqn:Hc; [|intros [= <- _]; lia].
  destruct (c =c "["%char)%bs; [|done]. apply find_lt in Hc. cbn [mbind option_bind].
  destruct (find_char _ _ _) as [paren|] eqn:Hp; [|intros [= <- _]; lia].
  apply find_char_lt in Hp. intros [= <- _]. lia.
Qed.

Lemma text_line_step_progress markdown i out i' out' :
  text_line_step markdown (i, out) = inl (i', out') → (i < i' ≤ length markdown)%nat.
Proof.
  unfold text_line_step. case_bool_decide; [done|].
  set (line_end := default _ _). case_bool_decide as Hend; [done|]. intros [= <- _].
  subst line_end. destruct (find_char _ _ _) as [j|] eqn:Hj; cbn in *; [|done].
  apply find_char_lt in Hj. lia.
Qed.

Lemma length_trim s : (length (trim s) ≤ length s)%nat.
Proof.
  rewrite trim_strip. unfold rstrip. rewrite length_rev.
  destruct (lstrip_suffix is_blank s) as (l & Hs & _).
  destruct (lstrip_suffix is_blank (rev (lstrip is_blank s))) as (r & Hr & _).
  apply (f_equal length) in Hs, Hr. rewrite length_app in Hs, Hr. rewrite length_rev in Hr. lia.
Qed.

Lemma unwrap_shorter s s' : unwrap s = Some s' → (length s' < length s)%nat.
Proof.
  unfold unwrap. repeat case_match; try done; intros [= <-];
    repeat match goal with H : _ && _ = true |- _ => apply andb_prop in H as [H ?] end;
    repeat match goal with H : bool_decide _ = true |- _ => apply bool_decide_eq_true in H end;
    unfold inner; rewrite length_substr; lia.
Qed.

(** Every clean-up ends within its fuel, and what [strip_math_delimiters]
    returns has no pair left around it. *)
Lemma cleanups_total text :
  is_Some (loop (S (length text)) (unescape_step text) (0%nat, [])) ∧
  is_Some (loop (S (length text)) (plain_step text) (0%nat, [])) ∧
  is_Some (loop (S (length text)) (text_line_step text) (0%nat, [])) ∧
  unwrap (strip_math_delimiters text) = None.
Proof.
  split_and!.
  1, 2, 3: apply (loop_total (λ _, True) (λ s, length text - s.1)%nat); [|done|cbn; lia];
    intros [i out] [i' out'] _ E; cbn; split; [done|].
  - apply unescape_step_progress in E. lia.
  - apply markdown_step_progress in E. lia.
  - apply text_line_step_progress in E. lia.
  - unfold strip_math_delimiters. apply (run_loop_spec (λ _, True) (λ s, unwrap s = None) length); [|done|lia].
    intros s _. unfold unwrap_step. destruct (unwrap s) as [s'|] eqn:E; [|done].
    apply unwrap_shorter in E. pose proof (length_trim s'). split; [done|lia].
Qed.

(** [collapse_whitespace] keeps the words, one space between each. *)
Lemma collapse_whitespace_words text : collapse_whitespace text = join_words (words is_space text).
Proof.
  unfold collapse_whitespace, words.
  assert (Hsnoc : ∀ ws w, ws ≠ [] → join_words (ws ++ [w]) = join_words ws ++ lit " " ++ w).
  { induction ws as [|w ws IH]; intros w' Hne; [done|]. destruct ws as [|w2 ws]; [done|].
    change (join_words ((w :: w2 :: ws) ++ [w'])) with (w ++ lit " " ++ join_words ((w2 :: ws) ++ [w'])).
    rewrite IH by done. cbn. by rewrite <- !app_assoc. }
  assert (Hgo : ∀ text ws word,
    [] ∉ ws →
    collapse_from (join_words (ws ++ (if bool_decide (word = []) then [] else [word])))
      (bool_decide (word = []) && negb (bool_decide (ws = []))) text =
    join_words (ws ++ words_from is_space word text)).
  { clear text. induction text as [|c text IH]; intros ws word Hws; cbn [collapse_from words_from]; [done|].
    destruct (is_space c).
    - rewrite app_assoc. case_bool_decide as Hword.
      + subst word. rewrite app_nil_r. specialize (IH ws [] Hws). rewrite bool_decide_true, app_nil_r in IH by done.
        cbn [andb] in IH. rewrite <- IH. f_equal. f_equal. destruct ws as [|w ws]; [done|].
        apply bool_decide_ext. split; [|done]. intros E. exfalso. by apply (join_words_nil (w :: ws)) in E.
      + assert (Hws' : [] ∉ ws ++ [word]).
        { rewrite elem_of_app, list_elem_of_singleton. intros [|E]; [done|]. by symmetry in E. }
        specialize (IH (ws ++ [word]) [] Hws'). rewrite bool_decide_true, app_nil_r in IH by done.
        cbn [andb] in IH. rewrite <- IH. f_equal. f_equal.
        apply bool_decide_ext. split.
        * intros E. by apply join_words_nil in E.
        * intros E. by destruct ws.
    - specialize (IH ws (word ++ [c]) Hws).
      rewrite (bool_decide_false (word ++ [c] = [])) in IH by (by destruct word). cbn [andb] in IH.
      rewrite <- IH. f_equal. case_bool_decide as Hword.
      + subst word. cbn [app andb]. rewrite app_nil_r. destruct ws as [|w ws]; [done|].
        rewrite bool_decide_false by done. cbn [negb]. by rewrite Hsnoc.
      + cbn [andb app]. destruct ws as [|w ws]; [done|]. rewrite !Hsnoc by done. by rewrite <- !app_assoc. }
  specialize (Hgo text [] []). rewrite bool_decide_true in Hgo by done. apply Hgo. by intros ?%elem_of_nil.
Qed.

(** ** Witnesses *)

Definition toy_cells : list SpanCell :=
  [mk_SpanCell 0 0 2 1 (lit "a") true false None; mk_SpanCell 0 1 1 1 (lit "b") true false None;
   mk_SpanCell 1 1 1 1 (lit "c") false false None].
Lemma fill_span_table_covering_witness :
  tc_text <$> grid_at (td_grid (@fill_span_table toy_size toy_cells).1) 1 0 = Some (lit "a").
Proof.
  destruct (@fill_span_table toy_size toy_cells) as [data cut] eqn:E.
  assert (Hspans : Forall (λ cell, 1 ≤ sp_row_span cell ∧ 1 ≤ sp_col_span cell)%nat toy_cells)
    by (repeat constructor).
  destruct (@fill_span_table_covering toy_size toy_cells data cut Hspans E) as (_ & _ & _ & _ & _ & _ & _ & Hgrid).
  revert Hgrid. vm_compute in E. injection E as <- <-. cbn [grid_omitted fst]. intros [_ Hgrid].
  rewrite (Hgrid 1%nat 0%nat) by (by compute). vm_compute. reflexivity.
Defined.
