(* ===== verification/Tilings.v ===== *)
(** Tables laid out by an exact tiling: spanned cells that cover a grid of
    positions, each once, listed in reading order. *)
From stdpp Require Import sorting.
From S2P Require Import Prelude Numbers Double Proto Builder MarkupTree LayoutText.

#[export] Instance span_covers_dec cell r c : Decision (span_covers cell r c).
Proof. unfold span_covers. apply _. Defined.
(** The cell over a position. *)
Definition owner (cells : list SpanCell) (r c : nat) : option SpanCell :=
  head (filter (λ cell, span_covers cell r c) cells).
(** The cell that starts at a position. *)
Definition anchored (cells : list SpanCell) (r c : nat) : option SpanCell :=
  match owner cells r c with
  | Some cell => if bool_decide (r = sp_row cell ∧ c = sp_col cell) then Some cell else None
  | None => None
  end.
(** In reading order. *)
Definition reads_before (a b : SpanCell) : Prop :=
  (sp_row a < sp_row b ∨ sp_row a = sp_row b ∧ sp_col a < sp_col b)%nat.
Record tiling (rows cols : nat) (cells : list SpanCell) : Prop := {
  tl_inside : Forall (λ cell, 1 ≤ sp_row_span cell ∧ 1 ≤ sp_col_span cell ∧
    sp_end_row cell ≤ rows ∧ sp_end_col cell ≤ cols)%nat cells;
  tl_cover : ∀ r c, (r < rows)%nat → (c < cols)%nat → ∃ cell, cell ∈ cells ∧ span_covers cell r c;
  tl_disjoint : ∀ a b r c, a ∈ cells → b ∈ cells → span_covers a r c → span_covers b r c → a = b;
  tl_order : StronglySorted reads_before cells }.
(** A cell's text as the content of its element. *)
Definition text_nodes (text : bytes) : list MarkupNode :=
  if text =b [] then [] else [text_node text].

Lemma filter_Forall {A} (P : A → Prop) `{∀ x, Decision (P x)} l : Forall P l → filter P l = l.
Proof. induction 1 as [|x l Hx _ IH]; [done|]. by rewrite filter_cons_True, IH. Qed.

Section Tiling.
Variables (rows cols : nat) (cells : list SpanCell).
Hypothesis Htiling : tiling rows cols cells.

Lemma owner_covers r c cell : owner cells r c = Some cell → cell ∈ cells ∧ span_covers cell r c.
Proof. intros (? & ?)%head_Some_elem_of%list_elem_of_filter. done. Qed.
Lemma owner_unique r c cell : cell ∈ cells → span_covers cell r c → owner cells r c = Some cell.
Proof using Htiling.
  intros Hin Hc. unfold owner. destruct (filter _ cells) as [|cell' l] eqn:E.
  - assert (cell ∈ filter (λ cell, span_covers cell r c) cells) as Hf by (by apply list_elem_of_filter).
    rewrite E in Hf. by apply elem_of_nil in Hf.
  - assert (cell' ∈ filter (λ cell, span_covers cell r c) cells) as [Hc' Hin']%list_elem_of_filter
      by (rewrite E; apply elem_of_cons; by left).
    cbn. f_equal. by eapply (tl_disjoint _ _ _ Htiling).
Qed.
Lemma cell_inside cell : cell ∈ cells →
  (1 ≤ sp_row_span cell ∧ 1 ≤ sp_col_span cell ∧ sp_end_row cell ≤ rows ∧ sp_end_col cell ≤ cols)%nat.
Proof using Htiling. intros Hin. pose proof (tl_inside _ _ _ Htiling) as Hf. rewrite Forall_forall in Hf. by apply Hf. Qed.
Lemma owner_anchor cell : cell ∈ cells → owner cells (sp_row cell) (sp_col cell) = Some cell.
Proof using Htiling.
  intros Hin. apply owner_unique; [done|]. apply cell_inside in Hin. unfold span_covers, sp_end_row, sp_end_col. lia.
Qed.
Lemma anchored_cell r c cell : anchored cells r c = Some cell → cell ∈ cells ∧ r = sp_row cell ∧ c = sp_col cell.
Proof.
  unfold anchored. destruct (owner cells r c) as [cell'|] eqn:E; [|done].
  case_bool_decide as Ha; [|done]. intros [= ->]. apply owner_covers in E as [? _]. by destruct Ha.
Qed.

Lemma tiling_nonempty : (0 < rows)%nat → (0 < cols)%nat → cells ≠ [].
Proof using Htiling.
  intros Hr Hc ->. destruct (tl_cover _ _ _ Htiling 0 0 Hr Hc) as (cell & Hin & _). by apply elem_of_nil in Hin.
Qed.

(** The cells in reading order are the cells. *)
Definition reading : list SpanCell := mjoin ((λ r, omap (anchored cells r) (seq 0 cols)) <$> seq 0 rows).
Lemma sorted_app (l1 l2 : list SpanCell) :
  StronglySorted reads_before l1 → StronglySorted reads_before l2 →
  (∀ a b, a ∈ l1 → b ∈ l2 → reads_before a b) → StronglySorted reads_before (l1 ++ l2).
Proof.
  intros H1 H2 H12. induction H1 as [|a l1 _ IH Ha]; [done|]. cbn. constructor.
  - apply IH. intros x y Hx. apply H12. by right.
  - apply Forall_app_2; [done|]. apply Forall_forall. intros b Hb. apply H12; [by left|done].
Qed.
Lemma elem_of_row r c n cell : cell ∈ omap (anchored cells r) (seq c n) →
  cell ∈ cells ∧ sp_row cell = r ∧ (c ≤ sp_col cell)%nat.
Proof.
  intros (c' & Hc%elem_of_seq & (? & -> & ->)%anchored_cell)%list_elem_of_omap. split_and!; [done|done|lia].
Qed.
Lemma row_sorted r c n : StronglySorted reads_before (omap (anchored cells r) (seq c n)).
Proof.
  revert c. induction n as [|n IH]; intros c; [constructor|]. cbn [seq].
  change (omap ?f (?x :: ?l)) with (match f x with Some y => y :: omap f l | None => omap f l end).
  destruct (anchored cells r c) as [cell|] eqn:Ha; [|apply IH]. apply anchored_cell in Ha as (_ & Er & Ec).
  constructor; [apply IH|]. apply Forall_forall. intros b (_ & Hr & Hc)%elem_of_row. unfold reads_before. lia.
Qed.
Lemma elem_of_rows r n cell :
  cell ∈ mjoin ((λ r, omap (anchored cells r) (seq 0 cols)) <$> seq r n) → cell ∈ cells ∧ (r ≤ sp_row cell)%nat.
Proof.
  intros (row & Hin & (r' & -> & Hr%elem_of_seq)%list_elem_of_fmap)%list_elem_of_join.
  apply elem_of_row in Hin as (? & <- & _). split; [done|lia].
Qed.
Lemma rows_sorted r n :
  StronglySorted reads_before (mjoin ((λ r, omap (anchored cells r) (seq 0 cols)) <$> seq r n)).
Proof.
  revert r. induction n as [|n IH]; intros r; [constructor|]. cbn [seq]. rewrite fmap_cons.
  change (mjoin (?x :: ?xs)) with (x ++ mjoin xs). apply sorted_app; [apply row_sorted|apply IH|].
  intros a b (_ & Ha & _)%elem_of_row (_ & Hb)%elem_of_rows. unfold reads_before. lia.
Qed.
Lemma sorted_nodup (l : list SpanCell) : StronglySorted reads_before l → NoDup l.
Proof.
  induction 1 as [|a l _ IH Ha]; constructor; [|done]. intros Hin. rewrite Forall_forall in Ha.
  specialize (Ha a Hin). unfold reads_before in Ha. lia.
Qed.
Lemma elem_of_reading cell : cell ∈ reading ↔ cell ∈ cells.
Proof using Htiling.
  split; [by intros [? _]%elem_of_rows|]. intros Hin. destruct (cell_inside cell Hin) as (? & ? & ? & ?). unfold sp_end_row, sp_end_col in *.
  apply list_elem_of_join. exists (omap (anchored cells (sp_row cell)) (seq 0 cols)). split.
  - apply list_elem_of_omap. exists (sp_col cell). split; [apply elem_of_seq; lia|].
    unfold anchored. by rewrite owner_anchor, bool_decide_eq_true_2.
  - apply list_elem_of_fmap. exists (sp_row cell). split; [done|apply elem_of_seq; lia].
Qed.
Lemma reading_cells : reading = cells.
Proof using Htiling.
  apply (StronglySorted_unique_strong reads_before).
  - unfold reads_before. lia.
  - apply rows_sorted.
  - apply (tl_order _ _ _ Htiling).
  - apply NoDup_Permutation; [apply sorted_nodup, rows_sorted|apply sorted_nodup, (tl_order _ _ _ Htiling)|apply elem_of_reading].
Qed.
End Tiling.

(** A tiling, from how many cells cover each position. *)
Lemma tiling_of_counts rows cols cells :
  Forall (λ cell, 1 ≤ sp_row_span cell ∧ 1 ≤ sp_col_span cell ∧ sp_end_row cell ≤ rows ∧ sp_end_col cell ≤ cols)%nat cells →
  (∀ r c, (r < rows)%nat → (c < cols)%nat → length (filter (λ cell, span_covers cell r c) cells) = 1%nat) →
  StronglySorted reads_before cells → tiling rows cols cells.
Proof.
  intros Hin Hone Hsorted. split; [done| | |done].
  - intros r c Hr Hc. specialize (Hone r c Hr Hc). destruct (filter _ cells) as [|cell l] eqn:E; [done|].
    exists cell. assert (cell ∈ filter (λ cell, span_covers cell r c) cells) as [? ?]%list_elem_of_filter; [|done].
    rewrite E. by left.
  - intros a b r c Ha Hb Hca Hcb. rewrite Forall_forall in Hin. pose proof (Hin a Ha) as Hina.
    unfold span_covers in Hca. specialize (Hone r c ltac:(lia) ltac:(lia)).
    assert (∀ x, x ∈ cells → span_covers x r c → x ∈ filter (λ cell, span_covers cell r c) cells) as Hf
      by (intros; by apply list_elem_of_filter).
    pose proof (Hf a Ha Hca) as Ha'. pose proof (Hf b Hb Hcb) as Hb'.
    destruct (filter _ cells) as [|x []]; try done. apply list_elem_of_singleton in Ha', Hb'. congruence.
Qed.
Ltac tiles :=
  apply tiling_of_counts;
  [repeat constructor; unfold sp_end_row, sp_end_col; cbn; lia
  |intros [|[|?]] [|[|[|?]]] ??; try lia; by vm_compute
  |repeat constructor; unfold reads_before; cbn; lia].

(** A table with both spans, a header of each kind and an empty cell. *)
Definition toy_table : list SpanCell :=
  [mk_SpanCell 0 0 1 2 (lit "a < b") true false None; mk_SpanCell 0 2 2 1 (lit "c") false false None;
   mk_SpanCell 1 0 1 1 [] false false None; mk_SpanCell 1 1 1 1 (lit "d") false true None].
Lemma toy_table_tiles : tiling 2 3 toy_table.
Proof. tiles. Qed.
