(* ===== verification/Layout.v ===== *)
(** [LayoutWriter] (src/mapping/layout.h, layout.cpp): the builder of one page's
    document tree that the layout-grounded formats share.  Items are appended
    under the body or under another item; [finish] stamps the references.  A
    method is a function of the writer's state; one that adds an item returns
    the item's reference. *)
From S2P Require Import Prelude Numbers Double Proto ImageCrop Builder OtslGrid Tree.
From S2P Require Import MarkupTree LayoutText.

#[export] Instance Kind_countable : Countable Kind.
Proof.
  refine (inj_countable' (λ k, match k with TEXT => 0 | PICTURE => 1 | TABLE => 2 | KEY_VALUE => 3 | GROUP => 4 | FIELD_REGION => 5 end)%nat
    (λ n, match n with 0 => TEXT | 1 => PICTURE | 2 => TABLE | 3 => KEY_VALUE | 4 => GROUP | _ => FIELD_REGION end)%nat _).
  by intros [].
Defined.
#[export] Instance BodyChild_countable : Countable BodyChild.
Proof. refine (inj_countable' (λ c, (bc_kind c, bc_index c)) (λ c, mk_BodyChild c.1 c.2) _). by intros []. Defined.

(** [LayoutRef]: an item, or the body ([kBody], the parent [None]). *)
Abbreviation Parent := (option BodyChild).
Record Entry := mk_Entry { en_ref : BodyChild; en_parent : Parent }.

Record LayoutWriter := mk_LayoutWriter {
  lw_out : Document;
  lw_warnings : Warnings;
  lw_raster : PageRaster;
  lw_crops_over_budget : nat;
  lw_crops_over_bytes : nat;
  lw_crops_too_large : nat;
  lw_entries : list Entry;
  lw_child_counts : gmap BodyChild nat;
  lw_body : list BodyChild }.
Definition set_out (out : Document) (w : LayoutWriter) : LayoutWriter :=
  mk_LayoutWriter out (lw_warnings w) (lw_raster w) (lw_crops_over_budget w) (lw_crops_over_bytes w)
    (lw_crops_too_large w) (lw_entries w) (lw_child_counts w) (lw_body w).
Definition set_warnings (warnings : Warnings) (w : LayoutWriter) : LayoutWriter :=
  mk_LayoutWriter (lw_out w) warnings (lw_raster w) (lw_crops_over_budget w) (lw_crops_over_bytes w)
    (lw_crops_too_large w) (lw_entries w) (lw_child_counts w) (lw_body w).
(** The outcome of one crop. *)
Definition count_crop (raster : PageRaster) (result : Crop) (w : LayoutWriter) : LayoutWriter :=
  let one r := if bool_decide (result = r) then 1%nat else 0%nat in
  mk_LayoutWriter (lw_out w) (lw_warnings w) raster (lw_crops_over_budget w + one kOverBudget)
    (lw_crops_over_bytes w + one kOverByteCap) (lw_crops_too_large w + one kRasterTooLarge)
    (lw_entries w) (lw_child_counts w) (lw_body w).
Definition on_out (f : Document → Document) (w : LayoutWriter) : LayoutWriter := set_out (f (lw_out w)) w.

(** [base_of] and the code item, changed in place. *)
Definition on_base (f : TextItemBase → TextItemBase) (item : BaseTextItem) : BaseTextItem :=
  match item with
  | kTitle b => kTitle (f b)
  | kSectionHeader b level => kSectionHeader (f b) level
  | kListItem b enumerated marker => kListItem (f b) enumerated marker
  | kFormula b => kFormula (f b)
  | kText b => kText (f b)
  | kFieldHeading b => kFieldHeading (f b)
  | kFieldValue b kind => kFieldValue (f b) kind
  | kCode c => kCode c
  end.
Definition on_text (base : TextItemBase → TextItemBase) (code : CodeItem → CodeItem) (item : BaseTextItem)
  : BaseTextItem :=
  match item with kCode c => kCode (code c) | _ => on_base base item end.

Section Writer.
Context `{ProtobufSize} `{Stb}.
Variable page : PageContext.

Definition LayoutWriter_new (out : Document) (warnings : Warnings) : LayoutWriter :=
  mk_LayoutWriter out warnings
    (PageRaster_new (page_png page) (page_width page) (page_height page) (page_crops page)) 0 0 0 [] ∅ [].

(** * Boxes *)

Definition scaled_box (l t r b sx sy : double) : BoundingBox :=
  let width := of_Z (page_width page) in
  let height := of_Z (page_height page) in
  mk_BoundingBox (dclamp (dmul l sx) dzero width) (dclamp (dmul t sy) dzero height)
    (dclamp (dmul r sx) dzero width) (dclamp (dmul b sy) dzero height) COORD_ORIGIN_TOPLEFT.
Definition grid_box (coords : list double) (grid : double) : BoundingBox :=
  match coords with
  | l :: t :: r :: b :: _ =>
      if dle grid dzero then full_page_box page
      else scaled_box l t r b (ddiv (of_Z (page_width page)) grid) (ddiv (of_Z (page_height page)) grid)
  | _ => full_page_box page
  end.
Definition prov (box : option BoundingBox) (chars : Z) : ProvenanceItem :=
  set_pi_charspan (Some (0, chars)) (make_prov page (default (full_page_box page) box)).

(** * Items *)

Definition add_entry (kind : Kind) (index : nat) (parent : Parent) (w : LayoutWriter)
  : BodyChild * LayoutWriter :=
  let ref := mk_BodyChild kind index in
  (ref,
   mk_LayoutWriter (lw_out w) (lw_warnings w) (lw_raster w) (lw_crops_over_budget w) (lw_crops_over_bytes w)
     (lw_crops_too_large w) (lw_entries w ++ [mk_Entry ref parent])
     (match parent with
      | None => lw_child_counts w
      | Some parent => partial_alter (λ count, Some (S (default 0%nat count))) parent (lw_child_counts w)
      end)
     (match parent with None => lw_body w ++ [ref] | Some _ => lw_body w end)).
Definition children_of (ref : BodyChild) (w : LayoutWriter) : nat := default 0%nat (lw_child_counts w !! ref).

(** An item appended to [texts] by a builder function. *)
Definition add_text_entry (add : Document → Document) (parent : Parent) (w : LayoutWriter) : BodyChild * LayoutWriter :=
  let w := on_out add w in
  add_entry TEXT (texts_size (lw_out w) - 1) parent w.
Definition stamp_layer (label : DocItemLabel) (item : BaseTextItem) : BaseTextItem :=
  if decide (label = DOC_ITEM_LABEL_PAGE_HEADER ∨ label = DOC_ITEM_LABEL_PAGE_FOOTER)
  then on_base (set_tb_content_layer CONTENT_LAYER_FURNITURE) item else item.
Definition text (label : DocItemLabel) (box : option BoundingBox) (body : bytes) (parent : Parent)
  : LayoutWriter → BodyChild * LayoutWriter :=
  add_text_entry (λ out,
    let out := Builder.add_text page label (prov box (char_count body)) body out in
    alter_text (stamp_layer label) (texts_size out - 1) out) parent.
Definition title (box : option BoundingBox) (body : bytes) (parent : Parent) :=
  add_text_entry (add_title page (prov box (char_count body)) body) parent.
Definition heading (level : Z) (box : option BoundingBox) (body : bytes) (parent : Parent) :=
  add_text_entry (add_section_header page level (prov box (char_count body)) body) parent.
Definition formula (box : option BoundingBox) (body : bytes) (parent : Parent) :=
  add_text_entry (add_formula page (prov box (char_count body)) body) parent.
Definition code (box : option BoundingBox) (body language_raw : bytes) (parent : Parent) :=
  add_text_entry (add_code page (prov box (char_count body)) body language_raw) parent.
Definition list_item (box : option BoundingBox) (body : bytes) (enumerated : bool) (marker : bytes) (parent : Parent) :=
  add_text_entry (add_list_item page (prov box (char_count body)) body enumerated marker) parent.

Definition push_group (g : GroupItem) (out : Document) : Document :=
  set_doc_groups (doc_groups out ++ [g]) out.
Definition push_field_region (r : FieldRegionItem) (out : Document) : Document :=
  set_doc_field_regions (doc_field_regions out ++ [r]) out.
Definition group (name : bytes) (label : GroupLabel) (parent : Parent) (w : LayoutWriter) : BodyChild * LayoutWriter :=
  let w := on_out (push_group (mk_GroupItem [] None [] CONTENT_LAYER_BODY None (Some name) label)) w in
  add_entry GROUP (groups_size (lw_out w) - 1) parent w.
Definition list_group (parent : Parent) := group (lit "list") GROUP_LABEL_LIST parent.
Definition inline_group (parent : Parent) := group (lit "group") GROUP_LABEL_INLINE parent.
Definition field_region (box : option BoundingBox) (parent : Parent) (w : LayoutWriter) : BodyChild * LayoutWriter :=
  let w := on_out (push_field_region
    (mk_FieldRegionItem [] None [] CONTENT_LAYER_BODY DOC_ITEM_LABEL_FIELD_REGION [prov box 0] (add_sources page))) w in
  add_entry FIELD_REGION (length (doc_field_regions (lw_out w)) - 1) parent w.

(** Formatting and hyperlink of a run, where there is one. *)
Definition style (formatting : option Formatting) (hyperlink : bytes) (b : TextItemBase) : TextItemBase :=
  let b := match formatting with Some f => set_tb_formatting (Some f) b | None => b end in
  if hyperlink =b [] then b else set_tb_hyperlink (Some hyperlink) b.
Definition styled_text (label : DocItemLabel) (box : option BoundingBox) (body : bytes)
    (formatting : option Formatting) (hyperlink : bytes) (parent : Parent) (w : LayoutWriter)
  : BodyChild * LayoutWriter :=
  let '(ref, w) :=
    match label with
    | DOC_ITEM_LABEL_TITLE => title box body parent w
    | DOC_ITEM_LABEL_SECTION_HEADER => heading 1 box body parent w
    | DOC_ITEM_LABEL_FORMULA => formula box body parent w
    | DOC_ITEM_LABEL_CODE => code box body [] parent w
    | DOC_ITEM_LABEL_FIELD_VALUE =>
        add_text_entry (push_text (kFieldValue (fill_text_base page label (prov box (char_count body)) body)
          (Some (lit "fillable")))) parent w
    | _ => text label box body parent w
    end in
  (ref, on_out (alter_text (on_base (style formatting hyperlink)) (bc_index ref)) w).

(** * Changing an item *)

(** A text item's base or code item; other kinds stay as they are. *)
Definition on_item (base : TextItemBase → TextItemBase) (code : CodeItem → CodeItem) (ref : BodyChild)
  : LayoutWriter → LayoutWriter :=
  match bc_kind ref with
  | TEXT => on_out (alter_text (on_text base code) (bc_index ref))
  | _ => id
  end.
Definition text_of (ref : BodyChild) (w : LayoutWriter) : bytes :=
  match bc_kind ref with
  | TEXT => default [] (item_text <$> doc_texts (lw_out w) !! bc_index ref)
  | _ => []
  end.
Definition set_charspan_end (stop : Z) (p : ProvenanceItem) : ProvenanceItem :=
  set_pi_charspan (Some (default 0 (fst <$> pi_charspan p), stop)) p.
Definition set_text (ref : BodyChild) (body : bytes) (formatting : option Formatting) (hyperlink : bytes) :=
  on_item
    (λ b,
      let b := set_tb_text body b in
      let b := if tb_orig b =b [] then set_tb_orig body b else b in
      let b := style formatting hyperlink b in
      set_tb_prov (set_charspan_end (char_count body) <$> tb_prov b) b)
    (λ c, let c := set_ci_text body c in if ci_orig c =b [] then set_ci_orig body c else c) ref.
Definition set_orig (ref : BodyChild) (orig : bytes) := on_item (set_tb_orig orig) (set_ci_orig orig) ref.
Definition set_heading_level (index : nat) (level : Z) : LayoutWriter → LayoutWriter :=
  on_out (alter_text (λ item, match item with kSectionHeader b _ => kSectionHeader b level | _ => item end) index).
Definition set_content_layer (ref : BodyChild) (layer : ContentLayer) : LayoutWriter → LayoutWriter :=
  match bc_kind ref with
  | TEXT => on_out (alter_text (on_text (set_tb_content_layer layer) (set_ci_content_layer layer)) (bc_index ref))
  | GROUP => on_out (alter_group (set_gi_content_layer layer) (bc_index ref))
  | _ => id
  end.

(** * Pictures and tables *)

Definition on_picture (f : PictureItem → PictureItem) (ref : BodyChild) : LayoutWriter → LayoutWriter :=
  on_out (alter_picture f (bc_index ref)).
Definition on_table (f : TableItem → TableItem) (ref : BodyChild) : LayoutWriter → LayoutWriter :=
  on_out (alter_table f (bc_index ref)).

Definition picture (box : option BoundingBox) (parent : Parent) (w : LayoutWriter) : BodyChild * LayoutWriter :=
  let w := on_out (add_picture page (prov box 0)) w in
  let index := (pictures_size (lw_out w) - 1)%nat in
  let w :=
    match box with
    | Some box =>
        if page_png page =b [] then w else
        let '(result, image, raster) := crop (lw_raster w) (bb_l box) (bb_t box) (bb_r box) (bb_b box) in
        let w := count_crop raster result w in
        match image with
        | Some image => on_out (alter_picture (set_pc_image (Some image)) index) w
        | None => w
        end
    | None => w
    end in
  add_entry PICTURE index parent w.
Definition table (box : option BoundingBox) (cells : list SpanCell) (parent : Parent) (w : LayoutWriter)
  : BodyChild * LayoutWriter :=
  let w := on_out (add_table page (prov box 0)) w in
  let '(ref, w) := add_entry TABLE (tables_size (lw_out w) - 1) parent w in
  if bool_decide (length cells = 0%nat) then (ref, on_table (set_ti_data (Some TableData_empty)) ref w) else
  let '(data, cut) := fill_span_table cells in
  let w := on_table (set_ti_data (Some data)) ref w in
  (ref, set_warnings (note_table_cut cut data (lit "table") (body_child_ref TABLE (bc_index ref)) (lw_warnings w)) w).

Definition meta_of (p : PictureItem) : PictureMeta := default PictureMeta_empty (pc_meta p).
Definition annotate (meta : PictureMeta) (annotation : PictureAnnotation) (p : PictureItem) : PictureItem :=
  set_pc_annotations (pc_annotations p ++ [annotation]) (set_pc_meta (Some meta) p).
Definition describe_picture (ref : BodyChild) (description created_by : bytes) (w : LayoutWriter) : LayoutWriter :=
  if description =b [] then w else
  on_picture (λ p, annotate (set_pm_description (Some (mk_DescriptionMetaField description created_by)) (meta_of p))
    (AnnotationDescription (lit "description") description created_by) p) ref w.
Definition classify_picture (ref : BodyChild) (class_name created_by : bytes) (w : LayoutWriter) : LayoutWriter :=
  if class_name =b [] then w else
  on_picture (λ p, annotate
    (set_pm_classification (Some (default [] (pm_classification (meta_of p)) ++
      [mk_ClassificationPrediction class_name created_by])) (meta_of p))
    (AnnotationClassification (lit "classification") created_by [class_name]) p) ref w.
Definition set_molecule (ref : BodyChild) (smiles created_by : bytes) (w : LayoutWriter) : LayoutWriter :=
  if smiles =b [] then w else
  on_picture (λ p, annotate (set_pm_molecule (Some (mk_MoleculeMetaField smiles created_by)) (meta_of p))
    (AnnotationMolecule (lit "molecule_data") smiles created_by) p) ref w.
(** The tabular chart's meta, field by field: what is empty stays as it was. *)
Definition chart_meta (chart_title created_by : bytes) (data : TableData) (meta : PictureMeta) : TabularChartMetaField :=
  let old := pm_tabular_chart meta in
  let keep (value : bytes) (field : TabularChartMetaField → option bytes) :=
    if value =b [] then old ≫= field else Some value in
  mk_TabularChartMetaField (keep chart_title tm_title) (keep created_by tm_created_by) data.
Definition set_tabular_chart (ref : BodyChild) (chart_title : bytes) (rows : list (list bytes)) (created_by : bytes)
    (w : LayoutWriter) : LayoutWriter :=
  if bool_decide (length rows = 0%nat) then w else
  let '(data, cut) := fill_table_data rows 1 in
  let w := set_warnings (note_table_cut cut data (lit "chart data") (body_child_ref PICTURE (bc_index ref)) (lw_warnings w)) w in
  on_picture (λ p, annotate (set_pm_tabular_chart (Some (chart_meta chart_title created_by data (meta_of p))) (meta_of p))
    (AnnotationTabularChart (lit "tabular_chart_data") chart_title data) p) ref w.

(** * Captions *)

Definition ref_string (ref : BodyChild) : bytes := body_child_ref (bc_kind ref) (bc_index ref).
Definition on_code (f : CodeItem → CodeItem) (item : BaseTextItem) : BaseTextItem :=
  match item with kCode c => kCode (f c) | _ => item end.
Definition link_caption (owner caption : BodyChild) (w : LayoutWriter) : LayoutWriter :=
  let ref := ref_string caption in
  match bc_kind owner with
  | PICTURE => on_picture (λ p, set_pc_captions (pc_captions p ++ [ref]) p) owner w
  | TABLE => on_table (λ t, set_ti_captions (ti_captions t ++ [ref]) t) owner w
  | TEXT => on_out (alter_text (on_code (λ c, set_ci_captions (ci_captions c ++ [ref]) c)) (bc_index owner)) w
  | _ => w
  end.
Definition link_footnote (owner footnote : BodyChild) (w : LayoutWriter) : LayoutWriter :=
  let ref := ref_string footnote in
  match bc_kind owner with
  | PICTURE => on_picture (λ p, set_pc_footnotes (pc_footnotes p ++ [ref]) p) owner w
  | TABLE => on_table (λ t, set_ti_footnotes (ti_footnotes t ++ [ref]) t) owner w
  | TEXT => on_out (alter_text (on_code (λ c, set_ci_footnotes (ci_footnotes c ++ [ref]) c)) (bc_index owner)) w
  | _ => w
  end.
Definition has_captions (owner : BodyChild) (w : LayoutWriter) : bool :=
  match bc_kind owner with
  | PICTURE => bool_decide (0 < length (default [] (pc_captions <$> doc_pictures (lw_out w) !! bc_index owner)))%nat
  | TABLE => bool_decide (0 < length (default [] (ti_captions <$> doc_tables (lw_out w) !! bc_index owner)))%nat
  | _ => false
  end.
Definition item_label (item : BaseTextItem) : DocItemLabel :=
  match item with
  | kCode _ => DOC_ITEM_LABEL_CODE
  | kTitle b | kSectionHeader b _ | kListItem b _ _ | kFormula b | kText b => tb_label b
  | kFieldHeading _ | kFieldValue _ _ => DOC_ITEM_LABEL_UNSPECIFIED
  end.
Definition label_of (ref : BodyChild) (w : LayoutWriter) : DocItemLabel :=
  match bc_kind ref with
  | PICTURE => DOC_ITEM_LABEL_PICTURE
  | TABLE => DOC_ITEM_LABEL_TABLE
  | TEXT => default DOC_ITEM_LABEL_UNSPECIFIED (item_label <$> doc_texts (lw_out w) !! bc_index ref)
  | _ => DOC_ITEM_LABEL_UNSPECIFIED
  end.
Definition is_code (ref : BodyChild) (w : LayoutWriter) : bool :=
  match bc_kind ref with
  | TEXT => match doc_texts (lw_out w) !! bc_index ref with Some (kCode _) => true | _ => false end
  | _ => false
  end.
(** The one body child of a block, if it spans exactly one. *)
Definition single (starts : list nat) (body : list BodyChild) (i : nat) : option BodyChild :=
  match starts !! i with
  | None => None
  | Some start =>
      let stop := default (length body) (starts !! S i) in
      if bool_decide (stop = S start) then body !! start else None
  end.
(** A caption the pass may link. *)
Definition is_lone_caption (ref : BodyChild) (w : LayoutWriter) : bool :=
  bool_decide (bc_kind ref = TEXT) && bool_decide (label_of ref w = DOC_ITEM_LABEL_CAPTION) &&
  match doc_texts (lw_out w) !! bc_index ref with
  | Some (kText b) => negb (trim (tb_text b) =b [])
  | _ => false
  end && bool_decide (children_of ref w = 0%nat).
Definition is_owner (code_owners : bool) (ref : BodyChild) (w : LayoutWriter) : bool :=
  match bc_kind ref with
  | PICTURE | TABLE => true
  | _ => code_owners && is_code ref w
  end.
Definition neighbors (i : nat) : list nat := (match i with O => [] | S j => [j] end) ++ [S i].
Definition link_adjacent (starts : list nat) (code_owners : bool) (w : LayoutWriter) (index : nat) : LayoutWriter :=
  match single starts (lw_body w) index with
  | None => w
  | Some caption =>
      if negb (is_lone_caption caption w) then w else
      let owners := filter (λ owner, is_owner code_owners owner w = true)
                      (omap (single starts (lw_body w)) (neighbors index)) in
      match owners with
      | [owner] =>
          if negb (bool_decide (bc_kind owner = TEXT)) && negb (has_captions owner w)
          then link_caption owner caption w else w
      | _ => w
      end
  end.
Definition link_adjacent_captions (starts caption_blocks : list nat) (code_owners : bool) (w : LayoutWriter)
  : LayoutWriter := foldl (link_adjacent starts code_owners) w caption_blocks.

(** * What a mapper reads of it *)

Definition text_count (w : LayoutWriter) : nat := texts_size (lw_out w).
Definition body_size (w : LayoutWriter) : nat := length (lw_body w).
Definition item_count (w : LayoutWriter) : nat := length (lw_entries w).
Definition last_table (w : LayoutWriter) : BodyChild := mk_BodyChild TABLE (tables_size (lw_out w) - 1).

(** * Finishing *)

Definition add_child_ref (parent : BodyChild) (ref : bytes) (doc : Document) : Document :=
  let i := bc_index parent in
  match bc_kind parent with
  | GROUP => alter_group (λ g, set_gi_children (gi_children g ++ [ref]) g) i doc
  | PICTURE => alter_picture (λ p, set_pc_children (pc_children p ++ [ref]) p) i doc
  | TABLE => alter_table (λ t, set_ti_children (ti_children t ++ [ref]) t) i doc
  | FIELD_REGION => alter_field_region (λ r, set_fr_children (Proto.fr_children r ++ [ref]) r) i doc
  | TEXT => alter_text (on_text (λ b, set_tb_children (tb_children b ++ [ref]) b)
              (λ c, set_ci_children (ci_children c ++ [ref]) c)) i doc
  | KEY_VALUE => doc
  end.
Definition stamp_entry (doc : Document) (entry : Entry) : Document :=
  match en_parent entry with
  | None => doc
  | Some parent =>
      let doc := if decide (bc_kind (en_ref entry) = KEY_VALUE) then doc
                 else stamp_child (en_ref entry) (ref_string parent) doc in
      add_child_ref parent (ref_string (en_ref entry)) doc
  end.
Definition crop_warnings (w : LayoutWriter) : Warnings :=
  let warn (count : nat) (message : bytes) (warnings : Warnings) :=
    if bool_decide (0 < count)%nat then
      add_warning warnings PAGE_WARNING_CODE_PICTURE_IMAGES_SKIPPED
        (to_string (Z.of_nat count) ++ lit " picture(s) carry no image: " ++ message) []
    else warnings in
  let budget := page_crops page in
  let raster := lw_raster w in
  let warnings := warn (lw_crops_over_budget w)
    (lit "the page's crop budget (" ++ to_string (max_crops budget) ++ lit " crops, " ++
     to_string (to_int (max_area_pages budget)) ++ lit "x the page's pixels) ran out") (lw_warnings w) in
  let warnings := warn (lw_crops_over_bytes w)
    (lit "the page's inline image cap (" ++ to_string (max_inline_bytes budget) ++ lit " bytes, " ++
     to_string (pr_inline_bytes raster) ++ lit " attached) ran out") warnings in
  warn (lw_crops_too_large w)
    (lit "the page raster is " ++ to_string (pr_width raster) ++ lit "x" ++ to_string (pr_height raster) ++
     lit ", above the " ++ to_string kMaxRasterPixels ++ lit "-pixel decode cap") warnings.
Definition finish (format_name : bytes) (allow_empty : bool) (w : LayoutWriter) : MapResult :=
  if bool_decide (length (lw_entries w) = 0%nat) && negb allow_empty then
    MapFailed (format_name ++ lit " response produced no document items")
  else
    let doc := finalize_document page (lw_body w) (lw_out w) in
    Mapped (foldl stamp_entry doc (lw_entries w)) (crop_warnings w).
End Writer.

(** * The shape of a document *)

(** How many items of a kind, and what each lists as its children. *)
Definition size_of (doc : Document) (k : Kind) : nat :=
  match k with
  | TEXT => texts_size doc
  | PICTURE => pictures_size doc
  | TABLE => tables_size doc
  | KEY_VALUE => key_value_items_size doc
  | GROUP => groups_size doc
  | FIELD_REGION => length (doc_field_regions doc)
  end.
Definition text_children (item : BaseTextItem) : list RefItem :=
  match item with
  | kCode c => ci_children c
  | _ => default [] (tb_children <$> text_base item)
  end.
Definition item_children (doc : Document) (k : Kind) (i : nat) : option (list RefItem) :=
  match k with
  | TEXT => text_children <$> doc_texts doc !! i
  | PICTURE => pc_children <$> doc_pictures doc !! i
  | TABLE => ti_children <$> doc_tables doc !! i
  | GROUP => gi_children <$> doc_groups doc !! i
  | FIELD_REGION => Proto.fr_children <$> doc_field_regions doc !! i
  | KEY_VALUE => None
  end.

Lemma item_refs_size doc k i : is_Some (item_refs doc k i) ↔ (i < size_of doc k)%nat.
Proof. destruct k; cbn; by rewrite fmap_is_Some, lookup_lt_is_Some. Qed.

Lemma item_children_size doc k i :
  k ≠ KEY_VALUE → is_Some (item_children doc k i) ↔ (i < size_of doc k)%nat.
Proof. intros Hk. destruct k; cbn; try done; by rewrite fmap_is_Some, lookup_lt_is_Some. Qed.

(** Changing what items hold, not which there are nor what they list. *)
Record same_shape (doc doc' : Document) : Prop := {
  ss_size : ∀ k, size_of doc' k = size_of doc k;
  ss_children : ∀ k i, item_children doc' k i = item_children doc k i;
  ss_body : doc_body doc' = doc_body doc }.
#[export] Instance same_shape_preorder : PreOrder same_shape.
Proof.
  split; [done|]. intros a b c [] []. split; intros; congruence.
Qed.

Lemma fmap_alter_same {A B} (g : A → B) (f : A → A) (i : nat) (l : list A) (j : nat) :
  (∀ x, g (f x) = g x) → g <$> alter f i l !! j = g <$> l !! j.
Proof.
  intros Hf. destruct (decide (i = j)) as [->|]; [|by rewrite list_lookup_alter_ne].
  rewrite list_lookup_alter_eq. destruct (l !! j); cbn; by rewrite ?Hf.
Qed.

Ltac shape_tac Hf :=
  split; [intros []; cbn; unfold texts_size, pictures_size, tables_size, groups_size; cbn;
          by rewrite ?length_alter
         |intros [] ?; cbn; try done; by apply fmap_alter_same|done].
Lemma shape_alter_text f i doc :
  (∀ x, text_children (f x) = text_children x) → same_shape doc (alter_text f i doc).
Proof. intros Hf. shape_tac Hf. Qed.
Lemma shape_alter_picture f i doc :
  (∀ x, pc_children (f x) = pc_children x) → same_shape doc (alter_picture f i doc).
Proof. intros Hf. shape_tac Hf. Qed.
Lemma shape_alter_table f i doc :
  (∀ x, ti_children (f x) = ti_children x) → same_shape doc (alter_table f i doc).
Proof. intros Hf. shape_tac Hf. Qed.
Lemma shape_alter_group f i doc :
  (∀ x, gi_children (f x) = gi_children x) → same_shape doc (alter_group f i doc).
Proof. intros Hf. shape_tac Hf. Qed.

(** A text item changed through its base or its code. *)
Lemma on_text_children base code :
  (∀ b, tb_children (base b) = tb_children b) → (∀ c, ci_children (code c) = ci_children c) →
  ∀ item, text_children (on_text base code item) = text_children item.
Proof. intros Hb Hc []; cbn; auto. Qed.
Lemma on_base_children f :
  (∀ b, tb_children (f b) = tb_children b) → ∀ item, text_children (on_base f item) = text_children item.
Proof. intros Hf []; cbn; auto. Qed.
Lemma style_children formatting hyperlink b : tb_children (style formatting hyperlink b) = tb_children b.
Proof. unfold style. destruct formatting, hyperlink; done. Qed.

(** A new item of kind [k], the last of its kind, with nothing under it. *)
Record appended (k : Kind) (doc doc' : Document) : Prop := {
  ap_size : ∀ k', size_of doc' k' = (size_of doc k' + if decide (k' = k) then 1 else 0)%nat;
  ap_children : ∀ k' i l, item_children doc' k' i = Some l → item_children doc k' i = Some l ∨ l = [];
  ap_body : doc_body doc' = doc_body doc }.
Lemma appended_shape k doc doc1 doc2 :
  appended k doc doc1 → same_shape doc1 doc2 → appended k doc doc2.
Proof.
  intros [Hs Hc Hb] [Hs' Hc' Hb']. split; [|intros ??? E; rewrite Hc' in E; by eapply Hc|congruence].
  intros k'. rewrite Hs'. apply Hs.
Qed.
Lemma lookup_snoc_children {A B} (g : A → list B) (l : list A) x (i : nat) r :
  g x = [] → g <$> (l ++ [x]) !! i = Some r → g <$> l !! i = Some r ∨ r = [].
Proof.
  intros Hx. destruct ((l ++ [x]) !! i) as [y|] eqn:E; [|done]. intros [= <-].
  apply lookup_app_Some in E as [->|[_ E]]; [by left|].
  right. destruct (i - length l)%nat; [by injection E as <-|done].
Qed.
Ltac appended_tac :=
  split; [intros []; case_decide; try done;
          cbn; unfold texts_size, pictures_size, tables_size, groups_size, key_value_items_size; cbn;
          rewrite ?length_app; cbn; lia
         |intros [] ??; cbn; try (by left); by apply lookup_snoc_children|done].
Lemma appended_text item doc : text_children item = [] → appended TEXT doc (push_text item doc).
Proof. intros. appended_tac. Qed.
Lemma appended_picture page p doc : appended PICTURE doc (add_picture page p doc).
Proof. appended_tac. Qed.
Lemma appended_table page p doc : appended TABLE doc (add_table page p doc).
Proof. appended_tac. Qed.
Lemma appended_group g doc :
  gi_children g = [] → appended GROUP doc (push_group g doc).
Proof. intros. appended_tac. Qed.
Lemma appended_region r doc :
  Proto.fr_children r = [] → appended FIELD_REGION doc (push_field_region r doc).
Proof. intros. appended_tac. Qed.

(** * The writer's invariant *)

Definition under (p : Parent) (entries : list Entry) : list BodyChild :=
  en_ref <$> filter (λ e, en_parent e = p) entries.

(** The entries are the document's items, each under an earlier one or the
    body; what the writer keeps beside them is read off them. *)
Record writer_inv (w : LayoutWriter) : Prop := {
  wi_items : ∀ k i, mk_BodyChild k i ∈ en_ref <$> lw_entries w ↔ (i < size_of (lw_out w) k)%nat;
  wi_kinds : size_of (lw_out w) KEY_VALUE = 0%nat;
  wi_nodup : NoDup (en_ref <$> lw_entries w);
  wi_parents : ∀ j e p, lw_entries w !! j = Some e → en_parent e = Some p →
    p ∈ en_ref <$> take j (lw_entries w);
  wi_counts : ∀ ref, children_of ref w = length (under (Some ref) (lw_entries w));
  wi_body : lw_body w = under None (lw_entries w);
  wi_children : ∀ k i l, item_children (lw_out w) k i = Some l → l = [];
  wi_root : doc_body (lw_out w) = None }.

Definition valid_parent (w : LayoutWriter) (p : Parent) : Prop :=
  match p with None => True | Some ref => ref ∈ en_ref <$> lw_entries w end.

Lemma under_snoc p entries e :
  under p (entries ++ [e]) = under p entries ++ (if decide (en_parent e = p) then [en_ref e] else []).
Proof.
  unfold under. rewrite filter_app, fmap_app. f_equal. rewrite filter_cons, filter_nil.
  by case_decide.
Qed.

Lemma entry_of w c : c ∈ en_ref <$> lw_entries w ↔ ∃ p, mk_Entry c p ∈ lw_entries w.
Proof.
  rewrite list_elem_of_fmap. split.
  - intros ([c' p] & -> & Hin). by exists p.
  - intros [p Hin]. by exists (mk_Entry c p).
Qed.
Lemma under_entry p entries c : c ∈ under p entries ↔ mk_Entry c p ∈ entries.
Proof.
  unfold under. rewrite list_elem_of_fmap. split.
  - by intros ([c' p'] & -> & [[= ->] Hin]%list_elem_of_filter).
  - intros Hin. exists (mk_Entry c p). by rewrite list_elem_of_filter.
Qed.
Lemma under_nodup p entries : NoDup (en_ref <$> entries) → NoDup (under p entries).
Proof.
  induction entries as [|[c q] entries IH]; [constructor|].
  rewrite fmap_cons. intros [Hc Hn]%NoDup_cons. unfold under in *. rewrite filter_cons.
  case_decide; [|by apply IH]. rewrite fmap_cons. apply NoDup_cons. split; [|by apply IH].
  cbn [en_ref] in *. intros Hin%under_entry. apply Hc, list_elem_of_fmap. by exists (mk_Entry c p).
Qed.
Lemma parent_entry w j c p :
  writer_inv w → lw_entries w !! j = Some (mk_Entry c (Some p)) →
  ∃ j' q, (j' < j)%nat ∧ lw_entries w !! j' = Some (mk_Entry p q).
Proof.
  intros Hw Hj. pose proof (wi_parents w Hw j _ p Hj eq_refl) as Hp.
  apply list_elem_of_fmap in Hp as ([p' q] & -> & (j' & Hj' & ?)%elem_of_take). eauto.
Qed.

(** The writer whose document, entries and bookkeeping are those of [w]. *)
Record same_writer (w w' : LayoutWriter) : Prop := {
  sw_out : same_shape (lw_out w) (lw_out w');
  sw_entries : lw_entries w' = lw_entries w;
  sw_counts : lw_child_counts w' = lw_child_counts w;
  sw_body : lw_body w' = lw_body w }.
#[export] Instance same_writer_preorder : PreOrder same_writer.
Proof.
  split; [done|]. intros a b c [] []. split; try congruence. by transitivity (lw_out b).
Qed.
Lemma same_on_out f w : same_shape (lw_out w) (f (lw_out w)) → same_writer w (on_out f w).
Proof. done. Qed.
Lemma same_set_warnings ws w : same_writer w (set_warnings ws w).
Proof. done. Qed.
Lemma same_count_crop raster result w : same_writer w (count_crop raster result w).
Proof. done. Qed.

Lemma writer_inv_same w w' : same_writer w w' → writer_inv w → writer_inv w'.
Proof.
  intros [[Hsize Hch Hbody] He Hc Hb] [].
  split; unfold children_of in *; rewrite ?He, ?Hc, ?Hb, ?Hsize, ?Hbody; try done.
  - intros k i. by rewrite Hsize.
  - intros k i l. rewrite Hch. eauto.
Qed.

Lemma writer_inv_new page ws : writer_inv (LayoutWriter_new page Document_empty ws).
Proof.
  split; [|done|constructor|done| |done| |done].
  - intros [] i; cbn; split; intros H; try lia; by apply elem_of_nil in H.
  - intros ref. change (default 0%nat ((∅ : gmap BodyChild nat) !! ref) = 0%nat). by rewrite lookup_empty.
  - by intros [] ??.
Qed.

(** An item is appended to the document and entered under [p]. *)
Lemma writer_inv_add k p f w :
  writer_inv w → k ≠ KEY_VALUE → valid_parent w p → appended k (lw_out w) (f (lw_out w)) →
  writer_inv (add_entry k (size_of (f (lw_out w)) k - 1) p (on_out f w)).2.
Proof.
  intros [Hi Hk Hn Hp Hc Hb Hch Hr] Hkv Hvalid [Hsize Hchildren Hbody].
  assert (Hnew : (size_of (f (lw_out w)) k - 1 = size_of (lw_out w) k)%nat).
  { rewrite Hsize, decide_True by done. lia. }
  rewrite Hnew. set (n := size_of (lw_out w) k) in *.
  assert (Hin : ∀ k' i, mk_BodyChild k' i ∈ (en_ref <$> lw_entries w) ++ [mk_BodyChild k n] ↔
      (i < size_of (f (lw_out w)) k')%nat).
  { intros k' i. rewrite elem_of_app, Hi, list_elem_of_singleton, Hsize.
    case_decide as E; [subst k'|].
    - split; [intros [?|[= ->]]; lia|]. intros H. destruct (decide (i = n)) as [->|]; [by right|].
      left. fold n. lia.
    - split; [intros [?|[= -> ?]]; [lia|done]|left; lia]. }
  unfold add_entry, on_out, set_out. cbn [snd]. split; cbn [lw_out lw_entries lw_body lw_child_counts].
  - intros k' i. rewrite fmap_app. apply Hin.
  - by rewrite Hsize, decide_False, Nat.add_0_r by congruence.
  - rewrite fmap_app. apply NoDup_app. split_and!; [done| |apply NoDup_singleton].
    intros c Hc1 ->%list_elem_of_singleton. apply Hi in Hc1. unfold n in Hc1. lia.
  - intros j e q [He|[Hj He]]%lookup_app_Some Hq.
    + rewrite take_app_le by (apply lookup_lt_Some in He; lia). by eapply Hp.
    + assert (j - length (lw_entries w) = 0)%nat as E.
      { destruct (j - length (lw_entries w))%nat; [done|]. by destruct n0. }
      rewrite E in He. injection He as <-. cbn in Hq. subst p.
      rewrite take_app_ge by lia. rewrite E. cbn. rewrite app_nil_r. apply Hvalid.
  - intros ref. unfold children_of. cbn [lw_child_counts]. rewrite under_snoc, length_app, <- Hc.
    cbn [en_parent en_ref]. unfold children_of. destruct p as [p|]; [|by rewrite Nat.add_0_r].
    case_decide as E; [injection E as ->|].
    + rewrite lookup_partial_alter, decide_True by done. cbn. lia.
    + rewrite lookup_partial_alter, decide_False by congruence. cbn. lia.
  - rewrite under_snoc, Hb. cbn. destruct p; [by rewrite app_nil_r|done].
  - intros k' i l [E| ->]%Hchildren; [by eapply Hch|done].
  - congruence.
Qed.

(** * The writers a mapper builds *)

Section Built.
Context `{ProtobufSize} `{Stb}.
Variable page : PageContext.

(** One call that adds an item under a parent. *)
Inductive Add :=
  | AddText (label : DocItemLabel) (box : option BoundingBox) (body : bytes)
  | AddTitle (box : option BoundingBox) (body : bytes)
  | AddHeading (level : Z) (box : option BoundingBox) (body : bytes)
  | AddFormula (box : option BoundingBox) (body : bytes)
  | AddCode (box : option BoundingBox) (body language_raw : bytes)
  | AddListItem (box : option BoundingBox) (body : bytes) (enumerated : bool) (marker : bytes)
  | AddGroup (name : bytes) (label : GroupLabel)
  | AddFieldRegion (box : option BoundingBox)
  | AddStyledText (label : DocItemLabel) (box : option BoundingBox) (body : bytes)
      (formatting : option Formatting) (hyperlink : bytes)
  | AddPicture (box : option BoundingBox)
  | AddTable (box : option BoundingBox) (cells : list SpanCell).
Definition run_add (add : Add) (parent : Parent) : LayoutWriter → BodyChild * LayoutWriter :=
  match add with
  | AddText label box body => text page label box body parent
  | AddTitle box body => title page box body parent
  | AddHeading level box body => heading page level box body parent
  | AddFormula box body => formula page box body parent
  | AddCode box body language_raw => code page box body language_raw parent
  | AddListItem box body enumerated marker => list_item page box body enumerated marker parent
  | AddGroup name label => group name label parent
  | AddFieldRegion box => field_region page box parent
  | AddStyledText label box body formatting hyperlink => styled_text page label box body formatting hyperlink parent
  | AddPicture box => picture page box parent
  | AddTable box cells => table page box cells parent
  end.

(** One call that changes items. *)
Inductive Edit :=
  | SetText (ref : BodyChild) (body : bytes) (formatting : option Formatting) (hyperlink : bytes)
  | SetOrig (ref : BodyChild) (orig : bytes)
  | SetHeadingLevel (index : nat) (level : Z)
  | SetContentLayer (ref : BodyChild) (layer : ContentLayer)
  | DescribePicture (ref : BodyChild) (description created_by : bytes)
  | ClassifyPicture (ref : BodyChild) (class_name created_by : bytes)
  | SetMolecule (ref : BodyChild) (smiles created_by : bytes)
  | SetTabularChart (ref : BodyChild) (title : bytes) (rows : list (list bytes)) (created_by : bytes)
  | LinkCaption (owner caption : BodyChild)
  | LinkFootnote (owner footnote : BodyChild)
  | LinkAdjacentCaptions (starts caption_blocks : list nat) (code_owners : bool)
  | SetTableData (ref : BodyChild) (data : TableData)
  | SetTableLabel (ref : BodyChild) (label : DocItemLabel)
  | SetWarnings (warnings : Warnings).
Definition run_edit (edit : Edit) : LayoutWriter → LayoutWriter :=
  match edit with
  | SetText ref body formatting hyperlink => set_text ref body formatting hyperlink
  | SetOrig ref orig => set_orig ref orig
  | SetHeadingLevel index level => set_heading_level index level
  | SetContentLayer ref layer => set_content_layer ref layer
  | DescribePicture ref description created_by => describe_picture ref description created_by
  | ClassifyPicture ref class_name created_by => classify_picture ref class_name created_by
  | SetMolecule ref smiles created_by => set_molecule ref smiles created_by
  | SetTabularChart ref title rows created_by => set_tabular_chart ref title rows created_by
  | LinkCaption owner caption => link_caption owner caption
  | LinkFootnote owner footnote => link_footnote owner footnote
  | LinkAdjacentCaptions starts caption_blocks code_owners =>
      link_adjacent_captions starts caption_blocks code_owners
  | SetTableData ref data => on_table (set_ti_data (Some data)) ref
  | SetTableLabel ref label => on_table (set_ti_label label) ref
  | SetWarnings warnings => set_warnings warnings
  end.

(** A mapper starts with an empty document and puts an item only under one it
    was given a reference to. *)
Inductive built : LayoutWriter → Prop :=
  | built_new ws : built (LayoutWriter_new page Document_empty ws)
  | built_add add parent w : built w → valid_parent w parent → built (run_add add parent w).2
  | built_edit edit w : built w → built (run_edit edit w).

Lemma same_link_caption owner caption w : same_writer w (link_caption owner caption w).
Proof.
  unfold link_caption. destruct (bc_kind owner); try done; apply same_on_out;
    [apply shape_alter_text; by intros []|by apply shape_alter_picture|by apply shape_alter_table].
Qed.

Lemma same_link_adjacent starts code_owners w index :
  same_writer w (link_adjacent starts code_owners w index).
Proof.
  unfold link_adjacent. destruct (single _ _ _); [|done].
  destruct (negb _); [done|]. destruct (filter _ _) as [|? []]; try done.
  destruct (_ && _); [apply same_link_caption|done].
Qed.

Lemma same_on_item base code ref w :
  (∀ b, tb_children (base b) = tb_children b) → (∀ c, ci_children (code c) = ci_children c) →
  same_writer w (on_item base code ref w).
Proof.
  intros Hb Hc. unfold on_item. destruct (bc_kind ref); try done.
  by apply same_on_out, shape_alter_text, on_text_children.
Qed.
Lemma same_on_picture f ref w :
  (∀ x, pc_children (f x) = pc_children x) → same_writer w (on_picture f ref w).
Proof. intros. by apply same_on_out, shape_alter_picture. Qed.

Lemma same_run_edit edit w : same_writer w (run_edit edit w).
Proof.
  destruct edit; cbn [run_edit].
  - apply same_on_item; intros x; cbn.
    + destruct (tb_orig _ =b []); cbn; by rewrite style_children.
    + by destruct (ci_orig _ =b []).
  - by apply same_on_item.
  - apply same_on_out, shape_alter_text. by intros [].
  - unfold set_content_layer. destruct (bc_kind ref); try done; apply same_on_out.
    + apply shape_alter_text. by intros [].
    + by apply shape_alter_group.
  - unfold describe_picture. destruct (_ =b _); [done|]. by apply same_on_picture.
  - unfold classify_picture. destruct (_ =b _); [done|]. by apply same_on_picture.
  - unfold set_molecule. destruct (_ =b _); [done|]. by apply same_on_picture.
  - unfold set_tabular_chart. destruct (bool_decide _); [done|].
    destruct (fill_table_data _ _) as [data cut].
    etrans; [apply same_set_warnings|by apply same_on_picture].
  - apply same_link_caption.
  - unfold link_footnote. destruct (bc_kind owner); try done; apply same_on_out;
      [apply shape_alter_text; by intros []|by apply shape_alter_picture|by apply shape_alter_table].
  - unfold link_adjacent_captions. revert w. induction caption_blocks as [|i blocks IH]; intros w; [done|].
    etrans; [apply same_link_adjacent|apply IH].
  - by apply same_on_out, shape_alter_table.
  - by apply same_on_out, shape_alter_table.
  - apply same_set_warnings.
Qed.

Lemma same_add_entry k i p w w' :
  same_writer w w' → same_writer (add_entry k i p w).2 (add_entry k i p w').2.
Proof. intros [Hout He Hc Hb]. split; cbn; [done|by rewrite He|by destruct p; rewrite Hc|by destruct p; rewrite Hb]. Qed.

Lemma add_text_entry_inv add p w :
  writer_inv w → valid_parent w p → appended TEXT (lw_out w) (add (lw_out w)) →
  writer_inv (add_text_entry add p w).2.
Proof. intros. by apply (writer_inv_add TEXT). Qed.

Lemma text_inv label box body p w :
  writer_inv w → valid_parent w p → writer_inv (text page label box body p w).2.
Proof.
  intros. apply add_text_entry_inv; [done..|].
  apply (appended_shape _ _ (Builder.add_text page label (prov page box (char_count body)) body (lw_out w)));
    [by apply appended_text|]. apply shape_alter_text.
  intros x. unfold stamp_layer. case_decide; [|done]. by apply on_base_children.
Qed.

Lemma styled_text_inv label box body formatting hyperlink p w :
  writer_inv w → valid_parent w p →
  writer_inv (styled_text page label box body formatting hyperlink p w).2.
Proof.
  intros Hw Hp. unfold styled_text.
  match goal with |- writer_inv (let '(_, _) := ?add in _).2 =>
    assert (writer_inv add.2) as Hadd; [|destruct add as [ref w']] end.
  - destruct label; first [by apply text_inv | apply add_text_entry_inv; [done..|by apply appended_text]].
  - eapply writer_inv_same; [|apply Hadd]. apply same_on_out, shape_alter_text, on_base_children, style_children.
Qed.

Lemma picture_inv box p w :
  writer_inv w → valid_parent w p → writer_inv (picture page box p w).2.
Proof.
  intros Hw Hp. unfold picture.
  set (w1 := on_out (add_picture page (prov page box 0)) w).
  match goal with |- writer_inv (add_entry _ _ _ ?w2).2 => assert (same_writer w1 w2) as Hsame end.
  { destruct box as [box|]; [|done]. destruct (_ =b _); [done|].
    destruct (crop _ _ _ _ _) as [[result image] raster].
    destruct image; [|apply same_count_crop].
    etrans; [apply same_count_crop|]. by apply same_on_out, shape_alter_picture. }
  eapply writer_inv_same; [by apply same_add_entry|].
  apply (writer_inv_add PICTURE _ (add_picture page (prov page box 0)) w); [done..|].
  apply appended_picture.
Qed.

Lemma table_inv box cells p w :
  writer_inv w → valid_parent w p → writer_inv (table page box cells p w).2.
Proof.
  intros Hw Hp. unfold table.
  pose proof (writer_inv_add TABLE p (add_table page (prov page box 0)) w Hw ltac:(done) Hp
    (appended_table _ _ _)) as Hadd.
  change (size_of ?d TABLE) with (tables_size d) in Hadd.
  change (add_table page (prov page box 0) (lw_out w))
    with (lw_out (on_out (add_table page (prov page box 0)) w)) in Hadd.
  destruct (add_entry TABLE _ p _) as [ref w']. cbn [snd] in Hadd.
  destruct (bool_decide _); [|destruct (fill_span_table cells) as [data cut]];
    (eapply writer_inv_same; [|apply Hadd]); [|etrans; [|apply same_set_warnings]];
    by apply same_on_out, shape_alter_table.
Qed.

Lemma run_add_inv add p w :
  writer_inv w → valid_parent w p → writer_inv (run_add add p w).2.
Proof.
  intros Hw Hp. destruct add; cbn [run_add];
    try (apply add_text_entry_inv; [done..|by apply appended_text]).
  - by apply text_inv.
  - by apply (writer_inv_add GROUP p (push_group _)), appended_group.
  - by apply (writer_inv_add FIELD_REGION p (push_field_region _)), appended_region.
  - by apply styled_text_inv.
  - by apply picture_inv.
  - by apply table_inv.
Qed.

(** An added item is entered last, under its parent. *)
Lemma run_add_entry add p w :
  lw_entries (run_add add p w).2 = lw_entries w ++ [mk_Entry (run_add add p w).1 p].
Proof.
  destruct add; cbn [run_add]; try done.
  - unfold styled_text. by destruct label.
  - unfold picture, add_entry. cbn [snd fst lw_entries]. f_equal.
    destruct box as [box|]; [|done]. destruct (_ =b _); [done|].
    destruct (crop _ _ _ _ _) as [[result image] raster]. by destruct image.
  - unfold table, add_entry.
    destruct (bool_decide _); [done|]. by destruct (fill_span_table cells) as [data cut].
Qed.

Lemma built_inv w : built w → writer_inv w.
Proof.
  induction 1 as [ws|add p w _ IH Hp|edit w _ IH].
  - apply writer_inv_new.
  - by apply run_add_inv.
  - by eapply writer_inv_same; [apply same_run_edit|].
Qed.
(** ** The calls *)

(** The kind of item a call adds. *)
Definition add_kind (add : Add) : Kind :=
  match add with
  | AddGroup _ _ => GROUP
  | AddFieldRegion _ => FIELD_REGION
  | AddPicture _ => PICTURE
  | AddTable _ _ => TABLE
  | _ => TEXT
  end.
(** What a sequence of calls asks for, read off the calls alone: each adds the
    next item of its kind under the parent it names. *)
Definition ask (asked : list Entry) (call : Add * Parent) : list Entry :=
  let kind := add_kind call.1 in
  asked ++ [mk_Entry (mk_BodyChild kind (length (filter (λ e, bc_kind (en_ref e) = kind) asked))) call.2].
Definition asked_for (calls : list (Add * Parent)) : list Entry := foldl ask [] calls.

(** [built], with the adding calls in order. *)
Inductive built_by : list (Add * Parent) → LayoutWriter → Prop :=
  | by_new ws : built_by [] (LayoutWriter_new page Document_empty ws)
  | by_add calls add parent w :
      built_by calls w → match parent with None => True | Some ref => ref ∈ en_ref <$> asked_for calls end →
      built_by (calls ++ [(add, parent)]) (run_add add parent w).2
  | by_edit calls edit w : built_by calls w → built_by calls (run_edit edit w).

Lemma run_add_ref add p w :
  (run_add add p w).1 = mk_BodyChild (add_kind add) (size_of (lw_out w) (add_kind add)).
Proof.
  assert (Hsub : ∀ n, (n + 1 - 1 = n)%nat) by lia.
  destruct add; cbn [run_add add_kind];
    try (cbn; unfold texts_size; cbn; rewrite ?length_alter, length_app; cbn; by rewrite Hsub).
  - unfold styled_text. destruct label; cbn; unfold texts_size; cbn;
      rewrite ?length_alter, length_app; cbn; by rewrite Hsub.
  - unfold table, add_entry. cbn [size_of].
    assert (tables_size (lw_out (on_out (add_table page (prov page box 0)) w)) - 1 = tables_size (lw_out w))%nat
      as -> by (unfold tables_size; cbn; rewrite length_app; cbn; lia).
    destruct (bool_decide _); [done|]. by destruct (fill_span_table cells) as [data cut].
Qed.

(** The writer counts its items by kind. *)
Lemma writer_inv_count w k :
  writer_inv w → length (filter (λ e, bc_kind (en_ref e) = k) (lw_entries w)) = size_of (lw_out w) k.
Proof.
  intros [Hitems _ Hnd _ _ _ _ _].
  assert (Hp : en_ref <$> filter (λ e, bc_kind (en_ref e) = k) (lw_entries w) ≡ₚ
    mk_BodyChild k <$> seq 0 (size_of (lw_out w) k)).
  { apply NoDup_Permutation.
    - eapply sublist_NoDup; [exact Hnd|]. apply fmap_sublist, sublist_filter.
    - apply NoDup_fmap_2; [by intros ?? [=]|apply NoDup_seq].
    - intros [k' i]. rewrite !list_elem_of_fmap. split.
      + intros (e & He & [Hk Hin]%list_elem_of_filter). rewrite <- He in Hk. cbn in Hk. subst k'.
        exists i. split; [done|]. apply elem_of_seq. split; [lia|]. apply Hitems.
        rewrite He. apply list_elem_of_fmap. by exists e.
      + intros (j & [= -> ->] & [_ Hj]%elem_of_seq). cbn in Hj. apply Hitems in Hj.
        apply list_elem_of_fmap in Hj as (e & He & Hin). exists e. split; [done|].
        apply list_elem_of_filter. by rewrite <- He. }
  apply Permutation_length in Hp. by rewrite !length_fmap, length_seq in Hp.
Qed.

(** The entries are what the calls asked for. *)
Lemma built_by_asked calls w : built_by calls w → writer_inv w ∧ lw_entries w = asked_for calls.
Proof.
  induction 1 as [ws|calls add parent w _ [Hinv He] Hp|calls edit w _ [Hinv He]].
  - split; [apply writer_inv_new|done].
  - split; [apply run_add_inv; [done|]; destruct parent; [by rewrite <- He in Hp|done]|].
    rewrite run_add_entry, run_add_ref, <- (writer_inv_count w (add_kind add) Hinv), He.
    unfold asked_for. by rewrite foldl_app.
  - pose proof (same_run_edit edit w) as Hsame. split; [by eapply writer_inv_same|].
    by rewrite (sw_entries _ _ Hsame).
Qed.
Lemma built_by_some w : built w → ∃ calls, built_by calls w.
Proof.
  induction 1 as [ws|add p w Hw [calls Hb] Hp|edit w _ [calls Hb]].
  - exists []. constructor.
  - exists (calls ++ [(add, p)]). constructor; [done|].
    destruct p; [|done]. cbn in Hp. by rewrite (proj2 (built_by_asked _ _ Hb)) in Hp.
  - exists calls. by constructor.
Qed.
End Built.

(** * The finished tree *)

Definition parent_ref (p : Parent) : bytes :=
  match p with None => kBodyRef | Some ref => ref_string ref end.
(** What a node of the tree, the body or an item, lists. *)
Definition node_children (doc : Document) (p : Parent) : list RefItem :=
  match p with
  | None => default [] (gi_children <$> doc_body doc)
  | Some ref => default [] (item_children doc (bc_kind ref) (bc_index ref))
  end.

(** An item that hangs from the body: its parent lists it once, under the
    parent's own ref, and the parent is the body or hangs from it too. *)
Inductive hangs (doc : Document) : Parent → Prop :=
  | hangs_body : hangs doc None
  | hangs_item k i p l1 l2 :
      hangs doc p → item_refs doc k i = Some (body_child_ref k i, Some (parent_ref p)) →
      node_children doc p = l1 ++ body_child_ref k i :: l2 →
      body_child_ref k i ∉ l1 → body_child_ref k i ∉ l2 →
      hangs doc (Some (mk_BodyChild k i)).

Lemma fmap_alter_snoc {A B} (g : A → list B) (f : A → A) (x : B) (i : nat) (l : list A) (j : nat) :
  (∀ a, g (f a) = g a ++ [x]) →
  g <$> alter f i l !! j = if decide (i = j) then (λ r, r ++ [x]) <$> (g <$> l !! j) else g <$> l !! j.
Proof.
  intros Hf. case_decide as E; [subst|by rewrite list_lookup_alter_ne].
  rewrite list_lookup_alter_eq. destruct (l !! j); cbn; by rewrite ?Hf.
Qed.

Lemma item_children_add_child_ref p ref doc k i :
  item_children (add_child_ref p ref doc) k i =
  if decide (p = mk_BodyChild k i) then (λ l, l ++ [ref]) <$> item_children doc k i
  else item_children doc k i.
Proof.
  destruct p as [k' j]. destruct (decide (k' = k)) as [->|Hk].
  - destruct k; cbn; try (by case_decide);
      (etrans; [apply (fmap_alter_snoc _ _ ref); by intros []|]); repeat case_decide; simplify_eq; done.
  - rewrite decide_False by congruence. by destruct k', k.
Qed.
Lemma item_refs_add_child_ref p ref doc k i :
  item_refs (add_child_ref p ref doc) k i = item_refs doc k i.
Proof. destruct p as [[] j], k; cbn; try done; apply fmap_alter_same; by intros []. Qed.

Lemma item_children_stamp_child c parent doc k i :
  item_children (stamp_child c parent doc) k i = item_children doc k i.
Proof. destruct c as [[] j], k; cbn; try done; apply fmap_alter_same; by intros []. Qed.
Lemma item_children_finalize page order doc k i :
  item_children (finalize_document page order doc) k i = item_children doc k i.
Proof.
  unfold finalize_document. set (doc1 := set_doc_name _ _).
  transitivity (item_children (foldl (λ doc child, stamp_child child kBodyRef doc) doc1 order) k i);
    [by destruct k|].
  transitivity (item_children doc1 k i); [|by destruct k].
  generalize doc1. clear. induction order as [|c order IH]; intros d; cbn [foldl]; [done|].
  by rewrite IH, item_children_stamp_child.
Qed.

Lemma item_children_stamp_entry doc e k i :
  item_children (stamp_entry doc e) k i =
  if decide (en_parent e = Some (mk_BodyChild k i))
  then (λ l, l ++ [ref_string (en_ref e)]) <$> item_children doc k i else item_children doc k i.
Proof.
  unfold stamp_entry. destruct (en_parent e) as [p|]; [|done].
  rewrite item_children_add_child_ref.
  replace (item_children _ k i) with (item_children doc k i)
    by (case_decide; [done|]; by rewrite item_children_stamp_child).
  repeat case_decide; simplify_eq; done.
Qed.
Lemma item_children_stamp_entries es doc k i :
  item_children (foldl stamp_entry doc es) k i =
  (λ l, l ++ (ref_string <$> under (Some (mk_BodyChild k i)) es)) <$> item_children doc k i.
Proof.
  revert doc. induction es as [|e es IH]; intros doc; cbn [foldl].
  { destruct (item_children doc k i); cbn; by rewrite ?app_nil_r. }
  rewrite IH, item_children_stamp_entry. unfold under. rewrite filter_cons.
  case_decide; destruct (item_children doc k i); cbn; by rewrite <- ?app_assoc.
Qed.

(** What stamping an entry makes of the refs of the item (k, i). *)
Definition restamp (k : Kind) (i : nat) (r : bytes * option RefItem) (e : Entry) : bytes * option RefItem :=
  if decide (en_ref e = mk_BodyChild k i ∧ en_parent e ≠ None)
  then (body_child_ref k i, Some (parent_ref (en_parent e))) else r.
Lemma item_refs_stamp_entry doc e k i :
  k ≠ KEY_VALUE → item_refs (stamp_entry doc e) k i = (λ r, restamp k i r e) <$> item_refs doc k i.
Proof.
  intros Hk.
  assert (item_refs (stamp_entry doc e) k i =
    if decide (en_ref e = mk_BodyChild k i ∧ en_parent e ≠ None)
    then (λ _, (body_child_ref k i, Some (parent_ref (en_parent e)))) <$> item_refs doc k i
    else item_refs doc k i) as ->.
  { unfold stamp_entry. destruct (en_parent e) as [p|]; [|by rewrite decide_False by (by intros [_ []])].
    rewrite item_refs_add_child_ref.
    destruct (decide (bc_kind (en_ref e) = KEY_VALUE)) as [Hkv|Hkv].
    - rewrite decide_False; [done|]. intros [E _]. by rewrite E in Hkv.
    - rewrite item_refs_stamp_child. repeat case_decide; naive_solver. }
  unfold restamp. by destruct (item_refs doc k i), (decide _).
Qed.
Lemma item_refs_stamp_entries es doc k i :
  k ≠ KEY_VALUE →
  item_refs (foldl stamp_entry doc es) k i = (λ r, foldl (restamp k i) r es) <$> item_refs doc k i.
Proof.
  intros Hk. revert doc. induction es as [|e es IH]; intros doc; cbn [foldl].
  { by destruct (item_refs doc k i). }
  rewrite IH, item_refs_stamp_entry by done. by destruct (item_refs doc k i).
Qed.
Lemma restamp_other es k i r :
  mk_BodyChild k i ∉ en_ref <$> es → foldl (restamp k i) r es = r.
Proof.
  revert r. induction es as [|e es IH]; intros r; [done|]. rewrite fmap_cons, not_elem_of_cons.
  intros [He Hes]. cbn [foldl]. rewrite IH by done. unfold restamp. rewrite decide_False; [done|].
  by intros [E _].
Qed.
Lemma restamp_entry es k i p r :
  NoDup (en_ref <$> es) → mk_Entry (mk_BodyChild k i) p ∈ es →
  foldl (restamp k i) r es =
  match p with None => r | Some _ => (body_child_ref k i, Some (parent_ref p)) end.
Proof.
  intros Hnd (es1 & es2 & ->)%list_elem_of_split.
  rewrite fmap_app, fmap_cons in Hnd. apply NoDup_app in Hnd as (_ & Hd1 & [Hd2 _]%NoDup_cons).
  rewrite foldl_app. cbn [foldl en_ref] in *. rewrite (restamp_other es2) by done.
  rewrite (restamp_other es1); [|intros Hin; apply (Hd1 _ Hin); by left].
  unfold restamp. cbn [en_ref en_parent]. destruct p; [by rewrite decide_True|].
  by rewrite decide_False by (by intros [_ []]).
Qed.

Lemma size_stamp_child c parent doc k : size_of (stamp_child c parent doc) k = size_of doc k.
Proof. destruct c as [[] j], k; try done; apply length_alter. Qed.
Lemma size_add_child_ref p ref doc k : size_of (add_child_ref p ref doc) k = size_of doc k.
Proof. destruct p as [[] j], k; try done; apply length_alter. Qed.
Lemma size_stamp_entries es doc k : size_of (foldl stamp_entry doc es) k = size_of doc k.
Proof.
  revert doc. induction es as [|e es IH]; intros doc; cbn [foldl]; [done|]. rewrite IH.
  unfold stamp_entry. destruct (en_parent e); [|done]. rewrite size_add_child_ref.
  case_decide; [done|apply size_stamp_child].
Qed.
Lemma size_finalize page order doc k : size_of (finalize_document page order doc) k = size_of doc k.
Proof.
  unfold finalize_document. set (doc1 := set_doc_name _ _).
  transitivity (size_of (foldl (λ doc child, stamp_child child kBodyRef doc) doc1 order) k); [by destruct k|].
  transitivity (size_of doc1 k); [|by destruct k].
  generalize doc1. clear. induction order as [|c order IH]; intros d; cbn [foldl]; [done|].
  by rewrite IH, size_stamp_child.
Qed.

Section Finished.
Context (page : PageContext).

Lemma finish_doc name allow_empty w doc ws :
  finish page name allow_empty w = Mapped doc ws →
  doc = foldl stamp_entry (finalize_document page (lw_body w) (lw_out w)) (lw_entries w).
Proof. unfold finish. destruct (_ && _); [done|]. by intros [= <- <-]. Qed.

Lemma stamp_entry_body doc e : doc_body (stamp_entry doc e) = doc_body doc.
Proof.
  unfold stamp_entry. destruct (en_parent e) as [[[] i]|]; try done;
    destruct (decide _); try done; by destruct (en_ref e) as [[] j].
Qed.
Lemma stamp_entries_body es doc : doc_body (foldl stamp_entry doc es) = doc_body doc.
Proof.
  revert doc. induction es as [|e es IH]; intros doc; cbn [foldl]; [done|]. by rewrite IH, stamp_entry_body.
Qed.

Context (w : LayoutWriter) (Hinv : writer_inv w).
Let doc := foldl stamp_entry (finalize_document page (lw_body w) (lw_out w)) (lw_entries w).

(** A node lists the items entered under it, in the order they were added. *)
Lemma finished_children p : node_children doc p = ref_string <$> under p (lw_entries w).
Proof using Hinv.
  destruct p as [[k i]|]; cbn [node_children bc_kind bc_index].
  - unfold doc. rewrite item_children_stamp_entries, item_children_finalize.
    destruct (item_children (lw_out w) k i) as [l|] eqn:E; [by rewrite (wi_children _ Hinv k i l E)|].
    destruct (under (Some (mk_BodyChild k i)) (lw_entries w)) as [|c l] eqn:Hu; [done|].
    assert (c ∈ under (Some (mk_BodyChild k i)) (lw_entries w)) as Hc by (rewrite Hu; by left).
    apply under_entry, list_elem_of_lookup in Hc as [j Hj].
    apply parent_entry in Hj as (j' & q & _ & Hj'%list_elem_of_lookup_2); [|done].
    assert (mk_BodyChild k i ∈ en_ref <$> lw_entries w) as Hi by (apply entry_of; eauto).
    apply (wi_items _ Hinv) in Hi. pose proof (wi_kinds _ Hinv) as Hk.
    apply item_children_size in Hi; [|intros ->; lia]. rewrite E in Hi. by destruct Hi.
  - unfold doc. rewrite stamp_entries_body.
    pose proof (finalize_children page (lw_body w) (lw_out w)) as Hc.
    destruct (doc_body (finalize_document _ _ _)) as [g|]; [|done]. injection Hc as Hc. cbn.
    rewrite Hc, (wi_root _ Hinv), (wi_body _ Hinv). done.
Qed.

(** An item carries its own ref and its parent's. *)
Lemma finished_refs k i p :
  mk_Entry (mk_BodyChild k i) p ∈ lw_entries w →
  item_refs doc k i = Some (body_child_ref k i, Some (parent_ref p)).
Proof using Hinv.
  intros He. assert (mk_BodyChild k i ∈ en_ref <$> lw_entries w) as Hi by (apply entry_of; eauto).
  apply (wi_items _ Hinv) in Hi. pose proof (wi_kinds _ Hinv) as Hkv.
  assert (k ≠ KEY_VALUE) as Hk by (intros ->; lia).
  unfold doc. rewrite item_refs_stamp_entries, item_refs_finalize by done.
  apply item_refs_size in Hi as [r Hr]. rewrite Hr, (wi_body _ Hinv).
  destruct p as [p|].
  - rewrite decide_False.
    + cbn. by rewrite (restamp_entry _ k i (Some p)) by (by try apply Hinv).
    + intros Hin%under_entry. pose proof (wi_nodup _ Hinv) as Hnd.
      apply list_elem_of_lookup in He as [a Ha]. apply list_elem_of_lookup in Hin as [b Hb].
      assert (a = b) as ->; [|by rewrite Ha in Hb].
      eapply NoDup_lookup; [apply Hnd|..]; rewrite list_lookup_fmap; [by rewrite Ha|by rewrite Hb].
  - rewrite decide_True by (by apply under_entry). cbn.
    by rewrite (restamp_entry _ k i None) by (by try apply Hinv).
Qed.

Lemma finished_items k i :
  is_Some (item_refs doc k i) ↔ mk_BodyChild k i ∈ en_ref <$> lw_entries w.
Proof using Hinv.
  rewrite (wi_items _ Hinv), item_refs_size. unfold doc.
  by rewrite size_stamp_entries, size_finalize.
Qed.

(** Following the parents of an item leads to the body. *)
Lemma finished_hangs j e : lw_entries w !! j = Some e → hangs doc (Some (en_ref e)).
Proof using Hinv.
  revert e. induction (lt_wf j) as [j _ IH]. intros [[k i] p] Hj. cbn [en_ref].
  pose proof (list_elem_of_lookup_2 _ _ _ Hj) as He.
  assert (hangs doc p) as Hp.
  { destruct p as [p|]; [|constructor].
    destruct (parent_entry w j (mk_BodyChild k i) p Hinv Hj) as (j' & q & Hlt & Hj').
    apply (IH j' Hlt _ Hj'). }
  assert (NoDup (ref_string <$> under p (lw_entries w))) as Hnd.
  { apply NoDup_fmap; [|by apply under_nodup, (wi_nodup _ Hinv)].
    intros [k1 i1] [k2 i2] E. by destruct (body_child_ref_inj _ _ _ _ E) as [[= ->] [= ->]]. }
  assert (body_child_ref k i ∈ ref_string <$> under p (lw_entries w)) as Hin.
  { apply list_elem_of_fmap. exists (mk_BodyChild k i). by rewrite under_entry. }
  apply list_elem_of_split in Hin as (l1 & l2 & Hl). rewrite Hl in Hnd.
  apply NoDup_app in Hnd as (_ & Hd & [Hd2 _]%NoDup_cons).
  apply (hangs_item doc k i p l1 l2); [done|by apply finished_refs|by rewrite finished_children|..|done].
  intros Hin. apply (Hd _ Hin). by left.
Qed.
End Finished.

(** * Fragments without nesting *)

Definition rooted (w : LayoutWriter) : Prop := Forall (λ e, en_parent e = None) (lw_entries w).

Lemma rooted_finish page name allow_empty w doc ws :
  rooted w → finish page name allow_empty w = Mapped doc ws →
  doc = finalize_document page (lw_body w) (lw_out w).
Proof.
  intros Hw ->%finish_doc. generalize (finalize_document page (lw_body w) (lw_out w)) as doc. unfold rooted in Hw.
  induction Hw as [|e es He _ IH]; intros doc; cbn [foldl]; [done|].
  rewrite IH. unfold stamp_entry. by rewrite He.
Qed.

(** ** Fragments of texts *)

(** The writer of a page of texts: these texts, nothing cut. *)
Record wrote_texts (w : LayoutWriter) (texts : list BaseTextItem) (ws : Warnings) : Prop := {
  wr_texts : doc_texts (lw_out w) = texts;
  wr_pictures : doc_pictures (lw_out w) = [];
  wr_tables : doc_tables (lw_out w) = [];
  wr_entries : lw_entries w = (λ i, mk_Entry (mk_BodyChild TEXT i) None) <$> seq 0 (length texts);
  wr_warnings : lw_warnings w = ws;
  wr_crops : lw_crops_over_budget w = 0%nat ∧ lw_crops_over_bytes w = 0%nat ∧ lw_crops_too_large w = 0%nat;
  wr_order : lw_body w = mk_BodyChild TEXT <$> seq 0 (length texts);
  wr_others : doc_groups (lw_out w) = [] ∧ doc_key_value_items (lw_out w) = [] ∧
    doc_field_regions (lw_out w) = [] ∧ doc_body (lw_out w) = None }.

(** The fragment that holds these texts and nothing else: each under the body,
    with its own ref, and the body lists them in order. *)
Record text_page (doc : Document) (texts : list BaseTextItem) : Prop := {
  tp_texts : doc_texts doc = imap (λ i item, stamp (body_child_ref TEXT i) kBodyRef item) texts;
  tp_body : gi_children <$> doc_body doc = Some (body_child_ref TEXT <$> seq 0 (length texts));
  tp_pictures : doc_pictures doc = [];
  tp_tables : doc_tables doc = [];
  tp_groups : doc_groups doc = [];
  tp_field_regions : doc_field_regions doc = [];
  tp_key_values : doc_key_value_items doc = [] }.

(** What a reader sees of them does not depend on the refs. *)
Lemma text_page_fmap {B} (f : BaseTextItem → B) doc texts :
  (∀ self parent item, f (stamp self parent item) = f item) → text_page doc texts → f <$> doc_texts doc = f <$> texts.
Proof.
  intros Hf [-> _ _ _ _ _ _]. rewrite fmap_imap. apply list_eq. intros i.
  rewrite list_lookup_imap, list_lookup_fmap. destruct (texts !! i); cbn; [by rewrite Hf|done].
Qed.

Definition item_box (item : BaseTextItem) : option BoundingBox :=
  text_base item ≫= λ base, pi_bbox <$> head (tb_prov base).

Lemma item_label_stamp self parent item : item_label (stamp self parent item) = item_label item.
Proof. by destruct item. Qed.
Lemma item_box_stamp self parent item : item_box (stamp self parent item) = item_box item.
Proof. by destruct item. Qed.

Lemma wrote_rooted w texts ws : wrote_texts w texts ws → rooted w.
Proof. intros Hw. unfold rooted. rewrite (wr_entries _ _ _ Hw). apply Forall_fmap, Forall_forall. done. Qed.
Lemma wrote_alter f w items item ws :
  wrote_texts w (items ++ [item]) ws →
  wrote_texts (on_out (alter_text f (length items)) w) (items ++ [f item]) ws.
Proof.
  intros [Ht Hp Hta He Hw Hc Ho Hn]. split; cbn; try done.
  - rewrite Ht. rewrite <- (alter_snoc f items item), length_app. cbn. by rewrite Nat.add_sub.
  - by rewrite He, !length_app.
  - by rewrite Ho, !length_app.
Qed.

(** A text added under the body is the last one. *)
Lemma wrote_push add item w items ws :
  add (lw_out w) = push_text item (lw_out w) → wrote_texts w items ws →
  let '(ref, w') := add_text_entry add None w in
  ref = mk_BodyChild TEXT (length items) ∧ wrote_texts w' (items ++ [item]) ws.
Proof.
  intros Hadd [Ht Hp Hta He Hw Hc Ho Hn]. unfold add_text_entry, add_entry, on_out, set_out. rewrite Hadd.
  split; [|split; cbn; try done].
  - f_equal. cbn. unfold texts_size. cbn. rewrite Ht, length_app. cbn. lia.
  - by rewrite Ht.
  - rewrite He, Ht, length_app. change (length [item]) with 1%nat. rewrite Nat.add_1_r, seq_S, fmap_app.
    cbn. by rewrite Nat.sub_0_r.
  - rewrite Ho, Ht, length_app. change (length [item]) with 1%nat. rewrite Nat.add_1_r, seq_S, fmap_app.
    cbn. by rewrite Nat.sub_0_r.
Qed.
Lemma wrote_text page label box body w items ws :
  wrote_texts w items ws →
  let '(ref, w') := text page label box body None w in
  ref = mk_BodyChild TEXT (length items) ∧ wrote_texts w' (items ++ [stamp_layer label
    (kText (fill_text_base page label (prov page box (char_count body)) body))]) ws.
Proof.
  apply wrote_push. unfold Builder.add_text, push_text, alter_text, texts_size. cbn [doc_texts set_doc_texts].
  by rewrite alter_snoc.
Qed.
(** An item of any label but code and field value, without formatting. *)
Definition styled_item (label : DocItemLabel) (base : TextItemBase) : BaseTextItem :=
  match label with
  | DOC_ITEM_LABEL_TITLE => kTitle base
  | DOC_ITEM_LABEL_SECTION_HEADER => kSectionHeader base 1
  | DOC_ITEM_LABEL_FORMULA => kFormula base
  | _ => stamp_layer label (kText base)
  end.
Lemma styled_wrote page label box body w items ws :
  label ≠ DOC_ITEM_LABEL_CODE → label ≠ DOC_ITEM_LABEL_FIELD_VALUE → wrote_texts w items ws →
  let '(ref, w') := styled_text page label box body None [] None w in
  ref = mk_BodyChild TEXT (length items) ∧
  wrote_texts w' (items ++ [styled_item label (fill_text_base page label (prov page box (char_count body)) body)]) ws.
Proof.
  intros Hcode Hfield Hw. unfold styled_text.
  match goal with |- let '(_, _) := (let '(_, _) := ?m in _) in _ => assert (let '(ref, w') := m in
    ref = mk_BodyChild TEXT (length items) ∧
    wrote_texts w' (items ++ [styled_item label (fill_text_base page label (prov page box (char_count body)) body)]) ws)
    as Hadd; [|destruct m as [ref w1]; destruct Hadd as [-> Hadd]] end.
  - pose proof (wrote_text page label box body w items ws Hw) as Htext.
    destruct label; first [done|apply Htext|by apply wrote_push].
  - split; [done|]. apply (wrote_alter (on_base (style None []))) in Hadd. cbn [bc_index].
    replace (styled_item _ _) with (on_base (style None [])
      (styled_item label (fill_text_base page label (prov page box (char_count body)) body))); [done|].
    by destruct label.
Qed.

(** The fragment of a writer of texts only. *)
Lemma finish_wrote_texts page name allow_empty w texts ws :
  texts ≠ [] → wrote_texts w texts ws →
  ∃ doc, finish page name allow_empty w = Mapped doc ws ∧ text_page doc texts.
Proof.
  intros Hne Hwrote. pose proof (wrote_rooted _ _ _ Hwrote) as Hroot.
  destruct Hwrote as [Ht Hp Hta He Hw (H1 & H2 & H3) Ho (Hg & Hk & Hf & Hb)].
  assert (∃ doc, finish page name allow_empty w = Mapped doc ws) as [doc Hfin].
  { eexists. unfold finish, crop_warnings. rewrite He, length_fmap, length_seq, H1, H2, H3, Hw.
    rewrite bool_decide_eq_false_2; [done|]. by destruct texts. }
  exists doc. split; [done|]. rewrite (rooted_finish _ _ _ _ _ _ Hroot Hfin).
  destruct (finalize_same_contents page (lw_body w) (lw_out w)) as [_ Ep Eta Ek Eg Ef].
  rewrite Hp in Ep. rewrite Hta in Eta. rewrite Hk in Ek. rewrite Hg in Eg. rewrite Hf in Ef.
  split; try (by eapply fmap_nil_inv).
  - unfold finalize_document. cbn [doc_texts set_doc_pages set_doc_body]. rewrite Ho.
    by apply (stamp_listed doc_texts TEXT [] texts).
  - rewrite finalize_children, Hb, Ho. cbn. by rewrite <- list_fmap_compose.
Qed.

(** * Properties *)

(** C18: The fragment a layout mapper finishes is the tree its calls asked for.
    Whatever sequence of calls built the writer, as long as every parent is an
    item an earlier call added: the items of the document are exactly those the
    calls added, the n-th call of a kind the n-th item of that kind; every item
    carries its own ref, and following parents from it leads to the body, each
    parent listing the child exactly once; and the body and every item list
    precisely the items whose call named them as the parent, in the order of the
    calls. *)
Theorem finish_tree `{ProtobufSize} `{Stb} page name allow_empty calls w doc ws :
  built_by page calls w → finish page name allow_empty w = Mapped doc ws →
  (∀ k i, is_Some (item_refs doc k i) ↔ mk_BodyChild k i ∈ en_ref <$> asked_for calls) ∧
  (∀ k i, is_Some (item_refs doc k i) → hangs doc (Some (mk_BodyChild k i))) ∧
  (∀ p, node_children doc p = ref_string <$> under p (asked_for calls)).
Proof.
  intros [Hw <-]%built_by_asked ->%finish_doc. split_and!.
  - intros. by apply finished_items.
  - intros k i [p [j Hj]%list_elem_of_lookup]%finished_items%entry_of; [|done].
    by apply (finished_hangs page w Hw _ _ Hj).
  - intros. by apply finished_children.
Qed.

(** A list of one item, then a table. *)
Definition toy_size : ProtobufSize := {| ByteSizeLong _ := 1 |}.
Definition toy_stb : Stb :=
  {| stbi_info _ _ := None; stbi_load _ _ := None; stbi_write_png _ _ _ := None |}.
Definition toy_page : PageContext :=
  mk_PageContext 1 1000 1000 [] CropBudget_default CollectorSource_empty None None.
Definition toy_writer : LayoutWriter :=
  let add := @run_add toy_size toy_stb toy_page in
  let '(list, w) := add (AddGroup (lit "list") GROUP_LABEL_LIST) None (LayoutWriter_new toy_page Document_empty None) in
  let w := (add (AddListItem None (lit "one") false (lit "-")) (Some list) w).2 in
  (add (AddTable None []) None w).2.
Definition toy_finished : Document :=
  match finish toy_page (lit "toy") false toy_writer with Mapped doc _ => doc | MapFailed _ => Document_empty end.

Definition toy_calls : list (Add * Parent) :=
  [(AddGroup (lit "list") GROUP_LABEL_LIST, None);
   (AddListItem None (lit "one") false (lit "-"), Some (mk_BodyChild GROUP 0));
   (AddTable None [], None)].
Lemma toy_built : @built_by toy_size toy_stb toy_page toy_calls toy_writer.
Proof.
  apply (@by_add toy_size toy_stb toy_page (take 2 toy_calls) (AddTable None []) None); [|done].
  apply (@by_add toy_size toy_stb toy_page (take 1 toy_calls) _ (Some (mk_BodyChild GROUP 0))).
  - apply (@by_add toy_size toy_stb toy_page [] (AddGroup (lit "list") GROUP_LABEL_LIST) None); [|done].
    apply by_new.
  - cbn. left.
Defined.

Lemma finish_tree_witness :
  hangs toy_finished (Some (mk_BodyChild TEXT 0)) ∧
  node_children toy_finished (Some (mk_BodyChild GROUP 0)) = [lit "#/texts/0"] ∧
  node_children toy_finished None = [lit "#/groups/0"; lit "#/tables/0"].
Proof.
  destruct (@finish_tree toy_size toy_stb toy_page (lit "toy") false toy_calls toy_writer toy_finished None
    toy_built ltac:(vm_compute; reflexivity)) as (_ & Hhangs & Hchildren).
  split; [apply Hhangs; vm_compute; eexists; reflexivity|].
  rewrite !Hchildren. by vm_compute.
Defined.
