(* ===== verification/LayoutGrows.v ===== *)
(** What a mapper over the layout writer does to it: calls that keep the
    references given and only append items.  The mappers' totality proofs are
    about this order and the number of items. *)
From S2P Require Import Prelude Numbers Double Proto ImageCrop Builder OtslGrid Tree LayoutText Layout.

(** The items of a kind from [before] on, moved to a layer. *)
Definition set_layers (layer : ContentLayer) (kind : Kind) (before after : nat) (w : LayoutWriter) : LayoutWriter :=
  foldl (λ w i, set_content_layer (mk_BodyChild kind i) layer w) w (seq before (after - before)).

Section Grows.
Context `{ProtobufSize} `{Stb}.
Context (page : PageContext).

(** A writer reached from another one by calls that keep the references given. *)
Record grows (w w' : LayoutWriter) : Prop := {
  gr_built : built page w → built page w';
  gr_entries : ∃ es, lw_entries w' = lw_entries w ++ es }.
#[export] Instance grows_preorder : PreOrder grows.
Proof.
  split.
  - intros w. split; [done|]. exists []. by rewrite app_nil_r.
  - intros a b c [Hb [es He]] [Hc [es' He']]. split; [auto|]. exists (es ++ es').
    by rewrite He', He, app_assoc.
Qed.
Lemma grows_valid w w' parent : grows w w' → valid_parent w parent → valid_parent w' parent.
Proof.
  intros [_ [es He]]. destruct parent as [ref|]; [|done]. cbn. rewrite He, fmap_app, elem_of_app. by left.
Qed.
Lemma grows_edit edit w : grows w (run_edit edit w).
Proof.
  split; [apply built_edit|]. exists []. rewrite app_nil_r. apply (same_run_edit edit w).
Qed.
Lemma grows_set_warnings ws w : grows w (set_warnings ws w).
Proof. apply (grows_edit (SetWarnings ws)). Qed.
Lemma grows_add add parent w ref w' :
  valid_parent w parent → run_add page add parent w = (ref, w') → grows w w' ∧ valid_parent w' (Some ref).
Proof.
  intros Hp E. pose proof (run_add_entry page add parent w) as He. rewrite E in He. cbn [fst snd] in He.
  split.
  - split; [|by exists [mk_Entry ref parent]]. intros Hw. pose proof (built_add page add parent w Hw Hp) as Hb.
    by rewrite E in Hb.
  - cbn. rewrite He, fmap_app, elem_of_app. right. by left.
Qed.
Lemma grows_edits {A} (f : LayoutWriter → A → LayoutWriter) w l :
  (∀ w x, grows w (f w x)) → grows w (foldl f w l).
Proof.
  intros Hf. revert w. induction l as [|x l IH]; intros w; [done|]. cbn [foldl]. etrans; [apply Hf|apply IH].
Qed.
Lemma set_layers_grows layer kind before after w : grows w (set_layers layer kind before after w).
Proof. apply grows_edits. intros w' i. apply (grows_edit (SetContentLayer _ _)). Qed.
Lemma grows_count w w' : grows w w' → (item_count w ≤ item_count w')%nat.
Proof. intros [_ [es He]]. unfold item_count. rewrite He, length_app. lia. Qed.
(** A call that adds an item adds to the count. *)
Lemma grows_add_count add parent w ref w' :
  valid_parent w parent → run_add page add parent w = (ref, w') →
  grows w w' ∧ valid_parent w' (Some ref) ∧ (item_count w < item_count w')%nat.
Proof.
  intros Hp E. destruct (grows_add _ _ _ _ _ Hp E) as [Hg Hv]. split_and!; [done..|].
  pose proof (run_add_entry page add parent w) as He. rewrite E in He. cbn [fst snd] in He.
  unfold item_count. rewrite He, length_app. cbn. lia.
Qed.

(** What one element's handler does: it ends and adds an item at least. *)
Definition adds (w w' : LayoutWriter) : Prop := grows w w' ∧ (item_count w < item_count w')%nat.
Lemma adds_grows w w' w'' : adds w w' → grows w' w'' → adds w w''.
Proof. intros [Hg Hc] Hg'. split; [by etrans|]. apply grows_count in Hg'. lia. Qed.
Lemma adds_later w w' w'' : grows w w' → adds w' w'' → adds w w''.
Proof. intros Hg [Hg' Hc]. split; [by etrans|]. apply grows_count in Hg. lia. Qed.

Lemma adds_add add parent w ref w' :
  valid_parent w parent → run_add page add parent w = (ref, w') → adds w w' ∧ valid_parent w' (Some ref).
Proof. intros Hp E. by destruct (grows_add_count _ _ _ _ _ Hp E) as (? & ? & ?). Qed.

Lemma finish_empty_ok name w : ∃ doc ws, finish page name true w = Mapped doc ws.
Proof. unfold finish. rewrite andb_false_r. by eexists _, _. Qed.

(** A page of one table and nothing else. *)
Lemma finish_one_table name w data :
  rooted w → ti_data <$> doc_tables (lw_out w) = [data] → doc_texts (lw_out w) = [] → doc_pictures (lw_out w) = [] →
  ∃ doc ws, finish page name true w = Mapped doc ws ∧
    ti_data <$> doc_tables doc = [data] ∧ doc_texts doc = [] ∧ doc_pictures doc = [].
Proof.
  intros Hroot Hdata Htexts Hpics. destruct (finish_empty_ok name w) as (doc & ws & Hf). exists doc, ws. split; [done|].
  rewrite (rooted_finish _ _ _ _ _ _ Hroot Hf).
  pose proof (finalize_same_contents page (lw_body w) (lw_out w)) as Hsame.
  rewrite (same_contents_tables _ _ Hsame). split; [done|]. destruct Hsame as [Et Ep _ _ _ _].
  rewrite Htexts in Et. rewrite Hpics in Ep. by apply fmap_nil_inv in Et, Ep.
Qed.

(** ... and nothing else beside it, where the writer holds nothing else. *)
Lemma finish_table_alone name w data :
  rooted w → ti_data <$> doc_tables (lw_out w) = [data] → doc_texts (lw_out w) = [] → doc_pictures (lw_out w) = [] →
  doc_groups (lw_out w) = [] → doc_field_regions (lw_out w) = [] → doc_body (lw_out w) = None →
  lw_body w = [mk_BodyChild TABLE 0] →
  ∃ doc ws, finish page name true w = Mapped doc ws ∧
    ti_data <$> doc_tables doc = [data] ∧ doc_texts doc = [] ∧ doc_pictures doc = [] ∧
    doc_groups doc = [] ∧ doc_field_regions doc = [] ∧
    gi_children <$> doc_body doc = Some [body_child_ref TABLE 0].
Proof.
  intros Hroot Hdata Htexts Hpics Hg Hr Hb Ho. destruct (finish_one_table name w data) as (doc & ws & Hf & Hd & Ht & Hp); [done..|].
  exists doc, ws. pose proof (rooted_finish _ _ _ _ _ _ Hroot Hf) as Hdoc.
  destruct (finalize_same_contents page (lw_body w) (lw_out w)) as [_ _ _ _ Eg Er]. rewrite <- Hdoc in Eg, Er.
  rewrite Hg in Eg. rewrite Hr in Er. split_and!; try done; try (by eapply fmap_nil_inv).
  by rewrite Hdoc, finalize_children, Hb, Ho.
Qed.

(** The items of a finished page: the entries, each hanging from the body. *)
Lemma finish_items name allow_empty w doc ws :
  built page w → finish page name allow_empty w = Mapped doc ws →
  (∀ k i, is_Some (item_refs doc k i) ↔ mk_BodyChild k i ∈ en_ref <$> lw_entries w) ∧ NoDup (en_ref <$> lw_entries w) ∧
  (∀ k i, is_Some (item_refs doc k i) → hangs doc (Some (mk_BodyChild k i))).
Proof.
  intros Hb Hf. pose proof (built_inv page w Hb) as Hinv. rewrite (finish_doc _ _ _ _ _ _ Hf) in *. split_and!.
  - intros. by apply finished_items.
  - apply Hinv.
  - intros k i [p [j Hj]%list_elem_of_lookup]%finished_items%entry_of; [|done]. by apply (finished_hangs page w Hinv _ _ Hj).
Qed.
End Grows.

(** What a mapper that never fails a page gives: a document whose items all hang
    from its body, [count] of them at least. *)
Definition whole_page (result : MapResult) (count : nat) : Prop :=
  ∃ doc ws items, result = Mapped doc ws ∧
    (∀ k i, is_Some (item_refs doc k i) ↔ mk_BodyChild k i ∈ items) ∧ NoDup items ∧
    (∀ k i, is_Some (item_refs doc k i) → hangs doc (Some (mk_BodyChild k i))) ∧ (count ≤ length items)%nat.
Lemma built_whole_page `{ProtobufSize} `{Stb} page name w doc ws result count :
  built page w → finish page name true w = Mapped doc ws → result = Mapped doc ws → (count ≤ item_count w)%nat →
  whole_page result count.
Proof.
  intros Hb Hf -> Hc. destruct (finish_items page _ _ w _ _ Hb Hf) as (Hitems & Hnd & Hhang).
  exists doc, ws, (en_ref <$> lw_entries w). split_and!; [done..|by rewrite length_fmap].
Qed.
