(* ===== verification/LayoutImages.v ===== *)
(** The images of a layout writer's pictures: the bytes they inline are those
    the page's raster charged, so they stay within the page's crop budget, in
    bytes and in number, whatever calls built the writer. *)
From S2P Require Import Prelude Numbers Double Proto ImageCrop Builder OtslGrid Tree LayoutText Layout.

Section Images.
Context `{ProtobufSize} `{Stb}.
Context (page : PageContext).

(** A call that leaves the raster and the pictures' images alone. *)
Record quiet (w w' : LayoutWriter) : Prop := {
  qt_raster : lw_raster w' = lw_raster w;
  qt_images : pc_image <$> doc_pictures (lw_out w') = pc_image <$> doc_pictures (lw_out w) }.
#[export] Instance quiet_preorder : PreOrder quiet.
Proof. split; [by split|]. intros a b c [] []. split; congruence. Qed.
Lemma quiet_alter f i w :
  (∀ p, pc_image (f p) = pc_image p) → quiet w (on_out (alter_picture f i) w).
Proof. intros Hf. split; [done|]. by apply images_alter. Qed.

Lemma quiet_link_caption owner caption w : quiet w (link_caption owner caption w).
Proof. unfold link_caption. destruct (bc_kind owner); try done. by apply quiet_alter. Qed.
Lemma quiet_link_adjacent starts code_owners w index : quiet w (link_adjacent starts code_owners w index).
Proof.
  unfold link_adjacent. destruct (single _ _ _); [|done].
  destruct (negb _); [done|]. destruct (filter _ _) as [|? []]; try done.
  destruct (_ && _); [apply quiet_link_caption|done].
Qed.
Lemma quiet_on_item base code ref w : quiet w (on_item base code ref w).
Proof. unfold on_item. by destruct (bc_kind ref). Qed.
Lemma quiet_edit edit w : quiet w (run_edit edit w).
Proof.
  destruct edit; cbn [run_edit]; try apply quiet_on_item; try done.
  - unfold set_content_layer. by destruct (bc_kind ref).
  - unfold describe_picture. destruct (_ =b _); [done|by apply quiet_alter].
  - unfold classify_picture. destruct (_ =b _); [done|by apply quiet_alter].
  - unfold set_molecule. destruct (_ =b _); [done|by apply quiet_alter].
  - unfold set_tabular_chart. destruct (bool_decide _); [done|].
    destruct (fill_table_data _ _) as [data cut]. etrans; [|by apply quiet_alter]. done.
  - apply quiet_link_caption.
  - unfold link_footnote. destruct (bc_kind owner); try done. by apply quiet_alter.
  - unfold link_adjacent_captions. revert w. induction caption_blocks as [|i blocks IH]; intros w; [done|].
    etrans; [apply quiet_link_adjacent|apply IH].
Qed.

Definition images_inv (w : LayoutWriter) : Prop := images_charged page (lw_raster w) (lw_out w).
Lemma images_quiet w w' : quiet w w' → images_inv w → images_inv w'.
Proof. intros [Hr Hi]. unfold images_inv. rewrite Hr. by apply images_charged_ext. Qed.

Lemma picture_images box parent w : images_inv w → images_inv (picture page box parent w).2.
Proof.
  intros Hi. unfold picture. set (w1 := on_out (add_picture page (prov page box 0)) w).
  assert (Hw1 : images_inv w1).
  { destruct Hi as [Hr Hb Hi Hc]. split; [done|done|..]; change (lw_raster w1) with (lw_raster w);
      rewrite <- ?Hi; unfold w1, on_out, set_out, add_picture; cbn [lw_out doc_pictures set_doc_pictures];
      by rewrite image_sum_push. }
  assert (Hlast : pc_image <$> doc_pictures (lw_out w1) !! (pictures_size (lw_out w1) - 1)%nat = Some None).
  { cbn. unfold pictures_size. cbn. rewrite length_app, Nat.add_sub. by rewrite list_lookup_middle. }
  clearbody w1. clear w Hi. set (index := (pictures_size (lw_out w1) - 1)%nat) in *.
  unfold add_entry. cbn [snd].
  match goal with |- images_inv (mk_LayoutWriter (lw_out ?w2) _ _ _ _ _ _ _ _) => enough (images_inv w2) by done end.
  destruct box as [box|]; [|done]. destruct (_ =b _); [done|].
  destruct (crop _ _ _ _ _) as [[result image] raster] eqn:Hcrop.
  pose proof (images_charged_crop _ _ _ _ _ _ _ _ _ _ index Hw1 Hcrop Hlast). by destruct image.
Qed.
Lemma styled_quiet label box body formatting hyperlink parent w :
  quiet w (styled_text page label box body formatting hyperlink parent w).2.
Proof. unfold styled_text. by destruct label. Qed.
Lemma table_quiet box cells parent w : quiet w (table page box cells parent w).2.
Proof.
  unfold table, add_entry. destruct (bool_decide _); [done|]. by destruct (fill_span_table cells) as [data cut].
Qed.
Lemma add_images add parent w : images_inv w → images_inv (run_add page add parent w).2.
Proof.
  intros Hw. destruct add; cbn [run_add]; try (eapply images_quiet; [|apply Hw]; by split).
  - eapply images_quiet; [apply styled_quiet|done].
  - by apply picture_images.
  - eapply images_quiet; [apply table_quiet|done].
Qed.
Lemma built_images w : 0 <= max_inline_bytes (page_crops page) < 2 ^ 64 → built page w → images_inv w.
Proof.
  intros Hcap. induction 1 as [ws|add p w _ IH Hp|edit w _ IH].
  - by apply images_charged_new.
  - by apply add_images.
  - eapply images_quiet; [apply quiet_edit|done].
Qed.

(** Stamping the tree changes no image. *)
Lemma stamp_entry_images doc e : pc_image <$> doc_pictures (stamp_entry doc e) = pc_image <$> doc_pictures doc.
Proof.
  unfold stamp_entry, add_child_ref, stamp_child. destruct (en_parent e) as [p|]; [|done].
  destruct (decide _); destruct (bc_kind p), (bc_kind (en_ref e)); cbn; try done; by rewrite ?images_alter.
Qed.
Lemma finish_images name allow_empty w doc ws :
  0 <= max_inline_bytes (page_crops page) < 2 ^ 64 → built page w → finish page name allow_empty w = Mapped doc ws →
  images_within (page_crops page) doc.
Proof.
  intros Hcap Hi%built_images ->%finish_doc; [|done].
  assert (∀ es d, pc_image <$> doc_pictures (foldl stamp_entry d es) = pc_image <$> doc_pictures d) as Hstamp.
  { induction es as [|e es IH]; intros d; [done|]. cbn [foldl]. by rewrite IH, stamp_entry_images. }
  apply (images_within_ext _ (lw_out w)); [|by eapply images_charged_within].
  rewrite Hstamp. symmetry. apply same_contents_images, finalize_same_contents.
Qed.
End Images.
