(* ===== verification/MarkdownInline.v ===== *)
(** Inline Markdown (src/mapping/markdown_inline.cpp): the paragraph scanner,
    CommonMark's emphasis algorithm over its pieces, and the two functions the
    layout mappers call.  The emphasis tags it writes are properly nested. *)
From S2P Require Import Prelude Numbers Double Proto ImageCrop Builder OtslGrid.
From S2P Require Import MarkupTree LayoutText.

Definition md_space (c : ascii) : bool := isspace c.
Definition md_punct (c : ascii) : bool := (code c <? 128) && ispunct c.

Definition escape_html (c : ascii) : bytes :=
  if c =c "&"%char then lit "&amp;"
  else if c =c "<"%char then lit "&lt;"
  else if c =c ">"%char then lit "&gt;"
  else if c =c c_quote then lit "&quot;"
  else [c].
Definition escape_into (text : bytes) : bytes := mjoin (escape_html <$> text).

(** * What passes through *)

(** The first of [count] positions from [from] that passes. *)
Fixpoint first_from (test : nat → bool) (from count : nat) : option nat :=
  match count with
  | O => None
  | S count => if test from then Some from else first_from test (S from) count
  end.
Definition is_backslash (c : ascii) : bool := c =c "\"%char.
Definition escaped (text : bytes) (i : nat) : bool :=
  match i with O => false | S j => char_at text j is_backslash end.
Definition unescaped_find (text needle : bytes) (from : nat) : option nat :=
  first_from (λ i, starts_with needle (drop i text) && negb (escaped text i)) from (length text - from).
(** After a dollar sign: the end of the math it opens on this line. *)
Fixpoint dollar_end (s : bytes) (prev : option ascii) (j : nat) : option nat :=
  match s with
  | [] => None
  | c :: s =>
      if c =c c_nl then None
      else if c =c "$"%char then
        match prev with
        | None => None
        | Some p => if is_backslash p then dollar_end s (Some c) (S j) else Some (S j)
        end
      else dollar_end s (Some c) (S j)
  end.
Definition code_end (text : bytes) (i : nat) : option nat :=
  let rest := tolower <$> drop i text in
  if starts_with (lit "<code") rest && negb (head_is isalnum (drop 5 rest)) then
    gt ← find_char ">"%char rest 0;
    close ← find (lit "</code>") rest gt;
    Some (i + close + 7)%nat
  else None.
Definition literal_end (text : bytes) (i : nat) : option nat :=
  let rest := drop i text in
  if escaped text i then None
  else if starts_with (lit "$$") rest then (λ close, close + 2)%nat <$> unescaped_find text (lit "$$") (i + 2)
  else if head_is (Ascii.eqb "$"%char) rest then dollar_end (drop 1 rest) None (S i)
  else if starts_with (lit "\(") rest then (λ close, close + 2)%nat <$> find (lit "\)") text (i + 2)
  else if starts_with (lit "\[") rest then (λ close, close + 2)%nat <$> find (lit "\]") text (i + 2)
  else code_end text i.

Fixpoint scan_tag (quote : option ascii) (s : bytes) (j : nat) : option nat :=
  match s with
  | [] => None
  | c :: s =>
      match quote with
      | Some q => scan_tag (if c =c q then None else quote) s (S j)
      | None =>
          if (c =c c_quote) || (c =c "'"%char) then scan_tag (Some c) s (S j)
          else if c =c ">"%char then Some (S j)
          else if (c =c "<"%char) || (c =c c_nl) then None
          else scan_tag None s (S j)
      end
  end.
Definition html_tag_end (text : bytes) (i : nat) : option nat :=
  match drop i text with
  | "<"%char :: rest =>
      let '(rest, j) := match rest with "/"%char :: rest => (rest, (i + 2)%nat) | _ => (rest, S i) end in
      if head_is isalpha rest then scan_tag None rest j else None
  | _ => None
  end.

(** * Pieces *)

Record Piece := mk_Piece {
  pe_html : bytes;
  pe_delim : bool;
  pe_ch : ascii;
  pe_count : nat;
  pe_orig : nat;
  pe_can_open : bool;
  pe_can_close : bool;
  pe_open_tags : bytes;
  pe_close_tags : bytes }.
Definition html_piece (html : bytes) : Piece := mk_Piece html false "000"%char 0 0 false false [] [].
Definition flush_buffer (buffer : bytes) (pieces : list Piece) : list Piece :=
  if buffer =b [] then pieces else pieces ++ [html_piece buffer].

(** A closing run of backticks as long as the opening one. *)
Fixpoint closing_run (fuel : nat) (text : bytes) (run at_ : nat) : option nat :=
  match fuel with
  | O => None
  | S fuel =>
      match find_char "`"%char text at_ with
      | None => None
      | Some found =>
          let len := span (Ascii.eqb "`"%char) (drop found text) in
          if bool_decide (len = run) then Some found else closing_run fuel text run (found + len)
      end
  end.
Definition is_space_char (c : ascii) : bool := c =c " "%char.
Definition code_text (body : bytes) : bytes :=
  let body := (λ c, if c =c c_nl then " "%char else c) <$> body in
  if bool_decide (2 ≤ length body)%nat && head_is is_space_char body && head_is is_space_char (rev body) &&
     negb (forallb is_space_char body)
  then substr body 1 (length body - 2) else body.
(** The run of [*] or [_] at [i]. *)
Definition delimiter (text : bytes) (i : nat) (c : ascii) (run : nat) : Piece :=
  let before := match i with O => " "%char | S j => default " "%char (text !! j) end in
  let after := default " "%char (text !! (i + run)%nat) in
  let left := negb (md_space after) && (negb (md_punct after) || md_space before || md_punct before) in
  let right := negb (md_space before) && (negb (md_punct before) || md_space after || md_punct after) in
  mk_Piece [] true c run run
    (if c =c "*"%char then left else left && (negb right || md_punct before))
    (if c =c "*"%char then right else right && (negb left || md_punct after)) [] [].

(** * The paragraph scanner *)

Record Scan := mk_Scan { sc_i : nat; sc_buffer : bytes; sc_pieces : list Piece }.
Definition emit (s : Scan) (i : nat) (html : bytes) : Scan := mk_Scan i (sc_buffer s ++ html) (sc_pieces s).

Definition scan_literal (text : bytes) (s : Scan) (c : ascii) : option Scan :=
  let i := sc_i s in
  if (c =c "$"%char) || is_backslash c || (c =c "<"%char) then
    stop ← literal_end text i;
    let literal := substr text i (stop - i) in
    Some (emit s stop (if c =c "<"%char then literal else escape_into literal))
  else None.
Definition scan_code (text : bytes) (s : Scan) : Scan :=
  let i := sc_i s in
  let run := span (Ascii.eqb "`"%char) (drop i text) in
  match closing_run (S (length text)) text run (i + run) with
  | Some close =>
      emit s (close + run)
        (lit "<code>" ++ escape_into (code_text (substr text (i + run) (close - i - run))) ++ lit "</code>")
  | None => emit s (i + run) (replicate run "`"%char)
  end.
(** The two escapes: a line break, a literal punctuation character. *)
Definition scan_escape (text : bytes) (s : Scan) : option Scan :=
  let i := sc_i s in
  match text !! S i with
  | None => None
  | Some next =>
      if next =c c_nl then Some (emit s (i + 2) (lit "<br />" ++ [c_nl]))
      else if md_punct next then Some (emit s (i + 2) (escape_html next)) else None
  end.
Definition scan_newline (text : bytes) (s : Scan) : Scan :=
  let kept := rstrip is_space_char (sc_buffer s) in
  let spaces := (length (sc_buffer s) - length kept)%nat in
  let i := S (sc_i s) in
  mk_Scan (i + span is_hspace (drop i text))
    (kept ++ (if bool_decide (2 ≤ spaces)%nat then lit "<br />" ++ [c_nl] else [c_nl])) (sc_pieces s).
Definition scan_delimiter (text : bytes) (s : Scan) (c : ascii) : Scan :=
  let run := span (Ascii.eqb c) (drop (sc_i s) text) in
  mk_Scan (sc_i s + run) []
    (flush_buffer (sc_buffer s) (sc_pieces s) ++ [delimiter text (sc_i s) c run]).

Definition scan_step (text : bytes) (s : Scan) : Scan + list Piece :=
  let i := sc_i s in
  match text !! i with
  | None => inr (flush_buffer (sc_buffer s) (sc_pieces s))
  | Some c =>
      inl match scan_literal text s c with
          | Some s => s
          | None =>
              if c =c "`"%char then scan_code text s else
              match (if is_backslash c then scan_escape text s else None) with
              | Some s => s
              | None =>
                  match (if c =c "<"%char then html_tag_end text i else None) with
                  | Some stop => emit s stop (substr text i (stop - i))
                  | None =>
                      if (c =c "*"%char) || (c =c "_"%char) then scan_delimiter text s c
                      else if c =c c_nl then scan_newline text s
                      else emit s (S i) (escape_html c)
                  end
              end
          end
  end.
Definition scan_pieces (text : bytes) : list Piece :=
  run_loop [] (S (length text)) (scan_step text) (mk_Scan 0 [] []).

(** * Emphasis *)

Abbreviation Bottom := (gmap (ascii * bool * nat) nat).
Record Emphasis := mk_Emphasis { em_pieces : list Piece; em_stack : list nat; em_bottom : Bottom }.

Definition piece_at (pieces : list Piece) (i : nat) : Piece := default (html_piece []) (pieces !! i).
Definition odd_match (opener closer : Piece) : bool :=
  (pe_can_close opener || pe_can_open closer) &&
  bool_decide ((pe_orig opener + pe_orig closer) mod 3 = 0)%nat &&
  negb (bool_decide (pe_orig opener mod 3 = 0)%nat && bool_decide (pe_orig closer mod 3 = 0)%nat).
Definition opens (opener closer : Piece) : bool :=
  (pe_ch opener =c pe_ch closer) && pe_can_open opener && negb (bool_decide (pe_count opener = 0%nat)) &&
  negb (odd_match opener closer).
(** The topmost stack position below [s] and not below [floor] that opens. *)
Fixpoint find_opener (pieces : list Piece) (stack : list nat) (closer : Piece) (floor s : nat) : option nat :=
  match s with
  | O => None
  | S s' =>
      if bool_decide (floor < s)%nat then
        if opens (piece_at pieces (default 0%nat (stack !! s'))) closer then Some s'
        else find_opener pieces stack closer floor s'
      else None
  end.
Definition open_tag (used : nat) : bytes := if bool_decide (used = 2%nat) then lit "<strong>" else lit "<em>".
Definition close_tag (used : nat) : bytes := if bool_decide (used = 2%nat) then lit "</strong>" else lit "</em>".
Definition wrap_opener (used : nat) (p : Piece) : Piece :=
  mk_Piece (pe_html p) (pe_delim p) (pe_ch p) (pe_count p - used) (pe_orig p) (pe_can_open p) (pe_can_close p)
    (open_tag used ++ pe_open_tags p) (pe_close_tags p).
Definition wrap_closer (used : nat) (p : Piece) : Piece :=
  mk_Piece (pe_html p) (pe_delim p) (pe_ch p) (pe_count p - used) (pe_orig p) (pe_can_open p) (pe_can_close p)
    (pe_open_tags p) (pe_close_tags p ++ close_tag used).

(** One pair: the delimiters at [found] on the stack and at [index]. *)
Definition match_pair (index found : nat) (pieces : list Piece) (stack : list nat) : list Piece * list nat :=
  let at_ := default 0%nat (stack !! found) in
  let opener := piece_at pieces at_ in
  let closer := piece_at pieces index in
  let used := if bool_decide (2 ≤ pe_count opener)%nat && bool_decide (2 ≤ pe_count closer)%nat then 2%nat else 1%nat in
  (alter (wrap_closer used) index (alter (wrap_opener used) at_ pieces),
   take (if bool_decide (pe_count opener = used) then found else S found) stack).
(** Pairs are matched while the closer has delimiters left. *)
Fixpoint match_pairs (fuel : nat) (index floor : nat) (matched : bool) (pieces : list Piece) (stack : list nat)
  : list Piece * list nat * bool :=
  match fuel with
  | O => (pieces, stack, matched)
  | S fuel =>
      let closer := piece_at pieces index in
      if bool_decide (pe_count closer = 0%nat) then (pieces, stack, matched) else
      match find_opener pieces stack closer floor (length stack) with
      | None => (pieces, stack, matched)
      | Some found =>
          let '(pieces, stack) := match_pair index found pieces stack in
          match_pairs fuel index floor true pieces stack
      end
  end.
Definition close_step (index : nat) (s : Emphasis) : Emphasis :=
  let closer := piece_at (em_pieces s) index in
  let key := (pe_ch closer, pe_can_open closer, (pe_orig closer mod 3)%nat) in
  let floor := default 0%nat (em_bottom s !! key) in
  let '(pieces, stack, matched) :=
    match_pairs (S (pe_count closer)) index floor false (em_pieces s) (em_stack s) in
  mk_Emphasis pieces stack (if matched : bool then em_bottom s else <[key := length stack]> (em_bottom s)).
Definition emphasis_step (s : Emphasis) (index : nat) : Emphasis :=
  let piece := piece_at (em_pieces s) index in
  if negb (pe_delim piece) then s else
  let s := if pe_can_close piece then close_step index s else s in
  let piece := piece_at (em_pieces s) index in
  if negb (bool_decide (pe_count piece = 0%nat)) && pe_can_open piece
  then mk_Emphasis (em_pieces s) (em_stack s ++ [index]) (em_bottom s) else s.
Definition process_emphasis (pieces : list Piece) : list Piece :=
  em_pieces (foldl emphasis_step (mk_Emphasis pieces [] ∅) (seq 0 (length pieces))).

Definition piece_html (p : Piece) : bytes :=
  if pe_delim p then pe_close_tags p ++ replicate (pe_count p) (pe_ch p) ++ pe_open_tags p else pe_html p.
Definition render_paragraph (text : bytes) : bytes := mjoin (piece_html <$> process_emphasis (scan_pieces text)).

(** * The functions the mappers call *)

(** A blank line ends a paragraph. *)
Definition emit_paragraph (s : bytes * bytes) : bytes * bytes :=
  let '(paragraph, rendered) := s in
  let body := trim paragraph in
  ([], if body =b [] then rendered
       else rendered ++ lit "<p>" ++ render_paragraph body ++ lit "</p>" ++ [c_nl]).
Definition paragraph_line (s : bytes * bytes) (line : bytes) : bytes * bytes :=
  if trim line =b [] then emit_paragraph s
  else (if s.1 =b [] then line else s.1 ++ c_nl :: line, s.2).
Definition render_paragraphs (text : bytes) : bytes :=
  (emit_paragraph (foldl paragraph_line ([], []) (split_on c_nl text))).2.
Definition kBreak : bytes := lit "<br />" ++ [c_nl].
(** Line breaks become <br>; [skip] bytes belong to a break already written. *)
Fixpoint join_breaks (skip : nat) (html : bytes) : bytes :=
  match html with
  | [] => []
  | c :: rest =>
      match skip with
      | S skip => join_breaks skip rest
      | O =>
          if starts_with kBreak html then lit "<br>" ++ join_breaks 6 rest
          else if c =c c_nl then lit "<br>" ++ join_breaks 0 rest
          else c :: join_breaks 0 rest
      end
  end.
Definition markdown_inline_html (text : bytes) : bytes :=
  if absent (lit "*") text && absent (lit "_") text then text else
  let rendered := render_paragraphs text in
  if absent (lit "<strong>") rendered && absent (lit "<em>") rendered then unescape_markdown_literals text
  else join_breaks 0 (trim rendered).

Definition kTags : list bytes := lit <$>
  ["a"; "b"; "br"; "code"; "del"; "div"; "em"; "i"; "p"; "s"; "span"; "strong"; "sub"; "sup"; "table"; "tbody";
   "td"; "tfoot"; "th"; "thead"; "tr"; "u"]%string.
Definition inline_tag_at (rest : bytes) : bool :=
  let rest := match rest with "/"%char :: rest => rest | _ => rest end in
  let name := span isalpha rest in
  negb (bool_decide (name = 0%nat)) &&
  head_is (λ c, md_space c || (c =c "/"%char) || (c =c ">"%char)) (drop name rest) &&
  contains kTags (tolower <$> take name rest).
Fixpoint has_inline_html_tag (html : bytes) : bool :=
  match html with
  | [] => false
  | c :: rest => (c =c "<"%char) && inline_tag_at rest || has_inline_html_tag rest
  end.

Example inline_small :
  markdown_inline_html (lit "a **b _c_** `d*` \* $x_1$") = lit "<p>a <strong>b <em>c</em></strong> <code>d*</code> * $x_1$</p>".
Proof. vm_compute. reflexivity. Qed.
Example inline_stars : markdown_inline_html (lit "***a** b*") = lit "<p><em><strong>a</strong> b</em></p>".
Proof. vm_compute. reflexivity. Qed.
Example inline_plain : markdown_inline_html (lit "2 \* 3 * 4") = lit "2 * 3 * 4".
Proof. vm_compute. reflexivity. Qed.
(** A floor outlives the stack it was taken from: [b_] closes nothing while
    one delimiter is open, so the later pair of underscores is not seen. *)
Example stale_floor : markdown_inline_html (lit "*a b_ c* _d_") = lit "<p><em>a b_ c</em> _d_</p>".
Proof. vm_compute. reflexivity. Qed.

(** * The tags are nested *)

(** An emphasis tag: it opens or closes one ([1]) or two ([2]) delimiters. *)
Inductive Mark := Open (used : nat) | Close (used : nat).
Definition print_mark (m : Mark) : bytes := match m with Open used => open_tag used | Close used => close_tag used end.
Definition print_marks (ms : list Mark) : bytes := mjoin (print_mark <$> ms).

(** Reading tags with a stack of the open ones. *)
Fixpoint read_marks (open : list nat) (ms : list Mark) : option (list nat) :=
  match ms with
  | [] => Some open
  | Open used :: ms => read_marks (used :: open) ms
  | Close used :: ms =>
      match open with
      | top :: open => if bool_decide (top = used) then read_marks open ms else None
      | [] => None
      end
  end.
(** Every tag is closed by its own kind, inside what is open around it. *)
Definition balanced (ms : list Mark) : Prop := ∀ open, read_marks open ms = Some open.

Lemma read_marks_app open ms ms' :
  read_marks open (ms ++ ms') = read_marks open ms ≫= λ open', read_marks open' ms'.
Proof.
  revert open. induction ms as [|[used|used] ms IH]; intros open; cbn; [done|apply IH|].
  destruct open as [|top open]; [done|]. case_bool_decide; [apply IH|done].
Qed.
Lemma balanced_nil : balanced [].
Proof. done. Qed.
(** A pair around what is balanced, wherever it stands. *)
Lemma balanced_wrap x seg used :
  balanced (x ++ seg) → balanced seg → balanced (x ++ Open used :: seg ++ [Close used]).
Proof.
  intros Hx Hs open. specialize (Hx open). rewrite read_marks_app in Hx |- *.
  destruct (read_marks open x) as [open'|]; [|done]. cbn in Hx |- *. rewrite Hs in Hx. injection Hx as ->.
  rewrite read_marks_app, Hs. cbn. by rewrite bool_decide_eq_true_2.
Qed.

(** The marks of a piece: the closing ones, then the opening ones. *)
Abbreviation Marks := (list Mark * list Mark)%type.
Definition weight (ms : list Mark) : nat :=
  foldr (λ m n, (match m with Open used | Close used => used end + n)%nat) 0%nat ms.
(** A delimiter is used up by its tags, or left as text. *)
Definition marked (p : Piece) (m : Marks) : Prop :=
  pe_close_tags p = print_marks m.1 ∧ pe_open_tags p = print_marks m.2 ∧
  (pe_count p + weight m.1 + weight m.2 = pe_orig p)%nat.

Definition word (G : list Marks) : list Mark := mjoin ((λ m, m.1 ++ m.2) <$> G).
(** From the opening tags of piece [q] on. *)
Definition word_from (G : list Marks) (q : nat) : list Mark :=
  default [] (snd <$> G !! q) ++ word (drop (S q) G).

Lemma word_app G G' : word (G ++ G') = word G ++ word G'.
Proof. unfold word. by rewrite fmap_app, join_app. Qed.
Lemma word_cons m G : word (m :: G) = m.1 ++ m.2 ++ word G.
Proof. unfold word. cbn. by rewrite <- app_assoc. Qed.
Lemma word_from_app A m B : word_from (A ++ m :: B) (length A) = m.2 ++ word B.
Proof.
  unfold word_from. rewrite list_lookup_middle by done. cbn [fmap option_fmap option_map default].
  change (m :: B) with ([m] ++ B). rewrite app_assoc, drop_app_length'; [done|]. rewrite length_app. cbn. lia.
Qed.
Lemma word_from_lt A B q : (q < length A)%nat → word_from (A ++ B) q = word_from A q ++ word B.
Proof.
  intros Hq. unfold word_from. rewrite lookup_app_l, drop_app_le by lia. by rewrite word_app, app_assoc.
Qed.

Definition add_open (used : nat) (m : Marks) : Marks := (m.1, Open used :: m.2).
Definition add_close (used : nat) (m : Marks) : Marks := (m.1 ++ [Close used], m.2).
Definition add_pair (used index p : nat) (G : list Marks) : list Marks :=
  alter (add_close used) index (alter (add_open used) p G).

Lemma alter_middle {A} (f : A → A) (l : list A) x r : alter f (length l) (l ++ x :: r) = l ++ f x :: r.
Proof. induction l as [|y l IH]; [done|]. cbn. by f_equal. Qed.

(** How a pair at [p] and [index] changes the words: the segment between them
    is wrapped, what comes before is kept. *)
Lemma add_pair_words used index p G ci :
  (p < index)%nat → G !! index = Some (ci, []) → word (drop (S index) G) = [] →
  ∃ seg, word_from G p = seg ∧ word_from (add_pair used index p G) p = Open used :: seg ++ [Close used] ∧
    (∃ x, word G = x ++ seg ∧ word (add_pair used index p G) = x ++ Open used :: seg ++ [Close used]) ∧
    ∀ q, (q < p)%nat → ∃ x, word_from G q = x ++ seg ∧
      word_from (add_pair used index p G) q = x ++ Open used :: seg ++ [Close used].
Proof.
  intros Hp Hi Hrest.
  destruct (lookup_lt_is_Some_2 G p) as [[cp op] Hgp]; [apply lookup_lt_Some in Hi; lia|].
  assert (∃ A B C, G = A ++ (cp, op) :: B ++ (ci, []) :: C ∧ length A = p ∧ (p + S (length B) = index)%nat)
    as (A & B & C & -> & HA & HB).
  { exists (take p G), (take (index - S p) (drop (S p) G)), (drop (S index) G).
    assert (Hlen := lookup_lt_Some _ _ _ Hi). split_and!; [|rewrite length_take; lia|rewrite length_take, length_drop; lia].
    rewrite <- (take_drop_middle G p (cp, op) Hgp) at 1. do 2 f_equal.
    rewrite <- (take_drop_middle (drop (S p) G) (index - S p) (ci, [])) at 1;
      [|rewrite lookup_drop; rewrite <- Hi; f_equal; lia].
    do 2 f_equal. rewrite drop_drop. f_equal. lia. }
  assert (HC : word C = []).
  { replace (S index) with (length (A ++ (cp, op) :: B ++ [(ci, [])])) in Hrest
      by (rewrite !length_app; cbn; rewrite length_app; cbn; lia).
    replace (A ++ (cp, op) :: B ++ (ci, []) :: C) with ((A ++ (cp, op) :: B ++ [(ci, [])]) ++ C) in Hrest
      by (by rewrite <- app_assoc; cbn; rewrite <- app_assoc).
    by rewrite drop_app_length in Hrest. }
  assert (Hadd : add_pair used index p (A ++ (cp, op) :: B ++ (ci, []) :: C) =
    A ++ (cp, Open used :: op) :: B ++ (ci ++ [Close used], []) :: C).
  { unfold add_pair. subst p index. rewrite alter_middle, alter_app_r. f_equal.
    change (add_open used (cp, op) :: B ++ (ci, []) :: C) with ((cp, Open used :: op) :: B ++ (ci, []) :: C).
    cbn [alter list_alter]. f_equal. exact (alter_middle (add_close used) B (ci, []) C). }
  rewrite Hadd. subst p. clear Hrest Hadd Hi Hgp.
  exists (op ++ word B ++ ci). rewrite !word_from_app, !word_app, !word_cons, !word_app, !word_cons, HC. cbn [fst snd].
  rewrite !app_nil_r. split_and!; [done|by rewrite <- !app_assoc| |].
  - exists (word A ++ cp). split; by rewrite <- !app_assoc.
  - intros q Hq. rewrite !word_from_lt by done. rewrite !word_cons, !word_app, !word_cons, HC. cbn [fst snd].
    exists (word_from A q ++ cp). rewrite !app_nil_r. split; by rewrite <- !app_assoc.
Qed.

(** While the delimiters at [index] close what is open: every stacked delimiter
    is followed by balanced tags. *)
Record emph_inv (index : nat) (pieces : list Piece) (stack : list nat) (G : list Marks) : Prop := {
  ei_marked : Forall2 marked pieces G;
  ei_here : ∃ ci, G !! index = Some (ci, []);
  ei_later : Forall (λ m, m = ([], [])) (drop (S index) G);
  ei_below : ∀ s p, stack !! s = Some p → (p < index)%nat;
  ei_sorted : ∀ s s' p p', (s < s')%nat → stack !! s = Some p → stack !! s' = Some p' → (p < p')%nat;
  ei_word : balanced (word G);
  ei_from : ∀ s p, stack !! s = Some p → balanced (word_from G p) }.

Lemma word_empty G : Forall (λ m, m = ([], [])) G → word G = [].
Proof. induction 1 as [|m G -> _ IH]; [done|]. by rewrite word_cons. Qed.

Lemma find_opener_spec pieces stack closer floor s found :
  find_opener pieces stack closer floor s = Some found → (s ≤ length stack)%nat →
  ∃ p, stack !! found = Some p ∧ opens (piece_at pieces p) closer = true.
Proof.
  induction s as [|s IH]; cbn [find_opener]; [done|]. case_bool_decide; [|done].
  destruct (opens _ _) eqn:E; [|intros; apply IH; [done|lia]].
  intros [= <-] Hs. destruct (lookup_lt_is_Some_2 stack s) as [p Hp]; [lia|]. exists p. by rewrite Hp in E.
Qed.

Lemma print_marks_snoc ms used : print_marks (ms ++ [Close used]) = print_marks ms ++ close_tag used.
Proof. unfold print_marks. rewrite fmap_app, join_app. cbn. by rewrite app_nil_r. Qed.
Lemma weight_snoc ms used : weight (ms ++ [Close used]) = (weight ms + used)%nat.
Proof. unfold weight. induction ms as [|[] ms IH]; cbn in *; lia. Qed.
Lemma marked_open used p m : (used ≤ pe_count p)%nat → marked p m → marked (wrap_opener used p) (add_open used m).
Proof.
  intros Hu (Hc & Ho & Hn). unfold marked, wrap_opener, add_open.
  cbn [fst snd pe_close_tags pe_open_tags pe_count pe_orig]. split_and!; [done|by rewrite Ho|].
  change (weight (Open used :: m.2)) with (used + weight m.2)%nat. lia.
Qed.
Lemma marked_close used p m : (used ≤ pe_count p)%nat → marked p m → marked (wrap_closer used p) (add_close used m).
Proof.
  intros Hu (Hc & Ho & Hn). unfold marked, wrap_closer, add_close.
  cbn [fst snd pe_close_tags pe_open_tags pe_count pe_orig]. rewrite print_marks_snoc, weight_snoc, Hc.
  split_and!; [done|done|lia].
Qed.

Lemma match_pair_inv index found p pieces stack G pieces' stack' :
  emph_inv index pieces stack G → stack !! found = Some p →
  pe_count (piece_at pieces p) ≠ 0%nat → pe_count (piece_at pieces index) ≠ 0%nat →
  match_pair index found pieces stack = (pieces', stack') →
  ∃ G', emph_inv index pieces' stack' G'.
Proof.
  intros [Hm [ci Hi] Hl Hb Hs Hw Hf] Hp Hop Hcl. unfold match_pair. rewrite Hp.
  change (default 0%nat (Some p)) with p. set (used := if _ && _ then 2%nat else 1%nat). intros [= <- <-].
  assert (Hused : (used ≤ pe_count (piece_at pieces p) ∧ used ≤ pe_count (piece_at pieces index))%nat).
  { unfold used. do 2 case_bool_decide; cbn; lia. }
  clearbody used. destruct Hused as [Hu1 Hu2].
  pose proof (Hb _ _ Hp) as Hlt.
  destruct (add_pair_words used index p G ci Hlt Hi (word_empty _ Hl)) as (seg & Hseg & Hseg' & (x & Hx & Hx') & Hq).
  pose proof (Hf _ _ Hp) as Hbal. rewrite Hseg in Hbal. exists (add_pair used index p G).
  set (k := if bool_decide _ then found else S found).
  assert (Hk : (k ≤ S found)%nat) by (unfold k; case_bool_decide; lia). split.
  - unfold add_pair. apply Forall2_alter; [apply Forall2_alter; [done|]|].
    + intros x1 m1 H1 _ Hm1. apply marked_open; [|done]. unfold piece_at in Hu1. by rewrite H1 in Hu1.
    + intros x1 m1 H1 _ Hm1. apply marked_close; [|done]. rewrite list_lookup_alter_ne in H1 by lia.
      unfold piece_at in Hu2. by rewrite H1 in Hu2.
  - exists (ci ++ [Close used]). unfold add_pair. rewrite list_lookup_alter_eq, list_lookup_alter_ne, Hi by lia. done.
  - unfold add_pair. apply Forall_lookup. intros j m Hj. rewrite lookup_drop, !list_lookup_alter_ne in Hj by lia.
    rewrite Forall_lookup in Hl. apply (Hl j). by rewrite lookup_drop.
  - intros s q [Hsq _]%lookup_take_Some. by eapply Hb.
  - intros s s' q q' Hss [Hsq _]%lookup_take_Some [Hsq' _]%lookup_take_Some. by eapply (Hs s s').
  - rewrite Hx'. apply balanced_wrap; [by rewrite <- Hx|done].
  - intros s q [Hsq Hsk]%lookup_take_Some. destruct (decide (s = found)) as [->|Hne].
    + rewrite Hp in Hsq. injection Hsq as <-. rewrite Hseg'. by apply (balanced_wrap []).
    + destruct (Hq q) as (y & Hy & ->); [eapply (Hs s found); [lia|done..]|].
      apply balanced_wrap; [rewrite <- Hy; by eapply Hf|done].
Qed.

Lemma match_pairs_inv fuel index floor matched pieces stack G pieces' stack' matched' :
  emph_inv index pieces stack G →
  match_pairs fuel index floor matched pieces stack = (pieces', stack', matched') →
  ∃ G', emph_inv index pieces' stack' G'.
Proof.
  revert matched pieces stack G. induction fuel as [|fuel IH]; intros matched pieces stack G Hinv; cbn [match_pairs].
  { intros [= <- <- _]. by exists G. }
  case_bool_decide as Hcount; [intros [= <- <- _]; by exists G|].
  destruct (find_opener _ _ _ _ _) as [found|] eqn:Ef; [|intros [= <- <- _]; by exists G].
  apply find_opener_spec in Ef as (p & Hp & Hopens); [|done].
  destruct (match_pair _ _ _ _) as [pieces1 stack1] eqn:E1.
  assert (∃ G1, emph_inv index pieces1 stack1 G1) as [G1 H1].
  { eapply match_pair_inv; [apply Hinv|apply Hp| |done|apply E1].
    intros E. unfold opens in Hopens. rewrite E in Hopens. cbn in Hopens. by rewrite andb_false_r in Hopens. }
  intros Hrest. by apply (IH true pieces1 stack1 G1).
Qed.

(** Before each piece is looked at: nothing from it on has tags. *)
Definition emphasis_inv (index : nat) (s : Emphasis) : Prop :=
  ∃ G, Forall2 marked (em_pieces s) G ∧ Forall (λ m, m = ([], [])) (drop index G) ∧
    (∀ k p, em_stack s !! k = Some p → (p < index)%nat) ∧
    (∀ k k' p p', (k < k')%nat → em_stack s !! k = Some p → em_stack s !! k' = Some p' → (p < p')%nat) ∧
    balanced (word G) ∧ (∀ k p, em_stack s !! k = Some p → balanced (word_from G p)).

Lemma emphasis_open index s :
  emphasis_inv index s → (index < length (em_pieces s))%nat → ∃ G, emph_inv index (em_pieces s) (em_stack s) G.
Proof.
  intros (G & Hm & Hl & Hb & Hs & Hw & Hf) Hi. exists G.
  rewrite (Forall2_length _ _ _ Hm) in Hi. destruct (lookup_lt_is_Some_2 G index Hi) as [m Hm'].
  rewrite (drop_S _ _ _ Hm') in Hl. apply Forall_cons in Hl as [-> Hl].
  split; try done. by exists [].
Qed.

(** Afterwards, with the piece on the stack or not. *)
Lemma emph_next index pieces stack G push :
  emph_inv index pieces stack G →
  ∀ bottom, emphasis_inv (S index) (mk_Emphasis pieces (if push : bool then stack ++ [index] else stack) bottom).
Proof.
  intros [Hm [ci Hi] Hl Hb Hs Hw Hf] bottom. exists G. cbn [em_pieces em_stack].
  assert (Hat : ∀ k p, (if push then stack ++ [index] else stack) !! k = Some p →
    stack !! k = Some p ∨ k = length stack ∧ p = index).
  { intros k p Hk. destruct push; [|by left]. apply lookup_app_Some in Hk as [|[Hk E]]; [by left|].
    apply list_lookup_singleton_Some in E as [? <-]. right. split; [lia|done]. }
  split_and!; [done|done| | |done|].
  - intros k p [Hk|[_ ->]]%Hat; [apply Hb in Hk; lia|lia].
  - intros k k' p p' Hlt [Hk|[-> ->]]%Hat [Hk'|[-> ->]]%Hat; [by eapply (Hs k k')|by eapply Hb| |lia].
    apply lookup_lt_Some in Hk'. lia.
  - intros k p [Hk|[_ ->]]%Hat; [by eapply Hf|]. unfold word_from. rewrite Hi. cbn.
    rewrite (word_empty _ Hl). apply balanced_nil.
Qed.

Lemma length_match_pairs fuel index floor matched pieces stack :
  length (match_pairs fuel index floor matched pieces stack).1.1 = length pieces.
Proof.
  revert matched pieces stack. induction fuel as [|fuel IH]; intros matched pieces stack; cbn [match_pairs]; [done|].
  case_bool_decide; [done|]. destruct (find_opener _ _ _ _ _); [|done].
  unfold match_pair. rewrite IH. by rewrite !length_alter.
Qed.

Lemma emphasis_step_inv index s :
  emphasis_inv index s → (index < length (em_pieces s))%nat →
  emphasis_inv (S index) (emphasis_step s index) ∧ length (em_pieces (emphasis_step s index)) = length (em_pieces s).
Proof.
  intros Hinv Hi. destruct (emphasis_open index s Hinv Hi) as [G HG]. unfold emphasis_step.
  destruct (negb _); [split; [|done]; destruct s; by apply (emph_next index _ _ G false)|].
  set (s1 := if pe_can_close _ then close_step index s else s).
  assert (∃ G1, emph_inv index (em_pieces s1) (em_stack s1) G1) as [G1 H1].
  { unfold s1. destruct (pe_can_close _); [|by exists G]. unfold close_step.
    destruct (match_pairs _ _ _ _ _ _) as [[pieces stack] matched] eqn:E. by eapply match_pairs_inv. }
  assert (Hlen : length (em_pieces s1) = length (em_pieces s)).
  { unfold s1. destruct (pe_can_close _); [|done]. unfold close_step.
    pose proof (length_match_pairs (S (pe_count (piece_at (em_pieces s) index))) index
      (default 0%nat (em_bottom s !! (pe_ch (piece_at (em_pieces s) index), pe_can_open (piece_at (em_pieces s) index),
         (pe_orig (piece_at (em_pieces s) index) mod 3)%nat))) false (em_pieces s) (em_stack s)) as H.
    by destruct (match_pairs _ _ _ _ _ _) as [[pieces stack] matched]. }
  clearbody s1. destruct (_ && _); cbn [em_pieces]; (split; [|done]).
  - by apply (emph_next index _ _ G1 true).
  - destruct s1. by apply (emph_next index _ _ G1 false).
Qed.

(** ** The scanner *)

(** A piece as the scanner leaves it: no tag, all its delimiters. *)
Definition untouched (p : Piece) : Prop := pe_open_tags p = [] ∧ pe_close_tags p = [] ∧ pe_count p = pe_orig p.

Lemma flush_untouched buffer pieces :
  Forall untouched pieces → Forall untouched (flush_buffer buffer pieces).
Proof. intros H. unfold flush_buffer. case_bool_decide; [done|]. apply Forall_app_2; [done|by repeat constructor]. Qed.

Lemma scan_step_untouched text s :
  Forall untouched (sc_pieces s) →
  match scan_step text s with inl s' => Forall untouched (sc_pieces s') | inr pieces => Forall untouched pieces end.
Proof.
  intros Hs. unfold scan_step. destruct (text !! sc_i s) as [c|]; [|by apply flush_untouched].
  destruct (scan_literal text s c) as [s'|] eqn:El.
  { unfold scan_literal in El. destruct (_ || _); [|done]. by apply bind_Some in El as (stop & _ & [= <-]). }
  destruct (c =c "`"%char).
  { unfold scan_code. by destruct (closing_run _ _ _ _). }
  destruct (if is_backslash c then scan_escape text s else None) as [s'|] eqn:Ee.
  { destruct (is_backslash c); [|done]. unfold scan_escape in Ee. destruct (text !! _) as [next|]; [|done].
    destruct (next =c c_nl); [by injection Ee as <-|]. destruct (md_punct next); [by injection Ee as <-|done]. }
  destruct (if c =c "<"%char then html_tag_end text (sc_i s) else None); [done|].
  destruct (_ || _); [|by destruct (c =c c_nl)].
  cbn [sc_pieces scan_delimiter]. apply Forall_app_2; [by apply flush_untouched|by repeat constructor].
Qed.
Lemma scan_pieces_untouched text : Forall untouched (scan_pieces text).
Proof.
  apply (run_loop_inv (λ s, Forall untouched (sc_pieces s)) (Forall untouched)); [|constructor|constructor].
  apply scan_step_untouched.
Qed.

Lemma first_from_ge test from count j : first_from test from count = Some j → (from ≤ j)%nat.
Proof.
  revert from. induction count as [|count IH]; intros from; cbn; [done|].
  destruct (test from); [intros [= ->]; lia|]. intros H%IH. lia.
Qed.
Lemma dollar_end_ge s prev i j : dollar_end s prev i = Some j → (i < j)%nat.
Proof.
  revert prev i. induction s as [|c s IH]; intros prev i; cbn; [done|].
  destruct (c =c c_nl); [done|]. destruct (c =c _); [|intros H%IH; lia].
  destruct prev as [p|]; [|done]. destruct (is_backslash p); [intros H%IH; lia|intros [= <-]; lia].
Qed.
Lemma scan_tag_ge quote s i j : scan_tag quote s i = Some j → (i < j)%nat.
Proof.
  revert quote i. induction s as [|c s IH]; intros quote i; cbn; [done|].
  destruct quote as [q|]; [intros H%IH; lia|].
  destruct (_ || _); [intros H%IH; lia|]. destruct (_ =c _); [intros [= <-]; lia|].
  destruct (_ || _); [done|intros H%IH; lia].
Qed.
Lemma find_ge needle s from j : find needle s from = Some j → (from ≤ j)%nat.
Proof. intros H. apply find_lt in H. lia. Qed.
Lemma closing_run_ge fuel text run at_ j : closing_run fuel text run at_ = Some j → (at_ ≤ j)%nat.
Proof.
  revert at_. induction fuel as [|fuel IH]; intros at_; cbn; [done|].
  destruct (find_char _ _ _) as [found|] eqn:E; [|done]. apply find_char_lt in E.
  case_bool_decide; [intros [= ->]; lia|]. intros Hj%IH. lia.
Qed.

Lemma literal_end_ge text i stop : literal_end text i = Some stop → (i < stop)%nat.
Proof.
  unfold literal_end. destruct (escaped text i); [done|].
  destruct (starts_with _ _). { intros (j & Hj%first_from_ge & ->)%fmap_Some. lia. }
  destruct (head_is _ _). { intros H%dollar_end_ge. lia. }
  destruct (starts_with _ _). { intros (j & Hj%find_ge & ->)%fmap_Some. lia. }
  destruct (starts_with _ _). { intros (j & Hj%find_ge & ->)%fmap_Some. lia. }
  unfold code_end. destruct (_ && _); [|done].
  intros (gt & _ & H)%bind_Some. apply bind_Some in H as (close & _ & [= <-]). lia.
Qed.
Lemma html_tag_end_ge text i stop : html_tag_end text i = Some stop → (i < stop)%nat.
Proof.
  unfold html_tag_end. destruct (drop i text) as [|c rest]; [done|].
  destruct c as [[] [] [] [] [] [] [] []]; try done.
  destruct (match rest with "/"%char :: r => (r, (i + 2)%nat) | _ => (rest, S i) end) as [r j] eqn:E.
  assert (i < j)%nat as Hij.
  { destruct rest as [|d rest]; [injection E as _ <-; lia|].
    destruct d as [[] [] [] [] [] [] [] []]; injection E as _ <-; lia. }
  destruct (head_is _ _); [|done]. intros H%scan_tag_ge. lia.
Qed.

(** Every round consumes a byte. *)
Lemma scan_step_lt text s s' : scan_step text s = inl s' → (sc_i s < sc_i s')%nat.
Proof.
  unfold scan_step. destruct (text !! sc_i s) as [c|] eqn:Hc; [|done]. intros [= <-].
  assert (Hrun : (0 < span (Ascii.eqb c) (drop (sc_i s) text))%nat).
  { rewrite (drop_S _ _ _ Hc). cbn. rewrite Ascii.eqb_refl. lia. }
  clear Hc.
  destruct (scan_literal text s c) as [s'|] eqn:El.
  { unfold scan_literal in El. destruct (_ || _); [|done].
    by apply bind_Some in El as (stop & Hstop%literal_end_ge & [= <-]). }
  destruct (Ascii.eqb_spec c "`"%char) as [->|_].
  { unfold scan_code. destruct (closing_run _ _ _ _) as [close|] eqn:E; cbn [sc_i emit]; [|lia].
    apply closing_run_ge in E. lia. }
  destruct (if is_backslash c then scan_escape text s else None) as [s'|] eqn:Ee.
  { destruct (is_backslash c); [|done]. unfold scan_escape in Ee. destruct (text !! _) as [next|]; [|done].
    destruct (next =c c_nl); [injection Ee as <-; cbn; lia|]. destruct (md_punct next); [injection Ee as <-; cbn; lia|done]. }
  destruct (if c =c "<"%char then html_tag_end text (sc_i s) else None) as [stop|] eqn:Et.
  { destruct (c =c "<"%char); [|done]. by apply html_tag_end_ge in Et. }
  destruct (_ || _); [cbn; lia|]. destruct (c =c c_nl); cbn; lia.
Qed.
Lemma scan_step_progress text s s' :
  scan_step text s = inl s' → (length text - sc_i s' < length text - sc_i s)%nat.
Proof.
  intros E. pose proof (scan_step_lt _ _ _ E) as Hlt. unfold scan_step in E.
  destruct (text !! sc_i s) eqn:Hc; [|done]. apply lookup_lt_Some in Hc. lia.
Qed.

(** Whatever Markdown a paragraph holds, the emphasis tags its delimiters turn
    into are properly nested: read in output order each closes the tag of its own
    kind opened last, and none is left open; and the delimiters of a piece are
    in its tags or left as text. *)
Theorem emphasis_nested text :
  ∃ marks : list Marks,
    Forall2 marked (process_emphasis (scan_pieces text)) marks ∧ balanced (mjoin ((λ m, m.1 ++ m.2) <$> marks)).
Proof.
  pose proof (scan_pieces_untouched text) as Hu. set (pieces := scan_pieces text) in *.
  set (s0 := mk_Emphasis pieces [] ∅).
  assert (H : ∀ n, (n ≤ length pieces)%nat →
    emphasis_inv n (foldl emphasis_step s0 (seq 0 n)) ∧
    length (em_pieces (foldl emphasis_step s0 (seq 0 n))) = length pieces).
  { induction n as [|n IH]; intros Hn.
    - split; [|done]. exists ((λ _, ([], [])) <$> pieces). cbn [seq foldl em_pieces em_stack s0]. split_and!; try done.
      + apply Forall2_fmap_r, Forall_Forall2_diag. eapply Forall_impl; [apply Hu|].
        intros p (Ho & Hc & He). unfold marked. rewrite Ho, Hc. cbn. split_and!; [done|done|lia].
      + rewrite drop_0. apply Forall_fmap, Forall_forall. done.
      + rewrite word_empty; [done|]. apply Forall_fmap, Forall_forall. done.
    - destruct IH as [IH Hlen]; [lia|]. rewrite seq_S, foldl_app. cbn [foldl Nat.add].
      destruct (emphasis_step_inv n _ IH) as [H1 H2]; [lia|]. split; [done|]. by rewrite H2. }
  destruct (H (length pieces)) as [(G & Hm & _ & _ & _ & Hw & _) _]; [lia|].
  exists G. by split.
Qed.

(** * Emphasis written and read back *)

(** A line of inline content, its parts in order: words, a code span, or what is
    marked with [*] or [_], once or twice. *)
Inductive Inlines :=
  | Done
  | Words (text : bytes) (rest : Inlines)
  | Code (body : bytes) (rest : Inlines)
  | Marked (under strong : bool) (inner rest : Inlines).
Definition mark_char (under : bool) : ascii := if under then "_"%char else "*"%char.
Definition mark_size (strong : bool) : nat := if strong then 2%nat else 1%nat.
Definition mark_run (under strong : bool) : bytes := replicate (mark_size strong) (mark_char under).

(** As Markdown writes it, and the HTML it means. *)
Fixpoint print_inlines (t : Inlines) : bytes :=
  match t with
  | Done => []
  | Words text rest => text ++ print_inlines rest
  | Code body rest => "`"%char :: body ++ "`"%char :: print_inlines rest
  | Marked under strong inner rest =>
      mark_run under strong ++ print_inlines inner ++ mark_run under strong ++ print_inlines rest
  end.
Fixpoint inlines_html (t : Inlines) : bytes :=
  match t with
  | Done => []
  | Words text rest => escape_into text ++ inlines_html rest
  | Code body rest => lit "<code>" ++ escape_into body ++ lit "</code>" ++ inlines_html rest
  | Marked under strong inner rest =>
      (if strong then lit "<strong>" else lit "<em>") ++ inlines_html inner ++
      (if strong then lit "</strong>" else lit "</em>") ++ inlines_html rest
  end.
Fixpoint has_mark (t : Inlines) : bool :=
  match t with
  | Done => false
  | Words _ rest | Code _ rest => has_mark rest
  | Marked _ _ _ _ => true
  end.

Definition plain_char (c : ascii) : bool := negb (contains_char c (c_nl :: lit "$\<`*_")).
Definition code_char (c : ascii) : bool := negb ((c =c "`"%char) || (c =c c_nl)).
(** The characters at the two ends of a text between others; a space where there is none. *)
Definition char_before (pre : bytes) : ascii := default " "%char (last pre).
Definition char_after (post : bytes) : ascii := default " "%char (head post).
(** A mark can stand between the character outside it and the one inside: the
    inside is no space, and the outside is one, or punctuation next to a letter. *)
Definition flanked (outside inside : ascii) : bool :=
  negb (md_space inside) && (md_space outside || md_punct outside && negb (md_punct inside)).
(** What can be written between the two characters: words without a character
    Markdown reads, code that is not empty and does not start with a space, and
    marks with something in them, not next to another of their own kind and
    flanked on both sides. *)
Fixpoint writable (before after : ascii) (t : Inlines) : bool :=
  match t with
  | Done => true
  | Words text rest =>
      negb (text =b []) && forallb plain_char text && writable (char_before text) after rest
  | Code body rest =>
      negb (body =b []) && forallb code_char body && negb (head_is is_space_char body) &&
      negb (char_after (print_inlines rest ++ [after]) =c "`"%char) && writable "`"%char after rest
  | Marked under strong inner rest =>
      let c := mark_char under in
      let first := char_after (print_inlines inner) in
      let last := char_before (print_inlines inner) in
      let next := char_after (print_inlines rest ++ [after]) in
      negb (print_inlines inner =b []) &&
      negb (before =c c) && negb (first =c c) && negb (last =c c) && negb (next =c c) &&
      flanked before first && flanked next last &&
      writable c c inner && writable c after rest
  end.

(** ** The pieces *)

Definition flushed (buffer : bytes) : list Piece := if buffer =b [] then [] else [html_piece buffer].
Definition opening (under strong : bool) : Piece :=
  mk_Piece [] true (mark_char under) (mark_size strong) (mark_size strong) true false [] [].
Definition closing (under strong : bool) : Piece :=
  mk_Piece [] true (mark_char under) (mark_size strong) (mark_size strong) false true [] [].
Definition opened (under strong : bool) : Piece :=
  mk_Piece [] true (mark_char under) 0 (mark_size strong) true false
    (if strong then lit "<strong>" else lit "<em>") [].
Definition closed (under strong : bool) : Piece :=
  mk_Piece [] true (mark_char under) 0 (mark_size strong) false true []
    (if strong then lit "</strong>" else lit "</em>").
(** The pieces of a line behind what is buffered, its marks as [o] and [c] make them. *)
Fixpoint pieces_of (o c : bool → bool → Piece) (buffer : bytes) (t : Inlines) : list Piece :=
  match t with
  | Done => flushed buffer
  | Words text rest => pieces_of o c (buffer ++ escape_into text) rest
  | Code body rest => pieces_of o c (buffer ++ lit "<code>" ++ escape_into body ++ lit "</code>") rest
  | Marked under strong inner rest =>
      flushed buffer ++ o under strong :: pieces_of o c [] inner ++ c under strong :: pieces_of o c [] rest
  end.

Lemma length_pieces_of o c o' c' buffer t : length (pieces_of o c buffer t) = length (pieces_of o' c' buffer t).
Proof.
  revert buffer. induction t as [|text t IH|body t IH|under strong t1 IH1 t2 IH2]; intros buffer; cbn; try done.
  by rewrite !length_app, !length_cons, !length_app, !length_cons, IH1, IH2.
Qed.

Lemma html_of_flushed buffer : mjoin (piece_html <$> flushed buffer) = buffer.
Proof. unfold flushed. case_bool_decide as E; [by rewrite E|]. cbn. by rewrite app_nil_r. Qed.
Lemma html_of_pieces buffer t :
  mjoin (piece_html <$> pieces_of opened closed buffer t) = buffer ++ inlines_html t.
Proof.
  revert buffer. induction t as [|text t IH|body t IH|under strong t1 IH1 t2 IH2]; intros buffer; cbn [pieces_of inlines_html].
  - by rewrite html_of_flushed, app_nil_r.
  - by rewrite IH, <- app_assoc.
  - by rewrite IH, <- !app_assoc.
  - rewrite fmap_app, fmap_cons, fmap_app, fmap_cons, join_app.
    change (mjoin (?x :: ?l)) with (x ++ mjoin l). rewrite join_app.
    change (mjoin (?x :: ?l)) with (x ++ mjoin l). rewrite html_of_flushed, IH1, IH2.
    unfold piece_html. cbn [opened closed pe_delim pe_count pe_open_tags pe_close_tags replicate app].
    by rewrite app_nil_r.
Qed.

(** ** Matching *)

Lemma piece_at_app done p rest : piece_at (done ++ p :: rest) (length done) = p.
Proof. unfold piece_at. by rewrite list_lookup_middle. Qed.

(** A closing mark takes the topmost opening one and has nothing left. *)
Lemma match_own n index found pieces stack pieces' stack' :
  n ≠ 0%nat → pe_count (piece_at pieces index) = n →
  find_opener pieces stack (piece_at pieces index) 0 (length stack) = Some found →
  match_pair index found pieces stack = (pieces', stack') →
  pe_count (piece_at pieces' index) = 0%nat →
  match_pairs (S n) index 0 false pieces stack = (pieces', stack', true).
Proof.
  intros Hn Hc Hf Hm Hz. destruct n as [|n]; [done|]. cbn [match_pairs]. rewrite Hc, bool_decide_eq_false_2 by done.
  rewrite Hf, Hm. rewrite bool_decide_eq_true_2 by done. done.
Qed.

(** What is not a mark is passed over. *)
Lemma emphasis_flushed buffer before after stack :
  foldl emphasis_step (mk_Emphasis (before ++ flushed buffer ++ after) stack ∅) (seq (length before) (length (flushed buffer))) =
  mk_Emphasis (before ++ flushed buffer ++ after) stack ∅.
Proof.
  unfold flushed. case_bool_decide; [done|]. cbn [length seq foldl app]. unfold emphasis_step. cbn [em_pieces].
  by rewrite piece_at_app.
Qed.
(** An opening mark goes on the stack. *)
Lemma push_own under strong before after stack :
  emphasis_step (mk_Emphasis (before ++ opening under strong :: after) stack ∅) (length before) =
  mk_Emphasis (before ++ opening under strong :: after) (stack ++ [length before]) ∅.
Proof. unfold emphasis_step. cbn [em_pieces]. rewrite piece_at_app.
  cbn [opening pe_delim pe_can_close negb em_pieces]. rewrite piece_at_app. by destruct strong. Qed.

(** A closing mark over its own opening one, what is between already matched. *)
Lemma close_own under strong before mid after stack :
  emphasis_step
    (mk_Emphasis (before ++ opening under strong :: mid ++ closing under strong :: after)
       (stack ++ [length before]) ∅)
    (length (before ++ opening under strong :: mid)) =
  mk_Emphasis (before ++ opened under strong :: mid ++ closed under strong :: after) stack ∅.
Proof.
  set (pieces := before ++ opening under strong :: mid ++ closing under strong :: after).
  set (o := length before). set (c := length (before ++ opening under strong :: mid)).
  assert (Hpc : pieces = (before ++ opening under strong :: mid) ++ closing under strong :: after).
  { unfold pieces. by rewrite <- app_assoc. }
  assert (Ho : piece_at pieces o = opening under strong) by apply piece_at_app.
  assert (Hc : piece_at pieces c = closing under strong) by (rewrite Hpc; apply piece_at_app).
  assert (Hpair : match_pair c (length stack) pieces (stack ++ [o]) =
    (before ++ opened under strong :: mid ++ closed under strong :: after, stack)).
  { unfold match_pair. rewrite list_lookup_middle by done. change (default 0%nat (Some o)) with o.
    rewrite Ho, Hc. f_equal.
    - unfold pieces, o. rewrite alter_middle.
      replace (before ++ wrap_opener ?[u] _ :: mid ++ closing under strong :: after)
        with ((before ++ opened under strong :: mid) ++ closing under strong :: after)
        by (rewrite <- app_assoc; by destruct strong).
      replace c with (length (before ++ opened under strong :: mid)) by (unfold c; by rewrite !length_app).
      rewrite alter_middle, <- app_assoc. by destruct strong.
    - rewrite bool_decide_eq_true_2 by (by destruct strong). by rewrite take_app_length. }
  set (s := mk_Emphasis pieces (stack ++ [o]) ∅).
  set (pieces' := before ++ opened under strong :: mid ++ closed under strong :: after) in *.
  assert (Hc' : piece_at pieces' c = closed under strong).
  { unfold pieces'. replace c with (length (before ++ opened under strong :: mid)) by (unfold c; by rewrite !length_app).
    change (opened under strong :: mid ++ ?l) with ((opened under strong :: mid) ++ l). rewrite app_assoc. apply piece_at_app. }
  assert (Hclose : close_step c s = mk_Emphasis pieces' stack ∅).
  { unfold close_step. cbn [s em_pieces em_stack em_bottom]. rewrite lookup_empty, Hc.
    change (default 0%nat None) with 0%nat.
    rewrite (match_own _ _ (length stack) _ _ pieces' stack); [done|by destruct strong|by rewrite Hc|..].
    - rewrite length_app, Nat.add_1_r. cbn [find_opener]. rewrite bool_decide_eq_true_2 by lia.
      rewrite list_lookup_middle by done. change (default 0%nat (Some o)) with o. rewrite Ho, Hc. by destruct under, strong.
    - done.
    - by rewrite Hc'. }
  unfold emphasis_step. cbn [s em_pieces]. fold s. rewrite Hc. cbn [closing pe_delim pe_can_close negb].
  rewrite Hclose. cbn [em_pieces]. rewrite Hc'. done.
Qed.

(** A line's pieces, wherever they stand: every mark is matched with its own, and
    the stack is left as it was. *)
Lemma emphasis_pieces t buffer before after stack :
  foldl emphasis_step (mk_Emphasis (before ++ pieces_of opening closing buffer t ++ after) stack ∅)
    (seq (length before) (length (pieces_of opening closing buffer t))) =
  mk_Emphasis (before ++ pieces_of opened closed buffer t ++ after) stack ∅.
Proof.
  revert buffer before after stack.
  induction t as [|text t IH|body t IH|under strong t1 IH1 t2 IH2]; intros buffer before after stack; cbn [pieces_of].
  - apply emphasis_flushed.
  - apply IH.
  - apply IH.
  - set (b := before ++ flushed buffer).
    set (p1 := pieces_of opening closing [] t1) in *. set (p2 := pieces_of opening closing [] t2) in *.
    replace (before ++ (flushed buffer ++ opening under strong :: p1 ++ closing under strong :: p2) ++ after)
      with (before ++ flushed buffer ++ opening under strong :: p1 ++ closing under strong :: p2 ++ after)
      by (rewrite <- !app_assoc; cbn; by rewrite <- app_assoc).
    rewrite length_app, seq_app, foldl_app, emphasis_flushed, app_assoc. fold b.
    replace (length before + length (flushed buffer))%nat with (length b) by (unfold b; by rewrite length_app).
    cbn [length seq foldl]. rewrite push_own.
    rewrite length_app, seq_app, foldl_app.
    specialize (IH1 [] (b ++ [opening under strong]) (closing under strong :: p2 ++ after) (stack ++ [length b])).
    fold p1 in IH1. rewrite length_app, Nat.add_1_r, <- !app_assoc in IH1. cbn [app] in IH1. rewrite IH1.
    set (q1 := pieces_of opened closed [] t1).
    assert (Hq : length p1 = length q1) by apply length_pieces_of.
    cbn [length seq foldl].
    replace (S (length b) + length p1)%nat with (length (b ++ opening under strong :: q1))
      by (rewrite length_app; cbn; lia).
    rewrite close_own.
    specialize (IH2 [] (b ++ opened under strong :: q1 ++ [closed under strong]) after stack). fold p2 in IH2.
    replace (length (b ++ opened under strong :: q1 ++ [closed under strong])) with
      (S (length (b ++ opening under strong :: q1))) in IH2 by (rewrite !length_app; cbn; rewrite length_app; cbn; lia).
    repeat (rewrite <- app_assoc in IH2; cbn [app] in IH2). rewrite IH2.
    unfold b. by repeat (rewrite <- app_assoc; cbn [app]).
Qed.

Lemma process_pieces t :
  process_emphasis (pieces_of opening closing [] t) = pieces_of opened closed [] t.
Proof.
  unfold process_emphasis. pose proof (emphasis_pieces t [] [] [] []) as H. rewrite !app_nil_r in H. cbn [app length] in H.
  by rewrite H.
Qed.

(** ** Scanning *)

Definition scans (text : bytes) : Scan → Scan → Prop := rtc (λ s s', scan_step text s = inl s').

Lemma lookup_here {A} (pre : list A) x post : (pre ++ x :: post) !! length pre = Some x.
Proof. by rewrite list_lookup_middle. Qed.

Lemma plain_char_ne c d : plain_char c = true → d ∈ c_nl :: lit "$\<`*_" → (c =c d) = false.
Proof.
  intros Hc Hd. apply Ascii.eqb_neq. intros ->. unfold plain_char in Hc. apply negb_true_iff, not_contains in Hc. done.
Qed.

Lemma scan_plain pre c post buffer pieces :
  plain_char c = true →
  scan_step (pre ++ c :: post) (mk_Scan (length pre) buffer pieces) =
  inl (mk_Scan (length (pre ++ [c])) (buffer ++ escape_html c) pieces).
Proof.
  intros Hc. unfold scan_step, scan_literal, is_backslash. cbn [sc_i]. rewrite lookup_here.
  rewrite !(plain_char_ne c) by (done || (apply list_elem_of_In; cbn; tauto)).
  cbn [orb]. unfold emit. cbn [sc_buffer sc_pieces]. by rewrite length_app, Nat.add_1_r.
Qed.
Lemma scan_words pre words post buffer pieces :
  forallb plain_char words = true →
  scans (pre ++ words ++ post) (mk_Scan (length pre) buffer pieces)
    (mk_Scan (length (pre ++ words)) (buffer ++ escape_into words) pieces).
Proof.
  revert pre buffer. induction words as [|c words IH]; intros pre buffer Hw.
  { unfold escape_into. cbn. rewrite !app_nil_r. apply rtc_refl. }
  cbn in Hw. apply andb_prop in Hw as [Hc Hw]. eapply rtc_l; [by apply (scan_plain pre c)|].
  specialize (IH (pre ++ [c]) (buffer ++ escape_html c) Hw). unfold escape_into. cbn [fmap list_fmap].
  change (mjoin (?x :: ?l)) with (x ++ mjoin l). rewrite <- !app_assoc in IH. exact IH.
Qed.

Lemma scan_code_span pre body post buffer pieces :
  body ≠ [] → forallb code_char body = true → head_is is_space_char body = false →
  head_is (Ascii.eqb "`"%char) post = false →
  scan_step (pre ++ "`"%char :: body ++ "`"%char :: post) (mk_Scan (length pre) buffer pieces) =
  inl (mk_Scan (length (pre ++ "`"%char :: body ++ ["`"%char]))
         (buffer ++ lit "<code>" ++ escape_into body ++ lit "</code>") pieces).
Proof.
  intros Hne Hcode Hhead Hpost. set (text := pre ++ _).
  assert (Hbody : Forall (λ c, c ≠ "`"%char ∧ c ≠ c_nl) body).
  { apply Forall_forall. intros c Hc. rewrite forallb_forall in Hcode.
    specialize (Hcode c (proj1 (list_elem_of_In _ _) Hc)). unfold code_char in Hcode.
    apply negb_true_iff in Hcode. apply orb_false_iff in Hcode as [E1 E2]. by split; apply Ascii.eqb_neq. }
  assert (Hrun : span (Ascii.eqb "`"%char) (drop (length pre) text) = 1%nat).
  { unfold text. rewrite drop_app_length. destruct body as [|c body]; [done|]. cbn [app span].
    rewrite Ascii.eqb_refl. apply Forall_cons in Hbody as [[Hc _] _]. by rewrite (proj2 (Ascii.eqb_neq _ _)) by congruence. }
  assert (Hclose : find_char "`"%char text (length pre + 1) = Some (length pre + 1 + length body)%nat).
  { unfold find_char, text. rewrite (find_if_skip _ _ (pre ++ ["`"%char]) body ("`"%char :: post)).
    - cbn [find_if_at head_is]. rewrite Ascii.eqb_refl, length_app. done.
    - by rewrite <- app_assoc.
    - by rewrite length_app.
    - intros k Hk. destruct (lookup_lt_is_Some_2 body k Hk) as [c Hc]. rewrite (drop_S _ _ _ Hc). cbn [app head_is].
      rewrite Forall_lookup in Hbody. apply Hbody in Hc as [Hc _]. apply Ascii.eqb_neq. congruence. }
  assert (Hcut : drop (length pre + 1 + length body) text = "`"%char :: post).
  { unfold text. replace (pre ++ "`"%char :: body ++ "`"%char :: post) with ((pre ++ ["`"%char] ++ body) ++ "`"%char :: post)
      by (by rewrite <- !app_assoc). apply drop_app_length'. rewrite !length_app. cbn. lia. }
  unfold scan_step. cbn [sc_i]. unfold text at 1. rewrite lookup_here.
  unfold scan_literal. cbn [sc_i]. change (Ascii.eqb "`" "$" || is_backslash "`" || Ascii.eqb "`" "<") with false.
  cbn match. change (Ascii.eqb "`" "`") with true. cbn match. f_equal.
  unfold scan_code. cbn [sc_i]. rewrite Hrun. cbn [closing_run]. rewrite Hclose, Hcut.
  replace (span (Ascii.eqb "`"%char) ("`"%char :: post)) with 1%nat
    by (cbn [span]; rewrite Ascii.eqb_refl; destruct post as [|c post]; [done|]; cbn [span head_is] in *; by rewrite Hpost).
  rewrite bool_decide_eq_true_2 by done. unfold emit. cbn [sc_buffer sc_pieces].
  rewrite (substr_cut text (pre ++ ["`"%char]) body ("`"%char :: post));
    [|unfold text; by rewrite <- app_assoc|by rewrite length_app|lia].
  f_equal; [rewrite !length_app; cbn; rewrite length_app; cbn; lia|].
  do 3 f_equal. unfold code_text.
  replace ((λ c, if c =c c_nl then " "%char else c) <$> body) with body.
  - by rewrite Hhead, andb_false_r.
  - clear -Hbody. induction Hbody as [|c body [_ Hc] _ IH]; [done|]. rewrite fmap_cons, <- IH.
    by rewrite (proj2 (Ascii.eqb_neq _ _)).
Qed.

(** The characters a delimiter run stands between. *)
Lemma delimiter_sides pre c n post :
  (match length pre with O => " "%char | S j => default " "%char ((pre ++ replicate n c ++ post) !! j) end = char_before pre) ∧
  default " "%char ((pre ++ replicate n c ++ post) !! (length pre + n)%nat) = char_after post.
Proof.
  split.
  - unfold char_before. destruct pre as [|d pre] using rev_ind; [done|]. clear IHpre.
    rewrite length_app, Nat.add_1_r, last_snoc, <- app_assoc. cbn [app]. by rewrite lookup_here.
  - unfold char_after. rewrite app_assoc, lookup_app_r by (rewrite length_app, length_replicate; lia).
    rewrite length_app, length_replicate, Nat.sub_diag. by destruct post.
Qed.
Lemma delimiter_open pre under strong post :
  flanked (char_before pre) (char_after post) = true →
  delimiter (pre ++ mark_run under strong ++ post) (length pre) (mark_char under) (mark_size strong) = opening under strong.
Proof.
  intros Hf. unfold delimiter, mark_run.
  destruct (delimiter_sides pre (mark_char under) (mark_size strong) post) as [-> ->].
  unfold flanked in Hf. unfold opening. revert Hf.
  destruct (md_space (char_after post)), (md_space (char_before pre)), (md_punct (char_before pre)),
    (md_punct (char_after post)), under; done.
Qed.
Lemma delimiter_close pre under strong post :
  flanked (char_after post) (char_before pre) = true →
  delimiter (pre ++ mark_run under strong ++ post) (length pre) (mark_char under) (mark_size strong) = closing under strong.
Proof.
  intros Hf. unfold delimiter, mark_run.
  destruct (delimiter_sides pre (mark_char under) (mark_size strong) post) as [-> ->].
  unfold flanked in Hf. unfold closing. revert Hf.
  destruct (md_space (char_after post)), (md_space (char_before pre)), (md_punct (char_before pre)),
    (md_punct (char_after post)), under; done.
Qed.

(** A run of marks ends the buffer and is one piece. *)
Lemma scan_mark pre under strong post buffer pieces :
  (char_after post =c mark_char under) = false →
  scan_step (pre ++ mark_run under strong ++ post) (mk_Scan (length pre) buffer pieces) =
  inl (mk_Scan (length (pre ++ mark_run under strong)) []
    (flush_buffer buffer pieces ++
     [delimiter (pre ++ mark_run under strong ++ post) (length pre) (mark_char under) (mark_size strong)])).
Proof.
  intros Hpost. set (text := pre ++ mark_run under strong ++ post).
  assert (Hhere : text !! length pre = Some (mark_char under)) by (unfold text; destruct strong; apply lookup_here).
  assert (Hrun : span (Ascii.eqb (mark_char under)) (drop (length pre) text) = mark_size strong).
  { unfold text, mark_run. rewrite drop_app_length, span_stop.
    - by rewrite length_replicate.
    - apply Forall_replicate. apply Ascii.eqb_refl.
    - destruct post as [|c post]; [done|]. cbn in *. by rewrite Ascii.eqb_sym. }
  unfold scan_step, scan_literal, is_backslash. cbn [sc_i]. rewrite Hhere.
  replace (scan_delimiter text (mk_Scan (length pre) buffer pieces) (mark_char under)) with
    (mk_Scan (length (pre ++ mark_run under strong)) [] (flush_buffer buffer pieces ++
     [delimiter text (length pre) (mark_char under) (mark_size strong)])).
  - by destruct under.
  - unfold scan_delimiter. cbn [sc_i sc_buffer sc_pieces]. rewrite Hrun, length_app. unfold mark_run.
    by rewrite length_replicate.
Qed.

Lemma flush_flushed buffer pieces : flush_buffer buffer pieces = pieces ++ flushed buffer.
Proof. unfold flush_buffer, flushed. case_bool_decide; [by rewrite app_nil_r|done]. Qed.

Lemma char_before_app pre s : s ≠ [] → char_before (pre ++ s) = char_before s.
Proof.
  intros Hs. unfold char_before. destruct s as [|c s] using rev_ind; [done|]. by rewrite app_assoc, !last_snoc.
Qed.
Lemma char_after_app s post : s ≠ [] → char_after (s ++ post) = char_after s.
Proof. by destruct s. Qed.
(** Only the first character behind a line matters to it. *)
Lemma char_after_next s post : char_after (s ++ [char_after post]) = char_after (s ++ post).
Proof. destruct s; [|done]. by destruct post. Qed.
Lemma char_before_run pre under strong : char_before (pre ++ mark_run under strong) = mark_char under.
Proof. rewrite char_before_app by (by destruct strong). by destruct strong. Qed.
Lemma char_after_run under strong post : char_after (mark_run under strong ++ post) = mark_char under.
Proof. by destruct strong. Qed.

(** A line is scanned into its pieces, wherever it stands in the text. *)
Lemma scan_inlines t pre post buffer pieces :
  writable (char_before pre) (char_after post) t = true →
  ∃ buffer' pieces',
    scans (pre ++ print_inlines t ++ post) (mk_Scan (length pre) buffer pieces)
      (mk_Scan (length (pre ++ print_inlines t)) buffer' pieces') ∧
    pieces' ++ flushed buffer' = pieces ++ pieces_of opening closing buffer t.
Proof.
  revert pre post buffer pieces.
  induction t as [|text t IH|body t IH|under strong t1 IH1 t2 IH2]; intros pre post buffer pieces;
    cbn [writable print_inlines pieces_of]; rewrite ?andb_true_iff.
  - intros _. exists buffer, pieces. rewrite app_nil_r. split; [apply rtc_refl|done].
  - intros ((Hne & Htext) & Hrest). apply negb_true_iff, bool_decide_eq_false_1 in Hne.
    rewrite <- (char_before_app pre) in Hrest by done.
    destruct (IH (pre ++ text) post (buffer ++ escape_into text) pieces Hrest) as (buffer' & pieces' & Hs & Hp).
    exists buffer', pieces'. split; [|done].
    replace (pre ++ (text ++ print_inlines t) ++ post) with ((pre ++ text) ++ print_inlines t ++ post)
      by (by rewrite <- !app_assoc).
    rewrite (app_assoc pre text (print_inlines t)). etrans; [|exact Hs]. rewrite <- (app_assoc pre text). by apply scan_words.
  - intros ((((Hne & Hcode) & Hhead) & Hnext) & Hrest).
    apply negb_true_iff, bool_decide_eq_false_1 in Hne. apply negb_true_iff in Hhead, Hnext.
    rewrite char_after_next in Hnext.
    set (pre' := pre ++ "`"%char :: body ++ ["`"%char]).
    assert (Hpre : char_before pre' = "`"%char).
    { unfold pre'. rewrite app_comm_cons, app_assoc. unfold char_before. by rewrite last_snoc. }
    rewrite <- Hpre in Hrest.
    destruct (IH pre' post (buffer ++ lit "<code>" ++ escape_into body ++ lit "</code>") pieces Hrest)
      as (buffer' & pieces' & Hs & Hp).
    assert (Ht : pre ++ ("`"%char :: body ++ "`"%char :: print_inlines t) ++ post = pre' ++ print_inlines t ++ post).
    { unfold pre'. by repeat (rewrite <- app_assoc; cbn [app]). }
    exists buffer', pieces'. split; [|done]. rewrite Ht.
    replace (pre ++ "`"%char :: body ++ "`"%char :: print_inlines t) with (pre' ++ print_inlines t)
      by (unfold pre'; by repeat (rewrite <- app_assoc; cbn [app])).
    eapply rtc_l; [|exact Hs]. rewrite <- Ht. cbn [app]. rewrite <- app_assoc.
    apply scan_code_span; [done..|].
    change (head_is (Ascii.eqb "`"%char) (print_inlines t ++ post) = false). unfold char_after in Hnext.
    destruct (print_inlines t ++ post) as [|c rest]; [done|]. cbn [head_is]. by rewrite Ascii.eqb_sym.
  - intros ((((((((Hne & _) & Hfirst) & _) & Hnext) & Ho) & Hc) & H1) & H2).
    apply negb_true_iff, bool_decide_eq_false_1 in Hne. apply negb_true_iff in Hfirst, Hnext.
    rewrite char_after_next in Hnext, Hc.
    set (run := mark_run under strong) in *. set (p1 := print_inlines t1) in *. set (p2 := print_inlines t2) in *.
    destruct (IH1 (pre ++ run) (run ++ p2 ++ post) [] (flush_buffer buffer pieces ++ [opening under strong]))
      as (buffer1 & pieces1 & Hs1 & Hp1).
    { unfold run. by rewrite char_before_run, char_after_run. }
    destruct (IH2 (((pre ++ run) ++ p1) ++ run) post [] (flush_buffer buffer1 pieces1 ++ [closing under strong]))
      as (buffer2 & pieces2 & Hs2 & Hp2).
    { unfold run. by rewrite char_before_run. }
    set (T := pre ++ (run ++ p1 ++ run ++ p2) ++ post).
    assert (T1 : T = pre ++ run ++ p1 ++ run ++ p2 ++ post) by (unfold T; by rewrite <- !app_assoc).
    assert (T2 : T = (pre ++ run) ++ p1 ++ run ++ p2 ++ post) by (rewrite T1; apply app_assoc).
    assert (T3 : T = ((pre ++ run) ++ p1) ++ run ++ p2 ++ post) by (rewrite T2; apply app_assoc).
    assert (T4 : T = (((pre ++ run) ++ p1) ++ run) ++ p2 ++ post) by (rewrite T3; apply app_assoc).
    exists buffer2, pieces2. split.
    + fold p1 in Hs1. fold p2 in Hs2. rewrite <- T2 in Hs1. rewrite <- T4 in Hs2.
      replace (pre ++ run ++ p1 ++ run ++ p2) with ((((pre ++ run) ++ p1) ++ run) ++ p2) by (by rewrite <- !app_assoc).
      etrans; [|exact Hs2]. eapply rtc_l; [|etrans; [exact Hs1|apply rtc_once]].
      * rewrite T1. unfold run. rewrite scan_mark by (by rewrite char_after_app).
        rewrite delimiter_open; [done|]. by rewrite char_after_app.
      * rewrite T3. unfold run. rewrite scan_mark by done. rewrite delimiter_close; [done|]. by rewrite char_before_app.
    + rewrite Hp2, flush_flushed, Hp1, flush_flushed. by repeat (rewrite <- app_assoc; cbn [app]).
Qed.

Lemma scan_pieces_of t :
  writable " "%char " "%char t = true → scan_pieces (print_inlines t) = pieces_of opening closing [] t.
Proof.
  intros Ht. destruct (scan_inlines t [] [] [] [] Ht) as (buffer & pieces & Hs & Hp).
  cbn [app length] in Hs. rewrite app_nil_r in Hs. unfold scan_pieces, run_loop.
  rewrite (loop_rtc (scan_step _) _ _ _ (flush_buffer buffer pieces) Hs).
  - change (default ?d (Some ?x)) with x. by rewrite flush_flushed.
  - unfold scan_step. cbn [sc_i]. by rewrite lookup_ge_None_2.
  - destruct (loop_total (λ _, True) (λ s, length (print_inlines t) - sc_i s)%nat (S (length (print_inlines t)))
      (scan_step (print_inlines t)) (mk_Scan 0 [] [])) as [r Hr];
      [intros s s' _ E; split; [done|by apply scan_step_progress]|done|cbn; lia|by exists r].
Qed.

(** A paragraph is rendered as the line it was written from. *)
Lemma render_inlines t : writable " "%char " "%char t = true → render_paragraph (print_inlines t) = inlines_html t.
Proof. intros Ht. unfold render_paragraph. by rewrite scan_pieces_of, process_pieces, html_of_pieces. Qed.

(** ** One line of a page *)

Lemma escape_html_nl c : c ≠ c_nl → c_nl ∉ escape_html c.
Proof.
  intros Hc. unfold escape_html. repeat case_match; try by apply not_contains.
  rewrite list_elem_of_singleton. congruence.
Qed.
Lemma escape_into_nl s : c_nl ∉ s → c_nl ∉ escape_into s.
Proof.
  induction s as [|c s IH]; [done|]. intros [Hc Hs]%not_elem_of_cons. unfold escape_into. rewrite fmap_cons.
  change (mjoin (?x :: ?l)) with (x ++ mjoin l). rewrite elem_of_app. intros [H|H]; [|by apply IH].
  by eapply escape_html_nl.
Qed.
Lemma forallb_nl p s : p c_nl = false → forallb p s = true → c_nl ∉ s.
Proof. intros Hp Hs Hin. rewrite forallb_forall in Hs. rewrite (Hs c_nl) in Hp; [done|]. by apply list_elem_of_In. Qed.
(** A writable line is one line, and so is its HTML. *)
Lemma writable_one_line before after t :
  writable before after t = true → (c_nl ∉ print_inlines t) ∧ (c_nl ∉ inlines_html t).
Proof.
  revert before after. induction t as [|text t IH|body t IH|under strong t1 IH1 t2 IH2]; intros before after;
    cbn [writable print_inlines inlines_html]; rewrite ?andb_true_iff.
  - intros _. by split; apply not_elem_of_nil.
  - intros ((_ & Htext%forallb_nl) & [H1 H2]%IH); [|done]. apply escape_into_nl in Htext as Hesc.
    rewrite !elem_of_app. tauto.
  - intros ((((_ & Hcode%forallb_nl) & _) & _) & [H1 H2]%IH); [|done]. apply escape_into_nl in Hcode as Hesc.
    assert (Ho : c_nl ∉ lit "<code>") by (by apply not_contains). assert (Hc : c_nl ∉ lit "</code>") by (by apply not_contains).
    assert (c_nl ≠ "`"%char) by done. rewrite !elem_of_cons, !elem_of_app, elem_of_cons. tauto.
  - intros (((_ & _) & [H1 H1']%IH1) & [H2 H2']%IH2).
    assert (Hr : c_nl ∉ mark_run under strong) by (apply not_contains; by destruct under, strong).
    assert (Ho : c_nl ∉ (if strong then lit "<strong>" else lit "<em>")) by (apply not_contains; by destruct strong).
    assert (Hc : c_nl ∉ (if strong then lit "</strong>" else lit "</em>")) by (apply not_contains; by destruct strong).
    rewrite !elem_of_app. tauto.
Qed.

Lemma absent_app needle a b : needle ≠ [] → absent needle (a ++ needle ++ b) = false.
Proof.
  intros Hne. unfold absent, find. destruct (find_if _ _ 0) as [j|] eqn:E; [done|].
  pose proof (find_if_None _ _ _ E (length a)) as H. rewrite drop_app_length in H.
  rewrite (proj2 (starts_with_app _ _)) in H by eauto. discriminate H.
  rewrite !length_app. destruct needle; [done|]. cbn. lia.
Qed.
(** Where a line has a mark, its text and its HTML show it. *)
Lemma has_mark_shows t :
  has_mark t = true →
  ∃ under strong a b a' b', print_inlines t = a ++ [mark_char under] ++ b ∧
    inlines_html t = a' ++ (if strong : bool then lit "<strong>" else lit "<em>") ++ b'.
Proof.
  induction t as [|text t IH|body t IH|under strong t1 _ t2 _]; cbn [has_mark print_inlines inlines_html]; [done| | |].
  - intros (under & strong & a & b & a' & b' & -> & ->)%IH.
    exists under, strong, (text ++ a), b, (escape_into text ++ a'), b'. by rewrite <- !app_assoc.
  - intros (under & strong & a & b & a' & b' & -> & ->)%IH.
    exists under, strong, ("`"%char :: body ++ "`"%char :: a), b, (lit "<code>" ++ escape_into body ++ lit "</code>" ++ a'), b'.
    split; [|by rewrite <- !app_assoc]. cbn [app]. by rewrite <- app_assoc.
  - intros _. exists under, strong, [], (drop 1 (mark_run under strong) ++ print_inlines t1 ++ mark_run under strong ++ print_inlines t2),
      [], (inlines_html t1 ++ (if strong then lit "</strong>" else lit "</em>") ++ inlines_html t2).
    split; [by destruct strong|done].
Qed.

Lemma starts_with_break html : c_nl ∉ html → starts_with kBreak html = false.
Proof.
  intros Hnl. destruct (starts_with kBreak html) eqn:E; [|done].
  apply starts_with_app in E as [r ->]. destruct Hnl. rewrite elem_of_app. left. by apply contains_char_true.
Qed.
Lemma join_breaks_line html : c_nl ∉ html → join_breaks 0 html = html.
Proof.
  induction html as [|c html IH]; [done|]. intros Hnl. cbn [join_breaks]. rewrite starts_with_break by done.
  apply not_elem_of_cons in Hnl as [Hc Hnl]. rewrite (proj2 (Ascii.eqb_neq _ _)) by congruence. by rewrite IH.
Qed.

Lemma trim_paragraph html : trim (lit "<p>" ++ html ++ lit "</p>" ++ [c_nl]) = lit "<p>" ++ html ++ lit "</p>".
Proof.
  rewrite trim_strip, lstrip_id by (by intros c [= <-]).
  replace (lit "<p>" ++ html ++ lit "</p>" ++ [c_nl]) with ((lit "<p>" ++ html ++ lit "</p") ++ lit ">" ++ [c_nl])
    by (by rewrite <- !app_assoc).
  rewrite rstrip_app. change (rstrip is_blank (lit ">" ++ [c_nl])) with (lit ">").
  rewrite bool_decide_eq_false_2 by done. by rewrite <- !app_assoc.
Qed.

(** * Properties *)

(** C39: A line of inline content reads back from the Markdown it is written as:
    words, code spans, and emphasis and strong emphasis of either delimiter, nested
    to any depth. [markdown_inline_html] of the written line is one paragraph with
    exactly the tags that were meant, in place, and every word and code span
    escaped once. It holds for a line that is trimmed and has a mark, and where:
    the words are none of the characters Markdown reads; a code span is not empty,
    has no backtick and no newline, does not start with a space and has no backtick
    behind it; a mark encloses something and has no character of its own delimiter
    on either side; and at both of its ends the character inside is no space and
    the one outside is a space (or the end), or punctuation when the inside is
    none. *)
Theorem markdown_inline_roundtrip t :
  writable " "%char " "%char t = true → trim (print_inlines t) = print_inlines t → has_mark t = true →
  markdown_inline_html (print_inlines t) = lit "<p>" ++ inlines_html t ++ lit "</p>".
Proof.
  intros Ht Htrim Hmark. destruct (writable_one_line _ _ _ Ht) as [Hline Hhtml].
  destruct (has_mark_shows t Hmark) as (under & strong & a & b & a' & b' & Ep & Eh).
  assert (Hne : print_inlines t ≠ []) by (rewrite Ep; by destruct a).
  assert (Hrender : render_paragraphs (print_inlines t) = lit "<p>" ++ inlines_html t ++ lit "</p>" ++ [c_nl]).
  { unfold render_paragraphs. rewrite split_on_none by done. cbn [foldl]. unfold paragraph_line.
    rewrite Htrim, bool_decide_eq_false_2 by done. change (([], []).1 =b []) with true. cbn match. cbn [snd].
    unfold emit_paragraph. rewrite Htrim, bool_decide_eq_false_2 by done. by rewrite render_inlines. }
  unfold markdown_inline_html.
  replace (absent (lit "*") (print_inlines t) && absent (lit "_") (print_inlines t)) with false.
  2:{ symmetry. rewrite Ep. destruct under;
      [apply andb_false_intro2; by apply (absent_app (lit "_") a b)|apply andb_false_intro1; by apply (absent_app (lit "*") a b)]. }
  rewrite Hrender.
  replace (absent (lit "<strong>") _ && absent (lit "<em>") _) with false.
  2:{ symmetry. rewrite Eh, <- !app_assoc, (app_assoc (lit "<p>") a').
      destruct strong; [apply andb_false_intro1|apply andb_false_intro2]; by apply absent_app. }
  rewrite trim_paragraph. apply join_breaks_line. rewrite !elem_of_app. intros [H|[H|H]]; [|done|];
    by apply contains_char_true in H.
Qed.

(** * A concrete instance *)

Definition toy_line : Inlines :=
  Words (lit "see (") (Marked false false (Words (lit "a & b") (Words (lit " and ") (Marked true true (Words (lit "c") Done)
    (Words (lit ", ") (Code (lit "x*y") (Words (lit " too") Done)))))) (Words (lit ") or ") (Marked false true (Marked true false (Words (lit "d") Done) Done) Done))).
Lemma markdown_inline_roundtrip_witness :
  print_inlines toy_line = lit "see (*a & b and __c__, `x*y` too*) or **_d_**" ∧
  markdown_inline_html (print_inlines toy_line) =
    lit "<p>see (<em>a &amp; b and <strong>c</strong>, <code>x*y</code> too</em>) or <strong><em>d</em></strong></p>".
Proof.
  split; [reflexivity|]. apply (markdown_inline_roundtrip toy_line); vm_compute; reflexivity.
Defined.
