(* ===== verification/Chandra.v ===== *)
(** The Chandra mapper (src/mapping/chandra.cpp): layout HTML whose blocks carry
    a label and a box.  [ChandraBuilder] walks an element tree and calls the
    layout writer: inline runs, headings, lists, tables with rich cells, forms,
    pictures and captions; two entry points embed HTML in other formats.  The
    builder's methods call each other on smaller elements: each is a step over
    the calls it makes ([Walker]), tied by a fuel the height of the tree bounds.
    What is proved: no walk runs out of it, and every item it adds hangs from
    the page. *)
From S2P Require Import Prelude Numbers Double Proto ImageCrop Builder OtslGrid Tree.
From S2P Require Import MarkupTree LayoutText Layout LayoutGrows MarkdownInline.

(** * Elements and texts *)

Definition kBlockTags : list bytes := lit <$>
  ["div"; "p"; "h1"; "h2"; "h3"; "h4"; "h5"; "h6"; "table"; "ul"; "ol"; "li"; "pre"; "figure"; "form";
   "caption"; "figcaption"; "hr"]%string.
Definition is_block (node : MarkupNode) : bool := negb (is_text node) && contains kBlockTags (nd_tag node).
Definition is_heading_tag (tag : bytes) : bool :=
  match tag with
  | [h; d] => (h =c "h"%char) && in_range 49 54 d
  | _ => false
  end.

(** The elements below a node, in document order, and a test on them. *)
Fixpoint descendants (node : MarkupNode) : list MarkupNode :=
  match node with
  | mk_MarkupNode _ _ _ children =>
      foldr (λ child out, if is_text child then out else child :: descendants child ++ out) [] children
  end.
Fixpoint any_descendant (pred : MarkupNode → bool) (node : MarkupNode) : bool :=
  match node with
  | mk_MarkupNode _ _ _ children =>
      foldr (λ child found, (negb (is_text child) && (pred child || any_descendant pred child)) || found)
        false children
  end.

Definition layout_label_of (name : bytes) : option DocItemLabel :=
  if name =b lit "Title" then Some DOC_ITEM_LABEL_TITLE
  else if name =b lit "Section-Header" then Some DOC_ITEM_LABEL_SECTION_HEADER
  else if name =b lit "Caption" then Some DOC_ITEM_LABEL_CAPTION
  else if name =b lit "Footnote" then Some DOC_ITEM_LABEL_FOOTNOTE
  else if name =b lit "Page-Header" then Some DOC_ITEM_LABEL_PAGE_HEADER
  else if name =b lit "Page-Footer" then Some DOC_ITEM_LABEL_PAGE_FOOTER
  else if name =b lit "Equation-Block" then Some DOC_ITEM_LABEL_FORMULA
  else if name =b lit "Code-Block" then Some DOC_ITEM_LABEL_CODE
  else if name =b lit "Bibliography" then Some DOC_ITEM_LABEL_REFERENCE
  else None.

Definition python_space (c : ascii) : bool :=
  (c =c " "%char) || (c =c c_tab) || (c =c c_nl) || (c =c c_cr) || (c =c c_ff) || (c =c c_vt).
Definition strip_chars (text : bytes) (chars : ascii → bool) : bytes := rstrip chars (lstrip chars text).
Definition py_strip (text : bytes) : bytes := strip_chars text python_space.
Definition has_alnum (text : bytes) : bool := existsb (λ c, isalnum c || (128 <=? Prelude.code c)) text.

(** Every run of white space becomes one space; [space]: one is pending. *)
Fixpoint collapse_runs_from (space : bool) (text : bytes) : bytes :=
  match text with
  | [] => if space then [" "%char] else []
  | c :: text =>
      if python_space c then collapse_runs_from true text
      else (if space then [" "%char] else []) ++ c :: collapse_runs_from false text
  end.
Definition collapse_runs (text : bytes) : bytes := collapse_runs_from false text.

Definition py_float (piece : bytes) : option double :=
  let piece := match piece with "+"%char :: piece => piece | _ => piece end in
  match from_chars_general piece with Some (value, []) => Some value | _ => None end.

(** * Inline runs *)

Record Run := mk_Run {
  rn_text : bytes;
  rn_label : DocItemLabel;
  rn_formatting : Formatting;
  rn_hyperlink : bytes }.
Definition set_rn_text (text : bytes) (run : Run) : Run :=
  mk_Run text (rn_label run) (rn_formatting run) (rn_hyperlink run).
(** A message serializes to nothing when every field has its default. *)
Definition plain_formatting (run : Run) : bool := bool_decide (rn_formatting run = Formatting_empty).
Definition plain (run : Run) : bool :=
  bool_decide (rn_label run = DOC_ITEM_LABEL_TEXT) && plain_formatting run && (rn_hyperlink run =b []).
Definition same_style (run other : Run) : bool :=
  bool_decide (rn_formatting run = rn_formatting other) && (rn_hyperlink run =b rn_hyperlink other).

(** The formatting an element gives the runs below it. *)
Definition formatting_of (tag : bytes) (f : Formatting) : Formatting :=
  let 'mk_Formatting bold italic underline strikethrough script := f in
  if (tag =b lit "b") || (tag =b lit "strong") then mk_Formatting true italic underline strikethrough script
  else if (tag =b lit "i") || (tag =b lit "em") then mk_Formatting bold true underline strikethrough script
  else if tag =b lit "u" then mk_Formatting bold italic true strikethrough script
  else if (tag =b lit "del") || (tag =b lit "s") then mk_Formatting bold italic underline true script
  else if tag =b lit "sup" then mk_Formatting bold italic underline strikethrough SCRIPT_SUPER
  else if tag =b lit "sub" then mk_Formatting bold italic underline strikethrough SCRIPT_SUB
  else f.
Definition input_run (node : MarkupNode) (formatting : Formatting) (hyperlink : bytes) : list Run :=
  let kind := tolower <$> attr node (lit "type") (lit "text") in
  if kind =b lit "hidden" then [] else
  let box := (kind =b lit "checkbox") || (kind =b lit "radio") in
  [mk_Run (if box then [] else html_text node)
     (if box then if has_attr node (lit "checked") then DOC_ITEM_LABEL_CHECKBOX_SELECTED
                  else DOC_ITEM_LABEL_CHECKBOX_UNSELECTED
      else DOC_ITEM_LABEL_FIELD_VALUE) formatting hyperlink].
(** [skip_chem]: the picture being walked has its one molecule already. *)
Fixpoint inline_runs (skip_chem : bool) (node : MarkupNode) (inherited : Formatting) (inherited_link : bytes)
  : list Run :=
  match node with
  | mk_MarkupNode tag text _ children =>
      if tag =b [] then [mk_Run (collapse_runs text) DOC_ITEM_LABEL_TEXT inherited inherited_link] else
      let formatting := formatting_of tag inherited in
      let href := attr node (lit "href") [] in
      let hyperlink := if (tag =b lit "a") && negb (href =b []) then href else inherited_link in
      if tag =b lit "input" then input_run node formatting hyperlink
      else if (tag =b lit "math") || (tag =b lit "code") then
        [mk_Run (py_strip (html_text node))
           (if tag =b lit "math" then DOC_ITEM_LABEL_FORMULA else DOC_ITEM_LABEL_CODE) formatting hyperlink]
      else if tag =b lit "br" then [mk_Run [c_nl] DOC_ITEM_LABEL_TEXT formatting hyperlink]
      else if (tag =b lit "script") || (tag =b lit "style") || (tag =b lit "head") || (skip_chem && (tag =b lit "chem"))
      then []
      else foldr (λ child out, inline_runs skip_chem child formatting hyperlink ++ out) [] children
  end.

(** Neighbours of one style are one run. *)
Definition push_run (merged : list Run) (run : Run) : list Run :=
  match last merged with
  | Some back =>
      if bool_decide (rn_label run = DOC_ITEM_LABEL_TEXT) && bool_decide (rn_label back = DOC_ITEM_LABEL_TEXT) &&
         same_style run back
      then removelast merged ++ [set_rn_text (rn_text back ++ rn_text run) back]
      else merged ++ [run]
  | None => [run]
  end.
Definition merge_runs (runs : list Run) : list Run := foldl push_run [] runs.

(** A run that stands for a form control, also without text. *)
Definition is_control (label : DocItemLabel) : bool :=
  match label with
  | DOC_ITEM_LABEL_FIELD_VALUE | DOC_ITEM_LABEL_CHECKBOX_SELECTED | DOC_ITEM_LABEL_CHECKBOX_UNSELECTED => true
  | _ => false
  end.
(** A line break between two kept runs is written into a plain one. *)
Definition break_runs (kept : list Run) (run : Run) : list Run * Run :=
  if plain run then (kept, set_rn_text (c_nl :: rn_text run) run)
  else match last kept with
       | Some back => if plain back then (removelast kept ++ [set_rn_text (rn_text back ++ [c_nl]) back], run)
                      else (kept, run)
       | None => (kept, run)
       end.
Definition keep_run (heading : bool) (s : list Run * bool) (run : Run) : list Run * bool :=
  let '(kept, line_break) := s in
  let edges := strip_chars (rn_text run) is_hspace in
  let run := set_rn_text (py_strip (rn_text run)) run in
  let is_text := bool_decide (rn_label run = DOC_ITEM_LABEL_TEXT) in
  let line_break := line_break || (is_text && starts_with [c_nl] edges) in
  if (rn_text run =b []) && negb (is_control (rn_label run)) then (kept, line_break) else
  let '(kept, run) := if line_break && negb (bool_decide (length kept = 0%nat)) && negb heading
                      then break_runs kept run else (kept, run) in
  (kept ++ [run], is_text && ends_with [c_nl] edges).
Definition keep_runs (heading : bool) (merged : list Run) : list Run :=
  let kept := (foldl (keep_run heading) ([], false) merged).1 in
  if heading && bool_decide (1 < length kept)%nat
  then (λ run, set_rn_text (collapse_whitespace (rn_text run)) run) <$> kept else kept.
(** A formula in several runs: one when all are math or punctuation, otherwise
    text. *)
Definition join_formula (joined : bytes) (run : Run) : bytes :=
  joined ++ (if joined =b [] then [] else [" "%char]) ++ py_strip (rn_text run).
Definition formula_runs (label : DocItemLabel) (kept : list Run) : list Run * DocItemLabel :=
  if bool_decide (1 < length kept)%nat && bool_decide (label = DOC_ITEM_LABEL_FORMULA) then
    if forallb (λ run, bool_decide (rn_label run = DOC_ITEM_LABEL_FORMULA) || negb (has_alnum (rn_text run))) kept
    then ([mk_Run (foldl join_formula [] kept) DOC_ITEM_LABEL_FORMULA Formatting_empty []], label)
    else (kept, DOC_ITEM_LABEL_TEXT)
  else (kept, label).

(** * Provenance *)

(** A block's box, for the first item that claims it. *)
Record Provenance := mk_Provenance { pv_box : option BoundingBox; pv_text_owner : bool; pv_claimed : bool }.
Definition take_box (p : Provenance) : option BoundingBox * Provenance :=
  match pv_box p with
  | Some box => if pv_claimed p then (None, p) else (Some box, mk_Provenance (pv_box p) (pv_text_owner p) true)
  | None => (None, p)
  end.
Definition take_prov (prov : option Provenance) : option BoundingBox * option Provenance :=
  match prov with Some p => let '(box, p) := take_box p in (box, Some p) | None => (None, None) end.
Definition text_prov (prov : option Provenance) : option BoundingBox * option Provenance :=
  match prov with
  | Some p => if pv_text_owner p then take_prov prov else (None, prov)
  | None => (None, prov)
  end.

(** * The builder *)

(** What a picture's content leaves out; [skip_chem] is also the flag the run
    reader looks at (the two are always set together). *)
Record Skips := mk_Skips { skip_img : bool; skip_chem : bool }.
(** The block's provenance afterwards and the writer; no result: the walk went
    deeper than its fuel. *)
Abbreviation Walked := (option (option Provenance * LayoutWriter)).
(** The calls a step makes on smaller elements. *)
Record Walker := mk_Walker {
  w_block : Skips → MarkupNode → Parent → option Provenance → DocItemLabel → LayoutWriter → Walked;
  w_list : Skips → MarkupNode → Parent → LayoutWriter → option LayoutWriter }.

Definition inline_node (node : MarkupNode) : bool :=
  let tag := nd_tag node in
  negb (contains kBlockTags tag) && negb (tag =b lit "img") && negb (tag =b lit "chem") &&
  negb (has_attr node (lit "data-label")) && negb (has_attr node (lit "data-bbox")) &&
  negb ((tag =b lit "math") && (attr node (lit "display") [] =b lit "block")) &&
  negb (any_descendant is_block node).

(** The pieces of a text between white space. *)
Definition pieces_of (raw : bytes) : list bytes := words python_space raw.

Definition kNotTextOwners : list bytes := lit <$>
  ["Table"; "List-Group"; "Figure"; "Image"; "Diagram"; "Chemical-Block"; "Form"]%string.
Definition kPictureLabels : list bytes := lit <$> ["Figure"; "Image"; "Diagram"; "Chemical-Block"]%string.
Definition kWrapperTag : bytes := lit "#li".

(** The way a block is read. *)
Inductive Reading :=
  | ReadPicture | ReadTable | ReadList | ReadCode | ReadMath | ReadRuns | ReadForm
  | ReadCaption (label : DocItemLabel) | ReadChildren | ReadNothing.
Definition reading_of (node : MarkupNode) : Reading :=
  let tag := nd_tag node in
  let has_label := has_attr node (lit "data-label") in
  let layout_label := attr node (lit "data-label") [] in
  let labelled name := has_label && (layout_label =b lit name) in
  if (has_label && contains kPictureLabels layout_label) ||
     (tag =b lit "figure") || (tag =b lit "img") || (tag =b lit "chem") then ReadPicture
  else if tag =b lit "table" then ReadTable
  else if (tag =b lit "ul") || (tag =b lit "ol") ||
          (labelled "List-Group" && negb (any_descendant (λ n, (nd_tag n =b lit "ul") || (nd_tag n =b lit "ol")) node))
  then ReadList
  else if (tag =b lit "pre") || (tag =b lit "code") ||
          (labelled "Code-Block" && negb (any_descendant (λ n, nd_tag n =b lit "pre") node)) then ReadCode
  else if tag =b lit "math" then ReadMath
  else if negb (contains kBlockTags tag) && (has_attr node (lit "data-bbox") || has_label) then ReadRuns
  else if labelled "Form" || (tag =b lit "form") then ReadForm
  else if (tag =b lit "caption") || (tag =b lit "figcaption") || labelled "Caption" || labelled "Footnote" then
    ReadCaption (if labelled "Footnote" then DOC_ITEM_LABEL_FOOTNOTE else DOC_ITEM_LABEL_CAPTION)
  else if negb (tag =b lit "script") && negb (tag =b lit "style") && negb (tag =b lit "head") &&
          negb (tag =b lit "hr") then ReadChildren
  else ReadNothing.

Section Builder.
Context `{ProtobufSize} `{Stb}.
Variable page : PageContext.

(** The box of a block's attribute, four numbers in order on the grid. *)
Definition provenance (node : MarkupNode) : option BoundingBox :=
  match mapM py_float (pieces_of (attr node (lit "data-bbox") [])) with
  | Some [x0; y0; x1; y1] =>
      if dle dzero x0 && dle x0 x1 && dle x1 (of_Z 1000) && dle dzero y0 && dle y0 y1 && dle y1 (of_Z 1000)
      then Some (grid_box page [x0; y0; x1; y1] (of_Z 1000)) else None
  | _ => None
  end.

Definition parent_is_heading (parent : Parent) (w : LayoutWriter) : bool :=
  match parent with
  | Some ref =>
      bool_decide (bc_kind ref = TEXT) &&
      (bool_decide (label_of ref w = DOC_ITEM_LABEL_SECTION_HEADER) ||
       bool_decide (label_of ref w = DOC_ITEM_LABEL_TITLE))
  | None => false
  end.
(** A level for the section headers among the texts from [before] on. *)
Definition set_levels (before : nat) (level : Z) (w : LayoutWriter) : LayoutWriter :=
  foldl (λ w i, set_heading_level i level w) w (seq before (text_count w - before)).

(** A run as an item of its own, with the block's box where it has its label. *)
Definition add_run (run_label label : DocItemLabel) (parent : Parent) (layer : ContentLayer)
    (s : option Provenance * LayoutWriter) (run : Run) : option Provenance * LayoutWriter :=
  let '(prov, w) := s in
  let formatting := if plain_formatting run then None else Some (rn_formatting run) in
  let '(box, prov) := if bool_decide (run_label = label) then text_prov prov else (None, prov) in
  let '(item, w) := styled_text page run_label box (rn_text run) formatting (rn_hyperlink run) parent w in
  (prov, set_content_layer item layer w).
(** One kept run: an empty text it alone is under takes it. *)
Definition emit_run (alone : bool) (parent : Parent) (label : DocItemLabel) (layer : ContentLayer)
    (s : option Provenance * LayoutWriter) (run : Run) : option Provenance * LayoutWriter :=
  let '(prov, w) := s in
  let run_label := if bool_decide (rn_label run = DOC_ITEM_LABEL_TEXT) && alone then label else rn_label run in
  let formatting := if plain_formatting run then None else Some (rn_formatting run) in
  match parent with
  | Some ref =>
      if bool_decide (bc_kind ref = TEXT) && bool_decide (children_of ref w = 0%nat) && (text_of ref w =b []) &&
         alone && bool_decide (run_label = DOC_ITEM_LABEL_TEXT)
      then (prov, set_text ref (rn_text run) formatting (rn_hyperlink run) w)
      else add_run run_label label parent layer s run
  | None => add_run run_label label parent layer s run
  end.
(** Several runs stand under a group of their own, under an item of the block's
    label unless that is plain text. *)
Definition group_runs (parent : Parent) (prov : option Provenance) (label : DocItemLabel) (layer : ContentLayer)
    (w : LayoutWriter) : Parent * option Provenance * LayoutWriter :=
  let '(parent, prov, w) :=
    if bool_decide (label = DOC_ITEM_LABEL_TEXT) then (parent, prov, w) else
    let '(box, prov) := text_prov prov in
    let '(item, w) := styled_text page label box [] None [] parent w in
    (Some item, prov, set_content_layer item layer w) in
  let '(group, w) := inline_group parent w in
  (Some group, prov, set_content_layer group layer w).
Definition emit_runs (runs : list Run) (parent : Parent) (prov : option Provenance) (label : DocItemLabel)
    (w : LayoutWriter) : option Provenance * LayoutWriter :=
  let heading := parent_is_heading parent w || bool_decide (label = DOC_ITEM_LABEL_SECTION_HEADER) ||
                 bool_decide (label = DOC_ITEM_LABEL_TITLE) in
  let kept := keep_runs heading (merge_runs runs) in
  if bool_decide (length kept = 0%nat) then (prov, w) else
  let before := text_count w in
  let layer := if decide (label = DOC_ITEM_LABEL_PAGE_HEADER ∨ label = DOC_ITEM_LABEL_PAGE_FOOTER)
               then CONTENT_LAYER_FURNITURE else CONTENT_LAYER_BODY in
  let '(kept, label) := formula_runs label kept in
  let alone := bool_decide (length kept = 1%nat) in
  let '(parent, prov, w) := if alone then (parent, prov, w) else group_runs parent prov label layer w in
  let '(prov, w) := foldl (emit_run alone parent label layer) (prov, w) kept in
  (prov, set_levels before 2 w).

(** ** The methods, over the calls they make on smaller elements *)

Section Steps.
Variable self : Walker.

Definition walk_step (skips : Skips) (parent : Parent) (label : DocItemLabel)
    (s : list Run * option Provenance * LayoutWriter) (node : MarkupNode)
  : option (list Run * option Provenance * LayoutWriter) :=
  let '(runs, prov, w) := s in
  if negb (is_text node) &&
     ((skip_img skips && (nd_tag node =b lit "img")) || (skip_chem skips && (nd_tag node =b lit "chem")))
  then Some s
  else if is_text node || inline_node node
  then Some (runs ++ inline_runs (skip_chem skips) node Formatting_empty [], prov, w)
  else
    let '(prov, w) := emit_runs runs parent prov label w in
    '(prov, w) ← w_block self skips node parent prov label w;
    Some ([], prov, w).
Definition walk (skips : Skips) (children : list MarkupNode) (parent : Parent) (prov : option Provenance)
    (label : DocItemLabel) (w : LayoutWriter) : Walked :=
  '(runs, prov, w) ← foldM (walk_step skips parent label) ([], prov, w) children;
  Some (emit_runs runs parent prov label w).
Definition walk_children (skips : Skips) (node : MarkupNode) := walk skips (nd_children node).

(** *** Pictures *)

Definition images_of (tag : bytes) (node : MarkupNode) : list MarkupNode :=
  if nd_tag node =b tag then [node] else filter (λ n, (nd_tag n =b tag) = true) (descendants node).
Definition join_lines (out : bytes) (line : bytes) : bytes := out ++ (if out =b [] then [] else [c_nl]) ++ line.
Definition add_alt (descriptions : list bytes) (image : MarkupNode) : list bytes :=
  let alt := attr image (lit "alt") [] in
  if negb (alt =b []) && negb (contains descriptions alt) then descriptions ++ [alt] else descriptions.
Definition picture_content (images : list MarkupNode) (drop_chem : bool) (child : MarkupNode) : bool :=
  if is_text child then bool_decide (length images = 0%nat)
  else negb ((nd_tag child =b lit "img") || ((nd_tag child =b lit "chem") && drop_chem)).
Definition picture_block (skips : Skips) (node : MarkupNode) (parent : Parent) (prov : option Provenance)
    (w : LayoutWriter) : Walked :=
  let '(box, prov) := take_prov prov in
  let '(ref, w) := picture page box parent w in
  let images := images_of (lit "img") node in
  let chemicals := images_of (lit "chem") node in
  let description := foldl join_lines [] (foldl add_alt [] images) in
  let w := describe_picture ref description (lit "chandra") w in
  let w := match chemicals with
           | [chemical] => set_molecule ref (py_strip (html_text chemical)) (lit "chandra") w
           | _ => w
           end in
  if nd_tag node =b lit "chem" then Some (prov, w) else
  let drop_chem := bool_decide (length chemicals = 1%nat) in
  let kept := filter (λ child, picture_content images drop_chem child = true) (nd_children node) in
  '(_, w) ← walk (mk_Skips true drop_chem) kept (Some ref) None DOC_ITEM_LABEL_TEXT w;
  Some (prov, w).

(** *** Lists *)

Definition list_start (node : MarkupNode) : Z :=
  let start := py_strip (attr node (lit "start") (lit "1")) in
  let start := match start with "+"%char :: start => start | _ => start end in
  match from_chars_ll start with
  | Some (value, []) => Z.max 1 (Z.min value 2147483647)
  | _ => 1
  end.
(** Loose content is wrapped into an item. *)
Definition make_wrapper (refs : list MarkupNode) : MarkupNode := mk_MarkupNode kWrapperTag [] [] refs.
Definition flush_pending (s : list MarkupNode * list MarkupNode) : list MarkupNode :=
  let '(pending, children) := s in
  match pending with [] => children | _ => children ++ [make_wrapper pending] end.
Definition gather_item (s : list MarkupNode * list MarkupNode) (child : MarkupNode)
  : list MarkupNode * list MarkupNode :=
  if is_element (lit "li") child || is_element (lit "p") child || is_element (lit "br") child then
    ([], flush_pending s ++ (if nd_tag child =b lit "br" then [] else [child]))
  else (s.1 ++ [child], s.2).
Definition is_content (node : MarkupNode) : bool := negb (is_text node) || negb (py_strip (nd_text node) =b []).
Definition list_children (node : MarkupNode) : list MarkupNode :=
  if negb (nd_tag node =b lit "ul") && negb (nd_tag node =b lit "ol") then
    let s := foldl gather_item ([], []) (nd_children node) in
    if existsb is_content s.1 then flush_pending s else s.2
  else nd_children node.
Definition list_entry (skips : Skips) (ordered : bool) (group : BodyChild) (s : Z * LayoutWriter) (child : MarkupNode)
  : option (Z * LayoutWriter) :=
  let '(number, w) := s in
  if negb (is_content child) then Some s
  else if is_element (lit "ul") child || is_element (lit "ol") child then
    w ← w_list self skips child (Some group) w; Some (number, w)
  else
    let '(item, w) := list_item page None [] ordered (if ordered then to_string number ++ lit "." else []) (Some group) w in
    let content := if is_element (lit "li") child || is_element (lit "p") child || is_element kWrapperTag child
                   then nd_children child else [child] in
    '(_, w) ← walk skips content (Some item) None DOC_ITEM_LABEL_TEXT w;
    Some (number + 1, w).
Definition list_block (skips : Skips) (node : MarkupNode) (parent : Parent) (w : LayoutWriter) : option LayoutWriter :=
  let '(group, w) := list_group parent w in
  let ordered := nd_tag node =b lit "ol" in
  snd <$> foldM (list_entry skips ordered group) (list_start node, w) (list_children node).

(** *** Tables *)

Definition is_rich (node : MarkupNode) : bool := any_descendant (λ n, negb (nd_tag n =b lit "span")) node.
(** One cell: its rich content under a group of the table, and the group's
    reference where it holds something. *)
Definition rich_cell (skips : Skips) (table : BodyChild) (s : list bytes * LayoutWriter) (cell : SpanCell)
  : option (list bytes * LayoutWriter) :=
  let '(refs, w) := s in
  match sp_node cell with
  | Some node =>
      if negb (is_rich node) then Some (refs ++ [[]], w) else
      let '(ref, w) := group (lit "group") GROUP_LABEL_UNSPECIFIED (Some table) w in
      '(_, w) ← walk_children skips node (Some ref) None DOC_ITEM_LABEL_TEXT w;
      Some (refs ++ [if bool_decide (0 < children_of ref w)%nat then body_child_ref GROUP (bc_index ref) else []], w)
  | None => Some (refs ++ [[]], w)
  end.
Definition anchor_of (cell : TableCell) : Z * Z := (tc_start_row_offset_idx cell, tc_start_col_offset_idx cell).
Definition stamp_ref (by_anchor : gmap (Z * Z) bytes) (cell : TableCell) : TableCell :=
  match by_anchor !! anchor_of cell with Some ref => set_tc_ref (Some ref) cell | None => cell end.
Definition add_anchor (by_anchor : gmap (Z * Z) bytes) (entry : SpanCell * bytes) : gmap (Z * Z) bytes :=
  let '(cell, ref) := entry in
  if ref =b [] then by_anchor else <[(Z.of_nat (sp_row cell), Z.of_nat (sp_col cell)) := ref]> by_anchor.
Definition attach_rich_refs (data : TableData) (cells : list SpanCell) (refs : list bytes) : TableData :=
  let by_anchor := foldl add_anchor ∅ (zip cells refs) in
  if bool_decide (by_anchor = ∅) then data else
  mk_TableData (stamp_ref by_anchor <$> td_table_cells data) (td_num_rows data) (td_num_cols data)
    ((λ row : TableRow, stamp_ref by_anchor <$> row) <$> td_grid data).
Definition is_table_caption (child : MarkupNode) : bool :=
  negb (is_text child) &&
  ((nd_tag child =b lit "caption") || (nd_tag child =b lit "figcaption") ||
   (attr child (lit "data-label") [] =b lit "Caption") || (attr child (lit "data-label") [] =b lit "Footnote")).
Definition table_caption (skips : Skips) (table : BodyChild) (w : LayoutWriter) (child : MarkupNode)
  : option LayoutWriter :=
  if is_table_caption child
  then snd <$> w_block self skips child (Some table) None DOC_ITEM_LABEL_CAPTION w else Some w.
Definition table_block (skips : Skips) (node : MarkupNode) (parent : Parent) (prov : option Provenance)
    (w : LayoutWriter) : Walked :=
  let cells := chandra_table_cells node in
  if bool_decide (length cells = 0%nat) then walk_children skips node parent prov DOC_ITEM_LABEL_TEXT w else
  let '(box, prov) := take_prov prov in
  let '(ref, w) := table page box [] parent w in
  '(refs, w) ← foldM (rich_cell skips ref) ([], w) cells;
  let '(data, cut) := fill_span_table cells in
  let w := set_warnings (note_table_cut cut data (lit "table") (body_child_ref TABLE (bc_index ref)) (lw_warnings w)) w in
  let w := on_table (set_ti_data (Some (attach_rich_refs data cells refs))) ref w in
  w ← foldM (table_caption skips ref) w (nd_children node);
  Some (prov, w).

(** *** Blocks *)

Definition code_block (node : MarkupNode) (parent : Parent) (prov : option Provenance) (w : LayoutWriter)
  : option Provenance * LayoutWriter :=
  let body := strip_chars (html_text node) (λ c, (c =c c_nl) || (c =c c_cr)) in
  let '(box, prov) := text_prov prov in
  (prov, (code page box body (attr node (lit "class") []) parent w).2).
Definition math_block (node : MarkupNode) (parent : Parent) (prov : option Provenance) (w : LayoutWriter)
  : option Provenance * LayoutWriter :=
  let '(box, prov) := text_prov prov in
  (prov, (formula page box (py_strip (html_text node)) parent w).2).
Definition runs_block (skips : Skips) (node : MarkupNode) (parent : Parent) (prov : option Provenance)
    (label : DocItemLabel) (w : LayoutWriter) : option Provenance * LayoutWriter :=
  let runs := inline_runs (skip_chem skips) node Formatting_empty [] in
  let label := if negb (has_attr node (lit "data-label"))
               then match runs with [run] => rn_label run | _ => label end else label in
  emit_runs runs parent prov label w.
Definition form_block (skips : Skips) (node : MarkupNode) (parent : Parent) (prov : option Provenance)
    (w : LayoutWriter) : Walked :=
  let '(box, prov) := take_prov prov in
  let '(region, w) := field_region page box parent w in
  '(_, w) ← walk_children skips node (Some region) None DOC_ITEM_LABEL_TEXT w;
  Some (prov, w).
(** The captions among the new texts are linked to the item they are under. *)
Definition link_new (caption_label : DocItemLabel) (owner : BodyChild) (w : LayoutWriter) (i : nat) : LayoutWriter :=
  let item := mk_BodyChild TEXT i in
  if negb (bool_decide (label_of item w = caption_label)) then w
  else if bool_decide (caption_label = DOC_ITEM_LABEL_FOOTNOTE) then link_footnote owner item w
  else link_caption owner item w.
Definition caption_block (skips : Skips) (node : MarkupNode) (parent : Parent) (prov : option Provenance)
    (caption_label : DocItemLabel) (w : LayoutWriter) : Walked :=
  let before := text_count w in
  '(prov, w) ← walk_children skips node parent prov caption_label w;
  match parent with
  | Some owner =>
      if bool_decide (bc_kind owner = PICTURE) || bool_decide (bc_kind owner = TABLE)
      then Some (prov, foldl (link_new caption_label owner) w (seq before (text_count w - before)))
      else Some (prov, w)
  | None => Some (prov, w)
  end.
Definition heading_depth (tag : bytes) : Z := default 0 ((λ d, Prelude.code d - 48) <$> tag !! 1%nat).
Definition children_block (skips : Skips) (node : MarkupNode) (parent : Parent) (prov : option Provenance)
    (label : DocItemLabel) (w : LayoutWriter) : Walked :=
  let heading := is_heading_tag (nd_tag node) in
  let label := if heading && bool_decide (label = DOC_ITEM_LABEL_TEXT) then DOC_ITEM_LABEL_SECTION_HEADER else label in
  let before := text_count w in
  '(prov, w) ← walk_children skips node parent prov label w;
  Some (prov, if heading then set_levels before (heading_depth (nd_tag node)) w else w).
Definition read_block (skips : Skips) (node : MarkupNode) (parent : Parent) (prov : option Provenance)
    (label : DocItemLabel) (w : LayoutWriter) : Walked :=
  match reading_of node with
  | ReadPicture => picture_block skips node parent prov w
  | ReadTable => table_block skips node parent prov w
  | ReadList => w ← list_block skips node parent w; Some (prov, w)
  | ReadCode => Some (code_block node parent prov w)
  | ReadMath => Some (math_block node parent prov w)
  | ReadRuns => Some (runs_block skips node parent prov label w)
  | ReadForm => form_block skips node parent prov w
  | ReadCaption caption_label => caption_block skips node parent prov caption_label w
  | ReadChildren => children_block skips node parent prov label w
  | ReadNothing => Some (prov, w)
  end.
(** A block with a label or a box of its own keeps its provenance to itself. *)
Definition block (skips : Skips) (node : MarkupNode) (parent : Parent) (prov : option Provenance)
    (label : DocItemLabel) (w : LayoutWriter) : Walked :=
  let has_label := has_attr node (lit "data-label") in
  let layout_label := attr node (lit "data-label") [] in
  if has_attr node (lit "data-bbox") || has_label then
    let own := mk_Provenance (provenance node) (negb (has_label && contains kNotTextOwners layout_label)) false in
    let label := default DOC_ITEM_LABEL_TEXT (layout_label_of (if has_label then layout_label else [])) in
    '(_, w) ← read_block skips node parent (Some own) label w;
    Some (prov, w)
  else read_block skips node parent prov label w.
End Steps.

(** The methods on elements lower than [fuel]. *)
Fixpoint chandra_builder (fuel : nat) : Walker :=
  match fuel with
  | O => mk_Walker (λ _ _ _ _ _ _, None) (λ _ _ _ _, None)
  | S fuel => mk_Walker (block (chandra_builder fuel)) (list_block (chandra_builder fuel))
  end.
Definition no_skips : Skips := mk_Skips false false.

(** * Entry points *)

(** False with the writer as it was: no element in the HTML. *)
Definition add_html_fragment (html : bytes) (label : DocItemLabel) (box : option BoundingBox) (parent : Parent)
    (w : LayoutWriter) : option (bool * LayoutWriter) :=
  let root := parse_markup html kHtml in
  if negb (any_descendant (λ _, true) root) then Some (false, w) else
  let prov := (λ box, mk_Provenance (Some box) true false) <$> box in
  '(_, w) ← walk_children (chandra_builder (height root)) no_skips root parent prov label w;
  Some (true, w).
Definition flatten_caption (child : MarkupNode) : MarkupNode :=
  if is_element (lit "caption") child || is_element (lit "figcaption") child
  then mk_MarkupNode (nd_tag child) (nd_text child) (nd_attrs child) [text_node (html_text child)] else child.
Definition flatten_captions (node : MarkupNode) : MarkupNode :=
  mk_MarkupNode (nd_tag node) (nd_text node) (nd_attrs node) (flatten_caption <$> nd_children node).
Definition add_html_table (html : bytes) (box : option BoundingBox) (parent : Parent) (w : LayoutWriter)
  : option (option BodyChild * LayoutWriter) :=
  match find_element (lit "table") (parse_markup html kHtml) with
  | None => Some (None, w)
  | Some node =>
      if bool_decide (length (chandra_table_cells node) = 0%nat) then Some (None, w) else
      let node := flatten_captions node in
      let before := item_count w in
      '(_, w) ← table_block (chandra_builder (S (height node))) no_skips node parent (Some (mk_Provenance box false false)) w;
      Some (if bool_decide (item_count w = before) then None else Some (last_table w), w)
  end.
Definition add_inline_text (text : bytes) (label : DocItemLabel) (box : option BoundingBox) (parent : option BodyChild)
    (w : LayoutWriter) : option (bool * LayoutWriter) :=
  let html := markdown_inline_html text in
  if negb (has_inline_html_tag html) then Some (false, w) else
  match parent with
  | Some parent => add_html_fragment html label box (Some parent) w
  | None =>
      let '(item, w) := styled_text page label box [] None [] None w in
      let w := set_orig item text w in
      add_html_fragment html DOC_ITEM_LABEL_TEXT None (Some item) w
  end.

Fixpoint find_blocks (node : MarkupNode) : list MarkupNode :=
  match node with
  | mk_MarkupNode _ _ _ children =>
      foldr (λ child out,
          if is_text child then out
          else (if has_attr child (lit "data-label") || has_attr child (lit "data-bbox") then [child]
                else find_blocks child) ++ out)
        [] children
  end.
Definition is_blank_page (node : MarkupNode) : bool := attr node (lit "data-label") [] =b lit "Blank-Page".
Definition blank_page (blocks : list MarkupNode) : bool :=
  existsb (λ block, is_blank_page block || any_descendant is_blank_page block) blocks.
Definition is_html_node (node : MarkupNode) : bool :=
  negb (is_text node) && negb (nd_tag node =b lit "script") && negb (nd_tag node =b lit "style") &&
  negb (nd_tag node =b lit "head").
Definition kNoBlocks : bytes := lit "Chandra response contains no HTML transcription or layout blocks".
Definition kNoContent : bytes := lit "Chandra HTML contains no document content".
(** The page from its tree; [None]: out of fuel. *)
Definition chandra_page (root : MarkupNode) (out : Document) (warnings : Warnings) : option MapResult :=
  let builder := chandra_builder (S (height root)) in
  let w := LayoutWriter_new page out warnings in
  let blocks := find_blocks root in
  let html_nodes := filter (λ node, is_html_node node = true) (nd_children root) in
  if bool_decide (length blocks = 0%nat) && bool_decide (length html_nodes = 0%nat)
  then Some (MapFailed kNoBlocks) else
  w ← (if bool_decide (length blocks = 0%nat)
       then snd <$> walk builder no_skips html_nodes None None DOC_ITEM_LABEL_TEXT w
       else foldM (λ w node, snd <$> block builder no_skips node None None DOC_ITEM_LABEL_TEXT w) w blocks);
  Some (if bool_decide (item_count w = 0%nat) && negb (blank_page blocks) then MapFailed kNoContent
        else finish page (lit "Chandra") true w).
Definition map_chandra_html (text : bytes) (out : Document) (warnings : Warnings) : MapResult :=
  if py_strip text =b [] then finish page (lit "Chandra") true (LayoutWriter_new page out warnings)
  else default (MapFailed []) (chandra_page (parse_markup text kHtml) out warnings).
End Builder.

(** * Every walk ends and adds to the tree *)

Section Walks.
Context `{ProtobufSize} `{Stb}.
Context (page : PageContext).
Abbreviation grows := (grows page).

Definition walked (w : LayoutWriter) (m : Walked) : Prop := ∃ prov w', m = Some (prov, w') ∧ grows w w'.

Lemma set_levels_grows before level w : grows w (set_levels before level w).
Proof. apply grows_edits. intros w' i. apply (grows_edit page (SetHeadingLevel i level)). Qed.

Lemma add_run_grows run_label label parent layer s run :
  valid_parent s.2 parent → grows s.2 (add_run page run_label label parent layer s run).2.
Proof.
  destruct s as [prov w]. cbn [snd]. intros Hp. unfold add_run.
  destruct (if bool_decide (run_label = label) then _ else _) as [box prov'].
  destruct (styled_text _ _ _ _ _ _ _ _) as [item w1] eqn:E.
  apply (grows_add page (AddStyledText _ _ _ _ _)) in E as [Hg _]; [|done].
  etrans; [apply Hg|apply (grows_edit page (SetContentLayer item layer))].
Qed.
Lemma emit_run_grows alone parent label layer s run :
  valid_parent s.2 parent → grows s.2 (emit_run page alone parent label layer s run).2.
Proof.
  destruct s as [prov w]. intros Hp. unfold emit_run. destruct parent as [ref|]; [|by apply add_run_grows].
  destruct (_ && _); [|by apply add_run_grows]. apply (grows_edit page (SetText ref _ _ _)).
Qed.

Lemma group_runs_grows parent prov label layer w :
  valid_parent w parent →
  let '(parent', _, w') := group_runs page parent prov label layer w in grows w w' ∧ valid_parent w' parent'.
Proof.
  intros Hp. unfold group_runs.
  destruct (if bool_decide (label = DOC_ITEM_LABEL_TEXT) then _ else _) as [[parent1 prov1] w1] eqn:Ef.
  assert (grows w w1 ∧ valid_parent w1 parent1) as [Hg1 Hv1].
  { case_bool_decide; [by injection Ef as <- <- <-|]. destruct (text_prov prov) as [box prov'].
    destruct (styled_text _ _ _ _ _ _ _ _) as [item w2] eqn:E. injection Ef as <- <- <-.
    apply (grows_add page (AddStyledText _ _ _ _ _)) in E as [Hg Hv]; [|done].
    split; [etrans; [apply Hg|]|eapply grows_valid; [|apply Hv]]; apply (grows_edit page (SetContentLayer item layer)). }
  destruct (inline_group _ _) as [group w2] eqn:E.
  apply (grows_add page (AddGroup _ _)) in E as [Hg2 Hv2]; [|done].
  pose proof (grows_edit page (SetContentLayer group layer) w2) as Hg3.
  split; [by do 2 (etrans; [eassumption|])|]. by eapply grows_valid.
Qed.

Lemma emit_runs_grows runs parent prov label w :
  valid_parent w parent → grows w (emit_runs page runs parent prov label w).2.
Proof.
  intros Hp. unfold emit_runs. set (kept := keep_runs _ _). case_bool_decide; [done|].
  set (layer := if decide _ then _ else _). destruct (formula_runs label kept) as [kept' label'].
  pose proof (group_runs_grows parent prov label' layer w Hp) as Hgroup.
  destruct (if bool_decide (length kept' = 1%nat) then _ else _) as [[parent1 prov1] w1] eqn:E.
  assert (grows w w1 ∧ valid_parent w1 parent1) as [Hg1 Hp1].
  { case_bool_decide; [by injection E as <- <- <-|]. by rewrite E in Hgroup. }
  generalize (bool_decide (length kept' = 1%nat)). intros alone. clear E Hgroup.
  assert (Hfold : ∀ s, valid_parent s.2 parent1 → grows s.2 (foldl (emit_run page alone parent1 label' layer) s kept').2).
  { clear Hg1. clear -Hp1. induction kept' as [|run kept' IH]; intros s Hs; [done|]. cbn [foldl].
    pose proof (emit_run_grows alone parent1 label' layer s run Hs) as Hg.
    etrans; [apply Hg|]. apply IH. by eapply grows_valid. }
  specialize (Hfold (prov1, w1) Hp1). destruct (foldl _ _ _) as [prov2 w2]. cbn [snd] in *.
  etrans; [apply Hg1|]. etrans; [apply Hfold|]. apply set_levels_grows.
Qed.
End Walks.

(** ** The height of what a step hands on *)

Lemma heights_children node n : (height node ≤ n)%nat → heights (nd_children node) n.
Proof. apply height_le. Qed.
Lemma heights_sub (children children' : list MarkupNode) n :
  children' ⊆ children → heights children n → heights children' n.
Proof. unfold heights. rewrite !Forall_forall. set_solver. Qed.

Lemma row_cells_nodes rows index row nodes col occupied cell node :
  cell ∈ (row_cells rows index row nodes col occupied).1 → sp_node cell = Some node → node ∈ nodes.
Proof.
  revert col occupied. induction nodes as [|n nodes IH]; intros col occupied; cbn [row_cells]; [by intros ?%elem_of_nil|].
  destruct (negb _); [intros; right; by eapply IH|].
  set (c := free_column _ _ _ _). destruct (bool_decide _); [by intros ?%elem_of_nil|].
  destruct (row_cells rows index row nodes _ _) as [cells occupied'] eqn:E. cbn [fst].
  intros [->|Hin]%elem_of_cons; cbn [sp_node]; [intros [= ->]; left|]. intros Hn. right. eapply IH; [|done].
  by rewrite E.
Qed.
Lemma rows_cells_nodes rows index todo occupied cell node :
  cell ∈ rows_cells rows index todo occupied → sp_node cell = Some node →
  ∃ row, row ∈ todo ∧ node ∈ nd_children (rw_node row).
Proof.
  revert index occupied. induction todo as [|row todo IH]; intros index occupied; cbn [rows_cells]; [by intros ?%elem_of_nil|].
  destruct (row_cells _ _ _ _ _ _) as [cells occupied'] eqn:E.
  intros [Hin|Hin]%elem_of_app Hn.
  - exists row. split; [left|]. eapply row_cells_nodes; [|done]. by rewrite E.
  - destruct (IH _ _ Hin Hn) as (row' & ? & ?). exists row'. split; [by right|done].
Qed.
Lemma table_rows_height table row : row ∈ table_rows table → (height (rw_node row) < height table)%nat.
Proof.
  unfold table_rows.
  assert (Hgen : ∀ children rows, children ⊆ nd_children table →
    (∀ row, row ∈ rows → (height (rw_node row) < height table)%nat) →
    ∀ row, row ∈ foldl (λ rows child,
      if is_element (lit "tr") child then rows ++ [mk_Row child false 0]
      else if is_element (lit "thead") child || is_element (lit "tbody") child || is_element (lit "tfoot") child then
        let group := filter (λ row, is_element (lit "tr") row = true) (nd_children child) in
        rows ++ ((λ row, mk_Row row (nd_tag child =b lit "thead") (length rows + length group)) <$> group)
      else rows) rows children → (height (rw_node row) < height table)%nat).
  { induction children as [|child children IH]; intros rows Hsub Hrows; cbn [foldl]; [done|].
    apply IH; [set_solver|]. assert (child ∈ nd_children table) as Hc by set_solver.
    apply height_child in Hc. destruct (is_element (lit "tr") child).
    - intros r [Hr|Hr]%elem_of_app; [by apply Hrows|]. apply list_elem_of_singleton in Hr as ->. done.
    - destruct (_ || _); [|done]. intros r [Hr|Hr]%elem_of_app; [by apply Hrows|].
      apply list_elem_of_fmap in Hr as (n & -> & [_ Hn]%list_elem_of_filter). cbn. apply height_child in Hn. lia. }
  apply Hgen; [done|]. by intros r ?%elem_of_nil.
Qed.
Lemma cell_height table cell node :
  cell ∈ chandra_table_cells table → sp_node cell = Some node → (height node < height table)%nat.
Proof.
  intros Hc Hn. destruct (rows_cells_nodes _ _ _ _ _ _ Hc Hn) as (row & Hr & Hin).
  apply table_rows_height in Hr. apply height_child in Hin. lia.
Qed.

(** The items of a list: elements below it, or a wrapper around some. *)
Definition list_child (n : nat) (child : MarkupNode) : Prop :=
  (height child < n)%nat ∨ (nd_tag child = kWrapperTag ∧ heights (nd_children child) n).
Lemma flush_pending_ok n s :
  heights s.1 n → Forall (list_child n) s.2 → Forall (list_child n) (flush_pending s).
Proof.
  destruct s as [[|r pending] children]; cbn [fst snd flush_pending]; [done|]. intros Hp Hc.
  apply Forall_app_2; [done|]. constructor; [|done]. by right.
Qed.
Lemma list_children_ok node n : heights (nd_children node) n → Forall (list_child n) (list_children node).
Proof.
  intros Hn. unfold list_children.
  assert (Hall : ∀ children s, heights children n → heights s.1 n → Forall (list_child n) s.2 →
    let s' := foldl gather_item s children in heights s'.1 n ∧ Forall (list_child n) s'.2).
  { clear. induction children as [|child children IH]; intros s Hch H1 H2; cbn [foldl]; [done|].
    apply Forall_cons in Hch as [Hc Hch]. apply IH; [done| |]; unfold gather_item.
    - destruct (_ || _); [constructor|]. by apply Forall_app_2; [|constructor].
    - destruct (_ || _); [|done]. apply Forall_app_2; [by apply flush_pending_ok|].
      destruct (_ =b _); constructor; [by left|done]. }
  destruct (_ && _); [|eapply Forall_impl; [apply Hn|by left]].
  destruct (Hall (nd_children node) ([], [])) as [H1 H2]; [done|constructor..|].
  destruct (existsb _ _); [by apply flush_pending_ok|done].
Qed.

(** ** The steps *)

Section Steps.
Context `{ProtobufSize} `{Stb}.
Context (page : PageContext) (self : Walker) (n : nat).
Abbreviation grows := (grows page).
Abbreviation walked := (walked page).

(** The calls on elements lower than [n] end. *)
Record walker_ok : Prop := {
  wo_block skips node parent prov label w : (height node < n)%nat → valid_parent w parent →
    walked w (w_block self skips node parent prov label w);
  wo_list skips node parent w : (height node < n)%nat → valid_parent w parent →
    ∃ w', w_list self skips node parent w = Some w' ∧ grows w w' }.
Context (Hself : walker_ok).

Lemma walk_ok skips children parent prov label w :
  heights children n → valid_parent w parent → walked w (walk page self skips children parent prov label w).
Proof using Hself.
  intros Hh Hp. unfold walk.
  destruct (foldM_inv (λ s, grows w s.2) (walk_step page self skips parent label) ([], prov, w) children)
    as ([[runs prov'] w'] & -> & Hg); [done| |].
  - intros [[runs prov'] w'] node Hin Hg. cbn [snd] in Hg. unfold walk_step.
    destruct (negb _ && _); [by eexists|]. destruct (_ || _); [by eexists|].
    assert (Hp' : valid_parent w' parent) by by eapply grows_valid.
    pose proof (emit_runs_grows page runs parent prov' label w' Hp') as Hg1.
    destruct (emit_runs _ _ _ _ _ _) as [prov1 w1]. cbn [snd] in Hg1.
    unfold heights in Hh. rewrite Forall_forall in Hh.
    destruct (wo_block Hself skips node parent prov1 label w1) as (prov2 & w2 & -> & Hg2);
      [by apply Hh|by eapply grows_valid|].
    cbn [mbind option_bind]. eexists. split; [done|]. cbn [snd]. by do 2 (etrans; [eassumption|]).
  - cbn [mbind option_bind snd] in *. pose proof (emit_runs_grows page runs parent prov' label w'
      (grows_valid page _ _ _ Hg Hp)) as Hg1.
    destruct (emit_runs _ _ _ _ _ _) as [prov1 w1]. exists prov1, w1. split; [done|]. by etrans.
Qed.

(** A walk whose own provenance is dropped. *)
Lemma walk_grows skips children parent label w :
  heights children n → valid_parent w parent →
  ∃ prov w', walk page self skips children parent None label w = Some (prov, w') ∧ grows w w'.
Proof using Hself. intros. by apply walk_ok. Qed.

Lemma picture_block_ok skips node parent prov w :
  (height node ≤ n)%nat → valid_parent w parent → walked w (picture_block page self skips node parent prov w).
Proof using Hself.
  intros Hn Hp. unfold picture_block. destruct (take_prov prov) as [box prov'].
  destruct (picture _ _ _ _) as [ref w1] eqn:E. apply (grows_add page (AddPicture _)) in E as [Hg1 Hv1]; [|done].
  set (chemicals := images_of (lit "chem") node). set (images := images_of (lit "img") node).
  pose proof (grows_edit page (DescribePicture ref (foldl join_lines [] (foldl add_alt [] images)) (lit "chandra")) w1) as Hg2.
  change (run_edit _ _) with (describe_picture ref (foldl join_lines [] (foldl add_alt [] images)) (lit "chandra") w1) in Hg2.
  set (w2 := describe_picture _ _ _ w1) in *.
  assert (Hg3 : grows w2 (match chemicals with
    | [chemical] => set_molecule ref (py_strip (html_text chemical)) (lit "chandra") w2 | _ => w2 end)).
  { destruct chemicals as [|c []]; try done. apply (grows_edit page (SetMolecule ref _ _)). }
  set (w3 := match chemicals with [_] => _ | _ => _ end) in *.
  assert (Hg : grows w w3) by by do 2 (etrans; [eassumption|]).
  destruct (_ =b _); [by eexists _, _|].
  destruct (walk_grows (mk_Skips true (bool_decide (length chemicals = 1%nat)))
    (filter (λ child, picture_content images (bool_decide (length chemicals = 1%nat)) child = true) (nd_children node))
    (Some ref) DOC_ITEM_LABEL_TEXT w3) as (prov4 & w4 & -> & Hg4).
  - eapply heights_sub; [|by apply heights_children]. intros x. by rewrite list_elem_of_filter; intros [].
  - eapply grows_valid; [apply Hg3|]. by eapply grows_valid.
  - cbn [mbind option_bind]. exists prov', w4. split; [done|]. by etrans.
Qed.

Lemma list_entry_ok skips ordered group child s :
  list_child n child → valid_parent s.2 (Some group) →
  ∃ s', list_entry page self skips ordered group s child = Some s' ∧ grows s.2 s'.2.
Proof using Hself.
  destruct s as [number w]. cbn [snd]. intros Hc Hv. unfold list_entry.
  destruct (negb _); [by eexists|]. destruct (is_element (lit "ul") child || _) eqn:Elist.
  - assert (Hlt : (height child < n)%nat).
    { destruct Hc as [?|[Htag _]]; [done|]. unfold is_element in Elist. rewrite Htag in Elist.
      by rewrite !andb_false_r in Elist. }
    destruct (wo_list Hself skips child (Some group) w Hlt Hv) as (w1 & -> & Hg).
    cbn [mbind option_bind]. eexists. split; [done|]. done.
  - destruct (list_item _ _ _ _ _ _ _) as [item w1] eqn:E.
    apply (grows_add page (AddListItem _ _ _ _)) in E as [Hg1 Hv1]; [|done].
    destruct (walk_grows skips (if is_element (lit "li") child || is_element (lit "p") child || is_element kWrapperTag child
      then nd_children child else [child]) (Some item) DOC_ITEM_LABEL_TEXT w1) as (prov2 & w2 & -> & Hg2); [|done|].
    + destruct Hc as [Hlt|[Htag Hh]].
      * destruct (is_element (lit "li") child || _ || _); [apply heights_children; lia|by constructor].
      * assert (is_element kWrapperTag child = true) as -> by (unfold is_element, is_text; by rewrite Htag).
        by rewrite orb_true_r.
    + cbn [mbind option_bind]. eexists. split; [done|]. cbn. by etrans.
Qed.
Lemma list_block_ok skips node parent w :
  (height node ≤ n)%nat → valid_parent w parent →
  ∃ w', list_block page self skips node parent w = Some w' ∧ grows w w'.
Proof using Hself.
  intros Hn Hp. unfold list_block. destruct (list_group _ _) as [group w1] eqn:E.
  apply (grows_add page (AddGroup _ _)) in E as [Hg1 Hv1]; [|done].
  destruct (foldM_inv (λ s, grows w1 s.2) (list_entry page self skips (nd_tag node =b lit "ol") group)
    (list_start node, w1) (list_children node)) as (s & -> & Hg); [done| |].
  - intros s child Hin Hg. destruct (list_entry_ok skips (nd_tag node =b lit "ol") group child s) as (s' & -> & Hg').
    + pose proof (list_children_ok node n (heights_children _ _ Hn)) as Hall. rewrite Forall_forall in Hall. by apply Hall.
    + by eapply grows_valid.
    + eexists. split; [done|]. by etrans.
  - cbn. eexists. split; [done|]. by etrans.
Qed.

Lemma rich_cell_ok skips table s cell :
  (∀ node, sp_node cell = Some node → (height node ≤ n)%nat) → valid_parent s.2 (Some table) →
  ∃ s', rich_cell page self skips table s cell = Some s' ∧ grows s.2 s'.2.
Proof using Hself.
  destruct s as [refs w]. cbn [snd]. intros Hn Hv. unfold rich_cell.
  destruct (sp_node cell) as [node|]; [|by eexists]. destruct (negb _); [by eexists|].
  destruct (group _ _ _ _) as [ref w1] eqn:E. apply (grows_add page (AddGroup _ _)) in E as [Hg1 Hv1]; [|done].
  unfold walk_children. destruct (walk_grows skips (nd_children node) (Some ref) DOC_ITEM_LABEL_TEXT w1)
    as (prov2 & w2 & -> & Hg2); [by apply heights_children, Hn|done|].
  cbn [mbind option_bind]. eexists. split; [done|]. cbn. by etrans.
Qed.
Lemma table_block_ok skips node parent prov w :
  (height node ≤ n)%nat → valid_parent w parent → walked w (table_block page self skips node parent prov w).
Proof using Hself.
  intros Hn Hp. unfold table_block. case_bool_decide; [by apply walk_ok; [apply heights_children|]|].
  destruct (take_prov prov) as [box prov'].
  destruct (table _ _ _ _ _) as [ref w1] eqn:E. apply (grows_add page (AddTable _ _)) in E as [Hg1 Hv1]; [|done].
  destruct (foldM_inv (λ s, grows w1 s.2) (rich_cell page self skips ref) ([], w1) (chandra_table_cells node))
    as ([refs w2] & -> & Hg2); [done| |].
  { intros s cell Hin Hg. destruct (rich_cell_ok skips ref s cell) as (s' & -> & Hg').
    - intros cn Hcn. pose proof (cell_height _ _ _ Hin Hcn). lia.
    - by eapply grows_valid.
    - eexists. split; [done|]. by etrans. }
  cbn [mbind option_bind snd] in *. destruct (fill_span_table _) as [data cut].
  set (w3 := set_warnings _ w2). set (w4 := on_table _ ref w3).
  assert (Hg4 : grows w1 w4).
  { etrans; [apply Hg2|]. transitivity w3; [apply grows_set_warnings|apply (grows_edit page (SetTableData ref _))]. }
  clearbody w4. destruct (foldM_inv (λ w, grows w1 w) (table_caption self skips ref) w4 (nd_children node))
    as (w5 & -> & Hg5); [done| |].
  { intros w' child Hin Hg. unfold table_caption. destruct (is_table_caption child); [|by eexists].
    destruct (wo_block Hself skips child (Some ref) None DOC_ITEM_LABEL_CAPTION w') as (? & w'' & -> & Hg').
    - apply height_child in Hin. lia.
    - by eapply grows_valid.
    - cbn. eexists. split; [done|]. by etrans. }
  cbn [mbind option_bind]. exists prov', w5. split; [done|]. by etrans.
Qed.

Lemma form_block_ok skips node parent prov w :
  (height node ≤ n)%nat → valid_parent w parent → walked w (form_block page self skips node parent prov w).
Proof using Hself.
  intros Hn Hp. unfold form_block. destruct (take_prov prov) as [box prov'].
  destruct (field_region _ _ _ _) as [ref w1] eqn:E. apply (grows_add page (AddFieldRegion _)) in E as [Hg1 Hv1]; [|done].
  unfold walk_children. destruct (walk_grows skips (nd_children node) (Some ref) DOC_ITEM_LABEL_TEXT w1)
    as (prov2 & w2 & -> & Hg2); [by apply heights_children|done|].
  cbn [mbind option_bind]. eexists _, _. split; [done|]. by etrans.
Qed.
Lemma caption_block_ok skips node parent prov label w :
  (height node ≤ n)%nat → valid_parent w parent → walked w (caption_block page self skips node parent prov label w).
Proof using Hself.
  intros Hn Hp. unfold caption_block, walk_children.
  destruct (walk_ok skips (nd_children node) parent prov label w) as (prov1 & w1 & -> & Hg1); [by apply heights_children|done|].
  cbn [mbind option_bind]. destruct parent as [owner|]; [|by eexists _, _].
  destruct (_ || _); [|by eexists _, _]. eexists _, _. split; [done|]. etrans; [apply Hg1|].
  apply grows_edits. intros w' i. unfold link_new. destruct (negb _); [done|].
  case_bool_decide; [apply (grows_edit page (LinkFootnote owner _))|apply (grows_edit page (LinkCaption owner _))].
Qed.
Lemma children_block_ok skips node parent prov label w :
  (height node ≤ n)%nat → valid_parent w parent → walked w (children_block page self skips node parent prov label w).
Proof using Hself.
  intros Hn Hp. unfold children_block, walk_children. set (label' := if _ && _ then _ else _).
  destruct (walk_ok skips (nd_children node) parent prov label' w) as (prov1 & w1 & -> & Hg1); [by apply heights_children|done|].
  cbn [mbind option_bind]. eexists _, _. split; [done|]. destruct (is_heading_tag _); [|done].
  etrans; [apply Hg1|]. apply set_levels_grows.
Qed.

Lemma text_prov_add add parent prov w :
  valid_parent w parent → grows w (let '(box, _) := text_prov prov in (run_add page (add box) parent w).2).
Proof.
  intros Hp. destruct (text_prov prov) as [box prov']. destruct (run_add _ _ _ _) as [ref w1] eqn:E.
  by apply grows_add in E as [? _].
Qed.
Lemma read_block_ok skips node parent prov label w :
  (height node ≤ n)%nat → valid_parent w parent → walked w (read_block page self skips node parent prov label w).
Proof using Hself.
  intros Hn Hp. unfold read_block. destruct (reading_of node).
  - by apply picture_block_ok.
  - by apply table_block_ok.
  - destruct (list_block_ok skips node parent w Hn Hp) as (w1 & -> & Hg). by eexists _, _.
  - unfold code_block. pose proof (text_prov_add (λ box, AddCode box
      (strip_chars (html_text node) (λ c, (c =c c_nl) || (c =c c_cr))) (attr node (lit "class") [])) parent prov w Hp) as Hg.
    destruct (text_prov prov). by eexists _, _.
  - unfold math_block. pose proof (text_prov_add (λ box, AddFormula box (py_strip (html_text node))) parent prov w Hp) as Hg.
    destruct (text_prov prov). by eexists _, _.
  - unfold runs_block. set (label' := if negb _ then _ else _).
    set (runs := inline_runs (skip_chem skips) node Formatting_empty []).
    pose proof (emit_runs_grows page runs parent prov label' w Hp) as Hg.
    destruct (emit_runs _ _ _ _ _ _) as [prov1 w1]. by eexists _, _.
  - by apply form_block_ok.
  - by apply caption_block_ok.
  - by apply children_block_ok.
  - by eexists _, _.
Qed.
Lemma block_ok skips node parent prov label w :
  (height node ≤ n)%nat → valid_parent w parent → walked w (block page self skips node parent prov label w).
Proof using Hself.
  intros Hn Hp. unfold block. destruct (_ || _); [|by apply read_block_ok].
  match goal with |- context [read_block page self skips node parent ?own ?label w] =>
    destruct (read_block_ok skips node parent own label w Hn Hp) as (? & w1 & -> & Hg) end.
  cbn [mbind option_bind]. by eexists _, _.
Qed.
End Steps.

Section Ends.
Context `{ProtobufSize} `{Stb}.
Context (page : PageContext).

Lemma chandra_builder_ok n : walker_ok page (chandra_builder page n) n.
Proof.
  induction n as [|n IH]; (split; [intros ?????? Hn Hp|intros ???? Hn Hp]; [lia || idtac|lia || idtac]); cbn [chandra_builder w_block w_list].
  - apply (block_ok page _ n IH); [lia|done].
  - apply (list_block_ok page _ n IH); [lia|done].
Qed.

Lemma walk_children_ok n skips node parent prov label w :
  (height node ≤ n)%nat → valid_parent w parent →
  walked page w (walk_children page (chandra_builder page n) skips node parent prov label w).
Proof. intros. apply (walk_ok page _ n (chandra_builder_ok n)); [by apply heights_children|done]. Qed.

(** The entry points other mappers call. *)
Lemma add_html_fragment_ok html label box parent w :
  valid_parent w parent → ∃ added w', add_html_fragment page html label box parent w = Some (added, w') ∧ grows page w w'.
Proof.
  intros Hp. unfold add_html_fragment. destruct (negb _); [by eexists _, _|].
  set (root := parse_markup html kHtml).
  destruct (walk_children_ok (height root) no_skips root parent
    ((λ box, mk_Provenance (Some box) true false) <$> box) label w (le_n _) Hp) as (prov1 & w1 & -> & Hg).
  cbn [mbind option_bind]. by eexists _, _.
Qed.
Lemma add_html_table_ok html box parent w :
  valid_parent w parent → ∃ table w', add_html_table page html box parent w = Some (table, w') ∧ grows page w w'.
Proof.
  intros Hp. unfold add_html_table. destruct (find_element _ _) as [node|]; [|by eexists _, _].
  case_bool_decide; [by eexists _, _|]. set (node' := flatten_captions node).
  destruct (table_block_ok page (chandra_builder page (S (height node'))) _ (chandra_builder_ok _) no_skips node' parent
    (Some (mk_Provenance box false false)) w) as (prov1 & w1 & -> & Hg); [lia|done|].
  cbn [mbind option_bind]. by eexists _, _.
Qed.
Lemma add_inline_text_ok text label box parent w :
  valid_parent w parent →
  ∃ added w', add_inline_text page text label box parent w = Some (added, w') ∧ grows page w w'.
Proof.
  intros Hp. unfold add_inline_text. destruct (negb _); [by eexists _, _|].
  destruct parent as [parent|]; [by apply add_html_fragment_ok|].
  destruct (styled_text _ _ _ _ _ _ _ _) as [item w1] eqn:E.
  apply (grows_add page (AddStyledText _ _ _ _ _)) in E as [Hg Hv]; [|done].
  pose proof (grows_edit page (SetOrig item text) w1) as Hg1.
  destruct (add_html_fragment_ok (markdown_inline_html text) DOC_ITEM_LABEL_TEXT None (Some item) (set_orig item text w1))
    as (added & w2 & Ha & Hg2); [by eapply grows_valid|].
  exists added, w2. split; [done|]. by do 2 (etrans; [eassumption|]).
Qed.

Lemma find_blocks_height node block : block ∈ find_blocks node → (height block < height node)%nat.
Proof.
  induction node as [tag text attrs children IH] using MarkupNode_rect_children.
  change (block ∈ foldr (λ child out, if is_text child then out
    else (if has_attr child (lit "data-label") || has_attr child (lit "data-bbox") then [child] else find_blocks child) ++ out)
    [] children → (height block < height (mk_MarkupNode tag text attrs children))%nat).
  assert (Hch : ∀ child, child ∈ children → (height child < height (mk_MarkupNode tag text attrs children))%nat).
  { intros child Hin. by apply height_child. }
  generalize dependent (height (mk_MarkupNode tag text attrs children)). intros h Hch.
  induction IH as [|child children Hc _ IHc]; cbn [foldr]; [by intros ?%elem_of_nil|].
  specialize (IHc ltac:(intros c Hin; apply Hch; by right)). specialize (Hch child ltac:(by left)).
  destruct (is_text child); [done|]. intros [Hin|]%elem_of_app; [|by apply IHc].
  destruct (_ || _); [by apply list_elem_of_singleton in Hin as ->|]. specialize (Hc Hin). lia.
Qed.

(** The walk over a page ends. *)
Lemma chandra_page_ok root out ws :
  (∃ e, chandra_page page root out ws = Some (MapFailed e)) ∨
  ∃ w, grows page (LayoutWriter_new page out ws) w ∧
    chandra_page page root out ws = Some (finish page (lit "Chandra") true w).
Proof.
  unfold chandra_page. set (blocks := find_blocks root).
  set (html_nodes := filter _ _). set (w0 := LayoutWriter_new page out ws).
  destruct (_ && _); [left; by eexists|].
  assert (∃ w, (if bool_decide (length blocks = 0%nat)
       then snd <$> walk page (chandra_builder page (S (height root))) no_skips html_nodes None None DOC_ITEM_LABEL_TEXT w0
       else foldM (λ w node, snd <$> block page (chandra_builder page (S (height root))) no_skips node None None
              DOC_ITEM_LABEL_TEXT w) w0 blocks) = Some w ∧ grows page w0 w) as (w & -> & Hg).
  { case_bool_decide.
    - destruct (walk_ok page _ _ (chandra_builder_ok (S (height root))) no_skips html_nodes None None DOC_ITEM_LABEL_TEXT w0)
        as (prov1 & w1 & -> & Hg); [|done|by eexists].
      apply (heights_sub (nd_children root)); [|apply heights_children; lia].
      intros x. unfold html_nodes. by rewrite list_elem_of_filter; intros [].
    - apply foldM_inv; [done|]. intros w node Hin Hg.
      destruct (block_ok page _ _ (chandra_builder_ok (S (height root))) no_skips node None None DOC_ITEM_LABEL_TEXT w)
        as (prov1 & w1 & -> & Hg1); [apply find_blocks_height in Hin; lia|done|].
      cbn. eexists. split; [done|]. by etrans. }
  cbn [mbind option_bind]. destruct (_ && _); [left; by eexists|right; by exists w].
Qed.
Lemma map_chandra_html_built text ws doc ws' :
  map_chandra_html page text Document_empty ws = Mapped doc ws' →
  ∃ w, built page w ∧ finish page (lit "Chandra") true w = Mapped doc ws'.
Proof.
  unfold map_chandra_html. destruct (_ =b _).
  - intros Hf. eexists. split; [apply built_new|done].
  - destruct (chandra_page_ok (parse_markup text kHtml) Document_empty ws) as [[e ->]|(w & Hg & ->)]; [done|].
    intros Hf. exists w. split; [apply Hg, built_new|done].
Qed.
End Ends.

(** * Pages of text blocks *)

(** A block that holds text: its label, its box on the grid and the text. *)
Record Leaf := mk_Leaf { lf_label : bytes; lf_x0 : Z; lf_y0 : Z; lf_x1 : Z; lf_y1 : Z; lf_text : bytes }.
Definition lf_box (lf : Leaf) : list Z := [lf_x0 lf; lf_y0 lf; lf_x1 lf; lf_y1 lf].
Definition kLeafLabels : list bytes := lit <$>
  ["Text"; "Title"; "Section-Header"; "Caption"; "Footnote"; "Page-Header"; "Page-Footer"; "Equation-Block";
   "Bibliography"]%string.
Definition leaf_text (lf : Leaf) : bytes := py_strip (collapse_runs (lf_text lf)).
Definition leaf_label (lf : Leaf) : DocItemLabel := default DOC_ITEM_LABEL_TEXT (layout_label_of (lf_label lf)).
Definition leaf_node (lf : Leaf) : MarkupNode :=
  mk_MarkupNode (lit "div") []
    [(lit "data-label", lf_label lf); (lit "data-bbox", join_words (to_string <$> lf_box lf))] [text_node (lf_text lf)].
Definition leaf_ok (lf : Leaf) : Prop :=
  lf_label lf ∈ kLeafLabels ∧ 0 <= lf_x0 lf <= lf_x1 lf ∧ lf_x1 lf <= 1000 ∧ 0 <= lf_y0 lf <= lf_y1 lf ∧
  lf_y1 lf <= 1000 ∧ leaf_text lf ≠ [].
(** The item it becomes: the white space of its text collapsed, its box scaled
    to the page, a header or footer in the furniture layer, a section header at
    level 2. *)
Definition leaf_item (page : PageContext) (lf : Leaf) : BaseTextItem :=
  let label := leaf_label lf in
  let box := grid_box page (of_Z <$> lf_box lf) (of_Z 1000) in
  let base := fill_text_base page label (Layout.prov page (Some box) (char_count (leaf_text lf))) (leaf_text lf) in
  match label with
  | DOC_ITEM_LABEL_TITLE => kTitle base
  | DOC_ITEM_LABEL_SECTION_HEADER => kSectionHeader base 2
  | DOC_ITEM_LABEL_FORMULA => kFormula base
  | DOC_ITEM_LABEL_PAGE_HEADER | DOC_ITEM_LABEL_PAGE_FOOTER => kText (set_tb_content_layer CONTENT_LAYER_FURNITURE base)
  | _ => kText base
  end.

Lemma to_string_piece z : 0 <= z → to_string z ≠ [] ∧ Forall (λ c, python_space c = false) (to_string z).
Proof.
  intros Hz. destruct (to_string_digits z Hz) as (Hall & Hne & _). split; [done|].
  eapply Forall_impl; [apply Hall|]. intros c Hc. destruct c as [[] [] [] [] [] [] [] []]; by vm_compute in Hc |- *.
Qed.
Lemma py_float_digits z : 0 <= z < 2 ^ 53 → py_float (to_string z) = Some (of_Z z).
Proof.
  intros Hz. unfold py_float. pose proof (from_chars_general_digits z Hz) as Hf.
  destruct (to_string_digits z) as (Hall & Hne & _); [lia|].
  destruct (to_string z) as [|c s]; [done|]. apply Forall_cons in Hall as [Hc _].
  destruct c as [[] [] [] [] [] [] [] []]; try (by vm_compute in Hc); by rewrite Hf.
Qed.

Section Leaves.
Context `{ProtobufSize} `{Stb}.
Context (page : PageContext).

Lemma leaf_provenance lf :
  leaf_ok lf → provenance page (leaf_node lf) = Some (grid_box page (of_Z <$> lf_box lf) (of_Z 1000)).
Proof.
  intros (_ & Hx & Hx1 & Hy & Hy1 & _). unfold provenance.
  change (attr (leaf_node lf) (lit "data-bbox") []) with (join_words (to_string <$> lf_box lf)).
  unfold pieces_of. rewrite words_join; [|done|].
  2: { apply Forall_fmap. repeat constructor; apply to_string_piece; lia. }
  unfold lf_box. cbn [fmap list_fmap mapM]. rewrite !py_float_digits by lia. cbn [mbind option_bind mret option_ret].
  change dzero with (of_Z 0). rewrite !dle_of_Z by lia.
  by rewrite !(proj2 (Z.leb_le _ _)) by lia.
Qed.

Lemma keep_leaf heading lf :
  leaf_ok lf →
  keep_runs heading (merge_runs [mk_Run (collapse_runs (lf_text lf)) DOC_ITEM_LABEL_TEXT Formatting_empty []]) =
  [mk_Run (leaf_text lf) DOC_ITEM_LABEL_TEXT Formatting_empty []].
Proof.
  intros (_ & _ & _ & _ & _ & Hne). unfold keep_runs, merge_runs. cbn [foldl push_run last].
  assert (keep_run heading ([], false) (mk_Run (collapse_runs (lf_text lf)) DOC_ITEM_LABEL_TEXT Formatting_empty []) =
    ([mk_Run (leaf_text lf) DOC_ITEM_LABEL_TEXT Formatting_empty []],
     ends_with [c_nl] (strip_chars (collapse_runs (lf_text lf)) is_hspace))) as ->.
  { unfold keep_run. cbn [rn_text set_rn_text rn_label]. fold (leaf_text lf).
    rewrite (bool_decide_eq_false_2 (leaf_text lf = [])) by done.
    rewrite (bool_decide_eq_true_2 (length [] = 0%nat)) by done. cbn [negb]. by rewrite andb_false_r. }
  cbn [fst length]. by rewrite (bool_decide_eq_false_2 (1 < 1)%nat), andb_false_r by lia.
Qed.

Lemma leaf_labels lf :
  leaf_ok lf → leaf_label lf ∈ [DOC_ITEM_LABEL_TEXT; DOC_ITEM_LABEL_TITLE; DOC_ITEM_LABEL_SECTION_HEADER;
    DOC_ITEM_LABEL_CAPTION; DOC_ITEM_LABEL_FOOTNOTE; DOC_ITEM_LABEL_PAGE_HEADER; DOC_ITEM_LABEL_PAGE_FOOTER;
    DOC_ITEM_LABEL_FORMULA; DOC_ITEM_LABEL_REFERENCE].
Proof.
  intros (Hl & _). unfold leaf_label.
  repeat (apply elem_of_cons in Hl as [->|Hl]; [by repeat (first [left|right])|]). by apply elem_of_nil in Hl.
Qed.

(** A leaf's one run becomes its item. *)
Lemma emit_leaf lf w items ws :
  leaf_ok lf → wrote_texts w items ws →
  wrote_texts (emit_runs page [mk_Run (collapse_runs (lf_text lf)) DOC_ITEM_LABEL_TEXT Formatting_empty []] None
    (Some (mk_Provenance (Some (grid_box page (of_Z <$> lf_box lf) (of_Z 1000))) true false)) (leaf_label lf) w).2
    (items ++ [leaf_item page lf]) ws.
Proof.
  intros Hok Hw. pose proof (leaf_labels lf Hok) as Hl. unfold emit_runs. rewrite keep_leaf by done.
  set (run := mk_Run (leaf_text lf) DOC_ITEM_LABEL_TEXT Formatting_empty []).
  set (box := grid_box page (of_Z <$> lf_box lf) (of_Z 1000)).
  rewrite (bool_decide_eq_false_2 (length [run] = 0%nat)) by done.
  assert (formula_runs (leaf_label lf) [run] = ([run], leaf_label lf)) as ->.
  { unfold formula_runs. by rewrite (bool_decide_eq_false_2 (1 < length [run])%nat) by (cbn; lia). }
  rewrite (bool_decide_eq_true_2 (length [run] = 1%nat)) by done. cbn [foldl].
  set (layer := if decide _ then _ else _).
  unfold emit_run, add_run, run. cbn [rn_label]. rewrite (bool_decide_eq_true_2 (DOC_ITEM_LABEL_TEXT = DOC_ITEM_LABEL_TEXT)) by done.
  cbn [andb]. rewrite (bool_decide_eq_true_2 (leaf_label lf = leaf_label lf)) by done.
  cbn [text_prov pv_text_owner take_prov take_box pv_box pv_claimed rn_text rn_hyperlink].
  change (plain_formatting (mk_Run _ _ _ _)) with true. cbv iota.
  assert (leaf_label lf ≠ DOC_ITEM_LABEL_CODE ∧ leaf_label lf ≠ DOC_ITEM_LABEL_FIELD_VALUE) as [Hcode Hfield].
  { split; intros E; rewrite E in Hl; eapply (bool_decide_eq_true_2 (_ ∈ _)) in Hl; by vm_compute in Hl. }
  pose proof (styled_wrote page (leaf_label lf) (Some box) (leaf_text lf) w items ws Hcode Hfield Hw) as Hs.
  destruct (styled_text _ _ _ _ _ _ _ _) as [ref w1]. destruct Hs as [-> Hs]. cbv iota beta.
  unfold set_content_layer. cbn [bc_kind bc_index snd].
  apply (wrote_alter (on_text (set_tb_content_layer layer) (set_ci_content_layer layer))) in Hs.
  set (w2 := on_out _ w1) in *. unfold set_levels.
  assert (text_count w2 - text_count w = 1)%nat as ->.
  { unfold text_count, texts_size. rewrite (wr_texts _ _ _ Hs), (wr_texts _ _ _ Hw), length_app. cbn. lia. }
  cbn [seq foldl]. unfold text_count, texts_size. rewrite (wr_texts _ _ _ Hw).
  apply (wrote_alter (λ item, match item with kSectionHeader b _ => kSectionHeader b 2 | _ => item end)) in Hs.
  replace (leaf_item page lf) with ((λ item, match item with kSectionHeader b _ => kSectionHeader b 2 | _ => item end)
    (on_text (set_tb_content_layer layer) (set_ci_content_layer layer)
      (styled_item (leaf_label lf) (fill_text_base page (leaf_label lf)
        (Layout.prov page (Some box) (char_count (leaf_text lf))) (leaf_text lf))))); [apply Hs|].
  unfold leaf_item. fold box. subst layer. clear -Hl.
  repeat (apply elem_of_cons in Hl as [->|Hl]; [done|]). by apply elem_of_nil in Hl.
Qed.

Lemma block_leaf self lf w items ws :
  leaf_ok lf → wrote_texts w items ws →
  ∃ w', block page self no_skips (leaf_node lf) None None DOC_ITEM_LABEL_TEXT w = Some (None, w') ∧
    wrote_texts w' (items ++ [leaf_item page lf]) ws.
Proof.
  intros Hok Hw. unfold block.
  change (has_attr (leaf_node lf) (lit "data-bbox") || has_attr (leaf_node lf) (lit "data-label")) with true. cbv iota.
  rewrite leaf_provenance by done. change (has_attr (leaf_node lf) (lit "data-label")) with true. cbv iota.
  change (attr (leaf_node lf) (lit "data-label") []) with (lf_label lf). fold (leaf_label lf).
  pose proof (emit_leaf lf w items ws Hok Hw) as He. pose proof Hok as (Hl & _).
  assert (negb (true && contains kNotTextOwners (lf_label lf)) = true ∧
    (reading_of (leaf_node lf) = ReadChildren ∨ reading_of (leaf_node lf) = ReadCaption (leaf_label lf))) as [-> Hr].
  { destruct lf as [label x0 y0 x1 y1 t]. unfold leaf_label. cbn [lf_label] in *.
    repeat (apply elem_of_cons in Hl as [->|Hl]; [split; [done|first [by left|by right]]|]). by apply elem_of_nil in Hl. }
  set (own := mk_Provenance _ true false) in *.
  assert (Hwalk : walk_children page self no_skips (leaf_node lf) None (Some own) (leaf_label lf) w =
    Some (emit_runs page [mk_Run (collapse_runs (lf_text lf)) DOC_ITEM_LABEL_TEXT Formatting_empty []] None (Some own)
      (leaf_label lf) w)) by done.
  assert (Hread : ∃ prov w', read_block page self no_skips (leaf_node lf) None (Some own) (leaf_label lf) w = Some (prov, w') ∧
    wrote_texts w' (items ++ [leaf_item page lf]) ws).
  { destruct (emit_runs _ _ _ _ _ _) as [prov w'] eqn:E. cbn [snd] in He. exists prov, w'. split; [|done].
    unfold read_block. destruct Hr as [-> | ->].
    - unfold children_block. change (is_heading_tag (nd_tag (leaf_node lf))) with false. cbn [andb]. by rewrite Hwalk.
    - unfold caption_block. by rewrite Hwalk. }
  destruct Hread as (prov & w' & -> & Hw'). cbn [mbind option_bind]. by exists w'.
Qed.
Lemma blocks_leaves self leaves w items ws :
  Forall leaf_ok leaves → wrote_texts w items ws →
  ∃ w', foldM (λ w node, snd <$> block page self no_skips node None None DOC_ITEM_LABEL_TEXT w) w (leaf_node <$> leaves)
      = Some w' ∧ wrote_texts w' (items ++ (leaf_item page <$> leaves)) ws.
Proof.
  intros Hok. revert w items. induction Hok as [|lf leaves Hlf _ IH]; intros w items Hw.
  - exists w. by rewrite app_nil_r.
  - destruct (block_leaf self lf w items ws Hlf Hw) as (w1 & Hb & Hw1).
    rewrite fmap_cons. cbn [foldM]. rewrite Hb. cbn [mbind option_bind fmap option_fmap option_map snd].
    destruct (IH w1 _ Hw1) as (w2 & Hf & Hw2). exists w2. split; [done|]. by rewrite fmap_cons, (cons_middle (leaf_item page lf)), app_assoc.
Qed.
Lemma find_leaf_blocks leaves :
  find_blocks (mk_MarkupNode (lit "root") [] [] (leaf_node <$> leaves)) = leaf_node <$> leaves.
Proof. induction leaves as [|lf leaves IH]; [done|]. cbn in IH |- *. by rewrite IH. Qed.

Lemma leaf_node_ok room lf : leaf_ok lf → node_ok kHtml (S room) (leaf_node lf).
Proof.
  intros (Hl & Hx & Hx1 & Hy & Hy1 & Hne). apply element_intro.
  - split_and!; try done; by repeat constructor.
  - repeat constructor; by vm_compute.
  - unfold print_open, print_attr. cbn [fmap list_fmap mjoin list_join fst snd].
    rewrite !length_app.
    pose proof (length_escape (join_words (to_string <$> lf_box lf))) as He.
    assert (length (join_words (to_string <$> lf_box lf)) ≤ 131)%nat as Hj.
    { unfold lf_box. cbn [fmap list_fmap join_words]. rewrite !length_app. cbn [length lit String.list_ascii_of_string].
      pose proof (length_to_string (lf_x0 lf)). pose proof (length_to_string (lf_y0 lf)).
      pose proof (length_to_string (lf_x1 lf)). pose proof (length_to_string (lf_y1 lf)). lia. }
    assert (length (escape (lf_label lf)) ≤ 100)%nat as Hlab.
    { clear -Hl. repeat (apply elem_of_cons in Hl as [->|Hl]; [vm_compute; lia|]). by apply elem_of_nil in Hl. }
    cbn [length lit String.list_ascii_of_string]. lia.
  - done.
  - split; [|done]. apply text_intro. intros E. apply Hne. unfold leaf_text. by rewrite E.
Qed.
Lemma leaf_nodes_ok leaves :
  Forall leaf_ok leaves →
  nodes_ok kHtml kMaxMarkupDepth (leaf_node <$> leaves) ∧ separated (leaf_node <$> leaves).
Proof.
  intros Hok. split.
  - induction Hok as [|lf leaves Hlf _ IH]; [done|]. split; [by apply leaf_node_ok|done].
  - clear. induction leaves as [|lf [|lf' leaves] IH]; [done..|]. split; [by intros [? _]|apply IH].
Qed.
End Leaves.

(** Markup is no blank answer. *)
Lemma py_strip_tag tl : py_strip ("<"%char :: tl) ≠ [].
Proof.
  unfold py_strip, strip_chars. change (lstrip python_space ("<"%char :: tl)) with ("<"%char :: tl).
  by destruct (rstrip_cons python_space "<"%char tl eq_refl) as [t ->].
Qed.

(** * Properties *)

(** C19: A Chandra page of labelled text blocks reads back as it was printed:
    HTML that prints any list of such blocks maps to exactly one text item per
    block, each directly under the body, which lists them in the blocks' order;
    there is no other item of any kind, no group and no field region.  An item has
    the kind and label of its block's label, the block's text with its white space
    collapsed, the block's 0..1000 box scaled to the page, headers and footers in
    the furniture layer and section headers at level 2; no warning is added. *)
Theorem map_chandra_roundtrip `{ProtobufSize} `{Stb} page leaves ws :
  leaves ≠ [] → Forall leaf_ok leaves →
  ∃ doc, map_chandra_html page (print_nodes (leaf_node <$> leaves)) Document_empty ws = Mapped doc ws ∧
    text_page doc (leaf_item page <$> leaves) ∧
    item_text <$> doc_texts doc = leaf_text <$> leaves.
Proof.
  intros Hne Hok. destruct (leaf_nodes_ok leaves Hok) as [Hnodes Hsep].
  assert (Hblank : (py_strip (print_nodes (leaf_node <$> leaves)) =b []) = false).
  { apply bool_decide_eq_false_2. destruct leaves as [|lf leaves]; [done|].
    assert (∃ tl, print_nodes (leaf_node <$> lf :: leaves) = "<"%char :: tl) as [tl ->] by (eexists; reflexivity).
    by apply py_strip_tag. }
  unfold map_chandra_html. rewrite Hblank, parse_print_nodes by done.
  unfold chandra_page. rewrite find_leaf_blocks.
  rewrite (bool_decide_eq_false_2 (length (leaf_node <$> leaves) = 0%nat)) by (by destruct leaves). cbn [andb].
  set (w0 := LayoutWriter_new page Document_empty ws).
  destruct (blocks_leaves page (chandra_builder page (S (height (mk_MarkupNode (lit "root") [] [] (leaf_node <$> leaves)))))
    leaves w0 [] ws Hok) as (w & -> & Hw); [done|]. cbn [mbind option_bind app] in Hw |- *.
  rewrite (bool_decide_eq_false_2 (item_count w = 0%nat)).
  2: { unfold item_count. rewrite (wr_entries _ _ _ Hw), length_fmap, length_seq, length_fmap. by destruct leaves. }
  cbn [andb default].
  assert (leaf_item page <$> leaves ≠ []) as Hne' by (by destruct leaves).
  destruct (finish_wrote_texts page (lit "Chandra") true _ _ _ Hne' Hw) as (doc & Hf & Ht).
  exists doc. split_and!; try done.
  rewrite (text_page_fmap item_text _ _ item_text_stamp Ht), <- list_fmap_compose.
  apply list_fmap_ext. intros i lf _. cbn. unfold leaf_item. by destruct (leaf_label lf).
Qed.

(** ** Witness *)

Definition toy_leaves : list Leaf :=
  [mk_Leaf (lit "Section-Header") 10 20 300 40 (lit "1   Bounds");
   mk_Leaf (lit "Text") 0 50 1000 1000 (lit " a < b & c "); mk_Leaf (lit "Page-Footer") 0 990 1000 1000 (lit "7")].

Lemma toy_leaves_ok : Forall leaf_ok toy_leaves.
Proof.
  repeat constructor; try (by vm_compute); by apply (bool_decide_eq_true_1 (_ ∈ _)); vm_compute; reflexivity.
Qed.
Lemma map_chandra_roundtrip_witness : ∃ doc,
  @map_chandra_html toy_size toy_stb toy_page (print_nodes (leaf_node <$> toy_leaves)) Document_empty None = Mapped doc None ∧
  item_text <$> doc_texts doc = [lit "1 Bounds"; lit "a < b & c"; lit "7"].
Proof.
  destruct (@map_chandra_roundtrip toy_size toy_stb toy_page toy_leaves None) as (doc & Hmap & _ & Ht).
  - done.
  - apply toy_leaves_ok.
  - exists doc. split; [apply Hmap|]. rewrite Ht. vm_compute. reflexivity.
Defined.
