(* ===== verification/HtmlTables.v ===== *)
(** HTML tables (src/mapping/layout.cpp, [chandra_table_cells]): where the cells
    of <td> elements with row and column spans come to stand.  What is proved: any
    exact tiling of a grid, written row by row, is read back as its cells. *)
From stdpp Require Import sorting.
From S2P Require Import Prelude Numbers Double Proto ImageCrop Builder OtslGrid Tree.
From S2P Require Import MarkupTree LayoutText Tilings Layout LayoutGrows Chandra.

(** * Writing a table *)

Definition span_attr (key : bytes) (span : nat) : bytes * bytes := (key, to_string (Z.of_nat span)).
Definition scope_attrs (cell : SpanCell) : list (bytes * bytes) :=
  if sp_column_header cell then [(lit "scope", lit "col")]
  else if sp_row_header cell then [(lit "scope", lit "row")] else [].
(** A column header in the first row is a <th>, any other cell a <td>. *)
Definition in_head (cell : SpanCell) : bool := sp_column_header cell && bool_decide (sp_row cell = 0%nat).
Definition td_node (cell : SpanCell) : MarkupNode :=
  mk_MarkupNode (if in_head cell then lit "th" else lit "td") []
    (scope_attrs cell ++ [span_attr (lit "rowspan") (sp_row_span cell); span_attr (lit "colspan") (sp_col_span cell)])
    (text_nodes (sp_text cell)).
Definition tr_node (cells : list SpanCell) : MarkupNode := mk_MarkupNode (lit "tr") [] [] (td_node <$> cells).
Definition row_at (cells : list SpanCell) (cols r : nat) : list SpanCell := omap (anchored cells r) (seq 0 cols).
Definition html_table (cells : list SpanCell) (rows cols : nat) : MarkupNode :=
  mk_MarkupNode (lit "table") [] [] ((λ r, tr_node (row_at cells cols r)) <$> seq 0 rows).

(** A cell as a page writes it, and as it is read. *)
Definition plain_td (cell : SpanCell) : Prop :=
  collapse_whitespace (sp_text cell) = sp_text cell ∧ sp_column_header cell && sp_row_header cell = false.
Definition read_cell (cell : SpanCell) : SpanCell :=
  mk_SpanCell (sp_row cell) (sp_col cell) (sp_row_span cell) (sp_col_span cell) (sp_text cell)
    (sp_column_header cell) (sp_row_header cell) (Some (td_node cell)).

(** * Spans *)

Lemma digit_nonneg c : isdigit c = true → 0 <= digit_value c.
Proof. unfold isdigit, in_range, digit_value. intros [?%Z.leb_le _]%andb_true_iff. lia. Qed.
Lemma digit_not_space c : isdigit c = true → is_space c = false.
Proof.
  intros Hd. apply not_true_is_false. unfold is_space. intros Hs.
  repeat (apply orb_true_iff in Hs as [Hs|Hs]); apply Ascii.eqb_eq in Hs as ->; by vm_compute in Hd.
Qed.
Lemma digits_value_grows digits acc : 0 <= acc → acc <= (digits_value acc digits).1.
Proof.
  revert acc. induction digits as [|c digits IH]; intros acc Hacc; cbn [digits_value]; [done|].
  destruct (isdigit c) eqn:Hc; [|done]. pose proof (digit_nonneg c Hc) as Hd.
  specialize (IH (acc * 10 + digit_value c) ltac:(lia)). lia.
Qed.
Lemma span_number_digits digits acc :
  Forall (λ c, isdigit c = true) digits → 0 <= acc → (digits_value acc digits).1 <= 2 ^ 30 →
  span_number digits acc = (digits_value acc digits).1.
Proof.
  intros Hall. revert acc. induction Hall as [|c digits Hc Hall IH]; intros acc Hacc Hle; [done|].
  cbn [span_number digits_value] in *. rewrite Hc in Hle |- *. fold (digit_value c) in *.
  pose proof (digit_nonneg c Hc) as Hd.
  pose proof (digits_value_grows digits (acc * 10 + digit_value c) ltac:(lia)).
  rewrite Z.min_l by lia. apply IH; [lia|done].
Qed.
Lemma parse_span_print span maximum :
  (1 ≤ span ≤ maximum)%nat → Z.of_nat span <= 2 ^ 30 → parse_span (to_string (Z.of_nat span)) maximum = span.
Proof.
  intros Hspan Hle. destruct (to_string_digits (Z.of_nat span)) as (Hall & Hne & Hv); [lia|].
  unfold parse_span. set (s := to_string _) in *.
  assert (lstrip is_space s = s) as ->.
  { apply lstrip_id. intros c Hc. destruct s as [|c' s']; [done|]. injection Hc as <-.
    apply Forall_cons_1 in Hall as [Hd _]. by apply digit_not_space. }
  rewrite <- (app_nil_r s), (span_stop isdigit s []), drop_app_length, take_app_length by (done || by apply Forall_true).
  cbn [lstrip]. rewrite bool_decide_eq_false_2 by (by destruct s). cbn [orb negb].
  rewrite bool_decide_eq_true_2 by done. cbn [negb].
  rewrite span_number_digits, Hv by (done || lia). lia.
Qed.

(** * Reading a row *)

Lemma td_cell cell : is_element (lit "td") (td_node cell) || is_element (lit "th") (td_node cell) = true.
Proof. unfold td_node. by destruct (in_head cell). Qed.
Lemma td_not_text cell : is_text (td_node cell) = false.
Proof. unfold td_node. by destruct (in_head cell). Qed.
Lemma td_head cell : (nd_tag (td_node cell) =b lit "th") = in_head cell.
Proof. unfold td_node. by destruct (in_head cell). Qed.
Lemma attr_rowspan cell : attr (td_node cell) (lit "rowspan") [] = to_string (Z.of_nat (sp_row_span cell)).
Proof. unfold td_node, scope_attrs. by destruct (sp_column_header cell), (sp_row_header cell). Qed.
Lemma attr_rowspan_1 cell : attr (td_node cell) (lit "rowspan") (lit "1") = to_string (Z.of_nat (sp_row_span cell)).
Proof. unfold td_node, scope_attrs. by destruct (sp_column_header cell), (sp_row_header cell). Qed.
Lemma attr_colspan cell : attr (td_node cell) (lit "colspan") (lit "1") = to_string (Z.of_nat (sp_col_span cell)).
Proof. unfold td_node, scope_attrs. by destruct (sp_column_header cell), (sp_row_header cell). Qed.
Lemma attr_scope cell :
  sp_column_header cell && sp_row_header cell = false →
  (attr (td_node cell) (lit "scope") [] =b lit "col") = sp_column_header cell ∧
  (attr (td_node cell) (lit "scope") [] =b lit "row") = sp_row_header cell.
Proof. unfold td_node, scope_attrs. by destruct (sp_column_header cell), (sp_row_header cell). Qed.
Lemma td_text cell : html_text (td_node cell) = sp_text cell.
Proof.
  unfold td_node, text_nodes. destruct (in_head cell); destruct (decide (sp_text cell = [])) as [E|E].
  - by rewrite bool_decide_eq_true_2, E.
  - rewrite bool_decide_eq_false_2 by done. cbn. by rewrite app_nil_r.
  - by rewrite bool_decide_eq_true_2, E.
  - rewrite bool_decide_eq_false_2 by done. cbn. by rewrite app_nil_r.
Qed.

(** The map tells, for every column, which rows the cells read so far take. *)
Definition takes (read : list SpanCell) (occupied : Occupied) : Prop :=
  ∀ c r, (r < default 0 (occupied !! c))%nat ↔
    ∃ cell, cell ∈ read ∧ (sp_col cell ≤ c < sp_end_col cell)%nat ∧ (r < sp_end_row cell)%nat.
Lemma occupy_seq until occupied from n c r :
  (r < default 0 (foldl (occupy until) occupied (seq from n) !! c))%nat ↔
  (r < default 0 (occupied !! c))%nat ∨ (from ≤ c < from + n)%nat ∧ (r < until)%nat.
Proof.
  revert occupied from. induction n as [|n IH]; intros occupied from; cbn [seq foldl]; [intuition lia|].
  rewrite IH. unfold occupy. destruct (decide (from = c)) as [->|].
  - rewrite lookup_insert_eq. cbn [default from_option id]. intuition lia.
  - rewrite lookup_insert_ne by done. intuition lia.
Qed.
Lemma takes_snoc read occupied cell :
  takes read occupied →
  takes (read ++ [cell]) (foldl (occupy (sp_end_row cell)) occupied (seq (sp_col cell) (sp_col_span cell))).
Proof.
  intros Ht c r. rewrite occupy_seq, (Ht c r). fold (sp_end_col cell). split.
  - intros [(x & Hx & ?)|?].
    + exists x. split; [|done]. apply elem_of_app. by left.
    + exists cell. split; [|done]. apply elem_of_app. right. by apply list_elem_of_singleton.
  - intros (x & [Hx| ->%list_elem_of_singleton]%elem_of_app & ?); [left; by exists x|by right].
Qed.
Lemma free_column_reaches fuel occupied row col stop :
  (col ≤ stop)%nat → (stop - col < fuel)%nat →
  (∀ c, (col ≤ c < stop)%nat → (row < default 0 (occupied !! c))%nat) → ¬ (row < default 0 (occupied !! stop))%nat →
  free_column fuel occupied row col = stop.
Proof.
  revert col. induction fuel as [|fuel IH]; intros col Hle Hfuel Htaken Hfree; [lia|]. cbn [free_column].
  destruct (decide (col = stop)) as [->|Hne].
  - destruct (occupied !! stop) as [until|]; [|done]. cbn in Hfree. by rewrite bool_decide_eq_false_2.
  - pose proof (Htaken col ltac:(lia)) as Ht. destruct (occupied !! col) as [until|]; cbn in Ht; [|lia].
    rewrite bool_decide_eq_true_2 by done. apply IH; [lia|lia| |done]. intros c Hc. apply Htaken. lia.
Qed.

Section Reading.
Context (rows cols : nat) (cells : list SpanCell) (Htiling : tiling rows cols cells).

(** A cell after [read] starts in a free position, with no free one between. *)
Lemma earlier_read read cell later b :
  cells = read ++ cell :: later → b ∈ cells → reads_before b cell → b ∈ read.
Proof using Htiling.
  intros E Hb Hbefore. pose proof (tl_order _ _ _ Htiling) as Hs. rewrite E in Hs, Hb.
  apply elem_of_app in Hb as [?|Hb]; [done|]. exfalso.
  assert (StronglySorted reads_before (cell :: later)) as Hs'.
  { clear -Hs. induction read as [|x read IH]; [done|]. cbn in Hs. by inversion Hs; subst; apply IH. }
  apply StronglySorted_inv in Hs' as [_ Hl]. apply elem_of_cons in Hb as [->|Hb].
  - unfold reads_before in Hbefore. lia.
  - rewrite Forall_forall in Hl. specialize (Hl b Hb). unfold reads_before in *. lia.
Qed.
Lemma read_before read cell later b : cells = read ++ cell :: later → b ∈ read → reads_before b cell.
Proof using Htiling.
  intros E Hb. pose proof (tl_order _ _ _ Htiling) as Hs. rewrite E in Hs. clear E.
  induction read as [|x read IH]; [by apply elem_of_nil in Hb|]. cbn in Hs. apply StronglySorted_inv in Hs as [Hs Hx].
  apply elem_of_cons in Hb as [->|Hb]; [|by apply IH]. rewrite Forall_forall in Hx. apply Hx, elem_of_app. right. by left.
Qed.
Context (Hcols : (cols ≤ kColumnLimit)%nat).
Lemma column_found read cell later col occupied :
  cells = read ++ cell :: later → takes read occupied → (col ≤ sp_col cell)%nat →
  free_column (S kColumnLimit) occupied (sp_row cell) col = sp_col cell.
Proof using Htiling Hcols.
  intros E Ht Hcol. assert (cell ∈ cells) as Hin by (rewrite E; apply elem_of_app; right; by left).
  destruct (cell_inside _ _ _ Htiling cell Hin) as (? & ? & ? & ?). unfold sp_end_row, sp_end_col in *.
  apply free_column_reaches; [done|lia| |].
  - intros c Hc. destruct (tl_cover _ _ _ Htiling (sp_row cell) c) as (b & Hb & Hcov); [lia|lia|].
    apply Ht. exists b. unfold span_covers, sp_end_row, sp_end_col in *. split; [|lia].
    apply (earlier_read read cell later); [done|done|]. unfold reads_before. lia.
  - intros (b & Hb & Hcover)%Ht. pose proof (read_before _ _ _ _ E Hb) as Hbefore.
    assert (b = cell) as ->.
    { apply (tl_disjoint _ _ _ Htiling _ _ (sp_row cell) (sp_col cell)); [rewrite E; apply elem_of_app; by left|done| |];
        unfold span_covers, sp_end_row, sp_end_col, reads_before in *; lia. }
    unfold reads_before in Hbefore. lia.
Qed.

Context (Hrows : Z.of_nat rows <= 2 ^ 30) (Hplain : Forall plain_td cells).
Lemma cell_read read cell later col occupied nodes node :
  cells = read ++ cell :: later → takes read occupied → (col ≤ sp_col cell)%nat →
  row_cells rows (sp_row cell) (mk_Row node false 0) (td_node cell :: nodes) col occupied =
  let '(rest, occupied) := row_cells rows (sp_row cell) (mk_Row node false 0) nodes (sp_end_col cell)
    (foldl (occupy (sp_end_row cell)) occupied (seq (sp_col cell) (sp_col_span cell))) in
  (read_cell cell :: rest, occupied).
Proof using Htiling Hcols Hrows Hplain.
  intros E Ht Hcol. assert (cell ∈ cells) as Hin by (rewrite E; apply elem_of_app; right; by left).
  pose proof (cell_inside _ _ _ Htiling cell Hin) as (Hr1 & Hc1 & Hr2 & Hc2). unfold sp_end_row, sp_end_col in Hr2, Hc2.
  rewrite Forall_forall in Hplain. destruct (Hplain cell Hin) as [Htext Hscope].
  cbn [row_cells]. rewrite td_cell. cbn [negb].
  rewrite attr_colspan, attr_rowspan, attr_rowspan_1. cbn [rw_group_end rw_in_header].
  rewrite (bool_decide_eq_true_2 (0 = 0)%nat) by done.
  rewrite (bool_decide_eq_false_2 (to_string (Z.of_nat (sp_row_span cell)) = lit "0"))
    by (intros Ez; apply (inj to_string (Z.of_nat _) 0) in Ez; lia).
  assert (kColumnLimit ≤ Z.to_nat kMaxTableCells)%nat as Hlimit by (apply (bool_decide_unpack _); by vm_compute).
  assert (Z.of_nat kColumnLimit <= 2 ^ 30) as Hlimit2 by (by vm_compute).
  rewrite !parse_span_print by lia. rewrite (column_found _ _ _ _ _ E Ht Hcol).
  rewrite bool_decide_eq_false_2 by lia. fold (sp_end_row cell) (sp_end_col cell).
  destruct (row_cells _ _ _ nodes _ _) as [rest occupied']. f_equal. f_equal. unfold read_cell.
  destruct (attr_scope cell Hscope) as [-> ->]. rewrite td_text, Htext.
  rewrite td_head. unfold in_head. destruct (sp_column_header cell); cbn [andb orb]; [|by rewrite !orb_false_r].
  case_bool_decide as Erow; cbn [andb]; [|by rewrite !orb_false_r].
  rewrite (bool_decide_eq_false_2 (0 < sp_row cell)%nat), andb_false_r by lia. cbn [andb]. by rewrite !orb_false_r.
Qed.
Lemma row_read todo read later col occupied row node :
  cells = read ++ todo ++ later → Forall (λ cell, sp_row cell = row) todo → takes read occupied →
  (∀ cell, head todo = Some cell → (col ≤ sp_col cell)%nat) →
  ∃ occupied', row_cells rows row (mk_Row node false 0) (td_node <$> todo) col occupied = (read_cell <$> todo, occupied') ∧
    takes (read ++ todo) occupied'.
Proof using Htiling Hcols Hrows Hplain.
  revert read col occupied. induction todo as [|cell todo IH]; intros read col occupied E Hrow Ht Hcol.
  { exists occupied. by rewrite app_nil_r. }
  apply Forall_cons_1 in Hrow as [<- Hrow]. rewrite fmap_cons. cbn [app] in E.
  rewrite (cell_read read cell (todo ++ later)) by (done || by apply Hcol).
  destruct (IH (read ++ [cell]) (sp_end_col cell)
    (foldl (occupy (sp_end_row cell)) occupied (seq (sp_col cell) (sp_col_span cell)))) as (occupied' & -> & Ht').
  - by rewrite <- app_assoc.
  - done.
  - by apply takes_snoc.
  - intros next Hnext. destruct todo as [|x todo]; [done|]. injection Hnext as ->.
    assert (cell ∈ cells ∧ next ∈ cells) as [Hin Hin'].
    { rewrite E. split; apply elem_of_app; right; [by left|right; by left]. }
    apply Forall_cons_1 in Hrow as [Hrow _].
    assert (reads_before cell next) as Hbefore.
    { apply (read_before (read ++ [cell]) next (todo ++ later)); [by rewrite <- app_assoc|].
      apply elem_of_app; right; by left. }
    destruct (cell_inside _ _ _ Htiling cell Hin) as (? & ? & _ & _). destruct (cell_inside _ _ _ Htiling next Hin') as (? & ? & _ & _).
    apply Nat.nlt_ge. intros Hlt.
    assert (cell = next) as ->; [|unfold reads_before in Hbefore; lia].
    apply (tl_disjoint _ _ _ Htiling _ _ (sp_row next) (sp_col next)); try done;
      unfold span_covers, reads_before, sp_end_row, sp_end_col in *; lia.
  - exists occupied'. split; [done|]. by rewrite <- app_assoc in Ht'.
Qed.

(** Row after row. *)
Lemma rows_read n r read occupied :
  cells = read ++ mjoin (row_at cells cols <$> seq r n) → takes read occupied →
  rows_cells rows r ((λ r, mk_Row (tr_node (row_at cells cols r)) false 0) <$> seq r n) occupied =
  read_cell <$> mjoin (row_at cells cols <$> seq r n).
Proof using Htiling Hcols Hrows Hplain.
  revert r read occupied. induction n as [|n IH]; intros r read occupied E Ht; [done|].
  change (seq r (S n)) with (r :: seq (S r) n) in E |- *. rewrite fmap_cons in E. rewrite !fmap_cons. change (mjoin (?x :: ?xs)) with (x ++ mjoin xs) in E |- *.
  cbn [rows_cells rw_node tr_node nd_children].
  destruct (row_read (row_at cells cols r) read (mjoin (row_at cells cols <$> seq (S r) n)) 0 occupied r
    (tr_node (row_at cells cols r))) as (occupied' & -> & Ht'); [done| |done|intros; lia|].
  - apply Forall_forall. intros cell Hin. by apply elem_of_row in Hin as (_ & ? & _).
  - rewrite fmap_app. f_equal. apply (IH (S r) (read ++ row_at cells cols r)); [by rewrite <- app_assoc|done].
Qed.
Lemma table_rows_print : table_rows (html_table cells rows cols) =
  (λ r, mk_Row (tr_node (row_at cells cols r)) false 0) <$> seq 0 rows.
Proof.
  unfold table_rows, html_table. cbn [nd_children].
  enough (∀ rs done_, foldl (λ rows child,
      if is_element (lit "tr") child then rows ++ [mk_Row child false 0]
      else if is_element (lit "thead") child || is_element (lit "tbody") child || is_element (lit "tfoot") child then
        let group := filter (λ row, is_element (lit "tr") row = true) (nd_children child) in
        rows ++ ((λ row, mk_Row row (nd_tag child =b lit "thead") (length rows + length group)) <$> group)
      else rows) done_ ((λ r, tr_node (row_at cells cols r)) <$> rs) =
    done_ ++ ((λ r, mk_Row (tr_node (row_at cells cols r)) false 0) <$> rs)) as Hall by apply Hall.
  induction rs as [|r rs IH]; intros done_; [by rewrite app_nil_r|]. rewrite !fmap_cons. cbn [foldl].
  change (is_element (lit "tr") (tr_node _)) with true. cbn iota. rewrite IH. by rewrite <- app_assoc.
Qed.
Lemma chandra_table_read : chandra_table_cells (html_table cells rows cols) = read_cell <$> cells.
Proof using Htiling Hcols Hrows Hplain.
  unfold chandra_table_cells. rewrite table_rows_print, length_fmap, length_seq.
  assert (mjoin (row_at cells cols <$> seq 0 rows) = cells) as E by (by apply reading_cells).
  rewrite (rows_read rows 0 [] ∅).
  - by rewrite E.
  - by rewrite E.
  - intros c r. rewrite lookup_empty. cbn. split; [lia|]. by intros (? & ?%elem_of_nil & _).
Qed.
End Reading.

(** * The written table is well formed *)

Definition short_td (cell : SpanCell) : Prop :=
  Z.of_nat (sp_row_span cell) < 2 ^ 31 ∧ Z.of_nat (sp_col_span cell) < 2 ^ 31.
Lemma span_attr_length key span :
  (length key ≤ 8)%nat → Z.of_nat span < 2 ^ 31 → (length (print_attr (span_attr key span)) ≤ 300)%nat.
Proof.
  intros Hk Hs. unfold print_attr, span_attr. cbn [fst snd]. rewrite !length_app.
  pose proof (length_escape (to_string (Z.of_nat span))). pose proof (length_to_string (Z.of_nat span) ltac:(lia)).
  cbn [length lit String.list_ascii_of_string]. lia.
Qed.
Lemma td_node_ok room cell : short_td cell → node_ok_in kHtml (lit "tr") (S (S room)) (td_node cell).
Proof.
  intros [Hr Hc]. unfold td_node. assert (length (if in_head cell then lit "th" else lit "td") = 2%nat) as Htag by (by destruct (in_head cell)).
  apply element_in.
  - destruct (in_head cell); split_and!; try done; by repeat constructor.
  - unfold scope_attrs. destruct (sp_column_header cell), (sp_row_header cell); repeat constructor; by vm_compute.
  - unfold print_open. rewrite fmap_app, join_app, !length_app.
    pose proof (span_attr_length (lit "rowspan") _ ltac:(by apply (bool_decide_unpack _)) Hr). pose proof (span_attr_length (lit "colspan") _ ltac:(by apply (bool_decide_unpack _)) Hc).
    assert (length (mjoin (print_attr <$> scope_attrs cell)) ≤ 100)%nat
      by (unfold scope_attrs; destruct (sp_column_header cell), (sp_row_header cell); apply (bool_decide_unpack _); by vm_compute).
    rewrite !fmap_cons. do 2 change (mjoin (?x :: ?xs)) with (x ++ mjoin xs). rewrite !length_app.
    change (length (lit "<")) with 1%nat. rewrite Htag. change (length (lit ">")) with 1%nat.
    change (length (mjoin (print_attr <$> []))) with 0%nat. lia.
  - unfold text_nodes. by destruct (_ =b _).
  - unfold text_nodes. case_bool_decide; [done|]. split; [|done]. by apply node_ok_anywhere, text_intro.
Qed.
Lemma nodes_ok_fmap {A} parent room (f : A → MarkupNode) l :
  Forall (λ x, node_ok_in kHtml parent room (f x)) l → nodes_ok_in kHtml parent room (f <$> l).
Proof. induction 1 as [|x l Hx _ IH]; [done|]. by split. Qed.
Lemma separated_fmap {A} (f : A → MarkupNode) l : (∀ x, is_text (f x) = false) → separated (f <$> l).
Proof.
  intros Hf. induction l as [|x [|y l] IH]; [done..|]. split; [|apply IH]. rewrite Hf. by intros [].
Qed.
Lemma html_table_ok cells rows cols :
  Forall short_td cells → nodes_ok kHtml kMaxMarkupDepth [html_table cells rows cols] ∧ separated [html_table cells rows cols].
Proof.
  intros Hok. split; [|done]. split; [|done]. change kMaxMarkupDepth with (S (S (S (S 124)))).
  apply element_in; [split_and!; try done; by repeat constructor|done|done|by apply separated_fmap|].
  apply nodes_ok_fmap, Forall_true. intros r. unfold tr_node.
  apply (element_in kHtml _ _ (lit "tr"));
    [split_and!; try done; by repeat constructor|done|done|by apply separated_fmap; intros; apply td_not_text|].
  apply nodes_ok_fmap, Forall_forall. intros cell (Hin & _)%elem_of_row. apply td_node_ok.
  rewrite Forall_forall in Hok. by apply Hok.
Qed.

Lemma parse_html_table cells rows cols :
  tiling rows cols cells → (cols ≤ kColumnLimit)%nat → Z.of_nat rows <= 2 ^ 30 →
  parse_markup (print_node (html_table cells rows cols)) kHtml = mk_MarkupNode (lit "root") [] [] [html_table cells rows cols].
Proof.
  intros Ht Hc Hr. assert (Forall short_td cells) as Hshort.
  { apply Forall_forall. intros cell Hin. destruct (cell_inside _ _ _ Ht cell Hin) as (? & ? & ? & ?).
    assert (Z.of_nat kColumnLimit < 2 ^ 31) by (by vm_compute). unfold short_td, sp_end_row, sp_end_col in *. lia. }
  destruct (html_table_ok cells rows cols Hshort) as [Hok Hsep].
  rewrite <- (parse_print_nodes kHtml [html_table cells rows cols] Hok Hsep).
  change (print_nodes [html_table cells rows cols]) with (print_node (html_table cells rows cols) ++ []). by rewrite app_nil_r.
Qed.

(** * The page *)

Section Page.
Context `{ProtobufSize} `{Stb}.
Context (page : PageContext).

Lemma fill_read_cells cells : fill_span_table (read_cell <$> cells) = fill_span_table cells.
Proof.
  unfold fill_span_table.
  assert (∀ (f : Z → SpanCell → Z) m, (∀ m cell, f m (read_cell cell) = f m cell) →
    foldl f m (read_cell <$> cells) = foldl f m cells) as Hfold.
  { intros f m Hf. revert m. induction cells as [|cell cells IH]; intros m; [done|]. rewrite fmap_cons. cbn [foldl]. by rewrite Hf. }
  rewrite !Hfold by done. destruct (kept_table_shape _ _) as [kept_rows kept_cols].
  assert (omap (clip_cell kept_rows kept_cols) (read_cell <$> cells) = omap (clip_cell kept_rows kept_cols) cells) as ->; [|done].
  clear. induction cells as [|cell cells IH]; [done|]. rewrite fmap_cons.
  change (omap ?f (?x :: ?l)) with (match f x with Some y => y :: omap f l | None => omap f l end). by rewrite IH.
Qed.

Lemma table_entry box cells parent w item w' : table page box cells parent w = (item, w') → (item_count w < item_count w')%nat.
Proof.
  unfold table. destruct (bool_decide _); [|destruct (fill_span_table cells)]; intros [= <- <-];
    unfold item_count; cbn; rewrite length_app; cbn; lia.
Qed.
(** No cell holds markup of its own. *)
Lemma td_not_rich cell : is_rich (td_node cell) = false.
Proof. unfold is_rich, td_node, text_nodes. by destruct (sp_text cell =b []). Qed.
Lemma cells_not_rich self skips ref refs cells w :
  foldM (rich_cell page self skips ref) (refs, w) (read_cell <$> cells) = Some (refs ++ replicate (length cells) [], w).
Proof.
  revert refs. induction cells as [|cell cells IH]; intros refs; [by rewrite app_nil_r|].
  rewrite fmap_cons. cbn [foldM].
  assert (rich_cell page self skips ref (refs, w) (read_cell cell) = Some (refs ++ [[]], w)) as ->
    by (unfold rich_cell; cbn [sp_node read_cell]; by rewrite td_not_rich).
  cbn [mbind option_bind length replicate]. rewrite IH. by rewrite <- app_assoc.
Qed.
Lemma no_refs data cells n : attach_rich_refs data cells (replicate n []) = data.
Proof.
  unfold attach_rich_refs. assert (foldl add_anchor ∅ (zip cells (replicate n [])) = ∅) as ->.
  { revert n. induction cells as [|cell cells IH]; intros [|n]; [done..|]. cbn. apply IH. }
  by rewrite bool_decide_eq_true_2.
Qed.
Lemma no_captions self skips ref w l :
  foldM (table_caption self skips ref) w (tr_node <$> l) = Some w.
Proof. induction l as [|cells l IH]; [done|]. rewrite fmap_cons. cbn [foldM]. exact IH. Qed.

Lemma table_block_print self skips cells rows cols parent prov w :
  tiling rows cols cells → (cols ≤ kColumnLimit)%nat → Z.of_nat rows <= 2 ^ 30 → Forall plain_td cells → cells ≠ [] →
  ∃ ws, table_block page self skips (html_table cells rows cols) parent prov w =
  let '(box, prov) := take_prov prov in
  let '(ref, w) := table page box [] parent w in
  Some (prov, on_table (set_ti_data (Some (fill_span_table cells).1)) ref (set_warnings ws w)).
Proof.
  intros Ht Hc Hr Hp Hne. unfold table_block.
  rewrite chandra_table_read, length_fmap, bool_decide_eq_false_2 by (done || by destruct cells).
  destruct (take_prov prov) as [box prov']. destruct (table page box [] parent w) as [ref w1].
  rewrite cells_not_rich. cbn [mbind option_bind app]. rewrite fill_read_cells.
  destruct (fill_span_table cells) as [data cut] eqn:E. eexists.
  change (nd_children (html_table cells rows cols)) with ((λ r, tr_node (row_at cells cols r)) <$> seq 0 rows).
  rewrite (list_fmap_compose (row_at cells cols) tr_node), no_captions, no_refs. done.
Qed.

(** The table another format embeds. *)
Lemma add_html_table_print cells rows cols box parent w :
  tiling rows cols cells → (0 < rows)%nat → (0 < cols ≤ kColumnLimit)%nat → Z.of_nat rows <= 2 ^ 30 → Forall plain_td cells →
  ∃ ws ref, add_html_table page (print_node (html_table cells rows cols)) box parent w =
  let '(item, w) := table page box [] parent w in
  Some (Some ref, on_table (set_ti_data (Some (fill_span_table cells).1)) item (set_warnings ws w)).
Proof.
  intros Ht Hr Hc Hrows Hp. pose proof (tiling_nonempty _ _ _ Ht Hr ltac:(lia)) as Hne.
  unfold add_html_table. rewrite (parse_html_table cells rows cols) by (done || lia).
  change (find_element (lit "table") (mk_MarkupNode (lit "root") [] [] [html_table cells rows cols]))
    with (Some (html_table cells rows cols)). cbv iota beta.
  rewrite chandra_table_read, length_fmap, bool_decide_eq_false_2 by (done || lia || by destruct cells).
  assert (flatten_captions (html_table cells rows cols) = html_table cells rows cols) as ->.
  { unfold flatten_captions, html_table. f_equal. cbn [nd_children]. rewrite <- list_fmap_compose. by apply list_fmap_ext. }
  destruct (table_block_print (chandra_builder page (S (height (html_table cells rows cols)))) no_skips cells rows cols parent
    (Some (mk_Provenance box false false)) w) as (ws & ->); [done|lia|done..|].
  assert (∃ prov, take_prov (Some (mk_Provenance box false false)) = (box, prov)) as [prov ->] by (destruct box; by eexists).
  destruct (table page box [] parent w) as [item w1] eqn:E. cbn [mbind option_bind].
  rewrite bool_decide_eq_false_2; [by eexists ws, _|].
  apply table_entry in E. change (item_count (on_table _ item (set_warnings ws w1))) with (item_count w1). lia.
Qed.

Lemma emit_no_runs parent prov label w : emit_runs page [] parent prov label w = (prov, w).
Proof. unfold emit_runs. by destruct (_ || _). Qed.
Lemma walk_table fuel cells rows cols w :
  tiling rows cols cells → (cols ≤ kColumnLimit)%nat → Z.of_nat rows <= 2 ^ 30 → Forall plain_td cells → cells ≠ [] →
  ∃ ws, walk page (chandra_builder page (S fuel)) no_skips [html_table cells rows cols] None None DOC_ITEM_LABEL_TEXT w =
  let '(ref, w) := table page None [] None w in
  Some (None, on_table (set_ti_data (Some (fill_span_table cells).1)) ref (set_warnings ws w)).
Proof.
  intros Ht Hc Hr Hp Hne.
  destruct (table_block_print (chandra_builder page fuel) no_skips cells rows cols None None w Ht Hc Hr Hp Hne) as (ws & Hblock).
  exists ws. unfold walk. cbn [foldM].
  assert (walk_step page (chandra_builder page (S fuel)) no_skips None DOC_ITEM_LABEL_TEXT ([], None, w) (html_table cells rows cols) =
    '(prov, w) ← table_block page (chandra_builder page fuel) no_skips (html_table cells rows cols) None None w;
    Some ([], prov, w)) as -> by done.
  rewrite Hblock. cbn [take_prov]. by destruct (table page None [] None w).
Qed.
Lemma find_blocks_none tag text attrs children :
  Forall (λ child, is_text child = true ∨
    has_attr child (lit "data-label") || has_attr child (lit "data-bbox") = false ∧ find_blocks child = []) children →
  find_blocks (mk_MarkupNode tag text attrs children) = [].
Proof.
  intros Hall. cbn [find_blocks]. induction Hall as [|child children Hc _ IH]; [done|]. cbn [foldr]. rewrite IH.
  destruct Hc as [->|[Ha Hb]]; [done|]. rewrite Ha, Hb. by destruct (is_text child).
Qed.
Lemma find_blocks_table cells rows cols :
  find_blocks (mk_MarkupNode (lit "root") [] [] [html_table cells rows cols]) = [].
Proof.
  apply find_blocks_none, Forall_singleton. right. split; [done|].
  apply find_blocks_none, Forall_fmap, Forall_true. intros r. right. split; [done|].
  apply find_blocks_none, Forall_fmap, Forall_true. intros cell. right. split.
  - unfold td_node, scope_attrs. by destruct (sp_column_header cell), (sp_row_header cell).
  - unfold td_node, text_nodes. apply find_blocks_none. destruct (_ =b _); [done|]. apply Forall_singleton. by left.
Qed.
End Page.

(** * Properties *)

(** C22: An HTML table reads back as it was written, parser and mapper together: for
    any exact tiling of a grid by cells with row and column spans, headers and
    collapsed texts, its <table> markup, the text with every special character,
    becomes a Chandra document of exactly one table, whose data is those cells laid
    out; and [chandra_table_cells], which the other formats share, gives the cells
    themselves, every span, header flag and text, in reading order. *)
Theorem html_table_roundtrip `{ProtobufSize} `{Stb} page cells rows cols ws :
  (0 < rows)%nat → (0 < cols ≤ kColumnLimit)%nat → Z.of_nat rows <= 2 ^ 30 → tiling rows cols cells →
  Forall plain_td cells →
  find_element (lit "table") (parse_markup (print_node (html_table cells rows cols)) kHtml) = Some (html_table cells rows cols) ∧
  chandra_table_cells (html_table cells rows cols) = read_cell <$> cells ∧
  ∃ doc ws', map_chandra_html page (print_node (html_table cells rows cols)) Document_empty ws = Mapped doc ws' ∧
    ti_data <$> doc_tables doc = [Some (fill_span_table cells).1] ∧ doc_texts doc = [] ∧ doc_pictures doc = [].
Proof.
  intros Hr Hc Hrows Ht Hp. rewrite (parse_html_table cells rows cols) by (done || lia). split; [done|].
  split; [by apply chandra_table_read; [|lia| |]|]. pose proof (tiling_nonempty _ _ _ Ht Hr ltac:(lia)) as Hne.
  assert ((py_strip (print_node (html_table cells rows cols)) =b []) = false) as Hblank.
  { apply bool_decide_eq_false_2.
    assert (∃ tl, print_node (html_table cells rows cols) = "<"%char :: tl) as [tl ->] by (eexists; reflexivity).
    by apply py_strip_tag. }
  unfold map_chandra_html. rewrite Hblank, (parse_html_table cells rows cols) by (done || lia). unfold chandra_page. rewrite find_blocks_table.
  change (filter _ (nd_children (mk_MarkupNode (lit "root") [] [] [html_table cells rows cols]))) with [html_table cells rows cols].
  cbn [length]. rewrite (bool_decide_eq_true_2 (0 = 0)%nat), (bool_decide_eq_false_2 (1 = 0)%nat) by done. cbn [andb].
  set (w0 := LayoutWriter_new page Document_empty ws).
  destruct (walk_table page (height (mk_MarkupNode (lit "root") [] [] [html_table cells rows cols])) cells rows cols w0)
    as (ws1 & ->); [done|lia|done..|].
  destruct (table page None [] None w0) as [ref w1] eqn:E. cbn [fmap option_fmap option_map snd mbind option_bind].
  injection E as <- <-. set (w := on_table _ _ _).
  assert (rooted w ∧ item_count w = 1%nat ∧ ti_data <$> doc_tables (lw_out w) = [Some (fill_span_table cells).1] ∧
    doc_texts (lw_out w) = [] ∧ doc_pictures (lw_out w) = []) as (Hroot & Hcount & Hdata & Htexts & Hpics).
  { unfold w. split_and!; try done. by repeat constructor. }
  rewrite Hcount. cbn [andb default].
  by apply finish_one_table.
Qed.

(** ** Witness *)

Lemma html_table_roundtrip_witness : ∃ doc ws',
  @map_chandra_html toy_size toy_stb toy_page (print_node (html_table toy_table 2 3)) Document_empty None = Mapped doc ws' ∧
  (λ d, length (td_table_cells (default TableData_empty d))) <$> (ti_data <$> doc_tables doc) = [4%nat].
Proof.
  destruct (@html_table_roundtrip toy_size toy_stb toy_page toy_table 2 3 None) as (_ & _ & doc & ws' & Hmap & Hd & _).
  - lia.
  - split; [lia|]. apply (bool_decide_unpack _). by vm_compute.
  - by vm_compute.
  - apply toy_table_tiles.
  - by repeat constructor.
  - exists doc, ws'. split; [exact Hmap|]. rewrite Hd. vm_compute. reflexivity.
Defined.
