(* ===== verification/Dots.v ===== *)
(** The dots.ocr mapper (src/mapping/dots.cpp): a JSON array of elements, each
    with a box in the pixels the model saw, a category and text.  The array may
    be cut off; elements without four finite coordinates are skipped.  What is
    proved: whatever the answer, the page is mapped, and each located element adds
    to it, in order. *)
From S2P Require Import Prelude Numbers Double Json Proto ImageCrop Builder OtslGrid Tree.
From S2P Require Import MarkupTree LayoutText Layout LayoutGrows MarkdownInline Chandra.

(** From the first '['; an array without its end is cut after the last object
    and closed. *)
Definition clean_json (raw : bytes) : bytes :=
  match find_char "["%char raw 0 with
  | None => lit "[]"
  | Some open =>
      let text := substr_from raw open in
      let head := rstrip isspace text in
      if ends_with (lit "]") head then text else
      match rfind (lit "}") head with
      | None => lit "[]"
      | Some brace => take (S brace) text ++ lit "]"
      end
  end.

(** Python's float() of a value. *)
Definition python_float (value : json) : option double :=
  match value with
  | JBool b => Some (if b then of_Z 1 else dzero)
  | JString s =>
      let text := trim s in
      let text := match text with "+"%char :: text => text | _ => text end in
      if text =b [] then None else
      match from_chars_general text with Some (out, []) => Some out | _ => None end
  | _ => number_of value
  end.

(** A fenced block that is the whole text: its hint and its body. *)
Definition kTicks : bytes := lit "```".
Definition fenced_code (text : bytes) : option (bytes * bytes) :=
  if negb (starts_with kTicks text) then None else
  let hint := span (λ c, negb (c =c "`"%char) && negb (c =c c_cr) && negb (c =c c_nl)) (drop 3 text) in
  let i := (3 + hint)%nat in
  let i := if char_at text i (Ascii.eqb c_cr) then S i else i in
  if negb (char_at text i (Ascii.eqb c_nl)) then None else
  let i := S i in
  let stop := (i + length (rstrip is_hspace (drop i text)))%nat in
  if bool_decide (stop < i + 3)%nat || negb (substr text (stop - 3) 3 =b kTicks) then None else
  let inner := substr text i (stop - 3 - i) in
  let inner := if ends_with [c_cr; c_nl] inner then take (length inner - 2) inner
               else if ends_with [c_nl] inner then take (length inner - 1) inner else inner in
  Some (trim (substr text 3 hint), inner).

Definition category_label (category : bytes) : option DocItemLabel :=
  if category =b lit "Text" then Some DOC_ITEM_LABEL_TEXT
  else if category =b lit "Title" then Some DOC_ITEM_LABEL_TITLE
  else if category =b lit "Section-header" then Some DOC_ITEM_LABEL_SECTION_HEADER
  else if category =b lit "Table" then Some DOC_ITEM_LABEL_TABLE
  else if category =b lit "Picture" then Some DOC_ITEM_LABEL_PICTURE
  else if category =b lit "Caption" then Some DOC_ITEM_LABEL_CAPTION
  else if category =b lit "Footnote" then Some DOC_ITEM_LABEL_FOOTNOTE
  else if category =b lit "Page-header" then Some DOC_ITEM_LABEL_PAGE_HEADER
  else if category =b lit "Page-footer" then Some DOC_ITEM_LABEL_PAGE_FOOTER
  else if category =b lit "List-item" then Some DOC_ITEM_LABEL_LIST_ITEM
  else if category =b lit "Formula" then Some DOC_ITEM_LABEL_FORMULA
  else None.

(** The finite numbers of a box up to the first value that is none. *)
Fixpoint coords_of (values : list json) : list double :=
  match values with
  | [] => []
  | value :: values =>
      match python_float value with
      | Some number => if is_finite number then number :: coords_of values else []
      | None => []
      end
  end.
(** The four coordinates of an element, if it has them. *)
Definition element_coords (members : list (bytes * json)) : option (double * double * double * double) :=
  match member (lit "bbox") members with
  | Some (JArray values) =>
      if negb (bool_decide (length values = 4%nat)) then None else
      match coords_of values with
      | [x0; y0; x1; y1] => Some (x0, y0, x1, y1)
      | _ => None
      end
  | _ => None
  end.

Section Dots.
Context `{ProtobufSize} `{Stb} `{Json}.
Variable page : PageContext.

(** A heading or list item takes its inline markup or the plain text. *)
Definition fill_inline (item : BodyChild) (text : bytes) (w : LayoutWriter) : option LayoutWriter :=
  '(added, w) ← add_inline_text page text DOC_ITEM_LABEL_TEXT None (Some item) w;
  Some (if added : bool then w else set_text item (unescape_markdown_literals text) None [] w).

(** The writer, the open list, and what the caption pass looks at. *)
Record Dots := mk_Dots {
  ds_writer : LayoutWriter;
  ds_list : option BodyChild;
  ds_starts : list nat;
  ds_captions : list nat }.

(** A box on the model's input grid. *)
Definition dots_scale : double * double :=
  let width := of_Z (page_width page) in
  let height := of_Z (page_height page) in
  let '(model_w, model_h) := qwen2vl_image_size width height in
  (if dlt dzero model_w then ddiv width model_w else of_Z 1, if dlt dzero model_h then ddiv height model_h else of_Z 1).

(** One located element. *)
Definition table_or_empty (html : bytes) (box : BoundingBox) (parent : Parent) (w : LayoutWriter) : option LayoutWriter :=
  '(added, w) ← add_html_table page html (Some box) parent w;
  Some (match added with Some _ => w | None => (table page (Some box) [] parent w).2 end).
Definition dots_heading (is_title : bool) (body : bytes) (box : BoundingBox) (w : LayoutWriter) : option LayoutWriter :=
  let '(clean, level) := strip_markdown_heading body in
  let '(item, w) := if is_title then title page (Some box) [] None w
                    else heading page (if 0 <? level then level else 2) (Some box) [] None w in
  fill_inline item clean (set_orig item body w).
Definition open_or_new (open_list : option BodyChild) (w : LayoutWriter) : BodyChild * LayoutWriter :=
  match open_list with Some group => (group, w) | None => list_group None w end.
Definition dots_list_item (body : bytes) (box : BoundingBox) (open_list : option BodyChild) (w : LayoutWriter)
  : option (option BodyChild * LayoutWriter) :=
  let '(group, w) := open_or_new open_list w in
  let '(item, w) := list_item page (Some box) [] false [] (Some group) w in
  w ← fill_inline item body (set_orig item body w);
  Some (Some group, w).
(** Text with its inline markup, or as plain text. *)
Definition inline_or_plain (body : bytes) (label : DocItemLabel) (box : option BoundingBox) (parent : Parent)
    (w : LayoutWriter) : option LayoutWriter :=
  '(added, w) ← add_inline_text page body label box parent w;
  if added : bool then Some w else
  let '(item, w) := styled_text page label box (unescape_markdown_literals body) None [] parent w in
  Some (set_orig item body w).
Definition dots_text (category body : bytes) (label : DocItemLabel) (box : BoundingBox) (w : LayoutWriter)
  : option LayoutWriter :=
  match fenced_code body with
  | Some (hint, code_text) =>
      let '(item, w) := code page (Some box) code_text hint None w in Some (set_orig item body w)
  | None =>
      if category =b lit "Formula" then Some (formula page (Some box) body None w).2 else
      inline_or_plain body label (Some box) None w
  end.
Definition dots_element (category body : bytes) (box : BoundingBox) (open_list : option BodyChild) (w : LayoutWriter)
  : option (option BodyChild * LayoutWriter) :=
  let label := default DOC_ITEM_LABEL_TEXT (category_label category) in
  if category =b lit "Table" then w ← table_or_empty body box None w; Some (None, w)
  else if category =b lit "Picture" then Some (None, (picture page (Some box) None w).2)
  else if (category =b lit "Title") || (category =b lit "Section-header") then
    w ← dots_heading (category =b lit "Title") body box w; Some (None, w)
  else if category =b lit "List-item" then dots_list_item body box open_list w
  else w ← dots_text category body label box w; Some (None, w).
(** One element of the array, at its index. *)
Definition dots_step (scale : double * double) (s : Dots) (entry : nat * json) : option Dots :=
  let '(mk_Dots w open_list starts captions) := s in
  let '(index, element) := entry in
  let starts := starts ++ [body_size w] in
  match element with
  | JObject members =>
      let category := default [] (string_member (lit "category") members) in
      let captions := if category =b lit "Caption" then captions ++ [index] else captions in
      let body := default [] (string_member (lit "text") members) in
      match element_coords members with
      | None => Some (mk_Dots w open_list starts captions)
      | Some (x0, y0, x1, y1) =>
          let box := scaled_box page x0 y0 x1 y1 scale.1 scale.2 in
          '(open_list, w) ← dots_element category body box open_list w;
          Some (mk_Dots w open_list starts captions)
      end
  | _ => Some (mk_Dots w open_list starts captions)
  end.
Definition dots_elements (elements : list json) (w : LayoutWriter) : option Dots :=
  foldM (dots_step dots_scale) (mk_Dots w None [] []) (zip (seq 0 (length elements)) elements).
Definition map_dots_json (text : bytes) (out : Document) (warnings : Warnings) : MapResult :=
  let w := LayoutWriter_new page out warnings in
  let finish_dots := finish page (lit "dots.ocr") true in
  if trim text =b [] then finish_dots w else
  match json_parse (clean_json text) with
  | Some (JArray elements) =>
      match dots_elements elements w with
      | Some s => finish_dots (link_adjacent_captions (ds_starts s) (ds_captions s) true (ds_writer s))
      | None => MapFailed []
      end
  | _ => finish_dots w
  end.
End Dots.

(** * Every answer is mapped *)

Section Mapped.
Context `{ProtobufSize} `{Stb} `{Json}.
Context (page : PageContext).
Abbreviation grows := (grows page).
Abbreviation adds := (adds page).
Abbreviation grows_add_count := (grows_add_count page).
Abbreviation grows_count := (grows_count page).
Abbreviation adds_grows := (adds_grows page).
Abbreviation adds_later := (adds_later page).

Lemma fill_inline_ok item text w :
  valid_parent w (Some item) → ∃ w', fill_inline page item text w = Some w' ∧ grows w w'.
Proof.
  intros Hv. unfold fill_inline.
  destruct (add_inline_text_ok page text DOC_ITEM_LABEL_TEXT None (Some item) w Hv) as (added & w1 & -> & Hg).
  cbn [mbind option_bind]. destruct added; [by eexists|]. eexists. split; [done|].
  etrans; [apply Hg|apply (grows_edit page (SetText item _ _ _))].
Qed.
(** Text with its inline markup adds an item, at the root at least. *)
Lemma inline_or_plain_ok body label box parent w :
  valid_parent w parent →
  ∃ w', inline_or_plain page body label box parent w = Some w' ∧ grows w w' ∧ (parent = None → adds w w').
Proof.
  intros Hp. unfold inline_or_plain.
  assert (∃ added w1, add_inline_text page body label box parent w = Some (added, w1) ∧ grows w w1 ∧
    (added = true → parent = None → adds w w1)) as (added & w1 & -> & Hg1 & Ha).
  { destruct parent as [parent|].
    { destruct (add_inline_text_ok page body label box (Some parent) w Hp) as (added & w1 & Ha & Hg). by exists added, w1. }
    unfold add_inline_text. destruct (negb _); [by eexists _, _|].
    destruct (styled_text _ _ _ _ _ _ _ _) as [item w1] eqn:E. apply (adds_add page (AddStyledText _ _ _ _ _)) in E as [Ha Hv]; [|done].
    pose proof (grows_edit page (SetOrig item body) w1) as Hg.
    destruct (add_html_fragment_ok page (markdown_inline_html body) DOC_ITEM_LABEL_TEXT None (Some item) (set_orig item body w1))
      as (added & w2 & -> & Hg2); [by eapply grows_valid|].
    assert (Ha2 : adds w w2) by (eapply adds_grows; [apply Ha|by etrans]).
    exists added, w2. split_and!; [done|apply Ha2|done]. }
  cbn [mbind option_bind]. destruct added.
  { exists w1. split_and!; [done..|]. by apply Ha. }
  destruct (styled_text _ _ _ _ _ _ _ _) as [item w2] eqn:E.
  apply (adds_add page (AddStyledText _ _ _ _ _)) in E as [Ha2 _]; [|by eapply grows_valid].
  eexists. split; [done|]. assert (Hadds : adds w (set_orig item body w2)); [|by split; [apply Hadds|]].
  eapply adds_later; [apply Hg1|]. eapply adds_grows; [apply Ha2|apply (grows_edit page (SetOrig item body))].
Qed.
Lemma table_or_empty_ok html box parent w :
  valid_parent w parent → ∃ w', table_or_empty page html box parent w = Some w' ∧ adds w w'.
Proof.
  intros Hp. unfold table_or_empty, add_html_table.
  assert (Hempty : ∀ w1, grows w w1 → adds w (table page (Some box) [] parent w1).2).
  { intros w1 Hg. destruct (table _ _ _ _ _) as [ref w'] eqn:E.
    apply (adds_add page (AddTable _ _)) in E as [Ha _]; [|by eapply grows_valid]. by eapply adds_later. }
  destruct (find_element _ _) as [node|]; [|eexists; split; [done|by apply Hempty]].
  case_bool_decide; [eexists; split; [done|by apply Hempty]|].
  set (node' := flatten_captions node).
  destruct (table_block_ok page (chandra_builder page (S (height node'))) _ (chandra_builder_ok page _) no_skips node' parent
    (Some (mk_Provenance (Some box) false false)) w) as (prov1 & w1 & -> & Hg); [lia|done|].
  cbn [mbind option_bind]. eexists. split; [done|]. case_bool_decide as Hc; [by apply Hempty|].
  split; [done|]. apply grows_count in Hg. lia.
Qed.
Lemma open_or_new_ok open_list w :
  (∀ g, open_list = Some g → valid_parent w (Some g)) →
  let '(g, w1) := open_or_new open_list w in grows w w1 ∧ valid_parent w1 (Some g).
Proof.
  intros Hopen. destruct open_list as [g|]; cbn [open_or_new]; [split; [done|by apply Hopen]|].
  destruct (list_group _ _) as [g w1] eqn:E. by apply (grows_add page (AddGroup _ _)) in E.
Qed.
Lemma dots_heading_ok is_title body box w : ∃ w', dots_heading page is_title body box w = Some w' ∧ adds w w'.
Proof.
  unfold dots_heading. destruct (strip_markdown_heading body) as [clean level].
  assert (∃ item w1, (if is_title then title page (Some box) [] None w
      else heading page (if 0 <? level then level else 2) (Some box) [] None w) = (item, w1) ∧
    grows w w1 ∧ valid_parent w1 (Some item) ∧ (item_count w < item_count w1)%nat) as (item & w1 & -> & Hg & Hv & Hc).
  { destruct is_title; eexists _, _; (split; [apply surjective_pairing|]).
    - eapply (grows_add_count (AddTitle _ _)); [|apply surjective_pairing]. done.
    - eapply (grows_add_count (AddHeading _ _ _)); [|apply surjective_pairing]. done. }
  pose proof (grows_edit page (SetOrig item body) w1) as Hg1.
  destruct (fill_inline_ok item clean (set_orig item body w1)) as (w2 & -> & Hg2); [by eapply grows_valid|].
  eexists. split; [done|]. apply (adds_grows _ w1); [by split|by etrans].
Qed.
Lemma dots_list_item_ok body box open_list w :
  (∀ g, open_list = Some g → valid_parent w (Some g)) →
  ∃ g w', dots_list_item page body box open_list w = Some (Some g, w') ∧ adds w w' ∧ valid_parent w' (Some g).
Proof.
  intros Hopen. unfold dots_list_item. pose proof (open_or_new_ok open_list w Hopen) as Hg1.
  destruct (open_or_new open_list w) as [g w1]. destruct Hg1 as [Hg1 Hv1].
  destruct (list_item _ _ _ _ _ _ _) as [item w2] eqn:E.
  apply (grows_add_count (AddListItem _ _ _ _)) in E as (Hg2 & Hv2 & Hc2); [|done].
  pose proof (grows_edit page (SetOrig item body) w2) as Hg3.
  destruct (fill_inline_ok item body (set_orig item body w2)) as (w4 & -> & Hg4); [by eapply grows_valid|].
  cbn [mbind option_bind]. exists g, w4. split_and!; [done| |].
  - apply (adds_later _ w1); [done|]. apply (adds_grows _ w2); [by split|by etrans].
  - eapply grows_valid; [|apply Hv1]. by do 2 (etrans; [eassumption|]).
Qed.
Lemma dots_text_ok category body label box w : ∃ w', dots_text page category body label box w = Some w' ∧ adds w w'.
Proof.
  unfold dots_text. destruct (fenced_code body) as [[hint code_text]|].
  { destruct (code _ _ _ _ _ _) as [item w1] eqn:E. apply (grows_add_count (AddCode _ _ _)) in E as (Hg & _ & Hc); [|done].
    eexists. split; [done|]. apply (adds_grows _ w1); [by split|]. apply (grows_edit page (SetOrig item body)). }
  destruct (_ =b _).
  { eexists. split; [done|]. destruct (formula _ _ _ _ _) as [item w1] eqn:E.
    by apply (grows_add_count (AddFormula _ _)) in E as (Hg & _ & Hc). }
  destruct (inline_or_plain_ok body label (Some box) None w) as (w' & -> & _ & Ha); [done|]. eexists. split; [done|by apply Ha].
Qed.
Lemma dots_element_ok category body box open_list w :
  (∀ g, open_list = Some g → valid_parent w (Some g)) →
  ∃ open_list' w', dots_element page category body box open_list w = Some (open_list', w') ∧ adds w w' ∧
    ∀ g, open_list' = Some g → valid_parent w' (Some g).
Proof.
  intros Hopen. unfold dots_element. repeat match goal with |- context [if ?b then _ else _] => destruct b end.
  - destruct (table_or_empty_ok body box None w) as (w' & -> & Ha); [done|]. by eexists _, _.
  - eexists _, _. split_and!; [done| |done]. destruct (picture _ _ _ _) as [ref w'] eqn:E.
    by apply (grows_add_count (AddPicture _)) in E as (? & _ & ?).
  - destruct (dots_heading_ok (category =b lit "Title") body box w) as (w' & -> & Ha). by eexists _, _.
  - destruct (dots_list_item_ok body box open_list w Hopen) as (g & w' & -> & Ha & Hv). eexists _, _.
    split_and!; [done..|]. by intros g' [= <-].
  - destruct (dots_text_ok category body (default DOC_ITEM_LABEL_TEXT (category_label category)) box w) as (w' & -> & Ha).
    by eexists _, _.
Qed.

(** An element with four finite coordinates. *)
Definition located (element : json) : bool :=
  match element with
  | JObject members => match element_coords members with Some _ => true | None => false end
  | _ => false
  end.
Definition dots_inv (w0 : LayoutWriter) (s : Dots) : Prop :=
  grows w0 (ds_writer s) ∧ ∀ g, ds_list s = Some g → valid_parent (ds_writer s) (Some g).

Lemma dots_step_ok scale w0 s entry :
  dots_inv w0 s → ∃ s', dots_step page scale s entry = Some s' ∧ dots_inv w0 s' ∧
    if located entry.2 then adds (ds_writer s) (ds_writer s') else ds_writer s' = ds_writer s.
Proof.
  destruct s as [w open_list starts captions], entry as [index element]. intros [Hg Hopen]. cbn [ds_writer ds_list snd] in *.
  unfold dots_step, located. destruct element as [| | | | | | |members]; try (by eexists).
  destruct (element_coords members) as [[[[x0 y0] x1] y1]|]; [|by eexists].
  set (category := default [] _). set (body := default [] (string_member (lit "text") members)).
  destruct (dots_element_ok category body (scaled_box page x0 y0 x1 y1 scale.1 scale.2) open_list w Hopen)
    as (open_list' & w' & -> & Ha & Hv).
  cbn [mbind option_bind]. eexists. split; [done|]. split; [|done]. split; [|done]. etrans; [apply Hg|apply Ha].
Qed.
(** Over the whole array: every located element adds, the others do nothing. *)
Lemma dots_steps_ok scale w0 s entries :
  dots_inv w0 s → ∃ s', foldM (dots_step page scale) s entries = Some s' ∧ dots_inv w0 s' ∧
    (item_count (ds_writer s) + length (filter (λ e, located e.2 = true) entries) ≤ item_count (ds_writer s'))%nat ∧
    (filter (λ e, located e.2 = true) entries = [] → ds_writer s' = ds_writer s).
Proof.
  revert s. induction entries as [|entry entries IH]; intros s Hs; cbn [foldM].
  { exists s. split_and!; [done|done|cbn; lia|done]. }
  destruct (dots_step_ok scale w0 s entry Hs) as (s1 & -> & Hs1 & Hone). cbn [mbind option_bind].
  destruct (IH s1 Hs1) as (s2 & Hf & Hs2 & Hcount & Hsame). exists s2. rewrite filter_cons. split_and!; [done|done| |].
  - destruct (located entry.2); [rewrite decide_True by done|rewrite decide_False by done].
    + destruct Hone as [_ Hc]. cbn [length]. lia.
    + by rewrite <- Hone.
  - destruct (located entry.2); [by rewrite decide_True|]. rewrite decide_False by done. intros He.
    by rewrite (Hsame He).
Qed.

(** The located elements of an answer. *)
Definition located_elements (text : bytes) : list json :=
  if trim text =b [] then [] else
  match json_parse (clean_json text) with
  | Some (JArray elements) => filter (λ e, located e = true) elements
  | _ => []
  end.
Lemma filter_zip_seq (elements : list json) k :
  length (filter (λ e : nat * json, located e.2 = true) (zip (seq k (length elements)) elements)) =
  length (filter (λ e, located e = true) elements).
Proof.
  revert k. induction elements as [|e elements IH]; intros k; [done|]. cbn [length seq zip zip_with].
  rewrite !filter_cons. cbn [snd]. case_decide; cbn [length]; by rewrite IH.
Qed.
Lemma map_dots_built text ws :
  ∃ w doc ws', built page w ∧ map_dots_json page text Document_empty ws = Mapped doc ws' ∧
    finish page (lit "dots.ocr") true w = Mapped doc ws' ∧
    (length (located_elements text) ≤ item_count w)%nat ∧ (located_elements text = [] → item_count w = 0%nat).
Proof.
  set (w0 := LayoutWriter_new page Document_empty ws).
  assert (Hbuilt : built page w0) by apply built_new.
  assert (Hempty : ∃ w doc ws', built page w ∧ finish page (lit "dots.ocr") true w0 = Mapped doc ws' ∧
    finish page (lit "dots.ocr") true w = Mapped doc ws' ∧ item_count w = 0%nat).
  { destruct (finish_empty_ok page (lit "dots.ocr") w0) as (doc & ws' & Hf). by exists w0, doc, ws'. }
  destruct Hempty as (we & doce & wse & He1 & He2 & He3 & He4).
  unfold map_dots_json, located_elements. fold w0. destruct (_ =b _).
  { exists we, doce, wse. split_and!; try done. cbn. lia. }
  destruct (json_parse (clean_json text)) as [[| | | | | |elements|]|];
    try (by exists we, doce, wse; split_and!; try done; cbn; lia).
  destruct (dots_steps_ok (dots_scale page) w0 (mk_Dots w0 None [] []) (zip (seq 0 (length elements)) elements))
    as (s & Hs & [Hg _] & Hcount & Hsame); [by split|]. unfold dots_elements. rewrite Hs. cbn [ds_writer] in *.
  rewrite filter_zip_seq in Hcount.
  set (w1 := link_adjacent_captions _ _ _ _).
  destruct (finish_empty_ok page (lit "dots.ocr") w1) as (doc & ws' & Hf).
  assert (Hcount1 : item_count w1 = item_count (ds_writer s)).
  { unfold item_count. f_equal. apply (same_run_edit (LinkAdjacentCaptions (ds_starts s) (ds_captions s) true)). }
  exists w1, doc, ws'. split_and!; [|done|done| |].
  - apply (built_edit page (LinkAdjacentCaptions _ _ _)). by apply Hg.
  - rewrite Hcount1. change (item_count w0) with 0%nat in Hcount. lia.
  - intros Hnone. rewrite Hcount1, Hsame; [done|]. apply length_zero_iff_nil. by rewrite filter_zip_seq, Hnone.
Qed.
End Mapped.

(** * Properties *)

(** A dots.ocr answer never fails a page.  Whatever the model wrote and
    whatever the JSON library makes of it, the page is mapped to a document whose
    items all hang from its body; each element of the array with four finite
    coordinates adds at least one item, and without such an element the document
    has no item at all. *)
Theorem map_dots_total `{ProtobufSize} `{Stb} `{Json} page text ws :
  ∃ doc ws' items, map_dots_json page text Document_empty ws = Mapped doc ws' ∧
    (∀ k i, is_Some (item_refs doc k i) ↔ mk_BodyChild k i ∈ items) ∧ NoDup items ∧
    (∀ k i, is_Some (item_refs doc k i) → hangs doc (Some (mk_BodyChild k i))) ∧
    (length (located_elements text) ≤ length items)%nat ∧ (located_elements text = [] → items = []).
Proof.
  destruct (map_dots_built page text ws) as (w & doc & ws' & Hb & Hmap & Hf & Hle & Hnone).
  destruct (finish_items page _ _ w _ _ Hb Hf) as (Hitems & Hnd & Hhang).
  exists doc, ws', (en_ref <$> lw_entries w). split_and!; [done..|by rewrite length_fmap|].
  intros He%Hnone. apply length_zero_iff_nil. by rewrite length_fmap.
Qed.

(** ** Concrete instances *)

Definition toy_element : json :=
  JObject [(lit "bbox", JArray [JUnsigned 0; JUnsigned 0; JUnsigned 28; JString (lit "+5e1")]);
           (lit "category", JString (lit "Text")); (lit "text", JString (lit "x</b>"))].
Definition toy_json : Json := Build_Json (λ _, Some (JArray [JNull; toy_element])) (λ _, []).
(** Text whose only tag closes nothing is added twice: as an empty item, since
    the tag counts as inline markup, and as plain text, since the HTML then holds
    no element. *)
Example stray_tag_duplicates :
  match @map_dots_json toy_size toy_stb toy_json toy_page (lit "[") Document_empty None with
  | Mapped doc _ => item_text <$> doc_texts doc
  | MapFailed _ => []
  end = [[]; lit "x</b>"].
Proof. vm_compute. reflexivity. Qed.
Example clean_json_small : clean_json (lit "a [{1}, {2}, {3") = lit "[{1}, {2}]".
Proof. vm_compute. reflexivity. Qed.
