(* ===== verification/NemotronText.v ===== *)
(** The texts of Nemotron Parse (the first half of src/mapping/nemotron.cpp):
    the coordinate and class tokens around its blocks, LaTeX tables rewritten as
    HTML, Markdown data tables and list markers.  What is proved: every scan ends,
    both versions read a printed page back as the same blocks, and a LaTeX table
    of plain cells becomes the HTML table that holds them. *)
From S2P Require Import Prelude Numbers Double Proto ImageCrop Builder OtslGrid.
From S2P Require Import MarkupTree LayoutText MarkdownInline.

Definition kMaxLatexColumns : nat := 1000.

(** * Tokens *)

(** Whether the text has [s] at [i]. *)
Definition at_pos (text : bytes) (i : nat) (s : bytes) : bool := starts_with s (drop i text).

(** The number at a position: where it ends, and its value; one that is out of a
    double's range leaves the old value. *)
Definition number_at (text : bytes) (at_ : nat) (value : double) : option nat * double :=
  let n := span isdigit (drop at_ text) in
  if bool_decide (n = 0%nat) then (None, value) else
  let j := (at_ + n)%nat in
  let j := if char_at text j (Ascii.eqb "."%char) && char_at text (S j) isdigit
           then (S j + span isdigit (drop (S j) text))%nat else j in
  (Some j, match from_chars_double (substr text at_ (j - at_)) with Some (value, _) => value | None => value end).
(** A coordinate pair at [i]: its end, if it is one, and the values read. *)
Definition coord_token (text : bytes) (i : nat) (x y : double) : option nat * double * double :=
  if negb (at_pos text i (lit "<x_")) then (None, x, y) else
  let '(x_end, x) := number_at text (i + 3) x in
  match x_end with
  | Some x_end =>
      if negb (at_pos text x_end (lit "><y_")) then (None, x, y) else
      let '(y_end, y) := number_at text (x_end + 4) y in
      match y_end with
      | Some y_end => (if char_at text y_end (Ascii.eqb ">"%char) then Some (S y_end) else None, x, y)
      | None => (None, x, y)
      end
  | None => (None, x, y)
  end.
(** The class name at [i] and the end of its token. *)
Definition class_token (text : bytes) (i : nat) : option (bytes * nat) :=
  if negb (at_pos text i (lit "<class_")) then None else
  match find_char ">"%char text (i + 7) with
  | Some close =>
      if bool_decide (close = i + 7)%nat then None else Some (substr text (i + 7) (close - i - 7), S close)
  | None => None
  end.

(** Every occurrence of a token is erased, left to right. *)
Definition erase_step (token : bytes) (s : bytes * nat) : bytes * nat + bytes :=
  let '(text, from) := s in
  match find token text from with
  | Some at_ => inl (take at_ text ++ drop (at_ + length token) text, at_)
  | None => inr text
  end.
Definition erase_all (text token : bytes) : bytes := run_loop [] (S (length text)) (erase_step token) (text, 0%nat).
Definition kArtifacts : list bytes := lit <$> ["<tbc>"; "\<|unk|\>"; "\unknown"]%string.
Definition remove_artifacts (text : bytes) : bytes := foldl erase_all text kArtifacts.

(** * LaTeX tables *)

(** The '}' that closes the group; [skip]: the byte before was a backslash. *)
Fixpoint group_end (depth : nat) (skip : bool) (s : bytes) (i : nat) : option nat :=
  match s with
  | [] => None
  | c :: s =>
      if skip then group_end depth false s (S i)
      else if c =c "\"%char then group_end depth true s (S i)
      else if c =c "{"%char then group_end (S depth) false s (S i)
      else if c =c "}"%char then
        if bool_decide (depth ≤ 1)%nat then Some i else group_end (depth - 1) false s (S i)
      else group_end depth false s (S i)
  end.
(** A group in braces and the position after it. *)
Definition read_group (text : bytes) (pos : nat) : option (bytes * nat) :=
  let pos := (pos + span isspace (drop pos text))%nat in
  if negb (char_at text pos (Ascii.eqb "{"%char)) then None else
  i ← group_end 0 false (drop pos text) pos;
  Some (substr text (S pos) (i - pos - 1), S i).

(** A text cut at the separators outside braces. *)
Record Split := mk_Split { sl_i : nat; sl_start : nat; sl_depth : nat; sl_parts : list bytes }.
Definition split_step (text separator : bytes) (s : Split) : Split + list bytes :=
  let '(mk_Split i start depth parts) := s in
  match text !! i with
  | None => inr (parts ++ [drop start text])
  | Some c =>
      if bool_decide (depth = 0%nat) && at_pos text i separator then
        inl (mk_Split (i + length separator) (i + length separator) depth (parts ++ [substr text start (i - start)]))
      else if c =c "\"%char then inl (mk_Split (i + 2) start depth parts)
      else if c =c "{"%char then inl (mk_Split (S i) start (S depth) parts)
      else if c =c "}"%char then inl (mk_Split (S i) start (depth - 1) parts)
      else inl (mk_Split (S i) start depth parts)
  end.
Definition split_top_level (text separator : bytes) : list bytes :=
  run_loop [] (S (length text)) (split_step text separator) (mk_Split 0 0 0 []).

(** [n] groups from a position on. *)
Fixpoint read_groups (n : nat) (text : bytes) (pos : nat) : option (list bytes * nat) :=
  match n with
  | O => Some ([], pos)
  | S n =>
      '(group, pos) ← read_group text pos;
      '(groups, pos) ← read_groups n text pos;
      Some (group :: groups, pos)
  end.
Definition add_to_last (rest : bytes) (args : list bytes) : list bytes :=
  if rest =b [] then args else alter (λ last, last ++ lit " " ++ rest) (length args - 1)%nat args.
(** The arguments of a command the text starts with; what follows them joins the
    last. *)
Definition unwrap_command (text command : bytes) (arg_count : nat) : option (list bytes) :=
  let stripped := trim text in
  let prefix := "\"%char :: command in
  if negb (starts_with prefix stripped) || char_at stripped (length prefix) isalpha then None else
  '(args, pos) ← read_groups arg_count stripped (length prefix);
  let rest := trim (drop pos stripped) in
  let rest := trim (drop (span (Ascii.eqb "}"%char) rest) rest) in
  Some (add_to_last rest args).

Definition span_value (value : bytes) : nat :=
  let digits := lstrip (Ascii.eqb "0"%char) (trim value) in
  if (digits =b []) || negb (forallb isdigit digits) then 1%nat
  else if bool_decide (4 < length digits)%nat then S kMaxLatexColumns
  else Nat.min (Z.to_nat (digits_value 0 digits).1) (S kMaxLatexColumns).

Definition html_escape (text : bytes) : bytes :=
  mjoin ((λ c, if c =c "&"%char then lit "&amp;" else if c =c "<"%char then lit "&lt;"
               else if c =c ">"%char then lit "&gt;" else [c]) <$> text).

Definition kCommands : list (bytes * bytes) :=
  [(lit "textless", lit "&lt;"); (lit "textgreater", lit "&gt;"); (lit "textasciitilde", lit "~");
   (lit "linebreak", lit "<br>"); (lit "mbox", [])].
Definition kCellTags : list bytes := lit <$> ["b"; "br"; "code"; "em"; "i"; "strong"; "sub"; "sup"; "u"]%string.
(** The command at a position, its replacement and its end. *)
Fixpoint cell_command (commands : list (bytes * bytes)) (text : bytes) (i : nat) : option (bytes * nat) :=
  match commands with
  | [] => None
  | (name, replacement) :: commands =>
      let stop := (i + length name)%nat in
      if negb (at_pos text i name) || char_at text stop isalpha then cell_command commands text i
      else Some (replacement, if at_pos text stop (lit "{}") then stop + 2 else stop)%nat
  end.
(** The end of an inline tag at [i]. *)
Definition cell_tag (text : bytes) (i : nat) : option nat :=
  let j := if char_at text (S i) (Ascii.eqb "/"%char) then (i + 2)%nat else S i in
  let name_end := (j + span isalpha (drop j text))%nat in
  let name := tolower <$> substr text j (name_end - j) in
  let k := (name_end + span isspace (drop name_end text))%nat in
  let k := if char_at text k (Ascii.eqb "/"%char) then S k else k in
  if contains kCellTags name && char_at text k (Ascii.eqb ">"%char) then Some (S k) else None.
(** All but a few text commands and inline tags is escaped: the position, where
    the text not written yet begins, and what is written. *)
Definition escape_step (text : bytes) (s : nat * nat * bytes) : nat * nat * bytes + bytes :=
  let '(i, plain, out) := s in
  let flush until := out ++ html_escape (substr text plain (until - plain)) in
  match text !! i with
  | None => inr (flush (length text))
  | Some c =>
      let tag := if c =c "<"%char then cell_tag text i else None in
      let after_tag := match tag with
                       | Some stop => inl (stop, stop, flush i ++ substr text i (stop - i))
                       | None => inl (S i, plain, out)
                       end in
      match (if c =c "\"%char then text !! S i else None) with
      | Some next =>
          if (next =c "%"%char) || (next =c "&"%char) || (next =c "#"%char) || (next =c "$"%char) then
            inl (i + 2, i + 2, flush i ++ (if next =c "&"%char then lit "&amp;" else [next]))%nat
          else
            match cell_command kCommands text (S i) with
            | Some (replacement, stop) => inl (stop, stop, flush i ++ replacement)
            | None => after_tag
            end
      | None => after_tag
      end
  end.
Definition escape_cell_markup (text : bytes) : bytes :=
  run_loop [] (S (length text)) (escape_step text) (0%nat, 0%nat, []).

Record LatexCell := mk_LatexCell { lc_text : bytes; lc_row_span : nat; lc_col_span : nat; lc_header : bool }.
Definition nth_arg (args : list bytes) (n : nat) : bytes := default [] (args !! n).
Definition latex_cell_step (s : bytes * LatexCell) : bytes * LatexCell + bytes * LatexCell :=
  let '(text, cell) := s in
  match unwrap_command text (lit "multicolumn") 3 with
  | Some args =>
      inl (nth_arg args 2, mk_LatexCell (lc_text cell) (lc_row_span cell) (span_value (nth_arg args 0)) (lc_header cell))
  | None =>
      match unwrap_command text (lit "multirow") 3 with
      | Some args =>
          inl (nth_arg args 2, mk_LatexCell (lc_text cell) (span_value (nth_arg args 0)) (lc_col_span cell) (lc_header cell))
      | None =>
          match unwrap_command text (lit "thead") 1 with
          | Some args => inl (nth_arg args 0, mk_LatexCell (lc_text cell) (lc_row_span cell) (lc_col_span cell) true)
          | None => inr s
          end
      end
  end.
Definition parse_latex_cell (text : bytes) : LatexCell :=
  let '(text, cell) := run_loop ([], mk_LatexCell [] 1 1 false) (S (length text)) latex_cell_step
                         (text, mk_LatexCell [] 1 1 false) in
  mk_LatexCell (trim (escape_cell_markup text)) (lc_row_span cell) (lc_col_span cell) (lc_header cell).

(** The cells read so far, and for each column the cell that covers it and the
    row that starts in: [storage] and [owners], a cell being its place in the
    storage. *)
Abbreviation Owners := (gmap nat (nat * nat)).
Record LatexRow := mk_LatexRow {
  lr_col : nat; lr_cells : list nat; lr_storage : list LatexCell; lr_owners : Owners }.
Definition set_row_span (span : nat) (cell : LatexCell) : LatexCell :=
  mk_LatexCell (lc_text cell) span (lc_col_span cell) (lc_header cell).
(** The column's cell still spans the row. *)
Definition covering (storage : list LatexCell) (owners : Owners) (col row : nat) : option (nat * nat) :=
  '(owner, start) ← owners !! col;
  cell ← storage !! owner;
  if bool_decide (row < start + lc_row_span cell)%nat then Some (owner, start) else None.
(** One cell of a row: an empty one under a spanning cell is that cell's, other
    text ends the span.  No result: the table is too wide. *)
Definition place_latex_cell (row : nat) (s : LatexRow) (raw : bytes) : option LatexRow :=
  let '(mk_LatexRow col cells storage owners) := s in
  let cell := parse_latex_cell raw in
  let index := length storage in
  let storage := storage ++ [cell] in
  let place storage :=
    if bool_decide (kMaxLatexColumns < col + lc_col_span cell)%nat then None else
    Some (mk_LatexRow (col + lc_col_span cell) (cells ++ [index]) storage
      (foldl (λ owners c, <[c := (index, row)]> owners) owners (seq col (lc_col_span cell)))) in
  match covering storage owners col row with
  | Some (owner, start) =>
      if lc_text cell =b [] then Some (mk_LatexRow (col + lc_col_span cell) cells storage owners)
      else place (alter (set_row_span (row - start)) owner storage)
  | None => place storage
  end.
Definition place_latex_row (s : list (list nat) * list LatexCell * Owners) (row : nat * bytes)
  : option (list (list nat) * list LatexCell * Owners) :=
  let '(grid, storage, owners) := s in
  let '(row_index, text) := row in
  r ← foldM (place_latex_cell row_index) (mk_LatexRow 0 [] storage owners) (split_top_level text (lit "&"));
  Some (grid ++ [lr_cells r], lr_storage r, lr_owners r).

Definition latex_cell_html (cell : LatexCell) : bytes :=
  let tag := if lc_header cell then lit "th" else lit "td" in
  lit "<" ++ tag ++ (if lc_header cell then lit " scope=" ++ [c_quote] ++ lit "col" ++ [c_quote] else []) ++
  lit " rowspan=" ++ [c_quote] ++ to_string (Z.of_nat (lc_row_span cell)) ++ [c_quote] ++
  lit " colspan=" ++ [c_quote] ++ to_string (Z.of_nat (lc_col_span cell)) ++ [c_quote] ++ lit ">" ++
  markdown_inline_html (lc_text cell) ++ lit "</" ++ tag ++ lit ">".
Definition latex_row_html (storage : list LatexCell) (cells : list nat) : bytes :=
  lit "<tr>" ++ mjoin (latex_cell_html <$> omap (λ index, storage !! index) cells) ++ lit "</tr>".
(** What stands between the tabular's begin and end. *)
Definition tabular_body (latex : bytes) : bytes :=
  let body :=
    match find (lit "\begin{tabular}") latex 0 with
    | Some begin =>
        let body := drop (begin + 15) latex in
        match read_group body 0 with Some (_, pos) => drop pos body | None => body end
    | None => latex
    end in
  match find (lit "\end{tabular}") body 0 with Some stop => take stop body | None => body end.
Definition latex_rows (latex : bytes) : list bytes :=
  filter (λ row, trim row ≠ []) (split_top_level (tabular_body latex) (lit "\\")).
Definition latex_tabular_to_html (latex : bytes) : option bytes :=
  let rows := latex_rows latex in
  '(grid, storage, _) ← foldM place_latex_row ([], [], ∅) (zip (seq 0 (length rows)) rows);
  Some (lit "<table>" ++ mjoin (latex_row_html storage <$> grid) ++ lit "</table>").

(** * Charts and lines *)

Definition kSeparatorChars : bytes := lit "|-: ".
Definition is_bar (c : ascii) : bool := c =c "|"%char.
(** The cells of a data row; a separator row has none. *)
Definition markdown_row (line : bytes) : option (list bytes) :=
  if forallb (λ c, contains_char c kSeparatorChars) line then None
  else Some (trim <$> split_on "|"%char (rstrip is_bar (lstrip is_bar (trim line)))).
Definition markdown_table_rows (lines : list bytes) : list (list bytes) := omap markdown_row lines.

(** Lines end with "\n", "\r" or both. *)
Definition is_line_end (c : ascii) : bool := (c =c c_cr) || (c =c c_nl).
Definition lines_step (text : bytes) (s : nat * list bytes) : nat * list bytes + list bytes :=
  let '(start, lines) := s in
  if negb (bool_decide (start < length text)%nat) then inr lines else
  let stop := default (length text) (find_first is_line_end text start) in
  inl (stop + (if at_pos text stop [c_cr; c_nl] then 2 else 1), lines ++ [substr text start (stop - start)])%nat.
Definition split_lines (text : bytes) : list bytes :=
  run_loop [] (S (length text)) (lines_step text) (0%nat, []).

Definition has_word (type : bytes) (word : string) : bool := negb (absent (lit word) type).
Definition chart_label (type : bytes) : bytes :=
  if has_word type "heatmap" then lit "heatmap"
  else if has_word type "stacked" && has_word type "bar" then lit "stacked_bar_chart"
  else if has_word type "bar" then lit "bar_chart"
  else if has_word type "line" then lit "line_chart"
  else if has_word type "scatter" || has_word type "bubble" then lit "scatter_chart"
  else if has_word type "pie" || has_word type "donut" then lit "pie_chart"
  else if has_word type "box" then lit "box_plot"
  else lit "other_chart".

(** * Blocks *)

(** [x1, y1, x2, y2], the text between and the class name: a [Region] of version
    2.0 and a [Block] of 3.5. *)
Record Region := mk_Region {
  rg_x1 : double; rg_y1 : double; rg_x2 : double; rg_y2 : double; rg_text : bytes; rg_label : bytes }.

(** The first coordinate pair from [at_] on that a class token follows: where it
    starts, where the class token ends, its name and the values. *)
Fixpoint closing_triple (fuel : nat) (text : bytes) (at_ : nat) (x y : double)
  : option (nat * nat * bytes * double * double) :=
  match fuel with
  | O => None
  | S fuel =>
      match find (lit "<x_") text at_ with
      | None => None
      | Some at_ =>
          let '(after, x, y) := coord_token text at_ x y in
          match after ≫= class_token text with
          | Some (label, stop) => Some (at_, stop, label, x, y)
          | None => closing_triple fuel text (S at_) x y
          end
      end
  end.
Definition region_label (label : bytes) : bytes := if label =b lit "Inline-formula" then lit "Formula" else label.
(** One opening pair: a region when a closing triple follows. *)
Definition region_step (text : bytes) (s : nat * list Region) : nat * list Region + list Region :=
  let '(i, regions) := s in
  match find (lit "<x_") text i with
  | None => inr regions
  | Some open =>
      let '(body_start, x1, y1) := coord_token text open dzero dzero in
      match body_start with
      | None => inl (S open, regions)
      | Some body_start =>
          match closing_triple (S (length text)) text body_start dzero dzero with
          | None => inr regions
          | Some (close, stop, label, x2, y2) =>
              inl (stop, regions ++ [mk_Region x1 y1 x2 y2 (substr text body_start (close - body_start)) (region_label label)])
          end
      end
  end.
Definition nemotron_v2_regions (text : bytes) : list Region :=
  run_loop [] (S (length text)) (region_step text) (0%nat, []).

(** The coordinate pairs of a segment: where each begins and ends, and its
    values. *)
Record Coord := mk_Coord { co_begin : nat; co_end : nat; co_x : double; co_y : double }.
Definition coord_step (segment : bytes) (s : nat * list Coord) : nat * list Coord + list Coord :=
  let '(i, coords) := s in
  match find (lit "<x_") segment i with
  | None => inr coords
  | Some i =>
      let '(stop, x, y) := coord_token segment i dzero dzero in
      match stop with
      | Some stop => inl (stop, coords ++ [mk_Coord i stop x y])
      | None => inl (S i, coords)
      end
  end.
Definition segment_coords (segment : bytes) : list Coord :=
  run_loop [] (S (length segment)) (coord_step segment) (0%nat, []).
(** The text between the first and the last pair, without the pairs between. *)
Fixpoint between (segment : bytes) (pos : nat) (coords : list Coord) : bytes :=
  match coords with
  | [] => []
  | [last] => substr segment pos (co_begin last - pos)
  | c :: coords => substr segment pos (co_begin c - pos) ++ between segment (co_end c) coords
  end.
Definition segment_block (segment label : bytes) : option Region :=
  match segment_coords segment with
  | first :: (_ :: _) as rest =>
      last ← last rest;
      Some (mk_Region (co_x first) (co_y first) (co_x last) (co_y last)
              (trim (remove_artifacts (between segment (co_end first) rest))) label)
  | _ => None
  end.
Definition deq (x y : double) : bool := negb (dlt x y) && negb (dlt y x).
(** Neither comes before the other in the order of [std::tie]. *)
Definition same_block (a b : Region) : bool :=
  (rg_label a =b rg_label b) && deq (rg_x1 a) (rg_x1 b) && deq (rg_y1 a) (rg_y1 b) &&
  deq (rg_x2 a) (rg_x2 b) && deq (rg_y2 a) (rg_y2 b) && (rg_text a =b rg_text b).
(** A block seen before is dropped. *)
Definition add_block (blocks : list Region) (block : Region) : list Region :=
  if existsb (same_block block) blocks then blocks else blocks ++ [block].
Definition block_step (content : bytes) (s : nat * nat * list Region) : nat * nat * list Region + list Region :=
  let '(from, start, blocks) := s in
  match find (lit "<class_") content from with
  | None => inr blocks
  | Some at_ =>
      match class_token content at_ with
      | None => inl (S at_, start, blocks)
      | Some (label, stop) =>
          inl (stop, stop, match segment_block (substr content start (at_ - start)) label with
                           | Some block => add_block blocks block
                           | None => blocks
                           end)
      end
  end.
Definition nemotron_v35_blocks (content : bytes) : list Region :=
  run_loop [] (S (length content)) (block_step content) (0%nat, 0%nat, []).

(** * List markers *)

Definition marker_close (text : bytes) (k : nat) : option nat :=
  if char_at text k (λ c, (c =c "."%char) || (c =c ")"%char)) then Some (S k) else None.
Definition is_roman (c : ascii) : bool := contains_char c (lit "ivxlcdmIVXLCDM").
(** "1.", "(a)", "iv)" and the like. *)
Definition ordered_marker (text : bytes) (at_ : nat) : option nat :=
  let j := if char_at text at_ (Ascii.eqb "("%char) then S at_ else at_ in
  let digits := span isdigit (drop j text) in
  if bool_decide (0 < digits)%nat then marker_close text (j + digits)
  else if char_at text j isalpha then
    match marker_close text (S j) with
    | Some stop => Some stop
    | None =>
        let roman := span is_roman (drop j text) in
        if bool_decide (0 < roman)%nat then marker_close text (j + roman) else None
    end
  else None.
Definition kBullets : list bytes :=
  [lit "-"; chr <$> [0xE2; 0x80; 0x93]; chr <$> [0xE2; 0x80; 0x94]; chr <$> [0xE2; 0x80; 0xA2];
   chr <$> [0xE2; 0x96; 0xBA]; chr <$> [0xE2; 0x96; 0xAA]; chr <$> [0xE2; 0x96; 0xA0]; chr <$> [0xE2; 0x96; 0xA1];
   chr <$> [0xE2; 0x97; 0xA6]; chr <$> [0xE2; 0x97; 0x8F]; chr <$> [0xE2; 0x97; 0x8B]; chr <$> [0xC2; 0xB7];
   lit "*"; lit "+"].
(** A bullet, or a math command standing for one. *)
Fixpoint bullet (bullets : list bytes) (text : bytes) (at_ : nat) : option nat :=
  match bullets with
  | [] => None
  | b :: bullets => if at_pos text at_ b then Some (at_ + length b)%nat else bullet bullets text at_
  end.
Definition math_bullet (text : bytes) (at_ : nat) : option nat :=
  if negb (at_pos text at_ (lit "\(\")) then None else
  let n := span isalpha (drop (at_ + 3) text) in
  let k := (at_ + 3 + n)%nat in
  if bool_decide (0 < n)%nat && at_pos text k (lit "\)") then Some (k + 2)%nat else None.
(** The marker, whether it is an ordered one, and where the body begins. *)
Definition list_marker (text : bytes) : option (bytes * bool * nat) :=
  let begin := span isspace text in
  let '(stop, ordered) :=
    match ordered_marker text begin with
    | Some stop => (Some stop, true)
    | None => (match bullet kBullets text begin with Some stop => Some stop | None => math_bullet text begin end, false)
    end in
  match stop with
  | Some stop =>
      if char_at text stop isspace
      then Some (substr text begin (stop - begin), ordered, stop + span isspace (drop stop text))%nat else None
  | None => None
  end.

Definition markdown_heading_level (text : bytes) (fallback : Z) : Z :=
  let i := span isspace text in
  let hashes := span (Ascii.eqb "#"%char) (drop i text) in
  if bool_decide (hashes = 0%nat) || bool_decide (6 < hashes)%nat || negb (char_at text (i + hashes) isspace)
  then fallback else Z.of_nat hashes.

(** * Every scan ends *)

Lemma at_pos_app text i s : at_pos text i s = true → s ≠ [] → (i + length s ≤ length text)%nat.
Proof.
  intros [r Hr]%starts_with_app Hs. apply (f_equal length) in Hr. rewrite length_drop, length_app in Hr.
  destruct s; [done|]. cbn in *. lia.
Qed.

Lemma erase_step_decreases token s s' :
  token ≠ [] → erase_step token s = inl s' → (length s'.1 - s'.2 < length s.1 - s.2)%nat.
Proof.
  destruct s as [text from]. intros Ht. cbn. destruct (find token text from) as [at_|] eqn:E; [|done]. intros [= <-]. cbn.
  pose proof (find_end _ _ _ _ E). apply find_lt in E. rewrite length_app, length_take, length_drop.
  destruct token; [done|]. cbn [length] in *. lia.
Qed.
Lemma erase_all_length text token : token ≠ [] → (length (erase_all text token) ≤ length text)%nat.
Proof.
  intros Ht. unfold erase_all.
  apply (run_loop_spec (λ s, length s.1 ≤ length text)%nat (λ r, length r ≤ length text)%nat (λ s, length s.1 - s.2)%nat);
    [|cbn; lia..].
  intros s Hs. destruct (erase_step token s) as [s'|r] eqn:E.
  - split; [|by apply (erase_step_decreases token)]. destruct s as [t from]. cbn in *.
    destruct (find token t from) as [at_|]; [|done]. injection E as <-. cbn. rewrite length_app, length_take, length_drop. lia.
  - destruct s as [t from]. cbn in *. destruct (find token t from); [done|]. by injection E as <-.
Qed.

Lemma split_step_decreases text separator s s' :
  separator ≠ [] → split_step text separator s = inl s' → (length text - sl_i s' < length text - sl_i s)%nat.
Proof.
  destruct s as [i start depth parts]. intros Hs. cbn [split_step sl_i].
  destruct (text !! i) as [c|] eqn:Hc; [|done]. apply lookup_lt_Some in Hc.
  destruct (_ && _). { intros [= <-]. cbn. destruct separator; [done|]. cbn. lia. }
  repeat destruct (_ =c _); intros [= <-]; cbn; lia.
Qed.
(** Cutting a text at its separators loses nothing: the parts joined by the
    separator are the text. *)
Lemma split_top_level_join text separator :
  separator ≠ [] →
  ∃ parts last, split_top_level text separator = parts ++ [last] ∧ mjoin ((λ part, part ++ separator) <$> parts) ++ last = text.
Proof.
  intros Hs. unfold split_top_level.
  apply (run_loop_spec (λ s, mjoin ((λ part, part ++ separator) <$> sl_parts s) = take (sl_start s) text ∧
      sl_start s ≤ sl_i s)%nat
    (λ r, ∃ parts last, r = parts ++ [last] ∧ mjoin ((λ part, part ++ separator) <$> parts) ++ last = text)
    (λ s, length text - sl_i s)%nat); [|by cbn|cbn; lia].
  intros s [Hj Hi]. destruct (split_step text separator s) as [s'|r] eqn:E.
  - split; [|by apply (split_step_decreases text separator)]. destruct s as [i start depth parts]. cbn [split_step] in E.
    cbn [sl_parts sl_start sl_i] in *.
    destruct (text !! i) as [c|] eqn:Hc; [|done].
    destruct (bool_decide (depth = 0%nat) && at_pos text i separator) eqn:Ea.
    + injection E as <-. cbn [sl_parts sl_start sl_i]. split; [|lia].
      apply andb_true_iff in Ea as [_ Ea]. unfold at_pos in Ea. apply starts_with_app in Ea as [r Hr].
      rewrite fmap_app, join_app. cbn [fmap list_fmap mjoin list_join]. rewrite app_nil_r.
      rewrite Hj. rewrite app_assoc.
      assert (Ht : take i text = take start text ++ substr text start (i - start)).
      { unfold substr. rewrite <- (take_drop start text) at 1. apply lookup_lt_Some in Hc.
        rewrite take_app_ge; rewrite length_take_le by lia; done. }
      rewrite <- Ht. rewrite <- (take_drop i text) at 2. rewrite Hr. apply lookup_lt_Some in Hc.
      rewrite take_app_ge; rewrite length_take_le by lia; [|lia]. f_equal.
      replace (i + length separator - i)%nat with (length separator) by lia. by rewrite take_app_length.
    + repeat destruct (_ =c _); injection E as <-; cbn; (split; [done|lia]).
  - destruct s as [i start depth parts]. cbn [split_step] in E. cbn [sl_parts sl_start sl_i] in *.
    destruct (text !! i) eqn:Hc; [repeat case_match; done|]. injection E as <-. exists parts, (drop start text). split; [done|].
    by rewrite Hj, take_drop.
Qed.

Lemma cell_command_after commands text i replacement stop :
  Forall (λ c, c.1 ≠ []) commands → cell_command commands text i = Some (replacement, stop) → (i < stop)%nat.
Proof.
  induction commands as [|[name r] commands IH]; [done|]. intros [Hn Hc]%Forall_cons. cbn in Hn. cbn [cell_command].
  destruct (_ || _); [by apply IH|]. clear IH. intros [= <- <-]. destruct name; [done|]. cbn [length]. case_match; lia.
Qed.
Lemma cell_tag_after text i stop : cell_tag text i = Some stop → (i < stop)%nat.
Proof. unfold cell_tag. destruct (_ && _); [|done]. intros [= <-]. repeat case_match; lia. Qed.
Lemma escape_step_decreases text s s' :
  escape_step text s = inl s' → (length text - s'.1.1 < length text - s.1.1)%nat.
Proof.
  destruct s as [[i plain] out]. cbn [escape_step fst snd]. destruct (text !! i) as [c|] eqn:Hc; [|done].
  apply lookup_lt_Some in Hc.
  assert (Htag : ∀ s', match (if c =c "<"%char then cell_tag text i else None) with
      | Some stop => inl (stop, stop, (out ++ html_escape (substr text plain (i - plain))) ++ substr text i (stop - i))
      | None => inl (S i, plain, out) end = inl (B:=bytes) s' → (length text - s'.1.1 < length text - i)%nat).
  { intros s1. destruct (if _ =c _ then _ else _) as [stop|] eqn:E; intros [= <-]; cbn [fst]; [|lia].
    destruct (_ =c _); [|done]. apply cell_tag_after in E. lia. }
  destruct (if _ =c _ then text !! S i else None) as [next|]; [|apply Htag].
  destruct (_ || _); [intros [= <-]; cbn [fst]; lia|].
  destruct (cell_command kCommands text (S i)) as [[replacement stop]|] eqn:E; [|apply Htag].
  intros [= <-]. cbn [fst]. apply cell_command_after in E; [lia|]. by repeat constructor.
Qed.

(** A group lies within the text, its braces around it. *)
Lemma group_end_bounds depth skip s i j : group_end depth skip s i = Some j → (i ≤ j < i + length s)%nat.
Proof.
  revert depth skip i. induction s as [|c s IH]; intros depth skip i; cbn [group_end]; [done|]. cbn [length].
  repeat case_match; try (intros ?%IH; lia). intros [= <-]. lia.
Qed.
Lemma read_group_bounds text pos group stop :
  read_group text pos = Some (group, stop) → (pos + length group + 2 ≤ stop ≤ length text)%nat.
Proof.
  unfold read_group. set (at_ := (pos + _)%nat). destruct (char_at text at_ _) eqn:Eb; [|done]. cbn [negb].
  destruct (group_end 0 false (drop at_ text) at_) as [i|] eqn:E; [|done]. intros [= <- <-].
  assert (Hlt : (at_ < length text)%nat).
  { unfold char_at in Eb. destruct (text !! at_) eqn:E1; [by apply lookup_lt_Some in E1|done]. }
  assert (i ≠ at_).
  { intros ->. unfold char_at in Eb. destruct (text !! at_) as [c|] eqn:E1; [|done].
    rewrite (drop_S _ _ _ E1) in E. apply Ascii.eqb_eq in Eb as <-. cbn [group_end] in E. cbn -[group_end] in E.
    apply group_end_bounds in E. lia. }
  apply group_end_bounds in E. rewrite length_drop in E. rewrite length_substr. subst at_. lia.
Qed.
Lemma read_groups_bounds n text pos groups stop :
  read_groups n text pos = Some (groups, stop) → (pos ≤ length text)%nat →
  length groups = n ∧ (pos ≤ stop ≤ length text)%nat ∧ Forall (λ g, pos + length g + 2 ≤ stop)%nat groups.
Proof.
  revert pos groups stop. induction n as [|n IH]; intros pos groups stop; cbn [read_groups].
  { intros [= <- <-] ?. split_and!; [done|lia|lia|done]. }
  destruct (read_group text pos) as [[group p1]|] eqn:E; [|done]. cbn [mbind option_bind].
  destruct (read_groups n text p1) as [[gs p2]|] eqn:E2; [|done]. cbn [mbind option_bind]. intros [= <- <-] Hp.
  apply read_group_bounds in E. apply IH in E2 as (<- & Hb & Hall); [|lia]. split_and!; [done|lia|lia|].
  constructor; [lia|]. eapply Forall_impl; [apply Hall|]. cbn. lia.
Qed.

(** What a command holds is shorter than the command. *)
Lemma unwrap_command_shorter text command n args :
  unwrap_command text command (S n) = Some args → (length (nth_arg args n) < length text)%nat.
Proof.
  unfold unwrap_command. cbv zeta. set (prefix := "\"%char :: command).
  destruct (starts_with prefix (trim text)) eqn:Ep; [|done]. cbn [negb orb].
  destruct (char_at _ _ _); [done|].
  destruct (read_groups (S n) (trim text) (length prefix)) as [[groups pos]|] eqn:E; [|done]. cbn [mbind option_bind].
  intros [= <-]. apply starts_with_app in Ep as [r Hr]. pose proof (length_trim text) as Ht.
  apply read_groups_bounds in E as (Hn & Hpos & Hall); [|rewrite Hr, length_app; lia].
  set (rest := trim _).
  assert (Hrest : (length rest ≤ length (trim text) - pos)%nat).
  { unfold rest. etrans; [apply length_trim|]. rewrite length_drop. etrans; [apply Nat.le_sub_l|].
    etrans; [apply length_trim|]. by rewrite length_drop. }
  destruct (lookup_lt_is_Some_2 groups n ltac:(lia)) as [g Hg]. rewrite Forall_lookup in Hall. specialize (Hall n g Hg).
  unfold nth_arg, add_to_last. cbn [length] in *. destruct (rest =b []).
  - rewrite Hg. cbn. lia.
  - rewrite Hn. cbn [Nat.sub]. rewrite Nat.sub_0_r, list_lookup_alter, Hg. rewrite decide_True by done. cbn.
    rewrite !length_app. cbn [length]. lia.
Qed.
Lemma latex_cell_step_decreases s s' : latex_cell_step s = inl s' → (length s'.1 < length s.1)%nat.
Proof.
  destruct s as [text cell]. cbn [latex_cell_step fst].
  destruct (unwrap_command text (lit "multicolumn") 3) as [args|] eqn:E.
  { intros [= <-]. by apply unwrap_command_shorter in E. }
  destruct (unwrap_command text (lit "multirow") 3) as [args|] eqn:E1.
  { intros [= <-]. by apply unwrap_command_shorter in E1. }
  destruct (unwrap_command text (lit "thead") 1) as [args|] eqn:E2; [|done].
  intros [= <-]. by apply unwrap_command_shorter in E2.
Qed.
Lemma lines_step_decreases text s s' :
  lines_step text s = inl s' → (length text - s'.1 < length text - s.1)%nat.
Proof.
  destruct s as [start lines]. cbn [lines_step fst]. case_bool_decide; [|done]. cbn [negb]. intros [= <-]. cbn [fst].
  destruct (find_first is_line_end text start) as [stop|] eqn:E; cbn [default id].
  - apply find_if_Some in E as [Hb _]. destruct (at_pos _ _ _); lia.
  - destruct (at_pos _ _ _); lia.
Qed.

Lemma number_at_after text at_ value stop value' : number_at text at_ value = (Some stop, value') → (at_ < stop)%nat.
Proof.
  unfold number_at. cbv zeta. destruct (bool_decide _) eqn:E; [done|]. apply bool_decide_eq_false in E.
  intros [= <- _]. case_match; lia.
Qed.
Lemma coord_token_after text i x y stop x' y' : coord_token text i x y = (Some stop, x', y') → (i < stop)%nat.
Proof.
  unfold coord_token. destruct (at_pos _ _ _); [|done]. cbn [negb].
  destruct (number_at _ _ _) as [[x_end|] x1] eqn:Ex; [|done]. destruct (at_pos _ _ _); [|done]. cbn [negb].
  destruct (number_at text (x_end + 4) y) as [[y_end|] y1] eqn:Ey; [|done]. destruct (char_at _ _ _); [|done].
  intros [= <- _ _]. apply number_at_after in Ex, Ey. lia.
Qed.
Lemma class_token_after text i label stop : class_token text i = Some (label, stop) → (i < stop)%nat.
Proof.
  unfold class_token. destruct (at_pos _ _ _); [|done]. cbn [negb]. destruct (find_char _ _ _) as [close|] eqn:E; [|done].
  apply find_char_lt in E. case_bool_decide; [done|]. intros [= _ <-]. lia.
Qed.
Lemma closing_triple_after fuel text at_ x y close stop label x' y' :
  closing_triple fuel text at_ x y = Some (close, stop, label, x', y') → (at_ < stop)%nat.
Proof.
  revert at_ x y. induction fuel as [|fuel IH]; intros at_ x y; cbn [closing_triple]; [done|].
  destruct (find _ _ _) as [i|] eqn:E; [|done]. apply find_lt in E.
  destruct (coord_token text i x y) as [[after x1] y1] eqn:Ec.
  destruct (after ≫= class_token text) as [[l e]|] eqn:El; [|intros ?%IH; lia].
  intros [= -> -> -> -> ->]. destruct after as [p|]; [|done]. cbn in El. apply coord_token_after in Ec. apply class_token_after in El. lia.
Qed.
(** With more fuel than the text is long, no fuel is left over for the search of
    a closing triple. *)
Lemma closing_triple_enough fuel text at_ x y :
  (length text - at_ < fuel)%nat → closing_triple fuel text at_ x y = closing_triple (S fuel) text at_ x y.
Proof.
  revert at_ x y. induction fuel as [|fuel IH]; intros at_ x y Hf; [lia|].
  cbn [closing_triple]. destruct (find _ _ _) as [i|] eqn:E; [|done]. apply find_lt in E.
  destruct (coord_token text i x y) as [[after x1] y1]. destruct (after ≫= class_token text) as [[l e]|]; [done|].
  rewrite IH by lia. done.
Qed.
Lemma region_step_decreases text s s' : region_step text s = inl s' → (length text - s'.1 < length text - s.1)%nat.
Proof.
  destruct s as [i regions]. cbn [region_step fst]. destruct (find _ _ _) as [open|] eqn:E; [|done]. apply find_lt in E.
  destruct (coord_token text open dzero dzero) as [[[body|] x1] y1] eqn:Ec; [|intros [= <-]; cbn; lia].
  destruct (closing_triple _ _ _ _ _) as [[[[[close stop] label] x2] y2]|] eqn:Et; [|done]. intros [= <-]. cbn.
  apply coord_token_after in Ec. apply closing_triple_after in Et. lia.
Qed.
Lemma coord_step_decreases text s s' : coord_step text s = inl s' → (length text - s'.1 < length text - s.1)%nat.
Proof.
  destruct s as [i coords]. cbn [coord_step fst]. destruct (find _ _ _) as [j|] eqn:E; [|done]. apply find_lt in E.
  destruct (coord_token text j dzero dzero) as [[[stop|] x] y] eqn:Ec; intros [= <-]; cbn; [|lia].
  apply coord_token_after in Ec. lia.
Qed.
Lemma block_step_decreases text s s' : block_step text s = inl s' → (length text - s'.1.1 < length text - s.1.1)%nat.
Proof.
  destruct s as [[from start] blocks]. cbn [block_step fst]. destruct (find _ _ _) as [i|] eqn:E; [|done]. apply find_lt in E.
  destruct (class_token text i) as [[label stop]|] eqn:Ec; intros [= <-]; cbn; [|lia].
  apply class_token_after in Ec. lia.
Qed.

(** * A printed page *)

(** A block as the models write it: its corners as decimals, its text and its
    class. *)
Record Printed := mk_Printed {
  pr_x1 : bytes; pr_y1 : bytes; pr_x2 : bytes; pr_y2 : bytes; pr_text : bytes; pr_label : bytes }.
Definition print_coord (x y : bytes) : bytes := lit "<x_" ++ x ++ lit "><y_" ++ y ++ lit ">".
Definition print_region (b : Printed) : bytes :=
  print_coord (pr_x1 b) (pr_y1 b) ++ pr_text b ++ print_coord (pr_x2 b) (pr_y2 b) ++ lit "<class_" ++ pr_label b ++ lit ">".
Definition print_page (bs : list Printed) : bytes := mjoin (print_region <$> bs).

(** Digits, and perhaps a period and more digits. *)
Definition decimal_ok (n : bytes) : bool :=
  let whole := span isdigit n in
  negb (bool_decide (whole = 0%nat)) &&
  match drop whole n with
  | [] => true
  | c :: fraction => (c =c "."%char) && negb (fraction =b []) && forallb isdigit fraction
  end.
(** Every '<' begins another tag than a coordinate or a class. *)
Definition other_tag (s : bytes) : bool :=
  match s with
  | [] => false
  | c :: s => negb (c =c "x"%char) && (negb (c =c "c"%char) || match s with [] => false | c :: _ => negb (c =c "l"%char) end)
  end.
Fixpoint plain_tags (s : bytes) : bool :=
  match s with
  | [] => true
  | c :: s => (negb (c =c "<"%char) || other_tag s) && plain_tags s
  end.
Definition printed_ok (b : Printed) : bool :=
  decimal_ok (pr_x1 b) && decimal_ok (pr_y1 b) && decimal_ok (pr_x2 b) && decimal_ok (pr_y2 b) &&
  plain_tags (pr_text b) && negb (pr_label b =b []) && negb (contains_char ">"%char (pr_label b)).
Definition decimal_value (n : bytes) : double :=
  match from_chars_double n with Some (value, _) => value | None => dzero end.
Definition printed_region (label text : bytes) (b : Printed) : Region :=
  mk_Region (decimal_value (pr_x1 b)) (decimal_value (pr_y1 b)) (decimal_value (pr_x2 b)) (decimal_value (pr_y2 b)) text label.
(** What version 2.0 and version 3.5 make of a block. *)
Definition v2_region (b : Printed) : Region := printed_region (region_label (pr_label b)) (pr_text b) b.
Definition v35_block (b : Printed) : Region := printed_region (pr_label b) (trim (remove_artifacts (pr_text b))) b.

Lemma skips_plain s : plain_tags s = true → skips (lit "<x_") s ∧ skips (lit "<class_") s.
Proof.
  induction s as [|c s IH]; intros Hs; [split; apply skips_nil|]. cbn in Hs. apply andb_true_iff in Hs as [Hc Hs].
  destruct (IH Hs) as [IHx IHc].
  split; intros rest [|k] Hk; cbn in Hk; [|by apply IHx; lia| |by apply IHc; lia]; cbn [lit drop app starts_with String.list_ascii_of_string];
    (destruct (Ascii.eqb "<" c) eqn:E; [|done]); apply Ascii.eqb_eq in E as <-; (destruct s as [|d s]; [done|]);
    cbn -[Ascii.eqb] in Hc |- *; apply andb_true_iff in Hc as [Hx Hc]; apply negb_true_iff, Ascii.eqb_neq in Hx.
  - by rewrite (proj2 (Ascii.eqb_neq _ _)) by congruence.
  - destruct (Ascii.eqb_spec "c" d) as [<-|]; [|done]. destruct s as [|e s]; [done|].
    cbn -[Ascii.eqb] in Hc |- *. apply negb_true_iff, Ascii.eqb_neq in Hc. by rewrite (proj2 (Ascii.eqb_neq _ _)) by congruence.
Qed.
Lemma at_pos_here text pre s rest : text = pre ++ s ++ rest → at_pos text (length pre) s = true.
Proof. intros ->. unfold at_pos. rewrite drop_app_length. apply starts_with_app. by exists rest. Qed.
Lemma char_at_here text pre c rest p : text = pre ++ c :: rest → char_at text (length pre) p = p c.
Proof. intros ->. unfold char_at. by rewrite list_lookup_middle. Qed.

Lemma span_app p s c rest : p c = false → span p (s ++ c :: rest) = span p s.
Proof. intros Hc. induction s as [|d s IH]; cbn; [by rewrite Hc|]. destruct (p d); [by rewrite IH|done]. Qed.
Lemma span_all p s : forallb p s = true → span p s = length s.
Proof. induction s as [|c s IH]; cbn; [done|]. intros [-> H]%andb_true_iff. by rewrite IH. Qed.

(** A decimal and what follows it. *)
Lemma decimal_cases n :
  decimal_ok n = true →
  ∃ whole, forallb isdigit whole = true ∧ whole ≠ [] ∧
    (n = whole ∨ ∃ fraction, n = whole ++ "."%char :: fraction ∧ fraction ≠ [] ∧ forallb isdigit fraction = true).
Proof.
  unfold decimal_ok. intros [Hw Hd]%andb_true_iff. apply negb_true_iff, bool_decide_eq_false in Hw.
  assert (Ht : forallb isdigit (take (span isdigit n) n) = true).
  { clear. induction n as [|c n IH]; cbn; [done|]. destruct (isdigit c) eqn:E; cbn; [by rewrite E, IH|done]. }
  exists (take (span isdigit n) n). split; [done|]. split.
  { intros E. apply Hw. apply (f_equal length) in E. rewrite length_take in E. pose proof (span_le isdigit n). cbn in E. lia. }
  destruct (drop (span isdigit n) n) as [|c fraction] eqn:E.
  - left. rewrite <- (take_drop (span isdigit n) n) at 1. by rewrite E, app_nil_r.
  - right. apply andb_true_iff in Hd as [Hd Hf]. apply andb_true_iff in Hd as [Hc Hn]. apply Ascii.eqb_eq in Hc as ->.
    exists fraction. split_and!; [by rewrite <- E, take_drop| |done].
    intros ->. done.
Qed.
Lemma number_at_decimal text pre n c rest :
  text = pre ++ n ++ c :: rest → decimal_ok n = true → isdigit c = false → c ≠ "."%char →
  number_at text (length pre) dzero = (Some (length pre + length n)%nat, decimal_value n).
Proof.
  intros Ht Hn Hc Hdot. destruct (decimal_cases n Hn) as (whole & Hw & Hw0 & Hcases).
  assert (Hcut : substr text (length pre) (length n) = n) by (by apply (substr_cut _ pre _ (c :: rest))).
  assert (Hend : ∀ j, j = (length pre + length n)%nat → (Some j, match from_chars_double (substr text (length pre) (j - length pre)) with
      Some (value, _) => value | None => dzero end) = (Some (length pre + length n)%nat, decimal_value n)).
  { intros j ->. replace (length pre + length n - length pre)%nat with (length n) by lia. by rewrite Hcut. }
  assert (Hspan : span isdigit (drop (length pre) text) = length whole).
  { rewrite Ht, drop_app_length. destruct Hcases as [->|(fraction & -> & _)]; rewrite <- ?app_assoc; cbn [app];
      rewrite span_app by done; by apply span_all. }
  unfold number_at. cbv zeta. rewrite Hspan. rewrite bool_decide_eq_false_2 by (by destruct whole). apply Hend.
  destruct Hcases as [->|(fraction & -> & Hf0 & Hf)].
  - rewrite app_assoc in Ht. rewrite <- length_app. rewrite (char_at_here _ _ _ _ _ Ht).
    by rewrite (proj2 (Ascii.eqb_neq _ _)).
  - assert (Ht1 : text = (pre ++ whole) ++ "."%char :: fraction ++ c :: rest) by (by rewrite Ht, <- !app_assoc).
    assert (Ht2 : text = (pre ++ whole ++ lit ".") ++ fraction ++ c :: rest) by (by rewrite Ht, <- !app_assoc).
    assert (Hl : S (length pre + length whole) = length (pre ++ whole ++ lit ".")) by (rewrite !length_app; cbn; lia).
    rewrite Hl, <- length_app, (char_at_here _ _ _ _ _ Ht1). cbn [Ascii.eqb andb].
    rewrite Ht2 at 2. rewrite drop_app_length, span_app by done. rewrite (span_all _ _ Hf).
    destruct fraction as [|d fraction]; [done|]. rewrite (char_at_here _ _ _ _ _ Ht2).
    cbn in Hf. apply andb_true_iff in Hf as [-> _]. cbn. rewrite !length_app. cbn. lia.
Qed.
Lemma coord_token_print text pre x y rest :
  text = pre ++ print_coord x y ++ rest → decimal_ok x = true → decimal_ok y = true →
  coord_token text (length pre) dzero dzero =
    (Some (length (pre ++ print_coord x y)), decimal_value x, decimal_value y).
Proof.
  intros Ht Hx Hy. unfold print_coord in *. unfold coord_token.
  assert (Ht1 : text = (pre ++ lit "<x_") ++ x ++ ">"%char :: lit "<y_" ++ y ++ ">"%char :: rest) by (by rewrite Ht, <- !app_assoc).
  assert (Ht2 : text = (pre ++ lit "<x_" ++ x ++ lit "><y_") ++ y ++ ">"%char :: rest) by (by rewrite Ht, <- !app_assoc).
  rewrite (at_pos_here text pre (lit "<x_") (x ++ lit "><y_" ++ y ++ lit ">" ++ rest)) by (by rewrite Ht, <- !app_assoc).
  cbn [negb]. replace (length pre + 3)%nat with (length (pre ++ lit "<x_")) by (by rewrite length_app).
  rewrite (number_at_decimal _ _ _ _ _ Ht1) by done.
  rewrite <- length_app. rewrite (at_pos_here text _ (lit "><y_") (y ++ lit ">" ++ rest)) by (by rewrite Ht, <- !app_assoc).
  cbn [negb]. replace (length ((pre ++ lit "<x_") ++ x) + 4)%nat with (length (pre ++ lit "<x_" ++ x ++ lit "><y_"))
    by (rewrite !length_app; cbn; lia).
  rewrite (number_at_decimal _ _ _ _ _ Ht2) by done.
  rewrite app_assoc in Ht2. rewrite <- length_app, (char_at_here _ _ _ _ _ Ht2). cbn [Ascii.eqb].
  do 3 f_equal. rewrite !length_app. cbn. lia.
Qed.

Lemma class_token_print text pre label rest :
  text = pre ++ lit "<class_" ++ label ++ lit ">" ++ rest → label ≠ [] → ">"%char ∉ label →
  class_token text (length pre) = Some (label, length (pre ++ lit "<class_" ++ label ++ lit ">")).
Proof.
  intros Ht Hl Hg. unfold class_token. rewrite (at_pos_here text pre (lit "<class_") _ Ht). cbn [negb].
  replace (length pre + 7)%nat with (length (pre ++ lit "<class_")) by (by rewrite length_app).
  assert (Hc : find_char ">"%char text (length (pre ++ lit "<class_")) = Some (length (pre ++ lit "<class_") + length label)%nat).
  { apply (find_if_hit _ _ _ label (lit ">" ++ rest)); [by rewrite Ht, <- !app_assoc|done| |done|done].
    intros k Hk. by apply head_is_other. }
  rewrite Hc. rewrite bool_decide_eq_false_2 by (destruct label; [done|cbn; lia]).
  do 2 f_equal; [|rewrite !length_app; cbn; lia].
  apply (substr_cut _ (pre ++ lit "<class_") _ (lit ">" ++ rest)); [by rewrite Ht, <- !app_assoc|done|].
  rewrite !length_app. cbn. lia.
Qed.

Lemma printed_parts b :
  printed_ok b = true →
  decimal_ok (pr_x1 b) = true ∧ decimal_ok (pr_y1 b) = true ∧ decimal_ok (pr_x2 b) = true ∧ decimal_ok (pr_y2 b) = true ∧
  plain_tags (pr_text b) = true ∧ pr_label b ≠ [] ∧ (">"%char ∉ pr_label b).
Proof.
  unfold printed_ok. rewrite !andb_true_iff, !negb_true_iff. intros ((((((? & ?) & ?) & ?) & ?) & Hl) & ?).
  split_and!; [done..| |by apply not_contains]. intros E. by rewrite E in Hl.
Qed.

(** The regions of version 2.0. *)
Lemma region_step_print text pre b rest regions :
  text = pre ++ print_region b ++ rest → printed_ok b = true →
  region_step text (length pre, regions) = inl (length (pre ++ print_region b), regions ++ [v2_region b]).
Proof.
  intros Ht Hb. destruct (printed_parts b Hb) as (Hx1 & Hy1 & Hx2 & Hy2 & Htext & Hl & Hg).
  unfold region_step. unfold print_region in *.
  set (open := print_coord (pr_x1 b) (pr_y1 b)) in *. set (close := print_coord (pr_x2 b) (pr_y2 b)) in *.
  set (tail := lit "<class_" ++ pr_label b ++ lit ">") in *.
  assert (Hx : ∀ x y, print_coord x y = lit "<x_" ++ x ++ lit "><y_" ++ y ++ lit ">") by done.
  assert (Ht1 : text = pre ++ [] ++ lit "<x_" ++ pr_x1 b ++ lit "><y_" ++ pr_y1 b ++ lit ">" ++ pr_text b ++ close ++ tail ++ rest)
    by (rewrite Ht; unfold open; rewrite Hx, <- !app_assoc; done).
  rewrite (find_after _ _ _ _ _ Ht1) by (done || apply skips_nil). cbn [length]. rewrite Nat.add_0_r.
  rewrite (coord_token_print text pre _ _ (pr_text b ++ close ++ tail ++ rest)) by (try done; by rewrite Ht, <- !app_assoc).
  assert (Ht2 : text = (pre ++ open) ++ pr_text b ++ lit "<x_" ++ pr_x2 b ++ lit "><y_" ++ pr_y2 b ++ lit ">" ++ tail ++ rest)
    by (rewrite Ht; unfold close; rewrite Hx, <- !app_assoc; done).
  cbn [closing_triple]. fold open. rewrite (find_after _ _ _ _ _ Ht2) by (try done; by apply skips_plain).
  rewrite <- length_app.
  rewrite (coord_token_print text ((pre ++ open) ++ pr_text b) _ _ (tail ++ rest)) by (try done; by rewrite Ht, <- !app_assoc).
  fold close. cbn [mbind option_bind].
  rewrite (class_token_print text (((pre ++ open) ++ pr_text b) ++ close) (pr_label b) rest)
    by (try done; rewrite Ht; unfold tail; by rewrite <- !app_assoc).
  do 2 f_equal; [by rewrite <- !app_assoc|]. do 2 f_equal. unfold v2_region, printed_region. f_equal.
  apply (substr_cut _ (pre ++ open) _ (close ++ tail ++ rest)); [by rewrite Ht, <- !app_assoc|done|].
  rewrite !length_app. lia.
Qed.
Lemma nemotron_v2_regions_print bs :
  Forall (λ b, printed_ok b = true) bs → nemotron_v2_regions (print_page bs) = v2_region <$> bs.
Proof.
  intros Hbs. unfold nemotron_v2_regions. set (text := print_page bs).
  enough (∀ bs pre regions fuel, Forall (λ b, printed_ok b = true) bs → text = pre ++ print_page bs →
    (length text - length pre < fuel)%nat →
    run_loop [] fuel (region_step text) (length pre, regions) = regions ++ (v2_region <$> bs)) as Hall
    by (rewrite (Hall bs [] [] _); [done|done|done|cbn; lia]).
  clearbody text. clear bs Hbs. intros bs. induction bs as [|b bs IH]; intros pre regions fuel Hbs Ht Hf;
    rewrite (run_loop_unfold (λ s, length text - s.1)%nat) by (try done; apply region_step_decreases).
  - cbn [region_step]. rewrite (find_none _ pre []); [by rewrite app_nil_r|done|apply skips_nil].
  - apply Forall_cons in Hbs as [Hb Hbs]. unfold print_page in Ht. cbn [fmap list_fmap mjoin list_join] in Ht.
    rewrite (region_step_print _ _ _ _ _ Ht Hb).
    rewrite IH; [by rewrite <- app_assoc|done|by rewrite Ht, <- !app_assoc|cbn; lia].
Qed.

(** The blocks of version 3.5. *)
Lemma segment_coords_print x1 y1 text x2 y2 :
  decimal_ok x1 = true → decimal_ok y1 = true → decimal_ok x2 = true → decimal_ok y2 = true → plain_tags text = true →
  let open := print_coord x1 y1 in
  segment_coords (open ++ text ++ print_coord x2 y2) =
    [mk_Coord 0 (length open) (decimal_value x1) (decimal_value y1);
     mk_Coord (length (open ++ text)) (length (open ++ text ++ print_coord x2 y2)) (decimal_value x2) (decimal_value y2)].
Proof.
  intros Hx1 Hy1 Hx2 Hy2 Ht open. unfold segment_coords. set (close := print_coord x2 y2). set (segment := open ++ text ++ close).
  assert (Hx : ∀ x y, print_coord x y = lit "<x_" ++ x ++ lit "><y_" ++ y ++ lit ">") by done.
  assert (Hf : (0 < length segment)%nat) by (unfold segment, open, print_coord; cbn; lia).
  rewrite (run_loop_unfold (λ s, length segment - s.1)%nat) by (try apply coord_step_decreases; cbn; lia).
  unfold coord_step at 1.
  change (find (lit "<x_") segment 0) with (find (lit "<x_") segment (length (@nil ascii))).
  rewrite (find_after (lit "<x_") [] [] (x1 ++ lit "><y_" ++ y1 ++ lit ">" ++ text ++ close) segment)
    by (discriminate || apply skips_nil || (unfold segment, open; by rewrite Hx, <- !app_assoc)).
  cbn [length Nat.add]. 
  pose proof (coord_token_print segment [] x1 y1 (text ++ close) eq_refl Hx1 Hy1) as Hopen. cbn [length app] in Hopen.
  rewrite Hopen. fold open. cbn [app].
  rewrite (run_loop_unfold (λ s, length segment - s.1)%nat) by (try apply coord_step_decreases; cbn; lia).
  unfold coord_step at 1.
  rewrite (find_after (lit "<x_") open text (x2 ++ lit "><y_" ++ y2 ++ lit ">") segment)
    by (done || by apply skips_plain).
  rewrite <- length_app, (coord_token_print segment (open ++ text) x2 y2 []) by (try done; by rewrite app_nil_r, <- app_assoc).
  rewrite (run_loop_unfold (λ s, length segment - s.1)%nat) by (try apply coord_step_decreases; cbn; lia).
  unfold coord_step at 1. fold close. rewrite (find_none _ ((open ++ text) ++ close) []);
    [by rewrite <- !app_assoc|by rewrite app_nil_r, <- app_assoc|apply skips_nil].
Qed.
Lemma segment_block_print b :
  printed_ok b = true →
  segment_block (print_coord (pr_x1 b) (pr_y1 b) ++ pr_text b ++ print_coord (pr_x2 b) (pr_y2 b)) (pr_label b) = Some (v35_block b).
Proof.
  intros Hb. destruct (printed_parts b Hb) as (Hx1 & Hy1 & Hx2 & Hy2 & Htext & Hl & Hg).
  unfold segment_block. rewrite segment_coords_print by done. cbn [last mbind option_bind co_x co_y co_end between co_begin].
  unfold v35_block, printed_region. do 4 f_equal.
  apply (substr_cut _ (print_coord (pr_x1 b) (pr_y1 b)) _ (print_coord (pr_x2 b) (pr_y2 b))); [done..|].
  rewrite length_app. lia.
Qed.
(** No class token begins within a coordinate pair. *)
Lemma skips_coord x y : ("<"%char ∉ x) → ("<"%char ∉ y) → skips (lit "<class_") (print_coord x y).
Proof.
  intros Hx Hy. unfold print_coord. repeat apply skips_app; try (by apply skips_free).
  1,2: intros rest k Hk; cbn in Hk; do 4 (destruct k as [|k]; [done || lia|]); lia.
  apply skips_free. by apply not_contains.
Qed.
Lemma decimal_no_tag n : decimal_ok n = true → "<"%char ∉ n.
Proof.
  intros Hn. assert (Hd : ∀ s, forallb isdigit s = true → "<"%char ∉ s).
  { intros s Hs Hin. apply list_elem_of_In in Hin. rewrite forallb_forall in Hs. by apply Hs in Hin. }
  destruct (decimal_cases n Hn) as (whole & Hw & _ & [->|(fraction & -> & _ & Hf)]); [by apply Hd|].
  rewrite not_elem_of_app, not_elem_of_cons. split_and!; [by apply Hd|done|by apply Hd].
Qed.
Lemma block_step_print text pre b rest blocks :
  text = pre ++ print_region b ++ rest → printed_ok b = true →
  block_step text (length pre, length pre, blocks) =
    inl (length (pre ++ print_region b), length (pre ++ print_region b), add_block blocks (v35_block b)).
Proof.
  intros Ht Hb. destruct (printed_parts b Hb) as (Hx1 & Hy1 & Hx2 & Hy2 & Htext & Hl & Hg).
  unfold block_step. unfold print_region in *.
  set (segment := print_coord (pr_x1 b) (pr_y1 b) ++ pr_text b ++ print_coord (pr_x2 b) (pr_y2 b)).
  assert (Ht1 : text = pre ++ segment ++ lit "<class_" ++ pr_label b ++ lit ">" ++ rest)
    by (rewrite Ht; unfold segment; by rewrite <- !app_assoc).
  rewrite (find_after _ _ _ _ _ Ht1); [|done|].
  2: { unfold segment. apply skips_app; [|apply skips_app; [by apply skips_plain|]]; apply skips_coord; by apply decimal_no_tag. }
  rewrite <- length_app. rewrite (class_token_print text (pre ++ segment) (pr_label b) rest) by (try done; by rewrite Ht1, <- !app_assoc).
  assert (Hl1 : length ((pre ++ segment) ++ lit "<class_" ++ pr_label b ++ lit ">") =
    length (pre ++ print_coord (pr_x1 b) (pr_y1 b) ++ pr_text b ++ print_coord (pr_x2 b) (pr_y2 b) ++ lit "<class_" ++ pr_label b ++ lit ">"))
    by (unfold segment; by rewrite <- !app_assoc).
  rewrite Hl1. rewrite (substr_cut text pre segment (lit "<class_" ++ pr_label b ++ lit ">" ++ rest));
    [|done|done|rewrite length_app; lia].
  unfold segment. by rewrite segment_block_print.
Qed.
Lemma nemotron_v35_blocks_print bs :
  Forall (λ b, printed_ok b = true) bs → nemotron_v35_blocks (print_page bs) = foldl add_block [] (v35_block <$> bs).
Proof.
  intros Hbs. unfold nemotron_v35_blocks. set (text := print_page bs).
  enough (∀ bs pre blocks fuel, Forall (λ b, printed_ok b = true) bs → text = pre ++ print_page bs →
    (length text - length pre < fuel)%nat →
    run_loop [] fuel (block_step text) (length pre, length pre, blocks) = foldl add_block blocks (v35_block <$> bs)) as Hall
    by (rewrite (Hall bs [] [] _); [done|done|done|cbn; lia]).
  clearbody text. clear bs Hbs. intros bs. induction bs as [|b bs IH]; intros pre blocks fuel Hbs Ht Hf;
    rewrite (run_loop_unfold (λ s, length text - s.1.1)%nat) by (try done; apply block_step_decreases).
  - unfold block_step. rewrite (find_none _ pre []); [done|done|apply skips_nil].
  - apply Forall_cons in Hbs as [Hb Hbs]. unfold print_page in Ht. cbn [fmap list_fmap mjoin list_join] in Ht.
    rewrite (block_step_print _ _ _ _ _ Ht Hb).
    rewrite IH; [done|done|by rewrite Ht, <- !app_assoc|cbn; lia].
Qed.

(** C24: A page of blocks written as the models write them (two corners of
    decimals, text in which no coordinate or class token begins, a class name), however many, is read back by
    both versions: the regions of version 2.0 are the blocks in order, with the
    values of the corners and the text untouched; the blocks of version 3.5 are
    the same ones with the text cleaned, a repeated one dropped. *)
Theorem nemotron_page_read bs :
  Forall (λ b, printed_ok b = true) bs →
  nemotron_v2_regions (print_page bs) = v2_region <$> bs ∧
  nemotron_v35_blocks (print_page bs) = foldl add_block [] (v35_block <$> bs).
Proof. intros Hbs. split; [by apply nemotron_v2_regions_print|by apply nemotron_v35_blocks_print]. Qed.
Lemma nemotron_page_read_witness :
  let bs : list Printed := [mk_Printed (lit "0.25") (lit "0.5") (lit "1") (lit "0.75") (lit " x & \<|unk|\> y") (lit "Text")] in
  nemotron_v2_regions (print_page bs) = v2_region <$> bs ∧
  nemotron_v35_blocks (print_page bs) = foldl add_block [] (v35_block <$> bs).
Proof. intros bs. apply (nemotron_page_read bs). repeat apply Forall_cons_2; [vm_compute; reflexivity|by apply Forall_nil_2]. Defined.

(** ** Small inputs *)

Definition td (attributes : bytes) (rows cols : string) (content : bytes) : bytes :=
  lit "<" ++ attributes ++ lit " rowspan=" ++ c_quote :: lit rows ++ c_quote :: lit " colspan=" ++ c_quote :: lit cols ++
  c_quote :: lit ">" ++ content.
Example latex_small :
  latex_tabular_to_html (lit "\begin{tabular}{ll} \thead{a} & b<c \\ \multicolumn{2}{c}{x \& *y} \\ \end{tabular}") =
  Some (lit "<table><tr>" ++ td (lit "th scope=" ++ c_quote :: lit "col" ++ [c_quote]) "1" "1" (lit "a</th>") ++
    td (lit "td") "1" "1" (lit "b&lt;c</td>") ++ lit "</tr><tr>" ++ td (lit "td") "1" "2" (lit "x &amp; *y</td>") ++
    lit "</tr></table>").
Proof. vm_compute. reflexivity. Qed.
(** In a cell with emphasis the ampersand is escaped once more. *)
Example latex_ampersand_twice :
  latex_tabular_to_html (lit "x \& *y*") =
  Some (lit "<table><tr>" ++ td (lit "td") "1" "1" (lit "<p>x &amp;amp; <em>y</em></p></td>") ++ lit "</tr></table>").
Proof. vm_compute. reflexivity. Qed.
Example regions_small :
  (λ r, (rg_text r, rg_label r)) <$>
    nemotron_v2_regions (lit "<x_0.1><y_0.2>a <x_ b<x_0.3><y_0.4><class_Text><x_0><y_1>c<x_1><y_1><class_Inline-formula>") =
  [(lit "a <x_ b", lit "Text"); (lit "c", lit "Formula")].
Proof. vm_compute. reflexivity. Qed.
Example blocks_small :
  (λ r, (rg_text r, rg_label r)) <$>
    nemotron_v35_blocks (lit "<x_0.1><y_0.2>a <tbc><x_0.3><y_0.4>b<x_0.5><y_0.6><class_Text><x_0.1><y_0.2>a b<x_0.5><y_0.6><class_Text>") =
  [(lit "a b", lit "Text")].
Proof. vm_compute. reflexivity. Qed.
Example list_marker_small :
  list_marker (lit " (iv) x") = Some (lit "(iv)", true, 6%nat) ∧ list_marker (lit "\(\bullet\) y") = Some (lit "\(\bullet\)", false, 12%nat) ∧
  list_marker (lit "a word") = None.
Proof. vm_compute. done. Qed.
