(* ===== verification/Nemotron.v ===== *)
(** The Nemotron Parse mappers (the second half of src/mapping/nemotron.cpp):
    version 2.0, whose boxes lie on a padded canvas, and version 3.5, whose texts
    may hold LaTeX tables, charts, lists and inline markup.  What is proved: every
    page is mapped, every block adds an item at least, a box of version 2.0 lies
    on the page. *)
From S2P Require Import Prelude Numbers Double Json Proto ImageCrop Builder OtslGrid Tree.
From S2P Require Import MarkupTree LayoutText Layout LayoutGrows MarkdownInline Chandra Dots NemotronText.
From Stdlib Require Import SpecFloat.

(** * Version 2.0 *)

Section V2.
Context `{ProtobufSize} `{Stb}.
Variable page : PageContext.

Definition kCanvasW : double := of_Z 1664.
Definition kCanvasH : double := of_Z 2048.
Definition clamp_to (hi v : double) : double := dmax dzero (dmin hi v).
(** The size the page was scaled down to, when it exceeds the canvas. *)
Definition resized_size : double * double :=
  let image_w := of_Z (page_width page) in
  let image_h := of_Z (page_height page) in
  let aspect := if dlt dzero image_h then ddiv image_w image_h else of_Z 1 in
  let '(resized_w, resized_h) :=
    if dlt kCanvasH image_h then (dtrunc (dmul kCanvasH aspect), kCanvasH) else (image_w, image_h) in
  if dlt kCanvasW resized_w then (kCanvasW, dtrunc (ddiv kCanvasW aspect)) else (resized_w, resized_h).
Definition nemotron_v2_box (region : Region) : BoundingBox :=
  let width := of_Z (page_width page) in
  let height := of_Z (page_height page) in
  let '(resized_w, resized_h) := resized_size in
  let pad_left := dfloor (ddiv (dmax dzero (dsub kCanvasW resized_w)) (of_Z 2)) in
  let pad_top := dfloor (ddiv (dmax dzero (dsub kCanvasH resized_h)) (of_Z 2)) in
  let sx := if dlt dzero resized_w then ddiv width resized_w else of_Z 1 in
  let sy := if dlt dzero resized_h then ddiv height resized_h else of_Z 1 in
  mk_BoundingBox
    (clamp_to width (dmul (dsub (dmul (rg_x1 region) kCanvasW) pad_left) sx))
    (clamp_to height (dmul (dsub (dmul (rg_y1 region) kCanvasH) pad_top) sy))
    (clamp_to width (dmul (dsub (dmul (rg_x2 region) kCanvasW) pad_left) sx))
    (clamp_to height (dmul (dsub (dmul (rg_y2 region) kCanvasH) pad_top) sy))
    COORD_ORIGIN_TOPLEFT.

(** A table's cells as plain text; the empty rows at the end are dropped. *)
Definition plain_cell (cell : SpanCell) : SpanCell :=
  mk_SpanCell (sp_row cell) (sp_col cell) (sp_row_span cell) (sp_col_span cell)
    (markdown_to_text (collapse_whitespace (default [] (html_text <$> sp_node cell))))
    (bool_decide (sp_row cell = 0%nat)) false None.
Definition has_text (cell : SpanCell) : bool := negb (trim (sp_text cell) =b []).
Definition last_text_row (cells : list SpanCell) : nat :=
  foldl (λ last_row cell, Nat.max last_row (sp_row cell + sp_row_span cell - 1)) 0%nat (filter (λ cell, has_text cell = true) cells).
Definition nemotron_v2_table_cells (latex : bytes) : list SpanCell :=
  match latex_tabular_to_html latex with
  | None => []
  | Some html =>
      match find_element (lit "table") (parse_markup html kHtml) with
      | None => []
      | Some table =>
          let cells := plain_cell <$> chandra_table_cells table in
          if negb (existsb has_text cells) then []
          else filter (λ cell, sp_row cell ≤ last_text_row cells)%nat cells
      end
  end.

Definition nemotron_text_label (label : bytes) : DocItemLabel :=
  if label =b lit "Text" then DOC_ITEM_LABEL_TEXT
  else if label =b lit "Caption" then DOC_ITEM_LABEL_CAPTION
  else if label =b lit "Footnote" then DOC_ITEM_LABEL_FOOTNOTE
  else if label =b lit "Page-header" then DOC_ITEM_LABEL_PAGE_HEADER
  else if label =b lit "Page-footer" then DOC_ITEM_LABEL_PAGE_FOOTER
  else if label =b lit "Bibliography" then DOC_ITEM_LABEL_REFERENCE
  else if label =b lit "Formula" then DOC_ITEM_LABEL_FORMULA
  else DOC_ITEM_LABEL_TEXT.

(** The lines of the first Markdown table. *)
Definition is_pipe_line (line : bytes) : bool := starts_with (lit "|") line.
Fixpoint first_table (lines : list bytes) (found : bool) : list bytes :=
  match lines with
  | [] => []
  | line :: lines =>
      let stripped := trim line in
      if is_pipe_line stripped then stripped :: first_table lines true
      else if found then [] else first_table lines false
  end.

(** A region that becomes a text item. *)
Definition v2_text (label raw : bytes) (box : BoundingBox) (w : LayoutWriter) : BodyChild * LayoutWriter :=
  if label =b lit "Title" then title page (Some box) (markdown_to_text raw) None w
  else if label =b lit "Section-header" then heading page (markdown_heading_level raw 2) (Some box) (markdown_to_text raw) None w
  else
    match nemotron_text_label label with
    | DOC_ITEM_LABEL_FORMULA => formula page (Some box) (strip_math_delimiters raw) None w
    | item_label => styled_text page item_label (Some box) (markdown_to_text raw) None [] None w
    end.
(** One region: the open list and the writer. *)
Definition v2_step (s : option BodyChild * LayoutWriter) (region : Region) : option BodyChild * LayoutWriter :=
  let '(open_list, w) := s in
  let box := nemotron_v2_box region in
  let raw := trim (remove_artifacts (rg_text region)) in
  let label := rg_label region in
  if label =b lit "List-item" then
    let '(group, w) := open_or_new open_list w in
    let '(item, w) := list_item page (Some box) (markdown_to_text raw) false [] (Some group) w in
    (Some group, set_orig item raw w)
  else if label =b lit "Picture" then (None, (picture page (Some box) None w).2)
  else if label =b lit "Table" then (None, (table page (Some box) (nemotron_v2_table_cells raw) None w).2)
  else if label =b lit "Chart" then
    let '(item, w) := picture page (Some box) None w in
    (None, set_tabular_chart item [] (markdown_table_rows (first_table (split_lines raw) false)) [] w)
  else
    let '(item, w) := v2_text label raw box w in (None, set_orig item raw w).
Definition map_nemotron_parse_v2 (text : bytes) (out : Document) (warnings : Warnings) : MapResult :=
  finish page (lit "Nemotron Parse") true
    (foldl v2_step (None, LayoutWriter_new page out warnings) (nemotron_v2_regions text)).2.
End V2.

(** * Charts *)

(** The type attribute of a chart tag at a position and the end of the tag. *)
Definition chart_tag (text : bytes) (at_ : nat) : option (bytes * nat) :=
  let spaces := (at_ + 6)%nat in
  let i := (spaces + span isspace (drop spaces text))%nat in
  if bool_decide (i = spaces) || negb (at_pos text i (lit "type=" ++ [c_quote])) then None else
  let value := (i + 6)%nat in
  match find_char c_quote text value with
  | None => None
  | Some quote =>
      let j := (S quote + span isspace (drop (S quote) text))%nat in
      if negb (char_at text j (Ascii.eqb ">"%char)) then None
      else Some (substr text value (quote - value), S j)
  end.
Definition chart_tag_step (text : bytes) (from : nat) : nat + (bytes * bytes) :=
  match find (lit "<chart") text from with
  | None => inr (lit "other", text)
  | Some at_ =>
      match chart_tag text at_ with
      | Some (type, stop) => inr (type, substr_from text stop)
      | None => inl (S at_)
      end
  end.
(** The chart's type and its body. *)
Definition chart_body (text : bytes) : bytes * bytes :=
  let '(type, body) := run_loop (lit "other", text) (S (length text)) (chart_tag_step text) 0%nat in
  (type, match find (lit "</chart>") body 0 with Some close => take close body | None => body end).

Record Panel := mk_Panel { pn_id : bytes; pn_type : bytes; pn_label : bytes }.
Record Chart := mk_Chart {
  ch_title : bytes; ch_panels : list Panel; ch_tables : gmap bytes (list bytes); ch_table_order : list bytes; ch_key : bytes }.
(** A panel's fields, cut at the first [n] semicolons. *)
Fixpoint panel_parts (n : nat) (value : bytes) (start : nat) : list bytes :=
  match n with
  | O => [trim (substr_from value start)]
  | S n =>
      match find_char ";"%char value start with
      | None => [trim (substr_from value start)]
      | Some semi => trim (substr value start (semi - start)) :: panel_parts n value (S semi)
      end
  end.
Definition panel_of (value : bytes) : option Panel :=
  match panel_parts 2 value 0 with
  | [id; type] => Some (mk_Panel id type [])
  | [id; type; label] => Some (mk_Panel id type label)
  | _ => None
  end.
(** The key of "table[key]". *)
Definition table_key (name : bytes) : option bytes :=
  let key := substr name 6 (length name - 7) in
  if starts_with (lit "table[") name && ends_with (lit "]") name && bool_decide (7 < length name)%nat &&
     forallb (λ c, isalnum c || (c =c "_"%char)) key then Some key else None.
Definition table_at (key : bytes) (tables : gmap bytes (list bytes)) : list bytes := default [] (tables !! key).
(** One line of a chart. *)
Definition chart_line (s : Chart) (line : bytes) : Chart :=
  let '(mk_Chart chart_title panels tables order key) := s in
  let stripped := trim line in
  if is_pipe_line stripped then
    mk_Chart chart_title panels (<[key := table_at key tables ++ [stripped]]> tables)
      (if bool_decide (is_Some (tables !! key)) then order else order ++ [key]) key
  else
    match find_char ":"%char stripped 0 with
    | None => s
    | Some colon =>
        let name := take colon stripped in
        let value := substr_from stripped (S colon) in
        if name =b lit "title" then mk_Chart (trim value) panels tables order key
        else if name =b lit "panel" then
          mk_Chart chart_title (panels ++ match panel_of value with Some panel => [panel] | None => [] end) tables order key
        else
          match table_key name with
          | Some key => mk_Chart chart_title panels tables order key
          | None => s
          end
    end.
Definition parse_chart (body : bytes) : Chart := foldl chart_line (mk_Chart [] [] ∅ [[]] []) (split_lines body).
(** The panels that have a table. *)
Definition panel_rows (chart : Chart) (panel : Panel) : option (list bytes) :=
  if pn_id panel =b [] then None else
  match table_at (pn_id panel) (ch_tables chart) with [] => None | rows => Some rows end.
(** The rows of a chart without panels: the untitled table, or the first with
    rows. *)
Definition chart_rows (chart : Chart) : list bytes :=
  default [] (list_find (λ rows, rows ≠ []) ((λ key, table_at key (ch_tables chart)) <$> [] :: ch_table_order chart) ≫= λ p, Some p.2).

(** * Version 3.5 *)

Section V35.
Context `{ProtobufSize} `{Stb}.
Variable page : PageContext.

Definition is_furniture (label : DocItemLabel) : bool :=
  bool_decide (label = DOC_ITEM_LABEL_PAGE_HEADER ∨ label = DOC_ITEM_LABEL_PAGE_FOOTER).
(** The items of a kind added since there were [before]. *)
Definition furnish (kind : Kind) (before after : nat) (w : LayoutWriter) : LayoutWriter :=
  set_layers CONTENT_LAYER_FURNITURE kind before after w.
Definition rich_text (text : bytes) (label : DocItemLabel) (box : option BoundingBox) (parent : option BodyChild)
    (w : LayoutWriter) : option LayoutWriter :=
  let texts_before := texts_size (lw_out w) in
  let groups_before := groups_size (lw_out w) in
  w ← inline_or_plain page text label box parent w;
  Some (if is_furniture label then
          let w := furnish TEXT texts_before (texts_size (lw_out w)) w in
          furnish GROUP groups_before (groups_size (lw_out w)) w
        else w).
Definition latex_table (latex : bytes) (box : BoundingBox) (parent : Parent) (w : LayoutWriter) : option LayoutWriter :=
  match latex_tabular_to_html latex with
  | None => Some (table page (Some box) [] parent w).2
  | Some html => table_or_empty page html box parent w
  end.

Definition chart_picture (box : BoundingBox) (type chart_title : bytes) (rows : list bytes) (w : LayoutWriter) : LayoutWriter :=
  let '(item, w) := picture page (Some box) None w in
  set_tabular_chart item chart_title (markdown_table_rows rows) [] (classify_picture item (chart_label type) [] w).
Definition chart_panel (box : BoundingBox) (chart : Chart) (w : LayoutWriter) (panel : Panel) : LayoutWriter :=
  match panel_rows chart panel with
  | Some rows => chart_picture box (pn_type panel) (pn_label panel) rows w
  | None => w
  end.
Definition chart (text : bytes) (box : BoundingBox) (w : LayoutWriter) : LayoutWriter :=
  let '(type, body) := chart_body text in
  let parsed := parse_chart body in
  if existsb (λ panel, match panel_rows parsed panel with Some _ => true | None => false end) (ch_panels parsed)
  then foldl (chart_panel box parsed) w (ch_panels parsed)
  else chart_picture box type (ch_title parsed) (chart_rows parsed) w.

(** The open list and table of contents, and what the caption pass looks at. *)
Record Nemotron := mk_Nemotron {
  nm_writer : LayoutWriter;
  nm_list : option BodyChild;
  nm_toc : option BodyChild;
  nm_starts : list nat;
  nm_captions : list nat }.

Definition unit_range (v : double) : double := dmin (of_Z 1) (dmax dzero v).
Definition v35_box (block : Region) : BoundingBox :=
  let x1 := unit_range (rg_x1 block) in
  let y1 := unit_range (rg_y1 block) in
  let x2 := unit_range (rg_x2 block) in
  let y2 := unit_range (rg_y2 block) in
  scaled_box page (dmin x1 x2) (dmin y1 y2) (dmax x1 x2) (dmax y1 y2) (of_Z (page_width page)) (of_Z (page_height page)).
Definition v35_text_label (label : bytes) : DocItemLabel :=
  if label =b lit "Caption" then DOC_ITEM_LABEL_CAPTION
  else if label =b lit "Footnote" then DOC_ITEM_LABEL_FOOTNOTE
  else if label =b lit "Bibliography" then DOC_ITEM_LABEL_REFERENCE
  else if label =b lit "Page-header" then DOC_ITEM_LABEL_PAGE_HEADER
  else if label =b lit "Page-footer" then DOC_ITEM_LABEL_PAGE_FOOTER
  else DOC_ITEM_LABEL_TEXT.
Definition v35_list_item (body : bytes) (box : BoundingBox) (open_list : option BodyChild) (w : LayoutWriter)
  : option (BodyChild * LayoutWriter) :=
  let '(group, w) := open_or_new open_list w in
  let '(marker, ordered, from) := default ([], false, 0%nat) (list_marker body) in
  let item_body := substr_from body from in
  let '(item, w) := list_item page (Some box) [] ordered marker (Some group) w in
  w ← fill_inline page item item_body (set_orig item body w);
  Some (group, w).
Definition v35_toc (body : bytes) (box : BoundingBox) (toc : option BodyChild) (w : LayoutWriter)
  : option (BodyChild * LayoutWriter) :=
  let '(toc, w) := match toc with Some toc => (toc, w) | None => group (lit "toc") GROUP_LABEL_UNSPECIFIED None w end in
  w ← (if absent (lit "\begin{tabular}") body then rich_text body DOC_ITEM_LABEL_TEXT (Some box) (Some toc) w
       else latex_table body box (Some toc) w);
  Some (toc, w).
Definition v35_picture (body : bytes) (box : BoundingBox) (w : LayoutWriter) : option LayoutWriter :=
  let '(item, w) := picture page (Some box) None w in
  if body =b [] then Some w else rich_text body DOC_ITEM_LABEL_TEXT None (Some item) w.
Definition v35_heading (is_title : bool) (body : bytes) (box : BoundingBox) (w : LayoutWriter) : option LayoutWriter :=
  let '(clean, level) := strip_markdown_heading body in
  let '(item, w) := if is_title then title page (Some box) [] None w
                    else heading page (if 0 <? level then level else 2) (Some box) [] None w in
  fill_inline page item clean (set_orig item body w).
(** A block that is neither a list item nor a table of contents. *)
Definition v35_item (label body : bytes) (box : BoundingBox) (w : LayoutWriter) : option LayoutWriter :=
  if label =b lit "Table" then latex_table body box None w
  else if label =b lit "Chart" then Some (chart body box w)
  else if label =b lit "Picture" then v35_picture body box w
  else if (label =b lit "Title") || (label =b lit "Section-header") then v35_heading (label =b lit "Title") body box w
  else if label =b lit "Formula" then
    let '(item, w) := formula page (Some box) (strip_math_delimiters body) None w in Some (set_orig item body w)
  else if label =b lit "Code" then Some (code page (Some box) body [] None w).2
  else rich_text body (v35_text_label label) (Some box) None w.
Definition v35_step (s : Nemotron) (entry : nat * Region) : option Nemotron :=
  let '(mk_Nemotron w open_list toc starts captions) := s in
  let '(index, block) := entry in
  let starts := starts ++ [body_size w] in
  let box := v35_box block in
  let body := rg_text block in
  let label := rg_label block in
  let captions := if label =b lit "Caption" then captions ++ [index] else captions in
  if label =b lit "List-item" then
    '(group, w) ← v35_list_item body box open_list w;
    Some (mk_Nemotron w (Some group) None starts captions)
  else if label =b lit "TOC" then
    '(toc, w) ← v35_toc body box toc w;
    Some (mk_Nemotron w None (Some toc) starts captions)
  else
    w ← v35_item label body box w;
    Some (mk_Nemotron w None None starts captions).
Definition v35_blocks (blocks : list Region) (w : LayoutWriter) : option Nemotron :=
  foldM v35_step (mk_Nemotron w None None [] []) (zip (seq 0 (length blocks)) blocks).
Definition map_nemotron_parse_v3_5 (text : bytes) (out : Document) (warnings : Warnings) : MapResult :=
  match v35_blocks (nemotron_v35_blocks text) (LayoutWriter_new page out warnings) with
  | Some s => finish page (lit "Nemotron Parse 3.5") true
                (link_adjacent_captions (nm_starts s) (nm_captions s) false (nm_writer s))
  | None => MapFailed []
  end.
End V35.

(** The search of a chart's tag ends. *)
Lemma chart_tag_step_decreases text from from' :
  chart_tag_step text from = inl from' → (length text - from' < length text - from)%nat.
Proof.
  unfold chart_tag_step. destruct (find _ _ _) as [at_|] eqn:E; [|done]. apply find_lt in E.
  destruct (chart_tag text at_) as [[type stop]|]; [done|]. intros [= <-]. lia.
Qed.

(** * Every page is mapped *)

Section Mapped.
Context `{ProtobufSize} `{Stb}.
Context (page : PageContext).
Abbreviation grows := (grows page).
Abbreviation adds := (adds page).
Abbreviation adds_grows := (adds_grows page).
Abbreviation adds_later := (adds_later page).

Lemma adds_call add w : adds w (run_add page add None w).2.
Proof. by apply (adds_add page add None w _ _ (ltac:(done) : valid_parent w None) (surjective_pairing _)). Qed.
(** An item added at the root and then changed. *)
Lemma adds_edited add edit w : adds w (run_edit (edit (run_add page add None w).1) (run_add page add None w).2).
Proof. eapply adds_grows; [apply adds_call|apply grows_edit]. Qed.

Lemma v2_step_adds s region :
  (∀ g, s.1 = Some g → valid_parent s.2 (Some g)) →
  let s' := v2_step page s region in adds s.2 s'.2 ∧ ∀ g, s'.1 = Some g → valid_parent s'.2 (Some g).
Proof.
  destruct s as [open_list w]. cbn [fst snd]. intros Hopen. unfold v2_step. cbv zeta.
  set (raw := trim (remove_artifacts (rg_text region))). set (box := nemotron_v2_box page region).
  destruct (_ =b lit "List-item").
  { pose proof (open_or_new_ok page open_list w Hopen) as Hg. destruct (open_or_new open_list w) as [g w1].
    destruct Hg as [Hg Hv]. destruct (list_item _ _ _ _ _ _ _) as [item w2] eqn:E.
    apply (adds_add page (AddListItem _ _ _ _)) in E as [Ha Hv2]; [|done]. cbn [fst snd].
    pose proof (grows_edit page (SetOrig item raw) w2) as Hg3. split.
    - eapply adds_later; [apply Hg|]. by eapply adds_grows.
    - intros g' [= <-]. eapply grows_valid; [apply Hg3|]. eapply grows_valid; [apply Ha|done]. }
  destruct (_ =b lit "Picture"); [split; [apply (adds_call (AddPicture _))|done]|].
  destruct (_ =b lit "Table"); [split; [apply (adds_call (AddTable _ _))|done]|].
  destruct (_ =b lit "Chart").
  { destruct (picture _ _ _ _) as [item w1] eqn:E. apply (adds_add page (AddPicture _)) in E as [Ha _]; [|done]. cbn [fst snd].
    split; [|done]. eapply adds_grows; [apply Ha|apply (grows_edit page (SetTabularChart _ _ _ _))]. }
  assert (Htext : ∃ add, v2_text page (rg_label region) raw box w = run_add page add None w).
  { unfold v2_text. destruct (_ =b lit "Title"); [by exists (AddTitle (Some box) (markdown_to_text raw))|].
    destruct (_ =b lit "Section-header"); [by eexists (AddHeading _ (Some box) (markdown_to_text raw))|].
    destruct (nemotron_text_label _) eqn:E;
      try (by exists (AddFormula (Some box) (strip_math_delimiters raw)));
      by eexists (AddStyledText _ (Some box) (markdown_to_text raw) None []). }
  destruct Htext as [add ->]. destruct (run_add page add None w) as [item w1] eqn:E.
  apply adds_add in E as [Ha _]; [|done]. cbn [fst snd]. split; [|done].
  eapply adds_grows; [apply Ha|apply (grows_edit page (SetOrig item raw))].
Qed.
Lemma v2_steps_add regions s :
  (∀ g, s.1 = Some g → valid_parent s.2 (Some g)) →
  let s' := foldl (v2_step page) s regions in
  grows s.2 s'.2 ∧ (item_count s.2 + length regions ≤ item_count s'.2)%nat.
Proof.
  revert s. induction regions as [|region regions IH]; intros s Hs; cbn [foldl length]; [split; [done|lia]|].
  destruct (v2_step_adds s region Hs) as [[Hg Hc] Hv]. destruct (IH _ Hv) as [Hg' Hc']. split; [by etrans|lia].
Qed.
Lemma map_nemotron_v2_built text ws :
  ∃ w doc ws', built page w ∧ map_nemotron_parse_v2 page text Document_empty ws = Mapped doc ws' ∧
    finish page (lit "Nemotron Parse") true w = Mapped doc ws' ∧ (length (nemotron_v2_regions text) ≤ item_count w)%nat.
Proof.
  unfold map_nemotron_parse_v2. set (w0 := LayoutWriter_new page Document_empty ws).
  destruct (v2_steps_add (nemotron_v2_regions text) (None, w0)) as [Hg Hc]; [done|]. cbn [snd] in *.
  destruct (finish_empty_ok page (lit "Nemotron Parse") (foldl (v2_step page) (None, w0) (nemotron_v2_regions text)).2)
    as (doc & ws' & Hf).
  eexists _, doc, ws'. split_and!; [apply Hg, built_new|done|done|]. change (item_count w0) with 0%nat in Hc. lia.
Qed.

(** Version 3.5. *)
Lemma furnish_grows kind before after w : grows w (furnish kind before after w).
Proof. apply set_layers_grows. Qed.
Lemma rich_text_ok text label box parent w :
  valid_parent w parent →
  ∃ w', rich_text page text label box parent w = Some w' ∧ grows w w' ∧ (parent = None → adds w w').
Proof.
  intros Hp. unfold rich_text. destruct (inline_or_plain_ok page text label box parent w Hp) as (w1 & -> & Hg & Ha).
  cbn [mbind option_bind]. eexists. split; [done|].
  match goal with |- grows w ?w2 ∧ _ => assert (Hg2 : grows w1 w2) end.
  { destruct (is_furniture label); [|done]. etrans; [apply furnish_grows|apply furnish_grows]. }
  split; [by etrans|]. intros ->. eapply adds_grows; [by apply Ha|done].
Qed.
Lemma latex_table_ok latex box parent w :
  valid_parent w parent → ∃ w', latex_table page latex box parent w = Some w' ∧ adds w w'.
Proof.
  intros Hp. unfold latex_table. destruct (latex_tabular_to_html latex) as [html|]; [by apply table_or_empty_ok|].
  eexists. split; [done|]. destruct (table _ _ _ _ _) as [ref w'] eqn:E. by apply (adds_add page (AddTable _ _)) in E as [Ha _].
Qed.

Lemma chart_picture_adds box type chart_title rows w : adds w (chart_picture page box type chart_title rows w).
Proof.
  unfold chart_picture. destruct (picture _ _ _ _) as [item w1] eqn:E. apply (adds_add page (AddPicture _)) in E as [Ha _]; [|done].
  eapply adds_grows; [apply Ha|].
  etrans; [apply (grows_edit page (ClassifyPicture item (chart_label type) []))|].
  apply (grows_edit page (SetTabularChart item chart_title (markdown_table_rows rows) [])).
Qed.
Lemma chart_panel_grows box parsed w panel : grows w (chart_panel page box parsed w panel).
Proof. unfold chart_panel. destruct (panel_rows parsed panel); [apply chart_picture_adds|done]. Qed.
Lemma chart_adds text box w : adds w (chart page text box w).
Proof.
  unfold chart. destruct (chart_body text) as [type body]. cbv zeta. set (parsed := parse_chart body).
  destruct (existsb _ _) eqn:E; [|apply chart_picture_adds].
  apply existsb_exists in E as (panel & (l1 & l2 & ->)%in_split & Hp). rewrite foldl_app. cbn [foldl].
  set (w1 := foldl _ w l1). assert (Hg1 : grows w w1) by apply grows_edits, chart_panel_grows.
  eapply adds_later; [apply Hg1|]. eapply adds_grows; [|apply grows_edits, chart_panel_grows].
  unfold chart_panel. destruct (panel_rows parsed panel); [apply chart_picture_adds|done].
Qed.

Definition open_ok (open : option BodyChild) (w : LayoutWriter) : Prop := ∀ g, open = Some g → valid_parent w (Some g).
Lemma open_ok_grows open w w' : open_ok open w → grows w w' → open_ok open w'.
Proof. intros Ho Hg g Hs. eapply grows_valid; [apply Hg|by apply Ho]. Qed.

Lemma v35_list_item_ok body box open_list w :
  open_ok open_list w →
  ∃ g w', v35_list_item page body box open_list w = Some (g, w') ∧ adds w w' ∧ valid_parent w' (Some g).
Proof.
  intros Hopen. unfold v35_list_item. pose proof (open_or_new_ok page open_list w Hopen) as Hg1.
  destruct (open_or_new open_list w) as [g w1]. destruct Hg1 as [Hg1 Hv1].
  destruct (default _ (list_marker body)) as [[marker ordered] from].
  destruct (list_item _ _ _ _ _ _ _) as [item w2] eqn:E. apply (adds_add page (AddListItem _ _ _ _)) in E as [Ha Hv2]; [|done].
  pose proof (grows_edit page (SetOrig item body) w2) as Hg3.
  destruct (fill_inline_ok page item (substr_from body from) (set_orig item body w2)) as (w4 & -> & Hg4); [by eapply grows_valid|].
  cbn [mbind option_bind]. assert (Ha4 : adds w1 w4) by (eapply adds_grows; [apply Ha|by etrans]).
  exists g, w4. split_and!; [done|by eapply adds_later|eapply grows_valid; [apply Ha4|done]].
Qed.
Lemma v35_toc_ok body box toc w :
  open_ok toc w →
  ∃ g w', v35_toc page body box toc w = Some (g, w') ∧ grows w w' ∧ valid_parent w' (Some g).
Proof.
  intros Hopen. unfold v35_toc.
  assert (∃ g w1, match toc with Some toc => (toc, w) | None => group (lit "toc") GROUP_LABEL_UNSPECIFIED None w end = (g, w1) ∧
    grows w w1 ∧ valid_parent w1 (Some g)) as (g & w1 & -> & Hg1 & Hv1).
  { destruct toc as [g|]; [exists g, w; split_and!; [done|done|by apply Hopen]|].
    eexists _, _. split; [apply surjective_pairing|]. eapply (grows_add page (AddGroup _ _)); [|apply surjective_pairing]. done. }
  assert (∃ w2, (if absent (lit "\begin{tabular}") body then rich_text page body DOC_ITEM_LABEL_TEXT (Some box) (Some g) w1
       else latex_table page body box (Some g) w1) = Some w2 ∧ grows w1 w2) as (w2 & -> & Hg2).
  { destruct (absent _ _).
    - destruct (rich_text_ok body DOC_ITEM_LABEL_TEXT (Some box) (Some g) w1 Hv1) as (w2 & Hr & Hg & _). by exists w2.
    - destruct (latex_table_ok body box (Some g) w1 Hv1) as (w2 & Hr & [Hg _]). by exists w2. }
  cbn [mbind option_bind]. exists g, w2. split_and!; [done|by etrans|by eapply grows_valid].
Qed.
Lemma v35_item_ok label body box w : ∃ w', v35_item page label body box w = Some w' ∧ adds w w'.
Proof.
  unfold v35_item. destruct (_ =b lit "Table"); [by apply latex_table_ok|].
  destruct (_ =b lit "Chart"); [eexists; split; [done|apply chart_adds]|].
  destruct (_ =b lit "Picture").
  { unfold v35_picture. destruct (picture _ _ _ _) as [item w1] eqn:E. apply (adds_add page (AddPicture _)) in E as [Ha Hv]; [|done].
    destruct (_ =b _); [by eexists|].
    destruct (rich_text_ok body DOC_ITEM_LABEL_TEXT None (Some item) w1 Hv) as (w2 & Hr & Hg & _).
    exists w2. split; [done|by eapply adds_grows]. }
  destruct (_ || _); [apply dots_heading_ok|].
  destruct (_ =b lit "Formula").
  { destruct (formula _ _ _ _ _) as [item w1] eqn:E. apply (adds_add page (AddFormula _ _)) in E as [Ha _]; [|done].
    eexists. split; [done|]. eapply adds_grows; [apply Ha|apply (grows_edit page (SetOrig item body))]. }
  destruct (_ =b lit "Code"); [eexists; split; [done|apply (adds_call (AddCode _ _ _))]|].
  destruct (rich_text_ok body (v35_text_label label) (Some box) None w) as (w' & Hr & _ & Ha); [done|].
  exists w'. split; [done|by apply Ha].
Qed.

(** A block of a table of contents may be empty; every other one adds. *)
Definition is_toc (block : Region) : bool := rg_label block =b lit "TOC".
Definition nemotron_inv (w0 : LayoutWriter) (s : Nemotron) : Prop :=
  grows w0 (nm_writer s) ∧ open_ok (nm_list s) (nm_writer s) ∧ open_ok (nm_toc s) (nm_writer s).
Lemma v35_step_ok w0 s entry :
  nemotron_inv w0 s → ∃ s', v35_step page s entry = Some s' ∧ nemotron_inv w0 s' ∧
    (item_count (nm_writer s) + (if is_toc entry.2 then 0 else 1) ≤ item_count (nm_writer s'))%nat.
Proof.
  destruct s as [w open_list toc starts captions], entry as [index block]. intros (Hg & Hl & Ht).
  cbn [nm_writer nm_list nm_toc snd] in *. unfold v35_step. cbv zeta. unfold is_toc.
  destruct (rg_label block =b lit "List-item") eqn:El.
  { destruct (v35_list_item_ok (rg_text block) (v35_box page block) open_list w Hl) as (g & w' & -> & [Hg' Hc] & Hv).
    cbn [mbind option_bind]. eexists. split; [done|]. split; [split_and!; [by etrans|by intros ? [= <-]|done]|].
    cbn [nm_writer]. destruct (rg_label block =b lit "TOC"); lia. }
  destruct (rg_label block =b lit "TOC") eqn:Et.
  { destruct (v35_toc_ok (rg_text block) (v35_box page block) toc w Ht) as (g & w' & -> & Hg' & Hv).
    cbn [mbind option_bind]. eexists. split; [done|]. split; [split_and!; [by etrans|done|by intros ? [= <-]]|].
    cbn [nm_writer]. rewrite Nat.add_0_r. by eapply grows_count. }
  destruct (v35_item_ok (rg_label block) (rg_text block) (v35_box page block) w) as (w' & -> & [Hg' Hc]).
  cbn [mbind option_bind]. eexists. split; [done|]. split; [split_and!; [by etrans|done|done]|]. cbn [nm_writer]. lia.
Qed.
Lemma v35_steps_ok w0 s entries :
  nemotron_inv w0 s → ∃ s', foldM (v35_step page) s entries = Some s' ∧ nemotron_inv w0 s' ∧
    (item_count (nm_writer s) + length (filter (λ e, is_toc e.2 = false) entries) ≤ item_count (nm_writer s'))%nat.
Proof.
  revert s. induction entries as [|entry entries IH]; intros s Hs; cbn [foldM].
  { exists s. split_and!; [done|done|cbn; lia]. }
  destruct (v35_step_ok w0 s entry Hs) as (s1 & -> & Hs1 & Hone). cbn [mbind option_bind].
  destruct (IH s1 Hs1) as (s2 & Hf & Hs2 & Hcount). exists s2. split_and!; [done|done|]. rewrite filter_cons. revert Hone.
  destruct (is_toc entry.2); [rewrite decide_False by done|rewrite decide_True by done; cbn [length]]; intros Hone; lia.
Qed.
Lemma filter_zip_blocks (blocks : list Region) k :
  length (filter (λ e : nat * Region, is_toc e.2 = false) (zip (seq k (length blocks)) blocks)) =
  length (filter (λ b, is_toc b = false) blocks).
Proof.
  revert k. induction blocks as [|b blocks IH]; intros k; [done|]. cbn [length seq zip zip_with].
  rewrite !filter_cons. cbn [snd]. case_decide; cbn [length]; by rewrite IH.
Qed.
Lemma map_nemotron_v35_built text ws :
  ∃ w doc ws', built page w ∧ map_nemotron_parse_v3_5 page text Document_empty ws = Mapped doc ws' ∧
    finish page (lit "Nemotron Parse 3.5") true w = Mapped doc ws' ∧
    (length (filter (λ b, is_toc b = false) (nemotron_v35_blocks text)) ≤ item_count w)%nat.
Proof.
  unfold map_nemotron_parse_v3_5, v35_blocks. set (w0 := LayoutWriter_new page Document_empty ws).
  set (blocks := nemotron_v35_blocks text).
  destruct (v35_steps_ok w0 (mk_Nemotron w0 None None [] []) (zip (seq 0 (length blocks)) blocks)) as (s & -> & [Hg _] & Hc);
    [by split_and!|].
  set (w1 := link_adjacent_captions _ _ _ _). destruct (finish_empty_ok page (lit "Nemotron Parse 3.5") w1) as (doc & ws' & Hf).
  exists w1, doc, ws'. split_and!; [apply (built_edit page (LinkAdjacentCaptions _ _ _)); by apply Hg, built_new|done|done|].
  assert (Hw1 : item_count w1 = item_count (nm_writer s)).
  { unfold item_count. f_equal. apply (same_run_edit (LinkAdjacentCaptions (nm_starts s) (nm_captions s) false)). }
  rewrite Hw1. rewrite filter_zip_blocks in Hc. cbn [nm_writer] in Hc. change (item_count w0) with 0%nat in Hc. lia.
Qed.
End Mapped.

(** * Properties *)

(** A Nemotron Parse answer never fails a page, whatever the model wrote.
    Version 2.0 adds an item at least for every region, version 3.5 for every
    block that is not part of a table of contents, and every item hangs from the
    body: no LaTeX table, chart or inline markup, however broken, loses a block. *)
Theorem map_nemotron_total `{ProtobufSize} `{Stb} page text ws :
  whole_page (map_nemotron_parse_v2 page text Document_empty ws) (length (nemotron_v2_regions text)) ∧
  whole_page (map_nemotron_parse_v3_5 page text Document_empty ws)
    (length (filter (λ b, is_toc b = false) (nemotron_v35_blocks text))).
Proof.
  destruct (map_nemotron_v2_built page text ws) as (w & doc & ws' & Hb & Hm & Hf & Hc).
  destruct (map_nemotron_v35_built page text ws) as (w1 & doc1 & ws1 & Hb1 & Hm1 & Hf1 & Hc1).
  split; [apply (built_whole_page page _ _ _ _ _ _ Hb Hf Hm Hc)|apply (built_whole_page page _ _ _ _ _ _ Hb1 Hf1 Hm1 Hc1)].
Qed.

(** A box of version 2.0 lies on the page: whatever the coordinates (out of
    range, infinite or no numbers) and however the canvas was padded, each side is
    between 0 and the page's width or height. *)
Theorem nemotron_v2_box_on_page page region :
  0 <= page_width page < 2 ^ 53 → 0 <= page_height page < 2 ^ 53 →
  let box := nemotron_v2_box page region in
  let within v hi := dle dzero v && dle v (of_Z hi) in
  within (bb_l box) (page_width page) && within (bb_r box) (page_width page) &&
  within (bb_t box) (page_height page) && within (bb_b box) (page_height page) = true.
Proof.
  intros Hw Hh. assert (Hin : ∀ hi v, 0 <= hi < 2 ^ 53 → dle dzero (clamp_to (of_Z hi) v) && dle (clamp_to (of_Z hi) v) (of_Z hi) = true).
  { intros hi v Hhi. unfold clamp_to, dmax, dmin. pose proof (dle_of_Z 0 hi ltac:(lia) Hhi) as H0.
    rewrite (proj2 (Z.leb_le 0 hi)) in H0 by lia. change (of_Z 0) with dzero in H0.
    pose proof (dle_of_Z hi hi Hhi Hhi) as Hr. rewrite Z.leb_refl in Hr.
    destruct (dlt v (of_Z hi)) eqn:Ev.
    - destruct (dlt dzero v) eqn:E0; [|by rewrite H0].
      by rewrite (dlt_dle _ _ E0), (dlt_dle _ _ Ev).
    - destruct (dlt dzero (of_Z hi)); by rewrite ?H0, ?Hr. }
  unfold nemotron_v2_box. destruct (resized_size page) as [rw rh]. cbn [bb_l bb_r bb_t bb_b]. cbv zeta. by rewrite !Hin.
Qed.
Lemma nemotron_v2_box_on_page_witness :
  let box := nemotron_v2_box toy_page (mk_Region S754_nan (of_Z (-1)) (of_Z 1) (of_Z 7) [] []) in
  let within v hi := dle dzero v && dle v (of_Z hi) in
  within (bb_l box) (page_width toy_page) && within (bb_r box) (page_width toy_page) &&
  within (bb_t box) (page_height toy_page) && within (bb_b box) (page_height toy_page) = true.
Proof. apply nemotron_v2_box_on_page; cbn; lia. Defined.

(** ** Small inputs *)

Example chart_small :
  let '(type, body) := chart_body (lit "<chart><chart type=" ++ c_quote :: lit "stacked bar" ++ c_quote :: lit " >title: T" ++ c_nl ::
    lit "panel: p1; line; L" ++ c_nl :: lit "table[p1]:" ++ c_nl :: lit "| a | b |" ++ c_nl :: lit "|---|" ++ c_nl ::
    lit "| 1 | 2 |</chart>x") in
  let chart := parse_chart body in
  type = lit "stacked bar" ∧ ch_title chart = lit "T" ∧ ch_panels chart = [mk_Panel (lit "p1") (lit "line") (lit "L")] ∧
  markdown_table_rows (chart_rows chart) = [[lit "a"; lit "b"]; [lit "1"; lit "2"]].
Proof. vm_compute. done. Qed.
Example v2_table_small :
  (λ cell, (sp_row cell, sp_col cell, sp_text cell)) <$>
    nemotron_v2_table_cells (lit "\begin{tabular}{ll} *a* & \multirow{2}{*}{b} \\ c & \\ & \\ \end{tabular}") =
  [(0, 0, lit "a"); (0, 1, lit "b"); (1, 0, lit "c")]%nat.
Proof. vm_compute. reflexivity. Qed.
