(* ===== verification/LatexTables.v ===== *)
(** LaTeX tables (src/mapping/nemotron.cpp, [latex_tabular_to_html]): the tabular a
    model writes, as HTML.  What is proved: any exact tiling of a grid, written
    with \multicolumn, \multirow and \thead, is read back as its cells. *)
From stdpp Require Import sorting.
From S2P Require Import Prelude Numbers Double Proto ImageCrop Builder OtslGrid Tree Markdown.
From S2P Require Import MarkupTree LayoutText Tilings Layout LayoutGrows MarkdownInline Chandra HtmlTables Dots NemotronText Nemotron.

(** * Writing a tabular *)

Definition braces (s : bytes) : bytes := lit "{" ++ s ++ lit "}".
Definition command (name : string) (args : list bytes) : bytes := "\"%char :: lit name ++ mjoin (braces <$> args).
Definition in_thead (cell : SpanCell) : bytes :=
  if sp_column_header cell then command "thead" [sp_text cell] else sp_text cell.
Definition in_multirow (cell : SpanCell) : bytes :=
  if bool_decide (sp_row_span cell = 1%nat) then in_thead cell
  else command "multirow" [to_string (Z.of_nat (sp_row_span cell)); lit "*"; in_thead cell].
Definition cell_latex (cell : SpanCell) : bytes :=
  if bool_decide (sp_col_span cell = 1%nat) then in_multirow cell
  else command "multicolumn" [to_string (Z.of_nat (sp_col_span cell)); lit "c"; in_multirow cell].
(** What stands at a position: the cell that starts there, nothing right of it,
    an empty place below it. *)
Definition slot (cells : list SpanCell) (r c : nat) : option bytes :=
  match owner cells r c with
  | Some cell =>
      if bool_decide (sp_row cell = r) then
        if bool_decide (sp_col cell = c) then Some (cell_latex cell) else None
      else Some []
  | None => None
  end.
Definition pad (s : bytes) : bytes := lit " " ++ s ++ lit " ".
Fixpoint join_with (separator : bytes) (parts : list bytes) : bytes :=
  match parts with
  | [] => []
  | [part] => part
  | part :: parts => part ++ separator ++ join_with separator parts
  end.
Definition row_slots (cells : list SpanCell) (cols r : nat) : list bytes := omap (slot cells r) (seq 0 cols).
Definition row_latex (cells : list SpanCell) (cols r : nat) : bytes := join_with (lit "&") (pad <$> row_slots cells cols r).
Definition tabular (cells : list SpanCell) (rows cols : nat) : bytes :=
  lit "\begin{tabular}" ++ braces (replicate cols "l"%char) ++
  mjoin ((λ r, row_latex cells cols r ++ lit "\\") <$> seq 0 rows) ++ lit "\end{tabular}".

(** Text no reader on the way gives a meaning: no markup of LaTeX, HTML or
    Markdown, its white space collapsed. *)
Definition plain_char (c : ascii) : bool :=
  negb (contains_char c (lit "\{}&<>")) && negb (c =c c_quote).
Record plain_text (text : bytes) : Prop := {
  pt_chars : Forall (λ c, plain_char c = true) text;
  pt_trim : trim text = text;
  pt_collapse : collapse_whitespace text = text;
  pt_inline : markdown_inline_html text = text }.
Record plain_latex (cell : SpanCell) : Prop := {
  pl_text : plain_text (sp_text cell);
  pl_head : sp_column_header cell = true → sp_row cell = 0%nat;
  pl_scope : sp_row_header cell = false }.

Example tabular_small :
  tabular [mk_SpanCell 0 0 1 2 (lit "a") true false None; mk_SpanCell 1 0 2 1 (lit "b") false false None;
           mk_SpanCell 1 1 1 1 (lit "c") false false None; mk_SpanCell 2 1 1 1 [] false false None] 3 2 =
  lit "\begin{tabular}{ll} \multicolumn{2}{c}{\thead{a}} \\ \multirow{2}{*}{b} & c \\  &  \\\end{tabular}".
Proof. vm_compute. reflexivity. Qed.

(** * Groups *)

(** Text with balanced braces, its characters passing [ok], its commands the ones
    written here. *)
Inductive closed (ok : ascii → bool) : bytes → Prop :=
  | closed_nil : closed ok []
  | closed_char c s : ok c = true → closed ok s → closed ok (c :: s)
  | closed_command c s : contains_char c (lit "tm") = true → closed ok s → closed ok ("\"%char :: c :: s)
  | closed_group a s : closed ok a → closed ok s → closed ok ("{"%char :: a ++ "}"%char :: s).

Lemma closed_app ok a b : closed ok a → closed ok b → closed ok (a ++ b).
Proof.
  intros Ha Hb. induction Ha; cbn [app]; [done|by constructor..|]. rewrite <- app_assoc. cbn [app]. by constructor.
Qed.
Lemma closed_chars ok s : Forall (λ c, ok c = true) s → closed ok s.
Proof. induction 1; by constructor. Qed.
Lemma closed_braces ok s : closed ok s → closed ok (braces s).
Proof. intros Hs. apply (closed_group ok s []); [done|constructor]. Qed.
Lemma closed_weaken (ok ok' : ascii → bool) s : (∀ c, ok c = true → ok' c = true) → closed ok s → closed ok' s.
Proof. intros Hok. induction 1; [apply closed_nil|apply closed_char|apply closed_command|apply closed_group]; auto. Qed.

(** Characters without a meaning to the readers of groups. *)
Definition inert (c : ascii) : bool := negb (contains_char c (lit "\{}")).
Lemma inert_char c : inert c = true → (c =c "\"%char) = false ∧ (c =c "{"%char) = false ∧ (c =c "}"%char) = false.
Proof.
  unfold inert. intros Hc. split_and!; apply Ascii.eqb_neq; intros ->; by vm_compute in Hc.
Qed.
Lemma group_end_closed a : closed inert a → ∀ depth rest i,
  (1 ≤ depth)%nat → group_end depth false (a ++ rest) i = group_end depth false rest (i + length a).
Proof.
  induction 1 as [|c s Hc _ IH|c s Hc _ IH|a s _ IHa _ IHs]; intros depth rest i Hd.
  - by rewrite Nat.add_0_r.
  - cbn [app group_end length]. destruct (inert_char c Hc) as (-> & -> & ->). rewrite IH by done. f_equal. lia.
  - cbn [app group_end length]. rewrite IH by done. f_equal. lia.
  - cbn [app group_end length]. rewrite <- app_assoc, IHa by lia. cbn [app group_end].
    change ("}"%char =c "\"%char) with false. change ("}"%char =c "{"%char) with false. change ("}"%char =c "}"%char) with true.
    cbv iota. rewrite bool_decide_eq_false_2 by lia. rewrite length_app. cbn [length].
    replace (S depth - 1)%nat with depth by lia. rewrite IHs by done. f_equal. lia.
Qed.
Lemma read_group_closed text pos a rest :
  closed inert a → drop pos text = braces a ++ rest → read_group text pos = Some (a, (pos + length (braces a))%nat).
Proof.
  intros Ha Hd. unfold read_group. rewrite Hd. change (span isspace (braces a ++ rest)) with 0%nat. rewrite Nat.add_0_r, Hd.
  rewrite char_at_drop, Hd. change (head_is (Ascii.eqb "{"%char) (braces a ++ rest)) with true. cbn [negb].
  assert (group_end 0 false (braces a ++ rest) pos = Some (pos + S (length a))%nat) as ->.
  { unfold braces. rewrite <- !app_assoc. cbn [lit String.list_ascii_of_string app group_end].
    change ("{"%char =c "\"%char) with false. change ("{"%char =c "{"%char) with true. cbv iota.
    rewrite group_end_closed by (done || lia). cbn [group_end].
    change ("}"%char =c "\"%char) with false. change ("}"%char =c "{"%char) with false. change ("}"%char =c "}"%char) with true.
    cbv iota. rewrite bool_decide_eq_true_2 by lia. f_equal. lia. }
  cbn [mbind option_bind].
  assert (length (braces a) = S (S (length a))) as Hl by (unfold braces; rewrite !length_app; cbn; lia).
  f_equal. f_equal; [|lia]. unfold substr. replace (S pos) with (pos + 1)%nat by lia. rewrite <- drop_drop, Hd.
  unfold braces. rewrite <- !app_assoc. cbn [lit String.list_ascii_of_string app drop].
  replace (pos + S (length a) - pos - 1)%nat with (length a) by lia. rewrite drop_0. by rewrite take_app_length.
Qed.
Lemma read_groups_closed args : Forall (closed inert) args → ∀ text pos rest,
  drop pos text = mjoin (braces <$> args) ++ rest →
  read_groups (length args) text pos = Some (args, (pos + length (mjoin (braces <$> args)))%nat).
Proof.
  induction 1 as [|a args Ha _ IH]; intros text pos rest Hd; cbn [read_groups length].
  - cbn. by rewrite Nat.add_0_r.
  - rewrite fmap_cons in *. change (mjoin (?x :: ?xs)) with (x ++ mjoin xs) in *. rewrite <- app_assoc in Hd.
    rewrite (read_group_closed _ _ _ _ Ha Hd). cbn [mbind option_bind].
    rewrite (IH text _ rest); [cbn [mbind option_bind]; f_equal; f_equal; rewrite length_app; lia|].
    rewrite <- drop_drop, Hd. by rewrite drop_app_length.
Qed.

(** A command is unwrapped to its arguments, another left alone. *)
Lemma unwrap_print text name args n :
  trim text = command name args → n = length args → args ≠ [] → Forall (closed inert) args →
  unwrap_command text (lit name) n = Some args.
Proof.
  intros Ht -> Hne Hok. unfold unwrap_command. rewrite Ht. unfold command.
  set (prefix := "\"%char :: lit name). set (groups := mjoin (braces <$> args)).
  repeat change ("\"%char :: lit name ++ groups) with (prefix ++ groups).
  assert (starts_with prefix (prefix ++ groups) = true) as -> by (apply starts_with_app; by exists groups).
  assert (drop (length prefix) (prefix ++ groups) = groups) as Hd by apply drop_app_length.
  rewrite char_at_drop, Hd. assert (head_is isalpha groups = false) as -> by (by destruct args).
  cbn [negb orb]. rewrite (read_groups_closed args Hok (prefix ++ groups) (length prefix) []) by (by rewrite Hd, app_nil_r). cbn [mbind option_bind].
  fold groups. rewrite <- length_app, drop_all. done.
Qed.
Lemma unwrap_other text name n : starts_with ("\"%char :: lit name) (trim text) = false → unwrap_command text (lit name) n = None.
Proof. intros Hs. unfold unwrap_command. by rewrite Hs. Qed.

(** * Cutting at separators *)

Section Cut.
Variables (ok : ascii → bool) (separator : bytes).
Hypothesis Hinert : ∀ c, ok c = true → inert c = true.
Hypothesis Hchar : ∀ c s, ok c = true → starts_with separator (c :: s) = false.
Hypothesis Hcommand : ∀ c s, contains_char c (lit "tm") = true → starts_with separator ("\"%char :: c :: s) = false.
Hypothesis Hbrace : ∀ c s, inert c = false → c ≠ "\"%char → starts_with separator (c :: s) = false.
Abbreviation run text := (rtc (λ s s', split_step text separator s = inl s')).

Lemma split_at text pre c rest start depth parts :
  text = pre ++ c :: rest → starts_with separator (c :: rest) = false →
  split_step text separator (mk_Split (length pre) start depth parts) =
  inl (if c =c "\"%char then mk_Split (length pre + 2) start depth parts
       else if c =c "{"%char then mk_Split (S (length pre)) start (S depth) parts
       else if c =c "}"%char then mk_Split (S (length pre)) start (depth - 1) parts
       else mk_Split (S (length pre)) start depth parts).
Proof.
  intros -> Hs. cbn [split_step]. rewrite lookup_app_r, Nat.sub_diag by lia. cbn [lookup list_lookup].
  unfold at_pos. rewrite drop_app_length, Hs, andb_false_r. by repeat case_match.
Qed.
Lemma split_run a : closed ok a → ∀ text pre rest start depth parts, text = pre ++ a ++ rest →
  run text (mk_Split (length pre) start depth parts) (mk_Split (length pre + length a) start depth parts).
Proof using Hinert Hchar Hcommand Hbrace.
  induction 1 as [|c s Hc _ IH|c s Hc _ IH|a s _ IHa _ IHs]; intros text pre rest start depth parts E.
  - rewrite Nat.add_0_r. constructor.
  - destruct (inert_char c (Hinert c Hc)) as (H1 & H2 & H3).
    eapply rtc_l; [by rewrite (split_at text pre c (s ++ rest)), H1, H2, H3 by auto|].
    specialize (IH text (pre ++ [c]) rest start depth parts). rewrite length_app in IH. cbn [length] in *.
    rewrite Nat.add_1_r in IH. rewrite Nat.add_succ_r. apply IH. by rewrite E, <- app_assoc.
  - eapply rtc_l; [by rewrite (split_at text pre "\"%char (c :: s ++ rest)) by auto|].
    specialize (IH text (pre ++ ["\"%char; c]) rest start depth parts). rewrite length_app in IH. cbn [length] in *.
    replace (length pre + S (S (length s)))%nat with (length pre + 2 + length s)%nat by lia. apply IH. by rewrite E, <- app_assoc.
  - cbn [app] in E. rewrite <- app_assoc in E. cbn [app] in E.
    eapply rtc_l; [by rewrite (split_at text pre "{"%char (a ++ "}"%char :: s ++ rest)) by (done || by apply Hbrace)|].
    change ("{"%char =c "\"%char) with false. change ("{"%char =c "{"%char) with true. cbv iota.
    specialize (IHa text (pre ++ ["{"%char]) ("}"%char :: s ++ rest) start (S depth) parts).
    rewrite length_app in IHa. cbn [length] in IHa. rewrite Nat.add_1_r in IHa.
    etrans; [apply IHa; by rewrite E, <- app_assoc|].
    assert (text = (pre ++ "{"%char :: a) ++ "}"%char :: s ++ rest) as E2 by (by rewrite E, <- app_assoc).
    assert (starts_with separator ("}"%char :: s ++ rest) = false) as Hb by (by apply Hbrace).
    pose proof (split_at text _ "}"%char _ start (S depth) parts E2 Hb) as Hstep.
    rewrite length_app in Hstep. cbn [length] in Hstep. rewrite Nat.add_succ_r in Hstep.
    eapply rtc_l; [exact Hstep|].
    change ("}"%char =c "\"%char) with false. change ("}"%char =c "{"%char) with false. change ("}"%char =c "}"%char) with true. cbv iota.
    specialize (IHs text (pre ++ "{"%char :: a ++ ["}"%char]) rest start depth parts).
    rewrite !length_app in IHs. cbn [length] in IHs. rewrite length_app in IHs. cbn [length] in *. rewrite length_app. cbn [length].
    replace (S depth - 1)%nat with depth by lia.
    replace (length pre + S (length a + S (length s)))%nat with (length pre + S (length a + 1) + length s)%nat by lia.
    replace (S (S (length pre + length a)))%nat with (length pre + S (length a + 1))%nat by lia.
    apply IHs. rewrite E, <- !app_assoc. cbn [app]. by rewrite <- app_assoc.
Qed.

Hypothesis Hlength : (0 < length separator)%nat.
(** One part and the separator after it, or the last part. *)
Lemma split_part text pre part rest parts :
  closed ok part → text = pre ++ part ++ separator ++ rest →
  run text (mk_Split (length pre) (length pre) 0 parts)
    (mk_Split (length (pre ++ part ++ separator)) (length (pre ++ part ++ separator)) 0 (parts ++ [part])).
Proof using Hinert Hchar Hcommand Hbrace Hlength.
  intros Hp E. etrans; [by eapply (split_run part Hp)|]. apply rtc_once. cbn [split_step].
  assert (text = (pre ++ part) ++ separator ++ rest) as E2 by (by rewrite E, <- app_assoc).
  rewrite <- length_app. destruct separator as [|c sep] eqn:Es; [cbn in Hlength; lia|]. rewrite <- Es in *.
  assert (text !! length (pre ++ part) = Some c) as ->.
  { rewrite E2, lookup_app_r, Nat.sub_diag by lia. by rewrite Es. }
  rewrite bool_decide_eq_true_2 by done. unfold at_pos. rewrite (drop_cut text (pre ++ part) (separator ++ rest)) by done.
  assert (starts_with separator (separator ++ rest) = true) as -> by (apply starts_with_app; by exists rest). cbn [andb].
  rewrite (substr_cut text pre part (separator ++ rest)); [|done|done|rewrite length_app; lia].
  by rewrite !length_app, Nat.add_assoc.
Qed.
Lemma split_parts text parts last : ∀ pre done_,
  Forall (closed ok) parts → closed ok last →
  text = pre ++ mjoin ((λ part, part ++ separator) <$> parts) ++ last →
  run text (mk_Split (length pre) (length pre) 0 done_)
    (mk_Split (length text) (length text - length last) 0 (done_ ++ parts)).
Proof using Hinert Hchar Hcommand Hbrace Hlength.
  induction parts as [|part parts IH]; intros pre done_ Hp Hl E.
  - cbn [fmap list_fmap mjoin list_join app] in E. rewrite app_nil_r.
    pose proof (split_run last Hl text pre [] (length pre) 0 done_) as Hrun. rewrite app_nil_r in Hrun.
    rewrite E, length_app. replace (length pre + length last - length last)%nat with (length pre) by lia.
    rewrite <- E. by apply Hrun.
  - rewrite fmap_cons in E. change (mjoin (?x :: ?xs)) with (x ++ mjoin xs) in E. rewrite <- !app_assoc in E.
    apply Forall_cons_1 in Hp as [Hpart Hp].
    etrans; [by apply (split_part text pre part _ done_ Hpart E)|]. specialize (IH (pre ++ part ++ separator) (done_ ++ [part]) Hp Hl).
    rewrite (cons_middle part done_ parts), (app_assoc done_). apply IH. by rewrite E, <- !app_assoc.
Qed.
Lemma split_top_level_print parts last :
  Forall (closed ok) parts → closed ok last →
  split_top_level (mjoin ((λ part, part ++ separator) <$> parts) ++ last) separator = parts ++ [last].
Proof using Hinert Hchar Hcommand Hbrace Hlength.
  intros Hp Hl. set (text := mjoin _ ++ last). pose proof (split_parts text parts last [] [] Hp Hl eq_refl) as Hrun.
  unfold split_top_level, run_loop. rewrite (loop_rtc _ _ _ _ (parts ++ [last]) Hrun); [done| |].
  - cbn [split_step]. rewrite lookup_ge_None_2 by done. f_equal. f_equal. f_equal.
    unfold text. rewrite length_app, Nat.add_sub. apply drop_app_length.
  - apply (loop_total (λ _, True) (λ s, length text - sl_i s)%nat); [|done|cbn; lia].
    intros s s' _ Hstep. split; [done|]. apply (split_step_decreases text separator); [by destruct separator; [cbn in Hlength; lia|]|done].
Qed.
End Cut.

(** * Reading a cell *)

(** The characters of one cell. *)
Definition cell_char (c : ascii) : bool := inert c && negb (c =c "&"%char).
Lemma plain_cell_char c : plain_char c = true → cell_char c = true.
Proof.
  unfold plain_char, cell_char, inert, contains_char. cbn [lit String.list_ascii_of_string existsb].
  destruct (Ascii.eqb _ _), (Ascii.eqb _ _), (Ascii.eqb _ _), (Ascii.eqb _ _); done.
Qed.
Lemma digit_plain c : isdigit c = true → plain_char c = true.
Proof.
  intros Hd. apply not_false_is_true. unfold plain_char. intros Hp.
  assert (c ∈ c_quote :: lit "\{}&<>") as Hin.
  { apply andb_false_iff in Hp as [Hp|Hp]; apply negb_false_iff in Hp.
    - right. by apply contains_char_true.
    - apply Ascii.eqb_eq in Hp as ->. by left. }
  cbn [lit String.list_ascii_of_string] in Hin.
  repeat (apply elem_of_cons in Hin as [->|Hin]; [by vm_compute in Hd|]). by apply elem_of_nil in Hin.
Qed.
Lemma closed_span n : closed cell_char (to_string (Z.of_nat n)).
Proof.
  apply closed_chars. destruct (to_string_digits (Z.of_nat n)) as (Hall & _ & _); [lia|].
  eapply Forall_impl; [exact Hall|]. intros c Hc. by apply plain_cell_char, digit_plain.
Qed.
Lemma closed_text text : plain_text text → closed cell_char text.
Proof.
  intros Hp. apply closed_chars. eapply Forall_impl; [apply (pt_chars _ Hp)|]. intros c. apply plain_cell_char.
Qed.
Lemma closed_print c name args :
  contains_char c (lit "tm") = true → forallb cell_char (lit name) = true → Forall (closed cell_char) args →
  closed cell_char (command (String c name) args).
Proof.
  intros Hc Hname Hargs. apply closed_command; [done|]. apply closed_app.
  - apply closed_chars, Forall_forall. intros d Hd%list_elem_of_In. by apply (proj1 (forallb_forall _ _) Hname).
  - induction Hargs as [|a args Ha _ IH]; [constructor|]. rewrite fmap_cons. change (mjoin (?x :: ?xs)) with (x ++ mjoin xs).
    apply closed_app; [by apply closed_braces|done].
Qed.

Section Cell.
Context (cell : SpanCell) (Hplain : plain_latex cell).
Lemma closed_thead : closed cell_char (in_thead cell).
Proof using Hplain.
  pose proof (closed_text _ (pl_text _ Hplain)). unfold in_thead. destruct (sp_column_header cell); [|done].
  apply closed_print; [done..|]. by repeat constructor.
Qed.
Lemma closed_multirow : closed cell_char (in_multirow cell).
Proof using Hplain.
  pose proof closed_thead. unfold in_multirow. case_bool_decide; [done|]. apply closed_print; [done..|].
  repeat apply Forall_cons_2; [apply closed_span|by repeat constructor|done|by apply Forall_nil_2].
Qed.
Lemma closed_cell : closed cell_char (cell_latex cell).
Proof using Hplain.
  pose proof closed_multirow. unfold cell_latex. case_bool_decide; [done|]. apply closed_print; [done..|].
  repeat apply Forall_cons_2; [apply closed_span|by repeat constructor|done|by apply Forall_nil_2].
Qed.
End Cell.

Lemma trim_ends c s d : is_blank c = false → is_blank d = false → trim (c :: s ++ [d]) = c :: s ++ [d].
Proof.
  intros Hc Hd. rewrite trim_strip. rewrite lstrip_id by (intros e [= <-]; done).
  rewrite app_comm_cons, rstrip_app. unfold rstrip at 1 3. cbn. by rewrite Hd.
Qed.
Lemma trim_command name args : args ≠ [] → trim (command name args) = command name args.
Proof.
  intros Hne. destruct (exists_last Hne) as (init & a & ->). unfold command. rewrite fmap_app, join_app.
  change (mjoin (braces <$> [a])) with (braces a ++ []). rewrite app_nil_r. unfold braces at 2 4.
  rewrite !(app_assoc _ _ (lit "}")), !app_assoc. by apply trim_ends.
Qed.
Lemma trim_thead cell : plain_latex cell → trim (in_thead cell) = in_thead cell.
Proof. intros Hp. unfold in_thead. destruct (sp_column_header cell); [by apply trim_command|apply (pt_trim _ (pl_text _ Hp))]. Qed.
Lemma trim_multirow cell : plain_latex cell → trim (in_multirow cell) = in_multirow cell.
Proof. intros Hp. unfold in_multirow. case_bool_decide; [by apply trim_thead|by apply trim_command]. Qed.
Lemma trim_cell cell : plain_latex cell → trim (cell_latex cell) = cell_latex cell.
Proof. intros Hp. unfold cell_latex. case_bool_decide; [by apply trim_multirow|by apply trim_command]. Qed.

Lemma span_value_print n : (1 ≤ n ≤ kMaxLatexColumns)%nat → span_value (to_string (Z.of_nat n)) = n.
Proof.
  intros Hn. assert (Forall (λ n, span_value (to_string (Z.of_nat n)) = n) (seq 1 kMaxLatexColumns)) as Hall.
  { apply (bool_decide_unpack _). vm_compute. exact I. }
  rewrite Forall_forall in Hall. apply Hall. apply elem_of_seq. lia.
Qed.

(** Plain text is escaped as itself. *)
Lemma html_escape_plain text : Forall (λ c, plain_char c = true) text → html_escape text = text.
Proof.
  induction 1 as [|c text Hc _ IH]; [done|]. unfold html_escape in *. rewrite fmap_cons. change (mjoin (?x :: ?xs)) with (x ++ mjoin xs).
  rewrite IH. unfold plain_char, contains_char in Hc. cbn [lit String.list_ascii_of_string existsb] in Hc.
  repeat match goal with |- context [Ascii.eqb c ?d] => destruct (Ascii.eqb_spec c d) as [->|]; [by vm_compute in Hc|] end. done.
Qed.
Lemma escape_plain text : Forall (λ c, plain_char c = true) text → escape_cell_markup text = text.
Proof.
  intros Hp. unfold escape_cell_markup.
  apply (run_loop_spec (λ s, ∃ i, s = (i, 0%nat, [])) (λ r, r = text) (λ s, length text - s.1.1)%nat); [|by exists 0%nat|cbn; lia].
  intros s (i & ->). cbn [escape_step]. destruct (text !! i) as [c|] eqn:E.
  - pose proof (lookup_lt_Some _ _ _ E) as Hlt. rewrite Forall_lookup in Hp. specialize (Hp i c E).
    assert ((c =c "\"%char) = false ∧ (c =c "<"%char) = false) as [-> ->].
    { split; apply Ascii.eqb_neq; intros ->; by vm_compute in Hp. }
    split; [by exists (S i)|cbn; lia].
  - unfold substr. rewrite drop_0, Nat.sub_0_r, take_ge by done. by rewrite html_escape_plain.
Qed.

(** What a cell says: the text a slot holds, padded or not. *)
Definition padded (raw x : bytes) : Prop := raw = x ∨ raw = pad x.
Lemma trim_padded raw x : padded raw x → trim x = x → trim raw = x.
Proof. intros [-> | ->] Ht; [done|]. unfold pad. by rewrite trim_pad. Qed.
Lemma padded_plain raw text : padded raw text → plain_text text → trim (escape_cell_markup raw) = text.
Proof.
  intros Hraw Hp. rewrite escape_plain; [apply (trim_padded _ _ Hraw), (pt_trim _ Hp)|].
  pose proof (pt_chars _ Hp). destruct Hraw as [-> | ->]; [done|]. unfold pad. by repeat apply Forall_app_2; repeat constructor.
Qed.
Lemma plain_no_command text s : plain_text text → starts_with ("\"%char :: s) text = false.
Proof.
  intros Hp. pose proof (pt_chars _ Hp) as Hc. destruct text as [|c text]; [done|]. apply Forall_cons_1 in Hc as [Hc _].
  cbn [starts_with]. destruct (Ascii.eqb_spec "\"%char c) as [<-|]; [by vm_compute in Hc|done].
Qed.
Lemma inert_closed x : closed cell_char x → closed inert x.
Proof. apply closed_weaken. intros c [? _]%andb_true_iff. done. Qed.
Lemma star_closed c : cell_char c = true → closed inert [c].
Proof. intros Hc. apply inert_closed, closed_chars. by repeat constructor. Qed.

Abbreviation cell_run := (rtc (λ s s', latex_cell_step s = inl s')).
Definition of_cell (cell : SpanCell) : LatexCell :=
  mk_LatexCell (sp_text cell) (sp_row_span cell) (sp_col_span cell) (sp_column_header cell).
(** The loop ends at the text. *)
Definition cell_ends (cell : SpanCell) (s s' : bytes * LatexCell) : Prop :=
  cell_run s s' ∧ latex_cell_step s' = inr s' ∧ trim (escape_cell_markup s'.1) = sp_text cell.

Section Steps.
Context (cell : SpanCell) (Hplain : plain_latex cell).
Lemma step_text raw lc : padded raw (sp_text cell) → latex_cell_step (raw, lc) = inr (raw, lc).
Proof using Hplain.
  intros Hraw. pose proof (trim_padded _ _ Hraw (pt_trim _ (pl_text _ Hplain))) as Ht. cbn [latex_cell_step].
  rewrite !unwrap_other by (rewrite Ht; apply plain_no_command, Hplain). done.
Qed.
Lemma ends_thead raw lc : padded raw (in_thead cell) →
  ∃ raw', cell_ends cell (raw, lc) (raw', mk_LatexCell (lc_text lc) (lc_row_span lc) (lc_col_span lc)
    (lc_header lc || sp_column_header cell)).
Proof using Hplain.
  intros Hraw. pose proof (trim_padded _ _ Hraw (trim_thead _ Hplain)) as Ht. unfold in_thead in Hraw, Ht.
  destruct (sp_column_header cell) eqn:Eh.
  - exists (sp_text cell). rewrite orb_true_r. split; [|split; [by apply step_text; left|by apply padded_plain; [left|apply Hplain]]].
    apply rtc_once. cbn [latex_cell_step].
    rewrite (unwrap_other raw "multicolumn"), (unwrap_other raw "multirow") by (by rewrite Ht).
    rewrite (unwrap_print raw "thead" _ 1 Ht eq_refl); [done|done|].
    apply Forall_singleton. apply inert_closed, closed_text, Hplain.
  - exists raw. rewrite orb_false_r. destruct lc. split; [constructor|]. split; [by apply step_text|by apply padded_plain; [|apply Hplain]].
Qed.
Lemma ends_multirow raw lc : padded raw (in_multirow cell) → lc_row_span lc = 1%nat → (1 ≤ sp_row_span cell ≤ kMaxLatexColumns)%nat →
  ∃ raw', cell_ends cell (raw, lc) (raw', mk_LatexCell (lc_text lc) (sp_row_span cell) (lc_col_span lc)
    (lc_header lc || sp_column_header cell)).
Proof using Hplain.
  intros Hraw Hone Hspan. pose proof (trim_padded _ _ Hraw (trim_multirow _ Hplain)) as Ht. unfold in_multirow in Hraw, Ht.
  case_bool_decide as E.
  - rewrite E, <- Hone. by apply ends_thead.
  - destruct (ends_thead (in_thead cell) (mk_LatexCell (lc_text lc) (sp_row_span cell) (lc_col_span lc) (lc_header lc)))
      as (raw' & Hrun & Hend); [by left|]. exists raw'. split; [|done]. eapply rtc_l; [|exact Hrun].
    cbn [latex_cell_step]. rewrite (unwrap_other raw "multicolumn") by (by rewrite Ht).
    rewrite (unwrap_print raw "multirow" _ 3 Ht eq_refl); [|done|].
    + cbn [nth_arg lookup list_lookup default from_option id]. unfold nth_arg. cbn. by rewrite span_value_print.
    + repeat apply Forall_cons_2; [apply inert_closed, closed_span|by apply star_closed| |by apply Forall_nil_2].
      by apply inert_closed, closed_thead.
Qed.
Lemma ends_cell raw : padded raw (cell_latex cell) →
  (1 ≤ sp_row_span cell ≤ kMaxLatexColumns)%nat → (1 ≤ sp_col_span cell ≤ kMaxLatexColumns)%nat →
  ∃ raw', cell_ends cell (raw, mk_LatexCell [] 1 1 false)
    (raw', mk_LatexCell [] (sp_row_span cell) (sp_col_span cell) (sp_column_header cell)).
Proof using Hplain.
  intros Hraw Hrs Hcs. pose proof (trim_padded _ _ Hraw (trim_cell _ Hplain)) as Ht. unfold cell_latex in Hraw, Ht.
  case_bool_decide as E.
  - rewrite E. by apply (ends_multirow raw (mk_LatexCell [] 1 1 false)).
  - destruct (ends_multirow (in_multirow cell) (mk_LatexCell [] 1 (sp_col_span cell) false))
      as (raw' & Hrun & Hend); [by left|done|done|]. exists raw'. split; [|done]. eapply rtc_l; [|exact Hrun].
    cbn [latex_cell_step]. rewrite (unwrap_print raw "multicolumn" _ 3 Ht eq_refl); [|done|].
    + unfold nth_arg. cbn. by rewrite span_value_print.
    + repeat apply Forall_cons_2; [apply inert_closed, closed_span|by apply star_closed| |by apply Forall_nil_2].
      by apply inert_closed, closed_multirow.
Qed.
End Steps.

Lemma parse_cell cell raw :
  plain_latex cell → padded raw (cell_latex cell) →
  (1 ≤ sp_row_span cell ≤ kMaxLatexColumns)%nat → (1 ≤ sp_col_span cell ≤ kMaxLatexColumns)%nat →
  parse_latex_cell raw = of_cell cell.
Proof.
  intros Hp Hraw Hrs Hcs. destruct (ends_cell cell Hp raw Hraw Hrs Hcs) as (raw' & Hrun & Hstep & Htext).
  unfold parse_latex_cell, run_loop. rewrite (loop_rtc _ _ _ _ _ Hrun Hstep).
  - cbn [default from_option id fst] in *. cbn [lc_row_span lc_col_span lc_header]. by rewrite Htext.
  - apply (loop_total (λ _, True) (λ s, length s.1)); [|done|cbn; lia].
    intros s s' _ Hs. split; [done|by apply latex_cell_step_decreases].
Qed.
(** An empty place. *)
Lemma parse_empty : parse_latex_cell (pad []) = mk_LatexCell [] 1 1 false.
Proof. vm_compute. reflexivity. Qed.

(** * Placing the cells *)

(** The storage holds a cell, or what an empty place was read as. *)
Definition stored_cell (entry : option SpanCell) : LatexCell := from_option of_cell (mk_LatexCell [] 1 1 false) entry.
Definition in_column (cell : SpanCell) (c : nat) : Prop := (sp_col cell ≤ c < sp_end_col cell)%nat.
(** Each column's owner is the last cell placed over it. *)
Definition owners_ok (stored : list (option SpanCell)) (owners : Owners) : Prop := ∀ c,
  match owners !! c with
  | None => ∀ i cell, stored !! i = Some (Some cell) → ¬ in_column cell c
  | Some (i, start) => ∃ cell, stored !! i = Some (Some cell) ∧ start = sp_row cell ∧ in_column cell c ∧
      ∀ j b, stored !! j = Some (Some b) → in_column b c → (j ≤ i)%nat
  end.
Lemma owners_insert (v : nat * nat) owners from n c :
  foldl (λ owners c, <[c := v]> owners) owners (seq from n) !! c =
  if bool_decide (from ≤ c < from + n)%nat then Some v else (owners : Owners) !! c.
Proof.
  revert owners from. induction n as [|n IH]; intros owners from; cbn [seq foldl].
  - by rewrite bool_decide_eq_false_2 by lia.
  - rewrite IH. repeat case_bool_decide; try done; try lia.
    + destruct (decide (from = c)) as [->|]; [by rewrite lookup_insert_eq|lia].
    + rewrite lookup_insert_ne by lia. done.
Qed.
Lemma owners_ok_empty stored owners : owners_ok stored owners → owners_ok (stored ++ [None]) owners.
Proof.
  assert (∀ i b, (stored ++ [None]) !! i = Some (Some b) ↔ stored !! i = Some (Some b)) as Hl.
  { intros i b. rewrite lookup_app_Some. split; [|by left]. intros [?|[_ Hi]]; [done|]. by destruct (i - length stored)%nat. }
  intros Hok c. specialize (Hok c). destruct (owners !! c) as [[i start]|].
  - destruct Hok as (cell & ? & ? & ? & Hlast). exists cell. split_and!; [by apply Hl|done|done|]. intros j b ?%Hl. by apply Hlast.
  - intros i cell ?%Hl. by apply (Hok i).
Qed.
Lemma owners_ok_cell stored owners cell :
  owners_ok stored owners →
  owners_ok (stored ++ [Some cell])
    (foldl (λ owners c, <[c := (length stored, sp_row cell)]> owners) owners (seq (sp_col cell) (sp_col_span cell))).
Proof.
  intros Hok c. rewrite owners_insert. fold (sp_end_col cell). specialize (Hok c). case_bool_decide as Hc.
  - exists cell. split_and!; [by rewrite lookup_app_r, Nat.sub_diag by lia|done|apply Hc|].
    intros j b Hj%lookup_lt_Some _. rewrite length_app in Hj. cbn in Hj. lia.
  - assert (∀ i b, (stored ++ [Some cell]) !! i = Some (Some b) → in_column b c → stored !! i = Some (Some b)) as Hl.
    { intros i b [?|[_ Hi]]%lookup_app_Some Hb; [done|]. destruct (i - length stored)%nat; [|done]. injection Hi as ->. done. }
    destruct (owners !! c) as [[i start]|].
    + destruct Hok as (cell' & Hi & ? & ? & Hlast). exists cell'. split_and!; [by apply lookup_app_l_Some|done|done|].
      intros j b Hj Hb. apply (Hlast j b); [by apply Hl|done].
    + intros i b Hi Hb. by apply (Hok i b); [apply Hl|].
Qed.

(** The separators written here. *)
Lemma join_with_snoc separator parts last :
  join_with separator (parts ++ [last]) = mjoin ((λ part, part ++ separator) <$> parts) ++ last.
Proof.
  induction parts as [|part parts IH]; [done|]. rewrite fmap_cons. change (mjoin (?x :: ?xs)) with (x ++ mjoin xs).
  rewrite <- !app_assoc, <- IH. cbn [app join_with]. destruct (parts ++ [last]) as [|x l] eqn:E; [by destruct parts|done].
Qed.
Lemma split_amp slots : slots ≠ [] → Forall (closed cell_char) slots → split_top_level (join_with (lit "&") slots) (lit "&") = slots.
Proof.
  intros Hne Hok. destruct (exists_last Hne) as (parts & last & ->). apply Forall_app in Hok as [Hp [Hl _]%Forall_cons_1].
  rewrite join_with_snoc. apply (split_top_level_print cell_char); try done.
  - by intros c [? _]%andb_true_iff.
  - intros c rest [_ Hc%negb_true_iff]%andb_true_iff. cbn [starts_with lit String.list_ascii_of_string].
    by rewrite Ascii.eqb_sym, Hc.
  - intros c rest Hc Hb. cbn [starts_with lit String.list_ascii_of_string].
    destruct (Ascii.eqb_spec "&"%char c) as [<-|]; [by vm_compute in Hc|done].
  - cbn. lia.
Qed.
Lemma split_rows parts last : Forall (closed inert) parts → closed inert last →
  split_top_level (mjoin ((λ part, part ++ lit "\\") <$> parts) ++ last) (lit "\\") = parts ++ [last].
Proof.
  intros Hp Hl. apply (split_top_level_print inert); try done.
  - intros c rest Hc. cbn [starts_with lit String.list_ascii_of_string].
    destruct (Ascii.eqb_spec "\"%char c) as [<-|]; [by vm_compute in Hc|done].
  - intros c rest Hc. cbn [starts_with lit String.list_ascii_of_string].
    destruct (Ascii.eqb_spec "\"%char c) as [<-|]; [by vm_compute in Hc|done].
  - intros c rest Hc Hb. cbn [starts_with lit String.list_ascii_of_string].
    by destruct (Ascii.eqb_spec "\"%char c) as [<-|].
  - cbn. lia.
Qed.

Lemma omap_seq {A} (f : nat → option A) c n :
  omap f (seq c (S n)) = option_list (f c) ++ omap f (seq (S c) n).
Proof. cbn [seq]. change (omap ?f (?x :: ?l)) with (match f x with Some y => y :: omap f l | None => omap f l end). by destruct (f c). Qed.
Lemma option_list_some {A} (x : A) l : option_list (Some x) ++ l = x :: l.
Proof. done. Qed.
Lemma option_list_none {A} (l : list A) : option_list None ++ l = l.
Proof. done. Qed.

Section Wide.
Context (rows cols : nat) (cells : list SpanCell) (Htiling : tiling rows cols cells).
Context (Hwide : (2 ≤ cols)%nat).
Lemma row_slots_head r : (r < rows)%nat → ∃ raw, row_slots cells cols r = raw :: omap (slot cells r) (seq 1 (cols - 1)).
Proof using Htiling Hwide.
  intros Hr. unfold row_slots. assert (seq 0 cols = seq 0 (S (cols - 1))) as -> by (f_equal; lia). rewrite omap_seq.
  destruct (tl_cover _ _ _ Htiling r 0 Hr ltac:(lia)) as (cell & Hin & Hcov).
  assert (∃ raw, slot cells r 0 = Some raw) as [raw ->]; [|by exists raw].
  unfold slot. rewrite (owner_unique _ _ _ Htiling r 0 cell) by done.
  case_bool_decide; [|by eexists]. rewrite bool_decide_eq_true_2; [by eexists|]. unfold span_covers in Hcov. lia.
Qed.
(** With two columns or more no row is blank. *)
Lemma row_not_blank r : (r < rows)%nat → trim (row_latex cells cols r) ≠ [].
Proof using Htiling Hwide.
  intros Hr Hblank. rewrite trim_nil, Forall_forall in Hblank.
  destruct (row_slots_head r Hr) as (raw & E). unfold row_latex in Hblank. rewrite E in Hblank.
  destruct (omap (slot cells r) (seq 1 (cols - 1))) as [|next slots] eqn:Er.
  - destruct (tl_cover _ _ _ Htiling r 1 Hr ltac:(lia)) as (cell & Hin & Hcov).
    pose proof (owner_unique _ _ _ Htiling r 1 cell Hin Hcov) as Ho.
    replace (cols - 1)%nat with (S (cols - 2)) in Er by lia. rewrite omap_seq in Er. apply app_eq_nil in Er as [Er _].
    unfold slot in Er. rewrite Ho in Er. case_bool_decide as Hrow; [|done]. case_bool_decide as Hcol; [done|].
    unfold span_covers, sp_end_col in Hcov.
    assert (owner cells r 0 = Some cell) as Ho'.
    { apply (owner_unique _ _ _ Htiling); [done|]. unfold span_covers, sp_end_col. lia. }
    assert (raw = cell_latex cell) as ->.
    { unfold row_slots in E. assert (seq 0 cols = seq 0 (S (cols - 1))) as Hs by (f_equal; lia). rewrite Hs in E. rewrite omap_seq in E. unfold slot at 1 in E.
      rewrite Ho', !bool_decide_eq_true_2 in E by lia. by injection E. }
    specialize (Hblank "\"%char). apply (eq_true_false_abs (is_blank "\"%char)); [|done]. apply Hblank.
    unfold pad, cell_latex. rewrite bool_decide_eq_false_2 by lia. right. left.
  - specialize (Hblank "&"%char). apply (eq_true_false_abs (is_blank "&"%char)); [|done]. apply Hblank.
    rewrite !fmap_cons. cbn [join_with]. apply elem_of_app. right. left.
Qed.
End Wide.

Section Placing.
Context (rows cols : nat) (cells : list SpanCell) (Htiling : tiling rows cols cells).

(** The covering cell is the one of the tiling, once it is placed. *)
Lemma stored_order stored later i j a b :
  cells = omap id stored ++ later → stored !! i = Some (Some a) → stored !! j = Some (Some b) → (i < j)%nat → reads_before a b.
Proof using Htiling.
  intros E Hi Hj Hlt. rewrite <- (take_drop_middle stored j (Some b) Hj), omap_app, <- app_assoc in E.
  change (omap id (Some b :: ?l)) with (b :: omap id l) in E. cbn [app] in E.
  apply (read_before rows cols cells Htiling _ _ _ _ E). apply list_elem_of_omap. exists (Some a). split; [|done].
  apply list_elem_of_lookup. exists i. by rewrite lookup_take_lt.
Qed.
Lemma elem_of_stored (stored : list (option SpanCell)) (a : SpanCell) : a ∈ omap id stored ↔ ∃ i, stored !! i = Some (Some a).
Proof.
  rewrite list_elem_of_omap. split.
  - intros ([x|] & [i Hi]%list_elem_of_lookup & Hx); [|done]. injection Hx as ->. by exists i.
  - intros (i & Hi). exists (Some a). split; [|done]. apply list_elem_of_lookup. by exists i.
Qed.
Lemma covering_free stored owners later r c :
  cells = omap id stored ++ later → owners_ok stored owners → (∀ b, b ∈ omap id stored → ¬ span_covers b r c) →
  (∀ b, b ∈ omap id stored → (sp_row b ≤ r)%nat) → covering (stored_cell <$> stored) owners c r = None.
Proof.
  intros E Hok Hnot Hrow. unfold covering. specialize (Hok c). destruct (owners !! c) as [[i start]|]; [|done].
  destruct Hok as (cell & Hi & -> & Hc & _). cbn [mbind option_bind]. rewrite list_lookup_fmap, Hi. cbn [fmap option_fmap option_map stored_cell from_option mbind option_bind].
  assert (cell ∈ omap id stored) as Hin by (apply elem_of_stored; by exists i).
  rewrite bool_decide_eq_false_2; [done|]. intros Hlt. apply (Hnot cell Hin). specialize (Hrow cell Hin).
  cbn in Hlt. unfold span_covers, sp_end_row. split; [lia|apply Hc].
Qed.
Lemma covering_taken stored owners later r c b :
  cells = omap id stored ++ later → owners_ok stored owners → b ∈ omap id stored → span_covers b r c →
  (∀ b, b ∈ omap id stored → (sp_row b ≤ r)%nat) → is_Some (covering (stored_cell <$> stored) owners c r).
Proof using Htiling.
  intros E Hok (j & Hj)%elem_of_stored [Hbr Hbc] Hrow. unfold covering. specialize (Hok c). destruct (owners !! c) as [[i start]|].
  2: { by destruct (Hok j b Hj). }
  destruct Hok as (cell & Hi & -> & Hc & Hlast). cbn [mbind option_bind]. rewrite list_lookup_fmap, Hi. cbn [fmap option_fmap option_map stored_cell from_option mbind option_bind].
  assert (cell = b) as ->.
  { destruct (decide (i = j)) as [->|Hne]; [congruence|]. specialize (Hlast j b Hj Hbc).
    pose proof (stored_order stored later j i b cell E Hj Hi ltac:(lia)) as Hbefore.
    assert (∀ x k, stored !! k = Some (Some x) → x ∈ cells) as Hcells
      by (intros x k Hk; rewrite E; apply elem_of_app; left; apply elem_of_stored; by exists k).
    specialize (Hrow cell ltac:(apply elem_of_stored; by exists i)).
    destruct (cell_inside _ _ _ Htiling cell ltac:(by eapply Hcells)) as (? & ? & ? & ?).
    apply (tl_disjoint _ _ _ Htiling _ _ (sp_row cell) c); [by eapply Hcells|by eapply Hcells| |];
      unfold span_covers, in_column, reads_before, sp_end_row, sp_end_col in *; lia. }
  rewrite bool_decide_eq_true_2; [by eexists|]. cbn. unfold sp_end_row in Hbr. lia.
Qed.

(** Where the row's next cell would go: past the cell that reaches over the
    position from the left. *)
Definition resume (r c : nat) : nat :=
  match owner cells r c with
  | Some cell => if bool_decide (sp_row cell = r ∧ sp_col cell < c)%nat then sp_end_col cell else c
  | None => c
  end.
Lemma resume_0 r : resume r 0 = 0%nat.
Proof.
  unfold resume. destruct (owner cells r 0); [|done]. rewrite bool_decide_eq_false_2; [done|].
  by intros [_ ?%Nat.nlt_0_r].
Qed.
Lemma owner_outside r c : (cols ≤ c)%nat → owner cells r c = None.
Proof using Htiling.
  intros Hc. destruct (owner cells r c) as [cell|] eqn:E; [|done]. apply owner_covers in E as [Hin [_ Hcov]].
  apply (cell_inside _ _ _ Htiling) in Hin as (_ & _ & _ & ?). lia.
Qed.
Lemma resume_next r c cell : (r < rows)%nat → owner cells r c = Some cell →
  resume r (S c) = if bool_decide (sp_row cell = r) then sp_end_col cell else S c.
Proof using Htiling.
  intros Hr Ho. pose proof (owner_covers _ _ _ _ Ho) as [Hin [Hcr Hcc]]. unfold resume.
  destruct (decide (S c < sp_end_col cell)%nat) as [Hlt|Hge].
  - rewrite (owner_unique _ _ _ Htiling r (S c) cell) by (try done; unfold span_covers; lia).
    case_bool_decide as H1; case_bool_decide as H2; try done; exfalso; lia.
  - assert (sp_end_col cell = S c) as Hend by lia.
    assert (match owner cells r (S c) with
      | Some b => if bool_decide (sp_row b = r ∧ (sp_col b < S c)%nat) then sp_end_col b else S c | None => S c end = S c) as ->.
    { destruct (owner cells r (S c)) as [b|] eqn:Eb; [|done]. pose proof (owner_covers _ _ _ _ Eb) as [Hb [Hbr Hbc]].
      case_bool_decide as H1; [|done]. exfalso.
      assert (b = cell) as ->; [|lia].
      apply (tl_disjoint _ _ _ Htiling _ _ r c); try done; unfold span_covers; lia. }
    by case_bool_decide.
Qed.

Lemma covering_app stored owners x c r :
  owners_ok stored owners → covering ((stored_cell <$> stored) ++ [x]) owners c r = covering (stored_cell <$> stored) owners c r.
Proof.
  intros Hok. unfold covering. specialize (Hok c). destruct (owners !! c) as [[i start]|]; [|done].
  destruct Hok as (cell & Hi & _). cbn [mbind option_bind]. apply lookup_lt_Some in Hi. by rewrite lookup_app_l by (by rewrite length_fmap).
Qed.
(** What was placed before a cell is above it or left of it, and not over it. *)
Lemma placed_before stored cell later :
  cells = omap id stored ++ cell :: later →
  (∀ b, b ∈ omap id stored → ¬ span_covers b (sp_row cell) (sp_col cell)) ∧ (∀ b, b ∈ omap id stored → (sp_row b ≤ sp_row cell)%nat).
Proof using Htiling.
  intros E. split; intros b Hb; pose proof (read_before _ _ _ Htiling _ _ _ _ E Hb) as Hbefore;
    [|unfold reads_before in Hbefore; lia]. intros Hcov.
  assert (b ∈ cells ∧ cell ∈ cells) as [Hbin Hin] by (rewrite E; split; apply elem_of_app; [by left|right; by left]).
  destruct (cell_inside _ _ _ Htiling cell Hin) as (? & ? & _ & _).
  assert (b = cell) as ->; [|unfold reads_before in Hbefore; lia].
  apply (tl_disjoint _ _ _ Htiling _ _ (sp_row cell) (sp_col cell)); try done. unfold span_covers, sp_end_row, sp_end_col. lia.
Qed.

Context (Hplain : Forall plain_latex cells) (Hcols : (cols ≤ kMaxLatexColumns)%nat) (Hrows : (rows ≤ kMaxLatexColumns)%nat).

(** A cell of the table where the last one left off. *)
Lemma place_cell stored owners idx cell later :
  cells = omap id stored ++ cell :: later → owners_ok stored owners →
  place_latex_cell (sp_row cell) (mk_LatexRow (sp_col cell) idx (stored_cell <$> stored) owners) (pad (cell_latex cell)) =
  Some (mk_LatexRow (sp_end_col cell) (idx ++ [length stored]) (stored_cell <$> (stored ++ [Some cell]))
    (foldl (λ owners c, <[c := (length stored, sp_row cell)]> owners) owners (seq (sp_col cell) (sp_col_span cell)))).
Proof using Htiling Hplain Hcols Hrows.
  intros E Hok. assert (cell ∈ cells) as Hin by (rewrite E; apply elem_of_app; right; by left).
  destruct (cell_inside _ _ _ Htiling cell Hin) as (Hr1 & Hc1 & Hr2 & Hc2). unfold sp_end_row, sp_end_col in Hr2, Hc2.
  rewrite Forall_forall in Hplain. unfold place_latex_cell.
  rewrite (parse_cell cell); [|by apply Hplain|by right|lia|lia].
  rewrite length_fmap, fmap_app. change (stored_cell <$> [Some cell]) with [of_cell cell].
  rewrite covering_app, (covering_free _ _ _ _ _ E Hok) by (done || apply (placed_before _ _ _ E)).
  rewrite bool_decide_eq_false_2 by (cbn; lia). done.
Qed.
(** An empty place below a cell. *)
Lemma place_empty stored owners idx later r c b :
  cells = omap id stored ++ later → owners_ok stored owners → b ∈ omap id stored → span_covers b r c →
  (∀ b, b ∈ omap id stored → (sp_row b ≤ r)%nat) →
  place_latex_cell r (mk_LatexRow c idx (stored_cell <$> stored) owners) (pad []) =
  Some (mk_LatexRow (S c) idx (stored_cell <$> (stored ++ [None])) owners).
Proof using Htiling.
  intros E Hok Hb Hcov Hrow. unfold place_latex_cell. rewrite parse_empty, fmap_app.
  change (stored_cell <$> [None]) with [mk_LatexCell [] 1 1 false]. rewrite covering_app by done.
  destruct (covering_taken _ _ _ _ _ _ E Hok Hb Hcov Hrow) as ([owner start] & ->). cbn [lc_text lc_col_span].
  rewrite bool_decide_eq_true_2 by done. by rewrite Nat.add_1_r.
Qed.

(** One row, position by position. *)
Abbreviation row_from r c n := (omap (anchored cells r) (seq c n)).
Definition shows (stored : list (option SpanCell)) (idx : list nat) (row : list SpanCell) : Prop :=
  ∀ more, (λ i, (stored ++ more) !! i) <$> idx = (λ cell, Some (Some cell)) <$> row.
Lemma shows_app stored more idx row : shows stored idx row → shows (stored ++ more) idx row.
Proof. intros Hs more'. rewrite <- app_assoc. apply Hs. Qed.
Lemma slots_placed r n : (r < rows)%nat → ∀ c stored owners idx later,
  (c + n = cols)%nat → cells = omap id stored ++ row_from r c n ++ later → owners_ok stored owners →
  (∀ b, b ∈ omap id stored → (sp_row b ≤ r)%nat) → (∀ b, b ∈ later → (r < sp_row b)%nat) →
  ∃ stored' owners' idx',
    foldM (place_latex_cell r) (mk_LatexRow (resume r c) idx (stored_cell <$> stored) owners) (pad <$> omap (slot cells r) (seq c n)) =
    Some (mk_LatexRow (resume r cols) (idx ++ idx') (stored_cell <$> (stored ++ stored')) owners') ∧
    omap id stored' = row_from r c n ∧ owners_ok (stored ++ stored') owners' ∧ shows (stored ++ stored') idx' (row_from r c n).
Proof using Htiling Hplain Hcols Hrows.
  intros Hr. induction n as [|n IH]; intros c stored owners idx later Hc E Hok Hrow Hlater.
  { exists [], owners, []. rewrite !app_nil_r. replace c with cols by lia. split_and!; try done. }
  destruct (tl_cover _ _ _ Htiling r c Hr ltac:(lia)) as (cell & Hin & Hcov).
  pose proof (owner_unique _ _ _ Htiling _ _ _ Hin Hcov) as Ho. pose proof (resume_next r c cell Hr Ho) as Hnext.
  rewrite omap_seq in E. rewrite !omap_seq.
  destruct (decide (sp_row cell = r)) as [Er|Er]; [destruct (decide (sp_col cell = c)) as [Ec|Ec]|].
  - (* the cell starts here *)
    assert (anchored cells r c = Some cell ∧ slot cells r c = Some (cell_latex cell)) as [Ha ->]
      by (unfold anchored, slot; by rewrite Ho, !bool_decide_eq_true_2).
    rewrite Ha in E |- *. rewrite bool_decide_eq_true_2 in Hnext by done.
    rewrite option_list_some in E. rewrite !option_list_some, fmap_cons. cbn [foldM].
    assert (resume r c = sp_col cell) as -> by (unfold resume; rewrite Ho, bool_decide_eq_false_2; [done|lia]).
    pose proof (place_cell stored owners idx cell _ E Hok) as Hplace. rewrite Er in Hplace at 1. rewrite Hplace. cbn [mbind option_bind].
    set (owners1 := foldl _ owners _).
    destruct (IH (S c) (stored ++ [Some cell]) owners1 (idx ++ [length stored]) later) as (st & ow & ix & Hf & Hst & How & Hsh).
    + lia.
    + by rewrite omap_app, <- app_assoc.
    + by apply owners_ok_cell.
    + intros b. rewrite omap_app, elem_of_app. intros [?|Hb]; [by apply Hrow|]. apply list_elem_of_singleton in Hb as ->. lia.
    + done.
    + exists (Some cell :: st), ow, (length stored :: ix). rewrite Hnext in Hf. rewrite Hf, <- !app_assoc. rewrite <- app_assoc in How, Hsh.
      split_and!; [done|by rewrite <- Hst|done|].
      intros more. rewrite !fmap_cons, Hsh. f_equal. by rewrite <- !app_assoc, lookup_app_r, Nat.sub_diag by lia.
  - (* it reaches here from the left *)
    assert (anchored cells r c = None ∧ slot cells r c = None) as [Ha ->].
    { unfold anchored, slot. rewrite Ho, (bool_decide_eq_true_2 (sp_row cell = r)), (bool_decide_eq_false_2 (sp_col cell = c)) by done.
      rewrite bool_decide_eq_false_2; [done|]. by intros []. }
    rewrite Ha in E |- *. rewrite bool_decide_eq_true_2 in Hnext by done.
    rewrite option_list_none in E. rewrite !option_list_none.
    assert (resume r c = resume r (S c)) as ->.
    { rewrite Hnext. unfold resume. rewrite Ho, bool_decide_eq_true_2; [done|]. unfold span_covers in Hcov. lia. }
    by apply IH with (later := later); try done; lia.
  - (* it reaches here from above *)
    assert (anchored cells r c = None ∧ slot cells r c = Some []) as [Ha ->].
    { unfold anchored, slot. rewrite Ho, (bool_decide_eq_false_2 (sp_row cell = r)), bool_decide_eq_false_2; [done| |done]. by intros []. }
    rewrite Ha in E |- *. rewrite bool_decide_eq_false_2 in Hnext by done.
    rewrite option_list_none in E. rewrite option_list_some, !option_list_none, fmap_cons. cbn [foldM].
    assert (resume r c = c) as -> by (unfold resume; rewrite Ho, bool_decide_eq_false_2; [done|tauto]).
    assert (cell ∈ omap id stored) as Hplaced.
    { rewrite E in Hin. rewrite !elem_of_app in Hin. destruct Hin as [?|[Hin|Hin]]; [done| |].
      - by apply elem_of_row in Hin as (_ & ? & _).
      - specialize (Hlater _ Hin). unfold span_covers in Hcov. lia. }
    rewrite (place_empty stored owners idx _ r c cell E Hok Hplaced Hcov Hrow). cbn [mbind option_bind].
    destruct (IH (S c) (stored ++ [None]) owners idx later) as (st & ow & ix & Hf & Hst & How & Hsh).
    + lia.
    + by rewrite omap_app, app_nil_r.
    + by apply owners_ok_empty.
    + intros b. rewrite omap_app, app_nil_r. apply Hrow.
    + done.
    + exists (None :: st), ow, ix. rewrite Hnext in Hf. rewrite Hf, <- !app_assoc. rewrite <- app_assoc in How, Hsh. by split_and!.
Qed.

Lemma shows_cells stored idx row : shows stored idx row → omap (λ i, (stored_cell <$> stored) !! i) idx = of_cell <$> row.
Proof.
  intros Hs. specialize (Hs []). revert row Hs. induction idx as [|i idx IH]; intros [|cell row] Hs; try done.
  rewrite !fmap_cons in Hs. injection Hs as Hi Hs. rewrite app_nil_r in Hi. rewrite fmap_cons, <- (IH row Hs).
  change (omap ?f (?x :: ?l)) with (match f x with Some y => y :: omap f l | None => omap f l end).
  cbv beta. by rewrite list_lookup_fmap, Hi.
Qed.

Lemma slot_closed r c raw : slot cells r c = Some raw → closed cell_char raw.
Proof using Hplain.
  unfold slot. destruct (owner cells r c) as [cell|] eqn:E; [|done]. apply owner_covers in E as [Hin _].
  case_bool_decide; [case_bool_decide; [|done]|]; intros [= <-]; [|constructor].
  rewrite Forall_forall in Hplain. by apply closed_cell, Hplain.
Qed.
Lemma pads_closed r c n : Forall (closed cell_char) (pad <$> omap (slot cells r) (seq c n)).
Proof using Hplain.
  apply Forall_fmap, Forall_forall. intros raw (c' & _ & Hs)%list_elem_of_omap. unfold pad.
  assert (closed cell_char (lit " ")) as Hspace by (by apply closed_chars; repeat constructor).
  apply closed_app; [done|]. apply closed_app; [by eapply slot_closed|done].
Qed.
Lemma row_closed r : closed inert (row_latex cells cols r).
Proof using Hplain.
  unfold row_latex, row_slots. pose proof (pads_closed r 0 cols) as Hall. revert Hall. generalize (pad <$> omap (slot cells r) (seq 0 cols)).
  intros slots. induction 1 as [|x slots Hx%inert_closed _ IH]; [constructor|]. cbn [join_with]. destruct slots; [done|].
  apply closed_app; [done|]. apply closed_app; [by apply closed_chars; repeat constructor|done].
Qed.

(** ** Rows *)

Context (Hwide : (2 ≤ cols)%nat).
Lemma row_parts r : (r < rows)%nat → split_top_level (row_latex cells cols r) (lit "&") = pad <$> row_slots cells cols r.
Proof using Htiling Hwide Hplain.
  intros Hr. apply split_amp; [|apply pads_closed]. by destruct (row_slots_head _ _ _ Htiling Hwide r Hr) as (raw & ->).
Qed.

Lemma place_row_eq grid storage owners r text :
  place_latex_row (grid, storage, owners) (r, text) =
  s ← foldM (place_latex_cell r) (mk_LatexRow 0 [] storage owners) (split_top_level text (lit "&"));
  Some (grid ++ [lr_cells s], lr_storage s, lr_owners s).
Proof. done. Qed.
Lemma rows_placed n : ∀ r stored owners grid,
  (r + n = rows)%nat → cells = omap id stored ++ mjoin (row_at cells cols <$> seq r n) → owners_ok stored owners →
  (∀ b, b ∈ omap id stored → (sp_row b ≤ r)%nat) →
  ∃ stored' owners' grid',
    foldM place_latex_row (grid, stored_cell <$> stored, owners) (zip (seq r n) (row_latex cells cols <$> seq r n)) =
    Some (grid ++ grid', stored_cell <$> (stored ++ stored'), owners') ∧
    Forall2 (shows (stored ++ stored')) grid' (row_at cells cols <$> seq r n).
Proof using Htiling Hplain Hcols Hrows Hwide.
  induction n as [|n IH]; intros r stored owners grid Hn E Hok Hrow.
  { exists [], owners, []. rewrite !app_nil_r. split; [done|constructor]. }
  change (seq r (S n)) with (r :: seq (S r) n) in E |- *. rewrite fmap_cons in E. rewrite !fmap_cons.
  change (mjoin (?x :: ?xs)) with (x ++ mjoin xs) in E.
  change (zip (r :: ?a) (?x :: ?b)) with ((r, x) :: zip a b). cbn [foldM].
  rewrite place_row_eq, row_parts by lia.
  destruct (slots_placed r cols ltac:(lia) 0 stored owners [] (mjoin (row_at cells cols <$> seq (S r) n)))
    as (st & ow & ix & Hf & Hst & How & Hsh); [lia|done|done|done| |].
  { intros b Hb. apply elem_of_rows in Hb as [_ ?]. lia. }
  rewrite resume_0 in Hf. unfold row_slots. rewrite Hf. cbn [mbind option_bind lr_cells lr_storage lr_owners app].
  destruct (IH (S r) (stored ++ st) ow (grid ++ [ix])) as (st' & ow' & grid' & Hf' & Hsh').
  - lia.
  - by rewrite omap_app, Hst, <- app_assoc.
  - done.
  - intros b. rewrite omap_app, elem_of_app, Hst. intros [Hb|Hb]; [specialize (Hrow b Hb); lia|].
    apply elem_of_row in Hb as (_ & <- & _). lia.
  - exists (st ++ st'), ow', (ix :: grid'). rewrite app_assoc. split; [by rewrite Hf', <- app_assoc|].
    constructor; [by apply shows_app|done].
Qed.
End Placing.

(** * The tabular's body *)

Definition kEnd : bytes := lit "\end{tabular}".
(** No end begins in the text, whatever follows; [quiet_before]: whatever follows
    but an 'e'. *)
Definition quiet (s : bytes) : Prop := ∀ rest k, (k < length s)%nat → starts_with kEnd (drop k (s ++ rest)) = false.
Definition quiet_before (s : bytes) : Prop :=
  ∀ rest k, head rest ≠ Some "e"%char → (k < length s)%nat → starts_with kEnd (drop k (s ++ rest)) = false.
Lemma not_end c s : c ≠ "\"%char → starts_with kEnd (c :: s) = false.
Proof. intros Hc. cbn [kEnd starts_with lit String.list_ascii_of_string]. destruct (Ascii.eqb_spec "\"%char c) as [<-|]; [contradiction|done]. Qed.
Lemma not_end_command c s : c ≠ "e"%char → starts_with kEnd ("\"%char :: c :: s) = false.
Proof.
  intros Hc. cbn [kEnd starts_with lit String.list_ascii_of_string]. change ("\"%char =c "\"%char) with true. cbn [andb].
  destruct (Ascii.eqb_spec "e"%char c) as [<-|]; [contradiction|done].
Qed.
Lemma quiet_cons c s : c ≠ "\"%char → quiet s → quiet (c :: s).
Proof. intros Hc Hs rest [|k] Hk; [by apply not_end|]. apply Hs. cbn in Hk. lia. Qed.
Lemma quiet_app a b : quiet a → quiet b → quiet (a ++ b).
Proof.
  intros Ha Hb rest k Hk. rewrite length_app in Hk. rewrite <- app_assoc. destruct (decide (k < length a)%nat); [by apply Ha|].
  rewrite drop_app_ge by lia. apply Hb. lia.
Qed.
Lemma quiet_closed s : closed inert s → quiet s.
Proof.
  induction 1 as [|c s Hc _ IH|c s Hc _ IH|a s _ IHa _ IHs].
  - intros rest k Hk. cbn in Hk. lia.
  - apply quiet_cons; [|done]. intros ->. by vm_compute in Hc.
  - intros rest [|k] Hk.
    + apply not_end_command. intros ->. by vm_compute in Hc.
    + apply (quiet_cons c s) with (k := k); [|done|cbn in *; lia]. intros ->. by vm_compute in Hc.
  - apply quiet_cons; [done|]. apply quiet_app; [done|]. by apply quiet_cons.
Qed.
Lemma quiet_row row : quiet row → quiet_before (row ++ lit "\\").
Proof.
  intros Hrow rest k Hrest Hk. rewrite length_app in Hk. rewrite <- app_assoc.
  destruct (decide (k < length row)%nat); [by apply Hrow|]. rewrite drop_app_ge by lia.
  destruct (k - length row)%nat as [|[|j]] eqn:E; [by apply not_end_command| |cbn in Hk; lia].
  cbn [lit String.list_ascii_of_string app drop]. destruct rest as [|c rest]; [done|]. apply not_end_command. intros ->. by apply Hrest.
Qed.
Lemma quiet_rows rows :
  Forall (λ row, quiet row ∧ head row = Some " "%char) rows → quiet_before (mjoin ((λ row, row ++ lit "\\") <$> rows)).
Proof.
  induction 1 as [|row rows [Hq Hh] Hall IH]; intros rest k Hrest Hk; [cbn in Hk; lia|].
  rewrite fmap_cons in Hk |- *. change (mjoin (?x :: ?xs)) with (x ++ mjoin xs) in Hk |- *. rewrite length_app in Hk.
  rewrite <- app_assoc. destruct (decide (k < length (row ++ lit "\\"))%nat) as [Hlt|Hge].
  - apply quiet_row; [done| |done]. destruct Hall as [|row' rows [_ Hh'] _]; [done|].
    rewrite fmap_cons. change (mjoin (?x :: ?xs)) with (x ++ mjoin xs). destruct row' as [|c row']; [done|]. by injection Hh' as ->.
  - rewrite drop_app_ge by lia. apply IH; [done|lia].
Qed.
Lemma find_first_hit needle pre rest :
  needle ≠ [] → (∀ k, (k < length pre)%nat → starts_with needle (drop k (pre ++ needle ++ rest)) = false) →
  find needle (pre ++ needle ++ rest) 0 = Some (length pre).
Proof.
  intros Hne Hq. apply find_if_intro.
  - rewrite !length_app. destruct needle; [done|]. cbn. lia.
  - rewrite drop_app_length. apply starts_with_app. by exists rest.
  - intros k Hk. apply Hq. lia.
Qed.

Section Whole.
Context (rows cols : nat) (cells : list SpanCell) (Htiling : tiling rows cols cells).
Context (Hplain : Forall plain_latex cells) (Hcols : (2 ≤ cols)%nat).

Lemma row_head r : (r < rows)%nat → head (row_latex cells cols r) = Some " "%char.
Proof using Htiling Hcols.
  intros Hr. unfold row_latex. destruct (row_slots_head _ _ _ Htiling ltac:(lia) r Hr) as (raw & ->).
  rewrite fmap_cons. by destruct (pad <$> _).
Qed.
Lemma tabular_body_print :
  tabular_body (tabular cells rows cols) = mjoin ((λ row, row ++ lit "\\") <$> (row_latex cells cols <$> seq 0 rows)).
Proof using Htiling Hcols Hplain.
  set (body := mjoin ((λ row, row ++ lit "\\") <$> (row_latex cells cols <$> seq 0 rows))).
  assert (tabular cells rows cols = lit "\begin{tabular}" ++ braces (replicate cols "l"%char) ++ body ++ kEnd) as ->.
  { unfold tabular, body. by rewrite <- list_fmap_compose. }
  unfold tabular_body.
  assert (find (lit "\begin{tabular}") (lit "\begin{tabular}" ++ braces (replicate cols "l"%char) ++ body ++ kEnd) 0 = Some 0%nat) as ->.
  { apply (find_first_hit _ []); [done|]. intros k Hk. cbn in Hk. lia. }
  cbv beta iota zeta. change (drop (0 + 15) (lit "\begin{tabular}" ++ ?s)) with s.
  assert (closed inert (replicate cols "l"%char)) as Hl by (apply closed_chars, Forall_replicate; done).
  rewrite (read_group_closed _ 0 _ (body ++ kEnd) Hl), Nat.add_0_l, !drop_app_length by done. fold kEnd.
  pose proof (find_first_hit kEnd body []) as Hfind. rewrite app_nil_r in Hfind.
  rewrite Hfind; [by rewrite take_app_length|done|].
  intros k Hk. apply quiet_rows; [|done|done]. apply Forall_fmap, Forall_forall. intros r Hr%elem_of_seq. split.
  - by apply quiet_closed, row_closed.
  - apply row_head. lia.
Qed.
Lemma latex_rows_print : latex_rows (tabular cells rows cols) = row_latex cells cols <$> seq 0 rows.
Proof using Htiling Hcols Hplain.
  unfold latex_rows. rewrite tabular_body_print, <- (app_nil_r (mjoin _)), split_rows; [|apply Forall_fmap, Forall_true; intros; by apply row_closed|constructor].
  rewrite filter_app, filter_cons_False, filter_nil, app_nil_r by (intros Hn; by apply Hn).
  apply filter_Forall, Forall_fmap, Forall_forall. intros r Hr%elem_of_seq.
  apply (row_not_blank _ _ _ Htiling); lia.
Qed.
End Whole.

(** * The table's HTML *)

Lemma escape_plain_markup text : Forall (λ c, plain_char c = true) text → escape text = text.
Proof.
  induction 1 as [|c text Hc _ IH]; [done|]. change (escape (c :: text)) with (escape_char c ++ escape text). rewrite IH.
  unfold plain_char, contains_char in Hc. cbn [lit String.list_ascii_of_string existsb] in Hc. unfold escape_char.
  repeat match goal with |- context [Ascii.eqb c ?d] => destruct (Ascii.eqb_spec c d) as [->|]; [by vm_compute in Hc|] end. done.
Qed.
Lemma escape_span n : escape (to_string (Z.of_nat n)) = to_string (Z.of_nat n).
Proof.
  apply escape_plain_markup. destruct (to_string_digits (Z.of_nat n)) as (Hall & _ & _); [lia|].
  eapply Forall_impl; [exact Hall|]. intros c Hc. by apply digit_plain.
Qed.
Lemma print_nodes_join nodes : print_nodes nodes = mjoin (print_node <$> nodes).
Proof.
  induction nodes as [|node nodes IH]; [done|]. rewrite fmap_cons.
  change (print_nodes (node :: nodes)) with (print_node node ++ print_nodes nodes). by rewrite IH.
Qed.
Lemma cell_html cell : plain_latex cell → latex_cell_html (of_cell cell) = print_node (td_node cell).
Proof.
  intros [Htext Hhead Hscope]. unfold td_node, scope_attrs, in_head. rewrite Hscope.
  rewrite print_node_element by (by repeat case_match).
  assert (print_nodes (text_nodes (sp_text cell)) = sp_text cell) as ->.
  { unfold text_nodes. case_bool_decide as E; [by rewrite E|]. change (print_nodes [text_node (sp_text cell)]) with (escape (sp_text cell) ++ []).
    rewrite app_nil_r. apply escape_plain_markup, Htext. }
  unfold latex_cell_html, of_cell. cbn [lc_header lc_text lc_row_span lc_col_span]. rewrite (pt_inline _ Htext).
  unfold print_open, print_close, print_attr, span_attr.
  destruct (sp_column_header cell); cbn [andb]; [rewrite Hhead, bool_decide_eq_true_2 by done|];
    cbn [app fmap list_fmap mjoin list_join fst snd]; rewrite !escape_span;
    generalize (to_string (Z.of_nat (sp_row_span cell))), (to_string (Z.of_nat (sp_col_span cell))); intros rs cs;
    repeat (progress (rewrite <- ?app_assoc; cbn [lit String.list_ascii_of_string app])); reflexivity.
Qed.
Lemma row_html stored idx row :
  Forall plain_latex row → shows stored idx row → latex_row_html (stored_cell <$> stored) idx = print_node (tr_node row).
Proof.
  intros Hp Hs. unfold latex_row_html. rewrite (shows_cells _ _ _ Hs). unfold tr_node. rewrite print_node_element by done.
  rewrite print_nodes_join, <- !list_fmap_compose.
  assert (latex_cell_html ∘ of_cell <$> row = print_node ∘ td_node <$> row) as ->; [|done].
  apply list_fmap_ext. intros i cell Hi. rewrite Forall_lookup in Hp. by apply cell_html, (Hp i).
Qed.
Lemma grid_html stored grid rows :
  Forall (Forall plain_latex) rows → Forall2 (shows stored) grid rows →
  mjoin (latex_row_html (stored_cell <$> stored) <$> grid) = print_nodes (tr_node <$> rows).
Proof.
  intros Hp Hs. induction Hs as [|idx row grid rows Hrow _ IH]; [done|]. apply Forall_cons_1 in Hp as [Hr Hp].
  rewrite !fmap_cons. change (mjoin (?x :: ?xs)) with (x ++ mjoin xs). rewrite (row_html _ _ _ Hr Hrow), IH by done. done.
Qed.
Lemma latex_html cells rows cols :
  (rows ≤ kMaxLatexColumns)%nat → (2 ≤ cols ≤ kMaxLatexColumns)%nat → tiling rows cols cells → Forall plain_latex cells →
  latex_tabular_to_html (tabular cells rows cols) = Some (print_node (html_table cells rows cols)).
Proof.
  intros Hr Hc Ht Hp. unfold latex_tabular_to_html. rewrite (latex_rows_print rows cols cells Ht Hp) by lia.
  rewrite length_fmap, length_seq.
  destruct (rows_placed rows cols cells Ht Hp ltac:(lia) ltac:(lia) ltac:(lia) rows 0 [] ∅ []) as (stored & owners & grid & Hf & Hs).
  - done.
  - symmetry. by apply reading_cells.
  - intros c. rewrite lookup_empty. intros i cell Hi. by rewrite lookup_nil in Hi.
  - by intros b ?%elem_of_nil.
  - cbn [app fmap list_fmap] in Hf, Hs. rewrite Hf. cbn [mbind option_bind]. unfold html_table. rewrite print_node_element by done.
    rewrite (list_fmap_compose (row_at cells cols) tr_node).
    rewrite (grid_html stored grid (row_at cells cols <$> seq 0 rows)); [done| |done].
    apply Forall_fmap, Forall_forall. intros r _. apply Forall_forall. intros cell (Hin & _)%elem_of_row.
    rewrite Forall_forall in Hp. by apply Hp.
Qed.
Lemma plain_latex_td cell : plain_latex cell → plain_td cell.
Proof. intros [Htext _ Hscope]. split; [apply Htext|]. by rewrite Hscope, andb_false_r. Qed.

(** * Properties *)

(** C23: A LaTeX table of two columns or more reads back as it was written: for any
    exact tiling of a grid (of 2 to 1000 columns and 1 to 1000 rows) by cells with
    row and column spans, header cells in its first row and plain texts, the
    tabular that prints it with \multicolumn, \multirow and \thead, empty places
    below the spans, is rewritten as exactly its HTML table, no cell lost, moved or
    split; and the handler of a Nemotron page's table block, given that text, adds
    one table item at the block's box, whose data is those cells laid out.  (In a
    table of one column the code drops the rows that are blank.) *)
Theorem latex_table_roundtrip `{ProtobufSize} `{Stb} page cells rows cols box parent w :
  (0 < rows ≤ kMaxLatexColumns)%nat → (2 ≤ cols ≤ kMaxLatexColumns)%nat → tiling rows cols cells →
  Forall plain_latex cells →
  latex_tabular_to_html (tabular cells rows cols) = Some (print_node (html_table cells rows cols)) ∧
  ∃ ws, latex_table page (tabular cells rows cols) box parent w =
    let '(item, w) := table page (Some box) [] parent w in
    Some (on_table (set_ti_data (Some (fill_span_table cells).1)) item (set_warnings ws w)).
Proof.
  intros Hr Hc Ht Hp. assert (latex_tabular_to_html (tabular cells rows cols) = Some (print_node (html_table cells rows cols))) as Hhtml
    by (apply latex_html; [lia|done..]).
  split; [done|]. assert (kMaxLatexColumns ≤ kColumnLimit)%nat by (by apply (bool_decide_unpack _); vm_compute).
  assert (Z.of_nat kMaxLatexColumns <= 2 ^ 30) by (by vm_compute).
  destruct (add_html_table_print page cells rows cols (Some box) parent w) as (ws & ref & Hadd); try done; try lia.
  { eapply Forall_impl; [exact Hp|]. apply plain_latex_td. }
  exists ws. unfold latex_table. rewrite Hhtml. unfold table_or_empty. rewrite Hadd. by destruct (table page (Some box) [] parent w).
Qed.

(** ** Witness *)

Definition toy_latex : list SpanCell :=
  [mk_SpanCell 0 0 1 2 (lit "a b") true false None; mk_SpanCell 0 2 2 1 (lit "c") false false None;
   mk_SpanCell 1 0 1 1 [] false false None; mk_SpanCell 1 1 1 1 (lit "d") false false None].
Lemma toy_latex_tiles : tiling 2 3 toy_latex.
Proof. tiles. Qed.
Lemma toy_latex_plain : Forall plain_latex toy_latex.
Proof.
  assert (plain_text (lit "a b") ∧ plain_text (lit "c") ∧ plain_text [] ∧ plain_text (lit "d")) as (? & ? & ? & ?).
  { split_and!; (split; [by apply (bool_decide_unpack _); vm_compute|by vm_compute..]). }
  by repeat constructor.
Qed.
Lemma latex_table_roundtrip_witness :
  latex_tabular_to_html (lit "\begin{tabular}{lll} \multicolumn{2}{c}{\thead{a b}} & \multirow{2}{*}{c} \\  & d &  \\\end{tabular}") =
  Some (print_node (html_table toy_latex 2 3)) ∧
  ∃ w, @latex_table toy_size toy_stb toy_page (tabular toy_latex 2 3) (mk_BoundingBox dzero dzero dzero dzero COORD_ORIGIN_TOPLEFT)
    None (LayoutWriter_new toy_page Document_empty None) = Some w.
Proof.
  destruct (@latex_table_roundtrip toy_size toy_stb toy_page toy_latex 2 3 (mk_BoundingBox dzero dzero dzero dzero COORD_ORIGIN_TOPLEFT)
    None (LayoutWriter_new toy_page Document_empty None)) as (Hhtml & ws & Hpage).
  - split; [lia|]. by apply (bool_decide_unpack _); vm_compute.
  - split; [lia|]. by apply (bool_decide_unpack _); vm_compute.
  - apply toy_latex_tiles.
  - apply toy_latex_plain.
  - split; [exact Hhtml|]. rewrite Hpage. by eexists.
Defined.
