(* ===== verification/DoclangText.v ===== *)
(** DocLang elements (the pure half of src/mapping/doclang.cpp): the head of an
    element, its texts, the cells of an OTSL table and the fragment of a response
    that is read.  What is proved: the search of a fragment ends. *)
From S2P Require Import Prelude Numbers Double Proto ImageCrop Builder OtslGrid MarkupTree LayoutText.

Definition kHeadTags : list bytes := lit <$>
  ["location"; "layer"; "label"; "thread"; "custom"; "hour"; "minute"; "second"; "centisecond"]%string.
Definition kFormatTags : list bytes := lit <$>
  ["bold"; "italic"; "underline"; "strikethrough"; "subscript"; "superscript"]%string.
Definition kOtslTokens : list bytes := lit <$>
  ["fcel"; "ecel"; "lcel"; "ucel"; "xcel"; "nl"; "ched"; "rhed"; "srow"; "corn"]%string.
Definition blank (text : bytes) : bool :=
  forallb (λ c, (c =c " "%char) || (c =c c_tab) || (c =c c_cr) || (c =c c_nl)) text.
(** A whole text that is an [int]. *)
Definition parse_int (text : bytes) : option Z :=
  match from_chars_ll (trim text) with
  | Some (value, []) => in_width int32_min int32_max value
  | _ => None
  end.
Definition merge_format (tag : bytes) (f : Formatting) : Formatting :=
  let '(mk_Formatting bold italic underline strikethrough script) := f in
  if tag =b lit "bold" then mk_Formatting true italic underline strikethrough script
  else if tag =b lit "italic" then mk_Formatting bold true underline strikethrough script
  else if tag =b lit "underline" then mk_Formatting bold italic true strikethrough script
  else if tag =b lit "strikethrough" then mk_Formatting bold italic underline true script
  else if tag =b lit "subscript" then mk_Formatting bold italic underline strikethrough SCRIPT_SUB
  else if tag =b lit "superscript" then mk_Formatting bold italic underline strikethrough SCRIPT_SUPER
  else f.
Definition layer_of (value : bytes) : option ContentLayer :=
  if value =b lit "body" then Some CONTENT_LAYER_BODY
  else if value =b lit "furniture" then Some CONTENT_LAYER_FURNITURE
  else if value =b lit "background" then Some CONTENT_LAYER_BACKGROUND
  else if value =b lit "invisible" then Some CONTENT_LAYER_INVISIBLE
  else if value =b lit "notes" then Some CONTENT_LAYER_NOTES
  else None.

(** * Element heads *)

Definition blank_text (node : MarkupNode) : bool := is_text node && blank (nd_text node).
Definition head_element (node : MarkupNode) : bool := negb (is_text node) && contains kHeadTags (nd_tag node).
(** The head elements an element begins with. *)
Fixpoint head_of (nodes : list MarkupNode) : list MarkupNode :=
  match nodes with
  | [] => []
  | node :: nodes =>
      if blank_text node then head_of nodes
      else if head_element node then node :: head_of nodes
      else []
  end.
Definition head_nodes (el : MarkupNode) : list MarkupNode := head_of (nd_children el).
(** What follows the head. *)
Fixpoint skip_head (nodes : list MarkupNode) : list MarkupNode :=
  match nodes with
  | [] => []
  | node :: rest => if blank_text node || head_element node then skip_head rest else nodes
  end.
Definition body_nodes (el : MarkupNode) : list MarkupNode := skip_head (nd_children el).

(** The grid of the locations: [res_w_], [res_h_] and [res_]. *)
Record Resolution := mk_Resolution { re_w : Z; re_h : Z; re_both : Z }.
Definition set_resolution (root : MarkupNode) : Resolution :=
  let default_res := mk_Resolution 512 512 512 in
  match find_element (lit "default_resolution") root with
  | None => default_res
  | Some res =>
      match parse_int (attr res (lit "width") (lit "0")), parse_int (attr res (lit "height") (lit "0")) with
      | Some width, Some height =>
          mk_Resolution (if 0 <? width then width else 512) (if 0 <? height then height else 512)
            (if 0 <? width then width else 512)
      | _, _ => default_res
      end
  end.

(** The first four locations of a run of nodes and the resolution in force at
    the fourth. *)
Fixpoint quartet (res : Resolution) (nodes : list MarkupNode) (values : list Z) (res_x res_y : Z)
  : option (Z * Z * Z * Z * Z * Z) :=
  match nodes with
  | [] => None
  | node :: nodes =>
      if negb (is_element (lit "location") node) then quartet res nodes values res_x res_y else
      let values := values ++ [default 0 (parse_int (attr node (lit "value") (lit "0")))] in
      let '(res_x, res_y) :=
        if has_attr node (lit "resolution") then
          let r := default (re_both res) (parse_int (attr node (lit "resolution") [])) in (r, r)
        else (res_x, res_y) in
      match values with
      | [a; b; c; d] => Some (a, b, c, d, res_x, res_y)
      | _ => quartet res nodes values res_x res_y
      end
  end.

Definition head_layer (el : MarkupNode) : option ContentLayer :=
  node ← head (filter (λ node, nd_tag node = lit "layer") (head_nodes el));
  layer_of (attr node (lit "value") []).
Definition head_label (el : MarkupNode) : bytes :=
  match head (filter (λ node, nd_tag node = lit "label") (head_nodes el)) with
  | Some node => attr node (lit "value") []
  | None => []
  end.

(** * Texts *)

(** The text of a child: inside <content> it keeps its blanks. *)
Definition own_text (tag text : bytes) : bytes := if tag =b lit "content" then text else trim text.
Fixpoint get_text (el : MarkupNode) : bytes :=
  match el with
  | mk_MarkupNode tag _ _ children =>
      foldr (λ child out,
          (if is_text child then if blank (nd_text child) then [] else own_text tag (nd_text child)
           else if (nd_tag child =b lit "location") || (nd_tag child =b lit "custom") then []
           else if nd_tag child =b lit "br" then [c_nl]
           else get_text child) ++ out)
        [] children
  end.

Definition kSimple : list bytes := lit <$>
  ["location"; "layer"; "label"; "br"; "bold"; "italic"; "underline"; "strikethrough"; "subscript"; "superscript";
   "rtl"; "handwriting"; "checkbox"; "content"]%string.
(** The text run a child adds, [inner] being that of its own children; no result:
    the element is not simple. *)
Definition child_run (tag : bytes) (child : MarkupNode) (inner : option bytes) : option (list bytes) :=
  if is_text child then Some (if blank (nd_text child) then [] else [own_text tag (nd_text child)])
  else if contains kHeadTags (nd_tag child) then Some []
  else if negb (contains kSimple (nd_tag child)) then None
  else match inner with
       | Some (c :: t) => Some [c :: t]
       | _ => if blank (get_text child) then Some [] else None
       end.
(** The one text run of an element whose children are inline wrappers only. *)
Fixpoint simple_text (el : MarkupNode) : option bytes :=
  match el with
  | mk_MarkupNode tag _ _ children =>
      match foldr (λ child out,
                match child_run tag child (simple_text child), out with
                | Some run, Some runs => Some (run ++ runs)
                | _, _ => None
                end) (Some []) children with
      | Some [run] => Some run
      | _ => None
      end
  end.
Definition empty_block (el : MarkupNode) : bool :=
  forallb (λ child, if is_text child then blank (nd_text child) else contains kHeadTags (nd_tag child)) (nd_children el).

(** A lone formatting child, and so on below it, is the run's formatting. *)
Definition unwrapped (child : MarkupNode) : bool := negb (is_text child) && negb (nd_tag child =b lit "location").
Fixpoint text_with_formatting (el : MarkupNode) (f : Formatting) : bytes * Formatting * bool :=
  match el with
  | mk_MarkupNode _ _ _ children =>
      match foldr (λ child out,
                if unwrapped child then (nd_tag child, text_with_formatting child f) :: out else out) [] children with
      | [(tag, (text, inner, _))] =>
          if contains kFormatTags tag || (tag =b lit "rtl") then (text, merge_format tag inner, true)
          else (get_text el, f, false)
      | _ => (get_text el, f, false)
      end
  end.

(** The body of a code element. *)
Definition code_body (el : MarkupNode) : bytes :=
  mjoin ((λ child,
    if is_text child then if blank (nd_text child) then [] else nd_text child
    else if contains (lit <$> ["location"; "layer"; "label"; "caption"]%string) (nd_tag child) then []
    else if nd_tag child =b lit "br" then [c_nl]
    else get_text child) <$> nd_children el).

Definition text_label (tag : bytes) : option DocItemLabel :=
  if tag =b lit "caption" then Some DOC_ITEM_LABEL_CAPTION
  else if tag =b lit "footnote" then Some DOC_ITEM_LABEL_FOOTNOTE
  else if tag =b lit "page_header" then Some DOC_ITEM_LABEL_PAGE_HEADER
  else if tag =b lit "page_footer" then Some DOC_ITEM_LABEL_PAGE_FOOTER
  else if contains kFormatTags tag || contains (lit <$> ["text"; "rtl"; "content"]%string) tag then Some DOC_ITEM_LABEL_TEXT
  else None.
(** Handwriting and checkboxes change the label of a text. *)
Fixpoint marked_label (elements : list MarkupNode) (label : DocItemLabel) : DocItemLabel :=
  match elements with
  | [] => label
  | child :: elements =>
      if nd_tag child =b lit "handwriting" then DOC_ITEM_LABEL_HANDWRITTEN_TEXT
      else if nd_tag child =b lit "checkbox" then
        let cls := attr child (lit "class") [] in
        if cls =b lit "selected" then DOC_ITEM_LABEL_CHECKBOX_SELECTED
        else if cls =b lit "unselected" then DOC_ITEM_LABEL_CHECKBOX_UNSELECTED
        else marked_label elements label
      else marked_label elements label
  end.
(** The element children outside the head. *)
Definition element_children (el : MarkupNode) : list MarkupNode :=
  filter (λ child, negb (is_text child) && negb (contains kHeadTags (nd_tag child)) = true) (nd_children el).

(** * Tables *)

(** The token a node is. *)
Definition token_of (node : MarkupNode) : option bytes :=
  if negb (is_text node) && contains kOtslTokens (nd_tag node) then Some (nd_tag node) else None.
(** The tokens of each row; an empty row is no row. *)
Definition token_step (rows : list (list bytes) * list bytes) (node : MarkupNode) : list (list bytes) * list bytes :=
  let '(done, row) := rows in
  match token_of node with
  | None => rows
  | Some token => if token =b lit "nl" then (done ++ [row], []) else (done, row ++ [token])
  end.
Definition token_rows (body : list MarkupNode) : list (list bytes) :=
  let '(done, row) := foldl token_step ([], []) body in filter (λ row, row ≠ []) (done ++ [row]).

(** The text up to the next token, whether there is any, and that token. *)
Fixpoint cell_content (nodes : list MarkupNode) (text : bytes) (parts : bool) : bytes * bool * bytes :=
  match nodes with
  | [] => (text, parts, [])
  | part :: nodes =>
      match token_of part with
      | Some token => (text, parts, token)
      | None =>
          if is_text part then cell_content nodes (text ++ trim (nd_text part)) (parts || negb (blank (nd_text part)))
          else if nd_tag part =b lit "location" then cell_content nodes text parts
          else cell_content nodes (text ++ get_text part) true
      end
  end.
Definition kOrigins : list bytes := lit <$> ["fcel"; "ecel"; "ched"; "rhed"; "srow"; "corn"]%string.
Definition kContinuations : list bytes := lit <$> ["lcel"; "ucel"; "xcel"]%string.
Definition is_right (token : bytes) : bool := (token =b lit "lcel") || (token =b lit "xcel").
Definition is_below (token : bytes) : bool := (token =b lit "ucel") || (token =b lit "xcel").
(** How many in a run satisfy the test. *)
Fixpoint run_length {A} (p : A → bool) (l : list A) : nat :=
  match l with [] => 0 | x :: l => if p x then S (run_length p l) else 0 end.
Definition token_at (rows : list (list bytes)) (r c : nat) : bytes := default [] (rows !! r ≫= λ row, row !! c).
(** The cell of a token, the one after it being [next_token]. *)
Definition otsl_cell (rows : list (list bytes)) (r c : nat) (t text next_token : bytes) : SpanCell :=
  mk_SpanCell r c
    (S (run_length (λ row, is_below (default [] (row !! c))) (drop (S r) rows)))
    (S (if is_right next_token then run_length is_right (drop (S c) (default [] (rows !! r))) else 0))
    (trim text) ((t =b lit "ched") || (t =b lit "corn")) ((t =b lit "rhed") || (t =b lit "corn")) None.
(** The cells from row [r], column [c] on; [started]: the row has cells. *)
Fixpoint otsl_from (rows : list (list bytes)) (body : list MarkupNode) (r c : nat) (started : bool) : list SpanCell :=
  match body with
  | [] => []
  | node :: body =>
      match token_of node with
      | None => otsl_from rows body r c started
      | Some t =>
          if t =b lit "nl" then otsl_from rows body (if started then S r else r) 0 false else
          let '(text, parts, next_token) :=
            if t =b lit "ecel" then ([], false, default [] (head body ≫= token_of)) else cell_content body [] false in
          let continuation := contains kContinuations t in
          (if continuation && (trim text =b []) && negb parts then [] else [otsl_cell rows r c t text next_token]) ++
          otsl_from rows body r (if contains kOrigins t || continuation then S c else c) true
      end
  end.
Definition otsl_cells (body : list MarkupNode) : list SpanCell := otsl_from (token_rows body) body 0 0 false.

(** The texts of a chart's cells by row and column. *)
Definition grow {A} (n : nat) (d : A) (l : list A) : list A := l ++ replicate (n - length l) d.
Definition set_chart_cell (rows : list (list bytes)) (cell : SpanCell) : list (list bytes) :=
  alter (λ row, <[sp_col cell := sp_text cell]> (grow (S (sp_col cell)) [] row)) (sp_row cell)
    (grow (S (sp_row cell)) [] rows).
Definition chart_cells (body : list MarkupNode) : list (list bytes) := foldl set_chart_cell [] (otsl_cells body).

(** * Fragments *)

Definition kNoFragment : bytes := lit "No <doclang> XML fragment found in VLM response.".
(** "<doclang" at a position opens a tag. *)
Definition opens_doclang (text : bytes) (at_ : nat) : bool :=
  let after := (at_ + 8)%nat in
  char_at text after (Ascii.eqb ">"%char) ||
  char_at text after isspace && match find_char ">"%char text after with Some _ => true | None => false end.
Definition open_step (text : bytes) (from : nat) : nat + bool :=
  match find (lit "<doclang") text from with
  | None => inr false
  | Some at_ => if opens_doclang text at_ then inr true else inl (S at_)
  end.
(** From the first "<doclang" to the first "</doclang>" after it, if any opens. *)
Definition doclang_fragment (text : bytes) : option bytes :=
  if negb (run_loop false (S (length text)) (open_step text) 0%nat) then None else
  start ← find (lit "<doclang") text 0;
  stop ← find (lit "</doclang>") text start;
  Some (substr text start (stop + 10 - start)).

(** What a list's <ldiv>s start: each with the nodes up to the next. *)
Definition list_entries (children : list MarkupNode) : list (MarkupNode * list MarkupNode) :=
  (foldr (λ child (s : list (MarkupNode * list MarkupNode) * list MarkupNode),
      let '(entries, nodes) := s in
      if is_element (lit "ldiv") child then ((child, nodes) :: entries, []) else (entries, child :: nodes))
    ([], []) children).1.
Definition marker_of (ldiv : MarkupNode) : bytes :=
  match head (filter (λ child, is_element (lit "marker") child = true) (nd_children ldiv)) with
  | Some marker => trim (get_text marker)
  | None => []
  end.

Definition kBlocks : list bytes := lit <$>
  ["text"; "heading"; "list"; "group"; "table"; "index"; "picture"; "code"; "formula"; "caption"; "footnote";
   "page_header"; "page_footer"]%string.
(** The text a list item begins with and the nodes after it. *)
Fixpoint leading_text (content : list MarkupNode) (leading : bytes) : bytes * list MarkupNode :=
  match content with
  | [] => (leading, [])
  | node :: rest =>
      if is_text node then leading_text rest (leading ++ nd_text node)
      else if nd_tag node =b lit "content" then leading_text rest (leading ++ get_text node)
      else (leading, content)
  end.
(** Blank texts, lists and pictures only. *)
Definition only_nested (nodes : list MarkupNode) : bool :=
  forallb (λ node, if is_text node then blank (nd_text node)
                   else (nd_tag node =b lit "list") || (nd_tag node =b lit "picture")) nodes.
Definition elements_of (nodes : list MarkupNode) : list MarkupNode := filter (λ node, is_text node = false) nodes.

Definition first_child (tag : bytes) (el : MarkupNode) : option MarkupNode :=
  head (filter (λ child, is_element tag child = true) (nd_children el)).
Definition kHosts : list bytes := lit <$> ["picture"; "table"; "index"; "code"]%string.
Definition kSatellites : list bytes := lit <$> ["text"; "footnote"; "caption"]%string.
(** The one host of a float group whose other elements are satellites. *)
Definition float_host (el : MarkupNode) : option MarkupNode :=
  let elements := elements_of (nd_children el) in
  if negb (forallb (λ child, contains kHosts (nd_tag child) || contains kSatellites (nd_tag child)) elements) then None else
  match filter (λ child, contains kHosts (nd_tag child) = true) elements with
  | [host] => Some host
  | _ => None
  end.
Definition group_label (label : bytes) : GroupLabel :=
  if label =b lit "list" then GROUP_LABEL_LIST
  else if label =b lit "ordered_list" then GROUP_LABEL_ORDERED_LIST
  else if label =b lit "chapter" then GROUP_LABEL_CHAPTER
  else if label =b lit "section" then GROUP_LABEL_SECTION
  else if label =b lit "sheet" then GROUP_LABEL_SHEET
  else if label =b lit "slide" then GROUP_LABEL_SLIDE
  else if label =b lit "form_area" then GROUP_LABEL_FORM_AREA
  else if label =b lit "key_value_area" then GROUP_LABEL_KEY_VALUE_AREA
  else if label =b lit "comment_section" then GROUP_LABEL_COMMENT_SECTION
  else if label =b lit "inline" then GROUP_LABEL_INLINE
  else if label =b lit "picture_area" then GROUP_LABEL_PICTURE_AREA
  else GROUP_LABEL_UNSPECIFIED.

(** The search of a fragment's opening tag ends. *)
Lemma open_step_decreases text from from' :
  open_step text from = inl from' → (length text - from' < length text - from)%nat.
Proof.
  unfold open_step. destruct (find _ _ _) as [at_|] eqn:E; [|done]. apply find_lt in E.
  destruct (opens_doclang text at_); [done|]. intros [= <-]. lia.
Qed.
