(* ===== verification/Doclang.v ===== *)
(** The DocLang mapper (src/mapping/doclang.cpp): XML whose elements carry their
    location, layer and label in a head.  [DocLangBuilder] dispatches on an
    element's name; its methods call each other on smaller elements, so each is a
    step over the dispatch it makes, tied by a fuel the height of the tree bounds.
    What is proved: no walk runs out of it, and a page of located texts is read
    back as printed. *)
From S2P Require Import Prelude Numbers Double Proto ImageCrop Builder OtslGrid Tree.
From S2P Require Import MarkupTree LayoutText Layout LayoutGrows DoclangText.

(** The builder's state: the writer and the code item added last. *)
Record DocLang := mk_DocLang { dl_writer : LayoutWriter; dl_last_code : option BodyChild }.
Definition on_writer (f : LayoutWriter → LayoutWriter) (s : DocLang) : DocLang :=
  mk_DocLang (f (dl_writer s)) (dl_last_code s).
(** A call that adds an item. *)
Definition with_item (add : LayoutWriter → BodyChild * LayoutWriter) (s : DocLang) : BodyChild * DocLang :=
  let '(item, w) := add (dl_writer s) in (item, mk_DocLang w (dl_last_code s)).

(** Inline content in document order: text with its formatting, or an element
    that is dispatched. *)
Inductive InlinePiece :=
  | InlineText (text : bytes) (formatting : option Formatting)
  | InlineElement (node : MarkupNode).
Fixpoint inline_pieces (formatting : option Formatting) (node : MarkupNode) : list InlinePiece :=
  match node with
  | mk_MarkupNode tag text _ children =>
      if tag =b [] then if trim text =b [] then [] else [InlineText (trim text) formatting]
      else if contains kFormatTags tag then
        let merged := merge_format tag (default Formatting_empty formatting) in
        foldr (λ child out, inline_pieces (Some merged) child ++ out) [] children
      else [InlineElement node]
  end.

Section Builder.
Context `{ProtobufSize} `{Stb}.
Variable page : PageContext.
Variable res : Resolution.

(** The first quartet of locations, on the page. *)
Definition box_of (nodes : list MarkupNode) : option BoundingBox :=
  match quartet res nodes [] (re_w res) (re_h res) with
  | Some (a, b, c, d, res_x, res_y) =>
      Some (scaled_box page (dmin (of_Z a) (of_Z c)) (dmin (of_Z b) (of_Z d)) (dmax (of_Z a) (of_Z c)) (dmax (of_Z b) (of_Z d))
        (if 0 <? res_x then ddiv (of_Z (page_width page)) (of_Z res_x) else of_Z 1)
        (if 0 <? res_y then ddiv (of_Z (page_height page)) (of_Z res_y) else of_Z 1))
  | None => None
  end.
Definition head_box (el : MarkupNode) : option BoundingBox := box_of (head_nodes el).
Definition apply_layer (ref : BodyChild) (el : MarkupNode) : DocLang → DocLang :=
  on_writer (λ w, match head_layer el with Some layer => set_content_layer ref layer w | None => w end).
(** Everything added since goes to the element's layer. *)
Definition layer_subtree (texts_before groups_before : nat) (el : MarkupNode) : DocLang → DocLang :=
  on_writer (λ w,
    match head_layer el with
    | Some layer =>
        let w := set_layers layer TEXT texts_before (texts_size (lw_out w)) w in
        set_layers layer GROUP groups_before (groups_size (lw_out w)) w
    | None => w
    end).
Definition attach (owner : BodyChild) (captions footnotes : list BodyChild) : DocLang → DocLang :=
  on_writer (λ w, foldl (λ w footnote, link_footnote owner footnote w)
    (foldl (λ w caption, link_caption owner caption w) w captions) footnotes).

Section Steps.
Variable dispatch : MarkupNode → Parent → DocLang → option DocLang.

(** *** Inline content *)

Definition inline_step (parent : Parent) (s : DocLang) (piece : InlinePiece) : option DocLang :=
  match piece with
  | InlineText text formatting =>
      Some (with_item (styled_text page DOC_ITEM_LABEL_TEXT None text formatting [] parent) s).2
  | InlineElement node => dispatch node parent s
  end.
Definition inline_runs (nodes : list MarkupNode) (parent : Parent) (formatting : option Formatting) (s : DocLang)
  : option DocLang := foldM (inline_step parent) s (mjoin (inline_pieces formatting <$> nodes)).
Definition inline_host (el : MarkupNode) (parent : Parent) (label : DocItemLabel) (s : DocLang)
  : option (BodyChild * DocLang) :=
  let texts_before := texts_size (lw_out (dl_writer s)) in
  let groups_before := groups_size (lw_out (dl_writer s)) in
  let '(host, s) := with_item (styled_text page label (head_box el) [] None [] parent) s in
  let '(group, s) := with_item (inline_group (Some host)) s in
  s ← inline_runs (body_nodes el) (Some group) None s;
  Some (host, layer_subtree texts_before groups_before el s).

(** *** Captions *)

Definition caption_step (acc : list BodyChild * DocLang) (child : MarkupNode) : option (list BodyChild * DocLang) :=
  let '(captions, s) := acc in
  if negb (is_element (lit "caption") child) then Some acc else
  let text := trim (get_text child) in
  if text =b [] then Some acc else
  match simple_text child with
  | None =>
      '(caption, s) ← inline_host child None DOC_ITEM_LABEL_CAPTION s;
      Some (captions ++ [caption], s)
  | Some _ =>
      let '(caption, s) := with_item (styled_text page DOC_ITEM_LABEL_CAPTION (head_box child) text None [] None) s in
      Some (captions ++ [caption], apply_layer caption child s)
  end.
Definition captions_of (el : MarkupNode) (s : DocLang) : option (list BodyChild * DocLang) :=
  foldM caption_step ([], s) (nd_children el).
(** Sibling texts are captions too, sibling footnotes footnotes. *)
Definition satellite_step (acc : list BodyChild * list BodyChild * DocLang) (child : MarkupNode)
  : list BodyChild * list BodyChild * DocLang :=
  let '(captions, footnotes, s) := acc in
  if negb (is_element (lit "text") child || is_element (lit "footnote") child) then acc else
  let is_caption := nd_tag child =b lit "text" in
  let text := trim (get_text child) in
  if text =b [] then acc else
  let '(item, s) := with_item (styled_text page (if is_caption then DOC_ITEM_LABEL_CAPTION else DOC_ITEM_LABEL_FOOTNOTE)
                                 (head_box child) text None [] None) s in
  if is_caption then (captions ++ [item], footnotes, s) else (captions, footnotes ++ [item], s).
Definition satellites (el : MarkupNode) (s : DocLang) : list BodyChild * list BodyChild * DocLang :=
  foldl satellite_step ([], [], s) (nd_children el).

(** *** Texts *)

Definition kTextHosts : list bytes := lit <$> ["text"; "caption"; "footnote"; "page_header"; "page_footer"]%string.
(** An element with inline content of its own. *)
Definition mixed_text (el : MarkupNode) (parent : Parent) (s : DocLang) : option DocLang :=
  let tag := nd_tag el in
  if contains kTextHosts tag && (negb (tag =b lit "text") || match head_box el with Some _ => true | None => false end) then
    '(_, s) ← inline_host el parent (default DOC_ITEM_LABEL_TEXT (text_label tag)) s; Some s
  else
    let texts_before := texts_size (lw_out (dl_writer s)) in
    let groups_before := groups_size (lw_out (dl_writer s)) in
    let '(group, s) := with_item (inline_group parent) s in
    s ← inline_runs (nd_children el) (Some group)
          (if contains kFormatTags tag then Some (merge_format tag Formatting_empty) else None) s;
    Some (layer_subtree texts_before groups_before el s).
Definition code_text (el : MarkupNode) (parent : Parent) (s : DocLang) : option DocLang :=
  let '(item, s) := with_item (code page (head_box el) (code_body el) (head_label el) parent) s in
  '(captions, s) ← captions_of el (apply_layer item el s);
  Some (mk_DocLang (dl_writer (attach item captions [] s)) (Some item)).
Definition text_like (el : MarkupNode) (parent : Parent) (s : DocLang) : option DocLang :=
  let tag := nd_tag el in
  let elements := element_children el in
  let simple := match simple_text el with Some _ => true | None => false end in
  let is_empty := negb simple && empty_block el in
  if negb is_empty && (bool_decide (1 < length elements)%nat || negb simple) then mixed_text el parent s else
  let '(text, formatting, formatted) := text_with_formatting el Formatting_empty in
  if (text =b []) && negb is_empty then Some s
  else if tag =b lit "code" then code_text el parent s
  else if tag =b lit "formula" then
    let '(item, s) := with_item (formula page (head_box el) text parent) s in Some (apply_layer item el s)
  else
    match text_label tag with
    | None => Some s
    | Some label =>
        let is_format := contains kFormatTags tag in
        let formatting := if is_format then merge_format tag formatting else formatting in
        let label := if tag =b lit "text" then marked_label elements label else label in
        let '(item, s) := with_item (styled_text page label (head_box el) text
                            (if formatted || is_format then Some formatting else None) [] parent) s in
        Some (apply_layer item el s)
    end.
Definition heading_like (el : MarkupNode) (parent : Parent) (s : DocLang) : option DocLang :=
  let level := default 1 (parse_int (attr el (lit "level") (lit "1"))) in
  let text := trim (get_text el) in
  if text =b [] then Some s else
  let '(item, s) := with_item (if level =? 1 then title page (head_box el) text parent
                               else heading page (to_int32 (level - 1)) (head_box el) text parent) s in
  Some (apply_layer item el s).

(** *** Lists *)

(** The elements among the nodes, in order, under one parent. *)
Definition dispatch_all (nodes : list MarkupNode) (parent : Parent) (s : DocLang) : option DocLang :=
  foldM (λ s node, dispatch node parent s) s nodes.
Definition list_entry (nodes : list MarkupNode) (group : BodyChild) (ordered : bool) (marker : bytes) (s : DocLang)
  : option DocLang :=
  let content := skip_head nodes in
  let box := box_of nodes in
  let add box body := with_item (list_item page box body ordered marker (Some group)) in
  match content with
  | [] => Some (add box [] s).2
  | first :: _ =>
      if is_text first || negb (contains kBlocks (nd_tag first)) then
        let '(leading, rest) := leading_text content [] in
        if negb (trim leading =b []) && only_nested rest then
          let '(item, s) := add box (trim leading) s in dispatch_all (elements_of rest) (Some item) s
        else
          let '(item, s) := add box [] s in
          let '(inline, s) := with_item (inline_group (Some item)) s in
          inline_runs content (Some inline) None s
      else
        let elements := elements_of content in
        let children (_ : unit) := let '(item, s) := add box [] s in dispatch_all elements (Some item) s in
        match elements with
        | [el] =>
            if (nd_tag el =b lit "text") && match simple_text el with Some _ => true | None => false end
            then Some (add (head_box el) (trim (get_text el)) s).2 else children ()
        | _ => children ()
        end
  end.
Definition list_like (el : MarkupNode) (parent : Parent) (s : DocLang) : option DocLang :=
  let ordered := attr el (lit "class") [] =b lit "ordered" in
  let '(group, s) := with_item (list_group parent) s in
  foldM (λ s entry, list_entry entry.2 group ordered (marker_of entry.1) s) s (list_entries (nd_children el)).

(** *** Floats *)

(** The captions of a float: its own, else its host's, then the satellites. *)
Definition float_captions (el : MarkupNode) (host : option MarkupNode) (s : DocLang)
  : option (list BodyChild * list BodyChild * DocLang) :=
  let '(captions, footnotes, s) := satellites el s in
  '(own, s) ← captions_of el s;
  '(own, s) ← match own, host with
              | [], Some host => captions_of host s
              | _, _ => Some (own, s)
              end;
  Some (own ++ captions, footnotes, s).
Definition table_at_host (host : MarkupNode) (parent : Parent) (captions footnotes : list BodyChild) (s : DocLang) : DocLang :=
  let '(item, s) := with_item (table page (head_box host) (otsl_cells (body_nodes host)) parent) s in
  let s := if nd_tag host =b lit "index" then on_writer (on_table (set_ti_label DOC_ITEM_LABEL_DOCUMENT_INDEX) item) s else s in
  attach item captions footnotes (apply_layer item host s).
Definition table_like (el : MarkupNode) (parent : Parent) (s : DocLang) : option DocLang :=
  if negb (nd_tag el =b lit "table") && negb (nd_tag el =b lit "index") then
    let host := match first_child (lit "table") el with Some host => Some host | None => first_child (lit "index") el end in
    '(captions, footnotes, s) ← float_captions el host s;
    Some (match host with
          | Some host => table_at_host host parent captions footnotes s
          | None => let '(item, s) := with_item (table page None [] parent) s in attach item captions footnotes s
          end)
  else
    '(captions, s) ← captions_of el s; Some (table_at_host el parent captions [] s).
(** The charts a picture's body begins with and what follows them. *)
Fixpoint picture_charts (item : BodyChild) (body : list MarkupNode) (w : LayoutWriter) : LayoutWriter * list MarkupNode :=
  match body with
  | [] => (w, [])
  | node :: rest =>
      if is_text node || (nd_tag node =b lit "src") then picture_charts item rest w
      else if nd_tag node =b lit "tabular" then
        picture_charts item rest (set_tabular_chart item [] (chart_cells (body_nodes node)) (lit "doclang") w)
      else (w, body)
  end.
Definition picture_body (host : MarkupNode) (item : BodyChild) (s : DocLang) : option DocLang :=
  let s := apply_layer item host s in
  let '(w, rest) := picture_charts item (body_nodes host) (classify_picture item (head_label host) (lit "doclang") (dl_writer s)) in
  dispatch_all (filter (λ node, negb (is_text node) && negb (nd_tag node =b lit "caption") = true) rest) (Some item)
    (mk_DocLang w (dl_last_code s)).
Definition picture_like (el : MarkupNode) (parent : Parent) (s : DocLang) : option DocLang :=
  let is_picture := nd_tag el =b lit "picture" in
  let host := if is_picture then Some el else first_child (lit "picture") el in
  '(captions, footnotes, s) ←
    (if is_picture then '(captions, s) ← captions_of el s; Some (captions, [], s) else float_captions el host s);
  let '(item, s) := with_item (picture page (host ≫= head_box) parent) s in
  let s := attach item captions footnotes s in
  match host with Some host => picture_body host item s | None => Some s end.
Definition code_group (el code : MarkupNode) (parent : Parent) (s : DocLang) : option DocLang :=
  let '(captions, footnotes, s) := satellites el s in
  s ← text_like code parent (mk_DocLang (dl_writer s) None);
  Some (match dl_last_code s with Some item => attach item captions footnotes s | None => s end).

(** *** Dispatch *)

Definition kSkip : list bytes := lit <$> ["head"; "location"; "layer"; "label"; "custom"; "caption"; "src"]%string.
Definition walk_children (el : MarkupNode) (parent : Parent) (s : DocLang) : option DocLang :=
  dispatch_all (filter (λ child, negb (is_text child) && negb (contains kSkip (nd_tag child)) = true) (nd_children el)) parent s.
Definition group_like (el : MarkupNode) (parent : Parent) (s : DocLang) : option DocLang :=
  let name := attr el (lit "name") [] in
  if negb (name =b []) then
    let '(item, s) := with_item (group name (group_label (head_label el)) parent) s in walk_children el (Some item) s
  else
    match float_host el with
    | Some host =>
        if nd_tag host =b lit "picture" then picture_like el parent s
        else if nd_tag host =b lit "code" then code_group el host parent s
        else table_like el parent s
    | None => walk_children el parent s
    end.
Definition kTextLike : list bytes := lit <$>
  ["text"; "caption"; "footnote"; "page_header"; "page_footer"; "code"; "formula"; "ldiv"; "bold"; "italic"; "underline";
   "strikethrough"; "subscript"; "superscript"; "content"]%string.
Definition dispatch_step (el : MarkupNode) (parent : Parent) (s : DocLang) : option DocLang :=
  let name := nd_tag el in
  if (name =b lit "track") || (name =b lit "page_break") then Some s
  else if contains kTextLike name then text_like el parent s
  else if name =b lit "heading" then heading_like el parent s
  else if name =b lit "list" then list_like el parent s
  else if name =b lit "group" then group_like el parent s
  else if (name =b lit "table") || (name =b lit "index") then table_like el parent s
  else if name =b lit "picture" then picture_like el parent s
  else walk_children el parent s.
End Steps.

Fixpoint doclang_dispatch (fuel : nat) : MarkupNode → Parent → DocLang → option DocLang :=
  match fuel with
  | O => λ _ _ _, None
  | S fuel => dispatch_step (doclang_dispatch fuel)
  end.
Definition walk_root (root : MarkupNode) (s : DocLang) : option DocLang :=
  dispatch_all (doclang_dispatch (height root)) (elements_of (nd_children root)) None s.
End Builder.

Definition map_doclang `{ProtobufSize} `{Stb} (page : PageContext) (text : bytes) (out : Document) (warnings : Warnings)
  : MapResult :=
  match doclang_fragment text ≫= λ fragment, find_element (lit "doclang") (parse_markup fragment kXml) with
  | None => MapFailed kNoFragment
  | Some root =>
      match walk_root page (set_resolution root) root (mk_DocLang (LayoutWriter_new page out warnings) None) with
      | Some s => finish page (lit "DocLang") true (dl_writer s)
      | None => MapFailed []
      end
  end.

(** * Every walk ends and adds to the tree *)

Lemma float_host_child el host : float_host el = Some host → host ∈ nd_children el.
Proof.
  unfold float_host. destruct (negb _); [done|]. destruct (filter _ _) as [|h [|]] eqn:E; [done| |done]. intros [= ->].
  assert (host ∈ [host]) as Hin by left. rewrite <- E in Hin.
  by apply list_elem_of_filter in Hin as [_ [_ Hin]%list_elem_of_filter].
Qed.

Section Ends.
Context `{ProtobufSize} `{Stb}.
Context (page : PageContext) (res : Resolution).

Definition goes (s s' : DocLang) : Prop := grows page (dl_writer s) (dl_writer s').
#[export] Instance goes_preorder : PreOrder goes.
Proof. split; [by intros s; unfold goes|intros a b c Hab Hbc; unfold goes in *; etrans; [apply Hab|done]]. Qed.
Definition valid (s : DocLang) (parent : Parent) : Prop := valid_parent (dl_writer s) parent.
Lemma goes_valid s s' parent : goes s s' → valid s parent → valid s' parent.
Proof. apply grows_valid. Qed.
Lemma valid_body s : valid s None.
Proof. done. Qed.

(** A step that ends, growing the tree; one that also gives something. *)
Definition ends (s : DocLang) (r : option DocLang) : Prop := ∃ s', r = Some s' ∧ goes s s'.
Definition ends_with {A} (s : DocLang) (r : option (A * DocLang)) : Prop := ∃ x s', r = Some (x, s') ∧ goes s s'.
Lemma ends_some s s' : goes s s' → ends s (Some s').
Proof. by exists s'. Qed.
Lemma ends_after s s' r : goes s s' → ends s' r → ends s r.
Proof. intros Hg (s'' & -> & Hg'). exists s''. split; [done|by etrans]. Qed.

Lemma ends_bind s r f : ends s r → (∀ s', goes s s' → ends s' (f s')) → ends s (r ≫= f).
Proof. intros (s' & -> & Hg) Hf. cbn [mbind option_bind]. eapply ends_after; [apply Hg|by apply Hf]. Qed.
Lemma goes_edit edit s : goes s (on_writer (run_edit edit) s).
Proof. apply (grows_edit page edit). Qed.
Lemma with_item_ok add parent s item s' :
  with_item (run_add page add parent) s = (item, s') → valid s parent → goes s s' ∧ valid s' (Some item).
Proof.
  unfold with_item. destruct (run_add page add parent (dl_writer s)) as [item' w] eqn:E. intros [= <- <-] Hp.
  apply (grows_add page _ _ _ _ _ Hp E).
Qed.
Lemma apply_layer_goes ref el s : goes s (apply_layer ref el s).
Proof. unfold apply_layer. destruct (head_layer el); [apply (goes_edit (SetContentLayer _ _))|by unfold goes]. Qed.
Lemma layer_subtree_goes texts groups el s : goes s (layer_subtree texts groups el s).
Proof.
  unfold layer_subtree, goes, on_writer. destruct (head_layer el); [|done]. cbn [dl_writer].
  etrans; [apply set_layers_grows|apply set_layers_grows].
Qed.
Lemma attach_goes owner captions footnotes s : goes s (attach owner captions footnotes s).
Proof.
  unfold attach, goes, on_writer. cbn [dl_writer].
  etrans; [apply grows_edits; intros w c; apply (grows_edit page (LinkCaption owner c))|].
  apply grows_edits. intros w c. apply (grows_edit page (LinkFootnote owner c)).
Qed.

(** ** What a step hands on is smaller *)

Definition low (n : nat) (nodes : list MarkupNode) : Prop := ∀ x, x ∈ nodes → (height x < n)%nat.
Lemma low_sub n nodes nodes' : nodes ⊆ nodes' → low n nodes' → low n nodes.
Proof. intros Hs Hl x Hx. by apply Hl, Hs. Qed.
Lemma low_filter n (P : MarkupNode → Prop) `{!∀ x, Decision (P x)} nodes : low n nodes → low n (filter P nodes).
Proof. apply low_sub. intros x. rewrite list_elem_of_filter. by intros []. Qed.
Lemma low_children n el : (height el ≤ n)%nat → low n (nd_children el).
Proof. intros Hh x Hx. apply height_child in Hx. lia. Qed.

Lemma skip_head_sub nodes : skip_head nodes ⊆ nodes.
Proof.
  induction nodes as [|node nodes IH]; cbn [skip_head]; [done|]. destruct (_ || _); [|done]. intros x Hx. right. by apply IH.
Qed.
Lemma leading_text_sub content leading : (leading_text content leading).2 ⊆ content.
Proof.
  revert leading. induction content as [|node content IH]; intros leading; cbn [leading_text]; [done|].
  destruct (is_text node); [intros x Hx; right; by eapply IH|].
  destruct (_ =b _); [intros x Hx; right; by eapply IH|done].
Qed.
Lemma list_entries_sub children entry : entry ∈ list_entries children → entry.2 ⊆ children.
Proof.
  unfold list_entries.
  enough (∀ children, let r := foldr (λ child (s : list (MarkupNode * list MarkupNode) * list MarkupNode),
      let '(entries, nodes) := s in
      if is_element (lit "ldiv") child then ((child, nodes) :: entries, []) else (entries, child :: nodes)) ([], []) children in
    (∀ entry, entry ∈ r.1 → entry.2 ⊆ children) ∧ r.2 ⊆ children) as Hall by apply Hall.
  clear. intros children. induction children as [|child children [IH1 IH2]]; cbn [foldr].
  { split; [intros entry Hin|intros x Hin]; by apply elem_of_nil in Hin. }
  destruct (foldr _ _ children) as [entries nodes]. cbn [fst snd] in *. destruct (is_element _ child); cbn [fst snd].
  - split; [|by intros x ?%elem_of_nil].
    intros entry [->|Hin]%elem_of_cons; intros x Hx; right; [by apply IH2|by eapply IH1].
  - split; [intros entry Hin x Hx; right; by eapply IH1|]. intros x [->|Hx]%elem_of_cons; [by left|right; by apply IH2].
Qed.
Lemma picture_charts_ok item body w :
  grows page w (picture_charts item body w).1 ∧ (picture_charts item body w).2 ⊆ body.
Proof.
  revert w. induction body as [|node body IH]; intros w; cbn [picture_charts]; [by split|].
  destruct (_ || _); [destruct (IH w) as [Hg Hs]; split; [done|]; intros x Hx; right; by apply Hs|].
  destruct (_ =b _); [|by split].
  set (w1 := set_tabular_chart _ _ _ _ w). destruct (IH w1) as [Hg Hs]. split; [|intros x Hx; right; by apply Hs].
  etrans; [apply (grows_edit page (SetTabularChart item [] (chart_cells (body_nodes node)) (lit "doclang")))|done].
Qed.
Lemma inline_pieces_height formatting node x :
  InlineElement x ∈ inline_pieces formatting node → (height x ≤ height node)%nat.
Proof.
  revert formatting. induction node as [tag text attrs children IH] using MarkupNode_rect_children. intros formatting.
  cbn [inline_pieces]. destruct (tag =b []).
  { destruct (_ =b _); [by intros ?%elem_of_nil|]. by intros ?%list_elem_of_singleton. }
  destruct (contains _ _); [|intros [= ->]%list_elem_of_singleton; done].
  set (merged := merge_format _ _).
  assert (Hch : ∀ child, child ∈ children → (height child < height (mk_MarkupNode tag text attrs children))%nat)
    by (intros child Hin; by apply height_child).
  generalize dependent (height (mk_MarkupNode tag text attrs children)). intros h Hch Hin.
  induction IH as [|child children Hc _ IHc]; cbn [foldr] in Hin; [by apply elem_of_nil in Hin|].
  apply elem_of_app in Hin as [Hin|Hin].
  - apply Hc in Hin. specialize (Hch child ltac:(by left)). lia.
  - apply IHc; [intros c Hin'; apply Hch; by right|done].
Qed.

(** ** The methods *)

Section Methods.
Context (dispatch : MarkupNode → Parent → DocLang → option DocLang) (n : nat).
Context (Hdispatch : ∀ el parent s, (height el < n)%nat → valid s parent → ends s (dispatch el parent s)).

Lemma dispatch_all_ok nodes parent s : low n nodes → valid s parent → ends s (dispatch_all dispatch nodes parent s).
Proof using Hdispatch.
  intros Hl Hv. unfold dispatch_all.
  destruct (foldM_inv (goes s) (λ s node, dispatch node parent s) s nodes) as (s' & -> & Hg); [done| |by apply ends_some].
  intros s1 node Hin Hg. destruct (Hdispatch node parent s1 (Hl _ Hin)) as (s2 & -> & Hg2); [by eapply goes_valid|].
  exists s2. split; [done|]. by etrans.
Qed.
Lemma inline_runs_ok nodes parent formatting s :
  low n nodes → valid s parent → ends s (inline_runs page dispatch nodes parent formatting s).
Proof using Hdispatch.
  intros Hl Hv. unfold inline_runs.
  destruct (foldM_inv (goes s) (inline_step page dispatch parent) s (mjoin (inline_pieces formatting <$> nodes)))
    as (s' & -> & Hg); [done| |by apply ends_some].
  intros s1 piece Hin Hg. assert (Hv1 : valid s1 parent) by by eapply goes_valid.
  destruct piece as [text f|node]; cbn [inline_step].
  - destruct (with_item _ s1) as [item s2] eqn:E. apply (with_item_ok (AddStyledText _ _ _ _ _)) in E as [Hg2 _]; [|done].
    exists s2. split; [done|]. by etrans.
  - apply list_elem_of_join in Hin as (pieces & Hin & (x & -> & Hx)%list_elem_of_fmap).
    apply inline_pieces_height in Hin. specialize (Hl _ Hx).
    destruct (Hdispatch node parent s1) as (s2 & -> & Hg2); [lia|done|]. exists s2. split; [done|]. by etrans.
Qed.
Lemma inline_host_ok el parent label s :
  (height el ≤ n)%nat → valid s parent → ends_with s (inline_host page res dispatch el parent label s).
Proof using Hdispatch.
  intros Hh Hv. unfold inline_host. cbv zeta.
  destruct (with_item _ s) as [host s1] eqn:E1. apply (with_item_ok (AddStyledText _ _ _ _ _)) in E1 as [Hg1 Hv1]; [|done].
  destruct (with_item _ s1) as [group s2] eqn:E2. apply (with_item_ok (AddGroup _ _)) in E2 as [Hg2 Hv2]; [|done].
  destruct (inline_runs_ok (body_nodes el) (Some group) None s2) as (s3 & -> & Hg3); [|done|].
  { eapply low_sub; [apply skip_head_sub|by apply low_children]. }
  cbn [mbind option_bind]. eexists _, _. split; [done|].
  etrans; [apply Hg1|]. etrans; [apply Hg2|]. etrans; [apply Hg3|]. apply layer_subtree_goes.
Qed.

Lemma captions_of_ok el s : (height el ≤ n)%nat → ends_with s (captions_of page res dispatch el s).
Proof using Hdispatch.
  intros Hh. unfold captions_of.
  destruct (foldM_inv (λ acc, goes s acc.2) (caption_step page res dispatch) ([], s) (nd_children el))
    as ([captions s'] & -> & Hg); [by cbn| |by exists captions, s'].
  intros [captions s1] child Hin Hg. cbn [snd] in Hg. unfold caption_step.
  destruct (negb _); [by eexists|]. destruct (_ =b []); [by eexists|]. destruct (simple_text child).
  - destruct (with_item _ s1) as [item s2] eqn:E. apply (with_item_ok (AddStyledText _ _ _ _ _)) in E as [Hg2 _]; [|done].
    eexists. split; [done|]. cbn [snd]. etrans; [apply Hg|]. etrans; [apply Hg2|]. apply apply_layer_goes.
  - apply height_child in Hin.
    destruct (inline_host_ok child None DOC_ITEM_LABEL_CAPTION s1) as (item & s2 & -> & Hg2); [lia|done|].
    cbn [mbind option_bind]. eexists. split; [done|]. cbn [snd]. by etrans.
Qed.
Lemma satellites_goes el s : goes s (satellites page res el s).2.
Proof.
  unfold satellites. change s with ([] : list BodyChild, [] : list BodyChild, s).2 at 1.
  generalize ([] : list BodyChild, [] : list BodyChild, s). induction (nd_children el) as [|child children IH]; intros acc; [done|].
  cbn [foldl]. etrans; [|apply IH]. destruct acc as [[captions footnotes] s1]. cbn [snd]. unfold satellite_step.
  destruct (negb _); [done|]. destruct (_ =b []); [done|].
  destruct (with_item _ s1) as [item s2] eqn:E. apply (with_item_ok (AddStyledText _ _ _ _ _)) in E as [Hg2 _]; [|done].
  by destruct (_ =b lit "text").
Qed.

Lemma mixed_text_ok el parent s :
  (height el ≤ n)%nat → valid s parent → ends s (mixed_text page res dispatch el parent s).
Proof using Hdispatch.
  intros Hh Hv. unfold mixed_text. destruct (_ && _).
  - destruct (inline_host_ok el parent (default DOC_ITEM_LABEL_TEXT (text_label (nd_tag el))) s)
      as (item & s1 & -> & Hg); [done..|]. by exists s1.
  - destruct (with_item _ s) as [group s1] eqn:E. apply (with_item_ok (AddGroup _ _)) in E as [Hg1 Hv1]; [|done].
    eapply ends_after; [apply Hg1|]. apply ends_bind.
    + apply inline_runs_ok; [by apply low_children|done].
    + intros s2 _. apply ends_some, layer_subtree_goes.
Qed.
Lemma code_text_ok el parent s :
  (height el ≤ n)%nat → valid s parent → ends s (code_text page res dispatch el parent s).
Proof using Hdispatch.
  intros Hh Hv. unfold code_text.
  destruct (with_item _ s) as [item s1] eqn:E. apply (with_item_ok (AddCode _ _ _)) in E as [Hg1 Hv1]; [|done].
  eapply ends_after; [apply Hg1|]. eapply ends_after; [apply (apply_layer_goes item el)|].
  destruct (captions_of_ok el (apply_layer item el s1) Hh) as (captions & s2 & -> & Hg2). cbn [mbind option_bind].
  eapply ends_after; [apply Hg2|]. apply ends_some. apply (attach_goes item captions []).
Qed.
Lemma text_like_ok el parent s :
  (height el ≤ n)%nat → valid s parent → ends s (text_like page res dispatch el parent s).
Proof using Hdispatch.
  intros Hh Hv. unfold text_like. cbv zeta. set (simple := match simple_text el with Some _ => true | None => false end).
  destruct (negb (negb simple && empty_block el) && _); [by apply mixed_text_ok|].
  destruct (text_with_formatting el Formatting_empty) as [[text formatting] formatted].
  destruct (_ && _); [by apply ends_some|]. destruct (_ =b lit "code"); [by apply code_text_ok|].
  destruct (_ =b lit "formula").
  - destruct (with_item _ s) as [item s1] eqn:E. apply (with_item_ok (AddFormula _ _)) in E as [Hg1 _]; [|done].
    eapply ends_after; [apply Hg1|]. apply ends_some, apply_layer_goes.
  - destruct (text_label _) as [label|]; [|by apply ends_some].
    destruct (with_item _ s) as [item s1] eqn:E. apply (with_item_ok (AddStyledText _ _ _ _ _)) in E as [Hg1 _]; [|done].
    eapply ends_after; [apply Hg1|]. apply ends_some, apply_layer_goes.
Qed.
Lemma heading_like_ok el parent s : valid s parent → ends s (heading_like page res el parent s).
Proof.
  intros Hv. unfold heading_like. destruct (_ =b []); [by apply ends_some|].
  destruct (with_item _ s) as [item s1] eqn:E. set (level := default 1 _) in E.
  assert (goes s s1) as Hg.
  { destruct (level =? 1);
      [by apply (with_item_ok (AddTitle _ _)) in E as [? _]|by apply (with_item_ok (AddHeading _ _ _)) in E as [? _]]. }
  eapply ends_after; [apply Hg|]. apply ends_some, apply_layer_goes.
Qed.

Lemma doclang_entry_ok nodes group ordered marker s :
  low n nodes → valid s (Some group) → ends s (list_entry page res dispatch nodes group ordered marker s).
Proof using Hdispatch.
  intros Hl Hv. unfold list_entry. cbv zeta. set (box := box_of page res nodes).
  assert (Hc : low n (skip_head nodes)) by (eapply low_sub; [apply skip_head_sub|done]).
  assert (Hadd : ∀ box body item s1, with_item (list_item page box body ordered marker (Some group)) s = (item, s1) →
    goes s s1 ∧ valid s1 (Some item)).
  { intros b body item s1 E. by apply (with_item_ok (AddListItem _ _ _ _)) in E. }
  assert (Hone : ∀ box body, ends s (Some (with_item (list_item page box body ordered marker (Some group)) s).2)).
  { intros b body. destruct (with_item _ s) as [item s1] eqn:E. apply ends_some, (Hadd _ _ _ _ E). }
  assert (Hall : ∀ box body rest, low n rest →
    ends s (let '(item, s) := with_item (list_item page box body ordered marker (Some group)) s in
            dispatch_all dispatch (elements_of rest) (Some item) s)).
  { intros b body rest Hr. destruct (with_item _ s) as [item s1] eqn:E. apply Hadd in E as [Hg1 Hv1].
    eapply ends_after; [apply Hg1|]. apply dispatch_all_ok; [by apply low_filter|done]. }
  destruct (skip_head nodes) as [|first content] eqn:Es; [apply Hone|]. rewrite <- Es in Hc |- *.
  destruct (is_text first || _).
  - pose proof (leading_text_sub (skip_head nodes) []) as Hsub.
    destruct (leading_text (skip_head nodes) []) as [leading rest]. cbn [snd] in Hsub.
    destruct (_ && _); [apply Hall; by eapply low_sub|].
    destruct (with_item _ s) as [item s1] eqn:E. apply Hadd in E as [Hg1 Hv1].
    eapply ends_after; [apply Hg1|]. destruct (with_item _ s1) as [inline s2] eqn:E2.
    apply (with_item_ok (AddGroup _ _)) in E2 as [Hg2 Hv2]; [|done].
    eapply ends_after; [apply Hg2|]. by apply inline_runs_ok.
  - specialize (Hall box [] _ Hc). destruct (elements_of (skip_head nodes)) as [|el [|]]; [done| |done].
    destruct (_ && _); [apply Hone|done].
Qed.
Lemma list_like_ok el parent s :
  (height el ≤ n)%nat → valid s parent → ends s (list_like page res dispatch el parent s).
Proof using Hdispatch.
  intros Hh Hv. unfold list_like. cbv zeta.
  destruct (with_item _ s) as [group s1] eqn:E. apply (with_item_ok (AddGroup _ _)) in E as [Hg1 Hv1]; [|done].
  eapply ends_after; [apply Hg1|].
  match goal with |- ends s1 (foldM ?f s1 ?l) => destruct (foldM_inv (goes s1) f s1 l) as (s' & -> & Hg); [done| |by apply ends_some] end.
  intros s2 entry Hin Hg. apply list_entries_sub in Hin.
  destruct (doclang_entry_ok entry.2 group (attr el (lit "class") [] =b lit "ordered") (marker_of entry.1) s2)
    as (s3 & -> & Hg3); [eapply low_sub; [apply Hin|by apply low_children]|by eapply goes_valid|].
  exists s3. split; [done|]. by etrans.
Qed.

Lemma float_captions_ok el host s :
  (height el ≤ n)%nat → (∀ h, host = Some h → (height h ≤ n)%nat) →
  ends_with s (float_captions page res dispatch el host s).
Proof using Hdispatch.
  intros Hh Hhost. unfold float_captions. pose proof (satellites_goes el s) as Hg.
  destruct (satellites page res el s) as [[captions footnotes] s1]. cbn [snd] in Hg.
  destruct (captions_of_ok el s1 Hh) as (own & s2 & -> & Hg2). cbn [mbind option_bind].
  assert (ends_with s2 (match own, host with [], Some host => captions_of page res dispatch host s2 | _, _ => Some (own, s2) end))
    as (own' & s3 & -> & Hg3).
  { destruct own; [|by eexists _, _]. destruct host as [h|]; [apply captions_of_ok; by apply Hhost|by eexists _, _]. }
  cbn [mbind option_bind]. eexists _, _. split; [done|]. by do 2 (etrans; [eassumption|]).
Qed.
Lemma table_at_host_goes host parent captions footnotes s :
  valid s parent → goes s (table_at_host page res host parent captions footnotes s).
Proof.
  intros Hv. unfold table_at_host. destruct (with_item _ s) as [item s1] eqn:E.
  apply (with_item_ok (AddTable _ _)) in E as [Hg1 _]; [|done]. etrans; [apply Hg1|]. cbv zeta.
  set (s2 := if _ =b lit "index" then _ else _).
  assert (goes s1 s2) as Hg2.
  { subst s2. destruct (_ =b _); [apply (goes_edit (SetTableLabel item _))|done]. }
  etrans; [apply Hg2|]. etrans; [apply (apply_layer_goes item host)|apply attach_goes].
Qed.
Lemma first_child_height tag el host : first_child tag el = Some host → (height host < height el)%nat.
Proof.
  unfold first_child. intros Hf. apply height_child.
  destruct (filter _ _) as [|h l] eqn:E; [done|]. injection Hf as ->.
  assert (host ∈ host :: l) as Hin by left. rewrite <- E in Hin. by apply list_elem_of_filter in Hin as [_ Hin].
Qed.
Lemma table_like_ok el parent s :
  (height el ≤ n)%nat → valid s parent → ends s (table_like page res dispatch el parent s).
Proof using Hdispatch.
  intros Hh Hv. unfold table_like. destruct (_ && _).
  - cbv zeta. set (host := match first_child (lit "table") el with Some host => Some host | None => _ end).
    destruct (float_captions_ok el host s Hh) as ([captions footnotes] & s1 & -> & Hg1).
    { intros h Hs. enough (height h < height el)%nat by lia. subst host.
      destruct (first_child (lit "table") el) as [h'|] eqn:E; [injection Hs as <-|]; by eapply first_child_height. }
    cbn [mbind option_bind]. eapply ends_after; [apply Hg1|]. apply ends_some. apply (goes_valid _ _ _ Hg1) in Hv.
    destruct host as [h|]; [by apply table_at_host_goes|].
    destruct (with_item _ s1) as [item s2] eqn:E. apply (with_item_ok (AddTable _ _)) in E as [Hg2 _]; [|done].
    etrans; [apply Hg2|apply attach_goes].
  - destruct (captions_of_ok el s Hh) as (captions & s1 & -> & Hg1). cbn [mbind option_bind].
    eapply ends_after; [apply Hg1|]. apply ends_some, table_at_host_goes. by eapply goes_valid.
Qed.

Lemma picture_body_ok host item s :
  (height host ≤ n)%nat → valid s (Some item) → ends s (picture_body dispatch host item s).
Proof using Hdispatch.
  intros Hh Hv. unfold picture_body. cbv zeta.
  set (s1 := apply_layer item host s). assert (goes s s1) as Hg1 by apply apply_layer_goes.
  set (w2 := classify_picture _ _ _ (dl_writer s1)).
  assert (grows page (dl_writer s1) w2) as Hg2 by apply (grows_edit page (ClassifyPicture item _ _)).
  destruct (picture_charts_ok item (body_nodes host) w2) as [Hg3 Hsub].
  destruct (picture_charts item (body_nodes host) w2) as [w3 rest]. cbn [fst snd] in *.
  assert (goes s (mk_DocLang w3 (dl_last_code s1))) as Hg.
  { etrans; [apply Hg1|]. unfold goes. cbn [dl_writer]. by etrans. }
  eapply ends_after; [apply Hg|]. apply dispatch_all_ok; [|by eapply goes_valid].
  apply low_filter. eapply low_sub; [apply Hsub|]. eapply low_sub; [apply skip_head_sub|by apply low_children].
Qed.
Lemma picture_like_ok el parent s :
  (height el ≤ n)%nat → valid s parent → ends s (picture_like page res dispatch el parent s).
Proof using Hdispatch.
  intros Hh Hv. unfold picture_like. cbv zeta.
  set (host := if nd_tag el =b lit "picture" then Some el else first_child (lit "picture") el).
  assert (Hhost : ∀ h, host = Some h → (height h ≤ n)%nat).
  { intros h Hs. subst host. destruct (_ =b _); [by injection Hs as <-|]. apply first_child_height in Hs. lia. }
  clearbody host.
  assert (ends_with s (if nd_tag el =b lit "picture" then '(captions, s) ← captions_of page res dispatch el s; Some (captions, [], s)
    else float_captions page res dispatch el host s)) as ([captions footnotes] & s1 & -> & Hg1).
  { destruct (_ =b _); [|by apply float_captions_ok].
    destruct (captions_of_ok el s Hh) as (captions & s1 & -> & Hg1). by exists (captions, []), s1. }
  cbn [mbind option_bind]. eapply ends_after; [apply Hg1|]. apply (goes_valid _ _ _ Hg1) in Hv.
  destruct (with_item _ s1) as [item s2] eqn:E. apply (with_item_ok (AddPicture _)) in E as [Hg2 Hv2]; [|done].
  eapply ends_after; [apply Hg2|]. pose proof (attach_goes item captions footnotes s2) as Hg3.
  destruct host as [h|]; [|by apply ends_some]. eapply ends_after; [apply Hg3|].
  apply picture_body_ok; [by apply Hhost|by eapply goes_valid].
Qed.
Lemma code_group_ok el code parent s :
  (height code ≤ n)%nat → valid s parent → ends s (code_group page res dispatch el code parent s).
Proof using Hdispatch.
  intros Hh Hv. unfold code_group. pose proof (satellites_goes el s) as Hg.
  destruct (satellites page res el s) as [[captions footnotes] s1]. cbn [snd] in Hg.
  eapply ends_after; [apply Hg|]. apply (goes_valid _ _ _ Hg) in Hv.
  destruct (text_like_ok code parent (mk_DocLang (dl_writer s1) None) Hh Hv) as (s2 & -> & Hg2). cbn [mbind option_bind].
  apply ends_some. etrans; [apply Hg2|]. destruct (dl_last_code s2); [apply attach_goes|done].
Qed.

Lemma dispatch_children_ok el parent s :
  (height el ≤ n)%nat → valid s parent → ends s (walk_children dispatch el parent s).
Proof using Hdispatch. intros Hh Hv. apply dispatch_all_ok; [by apply low_filter, low_children|done]. Qed.
Lemma group_like_ok el parent s :
  (height el ≤ n)%nat → valid s parent → ends s (group_like page res dispatch el parent s).
Proof using Hdispatch.
  intros Hh Hv. unfold group_like. cbv zeta. destruct (negb _).
  - destruct (with_item _ s) as [item s1] eqn:E. apply (with_item_ok (AddGroup _ _)) in E as [Hg1 Hv1]; [|done].
    eapply ends_after; [apply Hg1|]. by apply dispatch_children_ok.
  - destruct (float_host el) as [host|] eqn:Eh; [|by apply dispatch_children_ok].
    destruct (_ =b lit "picture"); [by apply picture_like_ok|].
    destruct (_ =b lit "code"); [apply code_group_ok; [|done]|by apply table_like_ok].
    apply float_host_child, height_child in Eh. lia.
Qed.
Lemma dispatch_step_ok el parent s :
  (height el ≤ n)%nat → valid s parent → ends s (dispatch_step page res dispatch el parent s).
Proof using Hdispatch.
  intros Hh Hv. unfold dispatch_step. cbv zeta. destruct (_ || _); [by apply ends_some|].
  destruct (contains _ _); [by apply text_like_ok|]. destruct (_ =b lit "heading"); [by apply heading_like_ok|].
  destruct (_ =b lit "list"); [by apply list_like_ok|]. destruct (_ =b lit "group"); [by apply group_like_ok|].
  destruct (_ || _); [by apply table_like_ok|]. destruct (_ =b lit "picture"); [by apply picture_like_ok|by apply dispatch_children_ok].
Qed.
End Methods.

Lemma doclang_dispatch_ok n el parent s :
  (height el < n)%nat → valid s parent → ends s (doclang_dispatch page res n el parent s).
Proof.
  revert el parent s. induction n as [|n IH]; intros el parent s Hh Hv; [lia|]. cbn [doclang_dispatch].
  apply (dispatch_step_ok _ n IH); [lia|done].
Qed.
Lemma walk_root_ok root s : ends s (walk_root page res root s).
Proof. apply (dispatch_all_ok _ _ (doclang_dispatch_ok (height root))); [by apply low_filter, low_children|done]. Qed.
End Ends.

(** * Pages of located texts *)

Definition layer_name (layer : ContentLayer) : bytes :=
  match layer with
  | CONTENT_LAYER_FURNITURE => lit "furniture"
  | CONTENT_LAYER_BACKGROUND => lit "background"
  | CONTENT_LAYER_INVISIBLE => lit "invisible"
  | CONTENT_LAYER_NOTES => lit "notes"
  | _ => lit "body"
  end.
Definition location (value : Z) : MarkupNode := mk_MarkupNode (lit "location") [] [(lit "value", to_string value)] [].
Definition layer_nodes (layer : option ContentLayer) : list MarkupNode :=
  match layer with
  | Some layer => [mk_MarkupNode (lit "layer") [] [(lit "value", layer_name layer)] []]
  | None => []
  end.
(** An element with a location, maybe a layer, and a text. *)
Record Located := mk_Located {
  lo_tag : bytes; lo_level : Z; lo_x0 : Z; lo_y0 : Z; lo_x1 : Z; lo_y1 : Z; lo_layer : option ContentLayer; lo_text : bytes }.
Definition kLocatedTags : list bytes := lit <$>
  ["text"; "caption"; "footnote"; "page_header"; "page_footer"; "formula"; "heading"]%string.
Definition located_box (lo : Located) : list Z := [lo_x0 lo; lo_y0 lo; lo_x1 lo; lo_y1 lo].
Definition located_attrs (lo : Located) : list (bytes * bytes) :=
  if lo_tag lo =b lit "heading" then [(lit "level", to_string (lo_level lo))] else [].
Definition located_node (lo : Located) : MarkupNode :=
  mk_MarkupNode (lo_tag lo) [] (located_attrs lo)
    ((location <$> located_box lo) ++ layer_nodes (lo_layer lo) ++ [text_node (lo_text lo)]).
Definition located_ok (lo : Located) : Prop :=
  lo_tag lo ∈ kLocatedTags ∧ 1 <= lo_level lo <= int32_max ∧ Forall (λ v, 0 <= v <= int32_max) (located_box lo) ∧
  lo_layer lo ≠ Some CONTENT_LAYER_UNSPECIFIED ∧ trim (lo_text lo) ≠ [].
(** A fragment: the grid's size and the elements on it. *)
Definition resolution_node (width height : Z) : MarkupNode :=
  mk_MarkupNode (lit "default_resolution") [] [(lit "width", to_string width); (lit "height", to_string height)] [].
Definition doclang_node (width height : Z) (los : list Located) : MarkupNode :=
  mk_MarkupNode (lit "doclang") [] [] (resolution_node width height :: (located_node <$> los)).

(** The item it becomes: the trimmed text, the box spanned by its corners scaled
    from the grid to the page, a heading at one level below its own, the layer
    where one is given. *)
Definition located_label (lo : Located) : DocItemLabel :=
  if lo_tag lo =b lit "heading" then if lo_level lo =? 1 then DOC_ITEM_LABEL_TITLE else DOC_ITEM_LABEL_SECTION_HEADER
  else if lo_tag lo =b lit "formula" then DOC_ITEM_LABEL_FORMULA
  else default DOC_ITEM_LABEL_TEXT (text_label (lo_tag lo)).
Definition located_area (page : PageContext) (width height : Z) (lo : Located) : BoundingBox :=
  scaled_box page (dmin (of_Z (lo_x0 lo)) (of_Z (lo_x1 lo))) (dmin (of_Z (lo_y0 lo)) (of_Z (lo_y1 lo)))
    (dmax (of_Z (lo_x0 lo)) (of_Z (lo_x1 lo))) (dmax (of_Z (lo_y0 lo)) (of_Z (lo_y1 lo)))
    (ddiv (of_Z (page_width page)) (of_Z width)) (ddiv (of_Z (page_height page)) (of_Z height)).
Definition located_item (page : PageContext) (width height : Z) (lo : Located) : BaseTextItem :=
  let body := trim (lo_text lo) in
  let label := located_label lo in
  let base := fill_text_base page label (Layout.prov page (Some (located_area page width height lo)) (char_count body)) body in
  let item := match label with
              | DOC_ITEM_LABEL_SECTION_HEADER => kSectionHeader base (lo_level lo - 1)
              | _ => styled_item label base
              end in
  match lo_layer lo with
  | Some layer => on_text (set_tb_content_layer layer) (set_ci_content_layer layer) item
  | None => item
  end.

Lemma blank_trim text : trim text ≠ [] → blank text = false.
Proof.
  intros Hne. unfold blank. destruct (forallb _ text) eqn:E; [|done]. destruct Hne. apply trim_nil, Forall_forall.
  intros c Hc. apply list_elem_of_In in Hc. by apply (proj1 (forallb_forall _ _) E c) in Hc.
Qed.
Lemma parse_int_to_string z : 0 <= z <= int32_max → parse_int (to_string z) = Some z.
Proof.
  intros Hz. unfold parse_int. destruct (to_string_digits z) as (Hall & _); [lia|].
  rewrite trim_none by (eapply Forall_impl; [apply Hall|by intros [[] [] [] [] [] [] [] []]]).
  rewrite from_chars_ll_to_string by (unfold int32_max, int64_max in *; lia).
  unfold in_width. by rewrite !(proj2 (Z.leb_le _ _)) by (unfold int32_min; lia).
Qed.

Section Located.
Context `{ProtobufSize} `{Stb}.
Context (page : PageContext) (res : Resolution).

Lemma location_value v : 0 <= v <= int32_max → parse_int (attr (location v) (lit "value") (lit "0")) = Some v.
Proof. apply parse_int_to_string. Qed.
Lemma located_head lo : located_ok lo → head_nodes (located_node lo) = (location <$> located_box lo) ++ layer_nodes (lo_layer lo).
Proof.
  intros (_ & _ & _ & _ & Hne). apply blank_trim in Hne. destruct lo as [tag level x0 y0 x1 y1 layer text].
  cbn [lo_text] in Hne. destruct layer; unfold head_nodes, blank_text; cbn -[blank]; by rewrite Hne.
Qed.
Lemma located_layer lo : located_ok lo → head_layer (located_node lo) = lo_layer lo.
Proof.
  intros Hok. unfold head_layer. rewrite located_head by done. destruct Hok as (_ & _ & _ & Hl & _).
  destruct lo as [tag level x0 y0 x1 y1 [[]|] text]; done.
Qed.
Lemma located_head_box lo :
  located_ok lo → 0 < re_w res → 0 < re_h res →
  head_box page res (located_node lo) = Some (located_area page (re_w res) (re_h res) lo).
Proof.
  intros Hok Hw Hh. unfold head_box, box_of. rewrite located_head by done. destruct Hok as (_ & _ & Hb & _).
  unfold located_box in *. rewrite !Forall_cons in Hb. destruct Hb as (H1 & H2 & H3 & H4 & _).
  cbn [fmap list_fmap app quartet].
  change (is_element (lit "location") (location _)) with true. change (has_attr (location _) (lit "resolution")) with false.
  rewrite !location_value by done. cbn [negb default app].
  by rewrite !(proj2 (Z.ltb_lt 0 _)) by done.
Qed.

Lemma located_own lo : lo_tag lo ∈ kLocatedTags → own_text (lo_tag lo) (lo_text lo) = trim (lo_text lo).
Proof.
  intros Hl. unfold own_text. rewrite bool_decide_eq_false_2; [done|]. intros E. rewrite E in Hl.
  by apply (bool_decide_eq_true_2 (_ ∈ _)) in Hl.
Qed.
Lemma located_text lo : located_ok lo → get_text (located_node lo) = trim (lo_text lo).
Proof.
  intros (Hl & _ & _ & _ & Hne). apply blank_trim in Hne. rewrite <- located_own by done.
  destruct lo as [tag level x0 y0 x1 y1 [layer|] text]; cbn -[blank own_text] in Hne |- *; by rewrite Hne, app_nil_r.
Qed.
Lemma located_simple lo : located_ok lo → simple_text (located_node lo) = Some (trim (lo_text lo)).
Proof.
  intros (Hl & _ & _ & _ & Hne). apply blank_trim in Hne. rewrite <- located_own by done.
  destruct lo as [tag level x0 y0 x1 y1 [layer|] text]; cbn -[blank own_text] in Hne |- *; by rewrite Hne.
Qed.
Lemma located_formatting lo f :
  located_ok lo → text_with_formatting (located_node lo) f = (trim (lo_text lo), f, false).
Proof.
  intros Hok. rewrite <- located_text by done. by destruct lo as [tag level x0 y0 x1 y1 [layer|] text].
Qed.
Lemma located_elements lo : element_children (located_node lo) = [].
Proof. by destruct lo as [tag level x0 y0 x1 y1 [layer|] text]. Qed.

(** A call that adds this text under the body. *)
Definition writes (add : LayoutWriter → BodyChild * LayoutWriter) (item : BaseTextItem) : Prop :=
  ∀ w items ws, wrote_texts w items ws →
    let '(ref, w') := add w in ref = mk_BodyChild TEXT (length items) ∧ wrote_texts w' (items ++ [item]) ws.
Definition layered (layer : option ContentLayer) (item : BaseTextItem) : BaseTextItem :=
  match layer with
  | Some layer => on_text (set_tb_content_layer layer) (set_ci_content_layer layer) item
  | None => item
  end.
Lemma write_layered add item el s items ws :
  writes add item → wrote_texts (dl_writer s) items ws →
  let '(ref, s') := with_item add s in
  wrote_texts (dl_writer (apply_layer ref el s')) (items ++ [layered (head_layer el) item]) ws.
Proof.
  intros Hadd Hw. specialize (Hadd _ _ _ Hw). unfold with_item. destruct (add (dl_writer s)) as [ref w'].
  destruct Hadd as [-> Hw']. unfold apply_layer, layered. destruct (head_layer el) as [layer|]; [|done].
  apply (wrote_alter (on_text (set_tb_content_layer layer) (set_ci_content_layer layer)) _ _ _ _ Hw').
Qed.

Definition located_base (lo : Located) : TextItemBase :=
  let body := trim (lo_text lo) in
  fill_text_base page (located_label lo)
    (Layout.prov page (Some (located_area page (re_w res) (re_h res) lo)) (char_count body)) body.
(** The last steps of its handler: the item written, then its layer. *)
Lemma located_writes add lo s items ws item :
  located_ok lo → wrote_texts (dl_writer s) items ws → writes add item →
  layered (lo_layer lo) item = located_item page (re_w res) (re_h res) lo →
  ∃ s', (let '(ref, s') := with_item add s in Some (apply_layer ref (located_node lo) s')) = Some s' ∧
    wrote_texts (dl_writer s') (items ++ [located_item page (re_w res) (re_h res) lo]) ws.
Proof.
  intros Hok Hwrote Ha <-. pose proof (write_layered add item (located_node lo) s items ws Ha Hwrote) as Hs.
  rewrite located_layer in Hs by done. destruct (with_item add s). by eexists.
Qed.
Ltac located_writes item label :=
  eapply (located_writes _ _ _ _ _ item); [done|done| |unfold located_item, located_base; by rewrite label];
  intros w is_ ws' Hi; unfold located_base; rewrite label.

Lemma located_heading lo s items ws :
  located_ok lo → lo_tag lo = lit "heading" → 0 < re_w res → 0 < re_h res → wrote_texts (dl_writer s) items ws →
  ∃ s', heading_like page res (located_node lo) None s = Some s' ∧
    wrote_texts (dl_writer s') (items ++ [located_item page (re_w res) (re_h res) lo]) ws.
Proof.
  intros Hok Et Hw Hh Hwrote. pose proof Hok as (_ & Hlevel & _ & _ & Hne). unfold heading_like.
  rewrite located_text, trim_trim, (bool_decide_eq_false_2 _ Hne), located_head_box by done.
  assert (attr (located_node lo) (lit "level") (lit "1") = to_string (lo_level lo)) as ->.
  { unfold attr, located_node, located_attrs. cbn [nd_attrs]. by rewrite Et. }
  rewrite parse_int_to_string by lia. cbn [default id]. cbv zeta.
  assert (located_label lo = if lo_level lo =? 1 then DOC_ITEM_LABEL_TITLE else DOC_ITEM_LABEL_SECTION_HEADER) as Elabel.
  { unfold located_label. by rewrite Et. }
  destruct (lo_level lo =? 1) eqn:E1.
  - located_writes (kTitle (located_base lo)) Elabel. by apply wrote_push.
  - located_writes (kSectionHeader (located_base lo) (lo_level lo - 1)) Elabel.
    rewrite to_int32_id by (unfold int32_min, int32_max in *; lia). by apply wrote_push.
Qed.
(** The labels of the other elements. *)
Lemma located_labels lo :
  lo_tag lo ∈ kLocatedTags → lo_tag lo ≠ lit "heading" → lo_tag lo ≠ lit "formula" →
  text_label (lo_tag lo) = Some (located_label lo) ∧ contains kFormatTags (lo_tag lo) = false ∧
  (lo_tag lo =b lit "code") = false ∧ (lo_tag lo =b lit "formula") = false ∧
  located_label lo ∈ [DOC_ITEM_LABEL_TEXT; DOC_ITEM_LABEL_CAPTION; DOC_ITEM_LABEL_FOOTNOTE; DOC_ITEM_LABEL_PAGE_HEADER;
    DOC_ITEM_LABEL_PAGE_FOOTER].
Proof.
  intros Hl Et Ef. unfold located_label. destruct lo as [tag level x0 y0 x1 y1 layer text]. cbn [lo_tag] in *. clear -Hl Et Ef.
  repeat (apply elem_of_cons in Hl as [->|Hl];
    [first [by destruct Et|by destruct Ef|split_and!; try done; by repeat (first [left|right])]|]).
  by apply elem_of_nil in Hl.
Qed.
Lemma located_text_like dispatch lo s items ws :
  located_ok lo → lo_tag lo ≠ lit "heading" → 0 < re_w res → 0 < re_h res → wrote_texts (dl_writer s) items ws →
  ∃ s', text_like page res dispatch (located_node lo) None s = Some s' ∧
    wrote_texts (dl_writer s') (items ++ [located_item page (re_w res) (re_h res) lo]) ws.
Proof.
  intros Hok Et Hw Hh Hwrote. pose proof Hok as (Hl & _ & _ & _ & Hne). unfold text_like.
  rewrite located_elements, located_simple, located_formatting, (bool_decide_eq_false_2 _ Hne), located_head_box by done.
  change (nd_tag (located_node lo)) with (lo_tag lo). change (bool_decide (1 < length [])%nat) with false.
  cbn [negb orb andb]. cbv iota beta zeta.
  destruct (decide (lo_tag lo = lit "formula")) as [Ef|Ef].
  - assert (located_label lo = DOC_ITEM_LABEL_FORMULA) as Elabel by (unfold located_label; by rewrite Ef).
    rewrite Ef. change (lit "formula" =b lit "code") with false. change (lit "formula" =b lit "formula") with true. cbv iota.
    located_writes (kFormula (located_base lo)) Elabel. by apply wrote_push.
  - destruct (located_labels lo Hl Et Ef) as (-> & -> & -> & -> & Hlabel). cbn [orb].
    set (label := located_label lo) in *. assert (located_label lo = label) as Elabel by done. clearbody label.
    assert ((if lo_tag lo =b lit "text" then marked_label [] label else label) = label) as -> by (by destruct (_ =b lit "text")).
    eapply (located_writes _ _ _ _ _ (styled_item label (located_base lo))); [done|done| |].
    + intros w is_ ws' Hi. unfold located_base. rewrite Elabel. apply styled_wrote; [by intros ->; apply (bool_decide_eq_true_2 (_ ∈ _)) in Hlabel..|done].
    + unfold located_item, located_base. rewrite Elabel. clear -Hlabel.
      repeat (apply elem_of_cons in Hlabel as [->|Hlabel]; [done|]). by apply elem_of_nil in Hlabel.
Qed.
Lemma located_dispatch dispatch lo s items ws :
  located_ok lo → 0 < re_w res → 0 < re_h res → wrote_texts (dl_writer s) items ws →
  ∃ s', dispatch_step page res dispatch (located_node lo) None s = Some s' ∧
    wrote_texts (dl_writer s') (items ++ [located_item page (re_w res) (re_h res) lo]) ws.
Proof.
  intros Hok Hw Hh Hwrote. destruct (decide (lo_tag lo = lit "heading")) as [Et|Et].
  - assert (dispatch_step page res dispatch (located_node lo) None s = heading_like page res (located_node lo) None s) as ->.
    { unfold dispatch_step. change (nd_tag (located_node lo)) with (lo_tag lo). by rewrite Et. }
    by apply located_heading.
  - assert (dispatch_step page res dispatch (located_node lo) None s = text_like page res dispatch (located_node lo) None s) as ->.
    { unfold dispatch_step. change (nd_tag (located_node lo)) with (lo_tag lo). destruct Hok as (Hl & _).
      clear -Hl Et. destruct lo as [tag level x0 y0 x1 y1 layer text]. cbn [lo_tag] in *.
      repeat (apply elem_of_cons in Hl as [->|Hl]; [done || by destruct Et|]). by apply elem_of_nil in Hl. }
    by apply located_text_like.
Qed.
End Located.

(** ** The fragment *)

Definition kPrintedTags : list bytes :=
  kLocatedTags ++ (lit <$> ["location"; "layer"; "default_resolution"; "table"]%string) ++ kOtslTokens.
Abbreviation kCloser := (lit "</doclang>").

(** A tag and what is printed in it is not the closer. *)
Lemma skips_lt body :
  (∀ rest, starts_with (lit "/doclang>") (body ++ rest) = false) → "<"%char ∉ body → skips kCloser (lit "<" ++ body).
Proof.
  intros Hs Hno rest [|k] Hk; [apply Hs|]. apply (skips_free "<"%char (lit "/doclang>") body Hno rest k). cbn in Hk. lia.
Qed.
Lemma no_lt_attrs attrs : Forall (λ attr, "<"%char ∉ attr.1) attrs → "<"%char ∉ mjoin (print_attr <$> attrs).
Proof.
  induction 1 as [|[key value] attrs Hkey _ IH]; [by intros ?%elem_of_nil|]. cbn [fst] in Hkey.
  change (mjoin (print_attr <$> (key, value) :: attrs)) with
    (lit " " ++ (key ++ (lit "=" ++ [c_quote] ++ escape value ++ [c_quote])) ++ mjoin (print_attr <$> attrs)).
  pose proof (not_in_escape "<"%char value (or_introl eq_refl)) as He.
  rewrite !elem_of_app. intros [Hin|[[Hin|[Hin|[Hin|[Hin|Hin]]]]|Hin]]; try done; by apply (bool_decide_eq_true_2 (_ ∈ _)) in Hin.
Qed.
Lemma skips_element tag attrs children :
  tag ∈ kPrintedTags → Forall (λ attr, "<"%char ∉ attr.1) attrs → skips kCloser (print_nodes children) →
  skips kCloser (print_node (mk_MarkupNode tag [] attrs children)).
Proof.
  intros Htag Hattrs Hch. assert (tag ≠ []) as Hne by (intros ->; by apply (bool_decide_eq_true_2 (_ ∈ _)) in Htag).
  rewrite print_node_element by done. apply skips_app; [|apply skips_app; [done|]].
  - apply no_lt_attrs in Hattrs. apply skips_lt.
    + intros rest. clear -Htag. repeat (apply elem_of_cons in Htag as [->|Htag]; [done|]). by apply elem_of_nil in Htag.
    + assert ("<"%char ∉ tag) as Hno.
      { clear -Htag. repeat (apply elem_of_cons in Htag as [->|Htag]; [by apply not_contains|]). by apply elem_of_nil in Htag. }
      rewrite !elem_of_app. intros [Hin|[Hin|Hin]]; try done. by apply (bool_decide_eq_true_2 (_ ∈ _)) in Hin.
  - clear -Htag. repeat (apply elem_of_cons in Htag as [->|Htag];
      [apply (skips_lt (_ :: _)); [done|by apply not_contains]|]). by apply elem_of_nil in Htag.
Qed.
Lemma skips_nodes nodes : Forall (λ node, skips kCloser (print_node node)) nodes → skips kCloser (print_nodes nodes).
Proof.
  induction 1 as [|node nodes Hn _ IH]; [apply skips_nil|]. by apply (skips_app _ (print_node node)).
Qed.

(** A fragment and what is around it. *)
Lemma doclang_fragment_at before body after :
  "<"%char ∉ before → skips kCloser body →
  doclang_fragment (before ++ (lit "<doclang>" ++ body ++ kCloser) ++ after) = Some (lit "<doclang>" ++ body ++ kCloser).
Proof.
  intros Hb Hs. set (text := before ++ (lit "<doclang>" ++ body ++ kCloser) ++ after).
  assert (find (lit "<doclang") text 0 = Some (length before)) as Hopen.
  { apply (find_after _ [] before (lit ">" ++ body ++ kCloser ++ after)); [|done|by apply skips_free].
    unfold text. by rewrite <- !app_assoc. }
  assert (opens_doclang text (length before) = true) as Htag.
  { unfold opens_doclang, char_at, text. rewrite lookup_app_r by lia. by replace (length before + 8 - length before)%nat with 8%nat by lia. }
  assert (find kCloser text (length before) = Some (length before + length (lit "<doclang>" ++ body))%nat) as Hclose.
  { apply (find_after _ before (lit "<doclang>" ++ body) after); [unfold text; by rewrite <- !app_assoc|done|].
    apply skips_app; [|done]. apply (skips_lt (lit "doclang>")); [done|by apply not_contains]. }
  unfold doclang_fragment. assert (run_loop false (S (length text)) (open_step text) 0%nat = true) as ->.
  { unfold run_loop. cbn [loop]. unfold open_step at 1. by rewrite Hopen, Htag. }
  cbn [negb]. rewrite Hopen. cbn [mbind option_bind]. rewrite Hclose. cbn [mbind option_bind]. f_equal.
  apply (substr_cut _ before _ after); [done|done|]. rewrite !length_app. cbn [length lit String.list_ascii_of_string]. lia.
Qed.

Lemma location_skips v : skips kCloser (print_node (location v)).
Proof.
  apply skips_element; [|by repeat constructor; apply not_contains|apply skips_nil].
  by apply (bool_decide_eq_true_1 (_ ∈ _)).
Qed.
Lemma located_skips lo : located_ok lo → skips kCloser (print_node (located_node lo)).
Proof.
  intros (Hl & _). apply skips_element.
  - apply elem_of_app. by left.
  - unfold located_attrs. destruct (_ =b _); [by repeat constructor; apply not_contains|constructor].
  - apply skips_nodes. apply Forall_app_2; [apply Forall_fmap, Forall_true; intros v; apply location_skips|].
    apply Forall_app_2.
    + destruct (lo_layer lo); constructor; [|constructor]. apply skips_element; [|by repeat constructor; apply not_contains|apply skips_nil].
      by apply (bool_decide_eq_true_1 (_ ∈ _)).
    + constructor; [|constructor]. apply skips_free, (not_in_escape _ (lo_text lo)). by left.
Qed.
Lemma doclang_children_skips width height los :
  Forall located_ok los → skips kCloser (print_nodes (nd_children (doclang_node width height los))).
Proof.
  intros Hok. apply skips_nodes. constructor.
  - apply skips_element; [|by repeat constructor; apply not_contains|apply skips_nil].
    by apply (bool_decide_eq_true_1 (_ ∈ _)).
  - apply Forall_fmap. eapply Forall_impl; [apply Hok|apply located_skips].
Qed.

(** ** What is printed reads back *)

Lemma short_element room tag attrs children :
  tag ∈ kPrintedTags ∨ tag = lit "doclang" → Forall (attr_ok kXml) attrs →
  Forall (λ attr, (length attr.1 ≤ 32)%nat ∧ (length (escape attr.2) ≤ 192)%nat) attrs → (length attrs ≤ 2)%nat →
  separated children → nodes_ok kXml room children → node_ok kXml (S room) (mk_MarkupNode tag [] attrs children).
Proof.
  intros Htag Hok Hlen Hn Hsep Hch.
  assert (tag_name_ok kXml [] tag ∧ (length tag ≤ 32)%nat) as [Hname Htl].
  { clear -Htag. destruct Htag as [Htag| ->]; [|split; [split_and!; try done; by repeat constructor|cbn; lia]].
    repeat (apply elem_of_cons in Htag as [->|Htag]; [split; [split_and!; try done; by repeat constructor|cbn; lia]|]).
    by apply elem_of_nil in Htag. }
  apply element_intro; try done. unfold print_open. rewrite !length_app.
  enough (length (mjoin (print_attr <$> attrs)) ≤ length attrs * 240)%nat as Ha by (cbn [length lit String.list_ascii_of_string]; lia).
  clear -Hlen. induction Hlen as [|[key value] attrs [Hk Hv] _ IH]; [done|].
  change (mjoin (print_attr <$> (key, value) :: attrs)) with (print_attr (key, value) ++ mjoin (print_attr <$> attrs)).
  unfold print_attr at 1. cbn [fst snd] in *. rewrite !length_app. cbn [length lit String.list_ascii_of_string]. lia.
Qed.
Lemma number_attr (key : bytes) z :
  0 <= z <= int32_max → (length key ≤ 32)%nat →
  (length (key, to_string z).1 ≤ 32)%nat ∧ (length (escape (key, to_string z).2) ≤ 192)%nat.
Proof.
  intros Hz Hk. split; [done|]. cbn [snd]. pose proof (length_escape (to_string z)).
  pose proof (length_to_string z ltac:(unfold int32_max in *; lia)). lia.
Qed.
Lemma key_ok key value :
  negb (key =b []) && forallb attr_char key = true → attr_ok kXml (key, value).
Proof.
  intros [Hne%negb_true_iff Hall]%andb_true_iff. split_and!; [by apply bool_decide_eq_false_1 in Hne| |done].
  apply Forall_forall. intros c Hc%list_elem_of_In. by apply (proj1 (forallb_forall _ _) Hall).
Qed.
Lemma location_ok room v : 0 <= v <= int32_max → node_ok kXml (S room) (location v).
Proof.
  intros Hv. apply short_element; try done; [left; by apply (bool_decide_eq_true_1 (_ ∈ _))| | |cbn; lia].
  - by repeat constructor; apply key_ok.
  - constructor; [apply number_attr; [done|cbn; lia]|constructor].
Qed.
Lemma located_node_ok room lo : located_ok lo → node_ok kXml (S (S room)) (located_node lo).
Proof.
  intros (Hl & Hlevel & Hb & _ & Hne). apply short_element.
  - left. apply elem_of_app. by left.
  - unfold located_attrs. destruct (_ =b _); repeat constructor; by apply key_ok.
  - unfold located_attrs. destruct (_ =b _); constructor; [apply number_attr; [lia|cbn; lia]|constructor].
  - unfold located_attrs. destruct (_ =b _); cbn; lia.
  - destruct lo as [tag level x0 y0 x1 y1 [layer|] text]; by repeat (split; [by intros [? _]|]).
  - unfold located_box in Hb. rewrite !Forall_cons in Hb. destruct Hb as (H1 & H2 & H3 & H4 & _).
    unfold located_box. cbn [fmap list_fmap app nodes_ok foldr]. split_and!; try by apply location_ok.
    assert (node_ok kXml (S room) (text_node (lo_text lo))) as Htext by (apply text_intro; by intros E; rewrite E in Hne).
    destruct (lo_layer lo) as [layer|]; [|done]. split; [|done].
    apply short_element; try done; [left; by apply (bool_decide_eq_true_1 (_ ∈ _))| | |cbn; lia].
    + by repeat constructor; apply key_ok.
    + constructor; [|constructor]. destruct layer; cbn; lia.
Qed.
Lemma doclang_node_ok width height los :
  Forall located_ok los → 0 < width <= int32_max → 0 < height <= int32_max →
  nodes_ok kXml kMaxMarkupDepth [doclang_node width height los].
Proof.
  intros Hok Hw Hh. split; [|done]. change kMaxMarkupDepth with (S (S (S 125))).
  apply short_element; [by right|done|done|cbn; lia| |].
  - assert (∀ lo node, located_ok lo → ¬ (is_text (located_node lo) = true ∧ is_text node = true)) as Hel.
    { intros lo node (Hl & _) [E%bool_decide_eq_true_1 _]. cbn [located_node nd_tag] in E. rewrite E in Hl.
      by apply (bool_decide_eq_true_2 (_ ∈ _)) in Hl. }
    assert (separated (located_node <$> los)) as Hsep.
    { induction Hok as [|lo los Hlo Hok IH]; [done|]. destruct los as [|lo' los]; [done|]. split; [by apply Hel|done]. }
    destruct los; [done|]. split; [by intros [? _]|done].
  - split.
    + apply short_element; try done; [left; by apply (bool_decide_eq_true_1 (_ ∈ _))| |].
      * by repeat constructor; apply key_ok.
      * constructor; [apply number_attr; [lia|cbn; lia]|]. constructor; [apply number_attr; [lia|cbn; lia]|constructor].
    + induction Hok as [|lo los Hlo _ IH]; [done|]. split; [by apply located_node_ok|done].
Qed.

(** ** The walk over a page *)

Section Page.
Context `{ProtobufSize} `{Stb}.
Context (page : PageContext).

Lemma resolution_of width height los :
  0 < width <= int32_max → 0 < height <= int32_max →
  set_resolution (doclang_node width height los) = mk_Resolution width height width.
Proof.
  intros Hw Hh. unfold set_resolution.
  change (find_element (lit "default_resolution") (doclang_node width height los)) with (Some (resolution_node width height)).
  cbv iota zeta.
  change (attr (resolution_node width height) (lit "width") (lit "0")) with (to_string width).
  change (attr (resolution_node width height) (lit "height") (lit "0")) with (to_string height).
  rewrite !parse_int_to_string by lia. by rewrite !(proj2 (Z.ltb_lt 0 _)) by lia.
Qed.
Lemma elements_located los : Forall located_ok los → elements_of (located_node <$> los) = located_node <$> los.
Proof.
  unfold elements_of. induction 1 as [|lo los (Hl & _) _ IH]; [done|]. rewrite fmap_cons, filter_cons_True; [by f_equal|].
  apply bool_decide_eq_false_2. intros E. cbn [located_node nd_tag] in E. rewrite E in Hl.
  by apply (bool_decide_eq_true_2 (_ ∈ _)) in Hl.
Qed.
Lemma located_walk res fuel los s items ws :
  Forall located_ok los → 0 < re_w res → 0 < re_h res → wrote_texts (dl_writer s) items ws →
  ∃ s', dispatch_all (doclang_dispatch page res (S fuel)) (located_node <$> los) None s = Some s' ∧
    wrote_texts (dl_writer s') (items ++ (located_item page (re_w res) (re_h res) <$> los)) ws.
Proof.
  intros Hok Hw Hh. revert s items. induction Hok as [|lo los Hlo _ IH]; intros s items Hs.
  - exists s. by rewrite app_nil_r.
  - rewrite !fmap_cons. unfold dispatch_all. cbn [foldM].
    destruct (located_dispatch page res (doclang_dispatch page res fuel) lo s items ws Hlo Hw Hh Hs) as (s1 & Hd & Hs1).
    change (doclang_dispatch page res (S fuel) (located_node lo) None s) with
      (dispatch_step page res (doclang_dispatch page res fuel) (located_node lo) None s).
    rewrite Hd. cbn [mbind option_bind]. destruct (IH s1 _ Hs1) as (s2 & Hr & Hs2). exists s2. split; [done|].
    by rewrite (cons_middle (located_item page (re_w res) (re_h res) lo)), app_assoc.
Qed.
Lemma doclang_walk width height los w ws :
  Forall located_ok los → 0 < width <= int32_max → 0 < height <= int32_max → wrote_texts w [] ws →
  ∃ s, walk_root page (mk_Resolution width height width) (doclang_node width height los) (mk_DocLang w None) = Some s ∧
    wrote_texts (dl_writer s) (located_item page width height <$> los) ws.
Proof.
  intros Hok Hw Hh Hwrote. unfold walk_root. set (root := doclang_node width height los).
  destruct (MarkupTree.height root) as [|fuel] eqn:E.
  { assert (resolution_node width height ∈ nd_children root) as Hin by left. apply height_child in Hin. lia. }
  assert (elements_of (nd_children root) = resolution_node width height :: (located_node <$> los)) as ->.
  { cbn [root doclang_node nd_children]. unfold elements_of. rewrite filter_cons_True by done. f_equal. by apply elements_located. }
  unfold dispatch_all. cbn [foldM].
  change (doclang_dispatch page (mk_Resolution width height width) (S fuel) (resolution_node width height) None (mk_DocLang w None))
    with (Some (mk_DocLang w None)). cbn [mbind option_bind].
  apply (located_walk (mk_Resolution width height width) fuel los (mk_DocLang w None) [] ws); [done|cbn; lia|cbn; lia|done].
Qed.

(** Every page with a root is finished. *)
Definition doclang_root (text : bytes) : option MarkupNode :=
  doclang_fragment text ≫= λ fragment, find_element (lit "doclang") (parse_markup fragment kXml).
Lemma map_doclang_built text ws :
  match doclang_root text with
  | None => map_doclang page text Document_empty ws = MapFailed kNoFragment
  | Some _ => ∃ w doc ws', built page w ∧ map_doclang page text Document_empty ws = Mapped doc ws' ∧
      finish page (lit "DocLang") true w = Mapped doc ws'
  end.
Proof.
  unfold map_doclang. fold (doclang_root text). destruct (doclang_root text) as [root|]; [|done].
  set (w0 := LayoutWriter_new page Document_empty ws).
  destruct (walk_root_ok page (set_resolution root) root (mk_DocLang w0 None)) as (s & -> & Hg).
  destruct (finish_empty_ok page (lit "DocLang") (dl_writer s)) as (doc & ws' & Hf).
  exists (dl_writer s), doc, ws'. split; [apply Hg, built_new|done].
Qed.
End Page.

(** * Properties *)

(** A DocLang answer fails a page only where it holds no <doclang> element:
    every other one, however nested or broken, is walked to its end, and the
    document's items all hang from its body. *)
Theorem map_doclang_total `{ProtobufSize} `{Stb} page text ws :
  match doclang_root text with
  | None => map_doclang page text Document_empty ws = MapFailed kNoFragment
  | Some _ => whole_page (map_doclang page text Document_empty ws) 0
  end.
Proof.
  pose proof (map_doclang_built page text ws) as Hb. destruct (doclang_root text); [|done].
  destruct Hb as (w & doc & ws' & Hb & Hm & Hf). apply (built_whole_page page _ _ _ _ _ _ Hb Hf Hm). lia.
Qed.

(** C20: A DocLang page of located texts reads back as it was printed, whatever
    the model wrote behind the fragment and whatever text without a '<' it wrote
    before it: exactly one text item per element, each directly under the body,
    which lists them in order; there is no other item of any kind, no group and no
    field region.  An item has the element's label, its trimmed text,
    the box its corners span scaled from the fragment's grid to the page and the
    layer its head names; a heading of level 1 is a title, any other one a section
    header one level up. *)
Theorem map_doclang_roundtrip `{ProtobufSize} `{Stb} page width height los before after ws :
  los ≠ [] → Forall located_ok los → 0 < width <= int32_max → 0 < height <= int32_max → "<"%char ∉ before →
  ∃ doc, map_doclang page (before ++ print_node (doclang_node width height los) ++ after) Document_empty ws = Mapped doc ws ∧
    text_page doc (located_item page width height <$> los) ∧
    item_text <$> doc_texts doc = (λ lo, trim (lo_text lo)) <$> los.
Proof.
  intros Hne Hok Hw Hh Hb. set (root := doclang_node width height los).
  assert (print_node root = lit "<doclang>" ++ print_nodes (nd_children root) ++ lit "</doclang>") as Hp by done.
  assert (doclang_root (before ++ print_node root ++ after) = Some root) as Hroot.
  { unfold doclang_root. rewrite Hp, doclang_fragment_at; [|done|by apply doclang_children_skips]. cbn [mbind option_bind].
    rewrite <- Hp, <- (app_nil_r (print_node root)). change (print_node root ++ []) with (print_nodes [root]).
    rewrite parse_print_nodes; [done|by apply doclang_node_ok|done]. }
  unfold map_doclang. fold (doclang_root (before ++ print_node root ++ after)). rewrite Hroot. unfold root.
  rewrite resolution_of by done.
  destruct (doclang_walk page width height los (LayoutWriter_new page Document_empty ws) ws) as (s & -> & Hs); [done..|].
  destruct (finish_wrote_texts page (lit "DocLang") true _ _ _ (ltac:(by destruct los) : located_item page width height <$> los ≠ []) Hs)
    as (doc & Hf & Ht).
  exists doc. split_and!; try done.
  rewrite (text_page_fmap item_text _ _ item_text_stamp Ht), <- list_fmap_compose.
  apply list_fmap_ext. intros i lo _. cbn. unfold located_item. destruct (lo_layer lo); by destruct (located_label lo).
Qed.

(** ** Witness and small inputs *)

Definition toy_located : list Located :=
  [mk_Located (lit "heading") 2 10 20 300 40 None (lit " Bounds ");
   mk_Located (lit "text") 1 500 60 0 50 (Some CONTENT_LAYER_NOTES) (lit "a < b & c"); mk_Located (lit "page_footer") 1 0 490 512 512 None (lit "7")].
Lemma toy_located_ok : Forall located_ok toy_located.
Proof.
  repeat (constructor; [split_and!; [by apply (bool_decide_eq_true_1 (_ ∈ _))|by vm_compute|by vm_compute|
    by apply (bool_decide_eq_true_1 (Forall _ _))|done|by vm_compute]|]). constructor.
Qed.
Lemma map_doclang_roundtrip_witness : ∃ doc,
  @map_doclang toy_size toy_stb toy_page (lit "Here: " ++ print_node (doclang_node 512 512 toy_located) ++ lit " done") Document_empty None
    = Mapped doc None ∧
  item_text <$> doc_texts doc = [lit "Bounds"; lit "a < b & c"; lit "7"].
Proof.
  destruct (@map_doclang_roundtrip toy_size toy_stb toy_page 512 512 toy_located (lit "Here: ") (lit " done") None)
    as (doc & Hmap & _ & Ht).
  - done.
  - apply toy_located_ok.
  - done.
  - done.
  - by apply not_contains.
  - exists doc. split; [apply Hmap|]. rewrite Ht. vm_compute. reflexivity.
Defined.

Example doclang_list_small :
  match @map_doclang toy_size toy_stb toy_page
    (lit "<doclang><list><ldiv><marker>1.</marker></ldiv>one<ldiv/>two <bold>b</bold><ldiv/><text>three</text></list></doclang>")
    Document_empty None with
  | Mapped doc _ => item_text <$> doc_texts doc = [lit "one"; []; lit "two"; lit "b"; lit "three"] ∧ length (doc_groups doc) = 2%nat
  | MapFailed _ => False
  end.
Proof. vm_compute. done. Qed.
Example doclang_table_small :
  (λ cell, (sp_row cell, sp_col cell, sp_row_span cell, sp_col_span cell, sp_text cell)) <$>
    otsl_cells (nd_children (parse_markup (lit "<ched/>a<lcel/><nl/><fcel/> b <fcel/>c<nl/><nl/><ucel/><ecel/><nl/>") kXml)) =
  [(0, 0, 1, 2, lit "a"); (1, 0, 2, 1, lit "b"); (1, 1, 1, 1, lit "c"); (2, 1, 1, 1, [])]%nat.
Proof. vm_compute. reflexivity. Qed.
