(* ===== verification/DoclangTables.v ===== *)
(** DocLang tables (src/mapping/doclang.cpp, [otsl_cells]): what the OTSL tokens
    of a <table> mean.  What is proved: any exact tiling of a grid by spanned
    cells, written as tokens, is read back as its cells, also through the parser
    and the whole mapper. *)
From S2P Require Import Prelude Numbers Double Proto ImageCrop Builder OtslGrid Tree MarkupTree LayoutText Layout LayoutGrows Tilings DoclangText Doclang.

(** * Writing a table *)

Definition origin_token (cell : SpanCell) : bytes :=
  if sp_column_header cell then if sp_row_header cell then lit "corn" else lit "ched"
  else if sp_row_header cell then lit "rhed"
  else if sp_text cell =b [] then lit "ecel" else lit "fcel".
(** A span's first row goes on to the right with lcel, its first column below with
    ucel, the rest is xcel. *)
Definition cell_token (cell : SpanCell) (r c : nat) : bytes :=
  if bool_decide (r = sp_row cell) then
    if bool_decide (c = sp_col cell) then origin_token cell else lit "lcel"
  else if bool_decide (c = sp_col cell) then lit "ucel" else lit "xcel".
Definition grid_token (cells : list SpanCell) (r c : nat) : bytes :=
  match owner cells r c with Some cell => cell_token cell r c | None => lit "ecel" end.
Definition token_node (token : bytes) : MarkupNode := mk_MarkupNode token [] [] [].
Definition slot_nodes (cells : list SpanCell) (r c : nat) : list MarkupNode :=
  token_node (grid_token cells r c) ::
  match anchored cells r c with Some cell => text_nodes (sp_text cell) | None => [] end.
Definition row_nodes (cells : list SpanCell) (cols r : nat) : list MarkupNode :=
  mjoin (slot_nodes cells r <$> seq 0 cols) ++ [token_node (lit "nl")].
Definition table_nodes (cells : list SpanCell) (rows cols : nat) : list MarkupNode :=
  mjoin (row_nodes cells cols <$> seq 0 rows).
Definition table_node (cells : list SpanCell) (rows cols : nat) : MarkupNode :=
  mk_MarkupNode (lit "table") [] [] (table_nodes cells rows cols).

(** A cell as a model writes it. *)
Definition plain_span (cell : SpanCell) : Prop := trim (sp_text cell) = sp_text cell ∧ sp_node cell = None.

(** * Positions *)

Section Tiling.
Variables (rows cols : nat) (cells : list SpanCell).
Hypothesis Htiling : tiling rows cols cells.

Lemma grid_token_in r c : grid_token cells r c ∈ kOtslTokens ∧ grid_token cells r c ≠ lit "nl".
Proof.
  unfold grid_token, cell_token, origin_token. destruct (owner cells r c) as [cell|]; repeat case_match;
    (split; [apply (bool_decide_unpack _); by vm_compute|done]).
Qed.

Lemma cell_token_right cell r c : is_right (cell_token cell r c) = bool_decide (c ≠ sp_col cell).
Proof. unfold cell_token, origin_token. repeat case_match; repeat case_bool_decide; done. Qed.
Lemma cell_token_below cell r c : is_below (cell_token cell r c) = bool_decide (r ≠ sp_row cell).
Proof. unfold cell_token, origin_token. repeat case_match; repeat case_bool_decide; done. Qed.
Lemma grid_token_right r c cell : owner cells r c = Some cell → is_right (grid_token cells r c) = bool_decide (c ≠ sp_col cell).
Proof. unfold grid_token. intros ->. apply cell_token_right. Qed.
Lemma grid_token_below r c cell : owner cells r c = Some cell → is_below (grid_token cells r c) = bool_decide (r ≠ sp_row cell).
Proof. unfold grid_token. intros ->. apply cell_token_below. Qed.

(** Where a span ends, the next one begins. *)
Lemma neighbour_right cell r : cell ∈ cells → (sp_row cell ≤ r < sp_end_row cell)%nat → (sp_end_col cell < cols)%nat →
  is_right (grid_token cells r (sp_end_col cell)) = false.
Proof using Htiling.
  intros Hin Hr Hc. destruct (cell_inside _ _ _ Htiling cell Hin) as (? & ? & ? & _).
  destruct (tl_cover _ _ _ Htiling r (sp_end_col cell)) as (next & Hn & Hcov); [lia|done|].
  rewrite (grid_token_right _ _ next) by (by eapply owner_unique). apply bool_decide_eq_false_2. intros Hne.
  assert (next = cell) as ->.
  { apply (tl_disjoint _ _ _ Htiling _ _ r (sp_end_col cell - 1)); try done; unfold span_covers, sp_end_row, sp_end_col in *; lia. }
  unfold span_covers in Hcov. lia.
Qed.
Lemma neighbour_below cell c : cell ∈ cells → (sp_col cell ≤ c < sp_end_col cell)%nat → (sp_end_row cell < rows)%nat →
  is_below (grid_token cells (sp_end_row cell) c) = false.
Proof using Htiling.
  intros Hin Hc Hr. destruct (cell_inside _ _ _ Htiling cell Hin) as (? & ? & _ & ?).
  destruct (tl_cover _ _ _ Htiling (sp_end_row cell) c) as (next & Hn & Hcov); [done|lia|].
  rewrite (grid_token_below _ _ next) by (by eapply owner_unique). apply bool_decide_eq_false_2. intros Hne.
  assert (next = cell) as ->.
  { apply (tl_disjoint _ _ _ Htiling _ _ (sp_end_row cell - 1) c); try done; unfold span_covers, sp_end_row, sp_end_col in *; lia. }
  unfold span_covers in Hcov. lia.
Qed.

(** * The spans *)

Lemma run_length_exact {A} (p : A → bool) l n :
  (∀ i x, (i < n)%nat → l !! i = Some x → p x = true) → (n ≤ length l)%nat → (∀ x, l !! n = Some x → p x = false) →
  run_length p l = n.
Proof.
  revert n. induction l as [|x l IH]; intros [|n] Hin Hlen Hout; try done; cbn in Hlen; try lia.
  - cbn. by rewrite (Hout x).
  - cbn. rewrite (Hin 0%nat x) by (done || lia). f_equal. apply IH; [|lia|].
    + intros i y Hi Hy. apply (Hin (S i)); [lia|done].
    + intros y Hy. by apply Hout.
Qed.
Definition token_grid : list (list bytes) := (λ r, grid_token cells r <$> seq 0 cols) <$> seq 0 rows.
Lemma token_grid_row r : (r < rows)%nat → token_grid !! r = Some (grid_token cells r <$> seq 0 cols).
Proof. intros Hr. unfold token_grid. rewrite list_lookup_fmap, lookup_seq_lt by done. done. Qed.
Lemma row_lookup r c : (c < cols)%nat → (grid_token cells r <$> seq 0 cols) !! c = Some (grid_token cells r c).
Proof. intros Hc. rewrite list_lookup_fmap, lookup_seq_lt by done. done. Qed.
Lemma col_run cell : cell ∈ cells →
  S (run_length is_right (drop (S (sp_col cell)) (default [] (token_grid !! sp_row cell)))) = sp_col_span cell.
Proof using Htiling.
  intros Hin. destruct (cell_inside _ _ _ Htiling cell Hin) as (? & ? & ? & ?). unfold sp_end_row, sp_end_col in *.
  rewrite token_grid_row by lia. cbn [default from_option id].
  rewrite (run_length_exact _ _ (sp_col_span cell - 1)); [lia| |rewrite length_drop, length_fmap, length_seq; lia|].
  - intros i t Hi. rewrite lookup_drop, row_lookup by lia. intros [= <-].
    rewrite (grid_token_right _ _ cell) by (eapply owner_unique; [done..|]; unfold span_covers, sp_end_row, sp_end_col; lia).
    apply bool_decide_eq_true_2. lia.
  - intros t. rewrite lookup_drop. replace (S (sp_col cell) + (sp_col_span cell - 1))%nat with (sp_end_col cell) by (unfold sp_end_col; lia).
    intros Ht. pose proof (lookup_lt_Some _ _ _ Ht) as Hlt. rewrite length_fmap, length_seq in Hlt.
    rewrite row_lookup in Ht by done. injection Ht as <-. apply neighbour_right; [done|unfold sp_end_row; lia|done].
Qed.
Lemma row_run cell : cell ∈ cells →
  S (run_length (λ row, is_below (default [] (row !! sp_col cell))) (drop (S (sp_row cell)) token_grid)) = sp_row_span cell.
Proof using Htiling.
  intros Hin. destruct (cell_inside _ _ _ Htiling cell Hin) as (? & ? & ? & ?). unfold sp_end_row, sp_end_col in *.
  rewrite (run_length_exact _ _ (sp_row_span cell - 1)); [lia| |rewrite length_drop; unfold token_grid; rewrite length_fmap, length_seq; lia|].
  - intros i row Hi. rewrite lookup_drop, token_grid_row by lia. intros [= <-]. rewrite row_lookup by lia. cbn [default from_option id].
    rewrite (grid_token_below _ _ cell) by (eapply owner_unique; [done..|]; unfold span_covers, sp_end_row, sp_end_col; lia).
    apply bool_decide_eq_true_2. lia.
  - intros row. rewrite lookup_drop. replace (S (sp_row cell) + (sp_row_span cell - 1))%nat with (sp_end_row cell) by (unfold sp_end_row; lia).
    intros Ht. pose proof (lookup_lt_Some _ _ _ Ht) as Hlt. unfold token_grid in Hlt. rewrite length_fmap, length_seq in Hlt.
    rewrite token_grid_row in Ht by done. injection Ht as <-. rewrite row_lookup by lia.
    apply neighbour_below; [done|unfold sp_end_col; lia|done].
Qed.

(** * Reading the tokens *)

Lemma token_of_token token : token ∈ kOtslTokens → token_of (token_node token) = Some token.
Proof. unfold kOtslTokens. cbn [fmap list_fmap]. intros Hin. repeat (apply elem_of_cons in Hin as [->|Hin]; [done|]). by apply elem_of_nil in Hin. Qed.
Lemma token_of_nl : token_of (token_node (lit "nl")) = Some (lit "nl").
Proof. done. Qed.
Lemma token_of_grid r c : token_of (token_node (grid_token cells r c)) = Some (grid_token cells r c).
Proof. apply token_of_token, grid_token_in. Qed.
Lemma token_of_text text : Forall (λ node, token_of node = None) (text_nodes text).
Proof. unfold text_nodes. destruct (text =b []); repeat constructor. Qed.

Lemma otsl_skip nodes body r c started rws :
  Forall (λ node, token_of node = None) nodes → otsl_from rws (nodes ++ body) r c started = otsl_from rws body r c started.
Proof. induction 1 as [|node nodes Hn _ IH]; [done|]. cbn [app otsl_from]. by rewrite Hn. Qed.
Lemma otsl_token rws node body r c started t : token_of node = Some t → t ≠ lit "nl" →
  otsl_from rws (node :: body) r c started =
  let '(text, parts, next_token) :=
    if t =b lit "ecel" then ([], false, default [] (head body ≫= token_of)) else cell_content body [] false in
  (if contains kContinuations t && (trim text =b []) && negb parts then [] else [otsl_cell rws r c t text next_token]) ++
  otsl_from rws body r (if contains kOrigins t || contains kContinuations t then S c else c) true.
Proof. intros Ht Hnl. cbn [otsl_from]. rewrite Ht. by rewrite (bool_decide_eq_false_2 _ Hnl). Qed.
Lemma cell_content_text text token rest :
  token_of (token_node token) = Some token →
  let '(text', parts, next) := cell_content (text_nodes text ++ token_node token :: rest) [] false in
  text' = trim text ∧ next = token ∧ (text = [] → parts = false).
Proof.
  intros Ht. unfold text_nodes. case_bool_decide as E.
  - subst text. cbn [app cell_content]. by rewrite Ht.
  - cbn [app cell_content]. change (token_of (text_node text)) with (@None bytes).
    change (is_text (text_node text)) with true. cbn [nd_text text_node]. rewrite Ht. split_and!; [done|done|intros ?; contradiction].
Qed.

Lemma anchored_token r c cell : anchored cells r c = Some cell → grid_token cells r c = origin_token cell.
Proof.
  unfold anchored, grid_token, cell_token. destruct (owner cells r c) as [cell'|]; [|done].
  case_bool_decide as Ha; [|done]. intros [= ->]. destruct Ha as [-> ->]. by rewrite !bool_decide_eq_true_2.
Qed.
Lemma unanchored_token r c : (r < rows)%nat → (c < cols)%nat → anchored cells r c = None →
  contains kContinuations (grid_token cells r c) = true.
Proof using Htiling.
  intros Hr Hc. destruct (tl_cover _ _ _ Htiling r c Hr Hc) as (cell & Hin & Hcov).
  unfold anchored, grid_token, cell_token. rewrite (owner_unique rows cols cells Htiling r c cell) by done.
  case_bool_decide as Ha; [done|]. intros _. repeat case_bool_decide; try done. by destruct Ha.
Qed.
Lemma next_run r c cell token : anchored cells r c = Some cell → 
  token = (if bool_decide (S c < cols)%nat then grid_token cells r (S c) else lit "nl") →
  S (if is_right token then run_length is_right (drop (S c) (default [] (token_grid !! r))) else 0) = sp_col_span cell.
Proof using Htiling.
  intros (Hin & -> & ->)%anchored_cell ->. rewrite <- (col_run cell Hin).
  destruct (cell_inside _ _ _ Htiling cell Hin) as (? & ? & ? & ?). unfold sp_end_row, sp_end_col in *.
  rewrite token_grid_row by lia. cbn [default from_option id].
  case_bool_decide as Hc.
  - rewrite (drop_S _ (grid_token cells (sp_row cell) (S (sp_col cell)))) by (by apply row_lookup).
    cbn [run_length]. by destruct (is_right _).
  - rewrite drop_ge by (rewrite length_fmap, length_seq; lia). done.
Qed.
Lemma origin_token_cell cell row_span col_span :
  plain_span cell → row_span = sp_row_span cell → col_span = sp_col_span cell →
  mk_SpanCell (sp_row cell) (sp_col cell) row_span col_span (trim (trim (sp_text cell)))
    ((origin_token cell =b lit "ched") || (origin_token cell =b lit "corn"))
    ((origin_token cell =b lit "rhed") || (origin_token cell =b lit "corn")) None = cell.
Proof.
  intros [Ht Hn] -> ->. rewrite !Ht. destruct cell as [r c rs cs text [] [] node]; cbn in *; subst; try done.
  unfold origin_token. cbn [sp_column_header sp_row_header sp_text]. destruct (text =b []); reflexivity.
Qed.
Lemma origin_ecel cell : origin_token cell = lit "ecel" → sp_text cell = [].
Proof.
  unfold origin_token. destruct (sp_column_header cell), (sp_row_header cell); try done.
  by case_bool_decide.
Qed.

Hypothesis Hplain : Forall plain_span cells.
Definition next_of (r c : nat) : bytes := if bool_decide (S c < cols)%nat then grid_token cells r (S c) else lit "nl".
Lemma token_of_next r c : token_of (token_node (next_of r c)) = Some (next_of r c).
Proof. unfold next_of. case_bool_decide; [apply token_of_grid|done]. Qed.
(** One position: its cell, if one starts there. *)
Lemma otsl_slot r c started rest :
  (r < rows)%nat → (c < cols)%nat →
  otsl_from token_grid (slot_nodes cells r c ++ token_node (next_of r c) :: rest) r c started =
  option_list (anchored cells r c) ++ otsl_from token_grid (token_node (next_of r c) :: rest) r (S c) true.
Proof using Htiling Hplain.
  intros Hr Hc. unfold slot_nodes. pose proof (grid_token_in r c) as [_ Hnl].
  rewrite <- app_comm_cons. set (body := (match anchored cells r c with Some cell => text_nodes (sp_text cell) | None => [] end) ++ token_node (next_of r c) :: rest).
  rewrite (otsl_token _ _ _ _ _ _ _ (token_of_grid r c) Hnl). subst body.
  destruct (anchored cells r c) as [cell|] eqn:Ha.
  - pose proof (anchored_cell _ _ _ _ Ha) as (Hin & Er & Ec). rewrite (anchored_token _ _ _ Ha).
    rewrite Forall_forall in Hplain. specialize (Hplain cell Hin).
    pose proof (next_run r c cell _ Ha eq_refl) as Hcol. fold (next_of r c) in Hcol. rewrite Er, Ec in Hcol.
    pose proof (origin_token_cell cell _ _ Hplain (row_run cell Hin) Hcol) as Hcell.
    assert (contains kContinuations (origin_token cell) = false ∧ contains kOrigins (origin_token cell) = true) as [-> ->]
      by (unfold origin_token; repeat case_match; done).
    cbn [orb andb]. rewrite otsl_skip by apply token_of_text. unfold otsl_cell. cbn [option_list app].
    destruct (origin_token cell =b lit "ecel") eqn:Ee.
    + apply bool_decide_eq_true, origin_ecel in Ee. rewrite Ee in Hcell |- *. change (text_nodes []) with (@nil MarkupNode).
      change (default [] (head ([] ++ ?n :: _) ≫= token_of)) with (default [] (token_of n)). rewrite token_of_next, Er, Ec.
      apply (f_equal2 cons); [exact Hcell|reflexivity].
    + pose proof (cell_content_text (sp_text cell) (next_of r c) rest (token_of_next r c)) as Hcontent.
      destruct (cell_content _ _ _) as [[text' parts] next]. destruct Hcontent as (-> & -> & _).
      rewrite Er, Ec. apply (f_equal2 cons); [exact Hcell|reflexivity].
  - rewrite (unanchored_token r c Hr Hc Ha). cbn [app].
    assert ((grid_token cells r c =b lit "ecel") = false) as ->.
    { apply bool_decide_eq_false_2. intros E. pose proof (unanchored_token r c Hr Hc Ha) as Hct. by rewrite E in Hct. }
    cbn [cell_content]. rewrite token_of_next. cbn [orb]. rewrite orb_true_r. done.
Qed.


(** One row, then the table. *)
Lemma slots_next r c n rest :
  (c + S n = cols)%nat → ∃ tail, mjoin (slot_nodes cells r <$> seq (S c) n) ++ token_node (lit "nl") :: rest = token_node (next_of r c) :: tail.
Proof.
  intros Hn. unfold next_of. destruct n as [|n]; cbn [seq].
  - rewrite bool_decide_eq_false_2 by lia. by eexists.
  - rewrite bool_decide_eq_true_2 by lia. by eexists.
Qed.
Lemma otsl_slots r c n started rest :
  (r < rows)%nat → (c + n = cols)%nat →
  otsl_from token_grid (mjoin (slot_nodes cells r <$> seq c n) ++ token_node (lit "nl") :: rest) r c started =
  omap (anchored cells r) (seq c n) ++
  otsl_from token_grid (token_node (lit "nl") :: rest) r cols (started || bool_decide (0 < n)%nat).
Proof using Htiling Hplain.
  intros Hr. revert c started. induction n as [|n IH]; intros c started Hn.
  - rewrite bool_decide_eq_false_2, orb_false_r by lia. cbn [seq]. by replace c with cols by lia.
  - rewrite bool_decide_eq_true_2, orb_true_r by lia.
    cbn [seq]. rewrite fmap_cons. change (mjoin (?x :: ?xs)) with (x ++ mjoin xs). rewrite <- app_assoc.
    destruct (slots_next r c n rest Hn) as [tail Htail]. rewrite Htail, otsl_slot by lia. rewrite <- Htail, IH by lia.
    rewrite app_assoc. f_equal. change (omap ?f (?x :: ?l)) with (match f x with Some y => y :: omap f l | None => omap f l end).
    by destruct (anchored cells r c).
Qed.
Lemma otsl_rows r n :
  (0 < cols)%nat → (r + n = rows)%nat →
  otsl_from token_grid (mjoin (row_nodes cells cols <$> seq r n)) r 0 false =
  mjoin ((λ r, omap (anchored cells r) (seq 0 cols)) <$> seq r n).
Proof using Htiling Hplain.
  intros Hc. revert r. induction n as [|n IH]; intros r Hn; [done|].
  cbn [seq]. rewrite !fmap_cons. change (mjoin (?x :: ?xs)) with (x ++ mjoin xs).
  unfold row_nodes at 1. rewrite <- app_assoc. cbn [app]. rewrite otsl_slots by lia.
  f_equal. rewrite bool_decide_eq_true_2 by done. apply (IH (S r)). lia.
Qed.

(** The rows the first pass collects are the grid. *)
Lemma token_step_slot r c done_ row :
  foldl token_step (done_, row) (slot_nodes cells r c) = (done_, row ++ [grid_token cells r c]).
Proof.
  pose proof (grid_token_in r c) as [_ Hnl].
  unfold slot_nodes. cbn [foldl]. unfold token_step at 2. rewrite token_of_grid, (bool_decide_eq_false_2 _ Hnl).
  destruct (anchored cells r c) as [cell|]; [|done].
  generalize (done_, row ++ [grid_token cells r c]). pose proof (token_of_text (sp_text cell)) as Ht.
  induction Ht as [|node nodes Hn _ IH]; intros [d w]; [done|]. cbn [foldl]. unfold token_step at 2. rewrite Hn. apply IH.
Qed.
Lemma token_step_slots r cs done_ row :
  foldl token_step (done_, row) (mjoin (slot_nodes cells r <$> cs)) = (done_, row ++ (grid_token cells r <$> cs)).
Proof.
  revert row. induction cs as [|c cs IH]; intros row; rewrite ?fmap_cons.
  - by rewrite app_nil_r.
  - change (mjoin (?x :: ?xs)) with (x ++ mjoin xs). rewrite foldl_app, token_step_slot, IH. by rewrite <- app_assoc.
Qed.
Lemma token_step_rows rs done_ :
  foldl token_step (done_, []) (mjoin (row_nodes cells cols <$> rs)) =
  (done_ ++ ((λ r, grid_token cells r <$> seq 0 cols) <$> rs), []).
Proof.
  revert done_. induction rs as [|r rs IH]; intros done_; rewrite ?fmap_cons.
  - by rewrite app_nil_r.
  - change (mjoin (?x :: ?xs)) with (x ++ mjoin xs). unfold row_nodes at 1.
    rewrite !foldl_app, token_step_slots. cbn [foldl]. unfold token_step at 2. rewrite token_of_nl. cbn [app].
    rewrite (bool_decide_eq_true_2 (lit "nl" = lit "nl")) by done. rewrite IH. by rewrite <- app_assoc.
Qed.
Lemma token_rows_table : (0 < cols)%nat → token_rows (table_nodes cells rows cols) = token_grid.
Proof.
  intros Hc. unfold token_rows, table_nodes. rewrite token_step_rows. cbn [app]. fold token_grid.
  rewrite filter_app, filter_cons_False, filter_nil, app_nil_r by (intros Hn; by apply Hn).
  apply filter_Forall, Forall_fmap, Forall_true. intros r E%(f_equal length).
  rewrite length_fmap, length_seq in E. cbn in E. lia.
Qed.

Lemma otsl_table : (0 < cols)%nat → otsl_cells (table_nodes cells rows cols) = cells.
Proof using Htiling Hplain.
  intros Hc. unfold otsl_cells. rewrite token_rows_table by done. unfold table_nodes.
  rewrite otsl_rows by lia. by apply reading_cells.
Qed.

(** * The written table is well formed *)

Definition block_nodes (block : bytes * bytes) : list MarkupNode := token_node block.1 :: text_nodes block.2.
Lemma table_blocks : ∃ blocks, table_nodes cells rows cols = mjoin (block_nodes <$> blocks) ∧
  Forall (λ block, block.1 ∈ kOtslTokens) blocks.
Proof.
  set (slot := λ r c, (grid_token cells r c, match anchored cells r c with Some cell => sp_text cell | None => [] end)).
  exists (mjoin ((λ r, (slot r <$> seq 0 cols) ++ [(lit "nl", [])]) <$> seq 0 rows)).
  assert (∀ r c, slot_nodes cells r c = block_nodes (slot r c)) as Hslot.
  { intros r c. unfold slot_nodes, block_nodes, slot. cbn [fst snd]. by destruct (anchored cells r c). }
  unfold table_nodes. generalize (seq 0 rows). intros rs. split.
  - induction rs as [|r rs IH]; [done|]. rewrite !fmap_cons. change (mjoin (?x :: ?xs)) with (x ++ mjoin xs).
    rewrite fmap_app. rewrite join_app. rewrite <- IH. f_equal. unfold row_nodes.
    rewrite fmap_app, join_app. f_equal. rewrite <- list_fmap_compose. f_equal. apply list_fmap_ext. intros ? c _. apply Hslot.
  - induction rs as [|r rs IH]; [constructor|]. rewrite fmap_cons. change (mjoin (?x :: ?xs)) with (x ++ mjoin xs).
    apply Forall_app_2; [|done]. apply Forall_app_2; [|repeat constructor; by apply (bool_decide_eq_true_1 (_ ∈ _))].
    apply Forall_fmap, Forall_true. intros c. apply grid_token_in.
Qed.
End Tiling.

Lemma token_node_ok room token : token ∈ kOtslTokens → node_ok kXml (S room) (token_node token).
Proof.
  intros Hin. unfold kOtslTokens in Hin. cbn [fmap list_fmap] in Hin.
  repeat (apply elem_of_cons in Hin as [->|Hin]; [apply element_intro; try done; split_and!; try done; by repeat constructor|]).
  by apply elem_of_nil in Hin.
Qed.
Lemma token_not_text token : token ∈ kOtslTokens → is_text (token_node token) = false.
Proof.
  intros Hin. apply bool_decide_eq_false_2. intros E. cbn in E. subst.
  by apply (bool_decide_eq_true_2 (_ ∈ _)) in Hin.
Qed.
Lemma blocks_ok room blocks :
  Forall (λ block, block.1 ∈ kOtslTokens) blocks →
  nodes_ok kXml (S room) (mjoin (block_nodes <$> blocks)) ∧ separated (mjoin (block_nodes <$> blocks)) ∧
  match mjoin (block_nodes <$> blocks) with node :: _ => is_text node = false | [] => True end.
Proof.
  induction 1 as [|[token text] blocks Ht _ (Hok & Hsep & Hhead)]; [done|]. cbn [fst] in Ht.
  rewrite fmap_cons. change (mjoin (?x :: ?xs)) with (x ++ mjoin xs). set (rest := mjoin _) in *. clearbody rest.
  pose proof (token_node_ok room token Ht). pose proof (token_not_text token Ht) as Hn.
  unfold block_nodes, text_nodes. cbn [fst snd]. destruct (decide (text = [])) as [->|Hne].
  - rewrite bool_decide_eq_true_2 by done. cbn [app]. split_and!; [by split| |done].
    destruct rest; [done|]. split; [rewrite Hn; by intros []|done].
  - rewrite bool_decide_eq_false_2 by done. cbn [app]. split_and!; [|split; [rewrite Hn; by intros []|]|done].
    + split; [done|]. split; [by apply text_intro|done].
    + destruct rest; [done|]. split; [rewrite Hhead; by intros []|done].
Qed.
Lemma table_node_ok cells rows cols :
  nodes_ok kXml kMaxMarkupDepth [table_node cells rows cols] ∧ separated [table_node cells rows cols].
Proof.
  destruct (table_blocks rows cols cells) as (blocks & E & Hb). destruct (blocks_ok 126 blocks Hb) as (Hok & Hsep & _).
  split; [|done]. split; [|done]. change kMaxMarkupDepth with (S (S 126)). unfold table_node. rewrite E.
  apply element_intro; try done. split_and!; try done. by repeat constructor.
Qed.

(** * A page with one table *)

Definition table_page (cells : list SpanCell) (rows cols : nat) : MarkupNode :=
  mk_MarkupNode (lit "doclang") [] [] [table_node cells rows cols].
Lemma blocks_skip blocks :
  Forall (λ block, block.1 ∈ kOtslTokens) blocks → skips kCloser (print_nodes (mjoin (block_nodes <$> blocks))).
Proof.
  intros Hb. apply skips_nodes. induction Hb as [|[token text] blocks Ht _ IH]; [constructor|]. cbn [fst] in Ht.
  rewrite fmap_cons. change (mjoin (?x :: ?xs)) with (x ++ mjoin xs). apply Forall_app_2; [|done]. constructor.
  - apply skips_element; [|constructor|apply skips_nil]. unfold kPrintedTags. rewrite !elem_of_app. by right; right.
  - unfold text_nodes. cbn [snd]. destruct (text =b []); [constructor|]. constructor; [|constructor].
    apply skips_free, (not_in_escape _ text). by left.
Qed.
Lemma table_page_root cells rows cols before after :
  "<"%char ∉ before →
  doclang_root (before ++ print_node (table_page cells rows cols) ++ after) = Some (table_page cells rows cols).
Proof.
  intros Hb. set (root := table_page cells rows cols).
  assert (print_node root = lit "<doclang>" ++ print_nodes (nd_children root) ++ lit "</doclang>") as Hp by done.
  destruct (table_blocks rows cols cells) as (blocks & E & Hblocks).
  unfold doclang_root. rewrite Hp, doclang_fragment_at; [|done|].
  - cbn [mbind option_bind]. rewrite <- Hp, <- (app_nil_r (print_node root)).
    change (print_node root ++ []) with (print_nodes [root]).
    rewrite parse_print_nodes; [done| |done]. split; [|done]. change kMaxMarkupDepth with (S (S (S 125))).
    apply short_element; [by right|done|done|cbn; lia|done|]. split; [|done].
    unfold table_node. rewrite E. destruct (blocks_ok 125 blocks Hblocks) as (Hok & Hsep & _).
    apply short_element; try done; [left; by apply (bool_decide_eq_true_1 (_ ∈ _))|cbn; lia].
  - apply skips_nodes. constructor; [|constructor].
    apply skips_element; [by apply (bool_decide_eq_true_1 (_ ∈ _))|constructor|]. rewrite E. by apply blocks_skip.
Qed.

Section Page.
Context `{ProtobufSize} `{Stb}.
Context (page : PageContext) (res : Resolution).

(** The tokens hold neither a head nor a caption. *)
Lemma blocks_no_caption dispatch blocks s :
  Forall (λ block, block.1 ∈ kOtslTokens) blocks →
  foldM (caption_step page res dispatch) ([], s) (mjoin (block_nodes <$> blocks)) = Some ([], s).
Proof.
  intros Hb. assert (Forall (λ node, is_element (lit "caption") node = false) (mjoin (block_nodes <$> blocks))) as Hno.
  { induction Hb as [|[token text] blocks Ht _ IH]; [constructor|]. cbn [fst] in Ht.
    rewrite fmap_cons. change (mjoin (?x :: ?xs)) with (x ++ mjoin xs). apply Forall_app_2; [|done]. constructor.
    - unfold kOtslTokens in Ht. cbn [fmap list_fmap fst] in *.
      repeat (apply elem_of_cons in Ht as [->|Ht]; [done|]). by apply elem_of_nil in Ht.
    - unfold text_nodes. cbn [snd]. destruct (text =b []); repeat constructor. }
  induction Hno as [|node nodes Hn _ IH]; [done|]. cbn [foldM].
  assert (caption_step page res dispatch ([], s) node = Some ([], s)) as -> by (unfold caption_step; by rewrite Hn). exact IH.
Qed.
Lemma head_of_blocks block blocks :
  block.1 ∈ kOtslTokens → head_of (mjoin (block_nodes <$> block :: blocks)) = [] ∧
  skip_head (mjoin (block_nodes <$> block :: blocks)) = mjoin (block_nodes <$> block :: blocks).
Proof.
  intros Ht. rewrite fmap_cons. change (mjoin (?x :: ?xs)) with (x ++ mjoin xs). destruct block as [token text]. cbn [fst] in Ht.
  unfold kOtslTokens in Ht. cbn [fmap list_fmap] in Ht.
  repeat (apply elem_of_cons in Ht as [->|Ht]; [done|]). by apply elem_of_nil in Ht.
Qed.
Lemma table_head cells rows cols :
  (0 < rows)%nat → (0 < cols)%nat →
  head_nodes (table_node cells rows cols) = [] ∧ body_nodes (table_node cells rows cols) = table_nodes cells rows cols.
Proof.
  intros Hr Hc. destruct (table_blocks rows cols cells) as (blocks & E & Hb).
  unfold head_nodes, body_nodes. change (nd_children (table_node cells rows cols)) with (table_nodes cells rows cols).
  destruct blocks as [|block blocks].
  { destruct rows as [|rows]; [lia|]. destruct cols as [|cols]; [lia|]. discriminate E. }
  apply Forall_cons_1 in Hb as [Hblock _]. rewrite E. by apply head_of_blocks.
Qed.
Lemma doclang_table_step dispatch cells rows cols s :
  (0 < rows)%nat → (0 < cols)%nat → tiling rows cols cells → Forall plain_span cells →
  dispatch_step page res dispatch (table_node cells rows cols) None s =
  Some (mk_DocLang (table page None cells None (dl_writer s)).2 (dl_last_code s)).
Proof.
  intros Hr Hc Ht Hp. pose proof (otsl_table rows cols cells Ht Hp Hc) as Hcells.
  change (dispatch_step page res dispatch (table_node cells rows cols) None s) with
    (table_like page res dispatch (table_node cells rows cols) None s).
  unfold table_like. change (nd_tag (table_node cells rows cols)) with (lit "table").
  rewrite (bool_decide_eq_true_2 (lit "table" = lit "table")) by done. cbn [negb andb].
  unfold captions_of. change (nd_children (table_node cells rows cols)) with (table_nodes cells rows cols).
  destruct (table_blocks rows cols cells) as (blocks & E & Hb). rewrite E, blocks_no_caption by done. cbn [mbind option_bind].
  destruct (table_head cells rows cols Hr Hc) as [Hhead Hbody].
  unfold table_at_host, head_box, apply_layer, head_layer. rewrite Hhead, Hbody, Hcells.
  change (box_of page res []) with (@None BoundingBox).
  unfold with_item. destruct (table page None cells None (dl_writer s)) as [item w]. done.
Qed.
End Page.

(** * Properties *)

(** C21: A DocLang table reads back as it was written: for any exact tiling of a
    grid by cells with row and column spans, headers and trimmed texts, a page
    holding its OTSL tokens, whatever is behind the fragment and whatever text
    without a '<' is before it, becomes a document of exactly one table, under
    the body, whose data is those cells laid out, and of no text, picture, group
    or field region; and [otsl_cells] gives the cells themselves, every span,
    header flag and text, in reading order. *)
Theorem doclang_table_roundtrip `{ProtobufSize} `{Stb} page cells rows cols before after ws :
  (0 < rows)%nat → (0 < cols)%nat → tiling rows cols cells → Forall plain_span cells → "<"%char ∉ before →
  otsl_cells (body_nodes (table_node cells rows cols)) = cells ∧
  ∃ doc ws', map_doclang page (before ++ print_node (table_page cells rows cols) ++ after) Document_empty ws = Mapped doc ws' ∧
    ti_data <$> doc_tables doc = [Some (fill_span_table cells).1] ∧ doc_texts doc = [] ∧ doc_pictures doc = [] ∧
    doc_groups doc = [] ∧ doc_field_regions doc = [] ∧
    gi_children <$> doc_body doc = Some [body_child_ref TABLE 0].
Proof.
  intros Hr Hc Ht Hp Hb. split.
  { destruct (table_head cells rows cols Hr Hc) as [_ ->]. by apply otsl_table. }
  unfold map_doclang. fold (doclang_root (before ++ print_node (table_page cells rows cols) ++ after)).
  rewrite table_page_root by done. set (res := set_resolution _). unfold walk_root.
  destruct (height (table_page cells rows cols)) as [|fuel] eqn:E.
  { assert (table_node cells rows cols ∈ nd_children (table_page cells rows cols)) as Hin by left. apply height_child in Hin. lia. }
  change (elements_of (nd_children (table_page cells rows cols))) with [table_node cells rows cols].
  unfold dispatch_all. cbn [foldM].
  change (doclang_dispatch page res (S fuel) (table_node cells rows cols) None ?s)
    with (dispatch_step page res (doclang_dispatch page res fuel) (table_node cells rows cols) None s).
  rewrite doclang_table_step by done. cbn [mbind option_bind dl_writer].
  set (w0 := LayoutWriter_new page Document_empty ws). set (w := (table page None cells None w0).2).
  assert (rooted w ∧ ti_data <$> doc_tables (lw_out w) = [Some (fill_span_table cells).1] ∧ doc_texts (lw_out w) = [] ∧
    doc_pictures (lw_out w) = [] ∧ doc_groups (lw_out w) = [] ∧ doc_field_regions (lw_out w) = [] ∧
    doc_body (lw_out w) = None ∧ lw_body w = [mk_BodyChild TABLE 0])
    as (Hroot & Hdata & Htexts & Hpics & Hgroups & Hregions & Hbody & Horder).
  { pose proof (tiling_nonempty _ _ _ Ht Hr Hc) as Hne.
    unfold w, table. rewrite bool_decide_eq_false_2 by (by destruct cells).
    destruct (fill_span_table cells) as [data cut]. split_and!; try done. by repeat constructor. }
  by apply finish_table_alone.
Qed.

(** ** Witness *)

Lemma doclang_table_roundtrip_witness : ∃ doc ws',
  @map_doclang toy_size toy_stb toy_page (lit "Here: " ++ print_node (table_page toy_table 2 3) ++ lit " done") Document_empty None
    = Mapped doc ws' ∧
  (λ d, length (td_table_cells (default TableData_empty d))) <$> (ti_data <$> doc_tables doc) = [4%nat].
Proof.
  destruct (@doclang_table_roundtrip toy_size toy_stb toy_page toy_table 2 3 (lit "Here: ") (lit " done") None)
    as (_ & doc & ws' & Hmap & Hd & _).
  - lia.
  - lia.
  - apply toy_table_tiles.
  - by repeat constructor.
  - by apply not_contains.
  - exists doc, ws'. split; [exact Hmap|]. rewrite Hd. vm_compute. reflexivity.
Defined.
