(* ===== verification/Deepseek.v ===== *)
(** The DeepSeek-OCR and Unlimited-OCR mapper (src/mapping/deepseek.cpp):
    annotation lines, the blocks they open, the cells of a block's table and the
    items the blocks become. *)
From S2P Require Import Prelude Numbers Double Proto ImageCrop Builder OtslGrid Tree.
From S2P Require Import MarkupTree LayoutText Layout.

Definition kGrid : double := of_Z 1000.

Definition is_word (c : ascii) : bool := isalnum c || (c =c "_"%char) || (128 <=? Prelude.code c).
(** [consume]: whether the prefix was there, and the text after it. *)
Definition consume (text prefix : bytes) : bool * bytes :=
  if starts_with prefix text then (true, drop (length prefix) text) else (false, text).
Definition strip_view (text : bytes) : bytes := rstrip isspace (lstrip isspace text).

Definition parse_number (piece : bytes) : option double :=
  let piece := strip_view piece in
  if (piece =b []) || (piece =b lit ".") then None else
  match from_chars_double piece with Some (value, []) => Some value | _ => None end.

(** No coordinates: they did not parse to four numbers. *)
Record Annotation := mk_Annotation { an_label : bytes; an_coords : list double }.

Definition is_coord_char (c : ascii) : bool :=
  isdigit c || (c =c "."%char) || (c =c ","%char) || (c =c " "%char).
Definition coords_of (coords : bytes) : list double :=
  match mapM parse_number (split_on ","%char coords) with
  | Some numbers => if bool_decide (length numbers = 4%nat) then numbers else []
  | None => []
  end.
Definition match_annotation (line : bytes) : option Annotation :=
  let line := (consume line (lit "<|ref|>")).2 in
  let word := span is_word line in
  if bool_decide (word = 0%nat) then None else
  let label := take word line in
  let line := drop word line in
  let line := (consume line (lit "<|/ref|>")).2 in
  let line := (consume line (lit "<|det|>")).2 in
  let '(opened, line) := consume line (lit "[[") in
  if negb opened then None else
  let body := span is_coord_char line in
  if bool_decide (body = 0%nat) then None else
  let coords := take body line in
  let '(closed, line) := consume (drop body line) (lit "]]") in
  if negb closed then None else
  let line := (consume line (lit "<|/det|>")).2 in
  if negb (strip_view line =b []) then None else
  Some (mk_Annotation label (coords_of coords)).

Definition rstrip_space (text : bytes) : bytes := rstrip isspace text.
Definition strip_newlines (text : bytes) : bytes :=
  rstrip (Ascii.eqb c_nl) (lstrip (Ascii.eqb c_nl) text).
(** [needle] is in lower case. *)
Definition contains_ci (text needle : bytes) : bool :=
  match find needle (tolower <$> text) 0 with Some _ => true | None => false end.

(** * The cells of a table *)

Fixpoint raw_text (node : MarkupNode) : bytes :=
  match node with
  | mk_MarkupNode tag text _ children =>
      if tag =b [] then text else foldr (λ child out, raw_text child ++ out) [] children
  end.
Fixpoint collect_rows (node : MarkupNode) : list MarkupNode :=
  match node with
  | mk_MarkupNode _ _ _ children =>
      foldr (λ child rows,
          if is_text child then rows
          else (if nd_tag child =b lit "tr" then [child] else []) ++ collect_rows child ++ rows)
        [] children
  end.
Definition python_int (value : bytes) : option Z :=
  let text := strip_view value in
  let text := match text with "+"%char :: t => t | _ => text end in
  match from_chars_ll text with Some (number, []) => Some number | _ => None end.

Record Raw := mk_Raw { rw_cell : MarkupNode; rw_colspan : nat; rw_rowspan : nat }.
(** Between 1 and the cell cap. *)
Definition clamp_span (span : Z) : nat := Z.to_nat (Z.max 1 (Z.min span kMaxTableCells)).
Definition raw_cell (cell : MarkupNode) : option Raw :=
  colspan ← python_int (attr cell (lit "colspan") (lit "1"));
  rowspan ← python_int (attr cell (lit "rowspan") (lit "1"));
  Some (mk_Raw cell (clamp_span colspan) (clamp_span rowspan)).
Definition is_cell (node : MarkupNode) : bool := is_element (lit "td") node || is_element (lit "th") node.
Definition raw_row (row : MarkupNode) : option (list Raw) :=
  mapM raw_cell (filter (λ node, is_cell node = true) (nd_children row)).
Definition row_width (cells : list Raw) : nat := foldl (λ n raw, n + rw_colspan raw)%nat 0%nat cells.

(** The positions some earlier cell covers. *)
Abbreviation Taken := (gset (nat * nat)).
Fixpoint next_free (fuel : nat) (taken : Taken) (r col : nat) : nat :=
  match fuel with
  | O => col
  | S fuel => if decide ((r, col) ∈ taken) then next_free fuel taken r (S col) else col
  end.
Definition positions (r rows col cols : nat) : Taken :=
  list_to_set (r' ← seq r rows; (λ c, (r', c)) <$> seq col cols).
Fixpoint place_row (num_rows num_cols r : nat) (cells : list Raw) (col : nat) (taken : Taken)
  : list SpanCell * Taken :=
  match cells with
  | [] => ([], taken)
  | raw :: cells =>
      let col := next_free (num_cols - col) taken r col in
      if bool_decide (num_cols ≤ col)%nat then ([], taken) else
      let row_span := Nat.min (rw_rowspan raw) (num_rows - r) in
      let col_span := Nat.min (rw_colspan raw) (num_cols - col) in
      let taken := positions r row_span col col_span ∪ taken in
      let th := nd_tag (rw_cell raw) =b lit "th" in
      let cell := mk_SpanCell r col row_span col_span (trim (raw_text (rw_cell raw)))
        (th && bool_decide (r = 0%nat)) (th && bool_decide (col = 0%nat)) None in
      let '(out, taken) := place_row num_rows num_cols r cells (col + rw_colspan raw) taken in
      (cell :: out, taken)
  end.
Fixpoint place_rows (num_rows num_cols r : nat) (rows : list (list Raw)) (taken : Taken) : list SpanCell :=
  match rows with
  | [] => []
  | cells :: rows =>
      let '(out, taken) := place_row num_rows num_cols r cells 0 taken in
      out ++ place_rows num_rows num_cols (S r) rows taken
  end.

(** The first table of the text, from its opening to its closing tag. *)
Definition table_text (content : bytes) : option bytes :=
  let folded := tolower <$> content in
  open ← find (lit "<table") folded 0;
  open_end ← find_char ">"%char folded open;
  close ← find (lit "</table>") folded open_end;
  Some (substr content open (close + 8 - open)).
Definition deepseek_table_cells (content : bytes) : list SpanCell :=
  match table_text content with
  | None => []
  | Some markup =>
      match mapM raw_row (collect_rows (parse_markup markup kHtml)) with
      | None => []
      | Some rows =>
          let num_cols := foldl (λ n row, Nat.max n (row_width row)) 0%nat rows in
          place_rows (length rows) (Nat.min num_cols kColumnLimit) 0 rows ∅
      end
  end.

(** * Unlimited-OCR's annotations *)

Definition kOpen : bytes := lit "<|det|>".
Definition kClose : bytes := lit "<|/det|>".
(** Up to [n] times: white space, a comma, white space, digits; how far. *)
Fixpoint more_digits (n : nat) (s : bytes) : option bytes :=
  match n with
  | O => Some s
  | S n =>
      match lstrip isspace s with
      | ","%char :: s =>
          let s := lstrip isspace s in
          if head_is isdigit s then more_digits n (lstrip isdigit s) else None
      | _ => None
      end
  end.
Definition is_label_char (c : ascii) : bool := islower c || (c =c "_"%char).
(** What follows an opening: the label, the four numbers as written and the
    text after the closing tag. *)
Definition inline_annotation (s : bytes) : option (bytes * bytes * bytes) :=
  let s := lstrip isspace s in
  let label := span is_label_char s in
  if bool_decide (label = 0%nat) then None else
  match lstrip isspace (drop label s) with
  | "["%char :: bbox =>
      if negb (head_is isdigit bbox) then None else
      match more_digits 3 (lstrip isdigit bbox) with
      | Some ("]"%char :: rest) =>
          if starts_with kClose rest then
            Some (take label s, take (length bbox - S (length rest)) bbox, drop (length kClose) rest)
          else None
      | _ => None
      end
  | _ => None
  end.
(** One round: the text written so far and what is left. *)
Definition normalize_step (s : bytes * bytes) : bytes * bytes + bytes :=
  let '(out, rest) := s in
  match find kOpen rest 0 with
  | None => inr (out ++ rest)
  | Some at_ =>
      let after := drop (at_ + length kOpen) rest in
      match inline_annotation after with
      | None => inl (out ++ take at_ rest ++ kOpen, after)
      | Some (label, bbox, after) =>
          inl (out ++ take at_ rest ++ lit "<|ref|>" ++ label ++ lit "<|/ref|><|det|>[[" ++ bbox ++
               lit "]]<|/det|>" ++ [c_nl], after)
      end
  end.
Definition normalize_unlimited_ocr (content : bytes) : bytes :=
  run_loop [] (S (length content)) normalize_step ([], content).

(** * Reading the blocks *)

Record Block := mk_Block { bk_label : bytes; bk_content : bytes; bk_box : BoundingBox }.

Fixpoint join_lines (lines : list bytes) : bytes :=
  match lines with
  | [] => []
  | [line] => line
  | line :: lines => line ++ c_nl :: join_lines lines
  end.
(** The lines a table block takes, from the first that opens a table to the
    first that closes one. *)
Fixpoint table_lines (i : nat) (started : bool) (lines : list bytes) : list (nat * bytes) :=
  match lines with
  | [] => []
  | line :: lines =>
      let started := started || contains_ci line (lit "<table") in
      if started then
        (i, line) :: (if contains_ci line (lit "</table>") then [] else table_lines (S i) true lines)
      else table_lines (S i) false lines
  end.
(** The lines another block takes, up to the next annotation, and where that
    is. *)
Fixpoint block_lines (visited : gset nat) (i : nat) (lines : list bytes) : list (nat * bytes) * nat :=
  match lines with
  | [] => ([], i)
  | line :: lines =>
      match match_annotation (strip_view line) with
      | Some _ => ([], i)
      | None =>
          let '(taken, stop) := block_lines visited (S i) lines in
          (if decide (i ∈ visited) then taken else (i, line) :: taken, stop)
      end
  end.
Definition content_of (taken : list (nat * bytes)) : bytes :=
  strip_newlines (join_lines (rstrip_space ∘ snd <$> taken)).

Record Reading := mk_Reading { rd_i : nat; rd_visited : gset nat; rd_blocks : list Block }.

Section Mapper.
Context `{ProtobufSize} `{Stb}.
Variable page : PageContext.

Definition read_step (lines : list bytes) (s : Reading) : Reading + list Block :=
  let i := rd_i s in
  let skip := inl (mk_Reading (S i) (rd_visited s) (rd_blocks s)) in
  match lines !! i with
  | None => inr (rd_blocks s)
  | Some line =>
      if decide (i ∈ rd_visited s) then skip else
      match match_annotation (strip_view line) with
      | None => skip
      | Some annotation =>
          if bool_decide (length (an_coords annotation) = 0%nat) then skip else
          let '(taken, next) :=
            if an_label annotation =b lit "table" then (table_lines (S i) false (drop (S i) lines), S i)
            else block_lines (rd_visited s) (S i) (drop (S i) lines) in
          inl (mk_Reading next (list_to_set taken.*1 ∪ rd_visited s)
            (rd_blocks s ++ [mk_Block (an_label annotation) (content_of taken)
               (grid_box page (an_coords annotation) kGrid)]))
      end
  end.
Definition read_blocks (lines : list bytes) : list Block :=
  run_loop [] (S (length lines)) (read_step lines) (mk_Reading 0 ∅ []).

(** * Writing the items *)

Definition caption_of (owner : bytes) : bytes :=
  if owner =b lit "table" then lit "table_caption"
  else if owner =b lit "figure" then lit "figure_caption"
  else if owner =b lit "image" then lit "image_caption" else [].
Definition strip_hashes (content : bytes) : bytes * nat :=
  let hashes := span (Ascii.eqb "#"%char) content in
  (if bool_decide (hashes = 0%nat) then content else trim (drop hashes content), hashes).
Definition label_item (label : bytes) : DocItemLabel :=
  if ends_with (lit "_caption") label then DOC_ITEM_LABEL_CAPTION
  else if label =b lit "header" then DOC_ITEM_LABEL_PAGE_HEADER
  else if label =b lit "footer" then DOC_ITEM_LABEL_PAGE_FOOTER else DOC_ITEM_LABEL_TEXT.
Definition block_item (block : Block) : LayoutWriter → BodyChild * LayoutWriter :=
  let label := bk_label block in
  let box := Some (bk_box block) in
  if (label =b lit "figure") || (label =b lit "image") then picture page box None
  else if label =b lit "table" then table page box (deepseek_table_cells (bk_content block)) None
  else if label =b lit "title" then title page box (strip_hashes (bk_content block)).1 None
  else if label =b lit "sub_title" then
    let '(body, hashes) := strip_hashes (bk_content block) in
    heading page (if bool_decide (0 < hashes)%nat then Z.of_nat hashes else 2) box body None
  else text page (label_item label) box (bk_content block) None.
(** The block's caption is the next block, if that is of the right kind. *)
Definition next_caption (block : Block) (next : option Block) : option Block :=
  let label := caption_of (bk_label block) in
  if label =b [] then None else
  match next with
  | Some next => if bk_label next =b label then Some next else None
  | None => None
  end.
(** Already written ahead of its owner. *)
Definition is_emitted (prev : option Block) (block : Block) : bool :=
  match prev with
  | Some prev => ends_with (lit "_caption") (bk_label block) && (caption_of (bk_label prev) =b bk_label block)
  | None => false
  end.
Definition emit_block (prev : option Block) (block : Block) (next : option Block) (w : LayoutWriter)
  : LayoutWriter :=
  let '(caption, w) :=
    match next_caption block next with
    | Some caption =>
        let '(ref, w) := text page DOC_ITEM_LABEL_CAPTION (Some (bk_box caption)) (bk_content caption) None w in
        (Some ref, w)
    | None => (None, w)
    end in
  if is_emitted prev block then w else
  let '(ref, w) := block_item block w in
  match caption with Some caption => link_caption ref caption w | None => w end.
Fixpoint emit_blocks (prev : option Block) (blocks : list Block) (w : LayoutWriter) : LayoutWriter :=
  match blocks with
  | [] => w
  | block :: blocks => emit_blocks (Some block) blocks (emit_block prev block (head blocks) w)
  end.

Definition map_deepseek_ocr (text : bytes) (out : Document) (warnings : Warnings) : MapResult :=
  let w := LayoutWriter_new page out warnings in
  finish page (lit "DeepSeek-OCR") false (emit_blocks None (read_blocks (split_on c_nl text)) w).
Definition map_unlimited_ocr (text : bytes) (out : Document) (warnings : Warnings) : MapResult :=
  map_deepseek_ocr (normalize_unlimited_ocr text) out warnings.
End Mapper.

Example annotation_small :
  match_annotation (lit "<|ref|>text<|/ref|><|det|>[[12, 3.50,100,1000]]<|/det|> ") =
  Some (mk_Annotation (lit "text") [of_Z 12; of_decimal 35 1; of_Z 100; of_Z 1000]).
Proof. vm_compute. reflexivity. Qed.
Example annotation_bad : match_annotation (lit "text[[1..2,3]]") = Some (mk_Annotation (lit "text") []).
Proof. vm_compute. reflexivity. Qed.
Example normalize_small :
  normalize_unlimited_ocr (lit "a<|det|> text [1, 2,3,4]<|/det|>b<|det|>c") =
  lit "a<|ref|>text<|/ref|><|det|>[[1, 2,3,4]]<|/det|>" ++ c_nl :: lit "b<|det|>c".
Proof. vm_compute. reflexivity. Qed.
Example deepseek_cells_small :
  (λ c, (sp_row c, sp_col c, sp_row_span c, sp_col_span c, sp_text c)) <$>
  deepseek_table_cells (lit "x <TABLE><tr><th rowspan=2>a<th>b<tr><td>c</TABLE> y") =
  [(0, 0, 2, 1, lit "a"); (0, 1, 1, 1, lit "b"); (1, 1, 1, 1, lit "c")]%nat.
Proof. vm_compute. reflexivity. Qed.

(** * The cells of a table do not collide *)

Definition raw_ok (raw : Raw) : Prop := (1 ≤ rw_colspan raw ∧ 1 ≤ rw_rowspan raw)%nat.

Lemma clamp_span_pos span : (1 ≤ clamp_span span)%nat.
Proof. unfold clamp_span. lia. Qed.
Lemma raw_cell_ok node raw : raw_cell node = Some raw → raw_ok raw.
Proof.
  unfold raw_cell. intros H. apply bind_Some in H as (colspan & _ & H).
  apply bind_Some in H as (rowspan & _ & [= <-]). split; apply clamp_span_pos.
Qed.
Lemma raw_rows_ok rows raws : mapM raw_row rows = Some raws → Forall (Forall raw_ok) raws.
Proof.
  intros H. apply mapM_Some in H. induction H as [|row raw rows raws Hr _ IH]; constructor; [|done].
  unfold raw_row in Hr. apply mapM_Some in Hr. clear IH.
  induction Hr as [|node cell nodes cells Hc _ IH]; constructor; [by eapply raw_cell_ok|done].
Qed.

(** Every position of the prior cells is taken. *)
Definition marks (taken : Taken) (cells : list SpanCell) : Prop :=
  ∀ cell r c, cell ∈ cells → span_covers cell r c → (r, c) ∈ taken.

Lemma next_free_spec taken r fuel col :
  (col ≤ next_free fuel taken r col)%nat ∧
  ((next_free fuel taken r col < col + fuel)%nat → (r, next_free fuel taken r col) ∉ taken).
Proof.
  revert col. induction fuel as [|fuel IH]; intros col; cbn [next_free]; [lia|].
  case_decide; [|done]. destruct (IH (S col)) as [? Hfree]. split; [lia|]. intros. apply Hfree. lia.
Qed.

Lemma elem_of_positions r rows col cols r' c' :
  (r', c') ∈ positions r rows col cols ↔ (r ≤ r' < r + rows ∧ col ≤ c' < col + cols)%nat.
Proof.
  unfold positions. rewrite elem_of_list_to_set, list_elem_of_bind. setoid_rewrite list_elem_of_fmap.
  setoid_rewrite elem_of_seq. split.
  - intros (y & (c & [= -> ->] & ?) & ?). lia.
  - intros [? ?]. exists r'. split; [by exists c'|done].
Qed.

Lemma marks_add taken cells cell :
  marks taken cells →
  marks (positions (sp_row cell) (sp_row_span cell) (sp_col cell) (sp_col_span cell) ∪ taken) (cells ++ [cell]).
Proof.
  intros Hm cell' r c [Hin| ->%list_elem_of_singleton]%elem_of_app Hc; apply elem_of_union.
  - right. by eapply Hm.
  - left. apply elem_of_positions. apply Hc.
Qed.

Lemma place_row_spec num_rows num_cols r raws col taken prior cells taken' :
  (r < num_rows)%nat → (num_cols ≤ kColumnLimit)%nat → Forall raw_ok raws → marks taken prior →
  place_row num_rows num_cols r raws col taken = (cells, taken') →
  marks taken' (prior ++ cells) ∧ all_free prior cells ∧ Forall (span_ok num_rows) cells.
Proof.
  intros Hr Hlimit Hok. revert col taken prior cells taken'.
  induction Hok as [|raw raws [Hc1 Hr1] _ IH]; intros col taken prior cells taken' Hm; cbn [place_row].
  { intros [= <- <-]. by rewrite app_nil_r. }
  destruct (next_free_spec taken r (num_cols - col) col) as [Hcol Hfree].
  set (col' := next_free _ _ _ _) in *. case_bool_decide as Hpast.
  { intros [= <- <-]. by rewrite app_nil_r. }
  destruct (place_row _ _ _ raws _ _) as [rest taken''] eqn:Erest. set (cell := mk_SpanCell _ _ _ _ _ _ _ _).
  intros [= <- <-].
  destruct (IH _ _ _ _ _ (marks_add taken prior cell Hm) Erest) as (Hm' & Hall & Hoks).
  rewrite <- app_assoc in Hm'. split_and!; [done| |].
  - split; [|done]. apply Forall_forall. intros earlier Hin Hcovers.
    apply (Hfree ltac:(lia)). by apply (Hm earlier).
  - constructor; [|done]. unfold span_ok, sp_end_row, sp_end_col, cell. cbn [sp_row sp_row_span sp_col sp_col_span].
    lia.
Qed.

Lemma place_rows_spec num_rows num_cols r rows taken prior :
  (r + length rows ≤ num_rows)%nat → (num_cols ≤ kColumnLimit)%nat → Forall (Forall raw_ok) rows →
  marks taken prior →
  all_free prior (place_rows num_rows num_cols r rows taken) ∧
  Forall (span_ok num_rows) (place_rows num_rows num_cols r rows taken).
Proof.
  intros Hn Hlimit Hok. revert r taken prior Hn.
  induction Hok as [|raws rows Hraws _ IH]; intros r taken prior Hn Hm; cbn [place_rows]; [done|].
  cbn [length] in Hn. destruct (place_row _ _ _ _ _ _) as [cells taken'] eqn:E.
  destruct (place_row_spec num_rows num_cols r raws 0 taken prior cells taken') as (Hm' & Hfree & Hoks);
    [lia|done..|].
  destruct (IH (S r) taken' (prior ++ cells)) as [Hfree' Hoks']; [lia|done|].
  split; [by apply all_free_app|by apply Forall_app].
Qed.

(** The rows of the table in a block. *)
Definition table_height (content : bytes) : nat :=
  match table_text content with
  | Some markup => length (collect_rows (parse_markup markup kHtml))
  | None => 0
  end.

(** Whatever table a model writes, with whatever spans: every cell is at
    least one position large and ends within the table's rows and the column
    limit, and no cell starts on a position an earlier one covers. *)
Theorem deepseek_table_cells_free content :
  all_free [] (deepseek_table_cells content) ∧
  Forall (span_ok (table_height content)) (deepseek_table_cells content).
Proof.
  unfold deepseek_table_cells, table_height. destruct (table_text content) as [markup|]; [|done].
  destruct (mapM raw_row _) as [rows|] eqn:E; [|done].
  pose proof (raw_rows_ok _ _ E) as Hok. apply length_mapM in E as Hlen. rewrite Hlen.
  apply place_rows_spec; [lia|lia|done|]. intros ??? Hin. by apply elem_of_nil in Hin.
Qed.

(** * Reading back what a page of blocks is printed as *)

Lemma split_join_lines lines :
  lines ≠ [] → Forall (λ line, c_nl ∉ line) lines → split_on c_nl (join_lines lines) = lines.
Proof.
  intros Hne Hall. induction Hall as [|line lines Hline _ IH]; [done|].
  destruct lines as [|line' lines]; [by apply split_on_none|].
  change (join_lines (line :: line' :: lines)) with (line ++ c_nl :: join_lines (line' :: lines)).
  rewrite split_on_app, IH; done.
Qed.

Lemma consume_app prefix rest : consume (prefix ++ rest) prefix = (true, rest).
Proof.
  unfold consume. replace (starts_with prefix (prefix ++ rest)) with true
    by (symmetry; apply starts_with_app; by exists rest). by rewrite drop_app_length.
Qed.

Lemma digits_not_in c z : 0 <= z → isdigit c = false → c ∉ to_string z.
Proof.
  intros Hz Hc Hin. destruct (to_string_digits z Hz) as (Hall & _ & _).
  rewrite Forall_forall in Hall. apply Hall in Hin. congruence.
Qed.
Lemma strip_digits z : 0 <= z → strip_view (to_string z) = to_string z.
Proof.
  intros Hz. destruct (to_string_digits z Hz) as (Hall & Hne & _).
  assert (Hsp : ∀ c, isdigit c = true → isspace c = false).
  { intros c. unfold isdigit, isspace, in_range. lia. }
  unfold strip_view. rewrite lstrip_id.
  - unfold rstrip. rewrite lstrip_id; [by rewrite rev_involutive|].
    intros c Hc. apply Hsp. apply Forall_rev in Hall. destruct (rev (to_string z)); [done|].
    injection Hc as ->. by apply Forall_cons in Hall as [? _].
  - intros c Hc. apply Hsp. destruct (to_string z); [done|]. injection Hc as ->.
    by apply Forall_cons in Hall as [? _].
Qed.

Lemma from_chars_double_digits z :
  0 <= z < 2 ^ 53 → from_chars_double (to_string z) = Some (of_Z z, []).
Proof.
  intros Hz. unfold from_chars_double. destruct (to_string_digits z) as (_ & Hne & _); [lia|].
  rewrite <- (app_nil_r (to_string z)) at 1. rewrite digits_value_to_string by (done || lia).
  rewrite bool_decide_eq_false_2 by (intros [E _]; cbn in E; by destruct (to_string z)).
  unfold of_decimal. rewrite bool_decide_eq_true_2 by done.
  destruct (of_Z_exact z Hz) as (m & e & Hp & -> & _ & Hm). cbn [negb orb].
  destruct (Z.eqb_spec z 0) as [->|Hne0]; [done|].
  destruct (of_Z z); try done. cbn in Hp. injection Hp as <- <-. cbn in Hm. lia.
Qed.

Lemma parse_number_digits z : 0 <= z < 2 ^ 53 → parse_number (to_string z) = Some (of_Z z).
Proof.
  intros Hz. unfold parse_number. destruct (to_string_digits z) as (Hall & Hne & _); [lia|].
  rewrite strip_digits by lia. rewrite !bool_decide_eq_false_2; [|intros E|done].
  - cbn [orb]. by rewrite from_chars_double_digits.
  - rewrite E in Hall. by apply Forall_cons in Hall as [? _].
Qed.
Lemma parse_number_space z : 0 <= z < 2 ^ 53 → parse_number (" "%char :: to_string z) = Some (of_Z z).
Proof. apply parse_number_digits. Qed.

(** A label and four coordinates, as the model prints them. *)
Record Heading := mk_Heading { hd_label : bytes; hd_x0 : Z; hd_y0 : Z; hd_x1 : Z; hd_y1 : Z }.
Definition hd_coords (h : Heading) : list double :=
  of_Z <$> [hd_x0 h; hd_y0 h; hd_x1 h; hd_y1 h].
Definition print_coords (h : Heading) : bytes :=
  to_string (hd_x0 h) ++ lit ", " ++ to_string (hd_y0 h) ++ lit ", " ++
  to_string (hd_x1 h) ++ lit ", " ++ to_string (hd_y1 h).
Definition print_heading (h : Heading) : bytes :=
  lit "<|ref|>" ++ hd_label h ++ lit "<|/ref|><|det|>[[" ++ print_coords h ++ lit "]]<|/det|>".
Definition heading_ok (h : Heading) : Prop :=
  hd_label h ≠ [] ∧ Forall (λ c, is_word c = true) (hd_label h) ∧
  Forall (λ z, 0 <= z < 2 ^ 53) [hd_x0 h; hd_y0 h; hd_x1 h; hd_y1 h].

Lemma coords_of_print h : heading_ok h → coords_of (print_coords h) = hd_coords h.
Proof.
  intros (_ & _ & Hz). repeat (apply Forall_cons in Hz as [? Hz]).
  unfold coords_of, print_coords, hd_coords. destruct h as [label x0 y0 x1 y1]. cbn [hd_x0 hd_y0 hd_x1 hd_y1] in *.
  assert (Hcomma : ∀ z, 0 <= z < 2 ^ 53 → ","%char ∉ to_string z) by (intros; apply digits_not_in; [lia|done]).
  assert (Hspace : ∀ z, 0 <= z < 2 ^ 53 → ","%char ∉ " "%char :: to_string z).
  { intros z Hz0. apply not_elem_of_cons. split; [done|by apply Hcomma]. }
  change (lit ", ") with ([","%char] ++ [" "%char]). rewrite <- !app_assoc. cbn [app].
  rewrite split_on_app by auto.
  do 2 (rewrite app_comm_cons, split_on_app by auto). rewrite split_on_none by auto.
  cbn [mapM]. rewrite parse_number_digits, !parse_number_space by done. done.
Qed.

Lemma print_coords_chars h : heading_ok h → Forall (λ c, is_coord_char c = true) (print_coords h).
Proof.
  intros (_ & _ & Hz). repeat (apply Forall_cons in Hz as [? Hz]).
  assert (Hd : ∀ z, 0 <= z < 2 ^ 53 → Forall (λ c, is_coord_char c = true) (to_string z)).
  { intros z Hz0. destruct (to_string_digits z) as (Hall & _ & _); [lia|].
    eapply Forall_impl; [apply Hall|]. intros c Hc. unfold is_coord_char. by rewrite Hc. }
  unfold print_coords. repeat (apply Forall_app_2; [by auto|]; apply Forall_app_2; [by repeat constructor|]).
  auto.
Qed.

Lemma strip_print_heading h : strip_view (print_heading h) = print_heading h.
Proof.
  unfold strip_view. rewrite lstrip_id by (by intros c [= <-]).
  unfold print_heading. rewrite !app_assoc, rstrip_app. done.
Qed.

Lemma match_annotation_print h :
  heading_ok h → match_annotation (strip_view (print_heading h)) = Some (mk_Annotation (hd_label h) (hd_coords h)).
Proof.
  intros Hok. pose proof Hok as (Hne & Hword & _). rewrite strip_print_heading.
  unfold match_annotation, print_heading. rewrite consume_app. cbn [snd].
  change (lit "<|/ref|><|det|>[[") with (lit "<|/ref|>" ++ lit "<|det|>" ++ lit "[["). rewrite <- !app_assoc.
  rewrite (span_stop is_word (hd_label h)) by done.
  rewrite bool_decide_eq_false_2 by (by destruct (hd_label h)).
  rewrite take_app_length, drop_app_length. repeat (rewrite consume_app; cbn [snd negb]).
  change (lit "]]<|/det|>") with (lit "]]" ++ lit "<|/det|>" ++ []).
  rewrite (span_stop is_coord_char (print_coords h)) by (by try apply print_coords_chars).
  rewrite bool_decide_eq_false_2.
  2:{ destruct Hok as (_ & _ & Hz). apply Forall_cons in Hz as [Hz _].
      destruct (to_string_digits (hd_x0 h)) as (_ & Hn & _); [lia|]. unfold print_coords.
      rewrite length_app. destruct (to_string (hd_x0 h)); [done|]. cbn. lia. }
  rewrite take_app_length, drop_app_length. repeat (rewrite consume_app; cbn [snd negb]).
  by rewrite coords_of_print.
Qed.

(** ** The lines of a page *)

Record Printed := mk_Printed { pb_heading : Heading; pb_lines : list bytes }.
Definition print_block (b : Printed) : list bytes := print_heading (pb_heading b) :: pb_lines b.
Definition print_page (blocks : list Printed) : bytes := join_lines (mjoin (print_block <$> blocks)).
(** A line of text: no annotation, no trailing white space. *)
Definition line_ok (line : bytes) : Prop :=
  (c_nl ∉ line) ∧ match_annotation (strip_view line) = None ∧ rstrip_space line = line.
(** The block is one of text, its first and last lines not empty. *)
Definition text_block_ok (b : Printed) : Prop :=
  heading_ok (pb_heading b) ∧
  (hd_label (pb_heading b) ∉ lit <$> ["figure"; "image"; "table"; "title"; "sub_title"]%string) ∧
  Forall line_ok (pb_lines b) ∧ strip_newlines (join_lines (pb_lines b)) = join_lines (pb_lines b).

Lemma print_heading_line h : heading_ok h → c_nl ∉ print_heading h.
Proof.
  intros Hok Hin. pose proof Hok as (_ & Hword & _). pose proof (print_coords_chars h Hok) as Hc.
  rewrite Forall_forall in Hword, Hc. unfold print_heading in Hin. revert Hc Hin.
  generalize (print_coords h) as coords. intros coords Hc Hin.
  repeat (apply elem_of_app in Hin as [Hin|Hin]);
    [|by apply Hword in Hin| |by apply Hc in Hin|];
    by repeat (apply elem_of_cons in Hin as [Hin|Hin]; [done|]); apply elem_of_nil in Hin.
Qed.

(** The rest of the page starts with an annotation, if there is one. *)
Definition starts_block (lines : list bytes) : Prop :=
  match lines with [] => True | line :: _ => match_annotation (strip_view line) ≠ None end.

Lemma block_lines_all visited i lines rest :
  Forall (λ line, match_annotation (strip_view line) = None) lines → starts_block rest →
  (∀ j, j ∈ visited → (j < i)%nat) →
  ∃ taken, block_lines visited i (lines ++ rest) = (taken, (i + length lines)%nat) ∧ taken.*2 = lines ∧
    ∀ j, j ∈ taken.*1 → (j < i + length lines)%nat.
Proof.
  intros Hlines Hrest. revert i. induction Hlines as [|line lines Hline _ IH]; intros i Hv; cbn [app].
  - exists []. rewrite Nat.add_0_r. split_and!; [|done|by intros ? ?%elem_of_nil].
    destruct rest as [|line rest]; [done|]. cbn in Hrest |- *. by destruct (match_annotation _).
  - destruct (IH (S i)) as (taken & E & Hs & Hb); [intros j Hj; apply Hv in Hj; lia|].
    cbn [block_lines]. rewrite Hline, E, decide_False by (intros Hi; apply Hv in Hi; lia).
    exists ((i, line) :: taken). rewrite !fmap_cons. cbn [length fst snd]. split_and!.
    + f_equal. lia.
    + by rewrite Hs.
    + intros j [->|Hj]%elem_of_cons; [lia|]. apply Hb in Hj. lia.
Qed.

Section Reading.
Variable page : PageContext.

Definition read_as (b : Printed) : Block :=
  mk_Block (hd_label (pb_heading b)) (join_lines (pb_lines b)) (grid_box page (hd_coords (pb_heading b)) kGrid).

Lemma content_of_lines (taken : list (nat * bytes)) lines :
  taken.*2 = lines → Forall line_ok lines → strip_newlines (join_lines lines) = join_lines lines →
  content_of taken = join_lines lines.
Proof.
  intros <- Hok Hstrip. unfold content_of. rewrite list_fmap_compose.
  assert (rstrip_space <$> taken.*2 = taken.*2) as ->; [|done].
  clear Hstrip. induction Hok as [|line lines (_ & _ & E) _ IH]; [done|]. by rewrite fmap_cons, E, IH.
Qed.

Lemma read_one pre b rest visited acc :
  text_block_ok b → starts_block rest → (∀ j, j ∈ visited → (j < length pre)%nat) →
  ∃ visited', read_step page (pre ++ print_block b ++ rest) (mk_Reading (length pre) visited acc) =
      inl (mk_Reading (length (pre ++ print_block b)) visited' (acc ++ [read_as b])) ∧
    ∀ j, j ∈ visited' → (j < length (pre ++ print_block b))%nat.
Proof.
  intros (Hh & Hlabel & Hlines & Hstrip) Hrest Hv. unfold read_step. cbn [rd_i rd_visited rd_blocks].
  rewrite (lookup_app_r pre) by lia. rewrite Nat.sub_diag. cbn [print_block app lookup list_lookup].
  rewrite decide_False by (intros Hi; apply Hv in Hi; lia).
  rewrite match_annotation_print by done. cbn [an_coords an_label hd_coords].
  rewrite bool_decide_eq_false_2 by done.
  rewrite (bool_decide_eq_false_2 (_ = lit "table")) by (intros E; apply Hlabel; rewrite E; right; right; left).
  replace (drop (S (length pre)) (pre ++ print_heading (pb_heading b) :: pb_lines b ++ rest)) with (pb_lines b ++ rest).
  2:{ change (print_heading (pb_heading b) :: pb_lines b ++ rest) with ([print_heading (pb_heading b)] ++ pb_lines b ++ rest).
      rewrite app_assoc, drop_app_length'; [done|]. rewrite length_app. cbn. lia. }
  destruct (block_lines_all visited (S (length pre)) (pb_lines b) rest) as (taken & E & Hs & Hb); [|done| |].
  - eapply Forall_impl; [apply Hlines|]. by intros line (_ & ? & _).
  - intros j Hj. apply Hv in Hj. lia.
  - rewrite E. exists (list_to_set taken.*1 ∪ visited). rewrite length_app. cbn [print_block length]. split.
    + do 2 f_equal; [lia|]. f_equal. unfold read_as. by rewrite (content_of_lines taken (pb_lines b)).
    + intros j [Hj|Hj]%elem_of_union; [|apply Hv in Hj; lia].
      apply elem_of_list_to_set, Hb in Hj. lia.
Qed.

Lemma read_step_progress lines s s' :
  read_step page lines s = inl s' → (length lines - rd_i s' < length lines - rd_i s)%nat.
Proof.
  unfold read_step. destruct (lines !! rd_i s) as [line|] eqn:Hl; [|done].
  apply lookup_lt_Some in Hl.
  assert (Hstop : ∀ visited i ls, (i ≤ (block_lines visited i ls).2)%nat).
  { intros visited i ls. revert i. induction ls as [|l ls IH]; intros i; cbn [block_lines]; [cbn; lia|].
    destruct (match_annotation _); [cbn; lia|]. specialize (IH (S i)).
    destruct (block_lines visited (S i) ls). cbn in *. lia. }
  destruct (decide _); [intros [= <-]; cbn; lia|].
  destruct (match_annotation _) as [a|]; [|intros [= <-]; cbn; lia].
  destruct (bool_decide _); [intros [= <-]; cbn; lia|].
  destruct (_ =b _); [intros [= <-]; cbn; lia|].
  specialize (Hstop (rd_visited s) (S (rd_i s)) (drop (S (rd_i s)) lines)).
  destruct (block_lines _ _ _) as [taken stop]. intros [= <-]. cbn in *. lia.
Qed.

Lemma starts_block_print blocks : Forall text_block_ok blocks → starts_block (mjoin (print_block <$> blocks)).
Proof.
  intros [|b bs (Hh & _) _]; [done|].
  change (match_annotation (strip_view (print_heading (pb_heading b))) ≠ None).
  by rewrite match_annotation_print.
Qed.

Lemma read_all blocks pre visited acc :
  Forall text_block_ok blocks → (∀ j, j ∈ visited → (j < length pre)%nat) →
  let lines := pre ++ mjoin (print_block <$> blocks) in
  run_loop [] (S (length lines - length pre)) (read_step page lines) (mk_Reading (length pre) visited acc) =
  acc ++ (read_as <$> blocks).
Proof.
  intros Hok. revert pre visited acc. induction Hok as [|b blocks Hb Hok IH]; intros pre visited acc Hv lines.
  - unfold lines. cbn. rewrite !app_nil_r. unfold run_loop. cbn [loop]. unfold read_step. cbn [rd_i rd_blocks].
    by rewrite lookup_ge_None_2.
  - unfold lines. rewrite fmap_cons.
    change (mjoin (print_block b :: (print_block <$> blocks))) with (print_block b ++ mjoin (print_block <$> blocks)).
    destruct (read_one pre b (mjoin (print_block <$> blocks)) visited acc) as (visited' & E & Hv');
      [done|by apply starts_block_print|done|].
    rewrite (run_loop_unfold (λ s, length (pre ++ print_block b ++ mjoin (print_block <$> blocks)) - rd_i s)%nat);
      [|intros s s'; apply read_step_progress|apply Nat.lt_succ_diag_r].
    rewrite E. cbn [rd_i]. rewrite app_assoc, (IH (pre ++ print_block b) visited') by done.
    by rewrite <- app_assoc.
Qed.

Lemma read_print blocks :
  Forall text_block_ok blocks → read_blocks page (mjoin (print_block <$> blocks)) = read_as <$> blocks.
Proof.
  intros Hok. pose proof (read_all blocks [] ∅ [] Hok) as H. cbn in H. rewrite Nat.sub_0_r in H.
  apply H. intros j Hj. set_solver.
Qed.
End Reading.

(** * Writing the blocks *)

Section Writing.
Context `{ProtobufSize} `{Stb}.
Variable page : PageContext.

Lemma block_item_add block : ∃ add, block_item page block = run_add page add None.
Proof.
  unfold block_item. destruct (_ || _); [by exists (AddPicture (Some (bk_box block)))|].
  destruct (_ =b _); [by eexists (AddTable _ _)|].
  destruct (_ =b _); [by eexists (AddTitle _ _)|].
  destruct (_ =b _); [destruct (strip_hashes _); by eexists (AddHeading _ _ _)|].
  by eexists (AddText _ _ _).
Qed.

Lemma emit_block_built prev block next w : built page w → built page (emit_block page prev block next w).
Proof.
  intros Hw. unfold emit_block.
  assert (Hcaption : ∀ c : option Block,
    let '(_, w') := match c with
      | Some caption =>
          let '(ref, w) := text page DOC_ITEM_LABEL_CAPTION (Some (bk_box caption)) (bk_content caption) None w in
          (Some ref, w)
      | None => (None, w)
      end in built page w').
  { intros [caption|]; [|done].
    pose proof (built_add page (AddText DOC_ITEM_LABEL_CAPTION (Some (bk_box caption)) (bk_content caption)) None w Hw I) as Ht.
    cbn [run_add] in Ht. by destruct (text _ _ _ _ _ _). }
  specialize (Hcaption (next_caption block next)). destruct (match next_caption block next with Some _ => _ | None => _ end)
    as [caption w'].
  destruct (is_emitted prev block); [done|].
  destruct (block_item_add block) as [add E]. rewrite E.
  pose proof (built_add page add None w' Hcaption I) as Hb. destruct (run_add page add None w') as [ref w'']. cbn [snd] in Hb.
  destruct caption as [caption|]; [|done]. by apply (built_edit page (LinkCaption ref caption)).
Qed.

Lemma emit_blocks_built prev blocks w : built page w → built page (emit_blocks page prev blocks w).
Proof.
  revert prev w. induction blocks as [|block blocks IH]; intros prev w Hw; cbn [emit_blocks]; [done|].
  by apply IH, emit_block_built.
Qed.

(** A mapped page is one the layout writer finished. *)
Lemma map_deepseek_ocr_built body ws doc ws' :
  map_deepseek_ocr page body Document_empty ws = Mapped doc ws' →
  ∃ name allow_empty w, built page w ∧ finish page name allow_empty w = Mapped doc ws'.
Proof.
  unfold map_deepseek_ocr. intros Hf. eexists _, _, _. split; [apply emit_blocks_built, built_new|apply Hf].
Qed.

(** ** A page of text blocks *)

Definition text_item (b : Printed) : BaseTextItem :=
  let label := label_item (hd_label (pb_heading b)) in
  let content := join_lines (pb_lines b) in
  stamp_layer label (kText (fill_text_base page label
    (prov page (Some (grid_box page (hd_coords (pb_heading b)) kGrid)) (char_count content)) content)).

Lemma plain_label b label :
  text_block_ok b → label ∈ ["figure"; "image"; "table"; "title"; "sub_title"]%string →
  (hd_label (pb_heading b) =b lit label) = false.
Proof.
  intros (_ & Hlabel & _) Hin. apply bool_decide_eq_false_2. intros E. apply Hlabel. rewrite E.
  apply list_elem_of_fmap. eauto.
Qed.
Ltac in_labels := by repeat (first [left | right]).
Lemma plain_caption b : text_block_ok b → caption_of (hd_label (pb_heading b)) = [].
Proof. intros Hok. unfold caption_of. by rewrite !(plain_label b) by (done || in_labels). Qed.

Lemma emit_text_block b prev next w texts ws :
  text_block_ok b → (∀ p, prev = Some p → caption_of (bk_label p) = []) → wrote_texts w texts ws →
  wrote_texts (emit_block page prev (read_as page b) next w) (texts ++ [text_item b]) ws.
Proof.
  intros Hok Hprev Hw. unfold emit_block, next_caption. cbn [read_as bk_label]. rewrite plain_caption by done.
  rewrite (bool_decide_eq_true_2 ([] = [])) by done.
  replace (is_emitted prev (read_as page b)) with false.
  2:{ destruct prev as [p|]; [|done]. unfold is_emitted. rewrite (Hprev p) by done.
      rewrite (bool_decide_eq_false_2 ([] = _)); [by rewrite andb_false_r|].
      destruct Hok as ((Hne & _) & _). intros E. by apply Hne. }
  unfold block_item. cbn [read_as bk_label bk_box bk_content].
  rewrite !(plain_label b) by (done || in_labels). cbn [orb].
  pose proof (wrote_text page (label_item (hd_label (pb_heading b))) (Some (grid_box page (hd_coords (pb_heading b)) kGrid))
    (join_lines (pb_lines b)) w texts ws Hw) as Hwrote.
  destruct (text _ _ _ _ _ _) as [ref w']. apply Hwrote.
Qed.

Lemma emit_texts blocks prev w texts ws :
  Forall text_block_ok blocks → (∀ p, prev = Some p → caption_of (bk_label p) = []) → wrote_texts w texts ws →
  wrote_texts (emit_blocks page prev (read_as page <$> blocks) w) (texts ++ (text_item <$> blocks)) ws.
Proof.
  intros Hok. revert prev w texts. induction Hok as [|b blocks Hb _ IH]; intros prev w texts Hprev Hw.
  - by rewrite app_nil_r.
  - rewrite !fmap_cons. cbn [emit_blocks]. change (texts ++ ?x :: ?l) with (texts ++ [x] ++ l). rewrite app_assoc.
    apply IH; [intros p [= <-]; by apply plain_caption|by apply emit_text_block].
Qed.
End Writing.

(** * Properties *)

Lemma print_lines blocks :
  blocks ≠ [] → Forall text_block_ok blocks →
  split_on c_nl (print_page blocks) = mjoin (print_block <$> blocks).
Proof.
  intros Hne Hok. apply split_join_lines; [by destruct Hok|].
  induction Hok as [|b blocks (Hh & _ & Hlines & _) _ IH]; [constructor|].
  rewrite fmap_cons. change (mjoin (?l :: ?ls)) with (l ++ mjoin ls). apply Forall_app_2.
  - constructor; [by apply print_heading_line|].
    eapply Forall_impl; [apply Hlines|]. by intros line (? & _).
  - destruct blocks; [constructor|by apply IH].
Qed.

(** C25: A DeepSeek-OCR page of text blocks comes back as printed: one text item
    per block, in order, with the block's lines as its text, its label's item
    label and its coordinates, on the 1000-unit grid, as its box.  Each item is
    directly under the body, which lists them in the blocks' order; there is no
    other item of any kind, no group and no field region, and no warning is
    added. *)
Theorem map_deepseek_ocr_roundtrip `{ProtobufSize} `{Stb} page blocks ws :
  blocks ≠ [] → Forall text_block_ok blocks →
  ∃ doc, map_deepseek_ocr page (print_page blocks) Document_empty ws = Mapped doc ws ∧
    text_page doc (text_item page <$> blocks) ∧
    item_text <$> doc_texts doc = (λ b, join_lines (pb_lines b)) <$> blocks ∧
    item_label <$> doc_texts doc = (λ b, label_item (hd_label (pb_heading b))) <$> blocks ∧
    item_box <$> doc_texts doc = (λ b, Some (grid_box page (hd_coords (pb_heading b)) kGrid)) <$> blocks.
Proof.
  intros Hne Hok. unfold map_deepseek_ocr. rewrite print_lines, read_print by done.
  set (w0 := LayoutWriter_new page Document_empty ws).
  assert (Hw : wrote_texts (emit_blocks page None (read_as page <$> blocks) w0) (text_item page <$> blocks) ws).
  { by apply (emit_texts page blocks None w0 []). }
  assert (Hne' : text_item page <$> blocks ≠ []) by (by destruct blocks).
  destruct (finish_wrote_texts page (lit "DeepSeek-OCR") false _ _ _ Hne' Hw)
    as (doc & Hf & Ht).
  exists doc. split; [done|]. split; [done|].
  rewrite (text_page_fmap item_text _ _ item_text_stamp Ht), (text_page_fmap item_label _ _ item_label_stamp Ht),
    (text_page_fmap item_box _ _ item_box_stamp Ht), <- !list_fmap_compose.
  split_and!; try done;
    apply list_fmap_ext; intros i b _; cbn; unfold text_item, stamp_layer; by case_decide.
Qed.

(** * Unlimited-OCR's form *)

(** An annotation as Unlimited-OCR writes it, and what follows it. *)
Record Chunk := mk_Chunk { ck_heading : Heading; ck_text : bytes }.
Definition print_inline (c : Chunk) : bytes :=
  kOpen ++ hd_label (ck_heading c) ++ lit " [" ++ print_coords (ck_heading c) ++ lit "]" ++ kClose ++ ck_text c.
Definition print_grounded (c : Chunk) : bytes := print_heading (ck_heading c) ++ c_nl :: ck_text c.
Definition chunk_ok (c : Chunk) : Prop :=
  hd_label (ck_heading c) ≠ [] ∧ Forall (λ d, is_label_char d = true) (hd_label (ck_heading c)) ∧
  Forall (Z.le 0) [hd_x0 (ck_heading c); hd_y0 (ck_heading c); hd_x1 (ck_heading c); hd_y1 (ck_heading c)] ∧
  find kOpen (ck_text c) 0 = None.

Lemma starts_with_stop p s c rest : c ∉ p → starts_with p (s ++ c :: rest) = starts_with p s.
Proof.
  revert s. induction p as [|d p IH]; intros s; [done|]. intros [Hd Hp]%not_elem_of_cons.
  destruct s as [|e s]; cbn; [by rewrite (proj2 (Ascii.eqb_neq d c))|by rewrite IH].
Qed.
(** The opening cannot begin inside a text and end past it. *)
Lemma kOpen_boundary s rest :
  s ≠ [] → starts_with kOpen s = false → starts_with kOpen (s ++ "<"%char :: rest) = false.
Proof.
  destruct s as [|e s]; [done|]. intros _. change kOpen with ("<"%char :: drop 1 kOpen).
  cbn [app starts_with]. rewrite starts_with_stop; [done|].
  intros Hin. by repeat (apply elem_of_cons in Hin as [?|Hin]; [done|]); apply elem_of_nil in Hin.
Qed.

Lemma find_open_here s rest :
  find kOpen s 0 = None → find kOpen (s ++ kOpen ++ rest) 0 = Some (length s).
Proof.
  intros Hs. unfold find. apply (find_if_hit _ _ [] s (kOpen ++ rest)); try done.
  intros k Hk. apply (kOpen_boundary (drop k s) (drop 1 kOpen ++ rest)).
  - intros E. apply (f_equal length) in E. rewrite length_drop in E. cbn in E. lia.
  - apply (find_if_None _ _ _ Hs). lia.
Qed.

Lemma lstrip_digits z rest : 0 <= z → head_is isdigit rest = false → lstrip isdigit (to_string z ++ rest) = rest.
Proof.
  intros Hz Hrest. destruct (to_string_digits z Hz) as (Hall & _ & _).
  rewrite lstrip_app, bool_decide_eq_true_2 by (by apply lstrip_nil). apply lstrip_id.
  intros c Hc. destruct rest; [done|]. by injection Hc as ->.
Qed.

Lemma lstrip_space_digits z s : 0 <= z → lstrip isspace (to_string z ++ s) = to_string z ++ s.
Proof.
  intros Hz. apply lstrip_id. intros c Hc. pose proof (head_to_string z s Hz) as Hd.
  destruct (to_string z ++ s) as [|d t]; [done|]. injection Hc as <-. cbn in Hd.
  unfold isdigit, isspace, in_range in *. lia.
Qed.
Lemma label_char_space c : is_label_char c = true → isspace c = false.
Proof.
  unfold is_label_char. destruct (Ascii.eqb_spec c "_"%char) as [->|]; [done|].
  unfold islower, isspace, in_range. lia.
Qed.

Lemma inline_annotation_print c rest :
  chunk_ok c →
  inline_annotation (hd_label (ck_heading c) ++ lit " [" ++ print_coords (ck_heading c) ++ lit "]" ++ kClose ++ rest) =
  Some (hd_label (ck_heading c), print_coords (ck_heading c), rest).
Proof.
  destruct c as [[label x0 y0 x1 y1] text]. intros (Hne & Hlabel & Hz & _).
  cbn [ck_heading ck_text hd_label hd_x0 hd_y0 hd_x1 hd_y1] in *.
  repeat (apply Forall_cons in Hz as [? Hz]). unfold inline_annotation.
  rewrite (lstrip_id isspace (label ++ _)).
  2:{ intros c Hc. destruct label as [|d label]; [done|]. apply Forall_cons in Hlabel as [Hd _].
      apply (label_char_space d) in Hd. by injection Hc as <-. }
  rewrite (span_stop is_label_char label) by done. rewrite bool_decide_eq_false_2 by (by destruct label).
  rewrite drop_app_length, take_app_length. change (lstrip isspace (lit " [" ++ ?x)) with ("["%char :: x).
  set (coords := print_coords _). set (after := lit "]" ++ kClose ++ rest).
  assert (Hb : coords ++ after = to_string x0 ++ lit ", " ++ to_string y0 ++ lit ", " ++ to_string x1 ++ lit ", " ++
    to_string y1 ++ after).
  { unfold coords, print_coords. cbn [hd_x0 hd_y0 hd_x1 hd_y1]. by rewrite <- !app_assoc. }
  assert (Hmore : more_digits 3 (lstrip isdigit (coords ++ after)) = Some after).
  { rewrite Hb, lstrip_digits by done.
    assert (Hstep : ∀ n z s, 0 <= z → head_is isdigit s = false →
      more_digits (S n) (lit ", " ++ to_string z ++ s) = more_digits n s).
    { intros n z s Hz0 Hs. change (more_digits (S n) (lit ", " ++ ?s)) with
        (if head_is isdigit (lstrip isspace s) then more_digits n (lstrip isdigit (lstrip isspace s)) else None).
      by rewrite lstrip_space_digits, head_to_string, lstrip_digits. }
    by rewrite !Hstep. }
  cbv beta iota. rewrite Hmore, (Hb : coords ++ after = _), head_to_string, <- Hb by done. cbn [negb].
  unfold after at 1. cbn [lit String.list_ascii_of_string app].
  replace (starts_with kClose (kClose ++ rest)) with true by (symmetry; apply starts_with_app; by exists rest).
  rewrite drop_app_length. do 3 f_equal.
  rewrite length_app. change (length after) with (S (length (kClose ++ rest))).
  by rewrite Nat.add_sub, take_app_length.
Qed.

Lemma length_lstrip p s : (length (lstrip p s) ≤ length s)%nat.
Proof. destruct (lstrip_suffix p s) as (l & Hs & _). rewrite Hs at 2. rewrite length_app. lia. Qed.
Lemma more_digits_length n s rest : more_digits n s = Some rest → (length rest ≤ length s)%nat.
Proof.
  revert s. induction n as [|n IH]; intros s; cbn [more_digits]; [intros [= ->]; lia|].
  pose proof (length_lstrip isspace s) as H1. destruct (lstrip isspace s) as [|c t]; [done|].
  pose proof (length_lstrip isspace t) as H2. pose proof (length_lstrip isdigit (lstrip isspace t)) as H3.
  intros H. assert (∃ u, more_digits n u = Some rest ∧ (length u ≤ length t)%nat) as (u & Hu & Hle).
  { destruct c as [[] [] [] [] [] [] [] []]; try done. destruct (head_is _ _); [|done]. eexists. split; [apply H|lia]. }
  apply IH in Hu. cbn in H1. lia.
Qed.
Lemma inline_annotation_length s label bbox rest :
  inline_annotation s = Some (label, bbox, rest) → (length rest ≤ length s)%nat.
Proof.
  unfold inline_annotation. pose proof (length_lstrip isspace s) as H1. set (t := lstrip isspace s) in *.
  destruct (bool_decide _); [done|].
  pose proof (length_lstrip isspace (drop (span is_label_char t) t)) as H2. rewrite length_drop in H2.
  destruct (lstrip isspace (drop _ t)) as [|c u]; [done|]. intros H.
  assert (∃ v, more_digits 3 (lstrip isdigit u) = Some v ∧ (length rest ≤ length v)%nat) as (v & Hv & Hle).
  { destruct c as [[] [] [] [] [] [] [] []]; try done. destruct (negb _); [done|].
    destruct (more_digits 3 (lstrip isdigit u)) as [[|d v]|]; try done. exists (d :: v). split; [done|].
    destruct d as [[] [] [] [] [] [] [] []]; try done. destruct (starts_with _ _); [|done].
    injection H as _ _ <-. rewrite length_drop. cbn. lia. }
  apply more_digits_length in Hv. pose proof (length_lstrip isdigit u). cbn in H2. lia.
Qed.

(** Each step rewrites one annotation and consumes its text. *)
Lemma normalize_progress s s' : normalize_step s = inl s' → (length s'.2 < length s.2)%nat.
Proof.
  destruct s as [out rest]. unfold normalize_step. destruct (find kOpen rest 0) as [at_|] eqn:E; [|done].
  apply find_lt in E as [_ E]. set (after := drop (at_ + length kOpen) rest).
  assert (Hafter : (length after < length rest)%nat) by (unfold after; rewrite length_drop; cbn; lia).
  destruct (inline_annotation after) as [[[label bbox] next]|] eqn:Ea; intros [= <-]; [|done].
  apply inline_annotation_length in Ea. cbn. lia.
Qed.

Lemma normalize_chunks chunks pre out :
  Forall chunk_ok chunks → find kOpen pre 0 = None →
  let content := pre ++ mjoin (print_inline <$> chunks) in
  run_loop [] (S (length content)) normalize_step (out, content) =
  out ++ pre ++ mjoin (print_grounded <$> chunks).
Proof.
  intros Hok. revert pre out. induction Hok as [|c chunks Hc _ IH]; intros pre out Hpre content.
  - unfold content. change (mjoin (print_inline <$> [])) with (@nil ascii).
    change (mjoin (print_grounded <$> [])) with (@nil ascii). rewrite !app_nil_r.
    unfold run_loop. rewrite loop_S. unfold normalize_step. by rewrite Hpre.
  - unfold content. rewrite !fmap_cons. change (mjoin (?l :: ?ls)) with (l ++ mjoin ls).
    rewrite (run_loop_unfold (λ s, length s.2)); [|apply normalize_progress|apply Nat.lt_succ_diag_r].
    set (rest := mjoin (print_inline <$> chunks)) in *.
    assert (Hstep : normalize_step (out, pre ++ print_inline c ++ rest) =
      inl (out ++ pre ++ print_heading (ck_heading c) ++ [c_nl], ck_text c ++ rest)).
    { unfold normalize_step, print_inline. rewrite <- !app_assoc, find_open_here by done.
      rewrite take_app_length, (app_assoc pre kOpen), drop_app_length' by (by rewrite length_app).
      rewrite inline_annotation_print by done. unfold print_heading. by rewrite <- !app_assoc. }
    rewrite Hstep. cbn [snd]. rewrite IH by apply Hc. unfold print_grounded.
    by rewrite <- !app_assoc.
Qed.

(** C26: Unlimited-OCR's inline annotations are rewritten exactly: a page whose
    text between annotations opens none is read as the DeepSeek-OCR page that
    has, in the same places, the grounded form of each annotation, with the same
    label and the same coordinates digit for digit, then a line break and the same
    text after it (nothing is put before it, so one that stands in the middle of a
    line stays there); so both formats map such pages alike. *)
Theorem map_unlimited_ocr_grounded `{ProtobufSize} `{Stb} page pre chunks out ws :
  Forall chunk_ok chunks → find kOpen pre 0 = None →
  normalize_unlimited_ocr (pre ++ mjoin (print_inline <$> chunks)) = pre ++ mjoin (print_grounded <$> chunks) ∧
  map_unlimited_ocr page (pre ++ mjoin (print_inline <$> chunks)) out ws =
    map_deepseek_ocr page (pre ++ mjoin (print_grounded <$> chunks)) out ws.
Proof.
  intros Hok Hpre. unfold map_unlimited_ocr.
  assert (normalize_unlimited_ocr (pre ++ mjoin (print_inline <$> chunks)) = pre ++ mjoin (print_grounded <$> chunks)) as ->;
    [|done].
  apply (normalize_chunks chunks pre []); done.
Qed.

(** * Concrete instances *)

Definition toy_printed : list Printed :=
  [mk_Printed (mk_Heading (lit "text") 10 20 300 40) [lit "First line"; []; lit "second"];
   mk_Printed (mk_Heading (lit "header") 0 0 1000 15) [lit "Page 3"]].

Lemma toy_printed_ok : Forall text_block_ok toy_printed.
Proof.
  repeat constructor; try (by vm_compute);
    by apply (bool_decide_eq_true_1 (_ ∉ _)); vm_compute; reflexivity.
Qed.

Lemma map_deepseek_ocr_roundtrip_witness : ∃ doc,
  @map_deepseek_ocr toy_size toy_stb toy_page (print_page toy_printed) Document_empty None = Mapped doc None ∧
  item_text <$> doc_texts doc = [lit "First line" ++ c_nl :: c_nl :: lit "second"; lit "Page 3"].
Proof.
  destruct (@map_deepseek_ocr_roundtrip toy_size toy_stb toy_page toy_printed None) as (doc & Hmap & _ & Ht & _).
  - done.
  - apply toy_printed_ok.
  - exists doc. split; [apply Hmap|]. rewrite Ht. vm_compute. reflexivity.
Defined.

Definition toy_chunk : Chunk := mk_Chunk (mk_Heading (lit "sub_title") 1 2 3 4) (lit "## Results").
Lemma map_unlimited_ocr_grounded_witness :
  normalize_unlimited_ocr (lit "<|det|>sub_title [1, 2, 3, 4]<|/det|>## Results") =
  lit "<|ref|>sub_title<|/ref|><|det|>[[1, 2, 3, 4]]<|/det|>" ++ c_nl :: lit "## Results".
Proof.
  destruct (@map_unlimited_ocr_grounded toy_size toy_stb toy_page [] [toy_chunk] Document_empty None) as [E _].
  - repeat constructor; try done; vm_compute; done.
  - done.
  - exact E.
Defined.
