(* ===== verification/Mapper.v ===== *)
(** The format mappers behind one entry point (src/mapping/mapper.h,
    src/mapping/mapper.cpp).  [map_response] dispatches on the format to the mappers of this
    development.  What is proved: whatever the format, a mapped fragment is a
    finished page whose items hang from its body. *)
From S2P Require Import MarkupTree LayoutText Layout LayoutGrows LayoutImages Deepseek Chandra Dots Nemotron Doclang.
From S2P Require Import Prelude Numbers Double Json Proto ImageCrop Builder OtslGrid Html Markdown Tree.
From S2P Require Import DoctagsItems DoctagsTree Doctags VlmProto.

Definition map_plaintext (text : bytes) (page : PageContext) (out : Document) (warnings : Warnings)
  : MapResult :=
  let body := trim text in
  if bool_decide (body = []) then MapFailed (lit "empty plaintext response") else
  Mapped (finalize_document_default page
            (add_text page DOC_ITEM_LABEL_TEXT (page_prov page) body out)) warnings.

Create HintDb mapper.

Section Mapper.
Context `{ProtobufSize} `{Stb} `{Json}.

Definition map_response (format : ResponseFormat) (text : bytes) (page : PageContext)
    (out : Document) (warnings : Warnings) : MapResult :=
  match format with
  | RESPONSE_FORMAT_DOCTAGS => map_doctags page text out warnings
  | RESPONSE_FORMAT_MARKDOWN => map_markdown text page out warnings
  | RESPONSE_FORMAT_HTML => map_html text page out warnings
  | RESPONSE_FORMAT_OTSL => map_otsl text page out warnings
  | RESPONSE_FORMAT_PLAINTEXT => map_plaintext text page out warnings
  | RESPONSE_FORMAT_DOCLANG => map_doclang page text out warnings
  | RESPONSE_FORMAT_DEEPSEEKOCR_MARKDOWN => map_deepseek_ocr page text out warnings
  | RESPONSE_FORMAT_UNLIMITED_OCR_MARKDOWN => map_unlimited_ocr page text out warnings
  | RESPONSE_FORMAT_CHANDRA_HTML => map_chandra_html page text out warnings
  | RESPONSE_FORMAT_DOTS_JSON => map_dots_json page text out warnings
  | RESPONSE_FORMAT_NEMOTRON_PARSE_V2 => map_nemotron_parse_v2 page text out warnings
  | RESPONSE_FORMAT_NEMOTRON_PARSE_V3_5 => map_nemotron_parse_v3_5 page text out warnings
  | RESPONSE_FORMAT_MINERU2 => MapFailed (lit "MinerU2 responses are not supported")
  | RESPONSE_FORMAT_UNSPECIFIED | RESPONSE_FORMAT_unrecognized _ =>
      MapFailed (lit "unresolved response format")
  end.

(** * What a mapped fragment is *)

(** A fragment that holds texts and tables only, before it is finalized. *)
Record flat (doc : Document) : Prop := {
  fl_pictures : doc_pictures doc = [];
  fl_groups : doc_groups doc = [];
  fl_key_values : doc_key_value_items doc = [];
  fl_field_regions : doc_field_regions doc = [];
  fl_body : doc_body doc = None }.

Lemma flat_empty : flat Document_empty.
Proof. done. Qed.

Lemma flat_push_text item doc : flat doc → flat (push_text item doc).
Proof. by intros []. Qed.
Lemma flat_add_table page prov doc : flat doc → flat (add_table page prov doc).
Proof. by intros []. Qed.
Lemma flat_alter_table f i doc : flat doc → flat (alter_table f i doc).
Proof. by intros []. Qed.
#[local] Hint Resolve flat_empty flat_add_table flat_alter_table : mapper.
#[local] Hint Extern 1 (flat _) => apply flat_push_text : mapper.

Lemma in_default_order doc k i :
  mk_BodyChild k i ∈ default_order doc ↔
  match k with
  | TEXT => (i < texts_size doc)%nat
  | PICTURE => (i < pictures_size doc)%nat
  | TABLE => (i < tables_size doc)%nat
  | _ => False
  end.
Proof.
  unfold default_order. rewrite !list_elem_of_In, !in_app_iff, !in_map_iff. split.
  - intros [(j & [= <- <-] & Hj%in_seq)|[(j & [= <- <-] & Hj%in_seq)|(j & [= <- <-] & Hj%in_seq)]]; lia.
  - destruct k; try done; intros Hi; [left|right; left|right; right]; exists i;
      rewrite in_seq; (split; [done|lia]).
Qed.

Lemma default_order_nodup doc : NoDup (default_order doc).
Proof.
  unfold default_order. rewrite !NoDup_app.
  assert (Hinj : ∀ k n, NoDup (map (mk_BodyChild k) (seq 0 n))).
  { intros k n. apply (NoDup_fmap_2_strong (mk_BodyChild k)); [by intros ?? _ _ [=]|apply NoDup_seq]. }
  split_and!; try apply Hinj.
  - intros [k i] Hin Hin'. rewrite !list_elem_of_In, !in_app_iff, !in_map_iff in *.
    destruct Hin as (? & ? & _), Hin' as [(? & ? & _)|(? & ? & _)]; congruence.
  - intros [k i] Hin Hin'. rewrite !list_elem_of_In, !in_map_iff in *.
    destruct Hin as (? & ? & _), Hin' as (? & ? & _); congruence.
Qed.

(** Every item of a flat fragment is a root. *)
Lemma flat_tree doc : flat doc → tree_inv doc (default_order doc).
Proof.
  intros [_ Hg Hk Hf _]. split; [apply default_order_nodup| |].
  - intros k i Hin%in_default_order. destruct k; try done; cbn;
      apply fmap_is_Some, lookup_lt_is_Some; done.
  - intros k i r Hr. left. apply in_default_order.
    destruct k; cbn in Hr; rewrite ?Hg, ?Hk, ?Hf in Hr; try done;
      apply lookup_lt_is_Some; apply fmap_Some in Hr as (x & Hx & _); by exists x.
Qed.

(** The images it inlines are within the page's budget, in bytes and number. *)
Definition bounded_images (page : PageContext) (doc : Document) : Prop :=
  0 <= max_inline_bytes (page_crops page) < 2 ^ 64 →
  images_within (page_crops page) doc.
(** The fragment was finalized from a tree its order lists. *)
Definition finalized_tree (page : PageContext) (doc : Document) : Prop :=
  ∃ doc0 order, doc = finalize_document page order doc0 ∧ tree_inv doc0 order ∧ doc_body doc0 = None ∧
    bounded_images page doc.

Lemma flat_finalized page doc : flat doc → finalized_tree page (finalize_document_default page doc).
Proof.
  intros Hflat. exists doc, (default_order doc). split_and!; [done|by apply flat_tree|apply Hflat|].
  intros Hcap. unfold finalize_document_default.
  apply (images_within_ext _ doc); [symmetry; apply same_contents_images, finalize_same_contents|].
  unfold images_within. rewrite (fl_pictures _ Hflat). cbn. lia.
Qed.

Lemma map_plaintext_tree text page warnings doc warnings' :
  map_plaintext text page Document_empty warnings = Mapped doc warnings' → finalized_tree page doc.
Proof.
  unfold map_plaintext. case_bool_decide; [done|]. intros [= <- _].
  apply flat_finalized. auto with mapper.
Qed.

Lemma map_otsl_tree text page warnings doc warnings' :
  map_otsl text page Document_empty warnings = Mapped doc warnings' → finalized_tree page doc.
Proof.
  unfold map_otsl. destruct (parse_otsl_grid _) as [[ok data] cut]. destruct ok; [|done].
  intros [= <- _]. by apply flat_finalized.
Qed.

Lemma map_html_block_flat page st block : flat st.1.1 → flat (map_html_block page st block).1.1.
Proof.
  destruct st as [[doc ws] n]. cbn [fst]. intros Hdoc. unfold map_html_block.
  repeat (match goal with |- context [if ?b then _ else _] => destruct b end; cbn [fst];
          [auto with mapper|]);
  repeat match goal with |- context [if ?b then _ else _] => destruct b end;
  repeat match goal with |- context [let '(_, _) := ?p in _] => destruct p end;
  cbn [fst]; auto with mapper.
Qed.

Lemma map_html_tree text page warnings doc warnings' :
  map_html text page Document_empty warnings = Mapped doc warnings' → finalized_tree page doc.
Proof.
  unfold map_html. destruct (foldl _ _ _) as [[out ws] n] eqn:E. case_bool_decide; [done|].
  intros [= <- _]. apply flat_finalized. change out with (out, ws, n).1.1. rewrite <- E. clear E.
  assert (Hst : flat (Document_empty, warnings, 0%nat).1.1) by apply flat_empty.
  revert Hst. generalize (Document_empty, warnings, 0%nat) as st.
  induction (elements text kBlockNames) as [|block blocks IH]; intros st Hst; cbn [foldl]; [done|].
  by apply IH, map_html_block_flat.
Qed.

Lemma flush_paragraph_flat page s : flat (md_out s) → flat (md_out (flush_paragraph page s)).
Proof. intros Hs. unfold flush_paragraph. case_bool_decide; cbn [md_out]; auto with mapper. Qed.

Lemma emit_pipe_table_flat lines page doc warnings :
  flat doc → flat (emit_pipe_table lines page doc warnings).1.
Proof.
  intros Hdoc. unfold emit_pipe_table. destruct (fill_table_data _ _) as [data cut].
  cbn [fst]. auto with mapper.
Qed.

Lemma md_step_flat page s :
  flat (md_out s) →
  match md_step page s with inl s' => flat (md_out s') | inr s' => flat (md_out s') end.
Proof.
  intros Hs. pose proof (flush_paragraph_flat page s Hs) as Hf. unfold md_step.
  destruct (md_lines s) as [|line lines]; [done|]. cbv zeta.
  destruct (starts_with kFence _); [destruct (span_lines _ _); cbn [md_out emit_item]; auto with mapper|].
  destruct (is_heading _); [cbn [md_out emit_item]; auto with mapper|].
  destruct (starts_with _ _).
  { destruct (span_lines _ _) as [table_lines rest].
    pose proof (emit_pipe_table_flat table_lines page _ (md_warnings (flush_paragraph page s)) Hf) as He.
    destruct (emit_pipe_table _ _ _ _). done. }
  destruct (_ || _); [cbn [md_out emit_item]; auto with mapper|].
  case_bool_decide; [by apply flush_paragraph_flat|done].
Qed.

Lemma map_markdown_tree text page warnings doc warnings' :
  map_markdown text page Document_empty warnings = Mapped doc warnings' → finalized_tree page doc.
Proof.
  unfold map_markdown. case_bool_decide; [done|]. cbv zeta. case_bool_decide; [done|].
  intros [= <- _]. apply flat_finalized, flush_paragraph_flat.
  apply (run_loop_inv (λ s, flat (md_out s)) (λ s, flat (md_out s))); try apply flat_empty.
  apply md_step_flat.
Qed.

Lemma map_doctags_finalized text page warnings doc warnings' :
  map_doctags page text Document_empty warnings = Mapped doc warnings' → finalized_tree page doc.
Proof.
  intros Hmap. pose proof Hmap as (em & [new Hem] & ->)%map_doctags_emits. exists (em_doc em), (em_order em).
  split_and!; [done| |apply (es_body _ _ _ _ Hem)|intros Hcap; by eapply doctags_images].
  apply (es_tree _ _ _ _ Hem [] tree_inv_empty).
Qed.

(** A fragment of either kind: finalized from a flat tree, or finished by the
    layout writer. *)
Definition layout_tree (page : PageContext) (doc : Document) : Prop :=
  ∃ name allow_empty w ws, built page w ∧ finish page name allow_empty w = Mapped doc ws.
Lemma map_response_shape format text page warnings doc warnings' :
  map_response format text page Document_empty warnings = Mapped doc warnings' →
  finalized_tree page doc ∨ layout_tree page doc.
Proof.
  intros Hmap.
  assert (Hlayout : ∀ name w d ws, built page w → Mapped doc warnings' = Mapped d ws → finish page name true w = Mapped d ws →
    finalized_tree page doc ∨ layout_tree page doc).
  { intros name w d ws Hb [= -> ->] Hf. right. by exists name, true, w, ws. }
  destruct format; cbn [map_response] in Hmap; try done.
  - left. by eapply map_doctags_finalized.
  - left. by eapply map_markdown_tree.
  - left. by eapply map_html_tree.
  - left. by eapply map_otsl_tree.
  - left. by eapply map_plaintext_tree.
  - pose proof (map_doclang_built page text warnings) as Hbuilt. rewrite Hmap in Hbuilt.
    destruct (doclang_root text); [|done]. destruct Hbuilt as (w & d & ws & Hb & Hm & Hf). by eapply Hlayout.
  - right. apply map_deepseek_ocr_built in Hmap as (name & allow & w & Hb & Hf). by exists name, allow, w, warnings'.
  - right. apply map_deepseek_ocr_built in Hmap as (name & allow & w & Hb & Hf). by exists name, allow, w, warnings'.
  - right. apply map_chandra_html_built in Hmap as (w & Hb & Hf'). by eexists _, _, w, _.
  - destruct (map_dots_built page text warnings) as (w & d & ws & Hb & Hm & Hf & _). rewrite Hmap in Hm. by eapply Hlayout.
  - destruct (map_nemotron_v2_built page text warnings) as (w & d & ws & Hb & Hm & Hf & _). rewrite Hmap in Hm. by eapply Hlayout.
  - destruct (map_nemotron_v35_built page text warnings) as (w & d & ws & Hb & Hm & Hf & _). rewrite Hmap in Hm. by eapply Hlayout.
Qed.

(** An item attached to the page: it carries its own ref, its parent lists it,
    and the parent is the body or attached itself. *)
Inductive attached (doc : Document) : Parent → Prop :=
  | attached_body : attached doc None
  | attached_item k i p :
      attached doc p → item_refs doc k i = Some (body_child_ref k i, Some (parent_ref p)) →
      body_child_ref k i ∈ node_children doc p → attached doc (Some (mk_BodyChild k i)).
Lemma hangs_attached doc p : hangs doc p → attached doc p.
Proof.
  induction 1 as [|k i p l1 l2 _ IH Hr Hc _ _]; [constructor|]. econstructor; [done..|].
  rewrite Hc. apply elem_of_app. right. by left.
Qed.
Lemma well_parented_attached doc :
  (∀ k i r, item_refs doc k i = Some r → well_parented doc k i r) →
  ∀ k i, is_Some (item_refs doc k i) → attached doc (Some (mk_BodyChild k i)).
Proof.
  intros Hall k i [[self parent] Hr]. destruct (Hall k i _ Hr) as [Hs [[Hp Hin]|(g & children & Hp & Hg & Hin & Hgr)]];
    cbn in Hs, Hp; subst.
  - econstructor; [constructor|done|done].
  - destruct (Hall GROUP g _ Hgr) as [_ [[_ Hbody]|(g' & ? & Hp' & _)]].
    + econstructor; [econstructor; [constructor|done|done]|done|]. cbn.
      destruct (doc_groups doc !! g) as [group|]; [|done]. cbn in *. by injection Hg as ->.
    + cbn in Hp'. by injection Hp' as ?.
Qed.

Lemma ref_string_inj a b : ref_string a = ref_string b → a = b.
Proof. destruct a as [k i], b as [k' i']. cbn. by intros [-> ->]%body_child_ref_inj. Qed.
Lemma stamp_entries_pages es doc : doc_pages (foldl stamp_entry doc es) = doc_pages doc.
Proof.
  revert doc. induction es as [|[c p] es IH]; intros doc; cbn [foldl]; [done|]. rewrite IH.
  unfold stamp_entry. cbn [en_parent en_ref]. destruct p as [p|]; [|done].
  unfold add_child_ref, stamp_child. destruct (bc_kind p); case_decide; try done; by destruct (bc_kind c).
Qed.

Lemma map_response_facts format text page warnings doc warnings' :
  map_response format text page Document_empty warnings = Mapped doc warnings' →
  (∀ k i, is_Some (item_refs doc k i) → attached doc (Some (mk_BodyChild k i))) ∧
  NoDup (default [] (gi_children <$> doc_body doc)) ∧
  doc_pages doc !! to_int32 (page_no page) =
    Some (mk_PageItem (to_int32 (page_no page)) (of_Z (page_width page)) (of_Z (page_height page))) ∧
  bounded_images page doc.
Proof.
  intros Hmap.
  destruct (map_response_shape _ _ _ _ _ _ Hmap) as [(doc0 & order & -> & Htree & Hbody & Himages)|(name & allow & w & ws & Hb & Hfin)].
  - split_and!.
    + apply well_parented_attached. intros k i r. by apply finalize_tree.
    + rewrite finalize_children, Hbody. change (default [] (Some ?l)) with l. cbn [from_option].
      apply body_children_nodup, Htree.
    + apply lookup_insert_eq.
    + done.
  - pose proof (λ Hcap, finish_images page _ _ w _ _ Hcap Hb Hfin) as Himages.
    destruct (finish_items page _ _ w _ _ Hb Hfin) as (_ & _ & Hhang). pose proof (built_inv page w Hb) as Hinv.
    rewrite (finish_doc _ _ _ _ _ _ Hfin) in *. split_and!; [| | |done].
    + intros k i Hi. by apply hangs_attached, Hhang.
    + pose proof (finished_children page w Hinv None) as Hc. cbn [node_children] in Hc. rewrite Hc.
      apply (NoDup_fmap_2 _ (Inj0 := ref_string_inj)). apply under_nodup, Hinv.
    + rewrite stamp_entries_pages. apply lookup_insert_eq.
Qed.

(** Whichever format a response is mapped as, the fragment is a
    finished page: every item, however deeply nested, carries its own ref and
    one parent that lists it, up to the body; no ref repeats among the body's
    children; the page it came from is among the fragment's pages; and the
    images it inlines are within the page's crop budget, in bytes and in number. *)
Theorem map_response_tree format text page warnings doc warnings' :
  map_response format text page Document_empty warnings = Mapped doc warnings' →
  (∀ k i, is_Some (item_refs doc k i) → attached doc (Some (mk_BodyChild k i))) ∧
  NoDup (default [] (gi_children <$> doc_body doc)) ∧
  doc_pages doc !! to_int32 (page_no page) =
    Some (mk_PageItem (to_int32 (page_no page)) (of_Z (page_width page)) (of_Z (page_height page))) ∧
  bounded_images page doc.
Proof. apply map_response_facts. Qed.

(** Plain text becomes exactly one text item, the trimmed response, under
    the body; only a blank response fails. *)
Theorem map_plaintext_spec text page warnings :
  if bool_decide (trim text = [])
  then map_plaintext text page Document_empty warnings = MapFailed (lit "empty plaintext response")
  else ∃ doc, map_plaintext text page Document_empty warnings = Mapped doc warnings ∧
    item_text <$> doc_texts doc = [trim text] ∧ doc_tables doc = [] ∧ doc_pictures doc = [] ∧
    gi_children <$> doc_body doc = Some [lit "#/texts/0"].
Proof.
  unfold map_plaintext. case_bool_decide; [done|]. eexists. split; [done|].
  unfold finalize_document_default. split_and!; try done.
Qed.
End Mapper.

(** * Concrete instances *)

Lemma map_response_tree_witness :
  ∃ doc warnings,
    @map_response toy_size toy_stb toy_json RESPONSE_FORMAT_CHANDRA_HTML
      (lit "<div><h1>Title</h1><ul><li>a <b>b</b><p>c</p></ul></div>") toy_page Document_empty None = Mapped doc warnings ∧
    length (doc_texts doc) = 5%nat ∧ length (doc_groups doc) = 2%nat ∧
    attached doc (Some (mk_BodyChild TEXT 3)).
Proof.
  eexists _, _. split; [vm_compute; reflexivity|]. split; [vm_compute; reflexivity|]. split; [vm_compute; reflexivity|].
  eapply (@map_response_tree toy_size toy_stb toy_json RESPONSE_FORMAT_CHANDRA_HTML
    (lit "<div><h1>Title</h1><ul><li>a <b>b</b><p>c</p></ul></div>") toy_page None);
    [vm_compute; reflexivity|vm_compute; by eexists].
Defined.
