(* ===== verification/Endpoint.v ===== *)
(** Endpoint strings (src/vlm_client.cpp, [parse_endpoint] and the three
    functions over it): what is refused, where a call goes, what may be shown
    of it, and when two strings name the same URL. *)
From S2P Require Import Prelude Numbers.

Record ParsedEndpoint := mk_ParsedEndpoint {
  pe_origin : bytes;
  pe_target : bytes;
  pe_host : bytes;
  pe_port : Z }.

Definition host_char (c : ascii) : bool :=
  isalnum c || (c =c "."%char) || (c =c "-"%char) || (c =c "_"%char).
Definition ipv6_char (c : ascii) : bool := isxdigit c || (c =c ":"%char) || (c =c "."%char).

Definition kScheme : bytes := lit "http://".
(** White space and control characters. *)
Definition is_control (c : ascii) : bool := (code c <=? 32) || (code c =? 127).
Definition ends_authority (c : ascii) : bool :=
  (c =c "/"%char) || (c =c "?"%char) || (c =c "#"%char).

Definition bad_scheme : bytes :=
  lit "endpoint must be an http:// URL (https is not supported; put a TLS proxy beside " ++
  lit "the VLM)".
Definition bad_control : bytes := lit "endpoint must not contain whitespace or control characters".
Definition bad_credentials : bytes :=
  lit "endpoint must not carry credentials (user:password@); set GRPC_VLM_API_KEY instead".
Definition bad_host : bytes := lit "endpoint host must be a name or a bracketed IPv6 literal".
Definition bad_name : bytes := lit "endpoint needs a host of letters, digits, '.', '-' or '_'".
Definition bad_port : bytes := lit "endpoint port must be a number from 1 to 65535".

(** The authority taken apart: the host and, after a colon, the port text. *)
Definition split_authority (authority : bytes) : bytes + (bytes * option bytes) :=
  if starts_with (lit "[") authority then
    match find_char "]"%char authority 0 with
    | None => inl bad_host
    | Some close =>
        if bool_decide (close = 1%nat) || negb (forallb ipv6_char (substr authority 1 (close - 1)))
        then inl bad_host else
        let host := substr authority 0 (close + 1) in
        let after := substr_from authority (close + 1) in
        match after with
        | [] => inr (host, None)
        | c :: port => if (c =c ":"%char) then inr (host, Some port) else inl bad_host
        end
    end
  else
    let '(host, port) :=
      match find_char ":"%char authority 0 with
      | None => (authority, None)
      | Some colon => (substr authority 0 colon, Some (substr_from authority (colon + 1)))
      end in
    if bool_decide (host = []) || negb (forallb host_char host) then inl bad_name
    else inr (host, port).

(** [std::from_chars] over the whole port text, and the range. *)
Definition parse_port (port : option bytes) : option Z :=
  match port with
  | None => Some 80
  | Some port =>
      match from_chars_unsigned port with
      | Some (value, []) => if (value <? 1) || (65535 <? value) then None else Some value
      | _ => None
      end
  end.

(** The trailing slashes come off. *)
Definition pop_slashes (path : bytes) : bytes := rstrip (Ascii.eqb "/"%char) path.
Definition route (path : bytes) : bytes :=
  if ends_with (lit "/chat/completions") path then path
  else if ends_with (lit "/v1") path then path ++ lit "/chat/completions"
  else path ++ lit "/v1/chat/completions".
(** The request target of what follows the authority. *)
Definition target_of (tail : bytes) : bytes :=
  let tail := match find_char "#"%char tail 0 with Some i => substr tail 0 i | None => tail end in
  let '(path, query) :=
    match find_char "?"%char tail 0 with
    | Some question => (substr tail 0 question, substr_from tail question)
    | None => (tail, [])
    end in
  route (pop_slashes path) ++ query.

(** [inl] is the reason it returns. *)
Definition parse_endpoint (endpoint : bytes) : bytes + ParsedEndpoint :=
  if negb (starts_with kScheme endpoint) then inl bad_scheme else
  if existsb is_control endpoint then inl bad_control else
  let rest := substr_from endpoint (length kScheme) in
  let '(authority, tail) :=
    match find_first ends_authority rest 0 with
    | Some authority_end => (substr rest 0 authority_end, substr_from rest authority_end)
    | None => (rest, [])
    end in
  if contains_char "@"%char authority then inl bad_credentials else
  match split_authority authority with
  | inl problem => inl problem
  | inr (host, port) =>
      match parse_port port with
      | None => inl bad_port
      | Some value =>
          inr (mk_ParsedEndpoint
            (kScheme ++ host ++ match port with Some port => lit ":" ++ port | None => [] end)
            (target_of tail) (map tolower host) value)
      end
  end.

Definition endpoint_error (endpoint : bytes) : bytes :=
  match parse_endpoint endpoint with inl problem => problem | inr _ => [] end.
Definition endpoint_origin (endpoint : bytes) : bytes :=
  match parse_endpoint endpoint with
  | inl _ => lit "<invalid endpoint>"
  | inr parsed => pe_origin parsed
  end.
Definition same_endpoint (left right : bytes) : bool :=
  match parse_endpoint left, parse_endpoint right with
  | inr a, inr b =>
      (pe_host a =b pe_host b) && (pe_port a =? pe_port b) && (pe_target a =b pe_target b)
  | _, _ => false
  end.

Example endpoint_shapes :
  pe_target <$> [parse_endpoint (lit "http://VLM:8080/base/?k=1#f")] ≫= (λ r, match r with inr p => [p] | inl _ => [] end)
  = [lit "/base/v1/chat/completions?k=1"].
Proof. vm_compute. reflexivity. Qed.

(** * Cutting a string at its first delimiter *)

Lemma head_is_app p a t : a ≠ [] → head_is p (a ++ t) = head_is p a.
Proof. by destruct a. Qed.

Lemma cut_exists (p : ascii → bool) s :
  ∃ a t, s = a ++ t ∧ Forall (λ c, p c = false) a ∧ (t = [] ∨ head_is p t = true).
Proof.
  induction s as [|c s (a & t & -> & Ha & Ht)]; [exists [], []; auto|].
  destruct (p c) eqn:E; [exists [], (c :: a ++ t); auto|].
  exists (c :: a), t. auto.
Qed.

Lemma find_first_cut p a t :
  Forall (λ c, p c = false) a → t = [] ∨ head_is p t = true →
  find_first p (a ++ t) 0 = if bool_decide (t = []) then None else Some (length a).
Proof.
  intros Ha Ht. unfold find_first. rewrite (find_if_skip _ _ [] a t) by
    (done || (intros k Hk; destruct (lookup_lt_is_Some_2 a k Hk) as [d Hd];
      rewrite (drop_S _ _ _ Hd); cbn; by eapply (Forall_lookup_1 _ _ _ _ Ha))).
  case_bool_decide; [by subst|]. destruct t as [|c t]; [done|]. destruct Ht as [|Ht]; [done|].
  cbn [find_if_at]. by rewrite Ht.
Qed.

(** The forms the two cuts take in the code. *)
Lemma cut_split p a t :
  Forall (λ c, p c = false) a → t = [] ∨ head_is p t = true →
  match find_first p (a ++ t) 0 with
  | Some i => (substr (a ++ t) 0 i, substr_from (a ++ t) i)
  | None => (a ++ t, [])
  end = (a, t).
Proof.
  intros Ha Ht. rewrite find_first_cut by done. case_bool_decide as E.
  - by rewrite E, app_nil_r.
  - unfold substr, substr_from. by rewrite drop_0, take_app_length, drop_app_length.
Qed.

Lemma existsb_Forall {A} (p : A → bool) l : existsb p l = false ↔ Forall (λ x, p x = false) l.
Proof.
  induction l as [|x l IH]; cbn; [by rewrite Forall_nil|].
  by rewrite Forall_cons, orb_false_iff, IH.
Qed.

Lemma forallb_Forall_true {A} (p : A → bool) l : forallb p l = true ↔ Forall (λ x, p x = true) l.
Proof.
  induction l as [|x l IH]; cbn; [by rewrite Forall_nil|].
  by rewrite Forall_cons, andb_true_iff, IH.
Qed.

Lemma Forall_bytes_impl (p q : ascii → bool) (v w : bool) s :
  forallb (λ n, let c := ascii_of_nat n in implb (eqb (p c) v) (eqb (q c) w)) (seq 0 256) = true →
  Forall (λ c, p c = v) s → Forall (λ c, q c = w) s.
Proof.
  intros Hall Hs. eapply Forall_impl; [exact Hs|]. intros c Hc. rewrite forallb_forall in Hall.
  specialize (Hall (nat_of_ascii c)). cbv zeta in Hall. rewrite ascii_nat_embedding in Hall.
  assert (Hi : implb (eqb (p c) v) (eqb (q c) w) = true).
  { apply Hall, in_seq. pose proof (nat_ascii_bounded c). lia. }
  rewrite Hc, eqb_reflx in Hi. cbn in Hi. by apply eqb_prop.
Qed.

Ltac by_bytes H := refine (Forall_bytes_impl _ _ _ _ _ _ H); vm_compute; reflexivity.

(** * The host *)

(** A host [parse_endpoint] takes: a bracketed IPv6 literal or a name. *)
Definition valid_host (host : bytes) : Prop :=
  (∃ mid, host = lit "[" ++ mid ++ lit "]" ∧ mid ≠ [] ∧ Forall (λ c, ipv6_char c = true) mid) ∨
  (host ≠ [] ∧ Forall (λ c, host_char c = true) host).
(** A byte that can sit inside an authority. *)
Definition authority_char (c : ascii) : bool :=
  negb (is_control c) && negb (ends_authority c) && negb (c =c "@"%char).
Definition port_suffix (port : option bytes) : bytes :=
  match port with Some port => lit ":" ++ port | None => [] end.

Lemma split_authority_sound authority host port :
  split_authority authority = inr (host, port) →
  authority = host ++ port_suffix port ∧ valid_host host.
Proof.
  unfold split_authority. destruct (starts_with (lit "[") authority) eqn:Hb.
  - apply starts_with_app in Hb as [r ->].
    change (lit "[" ++ r) with ("["%char :: r).
    destruct (cut_exists (Ascii.eqb "]"%char) r) as (mid & t & -> & Hmid & Ht).
    change (find_char "]"%char ?s 0) with (find_first (Ascii.eqb "]"%char) s 0).
    rewrite (find_first_cut _ ("["%char :: mid) t) by (try done; by constructor).
    case_bool_decide as Hnil; [done|]. destruct Ht as [|Ht]; [done|].
    destruct t as [|c t]; [done|]. cbn [head_is] in Ht. apply Ascii.eqb_eq in Ht as <-.
    cbn [length]. rewrite Nat.sub_1_r. cbn [Nat.pred].
    rewrite (substr_cut _ (lit "[") mid ("]"%char :: t)) by done.
    case_bool_decide as Hl; [done|]. cbn [orb].
    destruct (forallb ipv6_char mid) eqn:Hip; [|done]. cbn [negb].
    rewrite (substr_cut _ [] (lit "[" ++ mid ++ lit "]") t)
      by (rewrite ?length_app; cbn; rewrite <- ?app_assoc; (done || lia)).
    rewrite (substr_from_cut _ (lit "[" ++ mid ++ lit "]") t)
      by (rewrite ?length_app; cbn; rewrite <- ?app_assoc; (done || lia)).
    assert (Hv : valid_host (lit "[" ++ mid ++ lit "]")).
    { left. exists mid. split_and!; [done| |by apply forallb_Forall_true]. by intros ->. }
    destruct t as [|d t].
    + intros [= <- <-]. split; [|done]. cbn. by rewrite app_nil_r.
    + destruct (d =c ":"%char) eqn:Hd; [|done]. apply Ascii.eqb_eq in Hd as ->.
      intros [= <- <-]. split; [|done]. cbn. by rewrite <- app_assoc.
  - destruct (cut_exists (Ascii.eqb ":"%char) authority) as (name & t & -> & Hname & Ht).
    change (find_char ":"%char ?s 0) with (find_first (Ascii.eqb ":"%char) s 0).
    rewrite find_first_cut by done.
    case_bool_decide as Hnil.
    + subst t. rewrite app_nil_r. case_bool_decide as Hn; [done|]. cbn [orb].
      destruct (forallb host_char name) eqn:Hh; [|done]. intros [= <- <-]. cbn.
      rewrite app_nil_r. split; [done|]. right. split; [done|by apply forallb_Forall_true].
    + destruct Ht as [|Ht]; [done|]. destruct t as [|c t]; [done|].
      cbn [head_is] in Ht. apply Ascii.eqb_eq in Ht as <-.
      rewrite (substr_cut _ [] name (":"%char :: t)) by done.
      rewrite (substr_from_cut _ (name ++ lit ":") t)
        by (rewrite ?length_app, <- ?app_assoc; done).
      case_bool_decide as Hn; [done|]. cbn [orb].
      destruct (forallb host_char name) eqn:Hh; [|done]. intros [= <- <-].
      split; [done|]. right. split; [done|by apply forallb_Forall_true].
Qed.

(** The lowercased host with a port is taken apart into itself. *)
Lemma split_authority_complete host port :
  valid_host host → split_authority (host ++ lit ":" ++ port) = inr (host, Some port).
Proof.
  intros [(mid & -> & Hne & Hmid)|[Hne Hhost]]; unfold split_authority.
  - replace (starts_with (lit "[") ((lit "[" ++ mid ++ lit "]") ++ lit ":" ++ port)) with true
      by done.
    change (find_char "]"%char ?s 0) with (find_first (Ascii.eqb "]"%char) s 0).
    assert (Heq : (lit "[" ++ mid ++ lit "]") ++ lit ":" ++ port =
      ("["%char :: mid) ++ lit "]:" ++ port) by (cbn; by rewrite <- app_assoc).
    rewrite Heq, find_first_cut; [|constructor; [done|]|by right].
    2: { by_bytes Hmid. }
    cbn [length]. rewrite bool_decide_false by done. rewrite Nat.sub_1_r. cbn [Nat.pred].
    rewrite (substr_cut _ (lit "[") mid (lit "]:" ++ port)) by done.
    rewrite bool_decide_false by (destruct mid; done).
    rewrite (proj2 (forallb_Forall_true _ _) Hmid). cbn [orb negb].
    rewrite <- Heq, (substr_cut _ [] (lit "[" ++ mid ++ lit "]") (lit ":" ++ port))
      by (rewrite ?length_app; cbn; (done || lia)).
    rewrite (substr_from_cut _ (lit "[" ++ mid ++ lit "]") (lit ":" ++ port))
      by (rewrite ?length_app; cbn; (done || lia)).
    done.
  - replace (starts_with (lit "[") (host ++ lit ":" ++ port)) with false.
    2: { destruct host as [|c host]; [done|]. apply Forall_cons in Hhost as [Hc _].
         change (false = ("["%char =c c) && true).
         by destruct (Ascii.eqb_spec "["%char c) as [<-|]. }
    change (find_char ":"%char ?s 0) with (find_first (Ascii.eqb ":"%char) s 0).
    rewrite find_first_cut; [|by_bytes Hhost|by right].
    rewrite bool_decide_false by done.
    rewrite (substr_cut _ [] host (lit ":" ++ port)) by done.
    rewrite (substr_from_cut _ (host ++ lit ":") port) by (rewrite ?length_app, <- ?app_assoc; done).
    rewrite bool_decide_false by done.
    by rewrite (proj2 (forallb_Forall_true _ _) Hhost).
Qed.

Lemma valid_host_lower host : valid_host host → valid_host (map tolower host).
Proof.
  assert (Hl : ∀ p s, forallb (λ n, let c := ascii_of_nat n in
      implb (eqb (p c) true) (eqb (p (tolower c)) true)) (seq 0 256) = true →
    Forall (λ c, p c = true) s → Forall (λ c, p c = true) (map tolower s)).
  { intros p s Hall Hs. apply Forall_fmap.
    by apply (Forall_bytes_impl p (p ∘ tolower) true true). }
  intros [(mid & -> & Hne & Hmid)|[Hne Hhost]].
  - left. exists (map tolower mid). rewrite !map_app. split_and!; [done|by destruct mid|by apply Hl].
  - right. split; [by destruct host|by apply Hl].
Qed.

Lemma valid_host_chars host : valid_host host → Forall (λ c, authority_char c = true) host.
Proof.
  intros [(mid & -> & _ & Hmid)|[_ Hhost]].
  - constructor; [done|]. apply Forall_app_2; [|by repeat constructor].
    by_bytes Hmid.
  - by_bytes Hhost.
Qed.

(** * What a parsed endpoint is *)

Lemma parse_port_range port value : parse_port port = Some value → 1 <= value <= 65535.
Proof.
  destruct port as [port|]; [|by intros [= <-]]. cbn.
  destruct (from_chars_unsigned port) as [[v [|? ?]]|]; [|done..].
  destruct (Z.ltb_spec v 1); [done|]. destruct (Z.ltb_spec 65535 v); [done|].
  cbn. intros [= <-]. lia.
Qed.

Record well_formed (endpoint host : bytes) (port : option bytes) (tail : bytes) : Prop := {
  wf_text : endpoint = kScheme ++ (host ++ port_suffix port) ++ tail;
  wf_host : valid_host host;
  wf_authority : Forall (λ c, authority_char c = true) (host ++ port_suffix port);
  wf_tail : tail = [] ∨ head_is ends_authority tail = true;
  wf_control : Forall (λ c, is_control c = false) endpoint }.

Lemma parse_endpoint_sound endpoint p :
  parse_endpoint endpoint = inr p →
  ∃ host port tail,
    well_formed endpoint host port tail ∧
    pe_origin p = kScheme ++ host ++ port_suffix port ∧
    pe_target p = target_of tail ∧ pe_host p = map tolower host ∧
    parse_port port = Some (pe_port p).
Proof.
  unfold parse_endpoint. destruct (starts_with kScheme endpoint) eqn:Hs; [|done].
  apply starts_with_app in Hs as [rest ->]. cbn [negb].
  destruct (existsb is_control _) eqn:Hctl; [done|]. apply existsb_Forall in Hctl.
  rewrite (substr_from_cut _ kScheme rest) by done.
  destruct (cut_exists ends_authority rest) as (authority & tail & -> & Ha & Ht).
  rewrite cut_split by done.
  destruct (contains_char _ authority) eqn:Hat; [done|]. apply existsb_Forall in Hat.
  destruct (split_authority authority) as [|[host port]] eqn:Hsp; [done|].
  destruct (parse_port port) as [value|] eqn:Hport; [|done]. intros [= <-].
  apply split_authority_sound in Hsp as [-> Hv]. exists host, port, tail.
  split_and!; try done. split; try done.
  apply Forall_app in Hctl as [_ Hctl]. apply Forall_app in Hctl as [Hctl _].
  rewrite Forall_forall in Hctl, Ha, Hat |- *. intros c Hc. unfold authority_char.
  rewrite (Hctl c Hc), (Ha c Hc). specialize (Hat c Hc). cbn beta in Hat.
  destruct (Ascii.eqb_spec c "@"%char) as [->|]; [by vm_compute in Hat|done].
Qed.

(** Of an endpoint that parses, [endpoint_origin] shows the scheme, host
    and port and nothing else: what it drops is the part from the first '/',
    '?' or '#' on, and what it shows holds no user information, path, query,
    fragment or control character; the port lies in 1..65535. *)
Theorem endpoint_origin_discloses endpoint p :
  parse_endpoint endpoint = inr p →
  ∃ authority tail,
    endpoint = kScheme ++ authority ++ tail ∧
    endpoint_origin endpoint = kScheme ++ authority ∧
    authority ≠ [] ∧ Forall (λ c, authority_char c = true) authority ∧
    (tail = [] ∨ head_is ends_authority tail = true) ∧ 1 <= pe_port p <= 65535.
Proof.
  intros Hp. unfold endpoint_origin. rewrite Hp.
  apply parse_endpoint_sound in Hp as (host & port & tail & [He Hv Ha Ht _] & Ho & _ & _ & Hport).
  pose proof (parse_port_range _ _ Hport).
  exists (host ++ port_suffix port), tail. split_and!; try done; try lia.
  intros Hnil. apply app_nil in Hnil as [-> _]. destruct Hv as [(mid & ? & _)|[]]; done.
Qed.

(** What is shown of an endpoint depends on its authority alone. *)
Lemma parse_endpoint_cut authority tail :
  Forall (λ c, ends_authority c = false) authority → tail = [] ∨ head_is ends_authority tail = true →
  Forall (λ c, is_control c = false) tail →
  endpoint_origin (kScheme ++ authority ++ tail) = endpoint_origin (kScheme ++ authority).
Proof.
  intros Ha Ht Hc. unfold endpoint_origin, parse_endpoint.
  assert (Hs : ∀ r, starts_with kScheme (kScheme ++ r) = true)
    by (intros r; apply starts_with_app; by eexists).
  rewrite !Hs. cbn [negb].
  rewrite (substr_from_cut _ kScheme (authority ++ tail)), (substr_from_cut _ kScheme authority) by done.
  pose proof (cut_split ends_authority authority [] Ha (or_introl eq_refl)) as Hcut.
  rewrite app_nil_r in Hcut. rewrite cut_split, Hcut by done.
  assert (Hctl : existsb is_control (kScheme ++ authority ++ tail) = existsb is_control (kScheme ++ authority)).
  { rewrite !existsb_app, (proj2 (existsb_Forall is_control tail) Hc), orb_false_r. done. }
  rewrite Hctl. destruct (existsb _ (kScheme ++ authority)); [done|].
  destruct (contains_char _ _); [done|]. destruct (split_authority _) as [|[host port]]; [done|].
  by destruct (parse_port port).
Qed.

(** One that carries user information is not shown at all. *)
Lemma endpoint_origin_credentials user authority tail :
  Forall (λ c, ends_authority c = false) (user ++ authority) →
  tail = [] ∨ head_is ends_authority tail = true →
  endpoint_origin (kScheme ++ (user ++ lit "@" ++ authority) ++ tail) = lit "<invalid endpoint>".
Proof.
  intros Ha Ht. unfold endpoint_origin, parse_endpoint.
  assert (Hs : ∀ r, starts_with kScheme (kScheme ++ r) = true)
    by (intros r; apply starts_with_app; by eexists).
  rewrite Hs. cbn [negb]. destruct (existsb is_control _); [done|].
  rewrite (substr_from_cut _ kScheme ((user ++ lit "@" ++ authority) ++ tail)) by done.
  apply Forall_app in Ha as [Hu Ha].
  rewrite cut_split; [|apply Forall_app; split; [done|by constructor]|done].
  assert (Hat : contains_char "@"%char (user ++ lit "@" ++ authority) = true)
    by (unfold contains_char; rewrite existsb_app; cbn; by rewrite orb_true_r).
  by rewrite Hat.
Qed.

(** ** The request target *)

Lemma pop_slashes_end s c : (c =c "/"%char) = false → pop_slashes (s ++ [c]) = s ++ [c].
Proof.
  intros Hc. rewrite Ascii.eqb_sym in Hc.
  assert (Hl : rstrip (Ascii.eqb "/"%char) [c] = [c]).
  { unfold rstrip. cbn [rev app lstrip]. by rewrite Hc. }
  unfold pop_slashes. rewrite rstrip_app, Hl. done.
Qed.

Lemma ends_with_app p s : ends_with p (s ++ p) = true.
Proof.
  unfold ends_with. rewrite length_app, bool_decide_true by lia.
  replace (length s + length p - length p)%nat with (length s) by lia.
  rewrite drop_app_length. cbn. apply starts_with_app. exists []. by rewrite app_nil_r.
Qed.

Lemma ends_with_Some p s : ends_with p s = true → ∃ r, s = r ++ p.
Proof.
  unfold ends_with. intros [Hl%bool_decide_eq_true [r Hr]%starts_with_app]%andb_prop.
  exists (take (length s - length p) s).
  assert (r = []) as ->.
  { apply (f_equal length) in Hr. rewrite length_drop, length_app in Hr.
    destruct r; [done|cbn in Hr; lia]. }
  rewrite app_nil_r in Hr. etrans; [symmetry; apply (take_drop (length s - length p))|by rewrite Hr].
Qed.

Lemma route_ends path : ∃ r, route path = r ++ lit "/chat/completions".
Proof.
  unfold route. destruct (ends_with (lit "/chat/completions") path) eqn:E.
  { by apply ends_with_Some. }
  destruct (ends_with (lit "/v1") path); [by exists path|].
  exists (path ++ lit "/v1"). by rewrite <- app_assoc.
Qed.

Lemma route_again path : route (pop_slashes (route path)) = route path.
Proof.
  destruct (route_ends path) as [r ->].
  change (lit "/chat/completions") with (lit "/chat/completion" ++ ["s"%char]).
  rewrite app_assoc, pop_slashes_end by done. rewrite <- app_assoc.
  unfold route. by rewrite ends_with_app.
Qed.

Lemma lstrip_Forall (P : ascii → Prop) p s : Forall P s → Forall P (lstrip p s).
Proof. destruct (lstrip_suffix p s) as (l & E & _). rewrite E at 1. by intros [_ ?]%Forall_app. Qed.

Lemma pop_slashes_Forall (P : ascii → Prop) s : Forall P s → Forall P (pop_slashes s).
Proof. intros Hs. unfold pop_slashes, rstrip. by apply Forall_rev, lstrip_Forall, Forall_rev. Qed.

Lemma route_Forall (p : ascii → bool) path :
  forallb (λ c, negb (p c)) (lit "/v1/chat/completions") = true →
  Forall (λ c, p c = false) path → Forall (λ c, p c = false) (route path).
Proof.
  intros Hl Hp. assert (Hlit : Forall (λ c, p c = false) (lit "/v1/chat/completions")).
  { apply forallb_Forall_true in Hl. eapply Forall_impl; [exact Hl|]. intros c Hc. cbv beta in Hc. by destruct (p c). }
  unfold route. destruct (ends_with _ path); [done|].
  destruct (ends_with _ path); apply Forall_app_2; try done.
  by apply (Forall_app _ (lit "/v1")) in Hlit as [_ ?].
Qed.

(** A target as a path routed to the chat completions, then a query. *)
Lemma target_shape tail :
  ∃ path query, target_of tail = route path ++ query ∧
    Forall (λ c, ("?"%char =c c) = false) path ∧ Forall (λ c, ("#"%char =c c) = false) path ∧
    Forall (λ c, ("#"%char =c c) = false) query ∧
    (query = [] ∨ head_is (Ascii.eqb "?"%char) query = true) ∧
    (tail = [] ∨ head_is ends_authority tail = true → path = [] ∨ head_is (Ascii.eqb "/"%char) path = true) ∧
    (∀ P : ascii → Prop, Forall P tail → Forall P path ∧ Forall P query).
Proof.
  unfold target_of.
  destruct (cut_exists (Ascii.eqb "#"%char) tail) as (shown & fragment & -> & Hs & Hf).
  change (find_char "#"%char ?s 0) with (find_first (Ascii.eqb "#"%char) s 0).
  assert (Hcut : match find_first (Ascii.eqb "#"%char) (shown ++ fragment) 0 with
    | Some i => substr (shown ++ fragment) 0 i | None => shown ++ fragment end = shown).
  { pose proof (cut_split _ shown fragment Hs Hf) as H.
    destruct (find_first _ _ _); by injection H. }
  rewrite Hcut. clear Hcut.
  destruct (cut_exists (Ascii.eqb "?"%char) shown) as (path & query & -> & Hp & Hq).
  change (find_char "?"%char ?s 0) with (find_first (Ascii.eqb "?"%char) s 0).
  rewrite cut_split by done. apply Forall_app in Hs as [Hs1 Hs2].
  exists (pop_slashes path), query. split_and!; try done; try by apply pop_slashes_Forall.
  - intros Htail. destruct (pop_slashes path) as [|c s] eqn:E; [by left|right].
    assert (Hne : path ≠ []) by (by intros ->).
    destruct path as [|d path]; [done|].
    assert (Hpre : ∃ t, d :: path = pop_slashes (d :: path) ++ t).
    { unfold pop_slashes, rstrip. destruct (lstrip_suffix (Ascii.eqb "/"%char) (rev (d :: path)))
        as (l & El & _). exists (rev l).
      rewrite <- rev_app_distr, <- El. by rewrite rev_involutive. }
    destruct Hpre as [t Ht]. rewrite E in Ht. injection Ht as <- _. cbn [head_is].
    destruct Htail as [Htail|Htail]; [done|]. cbn [app head_is] in Htail.
    apply Forall_cons in Hp as [Hp _]. apply Forall_cons in Hs1 as [Hs1 _].
    unfold ends_authority in Htail. rewrite (Ascii.eqb_sym d "?"), (Ascii.eqb_sym d "#"), Hp, Hs1 in Htail.
    by rewrite !orb_false_r, Ascii.eqb_sym in Htail.
  - intros P HP. rewrite <- app_assoc in HP. apply Forall_app in HP as [? HP].
    apply Forall_app in HP as [? _]. split; [by apply pop_slashes_Forall|done].
Qed.

Lemma target_head tail :
  tail = [] ∨ head_is ends_authority tail = true →
  head_is (Ascii.eqb "/"%char) (target_of tail) = true.
Proof.
  intros Htail. destruct (target_shape tail) as (path & query & -> & _ & _ & _ & _ & Hp & _).
  destruct (Hp Htail) as [->|Hp']; [done|]. destruct path as [|c path]; [done|].
  unfold route. destruct (ends_with _ _); [done|]. by destruct (ends_with _ _).
Qed.

(** Resolving a resolved target changes nothing. *)
Lemma target_again tail : target_of (target_of tail) = target_of tail.
Proof.
  destruct (target_shape tail) as (path & query & -> & Hq & Hh & Hqh & Hqq & _ & _).
  unfold target_of.
  change (find_char "#"%char ?s 0) with (find_first (Ascii.eqb "#"%char) s 0).
  assert (Hno : Forall (λ c, ("#"%char =c c) = false) (route path ++ query)).
  { apply Forall_app_2; [by apply route_Forall|done]. }
  rewrite <- (app_nil_r (route path ++ query)), find_first_cut by auto.
  rewrite bool_decide_true, app_nil_r by done.
  change (find_char "?"%char ?s 0) with (find_first (Ascii.eqb "?"%char) s 0).
  rewrite cut_split; [by rewrite route_again|by apply route_Forall|done].
Qed.

(** ** Two endpoints, one URL *)

(** The URL a call to the endpoint posts to. *)
Definition canonical (p : ParsedEndpoint) : bytes :=
  kScheme ++ pe_host p ++ lit ":" ++ to_string (pe_port p) ++ pe_target p.

Lemma digits_not s (q : ascii → bool) :
  forallb (λ n, let c := ascii_of_nat n in implb (eqb (isdigit c) true) (eqb (q c) false))
    (seq 0 256) = true →
  Forall (λ c, isdigit c = true) s → Forall (λ c, q c = false) s.
Proof. apply Forall_bytes_impl. Qed.

Lemma tolower_idemp c : tolower (tolower c) = tolower c.
Proof.
  assert (Hall : Forall (λ c, true = true) [c]) by by repeat constructor.
  apply (Forall_bytes_impl (λ _, true) (λ c, tolower (tolower c) =c tolower c) true true) in Hall;
    [|vm_compute; reflexivity].
  apply Forall_cons in Hall as [Hc _]. by apply Ascii.eqb_eq.
Qed.

Lemma parse_canonical endpoint p :
  parse_endpoint endpoint = inr p →
  ∃ q, parse_endpoint (canonical p) = inr q ∧
    pe_host q = pe_host p ∧ pe_port q = pe_port p ∧ pe_target q = pe_target p.
Proof.
  intros (host & port & tail & [He Hv Ha Ht Hctl] & _ & Htg & Hh & Hport)%parse_endpoint_sound.
  pose proof (parse_port_range _ _ Hport) as Hrange.
  destruct (to_string_digits (pe_port p) ltac:(lia)) as (Hdig & _ & _).
  pose proof (valid_host_lower host Hv) as Hlow. pose proof (valid_host_chars _ Hlow) as Hlc.
  pose proof (target_head tail Ht) as Hhead.
  assert (Htc : Forall (λ c, is_control c = false) (target_of tail)).
  { destruct (target_shape tail) as (path & query & -> & _ & _ & _ & _ & _ & HP).
    destruct (HP (λ c, is_control c = false)) as [? ?].
    { rewrite He in Hctl. apply Forall_app in Hctl as [_ Hctl].
      by apply Forall_app in Hctl as [_ Hctl]. }
    apply Forall_app_2; [by apply route_Forall|done]. }
  unfold canonical. rewrite Hh, Htg. set (authority := map tolower host ++ lit ":" ++ to_string (pe_port p)).
  assert (Hauth : Forall (λ c, authority_char c = true) authority).
  { apply Forall_app_2; [done|]. constructor; [done|]. by_bytes Hdig. }
  replace (kScheme ++ map tolower host ++ lit ":" ++ to_string (pe_port p) ++ target_of tail)
    with (kScheme ++ authority ++ target_of tail) by (unfold authority; by rewrite <- !app_assoc).
  unfold parse_endpoint.
  replace (starts_with kScheme _) with true by (symmetry; apply starts_with_app; eauto).
  cbn [negb].
  replace (existsb is_control _) with false.
  2: { symmetry. apply existsb_Forall. apply Forall_app_2; [by repeat constructor|].
       apply Forall_app_2; [by_bytes Hauth|done]. }
  rewrite (substr_from_cut _ kScheme (authority ++ target_of tail)) by done.
  rewrite cut_split; [|by_bytes Hauth|].
  2: { right. destruct (target_of tail) as [|c t]; [done|]. cbn [head_is] in Hhead |- *.
       by apply Ascii.eqb_eq in Hhead as <-. }
  replace (contains_char _ authority) with false.
  2: { symmetry. apply existsb_Forall. by_bytes Hauth. }
  unfold authority at 1. rewrite split_authority_complete by done. cbn [parse_port].
  pose proof (from_chars_to_string (pe_port p) [] ltac:(lia) eq_refl) as Hfc.
  rewrite app_nil_r in Hfc. rewrite Hfc.
  destruct (Z.ltb_spec (pe_port p) 1); [lia|]. destruct (Z.ltb_spec 65535 (pe_port p)); [lia|].
  cbn [orb]. eexists. split; [done|]. cbn. split_and!; [|done|apply target_again].
  rewrite map_map. apply map_ext, tolower_idemp.
Qed.

Lemma same_endpoint_true left right :
  same_endpoint left right = true ↔
  ∃ a b, parse_endpoint left = inr a ∧ parse_endpoint right = inr b ∧
    pe_host a = pe_host b ∧ pe_port a = pe_port b ∧ pe_target a = pe_target b.
Proof.
  unfold same_endpoint. split.
  - destruct (parse_endpoint left) as [|a]; [done|]. destruct (parse_endpoint right) as [|b]; [done|].
    intros [[Hh%bool_decide_eq_true Hp%Z.eqb_eq]%andb_prop Ht%bool_decide_eq_true]%andb_prop.
    exists a, b. done.
  - intros (a & b & -> & -> & Hh & Hp & Ht). rewrite Hh, Hp, Ht, Z.eqb_refl.
    by rewrite !bool_decide_true.
Qed.

(** Two endpoints are the same exactly when calls to them post to one URL
    (host in lower case, explicit port, resolved target); the URL a call posts
    to is itself an endpoint, the same one: a host case, a default port, a
    trailing slash, a fragment or a route left to be completed make no
    difference, and a completed route is not completed twice. *)
Theorem same_endpoint_iff left right :
  (same_endpoint left right = true ↔
   ∃ a b, parse_endpoint left = inr a ∧ parse_endpoint right = inr b ∧ canonical a = canonical b) ∧
  (∀ a, parse_endpoint left = inr a → same_endpoint left (canonical a) = true).
Proof.
  assert (Hself : ∀ e a, parse_endpoint e = inr a → same_endpoint e (canonical a) = true).
  { intros e a Ha. destruct (parse_canonical e a Ha) as (q & Hq & Hh & Hp & Ht).
    apply same_endpoint_true. exists a, q. done. }
  split; [|by apply Hself]. rewrite same_endpoint_true. split.
  - intros (a & b & Ha & Hb & Hh & Hp & Ht). exists a, b. split_and!; [done..|].
    unfold canonical. by rewrite Hh, Hp, Ht.
  - intros (a & b & Ha & Hb & Heq). exists a, b.
    destruct (parse_canonical left a Ha) as (q & Hq & <- & <- & <-).
    destruct (parse_canonical right b Hb) as (q' & Hq' & <- & <- & <-).
    rewrite Heq, Hq' in Hq. injection Hq as ->. done.
Qed.

(** A refusal says why. *)
Lemma split_authority_reason authority : split_authority authority ≠ inl [].
Proof.
  unfold split_authority. repeat (case_match || destruct (find_char _ _ _)); try done; by intros [=].
Qed.

Lemma endpoint_error_nil endpoint :
  endpoint_error endpoint = [] → ∃ p, parse_endpoint endpoint = inr p.
Proof.
  unfold endpoint_error. destruct (parse_endpoint endpoint) as [problem|p] eqn:E; [|by exists p].
  intros ->. exfalso. revert E. unfold parse_endpoint.
  destruct (negb _); [done|]. destruct (existsb _ _); [done|].
  destruct (match find_first _ _ _ with Some _ => _ | None => _ end) as [authority tail].
  destruct (contains_char _ _); [done|].
  pose proof (split_authority_reason authority). destruct (split_authority authority) as [|[host port]];
    [congruence|]. by destruct (parse_port port).
Qed.

(** * Concrete instances *)

Definition toy_endpoint : bytes := lit "http://VLM:8080/base/v1/?tenant=a#top".

Lemma endpoint_origin_discloses_witness :
  endpoint_origin toy_endpoint = lit "http://VLM:8080" ∧
  ∃ authority tail, toy_endpoint = kScheme ++ authority ++ tail ∧
    endpoint_origin toy_endpoint = kScheme ++ authority.
Proof.
  split; [vm_compute; reflexivity|].
  destruct (endpoint_origin_discloses toy_endpoint
    (mk_ParsedEndpoint (lit "http://VLM:8080") (lit "/base/v1/chat/completions?tenant=a")
       (lit "vlm") 8080)) as (authority & tail & He & Ho & _); [vm_compute; reflexivity|].
  exists authority, tail. done.
Defined.

Lemma same_endpoint_iff_witness :
  same_endpoint toy_endpoint (lit "http://vlm:8080/base/v1/chat/completions?tenant=a") = true.
Proof.
  apply (proj2 (same_endpoint_iff toy_endpoint [])
    (mk_ParsedEndpoint (lit "http://VLM:8080") (lit "/base/v1/chat/completions?tenant=a")
       (lit "vlm") 8080)). vm_compute. reflexivity.
Defined.
