(* ===== verification/Config.v ===== *)
(** Process configuration (src/config.h, src/config.cpp): reading and checking
    the GRPC_VLM_* environment, and the line printed once the server listens.
    The environment is a function from names to values. *)
From S2P Require Import Prelude Numbers Secret Endpoint.

Record Config := mk_Config {
  cf_listen_address : bytes;
  cf_endpoint : bytes;
  cf_vlm_api_key : Secret;
  cf_allow_endpoint_override : bool;
  cf_request_logprobs : bool;
  cf_presets : list bytes;
  cf_concurrency : Z;
  cf_max_inflight : Z;
  cf_max_page_bytes : Z;
  cf_max_pages : Z;
  cf_max_page_crop_bytes : Z;
  cf_max_stream_buffered_bytes : Z;
  cf_max_buffered_bytes : Z;
  cf_vlm_timeout_seconds : Z;
  cf_metrics_interval_seconds : Z;
  cf_http_port : Z;
  cf_http_host : bytes;
  cf_http_max_body_bytes : Z;
  cf_http_token : Secret }.

(** The member initializers. *)
Definition Config_default : Config :=
  mk_Config (lit "0.0.0.0:50058") [] Secret_empty false true [] 2 8 (32 * 1024 * 1024) 512
    (3 * 1024 * 1024) (4 * (32 * 1024 * 1024)) (16 * (32 * 1024 * 1024)) 300 60 50059
    (lit "127.0.0.1") (64 * 1024 * 1024) Secret_empty.

(** What may throw; [inl] is the [std::invalid_argument]'s text. *)
Definition Checked (A : Type) : Type := bytes + A.
Definition bind {A B} (m : Checked A) (f : A → Checked B) : Checked B :=
  match m with inl problem => inl problem | inr a => f a end.
Notation "'let!' x ':=' m 'in' k" := (bind m (λ x, k))
  (at level 10, x name, m at level 100, k at level 200).

Lemma bind_inr {A B} (m : Checked A) (f : A → Checked B) b :
  bind m f = inr b → ∃ a, m = inr a ∧ f a = inr b.
Proof. destruct m as [|a]; [done|]. by exists a. Qed.

(** [std::getenv]; an empty value is as good as none to most readers. *)
Definition Environment : Type := bytes → option bytes.
Definition set_value (env : Environment) (name : bytes) : option bytes :=
  match env name with Some [] => None | raw => raw end.

Section Reading.
Variable env : Environment.

Definition configured_size (name : bytes) (fallback minimum maximum : Z) : Checked Z :=
  match set_value env name with
  | None => inr fallback
  | Some raw =>
      match strtoull raw with
      | (value, Some []) =>
          if (value <? minimum) || (maximum <? value)
          then inl (name ++ lit " must be an integer between " ++ to_string minimum ++
                    lit " and " ++ to_string maximum)
          else inr value
      | _ => inl (name ++ lit " must be an integer between " ++ to_string minimum ++
                  lit " and " ++ to_string maximum)
      end
  end.

Definition configured_string (name fallback : bytes) : bytes :=
  match set_value env name with None => fallback | Some raw => raw end.

Definition configured_bool (name : bytes) (fallback : bool) : Checked bool :=
  match set_value env name with
  | None => inr fallback
  | Some value =>
      if (value =b lit "true") || (value =b lit "1") then inr true
      else if (value =b lit "false") || (value =b lit "0") then inr false
      else inl (name ++ lit " must be true, false, 1 or 0")
  end.

Definition configured_secret (name : bytes) : Secret :=
  match env name with None => Secret_empty | Some raw => mk_Secret raw end.

(** The loop over the host's bytes: [None] at one that is neither a dot nor a
    digit, else the number of dots. *)
Fixpoint count_dots (host : bytes) (dots : Z) : option Z :=
  match host with
  | [] => Some dots
  | c :: host' =>
      if (c =c "."%char) then count_dots host' (dots + 1)
      else if isdigit c then count_dots host' dots else None
  end.
Definition is_loopback_host (host : bytes) : bool :=
  if (host =b lit "localhost") || (host =b lit "::1") || (host =b lit "[::1]") then true
  else if negb (starts_with (lit "127.") host) || (15 <? Z.of_nat (length host)) then false
  else
    match count_dots host 0 with
    | None => false
    | Some dots =>
        (dots =? 3) && negb (ends_with (lit ".") host) &&
        negb (bool_decide (is_Some (find (lit "..") host 0)))
    end.

(** [erase] up to the first byte that is no blank, then past the last one. *)
Definition is_list_blank (c : ascii) : bool := (c =c " "%char) || (c =c c_tab).
Definition strip_item (item : bytes) : bytes := rstrip is_list_blank (lstrip is_list_blank item).
Definition list_step (buffer : bytes) (st : nat * list bytes) : nat * list bytes + list bytes :=
  let '(start, values) := st in
  if negb (bool_decide (start ≤ length buffer)%nat) then inr values else
  let comma := match find_char ","%char buffer start with Some i => i | None => length buffer end in
  let item := strip_item (substr buffer start (comma - start)) in
  inl ((comma + 1)%nat, if bool_decide (item = []) then values else values ++ [item]).
Definition configured_list (name : bytes) : list bytes :=
  match env name with
  | None => []
  | Some buffer => run_loop [] (2 + length buffer)%nat (list_step buffer) (0%nat, [])
  end.

Definition kMaxBufferedBytes : Z := 2 ^ 40.

(** The port: 0 or empty turns the front end off. *)
Definition configured_http_port : Checked Z :=
  match env (lit "GRPC_VLM_HTTP_PORT") with
  | Some raw =>
      if bool_decide (raw = []) || (raw =b lit "0") then inr 0
      else configured_size (lit "GRPC_VLM_HTTP_PORT") (cf_http_port Config_default) 1 65535
  | None => configured_size (lit "GRPC_VLM_HTTP_PORT") (cf_http_port Config_default) 1 65535
  end.

Definition load_config_from_env : Checked Config :=
  let config := Config_default in
  let listen_address :=
    configured_string (lit "GRPC_VLM_LISTEN_ADDRESS") (cf_listen_address config) in
  let endpoint := configured_string (lit "GRPC_VLM_ENDPOINT") (cf_endpoint config) in
  let! checked :=
    (if bool_decide (endpoint = []) then inr tt else
     let problem := endpoint_error endpoint in
     if bool_decide (problem = []) then inr tt else inl (lit "GRPC_VLM_ENDPOINT: " ++ problem)) in
  let vlm_api_key := configured_secret (lit "GRPC_VLM_API_KEY") in
  let! allow_endpoint_override :=
    configured_bool (lit "GRPC_VLM_ALLOW_ENDPOINT_OVERRIDE") (cf_allow_endpoint_override config) in
  let! request_logprobs :=
    configured_bool (lit "GRPC_VLM_LOGPROBS") (cf_request_logprobs config) in
  let presets := configured_list (lit "GRPC_VLM_PRESETS") in
  let! concurrency := configured_size (lit "GRPC_VLM_CONCURRENCY") (cf_concurrency config) 1 64 in
  let! max_inflight :=
    configured_size (lit "GRPC_VLM_MAX_INFLIGHT") (cf_max_inflight config) 1 4096 in
  let! max_page_bytes := configured_size (lit "GRPC_VLM_MAX_PAGE_BYTES")
    (cf_max_page_bytes config) 1024 (1024 * 1024 * 1024) in
  let! max_pages := configured_size (lit "GRPC_VLM_MAX_PAGES") (cf_max_pages config) 1 100000 in
  let! max_page_crop_bytes := configured_size (lit "GRPC_VLM_MAX_PAGE_CROP_BYTES")
    (cf_max_page_crop_bytes config) 1024 (1024 * 1024 * 1024) in
  let! max_stream_buffered_bytes := configured_size (lit "GRPC_VLM_MAX_STREAM_BUFFERED_BYTES")
    (4 * max_page_bytes) max_page_bytes kMaxBufferedBytes in
  let! max_buffered_bytes := configured_size (lit "GRPC_VLM_MAX_BUFFERED_BYTES")
    (16 * max_page_bytes) max_page_bytes kMaxBufferedBytes in
  let! vlm_timeout_seconds := configured_size (lit "GRPC_VLM_VLM_TIMEOUT_SECONDS")
    (cf_vlm_timeout_seconds config) 1 86400 in
  let! metrics_interval_seconds := configured_size (lit "GRPC_VLM_METRICS_INTERVAL_SECONDS")
    (cf_metrics_interval_seconds config) 0 86400 in
  let! http_port := configured_http_port in
  let http_host := configured_string (lit "GRPC_VLM_HTTP_HOST") (cf_http_host config) in
  let! http_max_body_bytes := configured_size (lit "GRPC_VLM_HTTP_MAX_BODY_BYTES")
    (cf_http_max_body_bytes config) 1024 (16 * 2 ^ 30) in
  let http_token := configured_secret (lit "GRPC_VLM_HTTP_TOKEN") in
  if negb (http_port =? 0) && negb (is_loopback_host http_host) && secret_is_empty http_token then
    inl (lit "GRPC_VLM_HTTP_HOST binds the HTTP front end beyond loopback; set " ++
         lit "GRPC_VLM_HTTP_TOKEN so callers must authenticate (or GRPC_VLM_HTTP_PORT=0 to " ++
         lit "turn the front end off)")
  else
    inr (mk_Config listen_address endpoint vlm_api_key allow_endpoint_override request_logprobs
           presets concurrency max_inflight max_page_bytes max_pages max_page_crop_bytes
           max_stream_buffered_bytes max_buffered_bytes vlm_timeout_seconds
           metrics_interval_seconds http_port http_host http_max_body_bytes http_token).
End Reading.



(** * What a loaded configuration satisfies *)

Lemma configured_size_range env name fallback minimum maximum value :
  minimum <= fallback <= maximum →
  configured_size env name fallback minimum maximum = inr value → minimum <= value <= maximum.
Proof.
  intros Hf. unfold configured_size. destruct (set_value env name) as [raw|]; [|by intros [= <-]].
  destruct (strtoull raw) as [v [[|? ?]|]]; [|done..].
  destruct (Z.ltb_spec v minimum); [done|]. destruct (Z.ltb_spec maximum v); [done|].
  intros [= <-]. done.
Qed.

Lemma configured_http_port_range env value :
  configured_http_port env = inr value → value = 0 ∨ 1 <= value <= 65535.
Proof.
  unfold configured_http_port. intros H.
  assert (Hs : ∀ v, configured_size env (lit "GRPC_VLM_HTTP_PORT") (cf_http_port Config_default)
    1 65535 = inr v → 1 <= v <= 65535).
  { intros v. apply configured_size_range. cbn. lia. }
  destruct (env _) as [raw|]; [|auto]. destruct (_ || _); [|auto]. injection H as <-. by left.
Qed.

(** Everything the service relies on its configuration for. *)
Record sound_config (config : Config) : Prop := {
  sc_endpoint : cf_endpoint config = [] ∨ ∃ p, parse_endpoint (cf_endpoint config) = inr p;
  sc_concurrency : 1 <= cf_concurrency config <= 64;
  sc_max_inflight : 1 <= cf_max_inflight config <= 4096;
  sc_max_page_bytes : 1024 <= cf_max_page_bytes config <= 2 ^ 30;
  sc_max_pages : 1 <= cf_max_pages config <= 100000;
  sc_max_page_crop_bytes : 1024 <= cf_max_page_crop_bytes config <= 2 ^ 30;
  sc_stream_buffer : cf_max_page_bytes config <= cf_max_stream_buffered_bytes config <= 2 ^ 40;
  sc_buffer : cf_max_page_bytes config <= cf_max_buffered_bytes config <= 2 ^ 40;
  sc_timeout : 1 <= cf_vlm_timeout_seconds config <= 86400;
  sc_metrics : 0 <= cf_metrics_interval_seconds config <= 86400;
  sc_http_port : cf_http_port config = 0 ∨ 1 <= cf_http_port config <= 65535;
  sc_http_body : 1024 <= cf_http_max_body_bytes config <= 2 ^ 34;
  sc_http_auth : cf_http_port config = 0 ∨ is_loopback_host (cf_http_host config) = true ∨
                 secret_value (cf_http_token config) ≠ [] }.

Lemma load_config_checked env config : load_config_from_env env = inr config → sound_config config.
Proof.
  unfold load_config_from_env. cbv zeta. intros H.
  apply bind_inr in H as ([] & He & H).
  apply bind_inr in H as (allow & _ & H). apply bind_inr in H as (logprobs & _ & H).
  apply bind_inr in H as (conc & Hconc & H). apply bind_inr in H as (infl & Hinfl & H).
  apply bind_inr in H as (page & Hpage & H). apply bind_inr in H as (pages & Hpages & H).
  apply bind_inr in H as (crop & Hcrop & H). apply bind_inr in H as (sbuf & Hsbuf & H).
  apply bind_inr in H as (buf & Hbuf & H). apply bind_inr in H as (timeout & Htimeout & H).
  apply bind_inr in H as (metrics & Hmetrics & H). apply bind_inr in H as (port & Hport & H).
  apply bind_inr in H as (body & Hbody & H).
  apply configured_size_range in Hconc, Hinfl, Hpage, Hpages, Hcrop, Htimeout, Hmetrics, Hbody;
    try (cbn; lia).
  apply configured_size_range in Hsbuf, Hbuf; try (unfold kMaxBufferedBytes; lia).
  apply configured_http_port_range in Hport. unfold kMaxBufferedBytes in *.
  destruct (negb (port =? 0) && _ && _) eqn:Hauth; [done|]. injection H as <-.
  split; cbn -[is_loopback_host Z.pow]; try lia.
  - case_bool_decide as Hnil; [by left|]. right. case_bool_decide as Hok; [|done].
    by apply endpoint_error_nil.
  - destruct (Z.eqb_spec port 0); [by left|right]. cbn [negb andb] in Hauth.
    destruct (is_loopback_host _); [by left|right]. unfold secret_is_empty in Hauth.
    by apply bool_decide_eq_false in Hauth.
Qed.

(** C36: A configuration the process starts with is sound: every number lies in
    its documented range, whatever the environment holds; a page fits both
    buffer budgets, so it can always be admitted; the endpoint parses; and the
    HTTP front end is off, on loopback, or behind a token. *)
Theorem load_config_sound env config : load_config_from_env env = inr config → sound_config config.
Proof. apply load_config_checked. Qed.




(** What the loopback test accepts: the three names of this machine, or
    "127." and three more groups of decimal digits, none empty, at most fifteen
    bytes in all. *)
Theorem is_loopback_host_shape host :
  is_loopback_host host = true →
  host ∈ [lit "localhost"; lit "::1"; lit "[::1]"] ∨
  ∃ rest, host = lit "127." ++ rest ∧ (length host ≤ 15)%nat ∧
    Forall (λ c, isdigit c || (c =c "."%char) = true) rest ∧
    count_dots host 0 = Some 3 ∧ ends_with (lit ".") host = false ∧ find (lit "..") host 0 = None.
Proof.
  unfold is_loopback_host.
  destruct (bool_decide (host = lit "localhost")) eqn:E1; [left; apply bool_decide_eq_true in E1; subst; left|].
  destruct (bool_decide (host = lit "::1")) eqn:E2; [left; apply bool_decide_eq_true in E2; subst; right; left|].
  destruct (bool_decide (host = lit "[::1]")) eqn:E3;
    [left; apply bool_decide_eq_true in E3; subst; right; right; left|]. cbn [orb].
  destruct (starts_with (lit "127.") host) eqn:Hs; [|done]. cbn [negb orb].
  destruct (Z.ltb_spec 15 (Z.of_nat (length host))); [done|].
  destruct (count_dots host 0) as [dots|] eqn:Hd; [|done].
  intros [[->%Z.eqb_eq He]%andb_prop Hf]%andb_prop. right.
  apply starts_with_app in Hs as [rest ->]. exists rest. split_and!; try done; try lia.
  - assert (Hall : ∀ s n m, count_dots s n = Some m →
      Forall (λ c, isdigit c || (c =c "."%char) = true) s).
    { induction s as [|c s IH]; intros n m; [constructor|]. cbn [count_dots].
      destruct (c =c "."%char) eqn:Ec; [|destruct (isdigit c) eqn:Ed; [|done]];
        intros Hc; (constructor; [cbv beta; rewrite ?Ec, ?Ed; by rewrite ?orb_true_r|by eapply IH]). }
    apply Hall in Hd. by apply Forall_app in Hd as [_ Hd].
  - by destruct (ends_with _ _).
  - destruct (find _ _ _); [|done]. by rewrite bool_decide_true in Hf.
Qed.

(** ** Sizes *)

(** A size written with a minus sign is not refused: [strtoull] negates
    modulo 2^64, so the text "-" followed by 2^64 - v reads as v and passes the
    range check, for every v in range. *)
Theorem negative_size_accepted env name fallback minimum maximum v :
  env name = Some (lit "-" ++ to_string (2 ^ 64 - v)) →
  1 <= v < 2 ^ 64 → minimum <= v <= maximum →
  configured_size env name fallback minimum maximum = inr v.
Proof.
  intros He Hv Hr.
  assert (Hs : set_value env name = Some (lit "-" ++ to_string (2 ^ 64 - v)))
    by (unfold set_value; rewrite He; done).
  unfold configured_size. rewrite Hs. unfold strtoull, strto_prefix.
  pose proof (digits_value_to_string (2 ^ 64 - v) [] ltac:(lia) eq_refl) as Hd.
  pose proof (head_to_string (2 ^ 64 - v) [] ltac:(lia)) as Hh. rewrite app_nil_r in Hd, Hh.
  revert Hd Hh. generalize (to_string (2 ^ 64 - v)) as d. intros d Hd Hh.
  change (lstrip isspace (lit "-" ++ d)) with ("-"%char :: d). cbv iota beta.
  rewrite Hh, Hd. unfold uint64_max.
  destruct (Z.ltb_spec (2 ^ 64 - 1) (2 ^ 64 - v)); [lia|].
  replace ((- (2 ^ 64 - v)) mod 2 ^ 64) with v.
  - destruct (Z.ltb_spec v minimum); [lia|]. by destruct (Z.ltb_spec maximum v); [lia|].
  - replace (- (2 ^ 64 - v)) with (v + (-1) * 2 ^ 64) by lia.
    rewrite Z.mod_add by lia. symmetry. apply Z.mod_small. lia.
Qed.

(** ** Lists *)

(** The pieces of a text between its commas. *)
Fixpoint split_commas (text : bytes) : list bytes :=
  match text with
  | [] => [[]]
  | c :: text' =>
      if (","%char =c c) then [] :: split_commas text'
      else match split_commas text' with
           | piece :: pieces => (c :: piece) :: pieces
           | [] => [[c]]
           end
  end.

Lemma split_commas_cut piece t :
  Forall (λ c, (","%char =c c) = false) piece → t = [] ∨ head_is (Ascii.eqb ","%char) t = true →
  split_commas (piece ++ t) = piece :: match t with [] => [] | _ :: t' => split_commas t' end.
Proof.
  intros Hp Ht. induction Hp as [|c piece Hc _ IH]; cbn [app split_commas].
  - destruct t as [|c t]; [done|]. destruct Ht as [|Ht]; [done|]. cbn [head_is] in Ht.
    cbn [split_commas]. by rewrite Ht.
  - by rewrite Hc, IH.
Qed.

Definition nonempty_items (pieces : list bytes) : list bytes :=
  filter (λ item, item ≠ []) (strip_item <$> pieces).

Lemma nonempty_items_cons piece pieces values :
  (if bool_decide (strip_item piece = []) then values else values ++ [strip_item piece]) ++
  nonempty_items pieces = values ++ nonempty_items (piece :: pieces).
Proof.
  unfold nonempty_items. rewrite fmap_cons, filter_cons.
  case_bool_decide; [by rewrite decide_False by auto|].
  by rewrite decide_True, <- app_assoc by auto.
Qed.

Lemma list_loop pre text values fuel :
  (length text + 1 < fuel)%nat →
  run_loop [] fuel (list_step (pre ++ text)) (length pre, values) =
  values ++ nonempty_items (split_commas text).
Proof.
  remember (length text) as n eqn:Hn. revert pre text values fuel Hn.
  induction n as [n IH] using lt_wf_ind. intros pre text values fuel -> Hfuel.
  unfold run_loop. destruct fuel as [|fuel]; [lia|]. rewrite loop_S.
  unfold list_step at 1. rewrite bool_decide_true by (rewrite length_app; lia). cbn [negb].
  destruct (cut_exists (Ascii.eqb ","%char) text) as (piece & t & -> & Hp & Ht).
  assert (Hcomma : match find_char ","%char (pre ++ piece ++ t) (length pre) with
      | Some i => i | None => length (pre ++ piece ++ t) end = (length pre + length piece)%nat).
  { unfold find_char. rewrite (find_if_skip _ _ pre piece t); try done.
    - destruct t as [|c t]; [by rewrite app_nil_r, length_app|].
      destruct Ht as [|Ht]; [done|]. cbn [find_if_at]. by rewrite Ht.
    - intros k Hk. destruct (lookup_lt_is_Some_2 piece k Hk) as [d Hd].
      rewrite (drop_S _ _ _ Hd). cbn [app head_is]. by eapply (Forall_lookup_1 _ _ _ _ Hp). }
  rewrite Hcomma. rewrite (substr_cut _ pre piece t) by (done || lia).
  rewrite split_commas_cut, <- nonempty_items_cons by done.
  generalize (if bool_decide (strip_item piece = []) then values else values ++ [strip_item piece]).
  clear values. intros values.
  destruct t as [|c t].
  - rewrite app_nil_r in *. destruct fuel as [|fuel]; [cbn in Hfuel; lia|]. rewrite loop_S.
    unfold list_step at 1. rewrite bool_decide_false by (rewrite length_app; lia).
    symmetry. apply app_nil_r.
  - rewrite !length_app in Hfuel. cbn [length] in Hfuel.
    replace (pre ++ piece ++ c :: t) with ((pre ++ piece ++ [c]) ++ t)
      by (by rewrite <- !app_assoc).
    replace (length pre + length piece + 1)%nat with (length (pre ++ piece ++ [c]))
      by (rewrite !length_app; cbn; lia).
    apply (IH (length t)); [rewrite !length_app; cbn; lia|done|lia].
Qed.

(** The preset list is the comma-separated pieces of the variable, trimmed,
    the empty ones dropped, in order. *)
Theorem configured_list_split env name buffer :
  env name = Some buffer →
  configured_list env name = nonempty_items (split_commas buffer).
Proof.
  intros He. unfold configured_list. rewrite He. apply (list_loop [] buffer []). lia.
Qed.

(** The loopback test takes an address for its shape: groups above 255
    pass, so a string that is no 127.0.0.0/8 literal counts as loopback. *)
Theorem is_loopback_host_lax :
  is_loopback_host (lit "127.999.999.999") = true ∧ is_loopback_host (lit "127.256.0.1") = true.
Proof. by vm_compute. Qed.

(** * Concrete instances *)

Definition toy_environment : Environment := λ name,
  if name =b lit "GRPC_VLM_ENDPOINT" then Some (lit "http://vlm:8080/secret-path")
  else if name =b lit "GRPC_VLM_CONCURRENCY" then Some (lit "-18446744073709551600")
  else if name =b lit "GRPC_VLM_PRESETS" then Some (lit "granite-docling, ,mine")
  else if name =b lit "GRPC_VLM_HTTP_HOST" then Some (lit "127.0.0.9")
  else None.
Definition toy_config : Config :=
  mk_Config (lit "0.0.0.0:50058") (lit "http://vlm:8080/secret-path") Secret_empty false true
    [lit "granite-docling"; lit "mine"] 16 8 (32 * 1024 * 1024) 512 (3 * 1024 * 1024)
    (128 * 1024 * 1024) (512 * 1024 * 1024) 300 60 50059 (lit "127.0.0.9") (64 * 1024 * 1024)
    Secret_empty.

Lemma load_config_sound_witness :
  load_config_from_env toy_environment = inr toy_config ∧ sound_config toy_config.
Proof.
  split; [vm_compute; reflexivity|].
  apply (load_config_sound toy_environment toy_config). vm_compute. reflexivity.
Defined.

Lemma negative_size_accepted_witness :
  configured_size toy_environment (lit "GRPC_VLM_CONCURRENCY") 2 1 64 = inr 16.
Proof. apply (negative_size_accepted toy_environment); [vm_compute; reflexivity|lia|lia]. Defined.

Lemma configured_list_split_witness :
  configured_list toy_environment (lit "GRPC_VLM_PRESETS") = [lit "granite-docling"; lit "mine"].
Proof.
  etrans; [apply (configured_list_split toy_environment _ (lit "granite-docling, ,mine"));
    vm_compute; reflexivity|vm_compute; reflexivity].
Defined.

Lemma is_loopback_host_shape_witness :
  is_loopback_host (lit "127.0.0.9") = true ∧ (length (lit "127.0.0.9") ≤ 15)%nat.
Proof.
  split; [vm_compute; reflexivity|].
  destruct (is_loopback_host_shape (lit "127.0.0.9")) as [Hin|(rest & _ & Hl & _)];
    [vm_compute; reflexivity|exfalso|exact Hl].
  repeat (apply elem_of_cons in Hin as [Hin|Hin]; [vm_compute in Hin; discriminate Hin|]).
  by apply elem_of_nil in Hin.
Defined.

