(* ===== verification/Completion.v ===== *)
(** The chat completion a VLM endpoint answers with (the second half of
    [generate] in src/vlm_client.cpp): JSON in, one page's result out. *)
From S2P Require Import Prelude Numbers Double Json.

(** [has_logprob] and [logprob] are the option. *)
Record TokenAlternative := mk_TokenAlternative {
  ta_token : bytes;
  ta_logprob : option double }.

(** [has_logprobs] and [has_usage] are the options. *)
Record VlmResult := mk_VlmResult {
  vr_ok : bool;
  vr_text : bytes;
  vr_error : bytes;
  vr_cancelled : bool;
  vr_logprobs : option (double * Z);
  vr_alternatives : list TokenAlternative;
  vr_finish_reason : bytes;
  vr_model : bytes;
  vr_usage : option (Z * Z) }.
Definition VlmResult_failed (error : bytes) : VlmResult :=
  mk_VlmResult false [] error false None [] [] [] None.
Definition VlmResult_cancelled (error : bytes) : VlmResult :=
  mk_VlmResult false [] error true None [] [] [] None.

(** One alternate; [None] is skipped. *)
Definition read_alternate (alternate : json) : option TokenAlternative :=
  match alternate with
  | JObject members =>
      match string_member (lit "token") members with
      | Some token => Some (mk_TokenAlternative token (number_member (lit "logprob") members))
      | None => None
      end
  | _ => None
  end.
(** One token entry on the running sum, the count and the alternates. *)
Definition read_token (st : double * Z * list TokenAlternative) (token : json)
  : double * Z * list TokenAlternative :=
  let '(sum, count, alternatives) := st in
  match token with
  | JObject members =>
      let '(sum, count) :=
        match number_member (lit "logprob") members with
        | Some logprob => (dadd sum logprob, count + 1)
        | None => (sum, count)
        end in
      match member (lit "top_logprobs") members with
      | Some (JArray top) => (sum, count, alternatives ++ omap read_alternate top)
      | _ => (sum, count, alternatives)
      end
  | _ => st
  end.
Definition read_logprobs (first : list (bytes * json))
  : option (double * Z) * list TokenAlternative :=
  match member (lit "logprobs") first with
  | Some (JObject logprobs) =>
      match member (lit "content") logprobs with
      | Some (JArray tokens) =>
          let '(sum, count, alternatives) := foldl read_token (dzero, 0, []) tokens in
          (if 0 <? count then Some (ddiv sum (of_Z count), count) else None, alternatives)
      | _ => (None, [])
      end
  | _ => (None, [])
  end.
Definition read_usage (parsed : list (bytes * json)) : option (Z * Z) :=
  match member (lit "usage") parsed with
  | Some (JObject usage) =>
      match unsigned_member (lit "prompt_tokens") usage,
            unsigned_member (lit "completion_tokens") usage with
      | None, None => None
      | prompt, completion => Some (default 0 prompt, default 0 completion)
      end
  | _ => None
  end.
(** [choices[0]] when it is an object whose message content is a string. *)
Definition first_choice (parsed : list (bytes * json)) : option (list (bytes * json) * bytes) :=
  match member (lit "choices") parsed with
  | Some (JArray (JObject first :: _)) =>
      match member (lit "message") first with
      | Some (JObject message) =>
          match string_member (lit "content") message with
          | Some text => Some (first, text)
          | None => None
          end
      | _ => None
      end
  | _ => None
  end.

(** From the body of a 200 answer on. *)
Definition read_completion `{Json} (body : bytes) : VlmResult :=
  match json_parse body with
  | None => VlmResult_failed (lit "endpoint returned non-JSON body")
  | Some (JObject parsed) =>
      match first_choice parsed with
      | None => VlmResult_failed (lit "chat completion has no message content")
      | Some (first, text) =>
          let '(logprobs, alternatives) := read_logprobs first in
          mk_VlmResult true text [] false logprobs alternatives
            (default [] (string_member (lit "finish_reason") first))
            (default [] (string_member (lit "model") parsed)) (read_usage parsed)
      end
  | Some _ =>
      VlmResult_failed (lit "endpoint returned JSON that is not a chat completion object")
  end.

(** * What the answer of a page is *)

(** A chat completion, as the protocol documents it. *)
Record ScoredToken := mk_ScoredToken {
  st_logprob : option double;
  st_top : list TokenAlternative }.
Record ChatCompletion := mk_ChatCompletion {
  ch_text : bytes;
  ch_finish_reason : bytes;
  ch_model : bytes;
  ch_usage : option (Z * Z);
  ch_tokens : list ScoredToken }.

Definition logprob_member (logprob : option double) : list (bytes * json) :=
  match logprob with Some d => [(lit "logprob", JFloat d)] | None => [] end.
Definition print_alternate (a : TokenAlternative) : json :=
  JObject ((lit "token", JString (ta_token a)) :: logprob_member (ta_logprob a)).
Definition print_token (t : ScoredToken) : json :=
  JObject (logprob_member (st_logprob t) ++
           [(lit "top_logprobs", JArray (print_alternate <$> st_top t))]).
Definition print_completion (c : ChatCompletion) : json :=
  JObject [
    (lit "model", JString (ch_model c));
    (lit "choices", JArray [JObject [
       (lit "message", JObject [(lit "role", JString (lit "assistant"));
                                (lit "content", JString (ch_text c))]);
       (lit "finish_reason", JString (ch_finish_reason c));
       (lit "logprobs", JObject [(lit "content", JArray (print_token <$> ch_tokens c))])]]);
    (lit "usage", match ch_usage c with
       | Some (prompt, completion) => JObject [(lit "prompt_tokens", JUnsigned prompt);
                                               (lit "completion_tokens", JUnsigned completion)]
       | None => JNull
       end)].

(** The scores the endpoint reported, in generation order. *)
Definition scores (c : ChatCompletion) : list double := omap st_logprob (ch_tokens c).

Lemma read_alternate_print a : read_alternate (print_alternate a) = Some a.
Proof. by destruct a as [token [d|]]. Qed.

Lemma read_alternates_print (top : list TokenAlternative) : omap read_alternate (print_alternate <$> top) = top.
Proof.
  induction top as [|a top IH]; [done|]. cbn -[read_alternate print_alternate].
  rewrite read_alternate_print. f_equal. exact IH.
Qed.

Lemma read_token_print sum count alternatives t :
  read_token (sum, count, alternatives) (print_token t) =
  (match st_logprob t with Some d => dadd sum d | None => sum end,
   match st_logprob t with Some _ => count + 1 | None => count end,
   alternatives ++ st_top t).
Proof.
  rewrite <- (read_alternates_print (st_top t)). by destruct t as [[d|] top].
Qed.

Lemma read_tokens_print (tokens : list ScoredToken) sum count alternatives :
  foldl read_token (sum, count, alternatives) (print_token <$> tokens) =
  (foldl dadd sum (omap st_logprob tokens),
   count + Z.of_nat (length (omap st_logprob tokens)),
   alternatives ++ mjoin (st_top <$> tokens)).
Proof.
  revert sum count alternatives. induction tokens as [|t tokens IH]; intros sum count alternatives.
  - cbn. by rewrite app_nil_r, Z.add_0_r.
  - rewrite fmap_cons. cbn [foldl]. rewrite read_token_print, IH.
    destruct t as [[d|] top]; cbn [omap list_omap st_logprob st_top length fmap list_fmap mjoin list_join];
      rewrite <- app_assoc; try reflexivity; do 2 f_equal; lia.
Qed.

(** C38: Reading a chat completion gives back what it says: the text, the stop
    reason, the model, the token usage, every alternate in generation order,
    and as the page score the mean of the reported log-probabilities (summed in
    order, never rescaled) with the number it was taken over, or no score when
    none was reported. *)
Theorem read_completion_roundtrip `{Json} body c :
  json_parse body = Some (print_completion c) →
  read_completion body =
  mk_VlmResult true (ch_text c) [] false
    (if bool_decide (scores c = []) then None
     else Some (ddiv (foldl dadd dzero (scores c)) (of_Z (Z.of_nat (length (scores c)))),
                Z.of_nat (length (scores c))))
    (mjoin (st_top <$> ch_tokens c)) (ch_finish_reason c) (ch_model c) (ch_usage c).
Proof.
  intros Hb. unfold read_completion. rewrite Hb. unfold print_completion.
  match goal with |- context [first_choice ?m] =>
    set (parsed := m); assert (Hf : ∃ first, first_choice parsed = Some (first, ch_text c) ∧
      string_member (lit "finish_reason") first = Some (ch_finish_reason c) ∧
      member (lit "logprobs") first =
        Some (JObject [(lit "content", JArray (print_token <$> ch_tokens c))]))
  end.
  { eexists. split_and!; reflexivity. }
  destruct Hf as (first & -> & -> & Hl). unfold read_logprobs. rewrite Hl.
  replace (member (lit "content") [(lit "content", JArray (print_token <$> ch_tokens c))])
    with (Some (JArray (print_token <$> ch_tokens c))) by reflexivity.
  rewrite read_tokens_print. cbn [app]. rewrite Z.add_0_l. fold (scores c).
  replace (string_member (lit "model") parsed) with (Some (ch_model c)) by reflexivity.
  replace (read_usage parsed) with (ch_usage c).
  2: { subst parsed. by destruct (ch_usage c) as [[? ?]|]. }
  cbn [default]. f_equal. case_bool_decide as Hs; [by rewrite Hs|].
  by destruct (scores c).
Qed.

(** An answer is used exactly when it is a JSON object whose first choice
    is an object with a string message content, which is then the page's text;
    everything else (no JSON, no object, missing or ill-typed members) is an
    error result that carries no text. *)
Theorem read_completion_ok `{Json} body :
  vr_ok (read_completion body) = true ↔
  ∃ parsed first message choices,
    json_parse body = Some (JObject parsed) ∧
    member (lit "choices") parsed = Some (JArray (JObject first :: choices)) ∧
    member (lit "message") first = Some (JObject message) ∧
    member (lit "content") message = Some (JString (vr_text (read_completion body))).
Proof.
  unfold read_completion. split.
  - destruct (json_parse body) as [[]|]; try done.
    unfold first_choice. destruct (member (lit "choices") _) as [[]|] eqn:Hc; try done.
    destruct elements as [|[] choices]; try done.
    destruct (member (lit "message") _) as [[]|] eqn:Hm; try done.
    unfold string_member at 1. destruct (member (lit "content") _) as [[]|] eqn:Ht; try done.
    intros _. exists members, members0, members1, choices. split_and!; try done.
    replace (string_member (lit "content") members1) with (Some s)
      by (unfold string_member; by rewrite Ht).
    rewrite Ht. by destruct (read_logprobs members0).
  - intros (parsed & first & message & choices & -> & Hc & Hm & Ht).
    revert Ht. unfold first_choice. rewrite Hc, Hm. unfold string_member.
    destruct (member (lit "content") message) as [[]|] eqn:E; try done.
    by destruct (read_logprobs first).
Qed.

(** * Concrete instances *)

Definition toy_completion : ChatCompletion :=
  mk_ChatCompletion (lit "# T") (lit "length") (lit "m") (Some (12, 3))
    [mk_ScoredToken (Some (of_Z (-1))) [mk_TokenAlternative (lit "#") (Some (of_Z (-1)))];
     mk_ScoredToken None []; mk_ScoredToken (Some (of_Z (-3))) [mk_TokenAlternative (lit "U") None]].
Definition toy_json : Json :=
  Build_Json (λ body, if body =b lit "ok" then Some (print_completion toy_completion)
                      else if body =b lit "[]" then Some (JArray []) else None)
    (λ _, lit "{}").

Lemma read_completion_roundtrip_witness :
  vr_logprobs (@read_completion toy_json (lit "ok")) = Some (of_Z (-2), 2).
Proof.
  rewrite (@read_completion_roundtrip toy_json (lit "ok") toy_completion) by reflexivity.
  vm_compute. reflexivity.
Defined.
