(* ===== verification/VlmClient.v ===== *)
(** One page's call to the VLM endpoint (src/vlm_client.h, src/vlm_client.cpp):
    the request, the retry loop under its wall-clock budget, and what the caller
    gets.  What the world does during a call (clock, cancel probe, watchdog,
    transport) is a script the loop is run against, so every interleaving is one
    script. *)
From S2P Require Import Prelude Numbers Double Json Base64 Secret Endpoint Completion.

(** [vc_probed] is whether a cancel probe was given. *)
Record VlmCall := mk_VlmCall {
  vc_endpoint : bytes;
  vc_model : bytes;
  vc_prompt : bytes;
  vc_stop : list bytes;
  vc_max_tokens : Z;
  vc_top_logprobs : Z;
  vc_logprobs : bool;
  vc_png : bytes;
  vc_timeout_seconds : Z;
  vc_api_key : Secret;
  vc_probed : bool }.

Definition kMaxRetries : nat := 5.
Definition retryable_status (status : Z) : bool :=
  (status =? 429) || (status =? 500) || (status =? 502) || (status =? 503) || (status =? 504).

(** [httplib::Error], as far as the program tells them apart. *)
Inductive TransportError := Connection | ConnectionTimeout | OtherError.
Definition retryable_transport (error : TransportError) : bool :=
  match error with Connection | ConnectionTimeout => true | OtherError => false end.

(** [httplib::Result]. *)
Inductive Response :=
  | Answered (status : Z) (body : bytes)
  | Unanswered (error : TransportError).
Definition is_200 (response : Response) : bool :=
  match response with Answered status _ => status =? 200 | Unanswered _ => false end.
Definition retryable (response : Response) : bool :=
  match response with
  | Answered status _ => retryable_status status
  | Unanswered error => retryable_transport error
  end.

(** * The guard *)

(** One look at the world: what the probe answers, and whether the deadline
    has passed. *)
Record Poll := mk_Poll { po_cancelled : bool; po_expired : bool }.
Record CallGuard := mk_CallGuard { cg_tripped : bool; cg_by_caller : bool }.
Definition CallGuard_new : CallGuard := mk_CallGuard false false.

(** [tripped()] on the main thread or on the watchdog: sticky. *)
Definition poll (probed : bool) (guard : CallGuard) (look : Poll) : CallGuard :=
  if cg_tripped guard then guard
  else if probed && po_cancelled look then mk_CallGuard true true
  else if po_expired look then mk_CallGuard true (cg_by_caller guard)
  else guard.
(** The looks taken while the call is inside the transport or asleep. *)
Definition polls (probed : bool) : CallGuard → list Poll → CallGuard := foldl (poll probed).

(** * Requests *)

(** One POST of the chat completion.  The timeouts, in milliseconds, are what
    the client hands httplib from what is left of the budget. *)
Record HttpRequest := mk_HttpRequest {
  hr_origin : bytes;
  hr_target : bytes;
  hr_authorization : option bytes;
  hr_payload : bytes;
  hr_connect_ms : Z;
  hr_limit_ms : Z }.

Definition kConnectTimeoutMs : Z := 10000.
Definition kTimeoutSlackMs : Z := 200.

Definition request_body (call : VlmCall) : json :=
  JObject (
    [(lit "model", JString (vc_model call));
     (lit "messages", JArray [JObject [
        (lit "role", JString (lit "user"));
        (lit "content", JArray [
           JObject [(lit "type", JString (lit "text")); (lit "text", JString (vc_prompt call))];
           JObject [(lit "type", JString (lit "image_url"));
             (lit "image_url", JObject [
                (lit "url", JString (lit "data:image/png;base64," ++ base64_encode (vc_png call)))])]])]]);
     (lit "max_tokens", JUnsigned (vc_max_tokens call))] ++
    (if vc_logprobs call || (0 <? vc_top_logprobs call) then [(lit "logprobs", JBool true)] else []) ++
    (if bool_decide (vc_stop call = []) then [] else [(lit "stop", JArray (map JString (vc_stop call)))]) ++
    (if 0 <? vc_top_logprobs call then [(lit "top_logprobs", JUnsigned (vc_top_logprobs call))] else [])).

Definition authorization (call : VlmCall) : option bytes :=
  if secret_is_empty (vc_api_key call) then None
  else Some (lit "Bearer " ++ reveal (vc_api_key call)).

(** * The script of one call *)

Record Attempt := mk_Attempt {
  at_top : Poll;               (* the loop test *)
  at_valid : bool;             (* client.is_valid() *)
  at_remaining_ms : Z;         (* what is left of the budget *)
  at_watch : Poll;             (* registering the attempt *)
  at_during : list Poll;       (* the watchdog and the upload hook *)
  at_response : Response;      (* what Post returned *)
  at_after : Poll;             (* the test after it *)
  at_sleeping : list Poll }.   (* the backoff's wake-ups *)
Record Script := mk_Script {
  sc_before : bool;            (* the probe, before anything is sent *)
  sc_attempt : nat → Attempt;
  sc_final : Poll }.           (* the test after the loop *)

(** * The retry loop *)

Section Generate.
Context `{Json}.
Variable backoff_base_ms : Z.
Variables (call : VlmCall) (where_ : ParsedEndpoint) (script : Script).
Let probed := vc_probed call.

(** The locals of the loop; [gl_retries] is also the number of the attempt. *)
Record Loop := mk_Loop {
  gl_guard : CallGuard;
  gl_response : Response;
  gl_retries : nat;
  gl_sent : list HttpRequest }.
Definition Loop_init : Loop := mk_Loop CallGuard_new (Unanswered OtherError) 0 [].

(** How the loop is left: at the end, or returning from inside. *)
Inductive Exit := Broke (s : Loop) | Unusable (s : Loop).

Definition wrap_long (z : Z) : Z := (z + 2 ^ 63) mod 2 ^ 64 - 2 ^ 63.
(** The delay before retry number [retries]. *)
Definition backoff_ms (retries : nat) : Z :=
  wrap_long (Z.shiftl backoff_base_ms (Z.of_nat retries - 1)).

Definition request_of (payload : bytes) (attempt : Attempt) : HttpRequest :=
  let limit := at_remaining_ms attempt + kTimeoutSlackMs in
  mk_HttpRequest (pe_origin where_) (pe_target where_) (authorization call) payload
    (Z.min limit kConnectTimeoutMs) limit.

Definition attempt_step (payload : bytes) (s : Loop) : Loop + Exit :=
  let attempt := sc_attempt script (gl_retries s) in
  let guard := poll probed (gl_guard s) (at_top attempt) in
  if cg_tripped guard then inr (Broke (mk_Loop guard (gl_response s) (gl_retries s) (gl_sent s))) else
  if negb (at_valid attempt) then
    inr (Unusable (mk_Loop guard (gl_response s) (gl_retries s) (gl_sent s))) else
  let guard := poll probed guard (at_watch attempt) in
  if cg_tripped guard then inr (Broke (mk_Loop guard (gl_response s) (gl_retries s) (gl_sent s))) else
  let sent := gl_sent s ++ [request_of payload attempt] in
  let response := at_response attempt in
  let guard := polls probed guard (at_during attempt) in
  if is_200 response then inr (Broke (mk_Loop guard response (gl_retries s) sent)) else
  let guard := poll probed guard (at_after attempt) in
  if cg_tripped guard then inr (Broke (mk_Loop guard response (gl_retries s) sent)) else
  if negb (retryable response) || bool_decide (gl_retries s = kMaxRetries) then
    inr (Broke (mk_Loop guard response (gl_retries s) sent))
  else
    let retries := S (gl_retries s) in
    if 0 <? backoff_ms retries then
      let guard := polls probed guard (at_sleeping attempt) in
      if cg_tripped guard then inr (Broke (mk_Loop guard response retries sent))
      else inl (mk_Loop guard response retries sent)
    else inl (mk_Loop guard response retries sent).

Definition run_attempts (payload : bytes) : Exit :=
  run_loop (Broke Loop_init) (S (S kMaxRetries)) (attempt_step payload) Loop_init.

Definition after_attempts (retries : nat) : bytes :=
  if bool_decide (0 < retries)%nat
  then lit " after " ++ to_string (Z.of_nat retries + 1) ++ lit " attempts" else [].

(** What follows the loop: the result, from whether the last test found the call
    tripped and by whom, and from the last response. *)
Definition report (tripped by_caller : bool) (response : Response) (retries : nat) : VlmResult :=
  if tripped then
    if by_caller then VlmResult_cancelled (lit "VLM call cancelled")
    else VlmResult_failed (lit "VLM call exceeded its " ++ to_string (vc_timeout_seconds call) ++
                           lit " s budget" ++ after_attempts retries)
  else
    match response with
    | Unanswered _ => VlmResult_failed (lit "endpoint unreachable: " ++ pe_origin where_)
    | Answered status body =>
        if status =? 200 then read_completion body
        else VlmResult_failed (lit "endpoint returned HTTP " ++ to_string status ++
                               after_attempts retries)
    end.
Definition finish (s : Loop) : VlmResult :=
  let guard := if is_200 (gl_response s) then gl_guard s
               else poll probed (gl_guard s) (sc_final script) in
  report (negb (is_200 (gl_response s)) && cg_tripped guard) (cg_by_caller guard)
    (gl_response s) (gl_retries s).
End Generate.

(** The result, and the requests that went out. *)
Definition generate `{Json} (backoff_base_ms : Z) (script : Script) (call : VlmCall)
  : VlmResult * list HttpRequest :=
  match parse_endpoint (vc_endpoint call) with
  | inl problem => (VlmResult_failed problem, [])
  | inr where_ =>
      if vc_probed call && sc_before script
      then (VlmResult_cancelled (lit "VLM call cancelled before it started"), [])
      else
        match run_attempts backoff_base_ms call where_ script (json_dump (request_body call)) with
        | Unusable s =>
            (VlmResult_failed (lit "endpoint is not usable: " ++ pe_origin where_), gl_sent s)
        | Broke s => (finish call where_ script s, gl_sent s)
        end
  end.

(** * What the loop does *)

Lemma read_completion_uncancelled `{Json} body : vr_cancelled (read_completion body) = false.
Proof.
  unfold read_completion. destruct (json_parse body) as [[]|]; try done.
  destruct (first_choice _) as [[first text]|]; [|done]. by destruct (read_logprobs first).
Qed.

Section LoopFacts.
Context `{Json}.
Variable backoff_base_ms : Z.
Variables (call : VlmCall) (where_ : ParsedEndpoint) (script : Script) (payload : bytes).

(** A look that trips nothing. *)
Definition quiet (look : Poll) : Prop :=
  vc_probed call && po_cancelled look = false ∧ po_expired look = false.
(** The looks taken before attempt [k] is sent, and those until the next. *)
Definition looks_before (attempt : Attempt) : list Poll := [at_top attempt; at_watch attempt].
Definition looks_after (attempt : Attempt) : list Poll :=
  at_during attempt ++ [at_after attempt].
(** The looks between attempt [k] and the next, those of the backoff included. *)
Definition looks_between (k : nat) : list Poll :=
  looks_after (sc_attempt script k) ++
  (if 0 <? backoff_ms backoff_base_ms (S k) then at_sleeping (sc_attempt script k) else []).

Lemma poll_untripped guard look :
  cg_tripped (poll (vc_probed call) guard look) = false → guard = poll (vc_probed call) guard look ∧
  cg_tripped guard = false ∧ quiet look.
Proof.
  unfold poll, quiet. destruct (cg_tripped guard) eqn:E; [by rewrite E|].
  destruct (vc_probed call && po_cancelled look); [done|]. by destruct (po_expired look).
Qed.

Lemma polls_untripped guard looks :
  cg_tripped (polls (vc_probed call) guard looks) = false →
  guard = polls (vc_probed call) guard looks ∧ cg_tripped guard = false ∧ Forall quiet looks.
Proof.
  revert guard. induction looks as [|look looks IH]; intros guard; cbn; [auto|].
  intros (Hg & Ht & Hl)%IH. rewrite <- Hg. apply poll_untripped in Ht as (<- & ? & ?). auto.
Qed.

(** The response the loop holds: the last attempt's. *)
Definition last_response (sent : nat) : Response :=
  match sent with O => Unanswered OtherError | S k => at_response (sc_attempt script k) end.

(** A script in which the probe answers true at some look. *)
Definition cancels : Prop :=
  sc_before script = true ∨ po_cancelled (sc_final script) = true ∨
  ∃ k look, (k ≤ kMaxRetries)%nat ∧ po_cancelled look = true ∧
    look ∈ looks_before (sc_attempt script k) ++ looks_after (sc_attempt script k) ++
           at_sleeping (sc_attempt script k).

(** The facts of the requests sent so far. *)
Record sent_facts (sent : list HttpRequest) : Prop := {
  sf_request : ∀ k r, sent !! k = Some r →
    r = request_of call where_ payload (sc_attempt script k) ∧
    Forall quiet (looks_before (sc_attempt script k));
  sf_retried : ∀ k, (S k < length sent)%nat →
    retryable (at_response (sc_attempt script k)) = true ∧
    Forall quiet (looks_between k) }.

Record loop_inv (s : Loop) : Prop := {
  li_sent : sent_facts (gl_sent s);
  li_count : length (gl_sent s) = gl_retries s;
  li_bound : (gl_retries s ≤ kMaxRetries)%nat;
  li_response : gl_response s = last_response (length (gl_sent s));
  li_last : ∀ k, gl_retries s = S k → retryable (at_response (sc_attempt script k)) = true ∧
    Forall quiet (looks_between k);
  li_failed : is_200 (gl_response s) = false;
  li_caller : cg_by_caller (gl_guard s) = true → vc_probed call = true ∧ cancels }.

Definition exit_state (e : Exit) : Loop := match e with Broke s | Unusable s => s end.
Record loop_post (e : Exit) : Prop := {
  lp_sent : sent_facts (gl_sent (exit_state e));
  lp_count : (length (gl_sent (exit_state e)) ≤ S kMaxRetries)%nat;
  lp_response : gl_response (exit_state e) = last_response (length (gl_sent (exit_state e)));
  lp_unusable : match e with Unusable s => is_200 (gl_response s) = false | Broke _ => True end;
  lp_caller : cg_by_caller (gl_guard (exit_state e)) = true → vc_probed call = true ∧ cancels }.

Lemma poll_by_caller guard look :
  cg_by_caller (poll (vc_probed call) guard look) = true →
  cg_by_caller guard = true ∨ vc_probed call = true ∧ po_cancelled look = true.
Proof.
  unfold poll. destruct (cg_tripped guard); [auto|].
  destruct (vc_probed call) eqn:?, (po_cancelled look) eqn:?, (po_expired look); cbn; auto.
Qed.

Lemma polls_by_caller guard looks :
  cg_by_caller (polls (vc_probed call) guard looks) = true →
  cg_by_caller guard = true ∨ vc_probed call = true ∧ ∃ look, look ∈ looks ∧ po_cancelled look = true.
Proof.
  revert guard. induction looks as [|look looks IH]; intros guard; cbn; [auto|].
  intros [[?|[? ?]]%poll_by_caller|(? & l & ? & ?)]%IH; [by left|right..].
  - split; [done|]. exists look. split; [by left|done].
  - split; [done|]. exists l. split; [by right|done].
Qed.

(** A guard that stopped for the caller was told so, at a look of attempt [k]. *)
Definition caller_told (guard : CallGuard) : Prop :=
  cg_by_caller guard = true → vc_probed call = true ∧ cancels.
Definition looks_of (attempt : Attempt) : list Poll :=
  looks_before attempt ++ looks_after attempt ++ at_sleeping attempt.
Lemma polls_told k guard looks :
  (k ≤ kMaxRetries)%nat → (∀ look, look ∈ looks → look ∈ looks_of (sc_attempt script k)) →
  caller_told guard → caller_told (polls (vc_probed call) guard looks).
Proof.
  intros Hk Hlooks Hg [?|(? & look & ? & ?)]%polls_by_caller; [by apply Hg|]. split; [done|].
  right; right. exists k, look. auto.
Qed.
Lemma poll_told k guard look :
  (k ≤ kMaxRetries)%nat → look ∈ looks_of (sc_attempt script k) →
  caller_told guard → caller_told (poll (vc_probed call) guard look).
Proof. intros. apply (polls_told k guard [look]); [done| |done]. by intros ? ->%list_elem_of_singleton. Qed.

Lemma sent_facts_snoc sent retries :
  sent_facts sent → length sent = retries →
  (∀ k, retries = S k → retryable (at_response (sc_attempt script k)) = true ∧
    Forall quiet (looks_between k)) →
  Forall quiet (looks_before (sc_attempt script retries)) →
  sent_facts (sent ++ [request_of call where_ payload (sc_attempt script retries)]).
Proof.
  intros [Hreq Hret] <- Hlast Hbefore. split.
  - intros k r [Hk|[Hk Hr]]%lookup_app_Some; [by apply Hreq|].
    destruct (k - length sent)%nat eqn:E; [|done]. cbn in Hr. injection Hr as <-.
    by replace k with (length sent) by lia.
  - intros k. rewrite length_app. cbn. intros Hk.
    destruct (decide (S k < length sent)%nat); [by apply Hret|]. apply Hlast. lia.
Qed.

Ltac look_in :=
  unfold looks_of, looks_before, looks_after; rewrite ?elem_of_app, ?elem_of_cons, ?list_elem_of_singleton; tauto.
Ltac told :=
  match goal with attempt := sc_attempt _ ?k |- _ =>
    first [apply (poll_told k) | apply (polls_told k)]; [done|try intros ? ?; fold attempt; look_in|done] end.
Ltac leaves := split; cbn; auto; repeat match goal with H : length _ = _ |- _ => rewrite H end; (lia || done).

(** One iteration keeps the facts, whichever way it goes. *)
Lemma attempt_step_facts s :
  loop_inv s →
  match attempt_step backoff_base_ms call where_ script payload s with
  | inl s' => loop_inv s' ∧ (S kMaxRetries - gl_retries s' < S kMaxRetries - gl_retries s)%nat
  | inr e => loop_post e
  end.
Proof.
  intros [Hsent Hcount Hbound Hresp Hlast Hfailed Hcaller]. unfold attempt_step.
  set (k := gl_retries s) in *. set (attempt := sc_attempt script k).
  set (g1 := poll _ (gl_guard s) _). assert (H1 : caller_told g1) by told.
  destruct (cg_tripped g1) eqn:E1; [leaves|]. destruct (at_valid attempt); cbn [negb]; [|leaves].
  set (g2 := poll _ g1 _). assert (H2 : caller_told g2) by told.
  destruct (cg_tripped g2) eqn:E2; [leaves|].
  apply poll_untripped in E1 as (_ & _ & Q1). apply poll_untripped in E2 as (_ & _ & Q2).
  assert (Hs : sent_facts (gl_sent s ++ [request_of call where_ payload attempt])).
  { apply sent_facts_snoc; auto. do 2 (apply Forall_cons_2; [done|]). apply Forall_nil_2. }
  assert (Hlen : length (gl_sent s ++ [request_of call where_ payload attempt]) = S k)
    by (rewrite length_app; cbn; lia).
  set (g3 := polls _ g2 _). assert (H3 : caller_told g3) by told.
  destruct (is_200 (at_response attempt)) eqn:E200; [leaves|].
  set (g4 := poll _ g3 _). assert (H4 : caller_told g4) by told.
  destruct (cg_tripped g4) eqn:E4; [leaves|].
  apply poll_untripped in E4 as (_ & E3 & Q4). apply polls_untripped in E3 as (_ & _ & Q3).
  destruct (retryable (at_response attempt)) eqn:Hr; cbn [negb orb]; [|leaves].
  case_bool_decide as Hmax; [leaves|].
  set (g5 := polls _ g4 _). assert (H5 : caller_told g5) by told.
  assert (Hnext : ∀ g, caller_told g →
    Forall quiet (if 0 <? backoff_ms backoff_base_ms (S k) then at_sleeping attempt else []) →
    loop_inv (mk_Loop g (at_response attempt) (S k) (gl_sent s ++ [request_of call where_ payload attempt])) ∧
    (S kMaxRetries - S k < S kMaxRetries - k)%nat).
  { intros g Hg Q5. split; [|unfold kMaxRetries in *; lia].
    split; cbn [gl_sent gl_retries gl_response gl_guard]; auto; try lia; [by rewrite Hlen|].
    intros j [= <-]. split; [done|]. unfold looks_between, looks_after.
    apply Forall_app_2; [|exact Q5]. apply Forall_app_2; [done|].
    apply Forall_cons_2; [done|apply Forall_nil_2]. }
  destruct (0 <? _); [|by apply Hnext]. destruct (cg_tripped g5) eqn:E5; [leaves|].
  apply Hnext; [done|]. by apply polls_untripped in E5 as (_ & _ & Q5).
Qed.

Lemma run_attempts_facts : loop_post (run_attempts backoff_base_ms call where_ script payload).
Proof.
  unfold run_attempts.
  apply (run_loop_spec loop_inv loop_post (λ s, S kMaxRetries - gl_retries s)%nat).
  - apply attempt_step_facts.
  - split; cbn; try done; try lia. split; [done|cbn; intros; lia].
  - cbn. lia.
Qed.
End LoopFacts.

Lemma generate_sent `{Json} backoff_base_ms script call result sent :
  generate backoff_base_ms script call = (result, sent) →
  (length sent ≤ 6)%nat ∧
  (∀ k r, sent !! k = Some r →
     (∃ p, parse_endpoint (vc_endpoint call) = inr p ∧
        hr_origin r = pe_origin p ∧ hr_target r = pe_target p) ∧
     hr_authorization r = (if secret_is_empty (vc_api_key call) then None
                           else Some (lit "Bearer " ++ secret_value (vc_api_key call))) ∧
     Forall (quiet call) (looks_before (sc_attempt script k))) ∧
  (∀ k, (S k < length sent)%nat →
     retryable (at_response (sc_attempt script k)) = true ∧
     Forall (quiet call) (looks_between backoff_base_ms script k)).
Proof.
  unfold generate. destruct (parse_endpoint _) as [problem|p] eqn:Hp.
  { intros [= <- <-]. split_and!; [cbn; lia|done|cbn; intros; lia]. }
  destruct (_ && _).
  { intros [= <- <-]. split_and!; [cbn; lia|done|cbn; intros; lia]. }
  pose proof (run_attempts_facts backoff_base_ms call p script (json_dump (request_body call)))
    as [[Hreq Hret] Hcount _ _].
  intros Heq.
  assert (sent = gl_sent (exit_state
    (run_attempts backoff_base_ms call p script (json_dump (request_body call))))) as ->
    by (destruct (run_attempts _ _ _ _ _); by injection Heq).
  split_and!; [done| |exact Hret].
  intros k r Hk. destruct (Hreq k r Hk) as [-> Hq]. split_and!; [by exists p|done|done].
Qed.

(** Nothing is sent when the probe already says so before the first attempt. *)
Lemma generate_before `{Json} backoff_base_ms script call result sent :
  generate backoff_base_ms script call = (result, sent) → sent ≠ [] →
  vc_probed call && sc_before script = false.
Proof.
  unfold generate. destruct (parse_endpoint _); [by intros [= _ <-]|].
  destruct (_ && _); [by intros [= _ <-]|done].
Qed.

(** C33: A page costs at most six requests, and each one after the first is
    there because the one before it failed in a way worth retrying (429, 500,
    502, 503, 504 or no connection).  Every request goes to the endpoint's
    origin and target and carries the bearer key exactly when the call has one.
    And once a look at the cancel probe or the clock trips the call, nothing more
    is sent: whether that look is the probe before anything is sent, one before
    an attempt, one during or after it, or one during the backoff sleep behind
    it. *)
Theorem generate_requests `{Json} backoff_base_ms script call result sent :
  generate backoff_base_ms script call = (result, sent) →
  (length sent ≤ 6)%nat ∧
  (sent ≠ [] → vc_probed call && sc_before script = false) ∧
  (∀ k r, sent !! k = Some r →
     (∃ p, parse_endpoint (vc_endpoint call) = inr p ∧
        hr_origin r = pe_origin p ∧ hr_target r = pe_target p) ∧
     hr_authorization r = (if secret_is_empty (vc_api_key call) then None
                           else Some (lit "Bearer " ++ secret_value (vc_api_key call))) ∧
     Forall (quiet call) (looks_before (sc_attempt script k))) ∧
  (∀ k, (S k < length sent)%nat →
     retryable (at_response (sc_attempt script k)) = true ∧
     Forall (quiet call) (looks_after (sc_attempt script k)) ∧
     (0 < backoff_ms backoff_base_ms (S k) → Forall (quiet call) (at_sleeping (sc_attempt script k)))).
Proof.
  intros Hg. destruct (generate_sent _ _ _ _ _ Hg) as (Hlen & Hreq & Hret).
  split_and!; [done|by eapply generate_before|done|]. intros k Hk. destruct (Hret k Hk) as [Hr Hq].
  unfold looks_between in Hq. apply Forall_app in Hq as [Hafter Hsleep]. split_and!; [done..|].
  intros Hb%Z.ltb_lt. by rewrite Hb in Hsleep.
Qed.

Lemma generate_cancelled_facts `{Json} backoff_base_ms script call result sent :
  generate backoff_base_ms script call = (result, sent) → vr_cancelled result = true →
  vc_probed call = true ∧ cancels script ∧ vr_ok result = false ∧ vr_text result = [].
Proof.
  unfold generate. destruct (parse_endpoint _) as [problem|p]; [by intros [= <- _]|].
  destruct (vc_probed call && sc_before script) eqn:Hb.
  { intros [= <- _] _. apply andb_prop in Hb as [? ?]. split_and!; try done. by left. }
  pose proof (lp_caller _ _ _ _ _ _ (run_attempts_facts backoff_base_ms call p script
    (json_dump (request_body call)))) as Hc.
  destruct (run_attempts _ _ _ _ _) as [s|s]; [|by intros [= <- _]]. cbn [exit_state] in Hc.
  intros [= <- _]. unfold finish, report.
  set (guard := if is_200 (gl_response s) then gl_guard s else _).
  assert (Hg : cg_by_caller guard = true → vc_probed call = true ∧ cancels script).
  { subst guard. destruct (is_200 _); [done|]. intros [?|[? ?]]%poll_by_caller; [auto|].
    split; [done|]. right; by left. }
  destruct (negb _ && _).
  - destruct (cg_by_caller guard); [|done]. intros _. destruct Hg; [done|]. done.
  - destruct (gl_response s) as [status body|]; [|done]. destruct (status =? 200); [|done].
    rewrite read_completion_uncancelled. done.
Qed.

(** C34: A call counts as cancelled only when its caller's probe said so at some
    look, and then it brings back no text; a caller without a probe is never
    cancelled. *)
Theorem generate_cancelled `{Json} backoff_base_ms script call result sent :
  generate backoff_base_ms script call = (result, sent) → vr_cancelled result = true →
  vc_probed call = true ∧ cancels script ∧ vr_ok result = false ∧ vr_text result = [].
Proof. apply generate_cancelled_facts. Qed.

(** What an answered call brings back, and that nothing else brings a text. *)
Lemma generate_answer `{Json} backoff_base_ms script call result sent :
  generate backoff_base_ms script call = (result, sent) →
  (∀ k body, length sent = S k → at_response (sc_attempt script k) = Answered 200 body →
     result = read_completion body) ∧
  (vr_ok result = true →
     ∃ k body, length sent = S k ∧ at_response (sc_attempt script k) = Answered 200 body).
Proof.
  unfold generate. destruct (parse_endpoint _) as [problem|p]; [by intros [= <- <-]|].
  destruct (_ && _); [by intros [= <- <-]|].
  pose proof (run_attempts_facts backoff_base_ms call p script (json_dump (request_body call)))
    as [_ _ Hr Hun _].
  destruct (run_attempts _ _ _ _ _) as [s|s]; cbn [exit_state] in Hr; intros [= <- <-].
  - unfold finish, report. rewrite Hr. split.
    + intros k body -> Hk. cbn [last_response]. rewrite Hk. done.
    + destruct (length (gl_sent s)) as [|k]; cbn [last_response].
      { cbn. by destruct (cg_tripped _); [destruct (cg_by_caller _)|]. }
      destruct (at_response (sc_attempt script k)) as [status body|] eqn:E; cbn [is_200].
      * destruct (Z.eqb_spec status 200) as [->|]; cbn [negb andb]; [intros _; by exists k, body|].
        by destruct (cg_tripped _); [destruct (cg_by_caller _)|].
      * by destruct (cg_tripped _); [destruct (cg_by_caller _)|].
  - split; [|done]. intros k body Hlen Hk. rewrite Hr, Hlen in Hun. cbn in Hun. by rewrite Hk in Hun.
Qed.

(** C35: A page has a text exactly when the last request was answered 200 with a
    usable chat completion, even if the budget ran out or the caller left while
    that answer arrived; and whenever the last request was answered 200, the
    result is what that completion says. *)
Theorem generate_ok `{Json} backoff_base_ms script call result sent :
  generate backoff_base_ms script call = (result, sent) →
  (vr_ok result = true ↔
   ∃ k body, length sent = S k ∧ at_response (sc_attempt script k) = Answered 200 body ∧
     vr_ok (read_completion body) = true) ∧
  (∀ k body, length sent = S k → at_response (sc_attempt script k) = Answered 200 body →
     result = read_completion body).
Proof.
  intros [Hanswer Hok]%generate_answer. split; [split|exact Hanswer].
  - intros Ht. destruct (Hok Ht) as (k & body & Hlen & Hk). exists k, body.
    split_and!; [done..|]. by rewrite <- (Hanswer k body Hlen Hk).
  - intros (k & body & Hlen & Hk & Ht). by rewrite (Hanswer k body Hlen Hk).
Qed.

(** When a call runs out of budget during a backoff, its error counts one
    attempt too many: a single request was sent, answered 503, and the result
    says "after 2 attempts". *)
Theorem budget_error_overcounts `{Json} call p :
  parse_endpoint (vc_endpoint call) = inr p → vc_probed call = false →
  let quiet_look := mk_Poll false false in
  let attempt := mk_Attempt quiet_look true 1000 quiet_look [] (Answered 503 []) quiet_look
                   [mk_Poll false true] in
  ∃ r, generate 100 (mk_Script false (λ _, attempt) (mk_Poll false true)) call =
    (VlmResult_failed (lit "VLM call exceeded its " ++ to_string (vc_timeout_seconds call) ++
                       lit " s budget after 2 attempts"), [r]).
Proof.
  intros Hp Hprobed quiet_look attempt. eexists. unfold generate. rewrite Hp, Hprobed.
  cbn [andb]. unfold run_attempts, run_loop. cbn [loop kMaxRetries].
  unfold attempt_step. rewrite Hprobed.
  cbn -[request_of to_string VlmResult_failed finish].
  unfold finish. rewrite Hprobed. cbn -[request_of to_string VlmResult_failed].
  reflexivity.
Qed.

(** * Concrete instances *)

Definition toy_call : VlmCall :=
  mk_VlmCall (lit "http://vlm:8080") (lit "m") (lit "p") [] 64 0 true (lit "png") 300
    (mk_Secret (lit "key")) true.
Definition still : Poll := mk_Poll false false.
(** Two failures worth a retry, then an answer. *)
Definition toy_script (last : Response) : Script :=
  mk_Script false
    (λ k, mk_Attempt still true 1000 still [still]
       (match k with O => Answered 503 [] | 1%nat => Unanswered Connection | _ => last end) still [])
    still.
Definition cancelling_script : Script :=
  mk_Script false (λ _, mk_Attempt still true 1000 still [mk_Poll true false] (Unanswered OtherError)
                          still []) still.

Lemma generate_requests_witness :
  let '(result, sent) := @generate toy_json 0 (toy_script (Answered 200 (lit "ok"))) toy_call in
  length sent = 3%nat ∧ (length sent ≤ 6)%nat.
Proof.
  destruct (@generate toy_json 0 (toy_script (Answered 200 (lit "ok"))) toy_call) as [result sent] eqn:E.
  split; [|by apply (@generate_requests toy_json 0 (toy_script (Answered 200 (lit "ok"))) toy_call result sent)].
  apply (f_equal (length ∘ snd)) in E. vm_compute in E. cbn. by rewrite E.
Defined.

Lemma generate_ok_witness :
  ∃ result sent, @generate toy_json 0 (toy_script (Answered 200 (lit "ok"))) toy_call = (result, sent) ∧
    result = @read_completion toy_json (lit "ok") ∧
    vr_ok result = true ∧
    ∃ k body, length sent = S k ∧
      at_response (sc_attempt (toy_script (Answered 200 (lit "ok"))) k) = Answered 200 body.
Proof.
  destruct (@generate toy_json 0 (toy_script (Answered 200 (lit "ok"))) toy_call) as [result sent] eqn:E.
  exists result, sent. assert (Hlen : length sent = 3%nat).
  { apply (f_equal (length ∘ snd)) in E. vm_compute in E. by rewrite E. }
  destruct (@generate_ok toy_json 0 (toy_script (Answered 200 (lit "ok"))) toy_call result sent E)
    as [[Hthere Hback] Hanswer].
  split; [done|]. split; [by apply (Hanswer 2%nat)|].
  assert (Hok : vr_ok result = true).
  { apply Hback. exists 2%nat, (lit "ok"). split_and!; [done|done|by vm_compute]. }
  split; [done|]. destruct (Hthere Hok) as (k & body & ? & ? & _). by exists k, body.
Defined.

Lemma generate_cancelled_witness : cancels cancelling_script.
Proof.
  destruct (@generate toy_json 0 cancelling_script toy_call) as [result sent] eqn:E.
  assert (Hc : vr_cancelled result = true).
  { apply (f_equal fst) in E. cbn [fst] in E. rewrite <- E. by vm_compute. }
  by destruct (@generate_cancelled toy_json 0 cancelling_script toy_call result sent E Hc) as (_ & ? & _).
Defined.

Lemma budget_error_overcounts_witness :
  let call := mk_VlmCall (lit "http://vlm:8080") [] [] [] 1 0 true [] 300 Secret_empty false in
  ∃ script r, @generate toy_json 100 script call =
    (VlmResult_failed (lit "VLM call exceeded its 300 s budget after 2 attempts"), [r]).
Proof.
  intros call. eexists.
  destruct (@budget_error_overcounts toy_json call
    (mk_ParsedEndpoint (lit "http://vlm:8080") (lit "/v1/chat/completions") (lit "vlm") 8080))
    as [r Hr]; [vm_compute; reflexivity|reflexivity|]. exists r. exact Hr.
Defined.
