(* ===== verification/Watchdog.v ===== *)
(** [CallGuard] (src/vlm_client.cpp) as the two threads it is: the caller's, which
    runs the retry loop of [generate], and the watchdog, which cuts it short.
    They share a mutex, a condition variable, two atomics and a pointer to the
    client in flight.  What is proved: the watchdog only ever stops a client that
    exists, a call that trips comes to its end, and whatever the threads do, the
    result is one of the sequential [generate] of VlmClient.v. *)
From S2P Require Import Prelude Numbers Double Json Base64 Secret Endpoint Completion VlmClient.

(** Time, in nanoseconds, as [std::chrono] counts it. *)
Definition ns_per_ms : Z := 10 ^ 6.
Definition ns_per_second : Z := 10 ^ 9.
Definition kWatchInterval : Z := 50 * ns_per_ms.

(** * The shared state *)

(** [tripped()] takes the mutex nowhere, so its loads and stores are steps. *)
Inductive Look := Load | Ask | Clock | StoreCaller | StoreTripped | Reload.
(** [sh_left] is no variable of the program: whether the probe has answered true. *)
Record Shared := mk_Shared {
  sh_tripped : bool;
  sh_by_caller : bool;
  sh_client : option nat;   (** [client_]: the attempt whose client it is *)
  sh_done : bool;
  sh_now : Z;               (** the clock *)
  sh_left : bool }.

(** Where the caller's thread looks: with the mutex in [watch] and in
    [sleep_for] (the predicate, the one after a time-out, the answer). *)
Inductive Site := AtTop | AtWatch (remaining : Z) | AtAfter | AtSleep | AtTimeout | AtWoken | AtFinal.
(** [client.Post]: before the connect; inside it, where httplib holds the lock
    that [stop] needs; after it, where [stop] ends it and the upload hook runs. *)
Inductive Transport := Unsent | Connecting | Exchanging (stopped : bool) (hook : option Look).
Inductive Phase :=
  | Looking (site : Site) (pc : Look)
  | Construct                        (** the client and its timeouts *)
  | LockWatch (remaining : Z)        (** [guard.watch(&client)] wants the mutex *)
  | Posting (transport : Transport)
  | Unwatch                          (** [guard.watch(nullptr)] wants the mutex *)
  | DropClient (posted : bool)       (** the client's destructor *)
  | Answer                           (** the test for 200 *)
  | LockSleep | Sleeping | Relock    (** [sleep_for]: the mutex, the wait, the mutex again *)
  | LoopOver                         (** past the loop *)
  | Report (tripped : bool)
  | Destroy (result : VlmResult)     (** [~CallGuard] wants the mutex *)
  | NotifyDone (result : VlmResult)
  | JoinWatchdog (result : VlmResult)
  | Return (result : VlmResult).
(** [ca_answers] is no variable of the program: what the [Post]s gave. *)
Record Caller := mk_Caller {
  ca_phase : Phase;
  ca_response : Response;
  ca_retries : nat;
  ca_sent : list HttpRequest;
  ca_answers : list Response }.

(** [CallGuard::watch()]: it sleeps with the mutex free, until a time. *)
Inductive Dog :=
  | DogLock | DogTest | DogWas | DogLook (was_tripped : bool) (pc : Look) | DogNotify
  | DogStop | DogNext | DogWaits (next : Z) | DogOver.
Record System := mk_System { sy_shared : Shared; sy_caller : Caller; sy_dog : Dog }.

Definition caller_holds (phase : Phase) : bool :=
  match phase with Looking (AtWatch _ | AtSleep | AtTimeout | AtWoken) _ => true | _ => false end.
Definition dog_holds (dog : Dog) : bool :=
  match dog with DogTest | DogWas | DogLook _ _ | DogNotify | DogStop | DogNext => true | _ => false end.

Definition set_phase (phase : Phase) (c : Caller) : Caller :=
  mk_Caller phase (ca_response c) (ca_retries c) (ca_sent c) (ca_answers c).
Definition set_response (response : Response) (c : Caller) : Caller :=
  mk_Caller (ca_phase c) response (ca_retries c) (ca_sent c) (ca_answers c ++ [response]).
Definition set_client (client : option nat) (sh : Shared) : Shared :=
  mk_Shared (sh_tripped sh) (sh_by_caller sh) client (sh_done sh) (sh_now sh) (sh_left sh).
Definition set_done (sh : Shared) : Shared :=
  mk_Shared (sh_tripped sh) (sh_by_caller sh) (sh_client sh) true (sh_now sh) (sh_left sh).
Definition set_now (now : Z) (sh : Shared) : Shared :=
  mk_Shared (sh_tripped sh) (sh_by_caller sh) (sh_client sh) (sh_done sh) now (sh_left sh).
(** [wake_.notify_all()], for either thread. *)
Definition wake_dog (dog : Dog) : Dog := match dog with DogWaits _ => DogLock | _ => dog end.
Definition wake_caller (c : Caller) : Caller :=
  match ca_phase c with Sleeping => set_phase Relock c | _ => c end.

(** What the world answers at a step: the probe, [client.is_valid()], whether the
    connect succeeds, what [Post] gives. *)
Record World := mk_World {
  wo_cancelled : bool;
  wo_valid : bool;
  wo_connects : bool;
  wo_response : Response }.

Section Watchdog.
Context `{Json}.
Variable backoff_base_ms : Z.
Variables (call : VlmCall) (where_ : ParsedEndpoint).
(** When the guard was made. *)
Variable start : Z.
Definition deadline : Z := start + Z.max (vc_timeout_seconds call) 0 * ns_per_second.
Definition payload : bytes := json_dump (request_body call).

(** * The operations *)

(** One step of [tripped()]: the next one, or its answer. *)
Definition look_next (cancelled : bool) (pc : Look) (sh : Shared) : Shared * (Look + bool) :=
  let '(mk_Shared tripped by_caller client done now gone) := sh in
  match pc with
  | Load => (sh, if tripped then inr true else inl Ask)
  | Ask =>
      if vc_probed call && cancelled then (mk_Shared tripped by_caller client done now true, inl StoreCaller)
      else (sh, inl Clock)
  | Clock => (sh, inl (if deadline <=? now then StoreTripped else Reload))
  | StoreCaller => (mk_Shared tripped true client done now gone, inl StoreTripped)
  | StoreTripped => (mk_Shared true by_caller client done now gone, inl Reload)
  | Reload => (sh, inr tripped)
  end.

(** [remaining()], in milliseconds. *)
Definition remaining (now : Z) : Z := Z.max (Z.quot (deadline - now) ns_per_ms) 0.
(** When the watchdog looks next. *)
Definition next_look (tripped : bool) (now : Z) : Z :=
  if tripped then now + kWatchInterval
  else if vc_probed call then Z.min deadline (now + kWatchInterval)
  else deadline.

(** What the caller does with the answer of a [tripped()] of its own.  In [watch]
    a tripped call registers nothing; else the attempt is registered and sent. *)
Definition looked (site : Site) (tripped : bool) (sh : Shared) (c : Caller) : Shared * Caller :=
  match site with
  | AtTop => (sh, set_phase (if tripped then LoopOver else Construct) c)
  | AtWatch remaining =>
      if tripped then (set_client None sh, set_phase (DropClient false) c)
      else
        let attempt := mk_Attempt (mk_Poll false false) true remaining (mk_Poll false false) []
                         (Unanswered OtherError) (mk_Poll false false) [] in
        (set_client (Some (ca_retries c)) sh,
         mk_Caller (Posting Unsent) (ca_response c) (ca_retries c)
           (ca_sent c ++ [request_of call where_ payload attempt]) (ca_answers c))
  | AtAfter =>
      if tripped then (sh, set_phase LoopOver c)
      else if negb (retryable (ca_response c)) || bool_decide (ca_retries c = kMaxRetries) then
        (sh, set_phase LoopOver c)
      else
        let retries := S (ca_retries c) in
        (sh, mk_Caller (if 0 <? backoff_ms backoff_base_ms retries then LockSleep else Looking AtTop Load)
               (ca_response c) retries (ca_sent c) (ca_answers c))
  | AtSleep => (sh, set_phase (if tripped then Looking AtWoken Load else Sleeping) c)
  | AtTimeout => (sh, set_phase (Looking AtWoken Load) c)
  | AtWoken => (sh, set_phase (if tripped then LoopOver else Looking AtTop Load) c)
  | AtFinal => (sh, set_phase (Report tripped) c)
  end.

(** The next step of the caller's thread, with the mutex free or not; none while
    it waits for the mutex, a notification, the endpoint or the watchdog's end. *)
Definition caller_next (w : World) (s : System) : option System :=
  let '(mk_System sh c dog) := s in
  let go phase := Some (mk_System sh (set_phase phase c) dog) in
  let locked phase := if dog_holds dog then None else go phase in
  match ca_phase c with
  | Looking site pc =>
      let '(sh, next) := look_next (wo_cancelled w) pc sh in
      match next with
      | inl pc => Some (mk_System sh (set_phase (Looking site pc) c) dog)
      | inr tripped => let '(sh, c) := looked site tripped sh c in Some (mk_System sh c dog)
      end
  | Construct =>
      if wo_valid w then go (LockWatch (remaining (sh_now sh)))
      else go (Destroy (VlmResult_failed (lit "endpoint is not usable: " ++ pe_origin where_)))
  | LockWatch remaining => locked (Looking (AtWatch remaining) Load)
  | Posting Unsent => go (Posting Connecting)
  | Posting Connecting =>
      if wo_connects w then go (Posting (Exchanging false None))
      else Some (mk_System sh (set_phase Unwatch (set_response (wo_response w) c)) dog)
  | Posting (Exchanging _ None) => None
  | Posting (Exchanging stopped (Some pc)) =>
      let '(sh, next) := look_next (wo_cancelled w) pc sh in
      Some (mk_System sh (set_phase (Posting
        (match next with
         | inl pc => Exchanging stopped (Some pc)
         | inr tripped => Exchanging (stopped || tripped) None
         end)) c) dog)
  | Unwatch =>
      if dog_holds dog then None else Some (mk_System (set_client None sh) (set_phase (DropClient true) c) dog)
  | DropClient posted => go (if posted then Answer else LoopOver)
  | Answer => go (if is_200 (ca_response c) then LoopOver else Looking AtAfter Load)
  | LockSleep | Relock => locked (Looking AtSleep Load)
  | Sleeping => None
  | LoopOver => go (if is_200 (ca_response c) then Report false else Looking AtFinal Load)
  | Report tripped =>
      go (Destroy (report call where_ tripped (sh_by_caller sh) (ca_response c) (ca_retries c)))
  | Destroy result =>
      if dog_holds dog then None else Some (mk_System (set_done sh) (set_phase (NotifyDone result) c) dog)
  | NotifyDone result => Some (mk_System sh (set_phase (JoinWatchdog result) c) (wake_dog dog))
  | JoinWatchdog result => match dog with DogOver => go (Return result) | _ => None end
  | Return _ => None
  end.

(** The client of attempt [k], while it exists: what [stop] does to its [Post].
    None waits for the lock the connect holds. *)
Definition client_alive (k : nat) (c : Caller) : bool :=
  bool_decide (k = ca_retries c) &&
  match ca_phase c with LockWatch _ | Looking (AtWatch _) _ | Posting _ | Unwatch | DropClient _ => true | _ => false end.
Definition stop_client (c : Caller) : option Caller :=
  match ca_phase c with
  | Posting Connecting => None
  | Posting (Exchanging _ hook) => Some (set_phase (Posting (Exchanging true hook)) c)
  | _ => Some c
  end.
(** The next step of the watchdog; none while it waits, or where it would use a
    client that is gone. *)
Definition dog_next (w : World) (s : System) : option System :=
  let '(mk_System sh c dog) := s in
  let go dog := Some (mk_System sh c dog) in
  match dog with
  | DogLock => if caller_holds (ca_phase c) then None else go DogTest
  | DogTest => go (if sh_done sh then DogOver else DogWas)
  | DogWas => go (DogLook (sh_tripped sh) Load)
  | DogLook was_tripped pc =>
      let '(sh, next) := look_next (wo_cancelled w) pc sh in
      Some (mk_System sh c
        (match next with
         | inl pc => DogLook was_tripped pc
         | inr tripped => if tripped then if was_tripped then DogStop else DogNotify else DogNext
         end))
  | DogNotify => Some (mk_System sh (wake_caller c) DogStop)
  | DogStop =>
      match sh_client sh with
      | None => go DogNext
      | Some k =>
          if client_alive k c then c ← stop_client c; Some (mk_System sh c DogNext) else None
      end
  | DogNext => go (DogWaits (next_look (sh_tripped sh) (sh_now sh)))
  | DogWaits _ | DogOver => None
  end.
(** The watchdog's wait ends at its time. *)
Definition dog_wakes (s : System) : option System :=
  let '(mk_System sh c dog) := s in
  match dog with
  | DogWaits next => Some (mk_System (set_now (Z.max next (sh_now sh)) sh) c DogLock)
  | _ => None
  end.
(** [Post] returns; after a [stop] it does so at once. *)
Definition post_returns (w : World) (s : System) : option System :=
  let '(mk_System sh c dog) := s in
  match ca_phase c with
  | Posting (Exchanging _ None) => Some (mk_System sh (set_phase Unwatch (set_response (wo_response w) c)) dog)
  | _ => None
  end.

(** What happens without either thread's code: the clock goes on, a wait ends by
    time or without a cause, the endpoint answers, bytes are uploaded. *)
Inductive world_step : System → System → Prop :=
  | clock_ticks sh c dog now : sh_now sh ≤ now →
      world_step (mk_System sh c dog) (mk_System (set_now now sh) c dog)
  | dog_time s s' : dog_wakes s = Some s' → world_step s s'
  | dog_spurious sh c next : world_step (mk_System sh c (DogWaits next)) (mk_System sh c DogLock)
  | endpoint_answers w s s' : post_returns w s = Some s' → world_step s s'
  | upload_hook sh c dog stopped : ca_phase c = Posting (Exchanging stopped None) →
      world_step (mk_System sh c dog)
        (mk_System sh (set_phase (Posting (Exchanging stopped (Some Load))) c) dog)
  | sleep_spurious sh c dog : ca_phase c = Sleeping →
      world_step (mk_System sh c dog) (mk_System sh (set_phase Relock c) dog)
  | sleep_times_out sh c dog : ca_phase c = Sleeping → dog_holds dog = false →
      world_step (mk_System sh c dog) (mk_System sh (set_phase (Looking AtTimeout Load) c) dog).
Inductive guard_step (s s' : System) : Prop :=
  | guard_caller w : caller_next w s = Some s' → guard_step s s'
  | guard_dog w : dog_next w s = Some s' → guard_step s s'
  | guard_world : world_step s s' → guard_step s s'.

Definition System_start : System :=
  mk_System (mk_Shared false false None false start false)
    (mk_Caller (Looking AtTop Load) (Unanswered OtherError) 0 [] []) DogLock.

(** * What holds of every run *)

(** From the registration to [watch(nullptr)]. *)
Definition registered (phase : Phase) : bool :=
  match phase with Posting _ | Unwatch => true | _ => false end.
Definition finishing (phase : Phase) : bool :=
  match phase with NotifyDone _ | JoinWatchdog _ | Return _ => true | _ => false end.
(** The watchdog found the call tripped; it has yet to wake a sleeper. *)
Definition dog_saw_trip (dog : Dog) : bool :=
  match dog with DogLook true _ | DogNotify | DogStop => true | _ => false end.
Definition dog_will_notify (dog : Dog) : bool :=
  match dog with DogLook false _ | DogNotify => true | _ => false end.

(** The two threads' places against the flags: one holder of the mutex, [done_]
    set where the destructor has passed it, a sleeper that no notification
    missed, a watchdog that ends only then. *)
Definition control (tripped done : bool) (phase : Phase) (dog : Dog) : bool :=
  negb (caller_holds phase && dog_holds dog) && eqb done (finishing phase) &&
  match dog with DogOver => finishing phase | _ => true end &&
  match phase, dog with
  | NotifyDone _, (DogLock | DogTest | DogWaits _ | DogOver) => true
  | JoinWatchdog _, (DogLock | DogTest | DogOver) => true
  | Return _, DogOver => true
  | (NotifyDone _ | JoinWatchdog _ | Return _), _ => false
  | _, _ => true
  end &&
  implb (dog_saw_trip dog) tripped &&
  match phase with Sleeping => implb tripped (dog_will_notify dog) | Report true => tripped | _ => true end.

(** A trip has its cause, and the probe is asked only where there is one. *)
Record caused (sh : Shared) : Prop := {
  cu_tripped : sh_tripped sh = true → sh_by_caller sh = true ∨ deadline ≤ sh_now sh;
  cu_caller : sh_by_caller sh = true → sh_left sh = true;
  cu_left : sh_left sh = true → vc_probed call = true }.
Definition look_caused (sh : Shared) (pc : Look) : Prop :=
  match pc with
  | StoreCaller => sh_left sh = true
  | StoreTripped => sh_by_caller sh = true ∨ deadline ≤ sh_now sh
  | _ => True
  end.
Definition caller_look (phase : Phase) : option Look :=
  match phase with Looking _ pc | Posting (Exchanging _ (Some pc)) => Some pc | _ => None end.
Definition dog_look (dog : Dog) : option Look := match dog with DogLook _ pc => Some pc | _ => None end.

Record guard_inv (s : System) : Prop := {
  gi_control : control (sh_tripped (sy_shared s)) (sh_done (sy_shared s)) (ca_phase (sy_caller s)) (sy_dog s) = true;
  gi_client : sh_client (sy_shared s) =
    if registered (ca_phase (sy_caller s)) then Some (ca_retries (sy_caller s)) else None;
  gi_caused : caused (sy_shared s);
  gi_caller : ∀ pc, caller_look (ca_phase (sy_caller s)) = Some pc → look_caused (sy_shared s) pc;
  gi_dog : ∀ pc, dog_look (sy_dog s) = Some pc → look_caused (sy_shared s) pc }.

(** What a step does to the shared flags: they are only ever set. *)
Record shared_grows (sh sh' : Shared) : Prop := {
  sg_tripped : sh_tripped sh = true → sh_tripped sh' = true;
  sg_by_caller : sh_by_caller sh = true → sh_by_caller sh' = true;
  sg_left : sh_left sh = true → sh_left sh' = true;
  sg_now : sh_now sh ≤ sh_now sh' }.
#[local] Instance shared_grows_preorder : PreOrder shared_grows.
Proof. split; [by split|]. intros ??? [] []. split; auto; lia. Qed.
Lemma shared_grows_flags sh sh' :
  sh_tripped sh' = sh_tripped sh → sh_by_caller sh' = sh_by_caller sh → sh_left sh' = sh_left sh →
  sh_now sh ≤ sh_now sh' → shared_grows sh sh'.
Proof. intros H1 H2 H3 ?. split; by rewrite ?H1, ?H2, ?H3. Qed.
Lemma look_caused_grows sh sh' pc : shared_grows sh sh' → look_caused sh pc → look_caused sh' pc.
Proof. intros []. destruct pc; cbn; auto. intros [?|?]; [auto|right; lia]. Qed.
Lemma caused_grows sh sh' :
  sh_tripped sh' = sh_tripped sh → sh_by_caller sh' = sh_by_caller sh → sh_left sh' = sh_left sh →
  sh_now sh ≤ sh_now sh' → caused sh → caused sh'.
Proof.
  intros H1 H2 H3 ? [Ht ? ?]. split; rewrite ?H1, ?H2, ?H3; auto. intros [?|?]%Ht; [auto|right; lia].
Qed.

(** One step of [tripped()]. *)
Record look_spec (sh sh' : Shared) (next : Look + bool) : Prop := {
  ls_grows : shared_grows sh sh';
  ls_caused : caused sh';
  ls_client : sh_client sh' = sh_client sh;
  ls_done : sh_done sh' = sh_done sh;
  ls_pc : ∀ pc, next = inl pc → look_caused sh' pc;
  ls_answer : ∀ tripped, next = inr tripped → sh_tripped sh' = tripped ∧ sh_tripped sh = tripped }.
Lemma look_next_spec cancelled pc sh sh' next :
  look_next cancelled pc sh = (sh', next) → caused sh → look_caused sh pc → look_spec sh sh' next.
Proof.
  intros E Hc Hpc. pose proof Hc as [Ht Hb Hl]. destruct sh as [tripped by_caller client done now gone].
  destruct pc; cbn in *; repeat case_match; simplify_eq/=; split; cbn; try done;
    try (by intros ? [= <-]); try (split; cbn; auto; done); try (by intros ? [= <-]; cbn; auto).
  - split; cbn; auto. intros _. by destruct (vc_probed call).
  - intros ? [= <-]. right. by apply Z.leb_le.
Qed.

(** What a [tripped()] of the caller's leads to keeps the threads' places. *)
Lemma looked_control site pc tripped sh c sh' c' dog :
  looked site tripped sh c = (sh', c') → sh_tripped sh = tripped →
  control tripped (sh_done sh) (Looking site pc) dog = true →
  control tripped (sh_done sh') (ca_phase c') dog = true.
Proof.
  unfold looked. intros E Ht. destruct site, tripped; cbn in E; repeat case_match; simplify_eq; cbn;
    destruct dog as [| | |[]| | | | |], (sh_done _); done.
Qed.
Lemma looked_client site tripped sh c sh' c' :
  looked site tripped sh c = (sh', c') → sh_client sh = None →
  sh_client sh' = (if registered (ca_phase c') then Some (ca_retries c') else None) ∧
  sh_tripped sh' = sh_tripped sh ∧ shared_grows sh sh' ∧ (caused sh → caused sh') ∧
  (∀ pc, caller_look (ca_phase c') = Some pc → pc = Load).
Proof.
  intros E Hcl. destruct site, tripped; cbn in E; repeat case_match; simplify_eq; cbn;
    (split_and!; [done|done|by apply shared_grows_flags|by apply caused_grows|by intros ? [= <-]]).
Qed.
(** More places keep it whatever the flag becomes. *)
Ltac control_cases :=
  cbn; repeat match goal with
  | b : bool |- _ => destruct b
  | dog : Dog |- _ => destruct dog
  | site : Site |- _ => destruct site
  | hook : option Look |- _ => destruct hook
  end; cbn in *; try done; intuition congruence.
Lemma control_looking tripped tripped' done site pc pc' dog :
  control tripped done (Looking site pc) dog = true → (tripped = true → tripped' = true) →
  control tripped' done (Looking site pc') dog = true.
Proof. control_cases. Qed.
Lemma control_posting tripped tripped' done transport transport' dog :
  control tripped done (Posting transport) dog = true → (tripped = true → tripped' = true) →
  control tripped' done (Posting transport') dog = true.
Proof. control_cases. Qed.

Lemma dog_look_grows sh sh' dog :
  shared_grows sh sh' → (∀ pc, dog_look dog = Some pc → look_caused sh pc) →
  ∀ pc, dog_look dog = Some pc → look_caused sh' pc.
Proof. intros Hg Hd pc Hpc. eapply look_caused_grows; eauto. Qed.

(** The caller's steps that are no look. *)
Lemma caller_plain_inv w sh c dog s' :
  guard_inv (mk_System sh c dog) → caller_look (ca_phase c) = None →
  caller_next w (mk_System sh c dog) = Some s' → guard_inv s' ∧ shared_grows sh (sy_shared s').
Proof.
  intros [Hcon Hcl Hca _ Hd] Hph E. cbn in *. unfold caller_next in E.
  assert (∀ sh', sh_tripped sh' = sh_tripped sh → sh_by_caller sh' = sh_by_caller sh → sh_left sh' = sh_left sh →
    sh_now sh' = sh_now sh → shared_grows sh sh' ∧ caused sh' ∧ ∀ pc, dog_look dog = Some pc → look_caused sh' pc) as Hkeep.
  { intros sh' ????. assert (shared_grows sh sh') by (apply shared_grows_flags; auto; lia).
    split_and!; [done|eapply caused_grows; eauto; lia|by eapply dog_look_grows]. }
  destruct (Hkeep sh) as (?&?&?); [done..|].
  destruct (Hkeep (set_client None sh)) as (?&?&?); [done..|].
  destruct (Hkeep (set_done sh)) as (?&?&?); [done..|]. clear Hkeep.
  destruct sh as [tripped by_caller client done now gone], c as [phase response retries sent answers]. cbn in *.
  destruct phase; try destruct transport as [| |stopped []]; try discriminate;
    repeat case_match; simplify_eq; (split; [split; cbn; try done|done]);
    try (by intros ? [= <-]); revert Hcon; control_cases.
Qed.
(** The caller's looks, at a site or in the upload hook. *)
Lemma caller_look_inv w sh c dog pc s' :
  guard_inv (mk_System sh c dog) → caller_look (ca_phase c) = Some pc →
  caller_next w (mk_System sh c dog) = Some s' → guard_inv s' ∧ shared_grows sh (sy_shared s').
Proof.
  intros [Hcon Hcl Hca Hcp Hd] Hph E. cbn in *. specialize (Hcp _ Hph). unfold caller_next in E.
  destruct (look_next (wo_cancelled w) pc sh) as [sh1 next] eqn:El.
  destruct (look_next_spec _ _ _ _ _ El Hca Hcp) as [Hg Hca1 Hcl1 Hdn1 Hpc Hans].
  pose proof (dog_look_grows _ _ _ Hg Hd) as Hd1. pose proof (sg_tripped _ _ Hg) as Ht.
  destruct (ca_phase c) as [site pc1| | |[| |stopped [pc1|]]| | | | | | | | | | | |] eqn:Ep; try done;
    injection Hph as ->; rewrite El in E.
  - destruct next as [pc'|tripped]; [|destruct (Hans _ eq_refl) as [Ht1 Ht0]; destruct (looked _ _ _ _) as [sh2 c2] eqn:Ek];
      injection E as <-; cbn in *.
    + split; [|done]. split; cbn; auto; [rewrite Hdn1; by eapply control_looking|by rewrite Hcl1|by intros ? [= <-]; auto].
    + destruct (looked_client _ _ _ _ _ _ Ek ltac:(by rewrite Hcl1, Hcl)) as (?&Ht2&Hg2&?&Hload). split; [|by etrans].
      split; cbn; auto; [|by intros p ->%Hload|by eapply dog_look_grows].
      rewrite <- Hdn1, Ht0 in Hcon. pose proof (looked_control _ pc _ _ _ _ _ dog Ek Ht1 Hcon) as Hc2.
      by rewrite Ht2, Ht1.
  - injection E as <-. split; [|done]. split; cbn; auto; [rewrite Hdn1; by eapply control_posting|by rewrite Hcl1|].
    destruct next as [pc'|]; [|done]. by intros ? [= <-]; auto.
Qed.
Lemma caller_next_inv w s s' :
  guard_inv s → caller_next w s = Some s' → guard_inv s' ∧ shared_grows (sy_shared s) (sy_shared s').
Proof.
  destruct s as [sh c dog]. intros Hinv E. destruct (caller_look (ca_phase c)) eqn:El;
    [by eapply caller_look_inv|by eapply caller_plain_inv].
Qed.

(** The watchdog's. *)
Ltac phase_cases phase :=
  destruct phase as [[] ?| | |[| |? [?|]]| |[]| | | | | |[]| | | |].
Lemma control_dog_look tripped tripped' done phase was pc pc' :
  control tripped done phase (DogLook was pc) = true → (tripped = true → tripped' = true) →
  control tripped' done phase (DogLook was pc') = true.
Proof. phase_cases phase; control_cases. Qed.
Lemma control_dog_answer tripped done phase was pc :
  control tripped done phase (DogLook was pc) = true →
  control tripped done phase
    (if tripped then if was then DogStop else DogNotify else DogNext) = true.
Proof. phase_cases phase; control_cases. Qed.

Lemma dog_look_inv w sh c was pc s' :
  guard_inv (mk_System sh c (DogLook was pc)) → dog_next w (mk_System sh c (DogLook was pc)) = Some s' →
  guard_inv s' ∧ shared_grows sh (sy_shared s').
Proof.
  intros [Hcon Hcl Hca Hcp Hd] E. cbn in *. destruct (look_next _ _ _) as [sh1 next] eqn:El.
  destruct (look_next_spec _ _ _ _ _ El Hca (Hd _ eq_refl)) as [Hg Hca1 Hcl1 Hdn1 Hpc Hans].
  injection E as <-. split; [|done]. split; cbn; [|by rewrite Hcl1|done| |].
  - rewrite Hdn1. destruct next as [pc'|tripped].
    + eapply control_dog_look; [done|apply (sg_tripped _ _ Hg)].
    + destruct (Hans _ eq_refl) as [-> Ht]. rewrite Ht in Hcon. by eapply control_dog_answer.
  - intros p Hp. eapply look_caused_grows; [done|by apply Hcp].
  - destruct next as [pc'|[]]; [by intros ? [= <-]; apply Hpc| |done]. by destruct was.
Qed.
Lemma dog_plain_inv w sh c dog s' :
  guard_inv (mk_System sh c dog) → dog_look dog = None → dog_next w (mk_System sh c dog) = Some s' →
  guard_inv s' ∧ sy_shared s' = sh.
Proof.
  intros [Hcon Hcl Hca Hcp Hd] Hl E. cbn in *.
  destruct sh as [tripped by_caller client done now gone], c as [phase response retries sent answers]. cbn in *.
  destruct dog; cbn in E; try done; unfold stop_client, wake_caller in E; cbn in E;
    repeat case_match; simplify_eq/=; (split; [split; cbn; try done|done]);
    try (by intros ? [= <-]); revert Hcon; repeat match goal with H : _ = _ |- _ => revert H end;
    try phase_cases phase; control_cases.
Qed.
Lemma dog_next_inv w s s' :
  guard_inv s → dog_next w s = Some s' → guard_inv s' ∧ shared_grows (sy_shared s) (sy_shared s').
Proof.
  destruct s as [sh c dog]. intros Hinv E. destruct (dog_look dog) as [pc|] eqn:El.
  - destruct dog; try done. by eapply dog_look_inv.
  - destruct (dog_plain_inv w sh c dog s' Hinv El E) as [? ->]. done.
Qed.

(** The world's. *)
Lemma guard_inv_shared sh sh' c dog :
  guard_inv (mk_System sh c dog) → sh_tripped sh' = sh_tripped sh → sh_by_caller sh' = sh_by_caller sh →
  sh_client sh' = sh_client sh → sh_done sh' = sh_done sh → sh_left sh' = sh_left sh → sh_now sh ≤ sh_now sh' →
  guard_inv (mk_System sh' c dog).
Proof.
  intros [] H1 H2 H3 H4 H5 ?. cbn in *. assert (shared_grows sh sh') by by apply shared_grows_flags.
  split; cbn; rewrite ?H1, ?H3, ?H4; try done; [by eapply caused_grows|intros; eapply look_caused_grows; eauto..].
Qed.
(** A step that only moves the threads, and not their looks. *)
Lemma guard_inv_move sh c dog c' dog' :
  guard_inv (mk_System sh c dog) → control (sh_tripped sh) (sh_done sh) (ca_phase c') dog' = true →
  registered (ca_phase c') = registered (ca_phase c) → ca_retries c' = ca_retries c →
  (∀ pc, caller_look (ca_phase c') = Some pc → pc = Load) → dog_look dog' = dog_look dog →
  guard_inv (mk_System sh c' dog').
Proof.
  intros [Hcon Hcl Hca Hcp Hd] ? Hr Hn Hc Hdog. cbn in *.
  split; cbn; rewrite ?Hr, ?Hn, ?Hdog; auto. by intros pc ->%Hc.
Qed.
Lemma control_woken tripped done phase next :
  control tripped done phase (DogWaits next) = true → control tripped done phase DogLock = true.
Proof. phase_cases phase; control_cases. Qed.
Lemma control_slept tripped done phase dog :
  control tripped done Sleeping dog = true →
  phase = Relock ∨ phase = Looking AtTimeout Load ∧ dog_holds dog = false →
  control tripped done phase dog = true.
Proof. intros ? [->|[-> ?]]; control_cases. Qed.
Lemma world_step_inv s s' :
  guard_inv s → world_step s s' → guard_inv s' ∧ shared_grows (sy_shared s) (sy_shared s').
Proof.
  intros Hinv Hs. pose proof (gi_control _ Hinv) as Hcon.
  destruct Hs as [sh c dog now Hnow|s s' E|sh c next|w s s' E|sh c dog stopped Hp|sh c dog Hp|sh c dog Hp Hfree].
  2: {
    destruct s as [sh c []]; simplify_eq/=. split; [|apply shared_grows_flags; cbn; auto; lia].
    eapply (guard_inv_shared sh); try done; [|cbn; lia]. split; cbn; try by apply Hinv.
    by eapply control_woken. }
  1: { split; [by eapply guard_inv_shared|by apply shared_grows_flags]. }
  1: { split; [|done]. split; cbn; try by apply Hinv. by eapply control_woken. }
  2-4: cbn in *; rewrite Hp in Hcon; (split; [|done]); eapply guard_inv_move; try done; cbn; rewrite ?Hp; try done;
    try (by intros ? [= <-]); first [by eapply control_posting|by eapply control_slept; eauto].
  destruct s as [sh c dog]. cbn in *. destruct (ca_phase c) eqn:Hp; try done. destruct transport as [| |stopped []]; simplify_eq.
  split; [|done]. eapply guard_inv_move; try done; cbn; rewrite ?Hp; try done.
Qed.

Lemma guard_step_inv s s' :
  guard_inv s → guard_step s s' → guard_inv s' ∧ shared_grows (sy_shared s) (sy_shared s').
Proof. intros Hinv [w E|w E|E]; [by eapply caller_next_inv|by eapply dog_next_inv|by eapply world_step_inv]. Qed.
Lemma guard_inv_start : guard_inv System_start.
Proof. split; cbn; try done. by intros ? [= <-]. Qed.
Lemma guard_inv_run s s' : rtc guard_step s s' → guard_inv s → guard_inv s'.
Proof. induction 1 as [|s t s' Hs _ IH]; [done|]. intros Hinv. apply IH. by eapply guard_step_inv. Qed.

(** The watchdog sleeps until the deadline at most, and for one interval at most
    where there is a probe to ask or an attempt to stop again. *)
Definition waits_bounded (s : System) : Prop :=
  ∀ next, sy_dog s = DogWaits next →
    next ≤ sh_now (sy_shared s) + kWatchInterval ∨ vc_probed call = false ∧ next = deadline.
Lemma next_look_bounded tripped now :
  next_look tripped now ≤ now + kWatchInterval ∨ vc_probed call = false ∧ next_look tripped now = deadline.
Proof. unfold next_look. destruct tripped, (vc_probed call); first [left; lia|by right]. Qed.
Lemma guard_step_dog s s' next :
  guard_step s s' → sy_dog s' = DogWaits next →
  sy_dog s = DogWaits next ∨ next = next_look (sh_tripped (sy_shared s')) (sh_now (sy_shared s')).
Proof.
  destruct s as [sh c dog]. intros [w E|w E|E] Hd.
  - left. unfold caller_next in E. repeat case_match; simplify_eq/=; try done. by destruct dog.
  - unfold dog_next in E. destruct dog; cbn in E; try (destruct (look_next _ _ _)); repeat case_match; simplify_eq/=; auto;
      unfold stop_client in *; repeat case_match; simplify_eq/=.
  - left. inversion E; simplify_eq/=; try done.
    + destruct dog; simplify_eq/=.
    + repeat case_match; by simplify_eq/=.
Qed.
Lemma waits_bounded_run s s' : rtc guard_step s s' → guard_inv s → waits_bounded s → waits_bounded s'.
Proof.
  induction 1 as [|s t s' Hs _ IH]; [done|]. intros Hinv Hw. destruct (guard_step_inv s t Hinv Hs) as [Ht Hg].
  apply IH; [done|]. intros next Hd. destruct (guard_step_dog _ _ _ Hs Hd) as [Hd'| ->]; [|apply next_look_bounded].
  pose proof (sg_now _ _ Hg). destruct (Hw _ Hd'); [left; lia|by right].
Qed.

(** * The end of a tripped call *)

(** The steps that need nobody's good will: the threads' own (a connect ends by
    its own timeout), [Post] returning from a stopped client, and the watchdog's
    interval running out while an attempt is left to stop. *)
Inductive progress_step (s s' : System) : Prop :=
  | progress_caller w : caller_next w s = Some s' → progress_step s s'
  | progress_dog w : dog_next w s = Some s' → progress_step s s'
  | progress_stopped w : ca_phase (sy_caller s) = Posting (Exchanging true None) →
      post_returns w s = Some s' → progress_step s s'
  | progress_interval : ca_phase (sy_caller s) = Posting (Exchanging false None) →
      dog_wakes s = Some s' → progress_step s s'.
Lemma progress_guard_step s s' : progress_step s s' → guard_step s s'.
Proof.
  intros [w E|w E|w _ E|_ E]; [by eapply guard_caller|by eapply guard_dog|apply guard_world..];
    [by eapply endpoint_answers|by apply dog_time].
Qed.

(** How far each thread is from its end, the call being tripped. *)
Definition look_rank (pc : Look) : nat :=
  match pc with Load => 5 | Ask => 4 | Clock | StoreCaller => 3 | StoreTripped => 2 | Reload => 1 end.
Definition phase_rank (phase : Phase) : nat :=
  match phase with
  | Posting Unsent => 27 | Posting Connecting => 26
  | Posting (Exchanging false (Some pc)) => 20 + look_rank pc
  | Posting (Exchanging false None) => 20
  | Posting (Exchanging true (Some pc)) => 19 + look_rank pc
  | Posting (Exchanging true None) => 19
  | Unwatch => 18 | DropClient true => 17 | Answer => 16
  | Construct => 18 | LockWatch _ => 17 | Looking (AtWatch _) pc => 11 + look_rank pc | DropClient false => 11
  | Sleeping => 22 | LockSleep | Relock => 21
  | Looking (AtSleep | AtTimeout) pc => 15 + look_rank pc
  | Looking (AtTop | AtAfter | AtWoken) pc => 10 + look_rank pc
  | LoopOver => 10 | Looking AtFinal pc => 4 + look_rank pc | Report _ => 4
  | Destroy _ => 3 | NotifyDone _ => 2 | JoinWatchdog _ => 1 | Return _ => 0
  end.
(** A client in flight makes the watchdog go round once more. *)
Definition dog_rank (phase : Phase) (dog : Dog) : nat :=
  let unstopped := match phase with Posting (Exchanging false None) => true | _ => false end in
  match dog with
  | DogNext => if unstopped then 15 else 3
  | DogWaits _ => if unstopped then 14 else 2
  | DogLock => 13 | DogTest => 12 | DogWas => 11 | DogLook _ pc => 5 + look_rank pc
  | DogNotify => 5 | DogStop => 4 | DogOver => 0
  end.
Definition system_rank (s : System) : nat :=
  16 * phase_rank (ca_phase (sy_caller s)) + dog_rank (ca_phase (sy_caller s)) (sy_dog s).
Lemma look_rank_bound pc : (1 ≤ look_rank pc ≤ 5)%nat.
Proof. destruct pc; cbn; lia. Qed.
Lemma dog_rank_bound phase dog : (dog_rank phase dog < 16)%nat.
Proof. unfold dog_rank. destruct dog as [| | |was pc| | | | |]; repeat case_match; try pose proof (look_rank_bound pc); lia. Qed.
Lemma system_rank_bound s : (system_rank s ≤ 447)%nat.
Proof.
  unfold system_rank. pose proof (dog_rank_bound (ca_phase (sy_caller s)) (sy_dog s)).
  enough (phase_rank (ca_phase (sy_caller s)) ≤ 27)%nat by lia. unfold phase_rank.
  repeat case_match; try match goal with pc : Look |- _ => pose proof (look_rank_bound pc) end; lia.
Qed.

Lemma look_next_rank cancelled pc sh sh' next :
  sh_tripped sh = true → look_next cancelled pc sh = (sh', next) →
  match next with inl pc' => (look_rank pc' < look_rank pc)%nat | inr tripped => tripped = true end.
Proof. destruct sh, pc; cbn; intros; repeat case_match; simplify_eq/=; lia || done. Qed.
Lemma caller_next_rank w s s' :
  sh_tripped (sy_shared s) = true → caller_next w s = Some s' →
  (phase_rank (ca_phase (sy_caller s')) < phase_rank (ca_phase (sy_caller s)))%nat.
Proof.
  destruct s as [sh c dog]. cbn. intros Ht E. unfold caller_next in E. destruct (ca_phase c) as [site pc| | |[| |stopped [pc|]]| |posted| | | | | | | | | |] eqn:Hp;
    repeat case_match; simplify_eq/=; try lia.
  all: try match goal with H : look_next _ _ _ = _ |- _ => apply (look_next_rank _ _ _ _ _ Ht) in H end.
  all: try match goal with pc : Look |- _ => pose proof (look_rank_bound pc) end.
  all: try (destruct site; cbn; lia).
  all: repeat match goal with b : bool |- _ => destruct b end; simplify_eq/=; try lia.
  all: destruct site; simplify_eq/=; lia.
Qed.
Lemma system_rank_phase s s' :
  (phase_rank (ca_phase (sy_caller s')) < phase_rank (ca_phase (sy_caller s)))%nat → (system_rank s' < system_rank s)%nat.
Proof. unfold system_rank. pose proof (dog_rank_bound (ca_phase (sy_caller s')) (sy_dog s')). lia. Qed.
Lemma system_rank_dog sh sh' c dog dog' :
  (dog_rank (ca_phase c) dog' < dog_rank (ca_phase c) dog)%nat →
  (system_rank (mk_System sh' c dog') < system_rank (mk_System sh c dog))%nat.
Proof. unfold system_rank. cbn [sy_caller sy_dog]. lia. Qed.
(** After a [stop] the watchdog has nothing left to stop. *)
Lemma stop_client_rank sh c c' :
  stop_client c = Some c' → (system_rank (mk_System sh c' DogNext) < system_rank (mk_System sh c DogStop))%nat.
Proof.
  unfold stop_client, system_rank.
  intros E. destruct (ca_phase c) as [| | |[| |[] []]| | | | | | | | | | | |] eqn:Hp; simplify_eq/=; rewrite ?Hp; cbn; lia.
Qed.
Lemma dog_next_rank w s s' :
  guard_inv s → sh_tripped (sy_shared s) = true → dog_next w s = Some s' → (system_rank s' < system_rank s)%nat.
Proof.
  destruct s as [sh c dog]. intros Hinv Ht E. cbn in Ht.
  destruct dog as [| | |was pc| | | | |]; cbn in E; try done.
  - case_match; simplify_eq. apply system_rank_dog. cbn. lia.
  - case_match; simplify_eq; apply system_rank_dog; cbn; lia.
  - simplify_eq. apply system_rank_dog. cbn. lia.
  - destruct (look_next _ _ _) as [sh1 next] eqn:El. apply (look_next_rank _ _ _ _ _ Ht) in El.
    pose proof (look_rank_bound pc). destruct next as [pc'| ?]; simplify_eq; apply system_rank_dog; cbn; [lia|].
    destruct was; cbn; lia.
  - simplify_eq. unfold wake_caller. destruct (ca_phase c) eqn:Hp; try (apply system_rank_dog; cbn; lia).
    apply system_rank_phase. cbn. rewrite Hp. cbn. lia.
  - pose proof (gi_client _ Hinv) as Hcl. cbn in Hcl. destruct (sh_client sh) as [k|].
    + destruct (client_alive k c); [|done]. destruct (stop_client c) as [c'|] eqn:Es; simplify_eq/=. by apply stop_client_rank.
    + simplify_eq. apply system_rank_dog. destruct (ca_phase c) as [| | |[]| | | | | | | | | | | |]; try done; cbn; lia.
  - simplify_eq. apply system_rank_dog. cbn. case_match; lia.
Qed.
Lemma progress_rank s s' :
  guard_inv s → sh_tripped (sy_shared s) = true → progress_step s s' → (system_rank s' < system_rank s)%nat.
Proof.
  intros Hinv Ht [w E|w E|w Hp E|Hp E].
  - apply caller_next_rank in E; [|done]. by apply system_rank_phase.
  - by eapply dog_next_rank.
  - apply system_rank_phase. destruct s as [sh c dog]. cbn in *. rewrite Hp in *. simplify_eq/=. lia.
  - destruct s as [sh c []]; simplify_eq/=. apply system_rank_dog. rewrite Hp. cbn. lia.
Qed.

(** Some thread can go on: the mutex is given back, the sleeper is woken, the
    attempt in flight is stopped, the watchdog ends. *)
Lemma dog_enabled w s :
  guard_inv s → dog_holds (sy_dog s) = true → ca_phase (sy_caller s) ≠ Posting Connecting →
  is_Some (dog_next w s).
Proof.
  destruct s as [sh c dog]. intros Hinv Hh Hne. pose proof (gi_client _ Hinv) as Hcl. cbn in *.
  destruct dog as [| | |was pc| | | | |]; try done; cbn; try by eexists.
  - destruct (look_next _ _ _). by eexists.
  - rewrite Hcl. destruct (registered (ca_phase c)) eqn:Hr; [|by eexists].
    unfold client_alive, stop_client. rewrite bool_decide_eq_true_2 by done.
    destruct (ca_phase c) as [| | |[]| | | | | | | | | | | |]; try done; by eexists.
Qed.
Lemma control_sleeping done dog : control true done Sleeping dog = true → dog_holds dog = true.
Proof. control_cases. Qed.
Definition quiet_world : World := mk_World false true true (Unanswered OtherError).
Lemma progress_enabled s :
  guard_inv s → sh_tripped (sy_shared s) = true → (∀ result, ca_phase (sy_caller s) ≠ Return result) →
  ∃ s', progress_step s s'.
Proof.
  intros Hinv Ht Hne.
  assert (is_Some (dog_next quiet_world s) → ∃ s', progress_step s s') as Hdog by (intros [s' ?]; exists s'; by eapply progress_dog).
  destruct (caller_next quiet_world s) as [s'|] eqn:E; [exists s'; by eapply progress_caller|].
  pose proof (gi_control _ Hinv) as Hcon. pose proof (dog_enabled quiet_world s Hinv) as Hen.
  destruct s as [sh c dog]. unfold caller_next in E. cbn in *. rewrite Ht in Hcon.
  destruct (ca_phase c) as [site pc| | |[| |stopped [pc|]]| |posted| | | | | | | | | |] eqn:Hp; simplify_eq/=;
    try (destruct (look_next _ _ _) as [? []]; try destruct (looked _ _ _ _); done);
    try (destruct (dog_holds dog) eqn:Hh; [by apply Hdog, Hen|done]).
  - destruct stopped.
    + eexists. eapply (progress_stopped _ _ quiet_world); cbn; [done|]. by rewrite Hp.
    + destruct dog as [| | | | | | |next|] eqn:Hd; try by apply Hdog, Hen.
      * apply Hdog. by eexists.
      * eexists. by apply progress_interval.
      * revert Hcon. by destruct (sh_done sh).
  - apply Hdog, Hen; [by eapply control_sleeping|done].
  - destruct dog; try done; try (by apply Hdog, Hen); try (apply Hdog; by eexists);
      revert Hcon; by destruct (sh_done sh).
  - by destruct (Hne result).
Qed.

(** Once the call has tripped no attempt is registered any more. *)
Lemma caller_next_sent w s s' :
  guard_inv s → sh_tripped (sy_shared s) = true → caller_next w s = Some s' →
  ca_sent (sy_caller s') = ca_sent (sy_caller s).
Proof.
  destruct s as [sh c dog]. cbn. intros Hinv Ht E. unfold caller_next in E.
  destruct (ca_phase c) as [site pc| | |[| |stopped [pc|]]| |posted| | | | | | | | | |] eqn:Hp;
    repeat case_match; simplify_eq/=; try done.
  match goal with H : look_next _ _ _ = _ |- _ => apply (look_next_rank _ _ _ _ _ Ht) in H end.
  subst. destruct site; simplify_eq/=; try done.
Qed.
Lemma guard_step_sent s s' :
  guard_inv s → sh_tripped (sy_shared s) = true → guard_step s s' → ca_sent (sy_caller s') = ca_sent (sy_caller s).
Proof.
  intros Hinv Ht [w E|w E|E]; [by eapply caller_next_sent|..].
  - destruct s as [sh c dog]. cbn in *. unfold dog_next, stop_client, wake_caller in E. repeat case_match; by simplify_eq/=.
  - destruct E; try done.
    + destruct s as [sh c []]; by simplify_eq/=.
    + unfold post_returns in *. repeat case_match; by simplify_eq/=.
Qed.
Lemma guard_run_sent s s' :
  rtc guard_step s s' → guard_inv s → sh_tripped (sy_shared s) = true → ca_sent (sy_caller s') = ca_sent (sy_caller s).
Proof.
  induction 1 as [|s t s' Hs _ IH]; [done|]. intros Hinv Ht. rewrite <- (guard_step_sent s t) by done.
  apply guard_step_inv in Hs as [? [Hg _ _ _]]; auto.
Qed.

(** * The sequential call *)

Let probed := vc_probed call.
Definition run (script : Script) : Exit := run_attempts backoff_base_ms call where_ script payload.
Definition extends (script : Script) (attempts : list Attempt) : Prop :=
  ∀ k a, attempts !! k = Some a → sc_attempt script k = a.
(** After these attempts the loop of [generate] stands where the caller does. *)
Definition reaches (attempts : list Attempt) (response : Response) (retries : nat) (sent : list HttpRequest) : Prop :=
  length attempts = retries ∧ (retries ≤ kMaxRetries)%nat ∧
  ∀ script, extends script attempts →
    run script = run_loop (Broke Loop_init) (S (S kMaxRetries) - retries)
      (attempt_step backoff_base_ms call where_ script payload) (mk_Loop CallGuard_new response retries sent).

Lemma reaches_start : reaches [] (Unanswered OtherError) 0 [].
Proof. split_and!; [done|lia|done]. Qed.
Lemma extends_app script attempts a :
  extends script (attempts ++ [a]) → extends script attempts ∧ sc_attempt script (length attempts) = a.
Proof.
  intros He. split; [intros k b Hk; apply He; by apply lookup_app_l_Some|].
  apply He. rewrite lookup_app_r by done. by rewrite Nat.sub_diag.
Qed.
(** One attempt more. *)
Lemma reaches_step attempts response retries sent a script :
  reaches attempts response retries sent → extends script (attempts ++ [a]) →
  run script =
    match attempt_step backoff_base_ms call where_ script payload (mk_Loop CallGuard_new response retries sent) with
    | inl s => run_loop (Broke Loop_init) (S kMaxRetries - retries) (attempt_step backoff_base_ms call where_ script payload) s
    | inr e => e
    end ∧ sc_attempt script retries = a.
Proof.
  intros (<- & Hle & Hr) [He Ha]%extends_app. split; [|done]. rewrite Hr by done.
  replace (S (S kMaxRetries) - length attempts)%nat with (S (S kMaxRetries - length attempts)) by lia.
  unfold run_loop. cbn [loop]. by destruct (attempt_step _ _ _ _ _ _).
Qed.
Lemma poll_still guard : poll probed guard still = guard.
Proof. unfold poll, still. cbn. rewrite andb_false_r. by destruct (cg_tripped guard). Qed.

(** How an attempt goes in the sequential loop: a look that trips it before it is
    sent, a client that is not valid, an answer. *)
Definition trips (l : Poll) : Prop := cg_tripped (poll probed CallGuard_new l) = true.
Section Outcomes.
Variables (script : Script) (response : Response) (retries : nat) (sent : list HttpRequest).
Let step := attempt_step backoff_base_ms call where_ script payload (mk_Loop CallGuard_new response retries sent).
Definition early (at_top at_watch : Poll) (valid : bool) (remaining : Z) : Attempt :=
  mk_Attempt at_top valid remaining at_watch [] (Unanswered OtherError) still [].
Definition answered (remaining : Z) (response : Response) (after : Poll) (sleeping : list Poll) : Attempt :=
  mk_Attempt still true remaining still [] response after sleeping.
Definition sent_by (remaining : Z) : list HttpRequest :=
  sent ++ [request_of call where_ payload (early still still true remaining)].

Ltac attempt Ha :=
  subst step; unfold attempt_step; cbn [gl_retries gl_guard gl_response gl_sent]; rewrite Ha; cbn [at_top at_valid at_watch at_during at_response at_after at_sleeping early answered];
  change (vc_probed call) with probed; rewrite ?poll_still; cbn [cg_tripped CallGuard_new negb].
Lemma step_top l : trips l → sc_attempt script retries = early l still true 0 →
  step = inr (Broke (mk_Loop (poll probed CallGuard_new l) response retries sent)).
Proof. intros Ht Ha. attempt Ha. by rewrite Ht. Qed.
Lemma step_invalid : sc_attempt script retries = early still still false 0 →
  step = inr (Unusable (mk_Loop CallGuard_new response retries sent)).
Proof. intros Ha. by attempt Ha. Qed.
Lemma step_watch l : trips l → sc_attempt script retries = early still l true 0 →
  step = inr (Broke (mk_Loop (poll probed CallGuard_new l) response retries sent)).
Proof. intros Ht Ha. attempt Ha. by rewrite Ht. Qed.
(** What an answer leads to. *)
Lemma step_answered remaining response' after sleeping :
  sc_attempt script retries = answered remaining response' after sleeping →
  step =
    if is_200 response' then inr (Broke (mk_Loop CallGuard_new response' retries (sent_by remaining))) else
    let guard := poll probed CallGuard_new after in
    if cg_tripped guard then inr (Broke (mk_Loop guard response' retries (sent_by remaining))) else
    if negb (retryable response') || bool_decide (retries = kMaxRetries) then
      inr (Broke (mk_Loop guard response' retries (sent_by remaining)))
    else if 0 <? backoff_ms backoff_base_ms (S retries) then
      let guard := polls probed guard sleeping in
      if cg_tripped guard then inr (Broke (mk_Loop guard response' (S retries) (sent_by remaining)))
      else inl (mk_Loop guard response' (S retries) (sent_by remaining))
    else inl (mk_Loop guard response' (S retries) (sent_by remaining)).
Proof. intros Ha. by attempt Ha. Qed.
End Outcomes.

(** * The simulation *)

(** What the sequential run comes to where the caller stands.  The loop's end is
    either untripped or, whatever look is chosen that trips, tripped by it. *)
Definition looks_within (l : Poll) (a : Attempt) : Prop :=
  ∀ look, look ∈ looks_before a ++ looks_after a ++ at_sleeping a → look = still ∨ look = l.
Definition based (response : Response) (retries : nat) (sent : list HttpRequest) (answers : list Response) : Prop :=
  ∃ attempts, Forall (looks_within still) attempts ∧ at_response <$> attempts = answers ∧
    reaches attempts response retries sent.
Definition posted (retries : nat) (sent : list HttpRequest) (answers : list Response) : Prop :=
  ∃ remaining response0 sent0, based response0 retries sent0 answers ∧ sent = sent_by sent0 remaining.
Definition replied (response : Response) (retries : nat) (sent : list HttpRequest) (answers : list Response) : Prop :=
  ∃ answers0, answers = answers0 ++ [response] ∧ posted retries sent answers0.
Definition settled (l : Poll) (guard : CallGuard) (response : Response) (retries : nat) (sent : list HttpRequest)
    (answers : list Response) : Prop :=
  ∃ attempts, Forall (looks_within l) attempts ∧ answers `prefix_of` at_response <$> attempts ∧
    ∀ script, extends script attempts → run script = Broke (mk_Loop guard response retries sent).
Definition cut (response : Response) (retries : nat) (sent : list HttpRequest) (answers : list Response) : Prop :=
  is_200 response = false ∧ ∀ l, trips l → settled l (poll probed CallGuard_new l) response retries sent answers.
(** Every look of the script is one of the run: its probe's yes, its deadline;
    every answer is what [Post] gave. *)
Definition honest_look (sh : Shared) (l : Poll) : Prop :=
  (po_cancelled l = true → sh_left sh = true) ∧ (po_expired l = true → deadline ≤ sh_now sh).
Definition honest (sh : Shared) (answers : list Response) (script : Script) : Prop :=
  sc_before script = false ∧ honest_look sh (sc_final script) ∧
  (∀ k response, answers !! k = Some response → at_response (sc_attempt script k) = response) ∧
  ∀ k look, look ∈ looks_before (sc_attempt script k) ++ looks_after (sc_attempt script k) ++ at_sleeping (sc_attempt script k) →
    honest_look sh look.
Definition concluded (sh : Shared) (result : VlmResult) (sent : list HttpRequest) (answers : list Response) : Prop :=
  ∃ script, honest sh answers script ∧
    match run script with
    | Unusable s => (VlmResult_failed (lit "endpoint is not usable: " ++ pe_origin where_), gl_sent s)
    | Broke s => (finish call where_ script s, gl_sent s)
    end = (result, sent).

Definition simulated (sh : Shared) (c : Caller) : Prop :=
  let '(mk_Caller phase response retries sent answers) := c in
  let over := settled still CallGuard_new response retries sent answers in
  let cut_off := cut response retries sent answers in
  match phase with
  | Looking AtTop _ | Construct | LockWatch _ | Looking (AtWatch _) _ =>
      is_200 response = false ∧ based response retries sent answers
  | Posting _ => posted retries sent answers
  | Unwatch | DropClient true | Answer => replied response retries sent answers
  | Looking AtAfter _ => is_200 response = false ∧ replied response retries sent answers
  | LockSleep | Sleeping | Relock | Looking (AtSleep | AtTimeout | AtWoken) _ =>
      is_200 response = false ∧ retryable response = true ∧
      ∃ retries0, retries = S retries0 ∧ retries0 ≠ kMaxRetries ∧ 0 < backoff_ms backoff_base_ms retries ∧
        replied response retries0 sent answers
  | DropClient false => cut_off ∧ sh_tripped sh = true
  | LoopOver => over ∨ cut_off ∧ sh_tripped sh = true
  | Looking AtFinal _ => is_200 response = false ∧ (over ∨ cut_off ∧ sh_tripped sh = true)
  | Report false => over
  | Report true => is_200 response = false ∧ (over ∨ cut_off)
  | Destroy result | NotifyDone result | JoinWatchdog result | Return result => concluded sh result sent answers
  end.

(** How the run goes on, read off the script of one more attempt. *)
Lemma within_weaken l attempts : Forall (looks_within still) attempts → Forall (looks_within l) attempts.
Proof. intros Ha. eapply Forall_impl; [done|]. intros a Hw look Hl. destruct (Hw look Hl) as [-> | ->]; by left. Qed.
Lemma within_snoc l attempts a :
  Forall (looks_within still) attempts → looks_within l a → Forall (looks_within l) (attempts ++ [a]).
Proof. intros. apply Forall_app_2; [by apply within_weaken|]. by apply Forall_cons_2. Qed.
Lemma within_early l at_top at_watch valid remaining :
  at_top = still ∨ at_top = l → at_watch = still ∨ at_watch = l → looks_within l (early at_top at_watch valid remaining).
Proof. intros ?? look Hl. cbn in Hl. rewrite !elem_of_cons, elem_of_nil in Hl. intuition (subst; auto). Qed.
Lemma within_answered l remaining response after sleeping :
  after = still ∨ after = l → (∀ look, look ∈ sleeping → look = l) →
  looks_within l (answered remaining response after sleeping).
Proof.
  intros ? Hs look Hl. cbn in Hl. rewrite !elem_of_cons in Hl.
  destruct Hl as [-> | [-> | [-> | Hl%Hs]]]; auto.
Qed.

Lemma prefix_snoc_response attempts a : at_response <$> attempts `prefix_of` at_response <$> (attempts ++ [a]).
Proof. rewrite fmap_app. by eexists. Qed.
Lemma cut_early response retries sent answers :
  is_200 response = false → based response retries sent answers → cut response retries sent answers.
Proof.
  intros H200 (attempts & Hw & <- & Hr). split; [done|]. intros l Hl.
  exists (attempts ++ [early l still true 0]).
  split_and!; [apply within_snoc; [done|apply within_early; auto]|apply prefix_snoc_response|].
  intros script He. destruct (reaches_step _ _ _ _ _ _ Hr He) as [-> Ha]. by rewrite (step_top _ _ _ _ l).
Qed.
(** What every script that gives the answer to the attempt in flight comes to. *)
Lemma replied_step response retries sent answers after sleeping l :
  replied response retries sent answers → after = still ∨ after = l → (∀ look, look ∈ sleeping → look = l) →
  ∃ attempts response0 sent0 remaining, Forall (looks_within l) attempts ∧ at_response <$> attempts = answers ∧
    sent = sent_by sent0 remaining ∧ length attempts = S retries ∧ (retries ≤ kMaxRetries)%nat ∧
    ∀ script, extends script attempts → sc_attempt script retries = answered remaining response after sleeping ∧
      run script = match attempt_step backoff_base_ms call where_ script payload (mk_Loop CallGuard_new response0 retries sent0) with
        | inl s => run_loop (Broke Loop_init) (S kMaxRetries - retries) (attempt_step backoff_base_ms call where_ script payload) s
        | inr e => e
        end.
Proof.
  intros (answers0 & -> & remaining & response0 & sent0 & (attempts & Hw & <- & Hr) & ->) ??.
  exists (attempts ++ [answered remaining response after sleeping]), response0, sent0, remaining.
  pose proof Hr as (Hlen & Hle & _).
  split_and!; [apply within_snoc; [done|by apply within_answered]|by rewrite fmap_app|done|rewrite length_app; cbn; lia|done|].
  intros script He. by destruct (reaches_step _ _ _ _ _ _ Hr He) as [-> Ha].
Qed.
Lemma settled_answer response retries sent answers :
  replied response retries sent answers → is_200 response || negb (retryable response) || bool_decide (retries = kMaxRetries) = true →
  settled still CallGuard_new response retries sent answers.
Proof.
  intros Hrep Hend. destruct (replied_step _ _ _ _ still [] still Hrep) as (attempts & response0 & sent0 & remaining & Hw & Hans & -> & _ & _ & Hr);
    [by left|by intros ? ?%elem_of_nil|].
  exists attempts. split_and!; [done|by rewrite Hans|]. intros script He. destruct (Hr script He) as [Ha ->].
  rewrite (step_answered _ _ _ _ _ _ _ _ Ha), poll_still.
  destruct (is_200 response); [done|]. cbn [orb] in Hend. cbn [cg_tripped CallGuard_new]. by rewrite Hend.
Qed.
Lemma cut_after response retries sent answers :
  is_200 response = false → replied response retries sent answers → cut response retries sent answers.
Proof.
  intros H200 Hrep. split; [done|]. intros l Hl.
  destruct (replied_step _ _ _ _ l [] l Hrep) as (attempts & response0 & sent0 & remaining & Hw & Hans & -> & _ & _ & Hr);
    [by right|by intros ? ?%elem_of_nil|].
  exists attempts. split_and!; [done|by rewrite Hans|]. intros script He. destruct (Hr script He) as [Ha ->].
  rewrite (step_answered _ _ _ _ _ _ _ _ Ha), H200. cbn zeta. by rewrite Hl.
Qed.
Lemma cut_asleep response retries sent answers :
  is_200 response = false → retryable response = true → retries ≠ kMaxRetries → 0 < backoff_ms backoff_base_ms (S retries) →
  replied response retries sent answers → cut response (S retries) sent answers.
Proof.
  intros H200 Hre Hmax Hb Hrep. split; [done|]. intros l Hl.
  destruct (replied_step _ _ _ _ still [l] l Hrep) as (attempts & response0 & sent0 & remaining & Hw & Hans & -> & _ & _ & Hr);
    [by left|by intros ? ->%list_elem_of_singleton|].
  exists attempts. split_and!; [done|by rewrite Hans|]. intros script He. destruct (Hr script He) as [Ha ->].
  rewrite (step_answered _ _ _ _ _ _ _ _ Ha), H200, poll_still, Hre, bool_decide_eq_false_2, (proj2 (Z.ltb_lt _ _) Hb) by done.
  cbn [cg_tripped CallGuard_new negb orb polls foldl]. by rewrite Hl.
Qed.
Lemma based_again response retries sent answers :
  is_200 response = false → retryable response = true → retries ≠ kMaxRetries →
  replied response retries sent answers → based response (S retries) sent answers.
Proof.
  intros H200 Hre Hmax Hrep.
  destruct (replied_step _ _ _ _ still [] still Hrep) as (attempts & response0 & sent0 & remaining & Hw & Hans & -> & Hlen & Hle & Hr);
    [by left|by intros ? ?%elem_of_nil|].
  exists attempts. split_and!; [done|done|]. split_and!; [done|lia|]. intros script He. destruct (Hr script He) as [Ha ->].
  rewrite (step_answered _ _ _ _ _ _ _ _ Ha), H200, poll_still, Hre, bool_decide_eq_false_2 by done.
  cbn [cg_tripped CallGuard_new negb orb polls foldl]. by destruct (0 <? _).
Qed.

(** The script of a run that is over. *)
Definition script_of (attempts : list Attempt) (final : Poll) : Script :=
  mk_Script false (λ k, default (early still still true 0) (attempts !! k)) final.
Lemma script_of_extends attempts final : extends (script_of attempts final) attempts.
Proof. intros k a Hk. cbn. by rewrite Hk. Qed.
Lemma honest_still sh : honest_look sh still.
Proof. by split. Qed.
Lemma script_of_honest sh l attempts answers final :
  Forall (looks_within l) attempts → answers `prefix_of` at_response <$> attempts → honest_look sh l → honest_look sh final →
  honest sh answers (script_of attempts final).
Proof.
  intros Hw Hans Hl Hf. split_and!; [done|done| |].
  - intros k response Hk. apply (prefix_lookup_Some _ _ _ _ Hk) in Hans. rewrite list_lookup_fmap in Hans.
    cbn. by destruct (attempts !! k) as [a|]; simplify_eq/=.
  - intros k look. cbn. intros Hlook.
    assert (looks_within l (default (early still still true 0) (attempts !! k))) as Hk.
    { destruct (attempts !! k) as [a|] eqn:Ek; [|apply within_early; auto]. by eapply Forall_lookup_1 in Ek. }
    destruct (Hk look Hlook) as [-> | ->]; [apply honest_still|done].
Qed.
(** A tripped call has a look that trips it the same way. *)
Lemma trip_look sh :
  caused sh → sh_tripped sh = true →
  ∃ l, honest_look sh l ∧ poll probed CallGuard_new l = mk_CallGuard true (sh_by_caller sh).
Proof.
  intros [Ht Hb Hl] Htr. destruct (sh_by_caller sh).
  - exists (mk_Poll true false). split; [by split; [intros _; apply Hb|]|].
    unfold poll. cbn. subst probed. by rewrite (Hl (Hb eq_refl)).
  - exists (mk_Poll false true). split; [split; [done|]; intros _; by destruct (Ht Htr)|].
    unfold poll. cbn. by rewrite andb_false_r.
Qed.

Lemma concluded_invalid sh response retries sent answers :
  based response retries sent answers →
  concluded sh (VlmResult_failed (lit "endpoint is not usable: " ++ pe_origin where_)) sent answers.
Proof.
  intros (attempts & Hw & <- & Hr). set (attempts' := attempts ++ [early still still false 0]).
  exists (script_of attempts' still). split.
  - eapply (script_of_honest _ still); try apply honest_still; [|apply prefix_snoc_response].
    apply within_snoc; [done|apply within_early; auto].
  - destruct (reaches_step _ _ _ _ _ _ Hr (script_of_extends attempts' still)) as [-> Ha]. by rewrite (step_invalid _ _ _ _ Ha).
Qed.
Lemma concluded_untripped sh by_caller response retries sent answers :
  settled still CallGuard_new response retries sent answers →
  concluded sh (report call where_ false by_caller response retries) sent answers.
Proof.
  intros (attempts & Hw & Hans & Hr). exists (script_of attempts still).
  split; [by eapply (script_of_honest _ still); try apply honest_still|].
  rewrite Hr by apply script_of_extends. unfold finish. cbn -[report poll]. change (vc_probed call) with probed.
  rewrite poll_still. by destruct (is_200 response).
Qed.
Lemma concluded_tripped sh response retries sent answers :
  caused sh → sh_tripped sh = true → is_200 response = false →
  settled still CallGuard_new response retries sent answers ∨ cut response retries sent answers →
  concluded sh (report call where_ true (sh_by_caller sh) response retries) sent answers.
Proof.
  intros Hc Ht H200 Hs. destruct (trip_look sh Hc Ht) as (l & Hl & Hp).
  destruct Hs as [(attempts & Hw & Hans & Hr)|[_ Hcut]].
  - exists (script_of attempts l). split; [by eapply (script_of_honest _ still); try apply honest_still|].
    rewrite Hr by apply script_of_extends. unfold finish. cbn -[report poll]. rewrite H200.
    change (vc_probed call) with probed. by rewrite Hp.
  - destruct (Hcut l) as (attempts & Hw & Hans & Hr); [unfold trips; by rewrite Hp|].
    exists (script_of attempts still). split; [by eapply (script_of_honest _ l); try apply honest_still|].
    rewrite Hr by apply script_of_extends. unfold finish. cbn -[report poll]. rewrite H200.
    change (vc_probed call) with probed. by rewrite poll_still, Hp.
Qed.
Lemma concluded_grows sh sh' result sent answers :
  shared_grows sh sh' → concluded sh result sent answers → concluded sh' result sent answers.
Proof.
  intros [_ _ Hl Hn] (script & (Hb & Hf & Ha & Hh) & E). exists script. split; [|done].
  assert (∀ l, honest_look sh l → honest_look sh' l) as Hk by (intros l [? ?]; split; auto; etrans; eauto).
  split_and!; auto. intros k look Hlook. eapply Hk, Hh, Hlook.
Qed.

Lemma simulated_grows sh sh' c : shared_grows sh sh' → simulated sh c → simulated sh' c.
Proof.
  intros Hg. pose proof (sg_tripped _ _ Hg). destruct c as [[site pc| | |[| |stopped [pc|]]| |[]| | | | | |[]| | | |] response retries sent answers];
    cbn; try done; try (by apply concluded_grows); [destruct site|..]; naive_solver.
Qed.
Lemma looked_simulated site pc tripped sh c sh' c' :
  looked site tripped sh c = (sh', c') → ca_phase c = Looking site pc → sh_tripped sh = tripped →
  simulated sh c → simulated sh' c'.
Proof.
  intros E Hp Ht Hs. destruct c as [phase response retries sent answers]. cbn in Hp. subst phase.
  destruct site; cbn in Hs.
  - destruct Hs as [H200 Hb]. destruct tripped; simplify_eq/=; [|done]. right. split; [by apply cut_early|done].
  - destruct Hs as [H200 Hb]. destruct tripped; simplify_eq/=; [split; [by apply cut_early|done]|].
    by exists remaining0, response, sent.
  - destruct Hs as [H200 Hpo]. cbn in E. destruct tripped; [simplify_eq/=; right; split; [by apply cut_after|done]|].
    destruct (negb (retryable response) || bool_decide (retries = kMaxRetries)) eqn:Hend; simplify_eq/=.
    { left. apply settled_answer; [done|]. by rewrite H200. }
    apply orb_false_elim in Hend as [Hre%negb_false_iff Hmax%bool_decide_eq_false].
    destruct (0 <? _) eqn:Hback; cbn.
    + split_and!; [done|done|]. exists retries. split_and!; try done. by apply Z.ltb_lt.
    + split; [done|]. by apply based_again.
  - destruct tripped; by simplify_eq/=.
  - by simplify_eq/=.
  - destruct Hs as (H200 & Hre & retries0 & -> & Hmax & Hback & Hpo). destruct tripped; simplify_eq/=.
    + right. split; [by apply cut_asleep|done].
    + split; [done|by apply based_again].
  - destruct Hs as (H200 & Hs). destruct tripped; simplify_eq/=; [|by destruct Hs as [?|[_ ?]]; [|congruence]].
    split; [done|]. naive_solver.
Qed.
Lemma control_report tripped done dog : control tripped done (Report true) dog = true → tripped = true.
Proof. unfold control. by intros [_ ?]%andb_prop. Qed.
Lemma caller_next_simulated w s s' :
  guard_inv s → caller_next w s = Some s' → simulated (sy_shared s) (sy_caller s) → simulated (sy_shared s') (sy_caller s').
Proof.
  intros Hinv E Hs. pose proof (gi_caused _ Hinv) as Hca. pose proof (gi_caller _ Hinv) as Hcp. pose proof (gi_control _ Hinv) as Hcon.
  destruct s as [sh [phase response retries sent answers] dog]. cbn in Hca, Hcp, Hcon. unfold caller_next in E. cbn -[simulated] in E, Hs |- *.
  destruct phase as [site pc| | |[| |stopped [pc|]]| |[]| | | | | |[]| | | |]; cbn in E; try done.
  - destruct (look_next _ _ _) as [sh1 next] eqn:El.
    destruct (look_next_spec _ _ _ _ _ El Hca (Hcp _ eq_refl)) as [Hg _ _ _ _ Hans]. apply (simulated_grows _ _ _ Hg) in Hs.
    destruct next as [pc'|tripped]; [by destruct site; simplify_eq/=|].
    destruct (looked _ _ _ _) as [sh2 c2] eqn:Ek. simplify_eq. destruct (Hans _ eq_refl) as [Ht _].
    by eapply (looked_simulated site pc).
  - destruct Hs as [H200 Hb]. destruct (wo_valid w); simplify_eq/=; [done|]. by apply (concluded_invalid _ response retries).
  - by destruct (dog_holds dog); simplify_eq/=.
  - by simplify_eq/=.
  - destruct (wo_connects w); simplify_eq/=; [done|by exists answers].
  - destruct (look_next _ _ _) as [sh1 next]. by destruct next; simplify_eq/=.
  - by destruct (dog_holds dog); simplify_eq/=.
  - by simplify_eq/=.
  - destruct Hs as [? ?]. simplify_eq/=. by right.
  - destruct (is_200 response) eqn:H200; simplify_eq/=; [|done]. left. apply settled_answer; [done|]. by rewrite H200.
  - by destruct (dog_holds dog); simplify_eq/=.
  - by destruct (dog_holds dog); simplify_eq/=.
  - destruct (is_200 response) eqn:H200; simplify_eq/=; [|done]. destruct Hs as [?|[[? ?] ?]]; [done|congruence].
  - injection E as <-. cbn -[report] in *. destruct Hs as [H200 Hs]. apply (concluded_tripped _ response retries); [done| |done|done].
    by eapply control_report.
  - injection E as <-. cbn -[report] in *. by apply (concluded_untripped _ (sh_by_caller sh) response retries).
  - destruct (dog_holds dog); simplify_eq/=. eapply concluded_grows; [|done]. by apply shared_grows_flags.
  - by simplify_eq/=.
  - destruct dog; by simplify_eq/=.
Qed.
(** The watchdog and the world move the caller only between phases that stand for
    the same point of the sequential run. *)
Lemma other_simulated s s' :
  (∃ w, dog_next w s = Some s') ∨ world_step s s' → shared_grows (sy_shared s) (sy_shared s') →
  simulated (sy_shared s) (sy_caller s) → simulated (sy_shared s') (sy_caller s').
Proof.
  intros Hs Hg Hsim. apply (simulated_grows _ _ _ Hg) in Hsim. clear Hg. destruct s as [sh [phase response retries sent answers] dog].
  destruct Hs as [[w E]|E].
  - destruct dog; cbn in E; try (destruct (look_next _ _ _)); unfold wake_caller, stop_client in E; cbn in E;
      repeat case_match; by simplify_eq/=.
  - inversion E; simplify_eq/=; try done.
    + destruct dog; by simplify_eq/=.
    + destruct phase as [| | |[| |stopped []]| | | | | | | | | | | |]; simplify_eq/=. by exists answers.
Qed.
Lemma guard_step_simulated s s' :
  guard_inv s → guard_step s s' → simulated (sy_shared s) (sy_caller s) → simulated (sy_shared s') (sy_caller s').
Proof.
  intros Hinv Hs Hsim. destruct (guard_step_inv s s' Hinv Hs) as [_ Hg].
  destruct Hs as [w E|w E|E]; [by eapply caller_next_simulated|eapply other_simulated; eauto..].
Qed.
Lemma guard_run_simulated s s' :
  rtc guard_step s s' → guard_inv s → simulated (sy_shared s) (sy_caller s) → simulated (sy_shared s') (sy_caller s').
Proof.
  induction 1 as [|s t s' Hs _ IH]; [done|]. intros Hinv Hsim.
  apply IH; [by eapply guard_step_inv|by eapply guard_step_simulated].
Qed.
Lemma simulated_start : simulated (sy_shared System_start) (sy_caller System_start).
Proof. split; [done|]. exists []. split_and!; [by apply Forall_nil_2|done|apply reaches_start]. Qed.

(** The state of a tripped call. *)
Definition tripped_call (s : System) : Prop := guard_inv s ∧ sh_tripped (sy_shared s) = true.
Definition returned (s : System) : Prop :=
  (∃ result, ca_phase (sy_caller s) = Return result) ∧ sy_dog s = DogOver.
Lemma tripped_call_step s s' :
  tripped_call s → progress_step s s' → tripped_call s' ∧ (system_rank s' < system_rank s)%nat.
Proof.
  intros [Hinv Ht] Hs. destruct (guard_step_inv s s' Hinv (progress_guard_step _ _ Hs)) as [Hinv' Hg].
  split; [split; [done|by apply Hg]|by apply progress_rank].
Qed.
Lemma control_returned tripped done result dog : control tripped done (Return result) dog = true → dog = DogOver.
Proof. unfold control. by destruct dog, done. Qed.
Lemma tripped_call_live s : tripped_call s → returned s ∨ ∃ s', progress_step s s'.
Proof.
  intros [Hinv Ht]. destruct (ca_phase (sy_caller s)) eqn:Hp; try (right; by apply progress_enabled; rewrite ?Hp).
  left. split; [by eexists|]. pose proof (gi_control _ Hinv) as Hcon. rewrite Hp in Hcon. by eapply control_returned.
Qed.
End Watchdog.

(** * Properties *)

(** C8: However the caller, its watchdog, the clock, the probe and the endpoint
    interleave, what a call returns and the requests it sent are those of the
    sequential [generate], for a script that makes nothing up: where one of its
    looks says the caller left, the probe had answered so in the run; where one
    says the budget is spent, the deadline had passed; and its answers are what
    the transport gave.  So what is proved of [generate] holds of the program with
    its two threads. *)
Theorem guard_refines_generate `{Json} backoff_base_ms call where_ start s result :
  parse_endpoint (vc_endpoint call) = inr where_ →
  rtc (guard_step backoff_base_ms call where_ start) (System_start start) s →
  ca_phase (sy_caller s) = Return result →
  ∃ script, generate backoff_base_ms script call = (result, ca_sent (sy_caller s)) ∧
    honest call start (sy_shared s) (ca_answers (sy_caller s)) script.
Proof.
  intros Hw Hrun Hret.
  pose proof (guard_run_simulated _ _ _ _ _ _ Hrun (guard_inv_start _ _) (simulated_start _ _ _ _)) as Hs.
  destruct s as [sh [phase response retries sent answers] dog]. cbn in Hret, Hs. subst phase. cbn in Hs.
  destruct Hs as (script & Hh & E). exists script. split; [|done].
  unfold generate. rewrite Hw, (proj1 Hh), andb_false_r. exact E.
Qed.

(** C10: A client is stopped only while it exists: the watchdog's pointer is null or
    the client of the attempt in flight.  The mutex has one holder; a trip has its
    cause, the probe's yes or a deadline that passed; the watchdog sleeps no longer
    than an interval, or to the deadline where nothing else can trip the call; and
    once tripped, no further attempt is ever registered. *)
Theorem watchdog_safe `{Json} backoff_base_ms call where_ start s :
  rtc (guard_step backoff_base_ms call where_ start) (System_start start) s →
  (∀ k, sh_client (sy_shared s) = Some k → client_alive k (sy_caller s) = true) ∧
  caller_holds (ca_phase (sy_caller s)) && dog_holds (sy_dog s) = false ∧
  (sh_tripped (sy_shared s) = true → sh_by_caller (sy_shared s) = true ∨ deadline call start ≤ sh_now (sy_shared s)) ∧
  (sh_by_caller (sy_shared s) = true → sh_left (sy_shared s) = true) ∧
  (∀ next, sy_dog s = DogWaits next →
     next ≤ sh_now (sy_shared s) + kWatchInterval ∨ vc_probed call = false ∧ next = deadline call start) ∧
  (sh_tripped (sy_shared s) = true → ∀ s', rtc (guard_step backoff_base_ms call where_ start) s s' →
     ca_sent (sy_caller s') = ca_sent (sy_caller s)).
Proof.
  intros Hrun. assert (guard_inv call start s) as Hinv by (eapply guard_inv_run; [done|apply guard_inv_start]).
  pose proof Hinv as [Hcon Hcl [Ht Hb _] _ _]. split_and!; try done.
  - intros k Hk. rewrite Hcl in Hk. destruct (registered _) eqn:Hr; [|done]. injection Hk as <-. unfold client_alive.
    rewrite bool_decide_eq_true_2 by done. by destruct (ca_phase (sy_caller s)).
  - unfold control in Hcon. by destruct (caller_holds _ && dog_holds _).
  - refine (waits_bounded_run _ _ _ _ _ _ Hrun (guard_inv_start _ _) _). by intros next.
  - intros Htr s' Hs'. by eapply guard_run_sent.
Qed.

(** C9: A call that tripped ends, with no help from the endpoint or the caller's
    probe: whatever happened before, the two threads' own steps, a connect's end,
    the return of a stopped [Post] and the watchdog's interval bring [generate] to
    its end, with the watchdog joined; no order of these steps blocks before that,
    and none takes more than 447 of them.  So neither a parked endpoint, nor a
    backoff, nor the destructor's wait for the watchdog keeps a cancelled call. *)
Theorem tripped_call_ends `{Json} backoff_base_ms call where_ start s :
  rtc (guard_step backoff_base_ms call where_ start) (System_start start) s →
  sh_tripped (sy_shared s) = true →
  (∃ s', rtc (progress_step backoff_base_ms call where_ start) s s' ∧ returned s') ∧
  (∀ n s', nsteps (progress_step backoff_base_ms call where_ start) n s s' →
     (n ≤ 447)%nat ∧ (returned s' ∨ ∃ s'', progress_step backoff_base_ms call where_ start s' s'')).
Proof.
  intros Hrun Ht.
  assert (tripped_call call start s) as Hs by (split; [eapply guard_inv_run; [done|apply guard_inv_start]|done]).
  destruct (descent_total _ _ _ _ (tripped_call_step backoff_base_ms call where_ start)
    (tripped_call_live backoff_base_ms call where_ start) s Hs) as [(s' & Hd & _ & Hr) Hall].
  split; [by exists s'|]. intros n t Hn. destruct (Hall n t Hn) as (Hle & _ & Hend).
  split; [|done]. pose proof (system_rank_bound s). lia.
Qed.

(** * A run *)

(** A schedule, as the moves of the two threads and of the endpoint. *)
Inductive Move := CallerMoves (w : World) | DogMoves (w : World) | EndpointAnswers (w : World) | DogTimes.
Definition move `{Json} (backoff_base_ms : Z) (call : VlmCall) (where_ : ParsedEndpoint) (start : Z)
    (s : System) (m : Move) : option System :=
  match m with
  | CallerMoves w => caller_next backoff_base_ms call where_ start w s
  | DogMoves w => dog_next call start w s
  | EndpointAnswers w => post_returns w s
  | DogTimes => dog_wakes s
  end.
Definition moves `{Json} (backoff_base_ms : Z) (call : VlmCall) (where_ : ParsedEndpoint) (start : Z)
    (s : System) (schedule : list Move) : option System :=
  foldl (λ s m, s ← s; move backoff_base_ms call where_ start s m) (Some s) schedule.
Lemma moves_run `{Json} backoff_base_ms call where_ start s schedule s' :
  moves backoff_base_ms call where_ start s schedule = Some s' → rtc (guard_step backoff_base_ms call where_ start) s s'.
Proof.
  revert s. unfold moves. induction schedule as [|m schedule IH]; cbn; intros s E; [by injection E as <-|].
  destruct (move _ _ _ _ s m) as [t|] eqn:Em.
  - eapply rtc_l; [|by apply IH]. destruct m; [by eapply guard_caller|by eapply guard_dog|apply guard_world..];
      [by eapply endpoint_answers|by apply dog_time].
  - exfalso. clear IH Em. induction schedule; by cbn in *.
Qed.

Definition toy_where : ParsedEndpoint :=
  mk_ParsedEndpoint (lit "http://vlm:8080") (lit "/v1/chat/completions") (lit "vlm") 8080.
Definition toy_state (schedule : list Move) : System :=
  default (System_start 0) (@moves toy_json 100 toy_call toy_where 0 (System_start 0) schedule).
Definition saying (cancelled : bool) : World := mk_World cancelled true true (Answered 200 (lit "ok")).
(** The caller goes through to its post, the watchdog looks once; the endpoint
    answers, or the probe says the caller left and the watchdog stops the post. *)
Definition toy_posting : list Move :=
  replicate 4 (CallerMoves (saying false)) ++ replicate 2 (CallerMoves (saying false)) ++
  replicate 4 (CallerMoves (saying false)) ++ replicate 2 (CallerMoves (saying false)) ++
  replicate 8 (DogMoves (saying false)).
Definition toy_answered : list Move :=
  toy_posting ++ [EndpointAnswers (saying false)] ++ replicate 7 (CallerMoves (saying false)) ++
  replicate 2 (DogMoves (saying false)) ++ [CallerMoves (saying false)].
Definition toy_cancelled : list Move :=
  toy_posting ++ [DogTimes] ++ replicate 8 (DogMoves (saying true)).

(** ** Witnesses *)

Lemma guard_refines_generate_witness :
  ∃ script result, @generate toy_json 100 script toy_call = (result, ca_sent (sy_caller (toy_state toy_answered))) ∧
    vr_ok result = true ∧ at_response (sc_attempt script 0) = Answered 200 (lit "ok").
Proof.
  destruct (ca_phase (sy_caller (toy_state toy_answered))) as [| | | | | | | | | | | | | | |result] eqn:Hp;
    try (vm_compute in Hp; discriminate Hp).
  destruct (@guard_refines_generate toy_json 100 toy_call toy_where 0 (toy_state toy_answered) result) as (script & E & Hh).
  - vm_compute. reflexivity.
  - apply (@moves_run toy_json _ _ _ _ _ toy_answered). vm_compute. reflexivity.
  - exact Hp.
  - exists script, result. split; [exact E|]. split.
    + vm_compute in Hp. injection Hp as <-. vm_compute. reflexivity.
    + destruct Hh as (_ & _ & Ha & _). apply Ha. vm_compute. reflexivity.
Defined.
Lemma watchdog_safe_witness :
  sh_client (sy_shared (toy_state toy_cancelled)) = Some 0%nat ∧ client_alive 0 (sy_caller (toy_state toy_cancelled)) = true.
Proof.
  split; [vm_compute; reflexivity|].
  apply (@watchdog_safe toy_json 100 toy_call toy_where 0 (toy_state toy_cancelled)).
  - apply (@moves_run toy_json _ _ _ _ _ toy_cancelled). vm_compute. reflexivity.
  - vm_compute. reflexivity.
Defined.
Lemma tripped_call_ends_witness :
  ∃ s, rtc (@progress_step toy_json 100 toy_call toy_where 0) (toy_state toy_cancelled) s ∧ returned s.
Proof.
  apply (@tripped_call_ends toy_json 100 toy_call toy_where 0 (toy_state toy_cancelled)).
  - apply (@moves_run toy_json _ _ _ _ _ toy_cancelled). vm_compute. reflexivity.
  - vm_compute. reflexivity.
Defined.
