(* ===== verification/Budget.v ===== *)
(** The counting budget behind every cap on memory and on calls in flight
    (src/service/budget.h): first come, first served, with leases that give
    back what they took.

    [Budget] is the C++ object.  A ticket stands for one call of [acquire] (the
    list iterator it queues under) and for the [Lease] it returns.  A [Ledger]
    is a budget together with the live leases on it; [budget_step] is everything
    its users can do to it, in any interleaving. *)
From S2P Require Import Prelude.

(** [size_t] arithmetic. *)
Definition wrap64 (z : Z) : Z := z mod 2 ^ 64.

Section Budget.
Context {T : Type} `{EqDecision T}.

(** * The object *)

Record Budget := mk_Budget {
  bg_capacity : Z;
  bg_used : Z;
  bg_line : list (T * Z) }.
Definition Budget_new (capacity : Z) : Budget := mk_Budget (Z.max capacity 1) 0 [].

(** [std::clamp(amount, 1, capacity_)]. *)
Definition clamp_amount (budget : Budget) (amount : Z) : Z :=
  if amount <? 1 then 1 else if bg_capacity budget <? amount then bg_capacity budget else amount.

(** [line_.insert(line_.end(), amount)]. *)
Definition enter (t : T) (amount : Z) (budget : Budget) : Budget :=
  mk_Budget (bg_capacity budget) (bg_used budget)
    (bg_line budget ++ [(t, clamp_amount budget amount)]).
(** [line_.erase(me)]. *)
Definition erase (t : T) (line : list (T * Z)) : list (T * Z) := filter (λ waiter, waiter.1 ≠ t) line.
Definition at_front (t : T) (line : list (T * Z)) : bool :=
  match line with (t', _) :: _ => bool_decide (t' = t) | [] => false end.

(** What one pass of the loop of [acquire] ends with. *)
Inductive Polled := Took | Left | Waits.
#[export] Instance Polled_eq_dec : EqDecision Polled.
Proof. solve_decision. Defined.
Definition acquire_poll (t : T) (amount : Z) (halted : bool) (budget : Budget) : Polled * Budget :=
  if at_front t (bg_line budget) &&
     (wrap64 (bg_used budget + amount) <=? bg_capacity budget) then
    (Took, mk_Budget (bg_capacity budget) (wrap64 (bg_used budget + amount))
             (erase t (bg_line budget)))
  else if halted then
    (Left, mk_Budget (bg_capacity budget) (bg_used budget) (erase t (bg_line budget)))
  else (Waits, budget).

(** [release], called by the lease. *)
Definition release (amount : Z) (budget : Budget) : Budget :=
  mk_Budget (bg_capacity budget) (wrap64 (bg_used budget - amount)) (bg_line budget).

(** * Its users *)

Record Ledger := mk_Ledger {
  lg_budget : Budget;
  lg_leases : list (T * Z) }.
Definition Ledger_new (capacity : Z) : Ledger := mk_Ledger (Budget_new capacity) [].
Definition line_of (ledger : Ledger) : list (T * Z) := bg_line (lg_budget ledger).

Definition drop_lease (t : T) (leases : list (T * Z)) : list (T * Z) :=
  filter (λ lease, lease.1 ≠ t) leases.

(** What one thread does with it, ledger kept: joining the line of [acquire],
    one pass of its loop, and the end of a lease. *)
Definition ledger_enter (t : T) (amount : Z) (ledger : Ledger) : Ledger :=
  mk_Ledger (enter t amount (lg_budget ledger)) (lg_leases ledger).
Definition ledger_poll (t : T) (amount : Z) (halted : bool) (ledger : Ledger) : Polled * Ledger :=
  let amount := clamp_amount (lg_budget ledger) amount in
  let '(polled, budget) := acquire_poll t amount halted (lg_budget ledger) in
  (polled, mk_Ledger budget
     (lg_leases ledger ++ if bool_decide (polled = Took) then [(t, amount)] else [])).
Definition ledger_release (t : T) (ledger : Ledger) : Ledger :=
  match list_find (λ lease, lease.1 = t) (lg_leases ledger) with
  | Some (_, (_, amount)) =>
      mk_Ledger (release amount (lg_budget ledger)) (drop_lease t (lg_leases ledger))
  | None => ledger
  end.

Inductive BudgetEvent := Arrived (t : T) | Granted (t : T) | GaveUp (t : T) | Released (t : T).

Inductive budget_step : Ledger → BudgetEvent → Ledger → Prop :=
  | step_arrive ledger t amount :
      t ∉ (line_of ledger).*1 → t ∉ (lg_leases ledger).*1 →
      budget_step ledger (Arrived t) (mk_Ledger (enter t amount (lg_budget ledger)) (lg_leases ledger))
  | step_take ledger t amount halted budget :
      (t, amount) ∈ line_of ledger →
      acquire_poll t amount halted (lg_budget ledger) = (Took, budget) →
      budget_step ledger (Granted t) (mk_Ledger budget (lg_leases ledger ++ [(t, amount)]))
  | step_leave ledger t amount budget :
      (t, amount) ∈ line_of ledger →
      acquire_poll t amount true (lg_budget ledger) = (Left, budget) →
      budget_step ledger (GaveUp t) (mk_Ledger budget (lg_leases ledger))
  | step_release ledger t amount :
      (t, amount) ∈ lg_leases ledger →
      budget_step ledger (Released t)
        (mk_Ledger (release amount (lg_budget ledger)) (drop_lease t (lg_leases ledger))).

Inductive budget_run : Ledger → list BudgetEvent → Ledger → Prop :=
  | run_nil ledger : budget_run ledger [] ledger
  | run_snoc ledger ledger' ledger'' events event :
      budget_run ledger events ledger' → budget_step ledger' event ledger'' →
      budget_run ledger (events ++ [event]) ledger''.

(** * The invariant *)

Definition total (amounts : list (T * Z)) : Z := foldr (λ a sum, a.2 + sum) 0 amounts.

Record ledger_inv (ledger : Ledger) : Prop := {
  le_capacity : 1 <= bg_capacity (lg_budget ledger) < 2 ^ 63;
  le_used : bg_used (lg_budget ledger) = total (lg_leases ledger);
  le_cap : bg_used (lg_budget ledger) <= bg_capacity (lg_budget ledger);
  le_amounts : Forall (λ a, 1 <= a.2 <= bg_capacity (lg_budget ledger))
                 (line_of ledger ++ lg_leases ledger);
  le_nodup : NoDup ((line_of ledger).*1 ++ (lg_leases ledger).*1) }.

Lemma total_app l k : total (l ++ k) = total l + total k.
Proof. unfold total. induction l as [|a l IH]; cbn; lia. Qed.

Lemma total_nonneg lo hi l : 0 <= lo → Forall (λ a : T * Z, lo <= a.2 <= hi) l → 0 <= total l.
Proof. intros ?. induction 1; cbn; [lia|]. unfold total in *. lia. Qed.

Lemma filter_ne_id t (l : list (T * Z)) : t ∉ l.*1 → filter (λ a, a.1 ≠ t) l = l.
Proof.
  induction l as [|a l IH]; [done|]. cbn [fmap list_fmap]. intros Hn.
  rewrite filter_cons_True by (intros <-; apply Hn; by left).
  rewrite IH; [done|]. intros ?. apply Hn. by right.
Qed.

Lemma filter_ne_split t x (l k : list (T * Z)) :
  NoDup ((l ++ (t, x) :: k).*1) → filter (λ a, a.1 ≠ t) (l ++ (t, x) :: k) = l ++ k.
Proof.
  rewrite fmap_app, fmap_cons. intros (Hl & Hd & Hk)%NoDup_app. cbn in Hk.
  apply NoDup_cons in Hk as [Hk _].
  rewrite filter_app, filter_cons_False by (intros []; done).
  rewrite !filter_ne_id; [done|done|]. intros Hin. apply (Hd t Hin). by left.
Qed.

Lemma ledger_new_inv capacity : capacity < 2 ^ 63 → ledger_inv (Ledger_new capacity).
Proof.
  intros. unfold Ledger_new, Budget_new. split; cbn -[Z.pow]; try lia; constructor.
Qed.

Lemma clamp_amount_range budget amount :
  1 <= bg_capacity budget → 1 <= clamp_amount budget amount <= bg_capacity budget.
Proof.
  intros. unfold clamp_amount. destruct (Z.ltb_spec amount 1); [lia|].
  destruct (Z.ltb_spec (bg_capacity budget) amount); lia.
Qed.

(** A successful poll: the ticket led the line and its amount fitted. *)
Lemma acquire_poll_took t amount halted budget budget' :
  acquire_poll t amount halted budget = (Took, budget') →
  ∃ amount' line, bg_line budget = (t, amount') :: line ∧
    wrap64 (bg_used budget + amount) <= bg_capacity budget ∧
    budget' = mk_Budget (bg_capacity budget) (wrap64 (bg_used budget + amount))
                (erase t (bg_line budget)).
Proof.
  unfold acquire_poll. destruct (at_front t (bg_line budget)) eqn:Hf; cbn [andb]; [|by destruct halted].
  destruct (Z.leb_spec (wrap64 (bg_used budget + amount)) (bg_capacity budget)); [|by destruct halted].
  intros [= <-]. destruct (bg_line budget) as [|[t' a'] line]; [done|].
  cbn in Hf. apply bool_decide_eq_true in Hf as ->. by exists a', line.
Qed.

Lemma acquire_poll_left t amount budget budget' :
  acquire_poll t amount true budget = (Left, budget') →
  budget' = mk_Budget (bg_capacity budget) (bg_used budget) (erase t (bg_line budget)).
Proof. unfold acquire_poll. destruct (_ && _); [done|]. by intros [= <-]. Qed.

Lemma erase_front t amount line : NoDup (((t, amount) :: line).*1) → erase t ((t, amount) :: line) = line.
Proof. intros H. apply (filter_ne_split t amount [] line H). Qed.

(** The line of a ledger that satisfies the invariant holds each ticket once. *)
Lemma line_split ledger t amount :
  ledger_inv ledger → (t, amount) ∈ line_of ledger →
  ∃ l k, line_of ledger = l ++ (t, amount) :: k ∧ erase t (line_of ledger) = l ++ k.
Proof.
  intros Hinv (l & k & Hl)%list_elem_of_split. exists l, k. split; [done|].
  unfold erase. rewrite Hl. apply filter_ne_split. rewrite <- Hl.
  by destruct (proj1 (NoDup_app _ _) (le_nodup _ Hinv)).
Qed.

Lemma budget_step_capacity ledger event ledger' :
  budget_step ledger event ledger' →
  bg_capacity (lg_budget ledger') = bg_capacity (lg_budget ledger).
Proof.
  intros []; cbn; try done.
  - by destruct (acquire_poll_took _ _ _ _ _ H0) as (? & ? & _ & _ & ->).
  - by rewrite (acquire_poll_left _ _ _ _ H0).
Qed.

(** A ticket and its amount, taken out of a list or put at another's end. *)
Lemma nodup_out (l k others : list (T * Z)) t amount :
  NoDup ((l ++ (t, amount) :: k).*1 ++ others.*1) → NoDup ((l ++ k).*1 ++ others.*1).
Proof.
  rewrite !fmap_app, fmap_cons. cbn [fst]. intros Hnd.
  assert ((l.*1 ++ t :: k.*1) ++ others.*1 ≡ₚ t :: (l.*1 ++ k.*1) ++ others.*1) as HP by solve_Permutation.
  rewrite HP in Hnd. by apply NoDup_cons in Hnd as [_ ?].
Qed.
Lemma nodup_moved (l k others : list (T * Z)) t amount :
  NoDup ((l ++ (t, amount) :: k).*1 ++ others.*1) → NoDup ((l ++ k).*1 ++ (others ++ [(t, amount)]).*1).
Proof.
  rewrite !fmap_app, fmap_cons. cbn [fmap list_fmap fst]. intros Hnd.
  assert ((l.*1 ++ k.*1) ++ others.*1 ++ [t] ≡ₚ (l.*1 ++ t :: k.*1) ++ others.*1) as -> by solve_Permutation. done.
Qed.

Section StepInv.
Context (ledger : Ledger) (t : T) (amount : Z) (Hinv : ledger_inv ledger).

Lemma arrive_inv :
  t ∉ (line_of ledger).*1 → t ∉ (lg_leases ledger).*1 →
  ledger_inv (mk_Ledger (enter t amount (lg_budget ledger)) (lg_leases ledger)).
Proof using Hinv.
  intros Hnl Hns. destruct Hinv as [Hcap Hused Hle Hamt Hnd]. unfold line_of in *.
  pose proof (clamp_amount_range (lg_budget ledger) amount ltac:(lia)).
  split; unfold line_of; cbn [lg_budget lg_leases enter bg_capacity bg_used bg_line]; try done.
  - rewrite <- app_assoc. cbn [app]. rewrite Forall_app, Forall_cons in *. tauto.
  - rewrite fmap_app, <- app_assoc. cbn. rewrite <- Permutation_middle. constructor; [|done].
    rewrite elem_of_app. tauto.
Qed.
Lemma take_inv halted budget :
  (t, amount) ∈ line_of ledger → acquire_poll t amount halted (lg_budget ledger) = (Took, budget) →
  ledger_inv (mk_Ledger budget (lg_leases ledger ++ [(t, amount)])).
Proof using Hinv.
  intros Hin Hpoll. destruct (line_split ledger t amount Hinv Hin) as (l & k & Hl & He).
  destruct Hinv as [Hcap Hused Hle Hamt Hnd]. rewrite Hl in Hamt, Hnd. unfold line_of in *.
  destruct (acquire_poll_took _ _ _ _ _ Hpoll) as (a' & rest & Hfront & Hfit & ->).
  rewrite !Forall_app, Forall_cons in Hamt. destruct Hamt as ((? & Ha & ?) & Hleases). cbn in Ha.
  pose proof (total_nonneg 1 _ _ ltac:(lia) Hleases) as Hpos.
  assert (Hw : wrap64 (bg_used (lg_budget ledger) + amount) = bg_used (lg_budget ledger) + amount)
    by (unfold wrap64; apply Z.mod_small; lia).
  rewrite Hw in *.
  split; unfold line_of; cbn [lg_budget lg_leases bg_capacity bg_used bg_line]; rewrite ?He; try done.
  - rewrite total_app. cbn. lia.
  - rewrite !Forall_app, Forall_cons, Forall_nil. tauto.
  - by eapply nodup_moved.
Qed.
Lemma leave_inv budget :
  (t, amount) ∈ line_of ledger → acquire_poll t amount true (lg_budget ledger) = (Left, budget) →
  ledger_inv (mk_Ledger budget (lg_leases ledger)).
Proof using Hinv.
  intros Hin Hpoll. destruct (line_split ledger t amount Hinv Hin) as (l & k & Hl & He).
  destruct Hinv as [Hcap Hused Hle Hamt Hnd]. rewrite Hl in Hamt, Hnd. unfold line_of in *.
  rewrite (acquire_poll_left _ _ _ _ Hpoll).
  split; unfold line_of; cbn [lg_budget lg_leases bg_capacity bg_used bg_line]; rewrite ?He; try done.
  - rewrite !Forall_app, Forall_cons in Hamt. rewrite !Forall_app. tauto.
  - by eapply nodup_out.
Qed.
Lemma release_inv :
  (t, amount) ∈ lg_leases ledger →
  ledger_inv (mk_Ledger (release amount (lg_budget ledger)) (drop_lease t (lg_leases ledger))).
Proof using Hinv.
  intros Hin. destruct Hinv as [Hcap Hused Hle Hamt Hnd].
  apply list_elem_of_split in Hin as (l & k & Hl). rewrite Hl in Hamt, Hnd.
  assert (Hd : drop_lease t (lg_leases ledger) = l ++ k)
    by (unfold drop_lease; rewrite Hl; apply filter_ne_split; by apply NoDup_app in Hnd as (_ & _ & ?)).
  assert (Ht : total (lg_leases ledger) = amount + total (l ++ k))
    by (rewrite Hl, !total_app; unfold total; cbn [foldr snd]; lia).
  rewrite !Forall_app, Forall_cons in Hamt. destruct Hamt as (Hline & Hl' & Ha & Hk). cbn in Ha.
  pose proof (total_nonneg 1 _ _ ltac:(lia) (proj2 (Forall_app _ _ _) (conj Hl' Hk))) as Hpos.
  assert (Hw : wrap64 (bg_used (lg_budget ledger) - amount) = total (l ++ k))
    by (unfold wrap64; rewrite Hused, Ht, Z.mod_small; lia).
  split; unfold line_of; cbn [lg_budget lg_leases release bg_capacity bg_used bg_line];
    rewrite ?Hd, ?Hw; try done; try lia.
  - by rewrite !Forall_app.
  - rewrite Permutation_app_comm in Hnd |- *. by eapply nodup_out.
Qed.
End StepInv.

Lemma budget_step_inv ledger event ledger' :
  budget_step ledger event ledger' → ledger_inv ledger → ledger_inv ledger'.
Proof. destruct 1; intros Hinv; eauto using arrive_inv, take_inv, leave_inv, release_inv. Qed.

Lemma budget_run_inv ledger events ledger' :
  budget_run ledger events ledger' → ledger_inv ledger → ledger_inv ledger'.
Proof. induction 1; [done|]. intros. eapply budget_step_inv; eauto. Qed.

Lemma budget_run_app ledger events ledger' events' ledger'' :
  budget_run ledger events ledger' → budget_run ledger' events' ledger'' →
  budget_run ledger (events ++ events') ledger''.
Proof.
  intros Hrun Hrun'. induction Hrun' as [|l1 l2 l3 events' event _ IH Hstep]; [by rewrite app_nil_r|].
  rewrite app_assoc. eapply run_snoc; eauto.
Qed.

Lemma budget_run_one ledger event ledger' :
  budget_step ledger event ledger' → budget_run ledger [event] ledger'.
Proof. intros. apply (run_snoc ledger ledger ledger' []); [constructor|done]. Qed.

(** ** Safety *)

(** C31: However its users interleave, a budget never hands out more than its
    capacity: what it counts as used is exactly the sum of the live leases, with
    no wrap-around, each between one and the whole budget; so once every lease
    is given back the whole capacity is free again. *)
Theorem budget_within_capacity capacity events ledger :
  capacity < 2 ^ 63 → budget_run (Ledger_new capacity) events ledger →
  bg_used (lg_budget ledger) = total (lg_leases ledger) ∧
  0 <= total (lg_leases ledger) <= Z.max capacity 1 ∧
  Forall (λ lease, 1 <= lease.2 <= Z.max capacity 1) (lg_leases ledger).
Proof.
  intros Hcap Hrun. pose proof (budget_run_inv _ _ _ Hrun (ledger_new_inv capacity Hcap)) as Hinv.
  assert (Hc : bg_capacity (lg_budget ledger) = Z.max capacity 1).
  { clear Hinv. remember (Ledger_new capacity) as ledger0 eqn:E.
    induction Hrun; [by subst|]. rewrite (budget_step_capacity _ _ _ H). by apply IHHrun. }
  destruct Hinv as [_ Hused Hle Hamt _]. rewrite Hc in *.
  apply Forall_app in Hamt as [_ Hamt].
  pose proof (total_nonneg 1 _ _ ltac:(lia) Hamt). split_and!; [done|lia|lia|done].
Qed.

(** ** Arrival order *)

Definition arrivals (events : list BudgetEvent) : list T :=
  omap (λ event, match event with Arrived t => Some t | _ => None end) events.
Definition grants (events : list BudgetEvent) : list T :=
  omap (λ event, match event with Granted t => Some t | _ => None end) events.

Lemma fmap_erase t l k x :
  (l ++ (t, x) :: k : list (T * Z)).*1 = l.*1 ++ t :: k.*1.
Proof. by rewrite fmap_app. Qed.

(** What was granted, then who waits, is a subsequence of the arrivals. *)
Lemma budget_run_order ledger events ledger' :
  ledger_inv ledger → budget_run ledger events ledger' → line_of ledger = [] →
  grants events ++ (line_of ledger').*1 `sublist_of` arrivals events.
Proof.
  intros Hinv Hrun Hempty. induction Hrun as [ledger|ledger l1 l2 events event Hrun IH Hstep].
  { by rewrite Hempty. }
  specialize (IH Hinv Hempty). pose proof (budget_run_inv _ _ _ Hrun Hinv) as Hinv1.
  unfold grants, arrivals. rewrite !omap_app. fold (grants events) (arrivals events).
  destruct Hstep as [l1 t amount _ _|l1 t amount halted budget Hin Hpoll|
                     l1 t amount budget Hin Hpoll|l1 t amount _]; cbn [omap list_omap].
  - unfold line_of at 1. cbn [lg_budget enter bg_line].
    rewrite app_nil_r, fmap_app, app_assoc. by apply sublist_app.
  - destruct (acquire_poll_took _ _ _ _ _ Hpoll) as (a & line & Hl & _ & ->).
    unfold line_of in *. cbn [lg_budget bg_line]. pose proof (proj1 (proj1 (NoDup_app _ _) (le_nodup _ Hinv1))) as Hnd. unfold line_of in Hnd.
    rewrite Hl in *. rewrite erase_front by done. rewrite app_nil_r, <- app_assoc. exact IH.
  - destruct (line_split l1 t amount Hinv1 Hin) as (l & k & Hl & He).
    unfold line_of in *. rewrite (acquire_poll_left _ _ _ _ Hpoll). cbn [lg_budget bg_line].
    rewrite He, !app_nil_r. rewrite Hl, fmap_erase in IH. rewrite fmap_app.
    etrans; [|exact IH]. apply sublist_app; [done|]. apply sublist_app; [done|].
    by apply sublist_cons.
  - by rewrite !app_nil_r.
Qed.

(** First come, first served: on a budget that started with nobody in line,
    the requests that were granted were granted in the order they arrived; only
    a request whose stream stopped is skipped, so a large amount is never
    overtaken by later small ones. *)
Theorem budget_fifo capacity events ledger :
  capacity < 2 ^ 63 → budget_run (Ledger_new capacity) events ledger →
  grants events `sublist_of` arrivals events.
Proof.
  intros Hcap Hrun. etrans; [|apply (budget_run_order _ _ _ (ledger_new_inv _ Hcap) Hrun eq_refl)].
  by apply sublist_inserts_r.
Qed.

(** ** Progress *)

Lemma release_one ledger t amount leases :
  ledger_inv ledger → lg_leases ledger = (t, amount) :: leases →
  ∃ ledger', budget_step ledger (Released t) ledger' ∧ lg_leases ledger' = leases ∧
    line_of ledger' = line_of ledger.
Proof.
  intros Hinv Hl. eexists. split; [eapply (step_release _ t amount); rewrite Hl; by left|].
  cbn [lg_leases]. split; [|done]. unfold drop_lease. rewrite Hl.
  apply (filter_ne_split t amount [] leases). cbn [app]. rewrite <- Hl.
  by destruct (proj1 (NoDup_app _ _) (le_nodup _ Hinv)) as (_ & _ & ?).
Qed.

Lemma release_all ledger :
  ledger_inv ledger →
  ∃ events ledger', budget_run ledger events ledger' ∧ lg_leases ledger' = [] ∧
    line_of ledger' = line_of ledger ∧ grants events = [] ∧
    Forall (λ event, ∃ t, event = Released t) events.
Proof.
  remember (lg_leases ledger) as leases eqn:E. revert ledger E.
  induction leases as [|[t amount] leases IH]; intros ledger E Hinv.
  { exists [], ledger. split_and!; (done || constructor). }
  destruct (release_one ledger t amount leases Hinv (eq_sym E)) as (l1 & Hstep & Hl & Hline).
  destruct (IH l1 (eq_sym Hl)) as (events & l2 & Hrun & ? & Hline2 & Hg & Hall);
    [by eapply budget_step_inv|].
  exists ([Released t] ++ events), l2. split_and!; [|done|by rewrite Hline2| |].
  - eapply budget_run_app; [by apply budget_run_one|done].
  - unfold grants in *. rewrite omap_app. by rewrite Hg.
  - constructor; [by eexists|done].
Qed.

(** With nothing taken, the front of the line always fits. *)
Lemma front_taken ledger t amount line halted :
  ledger_inv ledger → lg_leases ledger = [] → line_of ledger = (t, amount) :: line →
  ∃ ledger', budget_step ledger (Granted t) ledger' ∧ line_of ledger' = line ∧
    (acquire_poll t amount halted (lg_budget ledger)).1 = Took.
Proof.
  intros Hinv Hleases Hline. destruct Hinv as [Hcap Hused _ Hamt Hnd].
  rewrite Hleases in Hused. cbn in Hused. rewrite Hline in Hamt.
  apply Forall_app in Hamt as [Hamt _]. apply Forall_cons in Hamt as [Ha _]. cbn in Ha.
  assert (Hpoll : ∀ halted, acquire_poll t amount halted (lg_budget ledger) =
    (Took, mk_Budget (bg_capacity (lg_budget ledger)) amount line)).
  { intros h. unfold acquire_poll, line_of in *. rewrite Hline. cbn [at_front].
    rewrite bool_decide_true by done. rewrite Hused, Z.add_0_l. cbn [andb].
    unfold wrap64. rewrite Z.mod_small by lia.
    destruct (Z.leb_spec amount (bg_capacity (lg_budget ledger))); [|lia].
    rewrite erase_front; [done|]. rewrite <- Hline. by apply NoDup_app in Hnd as [? _]. }
  eexists. split_and!; [eapply (step_take _ t amount halted); [rewrite Hline; by left|apply Hpoll]|done|].
  by rewrite Hpoll.
Qed.

(** C32: Nobody starves: from every state a budget can reach, whoever waits in
    line is granted its amount (clamped to the whole budget, so even one above
    it) after finitely many steps of the leases being returned and the front
    taking; nobody ahead has to give up for that. *)
Theorem budget_no_starvation capacity events ledger t :
  capacity < 2 ^ 63 → budget_run (Ledger_new capacity) events ledger →
  t ∈ (line_of ledger).*1 →
  ∃ events' ledger', budget_run ledger events' ledger' ∧ t ∈ grants events' ∧
    Forall (λ event, ∃ t', event = Released t' ∨ event = Granted t') events'.
Proof.
  intros Hcap Hrun. pose proof (budget_run_inv _ _ _ Hrun (ledger_new_inv capacity Hcap)) as Hinv.
  clear Hrun. remember (line_of ledger) as line eqn:E. revert ledger E Hinv.
  induction line as [|[t' amount] line IH]; intros ledger E Hinv Hin; [by apply elem_of_nil in Hin|].
  destruct (release_all ledger Hinv) as (events1 & l1 & Hrun1 & Hleases & Hline1 & _ & Hall1).
  pose proof (budget_run_inv _ _ _ Hrun1 Hinv) as Hinv1.
  rewrite <- E in Hline1.
  destruct (front_taken l1 t' amount line false Hinv1 Hleases Hline1) as (l2 & Hstep & Hline2 & _).
  pose proof (budget_run_app _ _ _ _ _ Hrun1 (budget_run_one _ _ _ Hstep)) as Hrun2.
  assert (Hall2 : Forall (λ event, ∃ t', event = Released t' ∨ event = Granted t')
    (events1 ++ [Granted t'])).
  { apply Forall_app_2; [|repeat constructor; by exists t'; right].
    eapply Forall_impl; [exact Hall1|]. intros ? [t0 ->]. by exists t0; left. }
  apply elem_of_cons in Hin as [->|Hin].
  - exists (events1 ++ [Granted t']), l2. split_and!; [done| |done].
    unfold grants. rewrite omap_app, elem_of_app. right. by left.
  - destruct (IH l2 (eq_sym Hline2)) as (events3 & l3 & Hrun3 & Hin3 & Hall3);
      [by eapply budget_step_inv|done|].
    exists ((events1 ++ [Granted t']) ++ events3), l3. split_and!.
    + by eapply budget_run_app.
    + unfold grants in *. rewrite omap_app, elem_of_app. by right.
    + by apply Forall_app_2.
Qed.
(** ** One user's operations are steps *)

Lemma ledger_enter_step t amount ledger :
  t ∉ (line_of ledger).*1 → t ∉ (lg_leases ledger).*1 →
  budget_step ledger (Arrived t) (ledger_enter t amount ledger).
Proof. apply step_arrive. Qed.

(** What a poll of a waiting ticket does, with the line split at it. *)
Lemma ledger_poll_spec t amount halted ledger l k :
  ledger_inv ledger → line_of ledger = l ++ (t, clamp_amount (lg_budget ledger) amount) :: k →
  match ledger_poll t amount halted ledger with
  | (Took, ledger') =>
      l = [] ∧ budget_step ledger (Granted t) ledger' ∧ line_of ledger' = k ∧
      lg_leases ledger' = lg_leases ledger ++ [(t, clamp_amount (lg_budget ledger) amount)]
  | (Left, ledger') =>
      halted = true ∧ budget_step ledger (GaveUp t) ledger' ∧ line_of ledger' = l ++ k ∧
      lg_leases ledger' = lg_leases ledger
  | (Waits, ledger') =>
      halted = false ∧ (l ≠ [] ∨ lg_leases ledger ≠ [])
  end.
Proof.
  intros Hinv Hl. unfold ledger_poll. set (a := clamp_amount _ _) in *.
  assert (Hin : (t, a) ∈ line_of ledger) by (rewrite Hl, elem_of_app; right; left).
  pose proof (line_split _ _ _ Hinv Hin) as (l' & k' & Hl' & He).
  assert (Hnd : NoDup (line_of ledger).*1) by (by destruct (proj1 (NoDup_app _ _) (le_nodup _ Hinv))).
  assert (Herase : erase t (line_of ledger) = l ++ k).
  { unfold erase. rewrite Hl in Hnd |- *. by apply filter_ne_split. }
  destruct (acquire_poll t a halted (lg_budget ledger)) as [[] budget] eqn:Hpoll.
  - destruct (acquire_poll_took _ _ _ _ _ Hpoll) as (a' & line & Hf & _ & Hb).
    unfold line_of in *. rewrite Hf in Hl.
    assert (Hnil : l = []).
    { destruct l as [|[t' a''] l]; [done|]. injection Hl as <- <- ->. exfalso.
      rewrite Hf in Hnd. cbn in Hnd. apply NoDup_cons in Hnd as [Hnd _]. apply Hnd.
      rewrite fmap_app. cbn. rewrite elem_of_app. right. by left. }
    rewrite bool_decide_true by done.
    split_and!; [done|by eapply step_take| |done]. rewrite Hb. cbn. by rewrite Herase, Hnil.
  - rewrite bool_decide_false by done. rewrite app_nil_r.
    assert (Hh : halted = true)
      by (revert Hpoll; unfold acquire_poll; destruct (_ && _), halted; done).
    subst halted. split_and!; [done|by eapply step_leave| |done].
    rewrite (acquire_poll_left _ _ _ _ Hpoll). unfold line_of in *. cbn. exact Herase.
  - split; [by revert Hpoll; unfold acquire_poll; destruct (_ && _), halted|].
    destruct l as [|? l]; [right|by left]. intros Hnil.
    destruct (front_taken ledger t a k halted Hinv Hnil Hl) as (? & _ & _ & Ht).
    by rewrite Hpoll in Ht.
Qed.

Lemma ledger_release_step t amount ledger l k :
  ledger_inv ledger → lg_leases ledger = l ++ (t, amount) :: k →
  budget_step ledger (Released t) (ledger_release t ledger) ∧
  line_of (ledger_release t ledger) = line_of ledger ∧
  lg_leases (ledger_release t ledger) = l ++ k.
Proof.
  intros Hinv Hl.
  assert (Hnd : NoDup (lg_leases ledger).*1)
    by (by destruct (proj1 (NoDup_app _ _) (le_nodup _ Hinv)) as (_ & _ & ?)).
  assert (Hfind : list_find (λ lease : T * Z, lease.1 = t) (lg_leases ledger) =
    Some (length l, (t, amount))).
  { apply list_find_Some. rewrite Hl. split_and!; [by apply list_lookup_middle|done|].
    intros j [t' a'] Hj Hlt Heq. cbn in Heq. subst t'. rewrite lookup_app_l in Hj by done.
    rewrite Hl, fmap_erase in Hnd. apply NoDup_app in Hnd as (_ & Hd & _).
    apply (Hd t); [|by left]. apply list_elem_of_fmap. exists (t, a').
    split; [done|]. by eapply list_elem_of_lookup_2. }
  unfold ledger_release. rewrite Hfind. split_and!; [|done|].
  - apply step_release. rewrite Hl, elem_of_app. right. by left.
  - cbn. unfold drop_lease. rewrite Hl in *. by apply filter_ne_split.
Qed.
End Budget.

Arguments Budget : clear implicits.
Arguments Ledger : clear implicits.
Arguments BudgetEvent : clear implicits.

(** * Concrete instances *)

(** Two takers of a budget of ten; the second waits for the first. *)
Definition toy_run : list (BudgetEvent nat) := [Arrived 1%nat; Arrived 2%nat; Granted 1%nat].
Definition toy_ledger : Ledger nat :=
  mk_Ledger (mk_Budget 10 7 [(2%nat, 10)]) [(1%nat, 7)].

Lemma toy_budget_run : budget_run (Ledger_new 10) toy_run toy_ledger.
Proof.
  set (l1 := mk_Ledger (enter 1%nat 7 (Budget_new 10)) []).
  set (l2 := mk_Ledger (enter 2%nat 99 (lg_budget l1)) []).
  assert (H1 : budget_step (Ledger_new 10) (Arrived 1%nat) l1)
    by (apply (step_arrive (Ledger_new 10)); by intros ?%elem_of_nil).
  assert (H2 : budget_step l1 (Arrived 2%nat) l2)
    by (apply (step_arrive l1); [by intros [?|?%elem_of_nil]%elem_of_cons|by intros ?%elem_of_nil]).
  assert (H3 : budget_step l2 (Granted 1%nat) toy_ledger)
    by (apply (step_take l2 1%nat 7 false (lg_budget toy_ledger)); [left|vm_compute; reflexivity]).
  exact (run_snoc _ _ _ _ _ (run_snoc _ _ _ _ _ (run_snoc _ _ _ [] _ (run_nil _) H1) H2) H3).
Qed.

Lemma budget_within_capacity_witness : bg_used (lg_budget toy_ledger) = total (lg_leases toy_ledger).
Proof. apply (budget_within_capacity 10 toy_run); [lia|apply toy_budget_run]. Defined.

Lemma budget_fifo_witness : grants toy_run `sublist_of` arrivals toy_run.
Proof. apply (budget_fifo 10 toy_run toy_ledger); [lia|apply toy_budget_run]. Defined.

Lemma budget_no_starvation_witness :
  ∃ events' ledger', budget_run toy_ledger events' ledger' ∧ 2%nat ∈ grants events'.
Proof.
  destruct (budget_no_starvation 10 toy_run toy_ledger 2%nat) as (events' & ledger' & ? & ? & _);
    [lia|apply toy_budget_run|left|]. by exists events', ledger'.
Defined.
