(* ===== verification/Service.v ===== *)
(** The ConvertPages service, thread by thread (src/service/vlm_convert_service.h,
    src/service/vlm_convert_service.cpp): what a stream's options must satisfy,
    what one page must satisfy, what one page becomes, and GetServiceInfo.  How
    the threads interleave is in Stream.v. *)
From S2P Require Import Prelude Numbers Double Json Proto ImageCrop Builder OtslGrid Html Markdown Tree.
From S2P Require Import DoctagsItems DoctagsTree Doctags VlmProto Secret Presets Mapper Endpoint.
From S2P Require Import Completion VlmClient Config.

Definition kMaxTopLogprobs : Z := 20.

(** The PNG signature. *)
Definition kMagic : bytes :=
  ["137"%char; "P"%char; "N"%char; "G"%char; "013"%char; "010"%char; "026"%char; "010"%char].
Definition is_png (data : bytes) : bool := starts_with kMagic data.

Record PageJob := mk_PageJob {
  pj_image : PageImage;
  pj_call : VlmCall;
  pj_format : ResponseFormat;
  pj_model : bytes }.

(** * Options *)

(** What the stream's options resolve to. *)
Record Session := mk_Session {
  se_options : ConvertOptions;
  se_endpoint_override : bool;
  se_endpoint : bytes;
  se_model : bytes;
  se_prompt : bytes;
  se_stop : list bytes;
  se_max_tokens : Z;
  se_format : ResponseFormat;
  se_concurrency : Z }.

Definition client_error (code : StatusCode) (message : bytes) {A} : Status + A :=
  inl (mk_Status code message).

(** docling's string spelling over the resolved format. *)
Definition apply_format_raw (options : ConvertOptions) (format : ResponseFormat)
  : Status + ResponseFormat :=
  if bool_decide (co_response_format_raw options = []) then inr format else
  match response_format_from_docling (co_response_format_raw options) with
  | None =>
      client_error INVALID_ARGUMENT
        (lit "response_format_raw names no docling response format: " ++ [c_quote] ++
         co_response_format_raw options ++ [c_quote])
  | Some raw =>
      if negb (bool_decide (co_response_format options = RESPONSE_FORMAT_UNSPECIFIED)) &&
         negb (bool_decide (co_response_format options = raw)) then
        client_error INVALID_ARGUMENT
          (lit "response_format " ++ ResponseFormat_Name (co_response_format options) ++
           lit " conflicts with response_format_raw " ++ [c_quote] ++
           co_response_format_raw options ++ [c_quote])
      else inr raw
  end.

(** Where the stream's pages go: whether that is an override, and the
    endpoint. *)
Definition endpoint_for (config : Config) (options : ConvertOptions) : Status + (bool * bytes) :=
  let endpoint_override := negb (bool_decide (co_endpoint options = [])) &&
                           negb (same_endpoint (co_endpoint options) (cf_endpoint config)) in
  if endpoint_override && negb (cf_allow_endpoint_override config) then
    client_error PERMISSION_DENIED
      (lit "per-request endpoint overrides are disabled on this server (the " ++
       lit "operator enables them with GRPC_VLM_ALLOW_ENDPOINT_OVERRIDE=true)")
  else
  let endpoint := if endpoint_override then co_endpoint options else cf_endpoint config in
  if bool_decide (endpoint = []) then
    client_error FAILED_PRECONDITION
      (if cf_allow_endpoint_override config
       then lit "no VLM endpoint configured (GRPC_VLM_ENDPOINT) and no " ++
            lit "per-request endpoint override"
       else lit "no VLM endpoint configured (GRPC_VLM_ENDPOINT)")
  else
  let problem := endpoint_error endpoint in
  if bool_decide (problem = []) then inr (endpoint_override, endpoint)
  else client_error INVALID_ARGUMENT problem.

(** What the endpoint is asked, and the format its answers are read as. *)
Definition format_for (options : ConvertOptions) : Status + (Resolved * ResponseFormat) :=
  match resolve_request options with
  | None => client_error INVALID_ARGUMENT
              (lit "preset resolves to no model name (set preset or preset_raw)")
  | Some r =>
      if negb (ResponseFormat_IsValid (rs_format r)) then
        client_error INVALID_ARGUMENT
          (lit "unknown response_format value: " ++ to_string (ResponseFormat_number (rs_format r)))
      else
      match apply_format_raw options (rs_format r) with
      | inl status => inl status
      | inr format =>
          if response_format_served format then inr (r, format)
          else
            client_error UNIMPLEMENTED
              (lit "response_format " ++ ResponseFormat_Name format ++
               lit " is not served by this server (MinerU2's two-pass protocol " ++
               lit "is not implemented)")
      end
  end.

Definition check_logprobs (config : Config) (options : ConvertOptions) : Status + unit :=
  if kMaxTopLogprobs <? co_top_logprobs options then
    client_error INVALID_ARGUMENT
      (lit "top_logprobs must be 0.." ++ to_string kMaxTopLogprobs ++ lit ", got " ++
       to_string (co_top_logprobs options))
  else if (0 <? co_top_logprobs options) && negb (cf_request_logprobs config) then
    client_error FAILED_PRECONDITION
      (lit "top_logprobs needs logprobs, which this server does not request " ++
       lit "from its endpoint (GRPC_VLM_LOGPROBS=false)")
  else inr tt.

Definition accept_options (config : Config) (first : option ConvertPagesRequest) : Status + Session :=
  match first with
  | Some (Some (kOptions options)) =>
      match endpoint_for config options with
      | inl status => inl status
      | inr (endpoint_override, endpoint) =>
          match format_for options with
          | inl status => inl status
          | inr (r, format) =>
              match check_logprobs config options with
              | inl status => inl status
              | inr _ =>
                  let concurrency :=
                    if co_concurrency options =? 0 then cf_concurrency config
                    else Z.min (cf_concurrency config) (co_concurrency options) in
                  inr (mk_Session options endpoint_override endpoint (rs_model r) (rs_prompt r)
                         (rs_stop r) (rs_max_tokens r) format concurrency)
              end
          end
      end
  | _ => client_error INVALID_ARGUMENT (lit "first stream message must be ConvertOptions")
  end.

(** * Pages *)

(** The checks of the read loop on one page; [None] lets it in. *)
Definition check_page (config : Config) (started : Z) (image : PageImage) : option Status :=
  if im_page_no image =? 0 then
    Some (mk_Status INVALID_ARGUMENT (lit "page_no is 1-based; got 0"))
  else if int32_max <? im_page_no image then
    Some (mk_Status INVALID_ARGUMENT (lit "page_no above 2147483647: " ++ to_string (im_page_no image)))
  else if cf_max_page_bytes config <? Z.of_nat (length (im_png image)) then
    Some (mk_Status RESOURCE_EXHAUSTED
      (lit "page PNG above the " ++ to_string (cf_max_page_bytes config) ++ lit " byte cap"))
  else if negb (is_png (im_png image)) then
    Some (mk_Status INVALID_ARGUMENT (lit "page bytes are not a PNG"))
  else if cf_max_pages config <=? started then
    Some (mk_Status RESOURCE_EXHAUSTED
      (lit "stream above the " ++ to_string (cf_max_pages config) ++ lit " page cap"))
  else None.

(** The job a page is queued as; the raster stays in the image until its
    worker moves it into the call. *)
Definition page_job (config : Config) (session : Session) (image : PageImage) : PageJob :=
  mk_PageJob image
    (mk_VlmCall (se_endpoint session) (se_model session) (se_prompt session) (se_stop session)
       (se_max_tokens session) (co_top_logprobs (se_options session)) (cf_request_logprobs config)
       [] (cf_vlm_timeout_seconds config)
       (if se_endpoint_override session then Secret_empty else cf_vlm_api_key config) false)
    (se_format session) (se_model session).

(** The stop reasons the shared enum names. *)
Definition stop_reason_of (reason : bytes) : VlmStopReason :=
  if reason =b lit "length" then VLM_STOP_REASON_LENGTH
  else if reason =b lit "stop_sequence" then VLM_STOP_REASON_STOP_SEQUENCE
  else if (reason =b lit "stop") || (reason =b lit "end_of_sequence")
  then VLM_STOP_REASON_END_OF_SEQUENCE
  else if reason =b lit "content_filter" then VLM_STOP_REASON_CONTENT_FILTERED
  else if reason =b lit "inference_error" then VLM_STOP_REASON_INFERENCE_ERROR
  else VLM_STOP_REASON_UNSPECIFIED.

Definition hypothesis_of (alternate : TokenAlternative) : HypothesisItem :=
  match ta_logprob alternate with
  | Some logprob =>
      mk_HypothesisItem (ta_token alternate) (Some logprob) (Some (lit "token_logprob"))
  | None => mk_HypothesisItem (ta_token alternate) None None
  end.

Section Convert.
Context `{ProtobufSize} `{Stb} `{Json}.
(** GRPC_VLM_VERSION, a compile definition of the build. *)
Variable version : bytes.
Variable backoff_base_ms : Z.

(** The page context [convert_page] builds from the call's result. *)
Definition page_context (config : Config) (job : PageJob) (result : VlmResult) : PageContext :=
  let model := if bool_decide (vr_model result = []) then pj_model job else vr_model result in
  mk_PageContext (im_page_no (pj_image job)) (im_width (pj_image job)) (im_height (pj_image job))
    (im_png (pj_image job))
    (mk_CropBudget (max_crops CropBudget_default) (max_area_pages CropBudget_default)
       (cf_max_page_crop_bytes config))
    (mk_CollectorSource (lit "vlm-convert") (pj_model job) version
       (fst <$> vr_logprobs result)
       (match vr_logprobs result with Some _ => Some (lit "page_mean_token_logprob") | None => None end)
       (snd <$> vr_logprobs result))
    (Some (mk_GenerationSource model (Some (endpoint_origin (vc_endpoint (pj_call job))))
       (if bool_decide (vr_finish_reason result = []) then None else Some (vr_finish_reason result))
       (fst <$> vr_usage result) (snd <$> vr_usage result)
       (if bool_decide (vr_finish_reason result = []) then VLM_STOP_REASON_UNSPECIFIED
        else stop_reason_of (vr_finish_reason result))))
    (if bool_decide (vr_alternatives result = []) then None
     else Some (mk_AlternativesMetaField (hypothesis_of <$> vr_alternatives result) (Some model))).

(** The call the worker makes: the page's bytes and the stream's halt flag as
    its cancel probe. *)
Definition worker_call (job : PageJob) : VlmCall :=
  let call := pj_call job in
  mk_VlmCall (vc_endpoint call) (vc_model call) (vc_prompt call) (vc_stop call) (vc_max_tokens call)
    (vc_top_logprobs call) (vc_logprobs call) (im_png (pj_image job)) (vc_timeout_seconds call)
    (vc_api_key call) true.

(** The event a result becomes; [None] is the return of false. *)
Definition page_event (config : Config) (job : PageJob) (result : VlmResult)
  : option ConvertPagesResponse :=
  if vr_cancelled result then None else
  let page := page_context config job result in
  if negb (vr_ok result) then
    Some (kPageRaw (mk_PageRaw (page_no page) [] (vr_error result)))
  else
    match map_response (pj_format job) (vr_text result) page Document_empty (Some []) with
    | Mapped fragment warnings =>
        Some (kPageDocument (mk_PageDocument (page_no page) fragment (default [] warnings)))
    | MapFailed map_error =>
        Some (kPageRaw (mk_PageRaw (page_no page) (vr_text result) map_error))
    end.

Definition convert_page (config : Config) (script : Script) (job : PageJob)
  : option ConvertPagesResponse * list HttpRequest :=
  let '(result, sent) := generate backoff_base_ms script (worker_call job) in
  (page_event config job result, sent).

(** What the worker makes of an exception out of [convert_page]. *)
Definition thrown_event (job : PageJob) (what : bytes) : ConvertPagesResponse :=
  kPageRaw (mk_PageRaw (im_page_no (pj_image job)) []
    (lit "internal error converting the page: " ++ what)).
Definition has_page_raw (event : ConvertPagesResponse) : bool :=
  match event with kPageRaw _ => true | _ => false end.

(** * GetServiceInfo *)

(** The configured preset names, known ones and others. *)
Definition report_preset (name : bytes) : VlmPreset + bytes :=
  match find_preset_by_name name with Some spec => inl (ps_preset spec) | None => inr name end.
Definition lefts {A B} (l : list (A + B)) : list A :=
  omap (λ x, match x with inl a => Some a | inr _ => None end) l.
Definition rights {A B} (l : list (A + B)) : list B :=
  omap (λ x, match x with inl _ => None | inr b => Some b end) l.
(** The enum's values, from ResponseFormat_MIN to ResponseFormat_MAX. *)
Definition all_formats : list ResponseFormat := ResponseFormat_of ∘ Z.of_nat <$> seq 0 14.

Definition get_service_info (config : Config) : GetServiceInfoResponse :=
  let configured := negb (bool_decide (cf_endpoint config = [])) in
  let reported :=
    if configured then
      if bool_decide (cf_presets config = []) then inl ∘ ps_preset <$> all_presets
      else report_preset <$> cf_presets config
    else [] in
  mk_GetServiceInfoResponse version
    (if configured then endpoint_origin (cf_endpoint config) else [])
    (lefts reported) (rights reported) (cf_concurrency config mod 2 ^ 32)
    (cf_max_page_bytes config) (cf_max_pages config mod 2 ^ 32)
    (mk_UiInfo (lit "VLM Convert") (lit "/ui/vlm-convert")
       (lit "Calls an external VLM server for document conversion"))
    (filter (λ format, response_format_served format = true) all_formats).
End Convert.

(** * What an accepted stream is *)

Lemma apply_format_raw_inr options format format' :
  apply_format_raw options format = inr format' →
  format' = format ∧ co_response_format_raw options = [] ∨
  docling_response_format_name format' = co_response_format_raw options ∧
  (co_response_format options = RESPONSE_FORMAT_UNSPECIFIED ∨ co_response_format options = format').
Proof.
  unfold apply_format_raw. case_bool_decide as Hnil; [intros [= <-]; by left|].
  destruct (response_format_from_docling _) as [raw|] eqn:E; [|done].
  apply response_format_name_iff in E as [_ Hname].
  repeat case_bool_decide; cbn [negb andb]; intros Hr; try done; injection Hr as <-; auto.
Qed.

Record accepted (config : Config) (options : ConvertOptions) (session : Session) : Prop := {
  ac_options : se_options session = options;
  ac_endpoint : ∃ p, parse_endpoint (se_endpoint session) = inr p;
  ac_home : se_endpoint_override session = false → se_endpoint session = cf_endpoint config;
  ac_override : se_endpoint_override session = true →
    cf_allow_endpoint_override config = true ∧ se_endpoint session = co_endpoint options ∧
    same_endpoint (co_endpoint options) (cf_endpoint config) = false;
  ac_model : se_model session ≠ [];
  ac_prompt : se_prompt session ≠ [];
  ac_max_tokens : 0 < se_max_tokens session;
  ac_served : response_format_served (se_format session) = true;
  ac_format : co_response_format options = RESPONSE_FORMAT_UNSPECIFIED ∨
              co_response_format options = se_format session;
  ac_format_raw : co_response_format_raw options = [] ∨
                  docling_response_format_name (se_format session) = co_response_format_raw options;
  ac_logprobs : co_top_logprobs options <= kMaxTopLogprobs ∧
                (0 < co_top_logprobs options → cf_request_logprobs config = true);
  ac_concurrency : se_concurrency session =
    if co_concurrency options =? 0 then cf_concurrency config
    else Z.min (cf_concurrency config) (co_concurrency options) }.

Lemma endpoint_for_inr config options endpoint_override endpoint :
  endpoint_for config options = inr (endpoint_override, endpoint) →
  (∃ p, parse_endpoint endpoint = inr p) ∧
  (endpoint_override = false → endpoint = cf_endpoint config) ∧
  (endpoint_override = true →
     cf_allow_endpoint_override config = true ∧ endpoint = co_endpoint options ∧
     same_endpoint (co_endpoint options) (cf_endpoint config) = false).
Proof.
  unfold endpoint_for.
  destruct (negb (bool_decide (co_endpoint options = [])) && _) eqn:Hov; cbn [andb].
  - destruct (cf_allow_endpoint_override config); [|done]. cbn [negb].
    destruct (bool_decide (co_endpoint options = [])); [done|].
    destruct (bool_decide (endpoint_error _ = [])) eqn:He; [|done]. intros [= <- <-].
    apply bool_decide_eq_true, endpoint_error_nil in He. split_and!; try done.
    intros _. split_and!; try done. by destruct (same_endpoint _ _).
  - destruct (bool_decide (cf_endpoint config = [])); [done|].
    destruct (bool_decide (endpoint_error _ = [])) eqn:He; [|done]. intros [= <- <-].
    apply bool_decide_eq_true, endpoint_error_nil in He. done.
Qed.

Lemma format_for_inr options r format :
  format_for options = inr (r, format) →
  resolve_request options = Some r ∧ response_format_served format = true ∧
  (co_response_format options = RESPONSE_FORMAT_UNSPECIFIED ∨ co_response_format options = format) ∧
  (co_response_format_raw options = [] ∨
   docling_response_format_name format = co_response_format_raw options).
Proof.
  unfold format_for. destruct (resolve_request options) as [r'|] eqn:Hr; [|done].
  destruct (ResponseFormat_IsValid _); [|done]. cbn [negb].
  destruct (apply_format_raw options (rs_format r')) as [|format'] eqn:Hf; [done|].
  destruct (response_format_served format') eqn:Hs; [|done]. intros [= <- <-].
  apply apply_format_raw_inr in Hf.
  destruct (proj2 (resolve_request_fields options) r' Hr) as (_ & _ & _ & _ & _ & Hfmt & _).
  split_and!; [done|done| |destruct Hf as [[_ ?]|[? _]]; auto].
  destruct Hf as [[-> _]|[_ ?]]; [|done].
  destruct (decide (co_response_format options = RESPONSE_FORMAT_UNSPECIFIED)); [by left|].
  right. symmetry. by apply Hfmt.
Qed.

Lemma accept_options_accepted config first session :
  accept_options config first = inr session →
  ∃ options, first = Some (Some (kOptions options)) ∧ accepted config options session.
Proof.
  unfold accept_options. destruct first as [[[options| |]|]|]; try done.
  destruct (endpoint_for config options) as [|[endpoint_override endpoint]] eqn:He; [done|].
  destruct (format_for options) as [|[r format]] eqn:Hf; [done|].
  destruct (check_logprobs config options) eqn:Hl; [done|]. intros [= <-].
  exists options. split; [done|].
  apply endpoint_for_inr in He as (Hp & Hhome & Hover). apply format_for_inr in Hf as (Hr & Hs & Hf1 & Hf2).
  destruct (proj2 (resolve_request_fields options) r Hr) as (Hm & Hpr & Ht & _).
  split; cbn [se_options se_endpoint se_endpoint_override se_model se_prompt se_max_tokens se_format
              se_concurrency]; try done.
  revert Hl. unfold check_logprobs.
  destruct (Z.ltb_spec kMaxTopLogprobs (co_top_logprobs options)); [done|].
  destruct (Z.ltb_spec 0 (co_top_logprobs options)); cbn [andb]; [|intros _; split; [done|lia]].
  by destruct (cf_request_logprobs config).
Qed.

(** C16: An accepted stream is one the service can carry out: its endpoint
    parses, its model and prompt are set, its format is one this server maps
    and the one the request named in either spelling, its alternates are within
    what endpoints allow, and its concurrency lies between one and the
    server's. *)
Theorem accept_options_sound config first session :
  sound_config config → accept_options config first = inr session →
  accepted config (se_options session) session ∧
  (0 <= co_concurrency (se_options session) → 1 <= se_concurrency session <= cf_concurrency config).
Proof.
  intros Hc (options & -> & Ha)%accept_options_accepted.
  rewrite (ac_options _ _ _ Ha). split; [done|]. intros Hn.
  pose proof (sc_concurrency _ Hc). rewrite (ac_concurrency _ _ _ Ha).
  destruct (Z.eqb_spec (co_concurrency options) 0); lia.
Qed.

(** A request may name another endpoint only when the operator allowed it:
    the stream is refused PERMISSION_DENIED exactly when it names one that is
    not the configured endpoint (in any spelling) and overrides are off. *)
Theorem override_refused config options :
  (∃ status, accept_options config (Some (Some (kOptions options))) = inl status ∧
             status_code status = PERMISSION_DENIED) ↔
  co_endpoint options ≠ [] ∧ same_endpoint (co_endpoint options) (cf_endpoint config) = false ∧
  cf_allow_endpoint_override config = false.
Proof.
  unfold accept_options.
  assert (Hformat : ∀ status, format_for options = inl status → status_code status ≠ PERMISSION_DENIED).
  { unfold format_for, apply_format_raw, client_error. intros status Hf Hs.
    repeat case_match; simplify_eq; done. }
  assert (Hlogprobs : ∀ status, check_logprobs config options = inl status →
    status_code status ≠ PERMISSION_DENIED).
  { unfold check_logprobs, client_error. intros status Hf Hs. repeat case_match; simplify_eq; done. }
  split.
  - intros (status & Hst & Hcode).
    destruct (endpoint_for config options) as [status'|[ov e]] eqn:He.
    + injection Hst as ->. revert He. unfold endpoint_for, client_error.
      destruct (decide (co_endpoint options = [])) as [->|Hne].
      { rewrite bool_decide_true by done. cbn [negb andb].
        repeat case_match; intros; simplify_eq; done. }
      rewrite bool_decide_false by done. cbn [negb andb].
      destruct (same_endpoint _ _); cbn [negb andb]; [repeat case_match; intros; simplify_eq; done|].
      destruct (cf_allow_endpoint_override config); cbn [negb]; [|done].
      repeat case_match; intros; simplify_eq; done.
    + destruct (format_for options) as [st|[r f]] eqn:Hf; [by injection Hst as ->; destruct (Hformat _ eq_refl)|].
      destruct (check_logprobs config options) eqn:Hl; [by injection Hst as ->; destruct (Hlogprobs _ eq_refl)|done].
  - intros (Hne & Hsame & Hallow). unfold endpoint_for. rewrite Hsame, Hallow.
    rewrite bool_decide_false by done. cbn [negb andb]. by eexists.
Qed.

(** ** Pages let in *)

(** The read loop lets a page in exactly when its number fits a
    provenance's int32, its PNG is one by signature and within the byte cap, and
    the stream has pages left; then the number stored on every item is the
    page's own, with no wrap. *)
Theorem check_page_iff config started image :
  0 <= im_page_no image →
  (check_page config started image = None ↔
   1 <= im_page_no image <= int32_max ∧
   Z.of_nat (length (im_png image)) <= cf_max_page_bytes config ∧
   (∃ data, im_png image = kMagic ++ data) ∧ started < cf_max_pages config) ∧
  (check_page config started image = None → to_int32 (im_page_no image) = im_page_no image).
Proof.
  intros Hpos. assert (Hiff : check_page config started image = None ↔
    1 <= im_page_no image <= int32_max ∧
    Z.of_nat (length (im_png image)) <= cf_max_page_bytes config ∧
    (∃ data, im_png image = kMagic ++ data) ∧ started < cf_max_pages config).
  { rewrite <- starts_with_app. fold (is_png (im_png image)). unfold check_page.
    destruct (Z.eqb_spec (im_page_no image) 0); [split; [done|lia]|].
    destruct (Z.ltb_spec int32_max (im_page_no image)); [split; [done|lia]|].
    destruct (Z.ltb_spec (cf_max_page_bytes config) (Z.of_nat (length (im_png image)))); [split; [done|lia]|].
    destruct (is_png (im_png image)); cbn [negb]; [|by split; [|intros (_ & _ & ? & _)]].
    destruct (Z.leb_spec (cf_max_pages config) started); [split; [done|lia]|].
    split; [intros _; split_and!; (done || lia)|done]. }
  split; [done|]. rewrite Hiff. intros (Hr & _). unfold to_int32, int32_max in *.
  rewrite Z.mod_small; lia.
Qed.

Section ConvertFacts.
Context `{ProtobufSize} `{Stb} `{Json}.
Variables (version : bytes) (backoff_base_ms : Z).

(** C15: Page images and the operator's key stay home: a request that carries
    the key goes to the configured endpoint's own origin and target, and with
    overrides off so does every request, whatever the stream's options say. *)
Theorem requests_confined config first session image script result sent r :
  accept_options config first = inr session →
  generate backoff_base_ms script (worker_call (page_job config session image)) = (result, sent) →
  r ∈ sent →
  hr_authorization r ≠ None ∨ cf_allow_endpoint_override config = false →
  ∃ p, parse_endpoint (cf_endpoint config) = inr p ∧ hr_origin r = pe_origin p ∧
       hr_target r = pe_target p.
Proof.
  intros (options & _ & Ha)%accept_options_accepted Hg [k Hk]%list_elem_of_lookup Hwhy.
  destruct (generate_sent _ _ _ _ _ Hg) as (_ & Hreq & _).
  destruct (Hreq k r Hk) as ((p & Hp & Ho & Ht) & Hauth & _).
  assert (Hhome : se_endpoint_override session = false).
  { destruct Hwhy as [Hkey|Hallow].
    - rewrite Hauth in Hkey. destruct (se_endpoint_override session) eqn:E; [|done].
      exfalso. revert Hkey. unfold worker_call, page_job. cbn [pj_call vc_api_key]. rewrite E.
      by intros [].
    - destruct (se_endpoint_override session) eqn:E; [|done].
      destruct (ac_override _ _ _ Ha E) as (? & _). congruence. }
  exists p. rewrite <- (ac_home _ _ _ Ha Hhome). done.
Qed.

(** C14: A page costs at most six requests and becomes exactly one thing, decided
    by what its call brought back (the completion of the last request's answer
    whenever that was a 200): its fragment, with the warnings the mapper noted,
    exactly when the call brought a text that reads as the declared format; its
    raw text with the mapper's reason when the text does not; the call's error
    with no text when there is none; and nothing exactly when the call was
    cancelled, which only the stream's halt does.  Whatever it becomes carries its
    own page number. *)
Theorem convert_page_outcome config script job result requests event sent :
  generate backoff_base_ms script (worker_call job) = (result, requests) →
  convert_page version backoff_base_ms config script job = (event, sent) →
  sent = requests ∧ (length sent ≤ 6)%nat ∧
  (∀ k body, length sent = S k → at_response (sc_attempt script k) = Answered 200 body →
     result = read_completion body) ∧
  match event with
  | None => vr_cancelled result = true ∧ cancels script
  | Some (kPageDocument d) =>
      vr_cancelled result = false ∧ vr_ok result = true ∧
      pd_page_no d = im_page_no (pj_image job) ∧
      ∃ warnings,
        map_response (pj_format job) (vr_text result) (page_context version config job result)
          Document_empty (Some []) = Mapped (pd_document d) warnings ∧
        pd_warnings d = default [] warnings
  | Some (kPageRaw raw) =>
      vr_cancelled result = false ∧
      pr_page_no raw = im_page_no (pj_image job) ∧
      if vr_ok result then
        pr_text raw = vr_text result ∧
        map_response (pj_format job) (vr_text result) (page_context version config job result)
          Document_empty (Some []) = MapFailed (pr_error raw)
      else pr_text raw = [] ∧ pr_error raw = vr_error result
  | Some _ => False
  end.
Proof.
  intros Hg. unfold convert_page. rewrite Hg. intros [= <- <-].
  destruct (generate_answer _ _ _ _ _ Hg) as [Hanswer _].
  split_and!; [done|by destruct (generate_sent _ _ _ _ _ Hg)|exact Hanswer|]. unfold page_event.
  destruct (vr_cancelled result) eqn:Hc.
  { by destruct (generate_cancelled_facts _ _ _ _ _ Hg Hc) as (_ & ? & _). }
  destruct (vr_ok result) eqn:Hok; cbn [negb]; [|done].
  destruct (map_response _ _ _ _ _) as [fragment warnings|map_error] eqn:Hmap; cbn; [|done].
  split_and!; [done..|]. by exists warnings.
Qed.

(** C17: What a mapped page promises its consumer, whichever format it
    came in: a complete tree (every item attached to the body through parents
    that list it), the page's entry under its own number, and at most 100
    inline images within the configured byte cap. *)
Theorem converted_page_sound config script job d sent :
  sound_config config →
  1 <= im_page_no (pj_image job) <= int32_max →
  convert_page version backoff_base_ms config script job = (Some (kPageDocument d), sent) →
  (∀ k i, is_Some (item_refs (pd_document d) k i) → attached (pd_document d) (Some (mk_BodyChild k i))) ∧
  doc_pages (pd_document d) !! im_page_no (pj_image job) =
    Some (mk_PageItem (im_page_no (pj_image job)) (of_Z (im_width (pj_image job)))
            (of_Z (im_height (pj_image job)))) ∧
  picture_bytes (doc_pictures (pd_document d)) <= cf_max_page_crop_bytes config ∧
  picture_crops (doc_pictures (pd_document d)) <= 100.
Proof.
  intros Hconfig Hno. unfold convert_page.
  destruct (generate _ _ _) as [result sent'] eqn:Hg. intros [= Hevent _].
  unfold page_event in Hevent. destruct (vr_cancelled result); [done|].
  destruct (vr_ok result); [|done]. cbn [negb] in Hevent.
  destruct (map_response _ _ _ _ _) as [fragment warnings|] eqn:Hmap; [|done].
  injection Hevent as <-. cbn [pd_document].
  destruct (map_response_facts _ _ _ _ _ _ Hmap) as (Htree & _ & Hpage & Himages).
  assert (Hi : to_int32 (im_page_no (pj_image job)) = im_page_no (pj_image job)).
  { apply to_int32_id. unfold int32_min, int32_max in *. lia. }
  split; [done|split].
  - cbn [page_context page_no page_width page_height] in Hpage. by rewrite Hi in Hpage.
  - apply Himages. cbn. pose proof (sc_max_page_crop_bytes _ Hconfig). lia.
Qed.

(** ** What the service says of itself *)

Lemma lefts_rights {A B} (l : list (A + B)) : (length (lefts l) + length (rights l) = length l)%nat.
Proof. induction l as [|[a|b] l IH]; cbn; unfold lefts, rights in *; cbn; lia. Qed.

(** GetServiceInfo shows of the endpoint its origin only, so two endpoints
    that differ in path or query are indistinguishable; lists exactly the
    formats the server maps; and reports every configured preset once, a
    built-in one by its number and any other by its name. *)
Theorem get_service_info_spec config :
  let info := get_service_info version config in
  (cf_endpoint config = [] → si_endpoint info = [] ∧ si_presets info = [] ∧ si_raw_presets info = []) ∧
  (cf_endpoint config ≠ [] → si_endpoint info = endpoint_origin (cf_endpoint config)) ∧
  (∀ format, format ∈ si_response_formats info ↔ response_format_served format = true) ∧
  (cf_endpoint config ≠ [] → cf_presets config ≠ [] →
   (length (si_presets info) + length (si_raw_presets info) = length (cf_presets config))%nat ∧
   (∀ name, name ∈ si_raw_presets info ↔ name ∈ cf_presets config ∧ find_preset_by_name name = None)).
Proof.
  cbv zeta. unfold get_service_info. split_and!.
  - intros Hnil. by rewrite bool_decide_true.
  - intros Hne. by rewrite bool_decide_false.
  - intros format. cbn [si_response_formats]. rewrite list_elem_of_filter. split; [by intros []|].
    intros Hs. split; [done|].
    assert (Hall : forallb (λ f, negb (response_format_served f) ||
      bool_decide (f ∈ all_formats)) (fst <$> ResponseFormat_values) = true) by (vm_compute; reflexivity).
    rewrite forallb_forall in Hall. specialize (Hall format). rewrite Hs in Hall.
    apply (bool_decide_eq_true (format ∈ all_formats)), Hall.
    destruct format; try done; cbn; tauto.
  - intros Hne. rewrite bool_decide_false by done. cbn [negb]. intros Hp.
    rewrite bool_decide_false by done. cbn [si_presets si_raw_presets]. split.
    + rewrite lefts_rights. by rewrite length_fmap.
    + intros name. unfold rights. rewrite list_elem_of_omap. split.
      * intros (x & Hx & Hn). apply list_elem_of_fmap in Hx as (name' & -> & Hin).
        unfold report_preset in Hn. destruct (find_preset_by_name name') eqn:E; [done|].
        injection Hn as <-. done.
      * intros [Hin Hnone]. exists (report_preset name). split; [by apply list_elem_of_fmap_2|].
        unfold report_preset. by rewrite Hnone.
Qed.
End ConvertFacts.

(** * Concrete instances *)

Lemma toy_config_sound : sound_config toy_config.
Proof.
  split; cbn; try lia; try (right; left; vm_compute; reflexivity); try (right; lia).
  right. eexists. vm_compute. reflexivity.
Qed.

Definition toy_options : ConvertOptions :=
  mk_ConvertOptions VLM_PRESET_UNSPECIFIED (lit "mine") RESPONSE_FORMAT_MARKDOWN [] [] 4 true 2
    (lit "markdown").
Definition toy_first : option ConvertPagesRequest := Some (Some (kOptions toy_options)).
Definition toy_session : Session :=
  match accept_options toy_config toy_first with
  | inr session => session
  | inl _ => mk_Session toy_options false [] [] [] [] 0 RESPONSE_FORMAT_UNSPECIFIED 0
  end.
Definition toy_image : PageImage := mk_PageImage (kMagic ++ lit "raster") 7 612 792.
Definition toy_job : PageJob := page_job toy_config toy_session toy_image.

Lemma accept_options_sound_witness :
  accept_options toy_config toy_first = inr toy_session ∧
  1 <= se_concurrency toy_session <= cf_concurrency toy_config.
Proof.
  split; [vm_compute; reflexivity|].
  apply (accept_options_sound toy_config toy_first toy_session toy_config_sound);
    [vm_compute; reflexivity|vm_compute; discriminate].
Defined.

Lemma check_page_iff_witness :
  check_page toy_config 511 toy_image = None ∧ check_page toy_config 512 toy_image ≠ None.
Proof.
  split; [|vm_compute; discriminate].
  apply (check_page_iff toy_config 511 toy_image); [cbn; lia|].
  split_and!; [by compute..| |by compute]. by exists (lit "raster").
Defined.

Lemma requests_confined_witness :
  let '(result, sent) := @generate toy_json 0 (toy_script (Answered 200 (lit "ok")))
                           (worker_call toy_job) in
  ∀ r, r ∈ sent → ∃ p, parse_endpoint (cf_endpoint toy_config) = inr p ∧ hr_origin r = pe_origin p ∧
    hr_target r = pe_target p.
Proof.
  destruct (@generate toy_json 0 (toy_script (Answered 200 (lit "ok"))) (worker_call toy_job))
    as [result sent] eqn:E.
  intros r Hr.
  apply (@requests_confined toy_json 0 toy_config toy_first toy_session toy_image
    (toy_script (Answered 200 (lit "ok"))) result sent r); [vm_compute; reflexivity|exact E|done|].
  right. reflexivity.
Defined.

Lemma convert_page_outcome_witness :
  ∃ d sent, @convert_page toy_size toy_stb toy_json (lit "1.0") 0 toy_config
      (toy_script (Answered 200 (lit "ok"))) toy_job = (Some (kPageDocument d), sent) ∧
    pd_page_no d = 7.
Proof.
  destruct (@generate toy_json 0 (toy_script (Answered 200 (lit "ok"))) (worker_call toy_job))
    as [result requests] eqn:Hg.
  destruct (@convert_page toy_size toy_stb toy_json (lit "1.0") 0 toy_config
    (toy_script (Answered 200 (lit "ok"))) toy_job) as [event sent] eqn:E.
  destruct event as [[| d | |]|]; try (apply (f_equal fst) in E; vm_compute in E; discriminate E).
  exists d, sent. split; [done|].
  by destruct (@convert_page_outcome toy_size toy_stb toy_json (lit "1.0") 0 toy_config
    (toy_script (Answered 200 (lit "ok")))
    toy_job result requests _ sent Hg E) as (_ & _ & _ & _ & _ & -> & _).
Defined.

Lemma converted_page_sound_witness :
  ∃ d sent, @convert_page toy_size toy_stb toy_json (lit "1.0") 0 toy_config
      (toy_script (Answered 200 (lit "ok"))) toy_job = (Some (kPageDocument d), sent) ∧
    doc_pages (pd_document d) !! 7 = Some (mk_PageItem 7 (of_Z 612) (of_Z 792)).
Proof.
  destruct (@convert_page toy_size toy_stb toy_json (lit "1.0") 0 toy_config
    (toy_script (Answered 200 (lit "ok"))) toy_job) as [event sent] eqn:E.
  destruct event as [[| d | |]|]; try (apply (f_equal fst) in E; vm_compute in E; discriminate E).
  exists d, sent. split; [done|].
  apply (@converted_page_sound toy_size toy_stb toy_json (lit "1.0") 0 toy_config
    (toy_script (Answered 200 (lit "ok")))
    toy_job d sent toy_config_sound); [by compute|exact E].
Defined.
