(* ===== verification/Stream.v ===== *)
(** The pipeline of one ConvertPages stream (src/service/vlm_convert_service.cpp,
    [ConvertPagesCore]): reader, jobs, workers, events, writer.

    Each thread is a function from its own state and the shared state to the
    next, one call on a shared object at a time, and [stream_step] interleaves
    them in every order, together with the other streams' use of the process's
    budgets and the client's leave.  A thread that blocks has no step.  What a
    thread cannot decide (whether a transport call succeeds, what the endpoint
    answers) is an argument of its step. *)
From S2P Require Import Prelude Numbers Double Json Proto ImageCrop Builder OtslGrid VlmProto Secret Presets.
From S2P Require Import Mapper Endpoint Completion VlmClient Config Budget Service.

(** * Channels *)

Section Channel.
Context {A : Type}.
Record Channel := mk_Channel { ch_queue : list A; ch_closed : bool }.
Definition Channel_new : Channel := mk_Channel [] false.
Definition push (value : A) (channel : Channel) : Channel :=
  mk_Channel (ch_queue channel ++ [value]) (ch_closed channel).
Definition close (channel : Channel) : Channel := mk_Channel (ch_queue channel) true.
(** [pop] and the outcomes of [pop_for] that are no timeout: [None] while the
    caller waits, [Some None] once closed and drained. *)
Definition pop (channel : Channel) : option (option A * Channel) :=
  match ch_queue channel with
  | value :: queue => Some (Some value, mk_Channel queue (ch_closed channel))
  | [] => if ch_closed channel then Some (None, channel) else None
  end.
End Channel.
Arguments Channel : clear implicits.

(** * The stream's state *)

(** A page's place in the budgets of its stream, or another stream's. *)
Inductive Ticket := Mine (k : nat) | Other (k : nat).
#[export] Instance Ticket_eq_dec : EqDecision Ticket.
Proof. solve_decision. Defined.

(** The metrics counters, as far as this stream moved them. *)
Record Metrics := mk_Metrics {
  mt_converted : Z;
  mt_rejected : Z;
  mt_failed : Z;
  mt_pages_ok : Z;
  mt_pages_failed : Z }.
Definition Metrics_zero : Metrics := mk_Metrics 0 0 0 0 0.

(** What the threads share.  [sh_writes] is every event handed to the
    transport, with whether it took it. *)
Record Shared := mk_Shared {
  sh_halt : bool;
  sh_client_gone : bool;
  sh_ok : Z;
  sh_page_failed : Z;
  sh_pages_finished : Z;
  sh_jobs : Channel (nat * PageJob);
  sh_events : Channel ConvertPagesResponse;
  sh_writes : list (ConvertPagesResponse * bool);
  sh_stream_bytes : Ledger Ticket;
  sh_process_bytes : Ledger Ticket;
  sh_slots : Ledger Ticket }.

Definition set_halt (sh : Shared) : Shared :=
  mk_Shared true (sh_client_gone sh) (sh_ok sh) (sh_page_failed sh) (sh_pages_finished sh)
    (sh_jobs sh) (sh_events sh) (sh_writes sh) (sh_stream_bytes sh) (sh_process_bytes sh) (sh_slots sh).
Definition set_gone (sh : Shared) : Shared :=
  mk_Shared true true (sh_ok sh) (sh_page_failed sh) (sh_pages_finished sh)
    (sh_jobs sh) (sh_events sh) (sh_writes sh) (sh_stream_bytes sh) (sh_process_bytes sh) (sh_slots sh).
(** [ok++] or [page_failed++], and [pages_finished++]. *)
Definition count_page (failed_page : bool) (sh : Shared) : Shared :=
  mk_Shared (sh_halt sh) (sh_client_gone sh)
    (if failed_page then sh_ok sh else sh_ok sh + 1)
    (if failed_page then sh_page_failed sh + 1 else sh_page_failed sh) (sh_pages_finished sh + 1)
    (sh_jobs sh) (sh_events sh) (sh_writes sh) (sh_stream_bytes sh) (sh_process_bytes sh) (sh_slots sh).
Definition with_jobs (jobs : Channel (nat * PageJob)) (sh : Shared) : Shared :=
  mk_Shared (sh_halt sh) (sh_client_gone sh) (sh_ok sh) (sh_page_failed sh) (sh_pages_finished sh)
    jobs (sh_events sh) (sh_writes sh) (sh_stream_bytes sh) (sh_process_bytes sh) (sh_slots sh).
Definition with_events (events : Channel ConvertPagesResponse) (sh : Shared) : Shared :=
  mk_Shared (sh_halt sh) (sh_client_gone sh) (sh_ok sh) (sh_page_failed sh) (sh_pages_finished sh)
    (sh_jobs sh) events (sh_writes sh) (sh_stream_bytes sh) (sh_process_bytes sh) (sh_slots sh).
Definition wrote (event : ConvertPagesResponse) (taken : bool) (sh : Shared) : Shared :=
  mk_Shared (sh_halt sh) (sh_client_gone sh) (sh_ok sh) (sh_page_failed sh) (sh_pages_finished sh)
    (sh_jobs sh) (sh_events sh) (sh_writes sh ++ [(event, taken)]) (sh_stream_bytes sh)
    (sh_process_bytes sh) (sh_slots sh).
Definition with_stream_bytes (ledger : Ledger Ticket) (sh : Shared) : Shared :=
  mk_Shared (sh_halt sh) (sh_client_gone sh) (sh_ok sh) (sh_page_failed sh) (sh_pages_finished sh)
    (sh_jobs sh) (sh_events sh) (sh_writes sh) ledger (sh_process_bytes sh) (sh_slots sh).
Definition with_process_bytes (ledger : Ledger Ticket) (sh : Shared) : Shared :=
  mk_Shared (sh_halt sh) (sh_client_gone sh) (sh_ok sh) (sh_page_failed sh) (sh_pages_finished sh)
    (sh_jobs sh) (sh_events sh) (sh_writes sh) (sh_stream_bytes sh) ledger (sh_slots sh).
Definition with_slots (ledger : Ledger Ticket) (sh : Shared) : Shared :=
  mk_Shared (sh_halt sh) (sh_client_gone sh) (sh_ok sh) (sh_page_failed sh) (sh_pages_finished sh)
    (sh_jobs sh) (sh_events sh) (sh_writes sh) (sh_stream_bytes sh) (sh_process_bytes sh) ledger.

(** Where the reader (the RPC's own thread) is: in its loop, in one of its
    waits, or on its way out.  [k] numbers the page. *)
Inductive Phase :=
  | Looping
  | Reading
  | WaitStream (k : nat) (image : PageImage)
  | WaitProcess (k : nat) (image : PageImage)
  | Announcing (k : nat) (image : PageImage)
  | Enqueuing (k : nat) (image : PageImage)
  | Dropping (k : nat) (image : PageImage)
  | Leaving
  | Closing
  | JoinWorkers
  | JoinWriter
  | Finished (result : Status).
Record Main := mk_Main {
  mn_phase : Phase;
  mn_input : list ConvertPagesRequest;   (* what the client still sends *)
  mn_next : nat;
  mn_saw_input : bool;
  mn_started : Z;
  mn_status : Status;
  mn_metrics : Metrics }.
Definition at_phase (phase : Phase) (m : Main) : Main :=
  mk_Main phase (mn_input m) (mn_next m) (mn_saw_input m) (mn_started m) (mn_status m) (mn_metrics m).
Definition reject (metrics : Metrics) : Metrics :=
  mk_Metrics (mt_converted metrics) (mt_rejected metrics + 1) (mt_failed metrics)
    (mt_pages_ok metrics) (mt_pages_failed metrics).
(** [status = client_error(...); break]. *)
Definition refuse (code : StatusCode) (message : bytes) (m : Main) : Main :=
  mk_Main Leaving (mn_input m) (mn_next m) (mn_saw_input m) (mn_started m) (mk_Status code message)
    (reject (mn_metrics m)).

Inductive Worker :=
  | Idle
  | Holding (k : nat) (job : PageJob)
  | WaitSlot (k : nat) (job : PageJob)
  | Converting (k : nat) (job : PageJob)
  | Counting (k : nat) (job : PageJob) (event : ConvertPagesResponse)
  | Pushing (k : nat) (job : PageJob) (event : ConvertPagesResponse)
  | Pushed (k : nat) (job : PageJob) (failed_page : bool)
  | DropSlot (k : nat) (job : PageJob)
  | DropProcess (k : nat) (job : PageJob)
  | DropStream (k : nat) (job : PageJob)
  | Exited.
Inductive Writer := Polling | Writing (event : ConvertPagesResponse) | WriterExited.

(** [st_cancelled]: the client is gone, as its transport will say. *)
Record Stream := mk_Stream {
  st_main : Main;
  st_workers : list Worker;
  st_writer : Writer;
  st_shared : Shared;
  st_cancelled : bool }.

(** * The threads *)

Section Pipeline.
Context `{ProtobufSize} `{Stb} `{Json}.
Variables (version : bytes) (backoff_base_ms : Z).
Variables (config : Config) (session : Session).
(** Whether a cancel probe was given. *)
Variable has_probe : bool.

Definition is_cancelled (cancelled : bool) : bool := has_probe && cancelled.

(** One message of the read loop. *)
Definition on_request (request : ConvertPagesRequest) (rest : list ConvertPagesRequest) (m : Main)
  (sh : Shared) : Main * Shared :=
  let m := mk_Main Looping rest (mn_next m) (mn_saw_input m) (mn_started m) (mn_status m) (mn_metrics m) in
  match request with
  | Some (kOptions _) =>
      (refuse INVALID_ARGUMENT (lit "ConvertOptions must not repeat on the stream") m, sh)
  | Some (kPdfChunk _) =>
      (refuse UNIMPLEMENTED (lit "PDF input needs a rasterizer this build does not carry; send " ++
                             lit "PageImage PNGs instead") m, sh)
  | None => (m, sh)
  | Some (kPageImage image) =>
      let m := mk_Main Looping rest (mn_next m) true (mn_started m) (mn_status m) (mn_metrics m) in
      match check_page config (mn_started m) image with
      | Some status => (refuse (status_code status) (status_message status) m, sh)
      | None =>
          let k := mn_next m in
          (mk_Main (WaitStream k image) rest (S k) true (mn_started m) (mn_status m) (mn_metrics m),
           with_stream_bytes
             (ledger_enter (Mine k) (Z.of_nat (length (im_png image))) (sh_stream_bytes sh)) sh)
      end
  end.

(** After the joins: the status, the counters and the trailer, whose fate in
    the transport is ignored. *)
Definition conclude (transport cancelled : bool) (m : Main) (sh : Shared) : Main * Shared :=
  let finish status metrics :=
    mk_Main (Finished status) (mn_input m) (mn_next m) (mn_saw_input m) (mn_started m) (mn_status m)
      metrics in
  let metrics := mn_metrics m in
  if negb (status_ok (mn_status m)) then (finish (mn_status m) metrics, sh) else
  if sh_client_gone sh || is_cancelled cancelled then
    (finish (mk_Status CANCELLED (lit "client cancelled the stream")) metrics, sh) else
  if negb (mn_saw_input m) then
    (finish (mk_Status INVALID_ARGUMENT (lit "stream carried no pages")) (reject metrics), sh) else
  if co_abort_on_error (se_options session) && (0 <? sh_page_failed sh) then
    (finish (mk_Status ABORTED (lit "abort_on_error set and " ++ to_string (sh_page_failed sh) ++
                                lit " page(s) failed"))
       (mk_Metrics (mt_converted metrics) (mt_rejected metrics) (mt_failed metrics + 1)
          (mt_pages_ok metrics) (mt_pages_failed metrics)), sh)
  else
    (finish Status_OK
       (mk_Metrics (mt_converted metrics + 1) (mt_rejected metrics) (mt_failed metrics)
          (mt_pages_ok metrics + sh_ok sh) (mt_pages_failed metrics + sh_page_failed sh)),
     wrote (kComplete (mk_ConvertComplete (mn_started m) (sh_ok sh) (sh_page_failed sh)))
       transport sh).

(** The RPC's thread.  [transport] is whether the transport call succeeds.  A read
    fails at the half-close and, on a transport that tells of cancellations, once
    its client is gone ([ConvertRead] in vlm_convert_service.h). *)
Definition main_step (transport cancelled : bool) (workers : list Worker) (writer : Writer)
  (m : Main) (sh : Shared) : option (Main * Shared) :=
  match mn_phase m with
  | Looping => Some (if sh_halt sh then (at_phase Leaving m, sh) else (at_phase Reading m, sh))
  | Reading =>
      match mn_input m with
      | request :: rest =>
          if transport then Some (on_request request rest m sh)
          else if is_cancelled cancelled then Some (at_phase Leaving m, sh) else None
      | [] => Some (at_phase Leaving m, sh)
      end
  | WaitStream k image =>
      let bytes := Z.of_nat (length (im_png image)) in
      match ledger_poll (Mine k) bytes (sh_halt sh) (sh_stream_bytes sh) with
      | (Took, ledger) =>
          Some (at_phase (WaitProcess k image) m,
                with_process_bytes (ledger_enter (Mine k) bytes (sh_process_bytes sh))
                  (with_stream_bytes ledger sh))
      | (Left, ledger) => Some (at_phase Leaving m, with_stream_bytes ledger sh)
      | (Waits, _) => None
      end
  | WaitProcess k image =>
      let bytes := Z.of_nat (length (im_png image)) in
      match ledger_poll (Mine k) bytes (sh_halt sh) (sh_process_bytes sh) with
      | (Took, ledger) => Some (at_phase (Announcing k image) m, with_process_bytes ledger sh)
      | (Left, ledger) => Some (at_phase (Dropping k image) m, with_process_bytes ledger sh)
      | (Waits, _) => None
      end
  | Announcing k image =>
      Some (mk_Main (Enqueuing k image) (mn_input m) (mn_next m) (mn_saw_input m) (mn_started m + 1)
              (mn_status m) (mn_metrics m),
            with_events (push (kPageStarted (im_page_no image)) (sh_events sh)) sh)
  | Enqueuing k image =>
      Some (at_phase Looping m,
            with_jobs (push (k, page_job config session image) (sh_jobs sh)) sh)
  | Dropping k image =>
      Some (at_phase Leaving m, with_stream_bytes (ledger_release (Mine k) (sh_stream_bytes sh)) sh)
  | Leaving =>
      Some (at_phase Closing m, if status_ok (mn_status m) then sh else set_halt sh)
  | Closing => Some (at_phase JoinWorkers m, with_jobs (close (sh_jobs sh)) sh)
  | JoinWorkers =>
      if forallb (λ w, match w with Exited => true | _ => false end) workers
      then Some (at_phase JoinWriter m, with_events (close (sh_events sh)) sh) else None
  | JoinWriter =>
      match writer with
      | WriterExited => Some (conclude transport cancelled m sh)
      | _ => None
      end
  | Finished _ => None
  end.

(** What the endpoint and the mapper make of a page, or the exception they
    throw; a call is cut short only by the halt flag, its cancel probe. *)
Definition page_answer (answer : Script + bytes) (job : PageJob) : option ConvertPagesResponse :=
  match answer with
  | inl script => (convert_page version backoff_base_ms config script job).1
  | inr what => Some (thrown_event job what)
  end.

Definition worker_step (answer : Script + bytes) (worker : Worker) (sh : Shared)
  : option (Worker * Shared) :=
  match worker with
  | Idle =>
      match pop (sh_jobs sh) with
      | None => None
      | Some (None, _) => Some (Exited, sh)
      | Some (Some (k, job), jobs) => Some (Holding k job, with_jobs jobs sh)
      end
  | Holding k job =>
      Some (if sh_halt sh then (DropProcess k job, sh)
            else (WaitSlot k job, with_slots (ledger_enter (Mine k) 1 (sh_slots sh)) sh))
  | WaitSlot k job =>
      match ledger_poll (Mine k) 1 (sh_halt sh) (sh_slots sh) with
      | (Took, ledger) => Some (Converting k job, with_slots ledger sh)
      | (Left, ledger) => Some (DropProcess k job, with_slots ledger sh)
      | (Waits, _) => None
      end
  | Converting k job =>
      match page_answer answer job with
      | Some event => Some (Counting k job event, sh)
      | None => if sh_halt sh then Some (DropSlot k job, sh) else None
      end
  | Counting k job event => Some (Pushing k job event, count_page (has_page_raw event) sh)
  | Pushing k job event =>
      Some (Pushed k job (has_page_raw event), with_events (push event (sh_events sh)) sh)
  | Pushed k job failed_page =>
      Some (DropSlot k job,
            if failed_page && co_abort_on_error (se_options session) then set_halt sh else sh)
  | DropSlot k job => Some (DropProcess k job, with_slots (ledger_release (Mine k) (sh_slots sh)) sh)
  | DropProcess k job =>
      Some (DropStream k job,
            with_process_bytes (ledger_release (Mine k) (sh_process_bytes sh)) sh)
  | DropStream k job =>
      Some (Idle, with_stream_bytes (ledger_release (Mine k) (sh_stream_bytes sh)) sh)
  | Exited => None
  end.

(** [asks]: whether the poll interval is over. *)
Definition writer_step (asks transport cancelled : bool) (writer : Writer) (sh : Shared)
  : option (Writer * Shared) :=
  match writer with
  | Polling =>
      if asks && is_cancelled cancelled then Some (WriterExited, set_gone sh) else
      match pop (sh_events sh) with
      | None => None
      | Some (None, _) => Some (WriterExited, sh)
      | Some (Some event, events) => Some (Writing event, with_events events sh)
      end
  | Writing event =>
      Some (if transport then (Polling, wrote event true sh)
            else (WriterExited, set_gone (wrote event false sh)))
  | WriterExited => None
  end.

(** * The stream *)

(** The pipeline once the options are accepted; the process's budgets are as
    the other streams left them. *)
Definition Stream_init (process_bytes slots : Ledger Ticket) (messages : list ConvertPagesRequest)
  : Stream :=
  mk_Stream (mk_Main Looping messages 0 false 0 Status_OK Metrics_zero)
    (replicate (Z.to_nat (se_concurrency session)) Idle) Polling
    (mk_Shared false false 0 0 0 Channel_new Channel_new []
       (Ledger_new (cf_max_stream_buffered_bytes config)) process_bytes slots) false.

(** Who moves.  [OthersStep]: another stream on one of the process's budgets;
    [ClientLeaves]: the client cancels, its deadline passes, its connection
    breaks. *)
Inductive Actor :=
  | MainStep | WorkerStep | WriterStep
  | OthersStep (event : BudgetEvent Ticket) | ClientLeaves.
Definition others_event (event : BudgetEvent Ticket) : Prop :=
  match event with
  | Arrived (Other _) | Granted (Other _) | GaveUp (Other _) | Released (Other _) => True
  | _ => False
  end.

Inductive stream_step : Stream → Actor → Stream → Prop :=
  | step_main transport m workers writer sh cancelled m' sh' :
      main_step transport cancelled workers writer m sh = Some (m', sh') →
      stream_step (mk_Stream m workers writer sh cancelled) MainStep
        (mk_Stream m' workers writer sh' cancelled)
  | step_worker answer m before worker after writer sh cancelled worker' sh' :
      worker_step answer worker sh = Some (worker', sh') →
      stream_step (mk_Stream m (before ++ worker :: after) writer sh cancelled) WorkerStep
        (mk_Stream m (before ++ worker' :: after) writer sh' cancelled)
  | step_writer asks transport m workers writer sh cancelled writer' sh' :
      writer_step asks transport cancelled writer sh = Some (writer', sh') →
      stream_step (mk_Stream m workers writer sh cancelled) WriterStep
        (mk_Stream m workers writer' sh' cancelled)
  | step_others_bytes event ledger m workers writer sh cancelled :
      others_event event → budget_step (sh_process_bytes sh) event ledger →
      stream_step (mk_Stream m workers writer sh cancelled) (OthersStep event)
        (mk_Stream m workers writer (with_process_bytes ledger sh) cancelled)
  | step_others_slots event ledger m workers writer sh cancelled :
      others_event event → budget_step (sh_slots sh) event ledger →
      stream_step (mk_Stream m workers writer sh cancelled) (OthersStep event)
        (mk_Stream m workers writer (with_slots ledger sh) cancelled)
  | step_client m workers writer sh cancelled :
      stream_step (mk_Stream m workers writer sh cancelled) ClientLeaves
        (mk_Stream m workers writer sh true).

Inductive stream_run (s : Stream) : list Actor → Stream → Prop :=
  | stream_run_nil : stream_run s [] s
  | stream_run_snoc actors s' actor s'' :
      stream_run s actors s' → stream_step s' actor s'' → stream_run s (actors ++ [actor]) s''.
End Pipeline.

(** A thread's step, case by case. *)
Ltac open_main Hs :=
  match type of Hs with main_step _ _ _ _ _ _ _ ?m _ = _ =>
    destruct m as [phase input next saw started status metrics] end;
  unfold main_step, on_request, refuse, conclude in Hs; cbn [mn_phase mn_input] in Hs;
  repeat case_match; simplify_eq; unfold at_phase in *; cbn in *.
Ltac open_worker Hs :=
  unfold worker_step in Hs; repeat case_match; simplify_eq; cbn in *.
Ltac open_writer Hs :=
  unfold writer_step in Hs; repeat case_match; simplify_eq; cbn in *.

Section PipelineFacts.
Context `{ProtobufSize} `{Stb} `{Json}.
Variables (version : bytes) (backoff_base_ms : Z).
Variables (config : Config) (session : Session).
Variable has_probe : bool.

Abbreviation main_step := (main_step config session has_probe).
Abbreviation page_answer := (page_answer version backoff_base_ms config).
Abbreviation worker_step := (worker_step version backoff_base_ms config session).
Abbreviation writer_step := (writer_step has_probe).
Abbreviation conclude := (conclude session has_probe).
Abbreviation Stream_init := (Stream_init config session).
Abbreviation stream_step := (stream_step version backoff_base_ms config session has_probe).
Abbreviation stream_run := (stream_run version backoff_base_ms config session has_probe).

(** * Where the threads stand *)

(** How far the reader is on its way out. *)
Definition rank (phase : Phase) : nat :=
  match phase with
  | Dropping _ _ | Leaving => 1 | Closing => 2 | JoinWorkers => 3 | JoinWriter => 4 | Finished _ => 5
  | _ => 0
  end.

(** A worker that has counted a failed page and not yet acted on it. *)
Definition failed_worker (worker : Worker) : bool :=
  match worker with
  | Pushing _ _ event => has_page_raw event
  | Pushed _ _ failed_page => failed_page
  | _ => false
  end.

Record flags_inv (s : Stream) : Prop := {
  fg_gone : sh_client_gone (st_shared s) = true →
    sh_halt (st_shared s) = true ∧ st_writer s = WriterExited;
  fg_halt : sh_halt (st_shared s) = true →
    sh_client_gone (st_shared s) = true ∨ status_ok (mn_status (st_main s)) = false ∨
    co_abort_on_error (se_options session) = true ∧ 0 < sh_page_failed (st_shared s);
  fg_status : status_ok (mn_status (st_main s)) = false → (1 ≤ rank (mn_phase (st_main s)))%nat;
  fg_jobs : ch_closed (sh_jobs (st_shared s)) = (3 <=? rank (mn_phase (st_main s)))%nat;
  fg_events : ch_closed (sh_events (st_shared s)) = (4 <=? rank (mn_phase (st_main s)))%nat;
  fg_exited : Exited ∈ st_workers s →
    ch_closed (sh_jobs (st_shared s)) = true ∧ ch_queue (sh_jobs (st_shared s)) = [];
  fg_joined : (4 ≤ rank (mn_phase (st_main s)))%nat → Forall (λ w, w = Exited) (st_workers s);
  fg_pushed : Forall (λ w, failed_worker w = true → 0 < sh_page_failed (st_shared s)) (st_workers s);
  fg_counts : 0 <= sh_page_failed (st_shared s);
  fg_writes : st_writer s ≠ WriterExited → Forall (λ w, w.2 = true) (sh_writes (st_shared s));
  fg_drained : st_writer s = WriterExited → sh_client_gone (st_shared s) = true ∨
    ch_closed (sh_events (st_shared s)) = true ∧ ch_queue (sh_events (st_shared s)) = [] ∧
    (rank (mn_phase (st_main s)) = 4%nat → Forall (λ w, w.2 = true) (sh_writes (st_shared s)));
  fg_finished : rank (mn_phase (st_main s)) = 5%nat → st_writer s = WriterExited }.

Lemma flags_init process_bytes slots messages : flags_inv (Stream_init process_bytes slots messages).
Proof.
  split; cbn; try done; try lia.
  - intros Hin. by apply elem_of_replicate in Hin as [? _].
  - apply Forall_forall. intros w Hw. by apply elem_of_replicate in Hw as [-> _].
Qed.

Lemma ledger_poll_left {T} `{EqDecision T} (t : T) amount halted ledger ledger' :
  ledger_poll t amount halted ledger = (Left, ledger') → halted = true.
Proof.
  unfold ledger_poll, acquire_poll. destruct (_ && _), halted; cbn; intros; simplify_eq; done.
Qed.

Lemma flags_main transport m workers writer sh cancelled m' sh' :
  main_step transport cancelled workers writer m sh = Some (m', sh') →
  flags_inv (mk_Stream m workers writer sh cancelled) →
  flags_inv (mk_Stream m' workers writer sh' cancelled).
Proof.
  intros Hs [Hgone Hhalt Hst Hjobs Hev Hex Hjoin Hpush Hcnt Hwr Hdr Hfin]. cbn in *.
  open_main Hs.
  all: split; cbn in *; try done; try (intuition (congruence || lia)).
  all: intros _; try (apply Hjoin; lia).
  eapply Forall_impl; [by apply forallb_True, Is_true_true|]. by intros [].
Qed.

#[local] Arguments Nat.leb : simpl never.
Lemma Forall_more (x y : Z) l :
  x <= y → Forall (λ w, failed_worker w = true → 0 < x) l → Forall (λ w, failed_worker w = true → 0 < y) l.
Proof. intros ? Hl. eapply Forall_impl; [exact Hl|]. cbn. intros w Hw Hf. specialize (Hw Hf). lia. Qed.

Lemma pop_Some {A} (channel channel' : Channel A) x :
  pop channel = Some (Some x, channel') →
  ch_queue channel = x :: ch_queue channel' ∧ ch_closed channel' = ch_closed channel.
Proof. unfold pop. destruct (ch_queue channel); [by destruct (ch_closed channel)|]. by intros [= <- <-]. Qed.
Lemma pop_None {A} (channel channel' : Channel A) :
  pop channel = Some (None, channel') → ch_queue channel = [] ∧ ch_closed channel = true.
Proof. unfold pop. destruct (ch_queue channel); [|done]. by destruct (ch_closed channel). Qed.

Lemma flags_worker answer m before worker after writer sh cancelled worker' sh' :
  worker_step answer worker sh = Some (worker', sh') →
  flags_inv (mk_Stream m (before ++ worker :: after) writer sh cancelled) →
  flags_inv (mk_Stream m (before ++ worker' :: after) writer sh' cancelled).
Proof.
  intros Hs [Hgone Hhalt Hst Hjobs Hev Hex Hjoin Hpush Hcnt Hwr Hdr Hfin]. cbn in *.
  assert (Hlive : ch_closed (sh_events sh) = true → worker = Exited).
  { rewrite Hev, Nat.leb_le. intros Hr%Hjoin. rewrite Forall_app, Forall_cons in Hr. tauto. }
  rewrite !Forall_app, !Forall_cons in *. rewrite elem_of_app, elem_of_cons in Hex.
  destruct Hpush as (Hpb & Hpw & Hpa). open_worker Hs.
  all: try match goal with Hp : pop _ = Some (Some _, _) |- _ => apply pop_Some in Hp as [Hq Hc] end.
  all: try match goal with Hp : pop _ = Some (None, _) |- _ => apply pop_None in Hp as [Hq Hc] end.
  all: try match goal with Ha : _ && _ = true |- _ => apply andb_true_iff in Ha as [-> Ha] end.
  all: try destruct (has_page_raw event) eqn:Hraw.
  all: split; cbn in *; rewrite ?Forall_app, ?Forall_cons, ?elem_of_app, ?elem_of_cons; try done;
    try (intuition (congruence || lia)).
  all: split_and!; try (apply (Forall_more (sh_page_failed sh)); [lia|assumption]);
    unfold failed_worker; try congruence; try lia.
Qed.

Lemma flags_writer asks transport m workers writer sh cancelled writer' sh' :
  writer_step asks transport cancelled writer sh = Some (writer', sh') →
  flags_inv (mk_Stream m workers writer sh cancelled) →
  flags_inv (mk_Stream m workers writer' sh' cancelled).
Proof.
  intros Hs [Hgone Hhalt Hst Hjobs Hev Hex Hjoin Hpush Hcnt Hwr Hdr Hfin]. cbn in *.
  open_writer Hs.
  all: try match goal with Hp : pop _ = Some (Some _, _) |- _ => apply pop_Some in Hp as [Hq Hc] end.
  all: try match goal with Hp : pop _ = Some (None, _) |- _ => apply pop_None in Hp as [Hq Hc] end.
  all: split; cbn in *; rewrite ?Forall_app, ?Forall_cons; try done;
    try (intuition (try congruence || lia)).
  constructor.
Qed.

Lemma flags_step s actor s' : stream_step s actor s' → flags_inv s → flags_inv s'.
Proof.
  destruct 1; [by eapply flags_main|by eapply flags_worker|by eapply flags_writer| | |];
    by intros []; split.
Qed.

(** * Where the pages are *)

Definition started_page (event : ConvertPagesResponse) : option Z :=
  match event with kPageStarted n => Some n | _ => None end.
(** The page an answer is for. *)
Definition answered_page (event : ConvertPagesResponse) : option Z :=
  match event with
  | kPageDocument d => Some (pd_page_no d)
  | kPageRaw raw => Some (pr_page_no raw)
  | _ => None
  end.
Definition document_page (event : ConvertPagesResponse) : option Z :=
  match event with kPageDocument d => Some (pd_page_no d) | _ => None end.
Definition raw_page (event : ConvertPagesResponse) : option Z :=
  match event with kPageRaw raw => Some (pr_page_no raw) | _ => None end.
Definition trailer_of (event : ConvertPagesResponse) : option ConvertComplete :=
  match event with kComplete trailer => Some trailer | _ => None end.
Definition job_page (job : PageJob) : Z := im_page_no (pj_image job).
(** A page taken off the queue whose answer is not out yet. *)
Definition owed_page (worker : Worker) : option Z :=
  match worker with
  | Holding _ job | WaitSlot _ job | Converting _ job | Counting _ job _ | Pushing _ job _ =>
      Some (job_page job)
  | _ => None
  end.
(** One whose answer is counted and not pushed yet. *)
Definition counted_event (worker : Worker) : option ConvertPagesResponse :=
  match worker with Pushing _ _ event => Some event | _ => None end.
Definition announced_page (phase : Phase) : list Z :=
  match phase with Enqueuing _ image => [im_page_no image] | _ => [] end.
(** One read and not announced yet. *)
Definition waiting_page (phase : Phase) : list Z :=
  match phase with
  | WaitStream _ image | WaitProcess _ image | Announcing _ image => [im_page_no image]
  | _ => []
  end.
Definition image_page (request : ConvertPagesRequest) : option Z :=
  match request with Some (kPageImage image) => Some (im_page_no image) | _ => None end.

(** Every event pushed so far, in order. *)
Definition emitted (s : Stream) : list ConvertPagesResponse :=
  (sh_writes (st_shared s)).*1 ++
  (match st_writer s with Writing event => [event] | _ => [] end) ++
  ch_queue (sh_events (st_shared s)).
Definition starts (events : list ConvertPagesResponse) : list Z := omap started_page events.
Definition answers (events : list ConvertPagesResponse) : list Z := omap answered_page events.
Definition trailers (events : list ConvertPagesResponse) : list ConvertComplete := omap trailer_of events.
(** The started pages that have no answer yet. *)
Definition outstanding (s : Stream) : list Z :=
  announced_page (mn_phase (st_main s)) ++ (job_page ∘ snd <$> ch_queue (sh_jobs (st_shared s))) ++
  omap owed_page (st_workers s).

(** A page event answers the page it is converted from. *)
Definition answers_job (job : PageJob) (event : ConvertPagesResponse) : Prop :=
  answered_page event = Some (job_page job).
Lemma page_answer_answers answer job event : page_answer answer job = Some event → answers_job job event.
Proof.
  destruct answer as [script|what]; cbn; [|by intros [= <-]].
  unfold convert_page. destruct (generate _ _ _) as [result sent]. cbn. unfold page_event.
  destruct (vr_cancelled result); [done|]. destruct (vr_ok result); cbn [negb]; [|by intros [= <-]].
  by destruct (map_response _ _ _ _ _); intros [= <-].
Qed.
Definition answering (worker : Worker) : Prop :=
  match worker with Counting _ job event | Pushing _ job event => answers_job job event | _ => True end.

(** [events] is what the stream has emitted. *)
Record pages_inv (messages : list ConvertPagesRequest) (events : list ConvertPagesResponse)
    (s : Stream) : Prop := {
  pg_answering : Forall answering (st_workers s);
  pg_accounted : ∃ dropped,
    starts events ≡ₚ answers events ++ outstanding s ++ dropped ∧
    (sh_halt (st_shared s) = false → dropped = []);
  pg_ordered : ∀ before, before `prefix_of` events → answers before ⊆+ starts before;
  pg_started : mn_started (st_main s) = Z.of_nat (length (starts events));
  pg_ok : sh_ok (st_shared s) =
    Z.of_nat (length (omap document_page (events ++ omap counted_event (st_workers s))));
  pg_failed : sh_page_failed (st_shared s) =
    Z.of_nat (length (omap raw_page (events ++ omap counted_event (st_workers s))));
  pg_read : (rank (mn_phase (st_main s)) = 0)%nat → ∃ seen,
    messages = seen ++ mn_input (st_main s) ∧
    omap image_page seen = starts events ++ waiting_page (mn_phase (st_main s)) ∧
    (mn_saw_input (st_main s) = true ↔ omap image_page seen ≠ []);
  pg_left : (1 ≤ rank (mn_phase (st_main s)))%nat → sh_halt (st_shared s) = false →
    status_ok (mn_status (st_main s)) = true →
    (is_cancelled has_probe (st_cancelled s) = true ∨ omap image_page messages = starts events) ∧
    (mn_saw_input (st_main s) = true ↔ starts events ≠ []);
  pg_trailers : rank (mn_phase (st_main s)) ≠ 5%nat → trailers events = [] }.

Lemma starts_app l k : starts (l ++ k) = starts l ++ starts k.
Proof. apply omap_app. Qed.
Lemma answers_app l k : answers (l ++ k) = answers l ++ answers k.
Proof. apply omap_app. Qed.
Lemma trailers_app l k : trailers (l ++ k) = trailers l ++ trailers k.
Proof. apply omap_app. Qed.
Lemma trailers_answers event page : answered_page event = Some page → trailers [event] = [].
Proof. by destruct event. Qed.

(** One more event keeps answers behind their starts when its page is owed. *)
Lemma ordered_snoc events event :
  (∀ before, before `prefix_of` events → answers before ⊆+ starts before) →
  answers (events ++ [event]) ⊆+ starts (events ++ [event]) →
  ∀ before, before `prefix_of` events ++ [event] → answers before ⊆+ starts before.
Proof.
  intros Hall Hlast before [k Hk]. destruct k as [|x k _] using rev_ind.
  { rewrite app_nil_r in Hk. by rewrite <- Hk. }
  rewrite app_assoc in Hk. apply app_inj_tail in Hk as [Hk _]. apply Hall. by exists k.
Qed.

(** ** How each thread moves them *)

Definition moves_pages (messages : list ConvertPagesRequest) (s s' : Stream) : Prop :=
  ∃ new, emitted s' = emitted s ++ new ∧
    ∀ events, pages_inv messages events s → pages_inv messages (events ++ new) s'.

Lemma moves_silently messages s s' :
  emitted s' = emitted s → (∀ events, pages_inv messages events s → pages_inv messages events s') →
  moves_pages messages s s'.
Proof. intros He Hp. exists []. rewrite app_nil_r. split; [done|]. intros events. rewrite app_nil_r. apply Hp. Qed.

Lemma check_page_fails started image status :
  check_page config started image = Some status → status_ok status = false.
Proof. unfold check_page. repeat case_match; intros; simplify_eq; done. Qed.

(** The loop goes on behind one more message. *)
Lemma pages_seen messages seen request rest pages :
  messages = seen ++ request :: rest → omap image_page seen = pages →
  messages = (seen ++ [request]) ++ rest ∧
  omap image_page (seen ++ [request]) = pages ++ option_list (image_page request).
Proof.
  intros -> <-. rewrite <- app_assoc, omap_app. split; [done|]. cbn. by destruct (image_page request).
Qed.

(** The reader announces a page: it is owed from then on. *)
Lemma pages_announced messages m workers writer sh cancelled k image :
  mn_phase m = Announcing k image →
  moves_pages messages (mk_Stream m workers writer sh cancelled)
    (mk_Stream (mk_Main (Enqueuing k image) (mn_input m) (mn_next m) (mn_saw_input m) (mn_started m + 1)
                  (mn_status m) (mn_metrics m))
       workers writer (with_events (push (kPageStarted (im_page_no image)) (sh_events sh)) sh) cancelled).
Proof.
  destruct m as [phase input next saw started status metrics]. cbn [mn_phase]. intros ->.
  exists [kPageStarted (im_page_no image)]. unfold emitted. cbn. split; [by rewrite !app_assoc|].
  intros events [Han (dropped & Hac & Hd) Hor Hst Hok Hfa Hre Hle Htr]. cbn in *.
  rewrite !omap_app in *. cbn [omap list_omap document_page raw_page] in *. rewrite ?app_nil_r in *.
  assert (Hacc : starts (events ++ [kPageStarted (im_page_no image)]) ≡ₚ
    answers events ++ ([im_page_no image] ++ (job_page ∘ snd <$> ch_queue (sh_jobs sh)) ++
    omap owed_page workers) ++ dropped).
  { rewrite starts_app, Hac. cbn. solve_Permutation. }
  split; cbn in *; rewrite ?omap_app, ?answers_app; cbn [omap list_omap document_page raw_page answers];
    rewrite ?app_nil_r; try done; try lia.
  - exists dropped. split; [exact Hacc|done].
  - apply ordered_snoc; [done|]. rewrite Hacc, answers_app. cbn. rewrite app_nil_r.
    by apply submseteq_inserts_r.
  - rewrite starts_app, length_app. cbn. lia.
  - intros _. destruct (Hre eq_refl) as (seen & ? & Hseen & ?). exists seen. by rewrite starts_app.
  - intros Hr. by rewrite trailers_app, Htr.
Qed.

(** The trailer is of no page. *)
Lemma pages_trailer messages m workers sh cancelled status metrics trailer taken :
  mn_phase m = JoinWriter → ch_queue (sh_events sh) = [] →
  moves_pages messages (mk_Stream m workers WriterExited sh cancelled)
    (mk_Stream (mk_Main (Finished status) (mn_input m) (mn_next m) (mn_saw_input m) (mn_started m)
                  (mn_status m) metrics)
       workers WriterExited (wrote (kComplete trailer) taken sh) cancelled).
Proof.
  destruct m as [phase input next saw started status' metrics']. cbn [mn_phase]. intros -> Hq.
  exists [kComplete trailer]. unfold emitted. cbn.
  rewrite fmap_app, Hq. cbn. rewrite !app_nil_r. split; [done|].
  intros events [Han Hac Hor Hst Hok Hfa Hre Hle Htr]. cbn in *.
  assert (Hs : starts (events ++ [kComplete trailer]) = starts events)
    by (rewrite starts_app; cbn; by rewrite app_nil_r).
  assert (Ha : answers (events ++ [kComplete trailer]) = answers events)
    by (rewrite answers_app; cbn; by rewrite app_nil_r).
  split; cbn in *; rewrite ?Hs, ?Ha, <- ?app_assoc; try done.
  - apply ordered_snoc; [done|]. rewrite Hs, Ha. by apply Hor.
  - by rewrite omap_app in Hok |- *.
  - by rewrite omap_app in Hfa |- *.
  - intros _. apply Hle. lia.
Qed.

Lemma pages_main messages transport m workers writer sh cancelled m' sh' :
  main_step transport cancelled workers writer m sh = Some (m', sh') →
  flags_inv (mk_Stream m workers writer sh cancelled) →
  moves_pages messages (mk_Stream m workers writer sh cancelled)
    (mk_Stream m' workers writer sh' cancelled).
Proof.
  intros Hs Hflags. open_main Hs.
  all: try (apply moves_silently; [done|]; intros events [Han Hac Hor Hst Hok Hfa Hre Hle Htr];
    split; cbn in *; try done; try lia).
  all: try solve [intros Hr; (done || by apply Htr)].
  all: try match goal with Hp : ledger_poll _ _ _ _ = (Left, _) |- _ => apply ledger_poll_left in Hp end.
  all: try (intros _ ? ?; congruence).
  all: try (intros _; apply Hle; lia).
  - intros _ Hh _. destruct (Hre eq_refl) as (seen & -> & Hseen & Hsaw). rewrite !app_nil_r in *.
    rewrite <- Hseen. split; [by right|done].
  - intros _ _ Hok'. match goal with Hc : check_page _ _ _ = Some _ |- _ => apply check_page_fails in Hc end. unfold status_ok in *. cbn in *. congruence.
  - intros _. destruct (Hre eq_refl) as (seen & Hmsg & Hseen & _). rewrite app_nil_r in Hseen.
    destruct (pages_seen _ _ _ _ _ Hmsg Hseen) as [Hmsg' Hseen'].
    eexists. split_and!; [exact Hmsg'|exact Hseen'|]. split; [|done]. intros _ Hnil.
    rewrite Hnil in Hseen'. by destruct (starts events).
  - intros _. destruct (Hre eq_refl) as (seen & Hmsg & Hseen & Hsaw).
    destruct (pages_seen _ _ _ _ _ Hmsg Hseen) as [Hmsg' Hseen'].
    cbn in Hseen'. rewrite !app_nil_r in *. eexists. split_and!; [exact Hmsg'|exact Hseen'|].
    by rewrite Hsaw, Hseen, <- Hseen'.
  - intros _ Hh _. destruct (Hre eq_refl) as (seen & -> & Hseen & Hsaw). rewrite !app_nil_r in *.
    rewrite <- Hseen. split; [by left|done].
  - by apply (pages_announced messages (mk_Main (Announcing k image) _ _ _ _ _ _)).
  - destruct Hac as (dropped & Hac & Hd). exists dropped. split; [|done]. rewrite Hac.
    rewrite fmap_app. cbn. solve_Permutation.
  - destruct Hac as (dropped & Hac & Hd). exists dropped. done.
  - destruct Hflags as [_ _ _ _ _ _ _ _ _ _ Hdr _]. cbn in *.
    match goal with Ho : (_ || _) = false |- _ => apply orb_false_iff in Ho as [Hgone _] end.
    destruct (Hdr eq_refl) as [?|(_ & Hq & _)]; [congruence|].
    by apply (pages_trailer messages (mk_Main JoinWriter _ _ _ _ _ _)).
Qed.

Definition documents (events : list ConvertPagesResponse) : Z :=
  Z.of_nat (length (omap document_page events)).
Definition raws (events : list ConvertPagesResponse) : Z := Z.of_nat (length (omap raw_page events)).
Definition queued_pages (sh : Shared) : list Z := job_page ∘ snd <$> ch_queue (sh_jobs sh).

Lemma omap_middle {A B} (f : A → option B) before x after :
  omap f (before ++ x :: after) ≡ₚ option_list (f x) ++ omap f (before ++ after).
Proof. rewrite !omap_app. cbn. destruct (f x); cbn; solve_Permutation. Qed.
#[local] Instance documents_proper : Proper ((≡ₚ) ==> eq) documents.
Proof. intros l k Hlk. unfold documents. by rewrite Hlk. Qed.
#[local] Instance raws_proper : Proper ((≡ₚ) ==> eq) raws.
Proof. intros l k Hlk. unfold raws. by rewrite Hlk. Qed.
Lemma documents_app l k : documents (l ++ k) = documents l + documents k.
Proof. unfold documents. rewrite omap_app, length_app. lia. Qed.
Lemma raws_app l k : raws (l ++ k) = raws l + raws k.
Proof. unfold raws. rewrite omap_app, length_app. lia. Qed.

(** One worker moved: its page is still owed, answered by [new], or [lost] to a
    halted stream. *)
Lemma pages_replace messages m before w w' after wr sh sh' cancelled events new lost :
  option_list (owed_page w) ++ queued_pages sh ≡ₚ
    answers new ++ option_list (owed_page w') ++ queued_pages sh' ++ lost →
  (sh_halt sh' = false → lost = [] ∧ sh_halt sh = false) →
  starts new = [] → trailers new = [] → (length new ≤ 1)%nat → (answering w → answering w') →
  sh_ok sh' + documents (option_list (counted_event w)) =
    sh_ok sh + documents (new ++ option_list (counted_event w')) →
  sh_page_failed sh' + raws (option_list (counted_event w)) =
    sh_page_failed sh + raws (new ++ option_list (counted_event w')) →
  pages_inv messages events (mk_Stream m (before ++ w :: after) wr sh cancelled) →
  pages_inv messages (events ++ new) (mk_Stream m (before ++ w' :: after) wr sh' cancelled).
Proof.
  intros Hpages Hhalt Hnew Hnt Hlen Hans Hok' Hfa' [Han (dropped & Hac & Hd) Hor Hst Hok Hfa Hre Hle Htr].
  cbn in *. fold (documents (events ++ omap counted_event (before ++ w :: after))) in Hok.
  fold (raws (events ++ omap counted_event (before ++ w :: after))) in Hfa.
  assert (Hs : starts (events ++ new) = starts events) by (rewrite starts_app, Hnew; apply app_nil_r).
  assert (Hacc : starts (events ++ new) ≡ₚ answers (events ++ new) ++
    (announced_page (mn_phase m) ++ queued_pages sh' ++ omap owed_page (before ++ w' :: after)) ++
    lost ++ dropped).
  { rewrite Hs, Hac, answers_app. unfold outstanding. cbn [st_main st_workers st_shared].
    fold (queued_pages sh). rewrite !omap_middle.
    trans (answers events ++ announced_page (mn_phase m) ++
      (option_list (owed_page w) ++ queued_pages sh) ++ omap owed_page (before ++ after) ++ dropped);
      [solve_Permutation|rewrite Hpages; solve_Permutation]. }
  split; cbn; rewrite ?Hs; try done.
  - rewrite Forall_app, Forall_cons in *. destruct Han as (? & ? & ?). auto.
  - exists (lost ++ dropped). split; [rewrite Hs in Hacc; exact Hacc|].
    intros Hh. destruct (Hhalt Hh) as [-> ?]. cbn. by apply Hd.
  - destruct new as [|e [|? ?]]; [by rewrite app_nil_r| |cbn in Hlen; lia].
    apply ordered_snoc; [done|]. rewrite Hacc. by apply submseteq_inserts_r.
  - fold (documents ((events ++ new) ++ omap counted_event (before ++ w' :: after))).
    rewrite omap_middle in Hok |- *. rewrite !documents_app in *. lia.
  - fold (raws ((events ++ new) ++ omap counted_event (before ++ w' :: after))).
    rewrite omap_middle in Hfa |- *. rewrite !raws_app in *. lia.
  - intros ? Hh. apply Hle; [done|]. by apply Hhalt.
  - intros Hr. by rewrite trailers_app, Hnt, Htr.
Qed.

(** ... with [emitted] as the thread left it. *)
Lemma worker_moves messages m before w w' after wr sh sh' cancelled new lost :
  (sh_writes sh').*1 = (sh_writes sh).*1 →
  ch_queue (sh_events sh') = ch_queue (sh_events sh) ++ new →
  option_list (owed_page w) ++ queued_pages sh ≡ₚ
    answers new ++ option_list (owed_page w') ++ queued_pages sh' ++ lost →
  (sh_halt sh' = false → lost = [] ∧ sh_halt sh = false) →
  starts new = [] → trailers new = [] → (length new ≤ 1)%nat → (answering w → answering w') →
  sh_ok sh' + documents (option_list (counted_event w)) =
    sh_ok sh + documents (new ++ option_list (counted_event w')) →
  sh_page_failed sh' + raws (option_list (counted_event w)) =
    sh_page_failed sh + raws (new ++ option_list (counted_event w')) →
  moves_pages messages (mk_Stream m (before ++ w :: after) wr sh cancelled)
    (mk_Stream m (before ++ w' :: after) wr sh' cancelled).
Proof.
  intros Hw Hq Hpages Hhalt Hnew Hnt Hlen Hans Hok Hfa. exists new. split.
  - unfold emitted. cbn. by rewrite Hw, Hq, !app_assoc.
  - intros events. by eapply pages_replace.
Qed.

Lemma pages_worker messages answer m before worker after writer sh cancelled worker' sh' :
  worker_step answer worker sh = Some (worker', sh') →
  flags_inv (mk_Stream m (before ++ worker :: after) writer sh cancelled) →
  Forall answering (before ++ worker :: after) →
  moves_pages messages (mk_Stream m (before ++ worker :: after) writer sh cancelled)
    (mk_Stream m (before ++ worker' :: after) writer sh' cancelled).
Proof.
  intros Hs Hflags Han. assert (Hw : answering worker)
    by (rewrite Forall_app, Forall_cons in Han; tauto).
  open_worker Hs.
  all: try match goal with Hp : pop _ = Some (Some _, _) |- _ => apply pop_Some in Hp as [Hq Hc] end.
  all: try match goal with Hp : ledger_poll _ _ _ _ = (Left, _) |- _ => apply ledger_poll_left in Hp end.
  all: try (apply (worker_moves _ _ _ _ _ _ _ _ _ _ [] []); cbn; rewrite ?app_nil_r;
    solve [done | by destruct (has_page_raw event)| lia]).
  - apply (worker_moves _ _ _ _ _ _ _ _ _ _ [] []); cbn; rewrite ?app_nil_r;
      try done; try lia. unfold queued_pages. cbn. by rewrite Hq.
  - apply (worker_moves _ _ _ _ _ _ _ _ _ _ [] [job_page job]); cbn; rewrite ?app_nil_r;
      try done; try lia; [solve_Permutation|congruence].
  - apply (worker_moves _ _ _ _ _ _ _ _ _ _ [] [job_page job]); cbn; rewrite ?app_nil_r;
      try done; try lia; [solve_Permutation|congruence].
  - apply (worker_moves _ _ _ _ _ _ _ _ _ _ [] []); cbn; rewrite ?app_nil_r;
      try done; try lia. intros _. by eapply page_answer_answers.
  - apply (worker_moves _ _ _ _ _ _ _ _ _ _ [] [job_page job]); cbn; rewrite ?app_nil_r;
      try done; try lia; [solve_Permutation|congruence].
  - apply (worker_moves _ _ _ _ _ _ _ _ _ _ [] []); cbn; rewrite ?app_nil_r;
      try done; try lia; destruct event; try done; unfold documents, raws; cbn; lia.
  - assert (Hev : answers [event] = [job_page job] ∧ starts [event] = [] ∧ trailers [event] = [])
      by (unfold answers_job in Hw; destruct event; cbn in Hw; simplify_eq; cbn; by rewrite ?Hw).
    destruct Hev as (Hev & Hst & Htr).
    apply (worker_moves _ _ _ _ _ _ _ _ _ _ [event] []); cbn -[answers starts trailers]; rewrite ?Hev, ?app_nil_r;
      try done; lia.
Qed.

Lemma pages_writer messages asks transport m workers writer sh cancelled writer' sh' :
  writer_step asks transport cancelled writer sh = Some (writer', sh') →
  moves_pages messages (mk_Stream m workers writer sh cancelled)
    (mk_Stream m workers writer' sh' cancelled).
Proof.
  intros Hs. open_writer Hs.
  all: try match goal with Hp : pop _ = Some (Some _, _) |- _ => apply pop_Some in Hp as [Hq Hc] end.
  all: apply moves_silently; [unfold emitted; cbn; rewrite ?Hq, ?fmap_app, <- ?app_assoc; done|].
  all: intros events [Han (dropped & Hac & Hd) Hor Hst Hok Hfa Hre Hle Htr]; split; cbn in *; try done.
  all: by exists dropped.
Qed.

Lemma pages_step messages s actor s' :
  stream_step s actor s' → flags_inv s → Forall answering (st_workers s) → moves_pages messages s s'.
Proof.
  intros [] Hflags Han; [by eapply pages_main|by eapply pages_worker|by eapply pages_writer| | |].
  all: apply moves_silently; [done|]; intros events [? ? ? ? ? ? ? Hle ?]; split; cbn in *; try done.
  intros Hr Hh Hok. split; [|by apply Hle].
  destruct (Hle Hr Hh Hok) as [[Hcan| ->] _]; [left|by right]. revert Hcan. unfold is_cancelled.
  by destruct has_probe, cancelled.
Qed.

(** * What a stream delivers *)

(** A stream that ended well: every event but the trailer was taken by the
    transport, the trailer came last and never before, the pages announced are
    those the client sent, in order, each is answered exactly once, the trailer
    counts them, and nothing halted it.  [taken] is what the transport answered
    to the trailer, which the code does not look at. *)
Definition complete (messages : list ConvertPagesRequest) (s : Stream) : Prop :=
  ∃ events taken,
    let sh := st_shared s in
    sh_writes sh = ((λ event, (event, true)) <$> events) ++
      [(kComplete (mk_ConvertComplete (mn_started (st_main s)) (sh_ok sh) (sh_page_failed sh)), taken)] ∧
    trailers events = [] ∧
    starts events = omap image_page messages ∧
    starts events ≠ [] ∧
    answers events ≡ₚ starts events ∧
    mn_started (st_main s) = Z.of_nat (length (starts events)) ∧
    sh_ok sh = documents events ∧ sh_page_failed sh = raws events ∧
    (co_abort_on_error (se_options session) = true → sh_page_failed sh = 0) ∧
    sh_halt sh = false.

Record stream_inv (messages : list ConvertPagesRequest) (s : Stream) : Prop := {
  si_flags : flags_inv s;
  si_pages : pages_inv messages (emitted s) s;
  si_workers : st_workers s ≠ [];
  si_complete : ∀ status, mn_phase (st_main s) = Finished status → status_ok status = true →
    complete messages s }.

Lemma pages_init process_bytes slots messages :
  pages_inv messages [] (Stream_init process_bytes slots messages).
Proof.
  assert (Ho : ∀ {A} (f : Worker → option A), f Idle = None →
    omap f (replicate (Z.to_nat (se_concurrency session)) Idle) = []).
  { intros A f Hf. induction (Z.to_nat _) as [|n IH]; cbn; [done|by rewrite Hf]. }
  split; cbn; rewrite ?Ho; try done; try lia.
  - apply Forall_forall. intros w Hw. by apply elem_of_replicate in Hw as [-> _].
  - exists []. done.
  - intros before Hb%prefix_nil_inv. by subst.
  - intros _. by exists [].
Qed.

Lemma all_true (writes : list (ConvertPagesResponse * bool)) :
  Forall (λ w, w.2 = true) writes → writes = (λ event, (event, true)) <$> writes.*1.
Proof. induction 1 as [|[e b] l Hb _ IH]; cbn in *; [done|]. by rewrite Hb, <- IH. Qed.

Lemma exited_omap {A} (f : Worker → option A) workers :
  f Exited = None → Forall (λ w, w = Exited) workers → omap f workers = [].
Proof. intros Hf. induction 1 as [|w l -> _ IH]; cbn; [done|]. by rewrite Hf. Qed.

(** The end of the pipeline: nothing is left anywhere. *)
Lemma conclude_complete messages transport cancelled m workers sh m' sh' status :
  mn_phase m = JoinWriter → conclude transport cancelled m sh = (m', sh') →
  mn_phase m' = Finished status → status_ok status = true →
  stream_inv messages (mk_Stream m workers WriterExited sh cancelled) →
  complete messages (mk_Stream m' workers WriterExited sh' cancelled).
Proof.
  intros Hphase Hc Hfin Hok [[Hgone Hhalt _ _ _ Hex Hjoin _ Hcnt _ Hdr _] [_ (dropped & Hac & Hd) _ Hst Hdoc Hraw _ Hle Htr] Hne _].
  cbn in *. rewrite Hphase in *. cbn in *. specialize (Hjoin ltac:(lia)).
  destruct Hex as [_ Hq]. { destruct workers as [|w workers]; [done|]. apply Forall_cons in Hjoin as [-> _]. by left. }
  unfold Stream.conclude in Hc. destruct (status_ok (mn_status m)) eqn:Hs; cbn [negb] in Hc;
    [|injection Hc as <- <-; cbn in Hfin; congruence].
  destruct (sh_client_gone sh) eqn:Hg; cbn [orb] in Hc; [injection Hc as <- <-; cbn in Hfin; by simplify_eq|].
  destruct (is_cancelled has_probe cancelled) eqn:Hcan; [injection Hc as <- <-; cbn in Hfin; by simplify_eq|].
  destruct (mn_saw_input m) eqn:Hsaw; cbn [negb] in Hc; [|injection Hc as <- <-; cbn in Hfin; by simplify_eq].
  destruct (_ && (0 <? _)) eqn:Hab; [injection Hc as <- <-; cbn in Hfin; by simplify_eq|].
  injection Hc as <- <-.
  assert (Hh : sh_halt sh = false).
  { destruct (sh_halt sh); [|done]. destruct Hhalt as [?|[?|[Ha Hp]]]; try done.
    apply Z.ltb_lt in Hp. rewrite Ha, Hp in Hab. done. }
  destruct (Hdr eq_refl) as [?|(_ & Hqe & Hall)]; [done|].
  assert (He : emitted (mk_Stream m workers WriterExited sh cancelled) = (sh_writes sh).*1).
  { unfold emitted. cbn. by rewrite Hqe, app_nil_r. }
  rewrite He in *. unfold outstanding in Hac. cbn in Hac. rewrite Hphase, Hq, (Hd Hh) in Hac.
  rewrite (exited_omap owed_page _ eq_refl Hjoin), !app_nil_r in Hac. cbn in Hac. rewrite ?app_nil_r in Hac.
  rewrite (exited_omap counted_event _ eq_refl Hjoin), app_nil_r in Hdoc, Hraw.
  exists (sh_writes sh).*1, transport. cbn. rewrite <- (all_true _ (Hall eq_refl)).
  destruct (Hle ltac:(lia) Hh eq_refl) as [Hread Hsome].
  split_and!; try done.
  - by apply Htr.
  - destruct Hread as [Hcc|Hread]; [congruence|done].
  - by apply Hsome.
  - intros Ha. rewrite Ha in Hab. apply Z.ltb_ge in Hab. lia.
Qed.

Lemma stream_inv_init process_bytes slots messages :
  1 <= se_concurrency session → stream_inv messages (Stream_init process_bytes slots messages).
Proof.
  intros Hc. split; [apply flags_init|apply pages_init| |done].
  cbn. destruct (Z.to_nat (se_concurrency session)) eqn:E; [lia|done].
Qed.

Lemma stream_inv_step messages s actor s' :
  stream_step s actor s' → stream_inv messages s → stream_inv messages s'.
Proof.
  intros Hstep [Hflags Hpages Hne Hcomplete].
  destruct (pages_step messages _ _ _ Hstep Hflags (pg_answering _ _ _ Hpages)) as (new & He & Hmove).
  split; [by eapply flags_step|rewrite He; by apply Hmove| |].
  - destruct Hstep; try done. by destruct before.
  - intros status Hfin Hok. destruct Hstep; cbn in *.
    + destruct (mn_phase m) eqn:Hphase;
        match goal with Hs : _ = Some _ |- _ => unfold Stream.main_step in Hs; rewrite Hphase in Hs; rename Hs into Hmain end;
        try (repeat case_match; simplify_eq; cbn in Hfin; congruence).
      * destruct (mn_input m); unfold on_request in Hmain;
          repeat case_match; simplify_eq; cbn in Hfin; congruence.
      * destruct writer; [done..|]. injection Hmain as Hmain.
        eapply (conclude_complete messages transport); [done|exact Hmain|done|done|].
        constructor; try assumption. cbn. congruence.
    + exfalso. destruct Hflags as [_ _ _ _ _ _ Hjoin _ _ _ _ _]. cbn in Hjoin.
      rewrite Hfin in Hjoin. specialize (Hjoin ltac:(cbn; lia)).
      rewrite Forall_app, Forall_cons in Hjoin. destruct Hjoin as (_ & -> & _). done.
    + exfalso. destruct Hflags as [_ _ _ _ _ _ _ _ _ _ _ Hw]. cbn in Hw. rewrite Hfin in Hw.
      specialize (Hw eq_refl). simplify_eq.
    + by apply (Hcomplete status).
    + by apply (Hcomplete status).
    + by apply (Hcomplete status).
Qed.

Lemma stream_inv_run process_bytes slots messages actors s :
  1 <= se_concurrency session → stream_run (Stream_init process_bytes slots messages) actors s →
  stream_inv messages s.
Proof.
  intros Hc. induction 1; [by apply stream_inv_init|by eapply stream_inv_step].
Qed.

(** C1: An OK stream answered its client.  However the threads interleave, when
    ConvertPages returns OK every event before the trailer was taken by the
    transport, the trailer was handed to it last and only once (the code does not
    look at whether it was taken), the pages announced are exactly the page
    images the client sent, in its order, each of them was answered exactly once
    by a document or a raw page, the trailer's counts are the counts of those
    answers, and with abort_on_error none of them failed. *)
Theorem stream_ok_complete process_bytes slots messages actors s status :
  1 <= se_concurrency session → stream_run (Stream_init process_bytes slots messages) actors s →
  mn_phase (st_main s) = Finished status → status_ok status = true → complete messages s.
Proof. intros Hc Hrun. by apply si_complete, (stream_inv_run process_bytes slots _ actors). Qed.

(** C3: At every moment of every run, failed and cancelled streams included,
    what the client has been sent answers only pages announced before, none more
    often than announced. *)
Theorem stream_answers_follow_starts process_bytes slots messages actors s before :
  1 <= se_concurrency session → stream_run (Stream_init process_bytes slots messages) actors s →
  before `prefix_of` (sh_writes (st_shared s)).*1 → answers before ⊆+ starts before.
Proof.
  intros Hc Hrun Hb. eapply (pg_ordered messages (emitted s) s).
  - by apply (si_pages _ _ (stream_inv_run _ _ _ _ _ Hc Hrun)).
  - unfold emitted. etrans; [exact Hb|]. by apply prefix_app_r.
Qed.

(** ** What ends a stream otherwise *)

Definition finished (s : Stream) : Prop := rank (mn_phase (st_main s)) = 5%nat.
Definition told_cancelled (s : Stream) : bool := is_cancelled has_probe (st_cancelled s).

(** Why a stream is not told OK. *)
Definition cause (s : Stream) : Prop :=
  status_ok (mn_status (st_main s)) = false ∨
  sh_client_gone (st_shared s) = true ∨ told_cancelled s = true ∨
  mn_saw_input (st_main s) = false ∨
  co_abort_on_error (se_options session) = true ∧ 0 < sh_page_failed (st_shared s).

Lemma conclude_cause transport cancelled m sh m' sh' status workers writer :
  conclude transport cancelled m sh = (m', sh') → mn_phase m' = Finished status →
  status = Status_OK ∨ cause (mk_Stream m' workers writer sh' cancelled).
Proof.
  unfold Stream.conclude, cause, told_cancelled. intros Hc Hfin.
  destruct (status_ok (mn_status m)) eqn:Hs; cbn [negb] in Hc; [|by injection Hc as <- <-; right; left].
  destruct (_ || _) eqn:Hg; [injection Hc as <- <-; right; cbn; apply orb_true_iff in Hg; tauto|].
  destruct (mn_saw_input m) eqn:Hsaw; cbn [negb] in Hc; [|injection Hc as <- <-; right; cbn; tauto].
  destruct (_ && _) eqn:Hab; injection Hc as <- <-; [right; cbn|by injection Hfin as <-; left].
  apply andb_true_iff in Hab as [Ha Hp%Z.ltb_lt]. tauto.
Qed.

(** What was a cause stays one. *)
Lemma cause_step s actor s' status :
  stream_step s actor s' → (mn_phase (st_main s) = Finished status → status = Status_OK ∨ cause s) →
  mn_phase (st_main s') = Finished status → status = Status_OK ∨ cause s'.
Proof.
  intros Hstep Hold Hfin. destruct Hstep as [transport m workers writer sh cancelled m' sh' Hs|
    answer m before worker after writer sh cancelled worker' sh' Hs|
    asks transport m workers writer sh cancelled writer' sh' Hs| | |]; cbn in *.
  - unfold Stream.main_step in Hs. destruct (mn_phase m) eqn:Hphase;
      try (repeat case_match; simplify_eq; cbn in Hfin; congruence).
    + destruct (mn_input m); unfold on_request in Hs; repeat case_match; simplify_eq; cbn in Hfin; congruence.
    + destruct writer; [done..|]. injection Hs as Hs. by eapply conclude_cause.
  - destruct (Hold Hfin) as [?|Hc]; [by left|right]. unfold cause in *. cbn in *.
    open_worker Hs; try tauto. destruct (has_page_raw event); intuition lia.
  - destruct (Hold Hfin) as [?|Hc]; [by left|right]. unfold cause in *. cbn in *.
    open_writer Hs; tauto.
  - by apply Hold.
  - by apply Hold.
  - destruct (Hold Hfin) as [?|Hc]; [by left|right]. unfold cause, told_cancelled, is_cancelled in *. cbn in *.
    destruct has_probe; cbn in *; tauto.
Qed.

Lemma cause_run process_bytes slots messages actors s status :
  stream_run (Stream_init process_bytes slots messages) actors s →
  mn_phase (st_main s) = Finished status → status = Status_OK ∨ cause s.
Proof. induction 1; [done|by eapply cause_step]. Qed.

(** A stream that was halted, or whose client left while it could still see
    that, is past OK. *)
Definition past_ok (s : Stream) : Prop :=
  (sh_halt (st_shared s) = true ∨ told_cancelled s = true) ∧
  ∀ status, mn_phase (st_main s) = Finished status → status_ok status = false.

Lemma conclude_past_ok transport cancelled m sh m' sh' status :
  conclude transport cancelled m sh = (m', sh') → mn_phase m' = Finished status →
  is_cancelled has_probe cancelled = true → status_ok status = false.
Proof.
  unfold Stream.conclude. intros Hc Hfin Hcan. rewrite Hcan, orb_true_r in Hc.
  destruct (status_ok (mn_status m)) eqn:Hs; injection Hc as <- <-; injection Hfin as <-; done.
Qed.

Lemma halt_stays s actor s' :
  stream_step s actor s' → sh_halt (st_shared s) = true → sh_halt (st_shared s') = true.
Proof.
  intros Hstep Hh. destruct Hstep as [transport m workers writer sh cancelled m' sh' Hs|
    answer m before worker after writer sh cancelled worker' sh' Hs|
    asks transport m workers writer sh cancelled writer' sh' Hs| | |]; cbn in *; try done.
  - by open_main Hs.
  - by open_worker Hs.
  - by open_writer Hs.
Qed.

Lemma past_ok_step messages s actor s' :
  stream_step s actor s' → stream_inv messages s → past_ok s → past_ok s'.
Proof.
  intros Hstep Hinv [Hwhy Hnot]. pose proof (stream_inv_step _ _ _ _ Hstep Hinv) as Hinv'.
  destruct Hwhy as [Hh|Hcan].
  { pose proof (halt_stays _ _ _ Hstep Hh) as Hh'. split; [by left|]. intros status Hfin.
    destruct (status_ok status) eqn:Hok; [|done].
    destruct (si_complete _ _ Hinv' status Hfin Hok) as (? & ? & Hc). naive_solver congruence. }
  assert (Hcan' : told_cancelled s' = true).
  { unfold told_cancelled, is_cancelled in *. apply andb_true_iff in Hcan as [-> Hcan].
    destruct Hstep; cbn in *; by rewrite ?Hcan. }
  split; [by right|]. intros status Hfin. unfold told_cancelled in *.
  destruct Hstep as [transport m workers writer sh cancelled m' sh' Hs| | | | |];
    cbn in *; try by apply Hnot.
  unfold Stream.main_step in Hs. destruct (mn_phase m) eqn:Hphase;
    try (repeat case_match; simplify_eq; cbn in Hfin; congruence).
  + destruct (mn_input m); unfold on_request in Hs; repeat case_match; simplify_eq; cbn in Hfin; congruence.
  + destruct writer; [done..|]. injection Hs as Hs. by eapply conclude_past_ok.
Qed.

(** C6: The pipeline gives up only for a reason, and a stream given up is never
    told OK.  Its halt flag is set only when the client is gone, its input was
    refused, or abort_on_error met a failed page.  From a state not yet finished
    in which the flag is set, or in which the client's cancellation can be read
    (whether or not the writer has noticed it), every way the run goes on ends
    with a status other than OK. *)
Theorem stream_halts_for_cause process_bytes slots messages actors s :
  1 <= se_concurrency session → stream_run (Stream_init process_bytes slots messages) actors s →
  (sh_halt (st_shared s) = true →
   sh_client_gone (st_shared s) = true ∨ status_ok (mn_status (st_main s)) = false ∨
   co_abort_on_error (se_options session) = true ∧ 0 < sh_page_failed (st_shared s)) ∧
  ((sh_halt (st_shared s) = true ∨ told_cancelled s = true) → ¬ finished s →
   ∀ actors' s' status, stream_run s actors' s' → mn_phase (st_main s') = Finished status →
   status_ok status = false).
Proof.
  intros Hc Hrun. pose proof (stream_inv_run _ _ _ _ _ Hc Hrun) as Hinv.
  split; [apply (fg_halt _ (si_flags _ _ Hinv))|].
  intros Hwhy Hnf actors' s' status Hrun'. revert status.
  enough (stream_inv messages s' ∧ past_ok s') as [_ [_ Hpast]] by exact Hpast.
  clear Hrun. induction Hrun' as [|actors' s1 actor s2 _ [Hinv1 Hpast1] Hstep].
  - split; [done|]. split; [done|]. intros status Hfin. destruct Hnf. unfold finished. by rewrite Hfin.
  - split; [by eapply stream_inv_step|by eapply past_ok_step].
Qed.

(** * Running the pipeline *)

(** One thread's next step under a schedule. *)
Inductive Choice :=
  | ChooseMain (transport : bool)
  | ChooseWorker (i : nat) (answer : Script + bytes)
  | ChooseWriter (asks transport : bool).
Definition fire (s : Stream) (choice : Choice) : option (Actor * Stream) :=
  match choice with
  | ChooseMain transport =>
      '(m, sh) ← main_step transport (st_cancelled s) (st_workers s) (st_writer s) (st_main s) (st_shared s);
      Some (MainStep, mk_Stream m (st_workers s) (st_writer s) sh (st_cancelled s))
  | ChooseWorker i answer =>
      worker ← st_workers s !! i;
      '(worker', sh) ← worker_step answer worker (st_shared s);
      Some (WorkerStep, mk_Stream (st_main s) (<[i := worker']> (st_workers s)) (st_writer s) sh
                          (st_cancelled s))
  | ChooseWriter asks transport =>
      '(writer, sh) ← writer_step asks transport (st_cancelled s) (st_writer s) (st_shared s);
      Some (WriterStep, mk_Stream (st_main s) (st_workers s) writer sh (st_cancelled s))
  end.
Fixpoint fires (s : Stream) (choices : list Choice) : option Stream :=
  match choices with
  | [] => Some s
  | choice :: choices => '(_, s') ← fire s choice; fires s' choices
  end.

Lemma fire_step s choice actor s' : fire s choice = Some (actor, s') → stream_step s actor s'.
Proof.
  destruct s as [m workers writer sh cancelled], choice as [transport|i answer|asks transport]; cbn.
  - destruct (main_step _ _ _ _ _ _) as [[m' sh']|] eqn:E; cbn; [|done]. intros [= <- <-].
    by eapply step_main.
  - destruct (workers !! i) as [w|] eqn:Hi; cbn; [|done].
    destruct (worker_step _ _ _) as [[w' sh']|] eqn:E; cbn; [|done]. intros [= <- <-].
    rewrite <- (take_drop_middle workers i w Hi) at 1.
    rewrite insert_take_drop by (by eapply lookup_lt_Some). by eapply step_worker.
  - destruct (writer_step _ _ _ _ _) as [[w' sh']|] eqn:E; cbn; [|done]. intros [= <- <-].
    by eapply step_writer.
Qed.

Lemma stream_run_cons s actor s' actors s'' :
  stream_step s actor s' → stream_run s' actors s'' → stream_run s (actor :: actors) s''.
Proof.
  intros Hstep Hrun. induction Hrun as [|actors s1 actor' s2 _ IH Hstep'].
  - apply (stream_run_snoc _ _ _ _ _ s [] s); [constructor|done].
  - rewrite app_comm_cons. eapply stream_run_snoc; eauto.
Qed.

Lemma stream_run_app s actors s' actors' s'' :
  stream_run s actors s' → stream_run s' actors' s'' → stream_run s (actors ++ actors') s''.
Proof.
  intros Hrun. induction 1 as [|actors' s1 actor s2 _ IH Hstep]; [by rewrite app_nil_r|].
  rewrite app_assoc. eapply stream_run_snoc; [exact IH|exact Hstep].
Qed.

Definition client_leaves (s : Stream) : Stream :=
  mk_Stream (st_main s) (st_workers s) (st_writer s) (st_shared s) true.
Lemma client_leaves_run s actors s' :
  stream_run s actors s' → stream_run s (actors ++ [ClientLeaves]) (client_leaves s').
Proof. intros Hrun. eapply stream_run_snoc; [exact Hrun|]. destruct s'. constructor. Qed.

Lemma fires_run s choices s' : fires s choices = Some s' → ∃ actors, stream_run s actors s'.
Proof.
  revert s. induction choices as [|choice choices IH]; intros s; cbn.
  - intros [= <-]. exists []. constructor.
  - destruct (fire s choice) as [[actor s1]|] eqn:E; cbn; [|done]. intros (actors & Hrun)%IH.
    exists (actor :: actors). eapply stream_run_cons; [by eapply fire_step|done].
Qed.
End PipelineFacts.

(** * Concrete instances *)

(** One page through four workers, the first of which gets it. *)
Definition toy_stream : Stream :=
  Stream_init toy_config toy_session (Ledger_new (512 * 1024 * 1024)) (Ledger_new 8)
    [None; Some (kPageImage toy_image)].
Definition toy_answer : Script + bytes := inl (toy_script (Answered 200 (lit "ok"))).
Definition toy_schedule : list Choice :=
  replicate 11 (ChooseMain true) ++ replicate 7 (ChooseWorker 0 toy_answer) ++
  replicate 3 (ChooseWriter true true) ++ replicate 3 (ChooseWorker 0 toy_answer) ++
  [ChooseMain true] ++ (flip ChooseWorker toy_answer <$> [3; 2; 1; 0]%nat) ++
  [ChooseMain true] ++ replicate 2 (ChooseWriter true true) ++ [ChooseMain true].
Definition toy_fires (schedule : list Choice) : option Stream :=
  @fires toy_size toy_stb toy_json (lit "1.0") 0 toy_config toy_session true toy_stream
    schedule.
Definition toy_finished : Stream := default toy_stream (toy_fires toy_schedule).

Lemma toy_stream_run : ∃ actors,
  @stream_run toy_size toy_stb toy_json (lit "1.0") 0 toy_config toy_session true toy_stream
    actors toy_finished.
Proof. apply (fires_run _ _ _ _ _ _ toy_schedule). vm_compute. reflexivity. Qed.

Lemma stream_ok_complete_witness :
  complete toy_session [None; Some (kPageImage toy_image)] toy_finished.
Proof.
  destruct toy_stream_run as [actors Hrun].
  apply (@stream_ok_complete toy_size toy_stb toy_json (lit "1.0") 0 toy_config toy_session
    true (Ledger_new (512 * 1024 * 1024)) (Ledger_new 8) _ actors _ Status_OK); [by compute|exact Hrun|by vm_compute..].
Defined.

Lemma stream_answers_follow_starts_witness :
  answers (take 1 (sh_writes (st_shared toy_finished)).*1) ⊆+
  starts (take 1 (sh_writes (st_shared toy_finished)).*1).
Proof.
  destruct toy_stream_run as [actors Hrun].
  apply (@stream_answers_follow_starts toy_size toy_stb toy_json (lit "1.0") 0 toy_config
    toy_session true (Ledger_new (512 * 1024 * 1024)) (Ledger_new 8) [None; Some (kPageImage toy_image)] actors
    toy_finished); [by compute|exact Hrun|apply prefix_take].
Defined.

(** A stream refused for a page without a number. *)
Definition toy_bad_stream : Stream :=
  Stream_init toy_config toy_session (Ledger_new (512 * 1024 * 1024)) (Ledger_new 8) [Some (kPageImage PageImage_empty)].
Definition toy_refused : Stream :=
  default toy_bad_stream
    (@fires toy_size toy_stb toy_json (lit "1.0") 0 toy_config toy_session true toy_bad_stream
       (replicate 3 (ChooseMain true))).

(** The client of the stream leaves after its page was announced: nobody has
    noticed, and no run goes on to OK. *)
Definition toy_staying : Stream := default toy_stream (toy_fires (take 7 toy_schedule)).
Definition toy_left : Stream := client_leaves toy_staying.
Lemma toy_left_run : ∃ actors,
  @stream_run toy_size toy_stb toy_json (lit "1.0") 0 toy_config toy_session true toy_stream actors toy_left.
Proof.
  assert (Hrun : ∃ actors, @stream_run toy_size toy_stb toy_json (lit "1.0") 0 toy_config
    toy_session true toy_stream actors toy_staying)
    by (apply (fires_run _ _ _ _ _ _ (take 7 toy_schedule)); vm_compute; reflexivity).
  destruct Hrun as [actors Hrun]. exists (actors ++ [ClientLeaves]). by apply client_leaves_run.
Qed.

Lemma stream_halts_for_cause_witness :
  (sh_halt (st_shared toy_refused) = true ∧ status_ok (mn_status (st_main toy_refused)) = false) ∧
  sh_halt (st_shared toy_left) = false ∧
  ∀ actors' s' status,
    @stream_run toy_size toy_stb toy_json (lit "1.0") 0 toy_config toy_session true toy_left actors' s' →
    mn_phase (st_main s') = Finished status → status_ok status = false.
Proof.
  assert (Hrun : ∃ actors, @stream_run toy_size toy_stb toy_json (lit "1.0") 0 toy_config
    toy_session true toy_bad_stream actors toy_refused)
    by (apply (fires_run _ _ _ _ _ _ (replicate 3 (ChooseMain true))); vm_compute; reflexivity).
  destruct Hrun as [actors Hrun], toy_left_run as [actors' Hleft].
  split_and!; [by vm_compute| |by vm_compute|].
  - destruct (proj1 (@stream_halts_for_cause toy_size toy_stb toy_json (lit "1.0") 0 toy_config
      toy_session true (Ledger_new (512 * 1024 * 1024)) (Ledger_new 8) [Some (kPageImage PageImage_empty)] actors
      toy_refused ltac:(by compute) Hrun) ltac:(by vm_compute)) as [Hg|[Hs|[Ha _]]]; [|exact Hs|];
      vm_compute in *; congruence.
  - apply (proj2 (@stream_halts_for_cause toy_size toy_stb toy_json (lit "1.0") 0 toy_config
      toy_session true (Ledger_new (512 * 1024 * 1024)) (Ledger_new 8) [None; Some (kPageImage toy_image)]
      actors' toy_left ltac:(by compute) Hleft)); unfold finished.
    + right. by vm_compute.
    + by vm_compute.
Defined.
