(* ===== verification/StreamBudget.v ===== *)
(** What one stream takes from the budgets (src/service/vlm_convert_service.cpp
    with src/service/budget.h): the leases its threads hold are exactly what the
    ledgers count for it, so the caps of Budget.v are caps on its pages. *)
From S2P Require Import Prelude Numbers Double Json Proto ImageCrop Builder OtslGrid VlmProto Secret Presets.
From S2P Require Import Mapper Endpoint Completion VlmClient Config Budget Service Stream.

(** * One user's part of a ledger *)

Definition is_mine (entry : Ticket * Z) : bool := match entry.1 with Mine _ => true | Other _ => false end.
Definition mine (entries : list (Ticket * Z)) : list (Ticket * Z) := filter is_mine entries.

(** [std::clamp] to a budget of capacity [cap]. *)
Definition clamp_to (cap amount : Z) : Z := clamp_amount (@mk_Budget Ticket cap 0 []) amount.
(** The entries of the pages [pages], each with the amount it asks for. *)
Definition entries (cap : Z) (pages : list (nat * Z)) : list (Ticket * Z) :=
  (λ page, (Mine page.1, clamp_to cap page.2)) <$> pages.

(** On this ledger the stream waits for [waits] and holds [holds]. *)
Record tracks (cap : Z) (ledger : Ledger Ticket) (waits holds : list (nat * Z)) : Prop := {
  tr_inv : ledger_inv ledger;
  tr_capacity : bg_capacity (lg_budget ledger) = cap;
  tr_line : mine (line_of ledger) ≡ₚ entries cap waits;
  tr_leases : mine (lg_leases ledger) ≡ₚ entries cap holds }.

Lemma mine_app l k : mine (l ++ k) = mine l ++ mine k.
Proof. apply filter_app. Qed.
Lemma mine_cons k a l : mine ((Mine k, a) :: l) = (Mine k, a) :: mine l.
Proof. done. Qed.
Lemma elem_of_mine k a l : (Mine k, a) ∈ mine l ↔ (Mine k, a) ∈ l.
Proof. unfold mine. rewrite list_elem_of_filter. cbn. tauto. Qed.
Lemma entries_cons cap page pages :
  entries cap (page :: pages) = (Mine page.1, clamp_to cap page.2) :: entries cap pages.
Proof. done. Qed.
Lemma elem_of_entries cap pages k a :
  (Mine k, a) ∈ entries cap pages ↔ ∃ n, (k, n) ∈ pages ∧ a = clamp_to cap n.
Proof.
  unfold entries. rewrite list_elem_of_fmap. split.
  - intros ([k' n] & [= -> ->] & Hin). by exists n.
  - intros (n & Hin & ->). by exists (k, n).
Qed.
#[export] Instance mine_proper : Proper ((≡ₚ) ==> (≡ₚ)) mine.
Proof. intros l k Hlk. unfold mine. by rewrite Hlk. Qed.
#[export] Instance entries_proper cap : Proper ((≡ₚ) ==> (≡ₚ)) (entries cap).
Proof. intros l k Hlk. unfold entries. by rewrite Hlk. Qed.

(** The order in which the threads are listed does not matter. *)
#[export] Instance tracks_proper cap ledger : Proper ((≡ₚ) ==> (≡ₚ) ==> iff) (tracks cap ledger).
Proof.
  intros w w' Hw h h' Hh. split; intros [Hi Hc Hl Hs]; split; try done;
    rewrite ?Hl, ?Hs; by rewrite ?Hw, ?Hh.
Qed.

Lemma mine_ticket k l : Mine k ∈ l.*1 ↔ Mine k ∈ (mine l).*1.
Proof.
  rewrite !list_elem_of_fmap. split; intros ([t a] & Ht & Hin); cbn in Ht; subst t; exists (Mine k, a);
    split; try done; by apply elem_of_mine.
Qed.
Lemma entries_ticket cap k pages : Mine k ∈ (entries cap pages).*1 ↔ k ∈ pages.*1.
Proof.
  rewrite !list_elem_of_fmap. split.
  - intros ([t a] & Ht & Hin). cbn in Ht. subst t. apply elem_of_entries in Hin as (n & Hin & _).
    by exists (k, n).
  - intros ([k' n] & -> & Hin). exists (Mine k', clamp_to cap n). split; [done|].
    apply elem_of_entries. by exists n.
Qed.

(** ** The operations of a thread *)

Lemma tracks_enter cap ledger waits holds k n :
  tracks cap ledger waits holds → k ∉ waits.*1 → k ∉ holds.*1 →
  tracks cap (ledger_enter (Mine k) n ledger) ((k, n) :: waits) holds.
Proof.
  intros [Hi Hc Hl Hs] Hw Hh.
  assert (Hstep : budget_step ledger (Arrived (Mine k)) (ledger_enter (Mine k) n ledger)).
  { apply ledger_enter_step; rewrite mine_ticket, ?Hl, ?Hs, entries_ticket; done. }
  split.
  - by eapply budget_step_inv.
  - by rewrite (budget_step_capacity _ _ _ Hstep).
  - unfold ledger_enter, line_of. cbn [lg_budget enter bg_line]. rewrite mine_app, mine_cons.
    fold (line_of ledger). rewrite Hl, entries_cons. unfold clamp_to, clamp_amount. cbn. rewrite Hc.
    solve_Permutation.
  - done.
Qed.

Lemma tracks_poll cap ledger waits holds k n halted :
  tracks cap ledger ((k, n) :: waits) holds →
  match ledger_poll (Mine k) n halted ledger with
  | (Took, ledger') => tracks cap ledger' waits ((k, n) :: holds)
  | (Left, ledger') => halted = true ∧ tracks cap ledger' waits holds
  | (Waits, _) => halted = false ∧
      (lg_leases ledger ≠ [] ∨ ∃ t a, head (line_of ledger) = Some (t, a) ∧ t ≠ Mine k)
  end.
Proof.
  intros [Hi Hc Hl Hs].
  assert (Ha : clamp_amount (lg_budget ledger) n = clamp_to cap n)
    by (unfold clamp_to, clamp_amount; cbn; by rewrite Hc).
  assert (Hin : (Mine k, clamp_to cap n) ∈ line_of ledger)
    by (rewrite <- elem_of_mine, Hl, entries_cons; left).
  rewrite <- Ha in Hin. apply list_elem_of_split in Hin as (l & r & Hsplit).
  pose proof (ledger_poll_spec (Mine k) n halted ledger l r Hi Hsplit) as Hspec.
  rewrite Hsplit, mine_app, mine_cons, Ha, entries_cons in Hl. cbn [fst snd] in Hl.
  rewrite <- Permutation_middle in Hl. apply Permutation_cons_inv in Hl.
  destruct (ledger_poll (Mine k) n halted ledger) as [[] ledger'].
  - destruct Hspec as (-> & Hstep & Hline & Hleases). split.
    + by eapply budget_step_inv.
    + by rewrite (budget_step_capacity _ _ _ Hstep).
    + by rewrite Hline.
    + rewrite Hleases, mine_app, Ha, entries_cons, Hs. cbn. solve_Permutation.
  - destruct Hspec as (-> & Hstep & Hline & Hleases). split; [done|]. split.
    + by eapply budget_step_inv.
    + by rewrite (budget_step_capacity _ _ _ Hstep).
    + by rewrite Hline, mine_app.
    + by rewrite Hleases.
  - destruct Hspec as [-> [Hne|Hne]]; (split; [done|]); [right|by left].
    destruct l as [|[t a] l]; [done|]. exists t, a. rewrite Hsplit. split; [done|]. intros ->.
    destruct (proj1 (NoDup_app _ _) (le_nodup _ Hi)) as (Hnd & _). rewrite Hsplit in Hnd. cbn in Hnd.
    apply NoDup_cons in Hnd as [Hnd _]. apply Hnd. rewrite fmap_app. cbn. rewrite elem_of_app.
    right. by left.
Qed.

Lemma tracks_release cap ledger waits holds k n :
  tracks cap ledger waits ((k, n) :: holds) →
  tracks cap (ledger_release (Mine k) ledger) waits holds.
Proof.
  intros [Hi Hc Hl Hs].
  assert (Hin : (Mine k, clamp_to cap n) ∈ lg_leases ledger)
    by (rewrite <- elem_of_mine, Hs, entries_cons; left).
  apply list_elem_of_split in Hin as (l & r & Hsplit).
  destruct (ledger_release_step (Mine k) _ ledger l r Hi Hsplit) as (Hstep & Hline & Hleases).
  split.
  - by eapply budget_step_inv.
  - by rewrite (budget_step_capacity _ _ _ Hstep).
  - by rewrite Hline.
  - rewrite Hleases. rewrite Hsplit, mine_app, mine_cons, entries_cons in Hs. cbn [fst snd] in Hs.
    rewrite <- Permutation_middle in Hs. apply Permutation_cons_inv in Hs. by rewrite mine_app.
Qed.

(** Another stream's steps are none of ours. *)
Lemma mine_filter_other j l : mine (filter (λ entry : Ticket * Z, entry.1 ≠ Other j) l) = mine l.
Proof.
  unfold mine. induction l as [|[[k|i] a] l IH]; [done| |].
  - rewrite filter_cons_True by done. rewrite !filter_cons_True by done. by rewrite IH.
  - rewrite (filter_cons_False is_mine) by (by intros []).
    destruct (decide (Other i = Other j)) as [->|Hne].
    + rewrite filter_cons_False by (intros []; done). done.
    + rewrite filter_cons_True by (cbn; congruence). by rewrite filter_cons_False by (by intros []).
Qed.

Lemma tracks_others cap ledger event ledger' waits holds :
  others_event event → budget_step ledger event ledger' → tracks cap ledger waits holds →
  tracks cap ledger' waits holds.
Proof.
  intros Hother Hstep [Hi Hc Hl Hs].
  split; [by eapply budget_step_inv|by rewrite (budget_step_capacity _ _ _ Hstep)| |];
    destruct Hstep as [ledger [k|j] n _ _|ledger [k|j] n h budget _ Hpoll|
                       ledger [k|j] n budget _ Hpoll|ledger [k|j] n _]; try done; cbn in *.
  - unfold line_of. cbn. rewrite mine_app. cbn. by rewrite app_nil_r.
  - destruct (acquire_poll_took _ _ _ _ _ Hpoll) as (? & ? & _ & _ & ->). unfold line_of. cbn.
    unfold erase. by rewrite mine_filter_other.
  - rewrite (acquire_poll_left _ _ _ _ Hpoll). unfold line_of. cbn. unfold erase.
    by rewrite mine_filter_other.
  - rewrite mine_app. cbn. by rewrite app_nil_r.
  - unfold drop_lease. by rewrite mine_filter_other.
Qed.

(** ** What tracking gives *)

Lemma sublist_total (l k : list (Ticket * Z)) :
  l ⊆+ k → Forall (λ entry, 1 <= entry.2) k → total l <= total k.
Proof.
  intros Hsub Hk. apply submseteq_Permutation in Hsub as [r Hr].
  assert (Ht : ∀ l k : list (Ticket * Z), l ≡ₚ k → total l = total k).
  { intros l1 l2 H12. unfold total. induction H12; cbn; lia. }
  rewrite (Ht _ _ Hr), total_app. rewrite Hr, Forall_app in Hk. destruct Hk as [_ Hk].
  assert (0 <= total r); [|lia]. clear -Hk. unfold total. induction Hk; cbn; lia.
Qed.

Lemma tracks_total cap ledger waits holds :
  tracks cap ledger waits holds → total (entries cap holds) <= cap.
Proof.
  intros [Hi Hc Hl Hs]. pose proof (le_cap _ Hi). rewrite (le_used _ Hi), Hc in H.
  etrans; [|exact H]. transitivity (total (mine (lg_leases ledger))).
  { apply sublist_total; [by rewrite Hs|]. unfold mine. apply Forall_forall. intros e He.
    apply list_elem_of_filter in He as [_ He]. pose proof (le_amounts _ Hi) as Ha.
    rewrite Forall_app, !Forall_forall in Ha. by apply (proj2 Ha). }
  apply sublist_total; [apply sublist_submseteq, sublist_filter|].
  pose proof (le_amounts _ Hi) as Ha. apply Forall_app in Ha as [_ Ha].
  eapply Forall_impl; [exact Ha|]. cbn. lia.
Qed.

Lemma entries_NoDup cap pages : NoDup (entries cap pages).*1 → NoDup pages.*1.
Proof.
  unfold entries. rewrite <- list_fmap_compose. intros H.
  apply (NoDup_fmap_1 Mine). rewrite <- list_fmap_compose. exact H.
Qed.

Lemma tracks_NoDup cap ledger waits holds : tracks cap ledger waits holds → NoDup (waits ++ holds).*1.
Proof.
  intros [Hi _ Hl Hs]. apply (entries_NoDup cap).
  assert (Heq : entries cap (waits ++ holds) ≡ₚ mine (line_of ledger) ++ mine (lg_leases ledger))
    by (unfold entries; rewrite fmap_app; fold (entries cap waits) (entries cap holds); by rewrite Hl, Hs).
  rewrite Heq, <- mine_app.
  eapply sublist_NoDup; [|apply fmap_sublist, sublist_filter]. rewrite fmap_app. apply (le_nodup _ Hi).
Qed.

(** A ledger no other stream uses. *)
Definition own (ledger : Ledger Ticket) : Prop :=
  Forall is_mine (line_of ledger ++ lg_leases ledger).

Lemma Forall_filtered {A} (P Q : A → Prop) `{∀ x, Decision (Q x)} l : Forall P l → Forall P (filter Q l).
Proof. rewrite !Forall_forall. intros Hl x Hx. apply list_elem_of_filter in Hx as [_ Hx]. auto. Qed.

Lemma own_enter k n ledger : own ledger → own (ledger_enter (Mine k) n ledger).
Proof.
  unfold own, ledger_enter, line_of. cbn. rewrite !Forall_app, Forall_cons, Forall_nil. by intros [].
Qed.
Lemma own_poll k n halted ledger : own ledger → own (ledger_poll (Mine k) n halted ledger).2.
Proof.
  unfold own, ledger_poll, acquire_poll, line_of. rewrite !Forall_app. intros [Hl Hs].
  destruct (_ && _); [|destruct halted];
    rewrite ?(bool_decide_true (Took = Took)), ?(bool_decide_false (Left = Took)),
      ?(bool_decide_false (Waits = Took)) by done; cbn; rewrite ?app_nil_r.
  - rewrite Forall_app, Forall_cons, Forall_nil. split; [by apply Forall_filtered|done].
  - split; [by apply Forall_filtered|done].
  - done.
Qed.
Lemma own_release k ledger : own ledger → own (ledger_release (Mine k) ledger).
Proof.
  unfold own, ledger_release, line_of. rewrite !Forall_app. intros [Hl Hs].
  destruct (list_find _ _) as [[i [t a]]|]; cbn; [|done]. split; [done|by apply Forall_filtered].
Qed.

(** * Who holds what *)

Section Holdings.
Context `{ProtobufSize} `{Stb} `{Json}.
Variables (version : bytes) (backoff_base_ms : Z).
Variables (config : Config) (session : Session).
Variable has_probe : bool.

Abbreviation stream_step := (stream_step version backoff_base_ms config session has_probe).
Abbreviation stream_run := (stream_run version backoff_base_ms config session has_probe).

(** A page and its bytes. *)
Definition image_size (image : PageImage) : Z := Z.of_nat (length (im_png image)).
Definition job_share (k : nat) (job : PageJob) : nat * Z := (k, image_size (pj_image job)).
Definition queued_shares (sh : Shared) : list (nat * Z) :=
  (λ entry, job_share entry.1 entry.2) <$> ch_queue (sh_jobs sh).

Definition main_waits_stream (phase : Phase) : list (nat * Z) :=
  match phase with WaitStream k image => [(k, image_size image)] | _ => [] end.
Definition main_waits_process (phase : Phase) : list (nat * Z) :=
  match phase with WaitProcess k image => [(k, image_size image)] | _ => [] end.
Definition main_holds_process (phase : Phase) : list (nat * Z) :=
  match phase with
  | Announcing k image | Enqueuing k image => [(k, image_size image)]
  | _ => []
  end.
Definition main_holds_stream (phase : Phase) : list (nat * Z) :=
  match phase with
  | WaitProcess k image | Announcing k image | Enqueuing k image | Dropping k image =>
      [(k, image_size image)]
  | _ => []
  end.
(** The page a worker has, while it has leases on it: of the stream, of the
    process, a slot; or the one it waits for a slot with. *)
Definition worker_job (worker : Worker) : option (nat * PageJob) :=
  match worker with
  | Holding k job | WaitSlot k job | Converting k job | Counting k job _ | Pushing k job _
  | Pushed k job _ | DropSlot k job | DropProcess k job | DropStream k job => Some (k, job)
  | Idle | Exited => None
  end.
Definition holds_stream (worker : Worker) : option (nat * Z) :=
  (λ entry, job_share entry.1 entry.2) <$> worker_job worker.
Definition holds_process (worker : Worker) : option (nat * Z) :=
  match worker with DropStream _ _ => None | _ => holds_stream worker end.
Definition holds_slot (worker : Worker) : option (nat * Z) :=
  match worker with
  | Converting k _ | Counting k _ _ | Pushing k _ _ | Pushed k _ _ | DropSlot k _ => Some (k, 1)
  | _ => None
  end.
Definition waits_slot (worker : Worker) : option (nat * Z) :=
  match worker with WaitSlot k _ => Some (k, 1) | _ => None end.

(** Every page the stream's own budget admitted and has not got back. *)
Definition admitted_shares (s : Stream) : list (nat * Z) :=
  main_holds_stream (mn_phase (st_main s)) ++ queued_shares (st_shared s) ++
  omap holds_stream (st_workers s).
(** Every page the stream has read and not let go of: those, and the one the
    reader holds outside the budget while it waits to be admitted. *)
Definition stream_shares (s : Stream) : list (nat * Z) :=
  main_waits_stream (mn_phase (st_main s)) ++ admitted_shares s.
Definition process_shares (s : Stream) : list (nat * Z) :=
  main_holds_process (mn_phase (st_main s)) ++ queued_shares (st_shared s) ++
  omap holds_process (st_workers s).

(** [process] and [slots] are the capacities of the process's budgets. *)
Record shares_inv (process slots : Z) (s : Stream) : Prop := {
  sr_stream : tracks (Z.max (cf_max_stream_buffered_bytes config) 1) (sh_stream_bytes (st_shared s))
    (main_waits_stream (mn_phase (st_main s))) (admitted_shares s);
  sr_process : tracks process (sh_process_bytes (st_shared s))
    (main_waits_process (mn_phase (st_main s))) (process_shares s);
  sr_slots : tracks slots (sh_slots (st_shared s))
    (omap waits_slot (st_workers s)) (omap holds_slot (st_workers s));
  sr_next : Forall (λ share, (share.1 < mn_next (st_main s))%nat ∧ share.2 <= cf_max_page_bytes config)
    (stream_shares s);
  sr_own : own (sh_stream_bytes (st_shared s)) }.

Lemma holds_process_stream w share : holds_process w = Some share → holds_stream w = Some share.
Proof. by destruct w. Qed.
Lemma slot_holder w k n :
  holds_slot w = Some (k, n) ∨ waits_slot w = Some (k, n) → ∃ n', holds_stream w = Some (k, n').
Proof. destruct w; cbn; intros [|]; simplify_eq; by eexists. Qed.

Lemma omap_ids (f g : Worker → option (nat * Z)) ws k :
  (∀ w k n, f w = Some (k, n) → ∃ n', g w = Some (k, n')) → k ∈ (omap f ws).*1 → k ∈ (omap g ws).*1.
Proof.
  intros Hfg. rewrite !list_elem_of_fmap. intros ([k' n] & -> & Hin).
  apply list_elem_of_omap in Hin as (w & Hw & Hf). destruct (Hfg _ _ _ Hf) as [n' Hg].
  exists (k', n'). split; [done|]. apply list_elem_of_omap. by exists w.
Qed.

Lemma process_ids s k : k ∈ (process_shares s).*1 → k ∈ (admitted_shares s).*1.
Proof.
  unfold process_shares, admitted_shares. rewrite !fmap_app, !elem_of_app. intros [Hm|[Hq|Hw]].
  - left. destruct (mn_phase (st_main s)); cbn in *; (done || by apply elem_of_nil in Hm).
  - by right; left.
  - right; right. eapply omap_ids; [|exact Hw]. intros w k' n Hp. exists n. by apply holds_process_stream.
Qed.

Lemma not_below (n : nat) (max : Z) (shares : list (nat * Z)) :
  Forall (λ share, (share.1 < n)%nat ∧ share.2 <= max) shares → n ∉ shares.*1.
Proof.
  intros Hall Hin. apply list_elem_of_fmap in Hin as (share & -> & Hin).
  rewrite Forall_forall in Hall. specialize (Hall _ Hin). lia.
Qed.

Lemma check_page_size started image :
  check_page config started image = None → image_size image <= cf_max_page_bytes config.
Proof.
  unfold check_page. destruct (_ =? 0); [done|]. destruct (_ <? _); [done|].
  destruct (Z.ltb_spec (cf_max_page_bytes config) (Z.of_nat (length (im_png image)))); [done|].
  by intros _.
Qed.

(** A poll of the reader, with its outcome known. *)
Lemma poll_took cap ledger ledger' waits holds k n halted :
  ledger_poll (Mine k) n halted ledger = (Took, ledger') →
  tracks cap ledger ((k, n) :: waits) holds → tracks cap ledger' waits ((k, n) :: holds).
Proof. intros Hp Ht. pose proof (tracks_poll _ _ _ _ k n halted Ht) as Hspec. by rewrite Hp in Hspec. Qed.
Lemma poll_left cap ledger ledger' waits holds k n halted :
  ledger_poll (Mine k) n halted ledger = (Left, ledger') →
  tracks cap ledger ((k, n) :: waits) holds → tracks cap ledger' waits holds.
Proof.
  intros Hp Ht. pose proof (tracks_poll _ _ _ _ k n halted Ht) as Hspec. rewrite Hp in Hspec. apply Hspec.
Qed.

Lemma shares_main process slots transport m workers writer sh cancelled m' sh' :
  main_step config session has_probe transport cancelled workers writer m sh = Some (m', sh') →
  shares_inv process slots (mk_Stream m workers writer sh cancelled) →
  shares_inv process slots (mk_Stream m' workers writer sh' cancelled).
Proof.
  intros Hs [Hst Hpr Hsl Hnx How]. pose proof (tracks_NoDup _ _ _ _ Hst) as Hnd.
  assert (Hids : ∀ k, k ∈ (process_shares (mk_Stream m workers writer sh cancelled)).*1 →
    k ∈ (admitted_shares (mk_Stream m workers writer sh cancelled)).*1) by apply process_ids.
  unfold stream_shares, admitted_shares, process_shares in *. cbn in *. open_main Hs.
  all: try match goal with Hp : ledger_poll (Mine ?k) ?n ?h ?l = _ |- _ =>
    pose proof (own_poll k n h l) as Hown; rewrite Hp in Hown; cbn in Hown end.
  all: split; unfold stream_shares, admitted_shares, process_shares; cbn in *; try done; auto using own_enter, own_release.
  - apply tracks_enter; [exact Hst|by intros ?%elem_of_nil|by eapply not_below].
  - apply Forall_cons. split; [split; [cbn; lia|by eapply check_page_size]|].
    eapply Forall_impl; [exact Hnx|]. cbn. lia.
  - by eapply poll_took.
  - apply tracks_enter; [exact Hpr|by intros ?%elem_of_nil|]. intros Hk%Hids.
    apply NoDup_cons in Hnd as [Hnd _]. done.
  - by eapply poll_left.
  - by apply Forall_cons in Hnx as [_ Hnx].
  - by eapply poll_took.
  - by eapply poll_left.
  - rewrite fmap_app, <- app_assoc. cbn. rewrite <- Permutation_middle. exact Hst.
  - rewrite fmap_app, <- app_assoc. cbn. rewrite <- Permutation_middle. exact Hpr.
  - rewrite fmap_app, <- app_assoc. cbn. rewrite <- Permutation_middle. exact Hnx.
  - by eapply tracks_release.
  - by apply Forall_cons in Hnx as [_ Hnx].
Qed.

(** The other workers neither wait for a slot nor hold one under this page's
    number. *)
Lemma worker_distinct cap ledger waits front k n before after :
  tracks cap ledger waits (front ++ (k, n) :: omap holds_stream (before ++ after)) →
  (k ∉ (omap waits_slot (before ++ after)).*1) ∧ (k ∉ (omap holds_slot (before ++ after)).*1).
Proof.
  intros Hnd%tracks_NoDup. rewrite app_assoc, fmap_app in Hnd.
  apply NoDup_app in Hnd as (_ & _ & Hnd). cbn in Hnd. apply NoDup_cons in Hnd as [Hnd _].
  split; intros Hin; apply Hnd; (eapply omap_ids; [|exact Hin]); intros w k' n' Hw;
    eapply slot_holder; eauto.
Qed.

Lemma queued_pop sh jobs n job :
  ch_queue (sh_jobs sh) = (n, job) :: ch_queue jobs →
  queued_shares sh = job_share n job :: queued_shares (with_jobs jobs sh).
Proof. intros Hq. unfold queued_shares. cbn. by rewrite Hq. Qed.

Lemma shares_worker process slots answer m before worker after writer sh cancelled worker' sh' :
  worker_step version backoff_base_ms config session answer worker sh = Some (worker', sh') →
  shares_inv process slots (mk_Stream m (before ++ worker :: after) writer sh cancelled) →
  shares_inv process slots (mk_Stream m (before ++ worker' :: after) writer sh' cancelled).
Proof.
  intros Hs [Hst Hpr Hsl Hnx How]. unfold stream_shares, admitted_shares, process_shares in *. cbn in *.
  rewrite !omap_middle in *. open_worker Hs.
  all: try match goal with Hp : pop _ = Some (Some _, _) |- _ => apply pop_Some in Hp as [Hq _];
    apply queued_pop in Hq; rewrite Hq in Hst, Hpr, Hnx end.
  all: split; unfold stream_shares, admitted_shares, process_shares; cbn in *; rewrite ?omap_middle; cbn in *;
    try done; auto using own_enter, own_release.
  - by rewrite <- Permutation_middle.
  - by rewrite <- Permutation_middle.
  - by rewrite <- Permutation_middle.
  - rewrite app_assoc in Hst. destruct (worker_distinct _ _ _ _ _ _ _ _ Hst). by apply tracks_enter.
  - by eapply poll_took.
  - by eapply poll_left.
  - by eapply tracks_release.
  - rewrite app_assoc in Hpr |- *. rewrite <- Permutation_middle in Hpr. by eapply tracks_release.
  - rewrite app_assoc in Hst |- *. rewrite <- Permutation_middle in Hst. by eapply tracks_release.
  - rewrite !Forall_app, ?Forall_cons in *. tauto.
Qed.

Lemma shares_step process slots s actor s' :
  stream_step s actor s' → shares_inv process slots s → shares_inv process slots s'.
Proof.
  destruct 1 as [| |asks transport m workers writer sh cancelled writer' sh' Hs| | |].
  - by eapply shares_main.
  - by eapply shares_worker.
  - open_writer Hs; by intros [].
  - intros []. split; try done. by eapply tracks_others.
  - intros []. split; try done. by eapply tracks_others.
  - by intros [].
Qed.

Lemma shares_init process_bytes slots messages :
  cf_max_stream_buffered_bytes config < 2 ^ 63 →
  ledger_inv process_bytes → mine (line_of process_bytes ++ lg_leases process_bytes) = [] →
  ledger_inv slots → mine (line_of slots ++ lg_leases slots) = [] →
  shares_inv (bg_capacity (lg_budget process_bytes)) (bg_capacity (lg_budget slots))
    (Stream_init config session process_bytes slots messages).
Proof.
  intros Hcap Hp Hmp Hs Hms.
  assert (Ho : ∀ f : Worker → option (nat * Z), f Idle = None →
    omap f (replicate (Z.to_nat (se_concurrency session)) Idle) = []).
  { intros f Hf. induction (Z.to_nat _) as [|n IH]; cbn; [done|by rewrite Hf]. }
  rewrite mine_app in *. apply app_nil in Hmp as [Hmp1 Hmp2], Hms as [Hms1 Hms2].
  split; unfold stream_shares, admitted_shares, process_shares; cbn; rewrite ?Ho by done; try done.
  - split; [by apply ledger_new_inv|done..].
  - by split; rewrite ?Hmp1, ?Hmp2.
  - by split; rewrite ?Hms1, ?Hms2.
  - constructor.
Qed.

Lemma shares_run process_bytes slots messages actors s :
  cf_max_stream_buffered_bytes config < 2 ^ 63 →
  ledger_inv process_bytes → mine (line_of process_bytes ++ lg_leases process_bytes) = [] →
  ledger_inv slots → mine (line_of slots ++ lg_leases slots) = [] →
  stream_run (Stream_init config session process_bytes slots messages) actors s →
  shares_inv (bg_capacity (lg_budget process_bytes)) (bg_capacity (lg_budget slots)) s.
Proof. intros ? ? ? ? ?. induction 1; [by apply shares_init|by eapply shares_step]. Qed.

(** ** The caps *)

Definition bytes_of (shares : list (nat * Z)) : Z := foldr (λ share sum, share.2 + sum) 0 shares.

Lemma clamp_to_ge cap n : n <= cap → n <= clamp_to cap n.
Proof.
  intros. unfold clamp_to, clamp_amount. cbn. destruct (Z.ltb_spec n 1), (Z.ltb_spec cap n); lia.
Qed.
Lemma clamp_to_one cap : 1 <= cap → clamp_to cap 1 = 1.
Proof. intros. unfold clamp_to, clamp_amount. cbn. destruct (Z.ltb_spec cap 1); lia. Qed.

(** Pages no larger than the budget are counted at least at their size. *)
Lemma bytes_of_entries cap shares :
  Forall (λ share, share.2 <= cap) shares → bytes_of shares <= total (entries cap shares).
Proof.
  unfold bytes_of, total, entries. induction 1 as [|[k n] shares Hn _ IH]; cbn in *; [lia|].
  pose proof (clamp_to_ge cap n Hn). lia.
Qed.

Lemma shares_process_sub s : process_shares s `sublist_of` admitted_shares s.
Proof.
  unfold process_shares, admitted_shares. apply sublist_app; [|apply sublist_app; [done|]].
  - destruct (mn_phase (st_main s)); cbn; try done; apply sublist_nil_l.
  - induction (st_workers s) as [|w ws IH]; [done|]. cbn.
    destruct w; cbn; try (by apply sublist_skip); try done. by apply sublist_cons.
Qed.

Lemma slot_entries cap ws :
  1 <= cap → total (entries cap (omap holds_slot ws)) = Z.of_nat (length (omap holds_slot ws)).
Proof.
  intros Hcap. assert (Hall : Forall (λ share, share.2 = 1) (omap holds_slot ws)).
  { apply Forall_forall. intros [k n] (w & _ & Hw)%list_elem_of_omap. destruct w; by simplify_eq/=. }
  unfold total, entries. induction Hall as [|[k n] l Hn _ IH]; cbn in *; [done|]. subst n.
  rewrite clamp_to_one by done. lia.
Qed.

(** The reader waits with at most one page. *)
Lemma waiting_bytes s :
  0 <= cf_max_page_bytes config →
  Forall (λ share, (share.1 < mn_next (st_main s))%nat ∧ share.2 <= cf_max_page_bytes config)
    (main_waits_stream (mn_phase (st_main s))) →
  bytes_of (main_waits_stream (mn_phase (st_main s))) <= cf_max_page_bytes config.
Proof.
  intros Hpos Hall. destruct (mn_phase (st_main s)); cbn in *; try lia.
  apply Forall_cons in Hall as [[_ Hle] _]. cbn in Hle. lia.
Qed.

Lemma bytes_of_app l k : bytes_of (l ++ k) = bytes_of l + bytes_of k.
Proof. unfold bytes_of. induction l as [|x l IH]; cbn in *; lia. Qed.

(** C5: Memory and calls are capped at every moment of every run: the page
    images a stream was admitted with and has not answered (queued, in
    conversion, waiting for the process's budget) stay within its byte budget;
    with the one page its reader may hold besides, read and waiting to be
    admitted, they exceed it by at most one page's cap; those the process
    admitted stay within the process's budget, and the stream's calls in flight
    (answers being mapped included) within the process's slots, whatever other
    streams do with them. *)
Theorem stream_within_budgets process_bytes slots messages actors s :
  sound_config config →
  ledger_inv process_bytes → mine (line_of process_bytes ++ lg_leases process_bytes) = [] →
  bg_capacity (lg_budget process_bytes) = cf_max_buffered_bytes config →
  ledger_inv slots → mine (line_of slots ++ lg_leases slots) = [] →
  bg_capacity (lg_budget slots) = cf_max_inflight config →
  stream_run (Stream_init config session process_bytes slots messages) actors s →
  bytes_of (admitted_shares s) <= cf_max_stream_buffered_bytes config ∧
  bytes_of (stream_shares s) <= cf_max_stream_buffered_bytes config + cf_max_page_bytes config ∧
  bytes_of (process_shares s) <= cf_max_buffered_bytes config ∧
  Z.of_nat (length (omap holds_slot (st_workers s))) <= cf_max_inflight config.
Proof.
  intros Hc Hp Hmp Hcp Hsl Hms Hcs Hrun.
  pose proof (sc_max_page_bytes _ Hc). pose proof (sc_stream_buffer _ Hc). pose proof (sc_buffer _ Hc).
  pose proof (sc_max_inflight _ Hc).
  assert (Hfits : cf_max_stream_buffered_bytes config < 2 ^ 63) by lia.
  destruct (shares_run _ _ _ _ _ Hfits Hp Hmp Hsl Hms Hrun) as [Hst Hpr Hslots Hnx _].
  rewrite Hcp in Hpr. rewrite Hcs in Hslots. apply Forall_app in Hnx as [Hwait Hnx].
  pose proof (tracks_total _ _ _ _ Hst) as Ht1. pose proof (tracks_total _ _ _ _ Hpr) as Ht2.
  pose proof (tracks_total _ _ _ _ Hslots) as Ht3.
  assert (Hadm : bytes_of (admitted_shares s) <= cf_max_stream_buffered_bytes config).
  { etrans; [apply (bytes_of_entries (Z.max (cf_max_stream_buffered_bytes config) 1))|lia].
    eapply Forall_impl; [exact Hnx|]. cbn. lia. }
  split_and!; [exact Hadm| | |].
  - unfold stream_shares. rewrite bytes_of_app.
    pose proof (waiting_bytes s ltac:(lia) Hwait). lia.
  - etrans; [apply (bytes_of_entries (cf_max_buffered_bytes config))|lia].
    apply Forall_forall. intros share Hin. rewrite Forall_forall in Hnx.
    assert (Hs : share ∈ admitted_shares s) by (by eapply sublist_subseteq; [apply shares_process_sub|]).
    pose proof (Hnx _ Hs). lia.
  - rewrite slot_entries in Ht3; lia.
Qed.
End Holdings.

(** A stream stopped where it holds a page outside its budget: what it has read
    is more than what it was admitted with. *)
Definition toy_waiting : Stream := default toy_stream (toy_fires (replicate 4 (ChooseMain true))).
Lemma toy_waiting_run : ∃ actors,
  @stream_run toy_size toy_stb toy_json (lit "1.0") 0 toy_config toy_session true toy_stream
    actors toy_waiting.
Proof. apply (fires_run _ _ _ _ _ _ (replicate 4 (ChooseMain true))). vm_compute. reflexivity. Qed.

Lemma stream_within_budgets_witness :
  bytes_of (admitted_shares toy_finished) <= cf_max_stream_buffered_bytes toy_config ∧
  bytes_of (admitted_shares toy_waiting) < bytes_of (stream_shares toy_waiting) ∧
  bytes_of (stream_shares toy_waiting) <=
    cf_max_stream_buffered_bytes toy_config + cf_max_page_bytes toy_config.
Proof.
  destruct toy_stream_run as [actors Hrun], toy_waiting_run as [actors' Hrun'].
  split_and!; [|by vm_compute|].
  - apply (@stream_within_budgets toy_size toy_stb toy_json (lit "1.0") 0 toy_config toy_session
      true (Ledger_new (512 * 1024 * 1024)) (Ledger_new 8) [None; Some (kPageImage toy_image)] actors
      toy_finished toy_config_sound); try done; try (by apply ledger_new_inv).
  - apply (@stream_within_budgets toy_size toy_stb toy_json (lit "1.0") 0 toy_config toy_session
      true (Ledger_new (512 * 1024 * 1024)) (Ledger_new 8) [None; Some (kPageImage toy_image)] actors'
      toy_waiting toy_config_sound); try done; try (by apply ledger_new_inv).
Defined.
