(* ===== verification/StreamProgress.v ===== *)
(** Every stream ends: a bound on the steps of its threads, and the absence of
    deadlock between them and with the other streams
    (src/service/vlm_convert_service.cpp, [ConvertPagesCore]). *)
From S2P Require Import Prelude Numbers Double Json Proto ImageCrop Builder OtslGrid VlmProto Secret Presets.
From S2P Require Import Mapper Endpoint Completion VlmClient Config Budget Service Stream StreamBudget.

(** * A measure of the work left *)

Definition phase_work (phase : Phase) : nat :=
  match phase with
  | WaitStream _ _ => 24 | WaitProcess _ _ => 23 | Announcing _ _ => 22 | Enqueuing _ _ => 19
  | Looping => 6 | Reading => 5 | Dropping _ _ => 5 | Leaving => 4 | Closing => 3
  | JoinWorkers => 2 | JoinWriter => 1 | Finished _ => 0
  end.
Definition worker_work (worker : Worker) : nat :=
  match worker with
  | Holding _ _ => 12 | WaitSlot _ _ => 11 | Converting _ _ => 10 | Counting _ _ _ => 9
  | Pushing _ _ _ => 8 | Pushed _ _ _ => 5 | DropSlot _ _ => 4 | DropProcess _ _ => 3
  | DropStream _ _ => 2 | Idle => 1 | Exited => 0
  end.
Definition writer_work (writer : Writer) : nat :=
  match writer with Writing _ => 2 | Polling => 1 | WriterExited => 0 end.
Definition workers_work (workers : list Worker) : nat := sum_list_with worker_work workers.
Definition work (s : Stream) : nat :=
  20 * length (mn_input (st_main s)) + phase_work (mn_phase (st_main s)) +
  12 * length (ch_queue (sh_jobs (st_shared s))) + workers_work (st_workers s) +
  2 * length (ch_queue (sh_events (st_shared s))) + writer_work (st_writer s).

(** The steps of the stream's own threads. *)
Definition own_step (actor : Actor) : bool :=
  match actor with MainStep | WorkerStep | WriterStep => true | _ => false end.
(** A step that needs neither the client to leave nor another stream to arrive
    or to give up its place. *)
Definition prompted (actor : Actor) : bool :=
  match actor with
  | ClientLeaves | OthersStep (Arrived _) | OthersStep (GaveUp _) => false
  | _ => true
  end.
(** What the other streams have to do on a ledger: take once, give back once. *)
Definition others (entries : list (Ticket * Z)) : list (Ticket * Z) := filter (λ e, ¬ is_mine e) entries.
Definition others_work (ledger : Ledger Ticket) : nat :=
  2 * length (others (line_of ledger)) + length (others (lg_leases ledger)).
Definition all_work (s : Stream) : nat :=
  work s + others_work (sh_process_bytes (st_shared s)) + others_work (sh_slots (st_shared s)).

(** ** The others' part of a ledger *)

Lemma others_app l k : others (l ++ k) = others l ++ others k.
Proof. apply filter_app. Qed.
Lemma others_mine k a l : others ((Mine k, a) :: l) = others l.
Proof. unfold others. by rewrite filter_cons_False by (intros Hn; by apply Hn). Qed.
Lemma others_other j a l : others ((Other j, a) :: l) = (Other j, a) :: others l.
Proof. unfold others. by rewrite filter_cons_True by (by intros []). Qed.
Lemma others_filter_mine k l : others (filter (λ entry : Ticket * Z, entry.1 ≠ Mine k) l) = others l.
Proof.
  induction l as [|[[i|j] a] l IH]; [done| |].
  - rewrite others_mine, filter_cons. case_decide; [by rewrite others_mine|done].
  - rewrite filter_cons_True by done. by rewrite !others_other, IH.
Qed.

Lemma others_enter k n ledger : others_work (ledger_enter (Mine k) n ledger) = others_work ledger.
Proof.
  unfold others_work, ledger_enter, line_of. cbn. rewrite others_app, others_mine. cbn.
  by rewrite app_nil_r.
Qed.
Lemma others_poll k n halted ledger :
  others_work (ledger_poll (Mine k) n halted ledger).2 = others_work ledger.
Proof.
  unfold others_work, ledger_poll, acquire_poll, line_of.
  destruct (_ && _); [|destruct halted];
    rewrite ?(bool_decide_true (Took = Took)), ?(bool_decide_false (Left = Took)),
      ?(bool_decide_false (Waits = Took)) by done; cbn; unfold erase;
    rewrite ?others_filter_mine, ?others_app, ?others_mine, ?app_nil_r; done.
Qed.
Lemma others_release k ledger : others_work (ledger_release (Mine k) ledger) = others_work ledger.
Proof.
  unfold others_work, ledger_release, line_of.
  destruct (list_find _ _) as [[i [t a]]|]; cbn; [|done]. unfold drop_lease. by rewrite others_filter_mine.
Qed.

(** Each of their steps but an arrival brings them closer to rest. *)
Lemma others_step ledger event ledger' :
  others_event event → prompted (OthersStep event) = true → ledger_inv ledger →
  budget_step ledger event ledger' → (others_work ledger' < others_work ledger)%nat.
Proof.
  intros Hother Hprompted Hinv Hstep. unfold others_work.
  destruct Hstep as [|ledger [k|j] n h budget Hin Hpoll|ledger [k|j] n budget Hin Hpoll|ledger [k|j] n Hin];
    try done.
  - destruct (acquire_poll_took _ _ _ _ _ Hpoll) as (a & line & Hl & _ & ->).
    pose proof (proj1 (proj1 (NoDup_app _ _) (le_nodup _ Hinv))) as Hnd. unfold line_of in *. rewrite Hl in *.
    cbn [lg_budget bg_line lg_leases]. rewrite erase_front by done. rewrite others_other, others_app, length_app, others_other. cbn [length others filter list_filter]. cbn. lia.
  - apply list_elem_of_split in Hin as (l & r & Hl).
    destruct (proj1 (NoDup_app _ _) (le_nodup _ Hinv)) as (_ & _ & Hnd).
    unfold drop_lease, line_of. cbn [lg_budget bg_line lg_leases release]. rewrite Hl in *.
    rewrite filter_ne_split by done. rewrite !others_app, others_other, !length_app. cbn [length]. lia.
Qed.

Section Progress.
Context `{ProtobufSize} `{Stb} `{Json}.
Variables (version : bytes) (backoff_base_ms : Z).
Variables (config : Config) (session : Session).
Variable has_probe : bool.

Abbreviation stream_step := (stream_step version backoff_base_ms config session has_probe).
Abbreviation stream_run := (stream_run version backoff_base_ms config session has_probe).
Abbreviation stream_inv := (stream_inv session has_probe).

Lemma workers_work_middle before w after :
  workers_work (before ++ w :: after) = (workers_work (before ++ after) + worker_work w)%nat.
Proof. unfold workers_work. rewrite !sum_list_with_app. cbn. lia. Qed.

Lemma work_main transport m workers writer sh cancelled m' sh' :
  main_step config session has_probe transport cancelled workers writer m sh = Some (m', sh') →
  (work (mk_Stream m' workers writer sh' cancelled) < work (mk_Stream m workers writer sh cancelled))%nat.
Proof. intros Hs. open_main Hs; unfold work; cbn; rewrite ?length_app; cbn; lia. Qed.

Lemma work_worker answer m before worker after writer sh cancelled worker' sh' :
  worker_step version backoff_base_ms config session answer worker sh = Some (worker', sh') →
  (work (mk_Stream m (before ++ worker' :: after) writer sh' cancelled) <
   work (mk_Stream m (before ++ worker :: after) writer sh cancelled))%nat.
Proof.
  intros Hs. unfold work. cbn. rewrite !workers_work_middle. open_worker Hs.
  all: try match goal with Hp : pop _ = Some (Some _, _) |- _ => apply pop_Some in Hp as [Hq _];
    rewrite Hq end.
  all: cbn; rewrite ?length_app; cbn; lia.
Qed.

Lemma work_writer asks transport m workers writer sh cancelled writer' sh' :
  writer_step has_probe asks transport cancelled writer sh = Some (writer', sh') →
  (work (mk_Stream m workers writer' sh' cancelled) < work (mk_Stream m workers writer sh cancelled))%nat.
Proof.
  intros Hs. unfold work. open_writer Hs.
  all: try match goal with Hp : pop _ = Some (Some _, _) |- _ => apply pop_Some in Hp as [Hq _];
    rewrite Hq end.
  all: cbn; lia.
Qed.

(** A step of the stream's own uses up work; nobody else's adds any. *)
Lemma work_step s actor s' :
  stream_step s actor s' → (work s' + (if own_step actor then 1 else 0) ≤ work s)%nat.
Proof.
  destruct 1; cbn [own_step].
  - by rewrite Nat.add_1_r; eapply work_main.
  - by rewrite Nat.add_1_r; eapply work_worker.
  - by rewrite Nat.add_1_r; eapply work_writer.
  - unfold work. cbn. lia.
  - unfold work. cbn. lia.
  - unfold work. cbn. lia.
Qed.

Lemma work_init process_bytes slots messages :
  0 <= se_concurrency session →
  Z.of_nat (work (Stream_init config session process_bytes slots messages)) =
  20 * Z.of_nat (length messages) + se_concurrency session + 7.
Proof.
  intros Hc. unfold work, workers_work. cbn.
  assert (Hr : ∀ n, sum_list_with worker_work (replicate n Idle) = n)
    by (induction n as [|n IH]; [done|cbn in *; lia]).
  rewrite Hr. lia.
Qed.

(** C4: Every stream ends.  However its threads are scheduled, whatever the
    endpoint answers and the transport does, they take at most twenty steps per
    message of the client, one per worker and seven more; what the other
    streams do costs none. *)
Theorem stream_terminates process_bytes slots messages actors s :
  0 <= se_concurrency session →
  stream_run (Stream_init config session process_bytes slots messages) actors s →
  Z.of_nat (length (filter own_step actors)) <=
    20 * Z.of_nat (length messages) + se_concurrency session + 7.
Proof.
  intros Hc Hrun. rewrite <- (work_init process_bytes slots messages Hc).
  enough (length (filter own_step actors) + work s ≤
    work (Stream_init config session process_bytes slots messages))%nat by lia.
  induction Hrun as [|actors s1 actor s2 _ IH Hstep]; [done|].
  pose proof (work_step _ _ _ Hstep). rewrite filter_app, length_app.
  rewrite filter_cons. case_decide; destruct actor; try done; cbn in *; lia.
Qed.

(** * Nobody waits for ever *)

(** Nothing but the client's own input, or abort_on_error, has halted it. *)
Definition spared (s : Stream) : Prop :=
  sh_halt (st_shared s) = false ∨ status_ok (mn_status (st_main s)) = false ∨
  co_abort_on_error (se_options session) = true.

(** Some step is enabled that needs nobody to leave, and gives nothing up. *)
Definition unblocked (s : Stream) : Prop :=
  ∃ actor s', stream_step s actor s' ∧ prompted actor = true ∧ (spared s → spared s').

Lemma main_spares m workers writer sh cancelled transport m' sh' :
  main_step config session has_probe transport cancelled workers writer m sh = Some (m', sh') →
  spared (mk_Stream m workers writer sh cancelled) → spared (mk_Stream m' workers writer sh' cancelled).
Proof.
  intros Hs Hsp. unfold spared in *. open_main Hs; try tauto; try by right; left.
  match goal with Hc : check_page _ _ _ = Some ?status |- _ => apply check_page_fails in Hc;
    destruct status; tauto end.
Qed.

Lemma worker_spares answer worker sh worker' sh' m before after writer cancelled :
  worker_step version backoff_base_ms config session answer worker sh = Some (worker', sh') →
  spared (mk_Stream m (before ++ worker :: after) writer sh cancelled) →
  spared (mk_Stream m (before ++ worker' :: after) writer sh' cancelled).
Proof.
  intros Hs Hsp. unfold spared in *. open_worker Hs; try tauto.
  match goal with Ha : _ && _ = true |- _ => apply andb_true_iff in Ha as [_ Ha] end. tauto.
Qed.

Lemma main_moves m workers writer sh cancelled transport next :
  main_step config session has_probe transport cancelled workers writer m sh = Some next →
  unblocked (mk_Stream m workers writer sh cancelled).
Proof.
  destruct next. intros Hs. exists MainStep. eexists.
  split_and!; [by eapply step_main|done|by eapply main_spares].
Qed.

Lemma worker_moves_on answer m workers worker writer sh cancelled next :
  worker ∈ workers → worker_step version backoff_base_ms config session answer worker sh = Some next →
  unblocked (mk_Stream m workers writer sh cancelled).
Proof.
  destruct next. intros (before & after & ->)%list_elem_of_split Hs.
  exists WorkerStep. eexists. split_and!; [by eapply step_worker|done|by eapply worker_spares].
Qed.

(** A worker with something to do moves, or the slot it waits for is with
    someone who moves. *)
Definition busy (sh : Shared) (worker : Worker) : Prop :=
  match worker with
  | Idle => ch_queue (sh_jobs sh) ≠ [] ∨ ch_closed (sh_jobs sh) = true
  | Exited => False
  | _ => True
  end.

Lemma busy_moves m workers worker writer sh cancelled :
  worker ∈ workers → busy sh worker → (∀ k job, worker ≠ WaitSlot k job) →
  unblocked (mk_Stream m workers writer sh cancelled).
Proof.
  intros Hin Hbusy Hwait. pose (answer := inr [] : Script + bytes).
  destruct (worker_step version backoff_base_ms config session answer worker sh) as [next|] eqn:E.
  { by eapply worker_moves_on. }
  exfalso. revert E. destruct worker; cbn in *; try done.
  - unfold pop. destruct (ch_queue (sh_jobs sh)) as [|[]]; [|done]. destruct Hbusy as [?| ->]; done.
  - by destruct (Hwait k job).
Qed.

(** Someone holds a lease on a ledger other streams use: it is theirs, or one
    of ours. *)
Lemma lease_holder cap ledger waits holds :
  tracks cap ledger waits holds → lg_leases ledger ≠ [] →
  (∃ j ledger', budget_step ledger (Released (Other j)) ledger') ∨ ∃ k n, (k, n) ∈ holds.
Proof.
  intros [Hi Hc Hl Hs] Hne. destruct (lg_leases ledger) as [|[[k|j] a] leases] eqn:E; [done| |].
  - right. assert (Hin : (Mine k, a) ∈ entries cap holds) by (rewrite <- Hs, mine_cons; left).
    apply elem_of_entries in Hin as (n & Hin & _). by exists k, n.
  - left. exists j. eexists. eapply (step_release _ (Other j) a). rewrite E. left.
Qed.

(** Someone else heads the line of a free ledger: it takes. *)
Lemma other_takes ledger j a :
  ledger_inv ledger → lg_leases ledger = [] → head (line_of ledger) = Some (Other j, a) →
  ∃ ledger', budget_step ledger (Granted (Other j)) ledger'.
Proof.
  intros Hi Hnil Hhead. destruct (line_of ledger) as [|e line] eqn:E; [done|]. injection Hhead as ->.
  destruct (front_taken ledger (Other j) a line false Hi Hnil E) as (ledger' & Hstep & _). by exists ledger'.
Qed.

(** Whoever of ours heads a line waits. *)
Lemma head_waits cap ledger waits holds k a :
  tracks cap ledger waits holds → head (line_of ledger) = Some (Mine k, a) → ∃ n, (k, n) ∈ waits.
Proof.
  intros Ht Hhead. destruct (line_of ledger) as [|e line] eqn:E; [done|]. injection Hhead as ->.
  assert ((Mine k, a) ∈ mine (line_of ledger)) as Hin by (rewrite E, mine_cons; left).
  rewrite (tr_line _ _ _ _ Ht), elem_of_entries in Hin. destruct Hin as (n & Hin & _). by exists n.
Qed.

(** Whoever of ours heads the line of a free slot budget takes. *)
Lemma head_worker_takes cap m workers k job writer sh cancelled a :
  tracks cap (sh_slots sh) (omap waits_slot workers) (omap holds_slot workers) →
  lg_leases (sh_slots sh) = [] → head (line_of (sh_slots sh)) = Some (Mine k, a) →
  WaitSlot k job ∈ workers → unblocked (mk_Stream m workers writer sh cancelled).
Proof.
  intros Ht Hnil Hhead Hin. pose proof Hin as Hin'.
  apply list_elem_of_split in Hin' as (before & after & Hws).
  assert (Ht' : tracks cap (sh_slots sh) ((k, 1) :: omap waits_slot (before ++ after)) (omap holds_slot workers)).
  { rewrite Hws, omap_middle in Ht. cbn in Ht. rewrite <- Hws in Ht. exact Ht. }
  pose proof (tracks_poll _ _ _ _ k 1 (sh_halt sh) Ht') as Hpoll.
  destruct (ledger_poll (Mine k) 1 (sh_halt sh) (sh_slots sh)) as [[] ledger'] eqn:Hp.
  - eapply (worker_moves_on (inr [])); [exact Hin|]. cbn. by rewrite Hp.
  - eapply (worker_moves_on (inr [])); [exact Hin|]. cbn. by rewrite Hp.
  - exfalso. destruct Hpoll as [_ [?|(t & b & Hh & Hne)]]; [done|]. rewrite Hhead in Hh. by simplify_eq.
Qed.

Lemma slots_unblocked process slots m workers k job writer sh cancelled :
  shares_inv config process slots (mk_Stream m workers writer sh cancelled) →
  WaitSlot k job ∈ workers → unblocked (mk_Stream m workers writer sh cancelled).
Proof.
  intros [_ _ Hsl _ _] Hin. cbn in Hsl.
  destruct (decide (lg_leases (sh_slots sh) = [])) as [Hnil|Hne].
  - destruct (line_of (sh_slots sh)) as [|[[k'|j] a] line] eqn:E.
    + exfalso. assert (Hk : (k, 1) ∈ omap waits_slot workers) by (apply list_elem_of_omap; by eexists).
      assert (Hk' : (Mine k, clamp_to slots 1) ∈ mine (line_of (sh_slots sh)))
        by (rewrite (tr_line _ _ _ _ Hsl), elem_of_entries; by eexists).
      rewrite E in Hk'. by apply elem_of_nil in Hk'.
    + destruct (head_waits _ _ _ _ k' a Hsl) as (n & Hn); [by rewrite E|].
      apply list_elem_of_omap in Hn as (w & Hw & Hn). destruct w; try done. simplify_eq/=.
      eapply head_worker_takes; [exact Hsl|done|by rewrite E|done].
    + destruct (other_takes (sh_slots sh) j a (tr_inv _ _ _ _ Hsl) Hnil) as [ledger' Hstep];
        [by rewrite E|].
      eexists _, _. split_and!; [eapply step_others_slots; [|exact Hstep]; done|done..].
  - destruct (lease_holder _ _ _ _ Hsl Hne) as [(j & ledger' & Hstep)|(k' & n & Hh)].
    + eexists _, _. split_and!; [eapply step_others_slots; [|exact Hstep]; done|done..].
    + apply list_elem_of_omap in Hh as (w & Hw & Hh).
      eapply busy_moves; [exact Hw|by destruct w|by destruct w].
Qed.

(** Any worker that is not done, once there is work for it or none to come. *)
Lemma worker_unblocked process slots m workers worker writer sh cancelled :
  shares_inv config process slots (mk_Stream m workers writer sh cancelled) →
  worker ∈ workers → busy sh worker → unblocked (mk_Stream m workers writer sh cancelled).
Proof.
  intros Hsh Hin Hbusy. destruct worker; try (by eapply busy_moves).
  by eapply slots_unblocked.
Qed.

(** The pages the reader does not hold itself are with a worker, or one is free
    to take them. *)
Lemma holder_unblocked process slots m workers writer sh cancelled k n :
  shares_inv config process slots (mk_Stream m workers writer sh cancelled) →
  workers ≠ [] → (Exited ∈ workers → ch_queue (sh_jobs sh) = []) →
  (k, n) ∈ queued_shares sh ++ omap holds_stream workers →
  unblocked (mk_Stream m workers writer sh cancelled).
Proof.
  intros Hsh Hne Hex Hin. apply elem_of_app in Hin as [Hq|Hw].
  - assert (Hqueue : ch_queue (sh_jobs sh) ≠ []).
    { intros E. unfold queued_shares in Hq. rewrite E in Hq. by apply elem_of_nil in Hq. }
    destruct workers as [|w workers]; [done|].
    eapply (worker_unblocked _ _ _ _ w); [exact Hsh|left|].
    destruct w; try done; [by left|]. apply Hqueue, Hex. left.
  - apply list_elem_of_omap in Hw as (w & Hw & Hh).
    eapply worker_unblocked; [exact Hsh|exact Hw|]. by destruct w.
Qed.

(** The writer has something to write, or nothing to come. *)
Lemma writer_moves m workers writer sh cancelled :
  writer ≠ WriterExited → ch_closed (sh_events sh) = true →
  unblocked (mk_Stream m workers writer sh cancelled).
Proof.
  intros Hne Hcl. destruct (writer_step has_probe false true cancelled writer sh) as [[writer' sh']|] eqn:E.
  { exists WriterStep. eexists. split_and!; [by eapply step_writer|done|].
    unfold spared. by open_writer E. }
  exfalso. revert E. destruct writer; cbn; try done. unfold pop.
  destruct (ch_queue (sh_events sh)); [|done]. by rewrite Hcl.
Qed.
Lemma all_exited workers :
  forallb (λ w, match w with Exited => true | _ => false end) workers = false →
  ∃ w, w ∈ workers ∧ w ≠ Exited.
Proof.
  induction workers as [|w workers IH]; [done|]. cbn. destruct w; try (intros _; eexists; split; [left|done]).
  intros (w & Hw & Hne)%IH. exists w. split; [by right|done].
Qed.

(** The reader waits on the stream's own budget: no other stream is in it, so a
    page of ours is on its way. *)
Lemma stream_bytes_unblocked process slots m workers writer sh cancelled k image ledger :
  shares_inv config process slots (mk_Stream m workers writer sh cancelled) → mn_phase m = WaitStream k image →
  workers ≠ [] → (Exited ∈ workers → ch_queue (sh_jobs sh) = []) →
  ledger_poll (Mine k) (image_size image) (sh_halt sh) (sh_stream_bytes sh) = (Waits, ledger) →
  unblocked (mk_Stream m workers writer sh cancelled).
Proof.
  intros Hsh Hphase Hne Hex Hpoll.
  pose proof (sr_stream _ _ _ _ Hsh) as Ht. cbn in Ht. rewrite Hphase in Ht. cbn in Ht.
  pose proof (tracks_poll _ _ _ _ k (image_size image) (sh_halt sh) Ht) as Hw. rewrite Hpoll in Hw.
  pose proof (sr_own _ _ _ _ Hsh) as Hown. cbn in Hown. unfold own in Hown. apply Forall_app in Hown as [Hl Hs].
  assert (Hleases : lg_leases (sh_stream_bytes sh) ≠ []).
  { destruct Hw as [_ [?|(t & a & Hhead & Hk)]]; [done|]. exfalso. destruct t as [k'|j].
    - destruct (head_waits _ _ _ _ k' a Ht Hhead) as (n & Hin).
      apply list_elem_of_singleton in Hin. by simplify_eq.
    - apply head_Some_elem_of in Hhead. rewrite Forall_forall in Hl. by apply Hl in Hhead. }
  destruct (lease_holder _ _ _ _ Ht Hleases) as [(j & ledger' & Hstep)|(k' & n & Hin)].
  - exfalso. inversion Hstep as [| | |? ? a Hin]; subst. rewrite Forall_forall in Hs. by apply Hs in Hin.
  - unfold admitted_shares in Hin. cbn in Hin. rewrite Hphase in Hin. cbn in Hin. by eapply holder_unblocked.
Qed.

(** The reader waits on the process's budget: another stream takes or gives back,
    or a page of ours is on its way. *)
Lemma process_bytes_unblocked process slots m workers writer sh cancelled k image ledger :
  shares_inv config process slots (mk_Stream m workers writer sh cancelled) → mn_phase m = WaitProcess k image →
  workers ≠ [] → (Exited ∈ workers → ch_queue (sh_jobs sh) = []) →
  ledger_poll (Mine k) (image_size image) (sh_halt sh) (sh_process_bytes sh) = (Waits, ledger) →
  unblocked (mk_Stream m workers writer sh cancelled).
Proof.
  intros Hsh Hphase Hne Hex Hpoll.
  pose proof (sr_process _ _ _ _ Hsh) as Ht. cbn in Ht. rewrite Hphase in Ht. cbn in Ht.
  pose proof (tracks_poll _ _ _ _ k (image_size image) (sh_halt sh) Ht) as Hw. rewrite Hpoll in Hw.
  assert (Hothers : ∀ actor j ledger', actor = Granted (Other j) ∨ actor = Released (Other j) →
    budget_step (sh_process_bytes sh) actor ledger' → unblocked (mk_Stream m workers writer sh cancelled)).
  { intros actor j ledger' Hactor Hstep.
    eexists _, _. split_and!; [eapply step_others_bytes; [|exact Hstep]| |done]; by destruct Hactor as [-> | ->]. }
  destruct (decide (lg_leases (sh_process_bytes sh) = [])) as [Hnil|Hleases].
  - destruct Hw as [_ [?|(t & a & Hhead & Hk)]]; [done|]. destruct t as [k'|j].
    + exfalso. destruct (head_waits _ _ _ _ k' a Ht Hhead) as (n & Hin).
      apply list_elem_of_singleton in Hin. by simplify_eq.
    + destruct (other_takes _ j a (tr_inv _ _ _ _ Ht) Hnil Hhead) as [ledger' Hstep].
      eapply Hothers; [by left|exact Hstep].
  - destruct (lease_holder _ _ _ _ Ht Hleases) as [(j & ledger' & Hstep)|(k' & n & Hin)].
    + eapply Hothers; [by right|exact Hstep].
    + unfold process_shares in Hin. cbn in Hin. rewrite Hphase in Hin. cbn in Hin.
      eapply (holder_unblocked _ _ _ _ _ _ _ k' n); [exact Hsh|done|done|].
      apply elem_of_app in Hin as [Hin|Hin]; [by apply elem_of_app; left|]. apply elem_of_app. right.
      apply list_elem_of_omap in Hin as (w & Hw' & Hin). apply list_elem_of_omap. exists w.
      split; [done|by apply holds_process_stream].
Qed.

Lemma stream_unblocked messages process slots s :
  stream_inv messages s → shares_inv config process slots s →
  (∀ status, mn_phase (st_main s) ≠ Finished status) → unblocked s.
Proof.
  intros [Hflags _ Hne _] Hsh Hnot. destruct s as [m workers writer sh cancelled]. cbn in *.
  pose proof (fg_jobs _ _ Hflags) as Hjobs. pose proof (fg_events _ _ Hflags) as Hevents.
  pose proof (fg_exited _ _ Hflags) as Hexited. cbn in *.
  assert (Hex : Exited ∈ workers → ch_queue (sh_jobs sh) = []) by (intros ?; by apply Hexited).
  destruct (main_step config session has_probe true cancelled workers writer m sh) as [next|] eqn:E.
  { by eapply main_moves. }
  revert E. unfold main_step. destruct (mn_phase m) eqn:Hphase; try done.
  - by destruct (mn_input m).
  - destruct (ledger_poll _ _ _ _) as [[] ?] eqn:Hpoll; try done. intros _. by eapply stream_bytes_unblocked.
  - destruct (ledger_poll _ _ _ _) as [[] ?] eqn:Hpoll; try done. intros _. by eapply process_bytes_unblocked.
  - destruct (forallb _ workers) eqn:Hall; [done|]. intros _.
    destruct (all_exited _ Hall) as (w & Hw & Hwne).
    eapply worker_unblocked; [exact Hsh|exact Hw|].
    destruct w; try done. by right.
  - destruct writer; [| |done]; intros _; apply writer_moves; done.
  - by destruct (Hnot result).
Qed.
#[local] Arguments others_work : simpl never.
Ltac others_polled :=
  try match goal with Hp : ledger_poll (Mine ?k) ?n ?h ?l = _ |- _ =>
    pose proof (others_poll k n h l) as Hothers; rewrite Hp in Hothers; cbn in Hothers end.

(** Own steps leave the others' part alone. *)
Lemma others_same s actor s' :
  stream_step s actor s' → own_step actor = true →
  (others_work (sh_process_bytes (st_shared s')) + others_work (sh_slots (st_shared s')))%nat =
  (others_work (sh_process_bytes (st_shared s)) + others_work (sh_slots (st_shared s)))%nat.
Proof.
  intros Hstep Hown. destruct Hstep as [transport m workers writer sh cancelled m' sh' Hs|
    answer m before worker after writer sh cancelled worker' sh' Hs|
    asks transport m workers writer sh cancelled writer' sh' Hs| | |]; try done; cbn.
  - open_main Hs; others_polled; rewrite ?others_enter; lia.
  - open_worker Hs; others_polled; rewrite ?others_enter, ?others_release; lia.
  - open_writer Hs; lia.
Qed.

Lemma all_work_step process slots s actor s' :
  stream_step s actor s' → prompted actor = true → shares_inv config process slots s →
  (all_work s' < all_work s)%nat.
Proof.
  intros Hstep Hprompted Hsh. pose proof (work_step _ _ _ Hstep) as Hwork. unfold all_work.
  destruct (own_step actor) eqn:Hown.
  { pose proof (others_same _ _ _ Hstep Hown). lia. }
  destruct Hstep as [| | |event ledger m workers writer sh cancelled Ho Hb|
                     event ledger m workers writer sh cancelled Ho Hb|]; try done; cbn in *.
  - pose proof (others_step _ _ _ Ho Hprompted (tr_inv _ _ _ _ (sr_process _ _ _ _ Hsh)) Hb).
    cbn in *. lia.
  - pose proof (others_step _ _ _ Ho Hprompted (tr_inv _ _ _ _ (sr_slots _ _ _ _ Hsh)) Hb).
    cbn in *. lia.
Qed.

Lemma cancelled_kept s actor s' :
  stream_step s actor s' → prompted actor = true → st_cancelled s' = st_cancelled s.
Proof. by destruct 1. Qed.

(** To the end of the run without anybody leaving or giving up. *)
Lemma finishes process slots messages s :
  stream_inv messages s → shares_inv config process slots s →
  ∃ actors s' status, stream_run s actors s' ∧ mn_phase (st_main s') = Finished status ∧
    Forall (λ actor, prompted actor = true) actors ∧
    (spared s → spared s') ∧ st_cancelled s' = st_cancelled s.
Proof.
  remember (all_work s) as n eqn:Hn. revert s Hn.
  induction (lt_wf n) as [n _ IH]. intros s -> Hinv Hsh.
  assert (Hfin : (∃ status, mn_phase (st_main s) = Finished status) ∨
    ∀ status, mn_phase (st_main s) ≠ Finished status)
    by (destruct (mn_phase (st_main s)); by (right + (left; eexists))).
  destruct Hfin as [[status Hfin]|Hnot].
  { exists [], s, status. split_and!; [constructor|done|constructor|done|done]. }
  destruct (stream_unblocked _ _ _ s Hinv Hsh Hnot) as (actor & s1 & Hstep & Hprompted & Hkept).
  destruct (IH (all_work s1) ltac:(by eapply all_work_step) s1 eq_refl)
    as (actors' & s' & status & Hrun & Hfin & Hall & Hkept' & Hcan).
  - by eapply stream_inv_step.
  - by eapply shares_step.
  - exists (actor :: actors'), s', status.
    split_and!; [by eapply stream_run_cons|done|by constructor|by auto|].
    rewrite Hcan. by eapply cancelled_kept.
Qed.

(** A finished stream nothing halted is OK, unless its client sent it nothing to
    do or was refused. *)
Lemma spared_ok messages s status :
  stream_inv messages s → (status = Status_OK ∨ cause session has_probe s) →
  mn_phase (st_main s) = Finished status → spared s → told_cancelled has_probe s = false →
  co_abort_on_error (se_options session) = false →
  status_ok (mn_status (st_main s)) = false ∨ omap image_page messages = [] ∨
  status = Status_OK ∧ complete session messages s.
Proof.
  intros Hinv Hwhy Hfin Hsp Hcan Habort.
  destruct (status_ok (mn_status (st_main s))) eqn:Hs; [right|by left].
  assert (Hh : sh_halt (st_shared s) = false) by (destruct Hsp as [?|[?|?]]; congruence).
  destruct Hwhy as [->|Hwhy]; [right; split; [done|by eapply si_complete]|left].
  destruct (pg_left _ _ _ _ (si_pages _ _ _ _ Hinv)) as [Hread Hsaw]; [rewrite Hfin; cbn; lia|done|done|].
  destruct Hwhy as [Hw|[Hw|[Hw|[Hw|[Hw _]]]]]; try congruence.
  - destruct (fg_gone _ _ (si_flags _ _ _ _ Hinv) Hw). congruence.
  - unfold told_cancelled in Hcan. destruct Hread as [?|Hread]; [congruence|]. rewrite Hread.
    destruct (starts (emitted s)); [done|]. rewrite Hw in Hsaw. discriminate (proj2 Hsaw ltac:(done)).
Qed.

(** C2: No deadlock, and no page has to be given up for it.  From every state a
    stream can reach, with every interleaving of its threads and of the other
    streams behind it, it can still end: the steps left to its own threads, and
    to the streams that already stand in the process's budgets taking their turn
    and giving back what they hold, are enough; nobody has to leave.  If nothing
    had halted it in that state, its client's cancellation is not to be read and
    abort_on_error is off, that end is OK and complete (every page the client
    sent announced, answered once and delivered), unless one of the client's
    messages is refused on the way or none holds a page. *)
Theorem stream_can_finish process_bytes slots messages actors s :
  1 <= se_concurrency session → cf_max_stream_buffered_bytes config < 2 ^ 63 →
  ledger_inv process_bytes → mine (line_of process_bytes ++ lg_leases process_bytes) = [] →
  ledger_inv slots → mine (line_of slots ++ lg_leases slots) = [] →
  stream_run (Stream_init config session process_bytes slots messages) actors s →
  ∃ actors' s' status, stream_run s actors' s' ∧ mn_phase (st_main s') = Finished status ∧
    Forall (λ actor, prompted actor = true) actors' ∧
    (sh_halt (st_shared s) = false → told_cancelled has_probe s = false →
     co_abort_on_error (se_options session) = false →
     status_ok (mn_status (st_main s')) = false ∨ omap image_page messages = [] ∨
     status = Status_OK ∧ complete session messages s').
Proof.
  intros Hc Hcap Hp Hmp Hs Hms Hrun.
  pose proof (stream_inv_run _ _ _ _ _ _ _ _ _ _ Hc Hrun) as Hinv.
  pose proof (shares_run _ _ _ _ _ _ _ _ _ _ Hcap Hp Hmp Hs Hms Hrun) as Hsh.
  destruct (finishes _ _ _ _ Hinv Hsh) as (actors' & s' & status & Hrun' & Hfin & Hall & Hkept & Hcan).
  exists actors', s', status. split_and!; [done..|]. intros Hh Htold Habort.
  pose proof (stream_run_app _ _ _ _ _ _ _ _ _ _ Hrun Hrun') as Hrun2.
  eapply spared_ok; [by eapply stream_inv_run|by eapply cause_run|done|by apply Hkept; left| |done].
  unfold told_cancelled in *. by rewrite Hcan.
Qed.
End Progress.

(** * Concrete instances *)

Lemma stream_terminates_witness : ∃ actors,
  @stream_run toy_size toy_stb toy_json (lit "1.0") 0 toy_config toy_session true toy_stream
    actors toy_finished ∧ (length (filter own_step actors) ≤ 51)%nat.
Proof.
  destruct toy_stream_run as [actors Hrun]. exists actors. split; [exact Hrun|].
  pose proof (@stream_terminates toy_size toy_stb toy_json (lit "1.0") 0 toy_config toy_session
    true (Ledger_new (512 * 1024 * 1024)) (Ledger_new 8) [None; Some (kPageImage toy_image)] actors
    toy_finished ltac:(by compute) Hrun) as Hbound.
  assert (Hc : se_concurrency toy_session = 4) by (vm_compute; reflexivity).
  rewrite Hc in Hbound. cbn -[filter] in Hbound. lia.
Defined.

(** A stream that goes on past failed pages, stopped where its page waits for the
    stream's budget: it goes on to a complete end. *)
Definition toy_patient_options : ConvertOptions :=
  mk_ConvertOptions VLM_PRESET_UNSPECIFIED (lit "mine") RESPONSE_FORMAT_MARKDOWN [] [] 4 false 2
    (lit "markdown").
Definition toy_patient_session : Session :=
  match accept_options toy_config (Some (Some (kOptions toy_patient_options))) with
  | inr session => session
  | inl _ => toy_session
  end.
Definition toy_patient : Stream :=
  Stream_init toy_config toy_patient_session (Ledger_new (512 * 1024 * 1024)) (Ledger_new 8)
    [None; Some (kPageImage toy_image)].
Definition toy_patient_waiting : Stream :=
  default toy_patient
    (@fires toy_size toy_stb toy_json (lit "1.0") 0 toy_config toy_patient_session true toy_patient
       (replicate 4 (ChooseMain true))).

Lemma stream_can_finish_witness :
  (∃ image, mn_phase (st_main toy_patient_waiting) = WaitStream 0 image) ∧
  ∃ actors' s' status,
    @stream_run toy_size toy_stb toy_json (lit "1.0") 0 toy_config toy_patient_session true
      toy_patient_waiting actors' s' ∧
    mn_phase (st_main s') = Finished status ∧
    (status_ok (mn_status (st_main s')) = true →
     complete toy_patient_session [None; Some (kPageImage toy_image)] s').
Proof.
  split; [eexists; vm_compute; reflexivity|].
  assert (Hrun : ∃ actors, @stream_run toy_size toy_stb toy_json (lit "1.0") 0 toy_config
    toy_patient_session true toy_patient actors toy_patient_waiting)
    by (apply (fires_run _ _ _ _ _ _ (replicate 4 (ChooseMain true))); vm_compute; reflexivity).
  destruct Hrun as [actors Hrun].
  destruct (@stream_can_finish toy_size toy_stb toy_json (lit "1.0") 0 toy_config toy_patient_session
    true (Ledger_new (512 * 1024 * 1024)) (Ledger_new 8) [None; Some (kPageImage toy_image)] actors _
    ltac:(by compute) ltac:(by compute) (ledger_new_inv (512 * 1024 * 1024) ltac:(lia)) eq_refl
    (ledger_new_inv 8 ltac:(lia))
    eq_refl Hrun) as (actors' & s' & status & Hrun' & Hfin & _ & Hend).
  exists actors', s', status. split_and!; [exact Hrun'|exact Hfin|]. intros Hok.
  destruct (Hend ltac:(by vm_compute) ltac:(by vm_compute) ltac:(by vm_compute)) as [Hr|[Hm|[_ Hcomplete]]];
    [by rewrite Hok in Hr|vm_compute in Hm; discriminate Hm|exact Hcomplete].
Defined.
