(* ===== verification/HttpGateway.v ===== *)
(** The HTTP front end (src/http_gateway.h, src/http_gateway.cpp): who gets in,
    what a request body becomes, and what the answer holds.  The HTTP library
    (its listener, body cap and chunking) is a parameter: a request is what it
    hands to a handler. *)
From S2P Require Import Prelude Numbers Double Json Proto ImageCrop Builder OtslGrid VlmProto Secret Presets.
From S2P Require Import Mapper Endpoint Completion VlmClient Config Budget Service Stream.

(** protobuf's canonical JSON: [JsonStringToMessage] for the two messages a body
    holds (the left is the status's message) and [MessageToJsonString] for the
    one it answers with ([None] when it fails). *)
Class ProtoJson := {
  options_of_json : bytes → bytes + ConvertOptions;
  image_of_json : bytes → bytes + PageImage;
  json_of_event : ConvertPagesResponse → option bytes }.

(** [httplib::Request], as far as the handlers read it. *)
Record HttpCall := mk_HttpCall {
  hc_method : bytes;
  hc_path : bytes;
  hc_authorization : bytes;   (* get_header_value: empty when absent *)
  hc_body : bytes }.
(** [httplib::Response]; a chunked answer is the list of its lines. *)
Record HttpAnswer := mk_HttpAnswer {
  ha_status : Z;
  ha_headers : list (bytes * bytes);
  ha_content_type : bytes;
  ha_body : bytes }.

Definition status_code_name (code : StatusCode) : bytes :=
  match code with
  | INVALID_ARGUMENT => lit "INVALID_ARGUMENT"
  | FAILED_PRECONDITION => lit "FAILED_PRECONDITION"
  | PERMISSION_DENIED => lit "PERMISSION_DENIED"
  | UNAUTHENTICATED => lit "UNAUTHENTICATED"
  | RESOURCE_EXHAUSTED => lit "RESOURCE_EXHAUSTED"
  | UNIMPLEMENTED => lit "UNIMPLEMENTED"
  | ABORTED => lit "ABORTED"
  | CANCELLED => lit "CANCELLED"
  | _ => lit "INTERNAL"
  end.
Definition http_status_for (code : StatusCode) : Z :=
  match code with
  | INVALID_ARGUMENT => 400
  | UNAUTHENTICATED => 401
  | PERMISSION_DENIED => 403
  | RESOURCE_EXHAUSTED => 413
  | UNIMPLEMENTED => 501
  | _ => 500
  end.

Definition kBearer : bytes := lit "Bearer ".
Definition bearer_matches (request : HttpCall) (token : Secret) : bool :=
  starts_with kBearer (hc_authorization request) &&
  secret_matches (substr_from (hc_authorization request) (length kBearer)) token.

(** The fixed pieces of the answers. *)
Definition quoted (s : bytes) : bytes := [c_quote] ++ s ++ [c_quote].
Definition open_events : bytes := lit "{" ++ quoted (lit "events") ++ lit ":[".
Definition and_error : bytes := lit "," ++ quoted (lit "error") ++ lit ":".
Definition no_events : bytes := open_events ++ lit "]" ++ and_error.
Definition only_error : bytes := lit "{" ++ quoted (lit "error") ++ lit ":".

Section Gateway.
Context `{Json} `{ProtoJson}.

Definition error_json (code : StatusCode) (message : bytes) : bytes :=
  json_dump (JObject [(lit "code", JString (status_code_name code)); (lit "message", JString message)]).

(** * The request body *)

(** The pages, one message each; the left is the first failure. *)
Fixpoint parse_pages (index : Z) (pages : list json) : bytes + list ConvertPagesRequest :=
  match pages with
  | [] => inr []
  | element :: pages =>
      match image_of_json (json_dump element) with
      | inl message => inl (lit "pages[" ++ to_string index ++ lit "]: " ++ message)
      | inr image =>
          match parse_pages (index + 1) pages with
          | inl error => inl error
          | inr requests => inr (Some (kPageImage image) :: requests)
          end
      end
  end.
(** The options message; one without payload when the envelope has none. *)
Definition parse_options (envelope : list (bytes * json)) : bytes + ConvertPagesRequest :=
  match member (lit "options") envelope with
  | None => inr None
  | Some options =>
      match options_of_json (json_dump options) with
      | inl message => inl (lit "options: " ++ message)
      | inr options => inr (Some (kOptions options))
      end
  end.
Definition parse_convert_body (body : bytes) : bytes + list ConvertPagesRequest :=
  match json_parse body with
  | Some (JObject envelope) =>
      match parse_options envelope with
      | inl error => inl error
      | inr first =>
          match member (lit "pages") envelope with
          | None => inr [first]
          | Some (JArray pages) =>
              match parse_pages 0 pages with
              | inl error => inl error
              | inr requests => inr (first :: requests)
              end
          | Some _ => inl (lit "pages must be an array")
          end
      end
  | _ => inl (lit "request body must be a JSON object")
  end.

(** * Routing *)

Definition kUnauthenticated : bytes :=
  lit "missing or wrong bearer token (Authorization: Bearer <token>)".
(** The pre-routing handler; [None] is Unhandled (and no token, no handler). *)
Definition pre_routing (config : Config) (request : HttpCall) : option HttpAnswer :=
  if secret_is_empty (cf_http_token config) then None
  else if (hc_path request =b lit "/healthz") || bearer_matches request (cf_http_token config) then None
  else
    let error := error_json UNAUTHENTICATED kUnauthenticated in
    Some (mk_HttpAnswer 401 [(lit "WWW-Authenticate", lit "Bearer"); (lit "Connection", lit "close")]
            (lit "application/json")
            (if hc_path request =b lit "/v1/convert"
             then no_events ++ error ++ lit "}"
             else only_error ++ error ++ lit "}")).

(** * The two convert handlers *)

(** The answer to a body that does not parse. *)
Definition bad_body (before error : bytes) : HttpAnswer :=
  mk_HttpAnswer 400 [] (lit "application/json")
    (before ++ error_json INVALID_ARGUMENT error ++ lit "}").

(** The events a pipeline wrote that made it into JSON; the writer of both
    handlers takes an event exactly when it serializes (and, streaming, when the
    connection takes the line). *)
Definition written (writes : list (ConvertPagesResponse * bool)) : list bytes :=
  omap (λ w : ConvertPagesResponse * bool, if w.2 then json_of_event w.1 else None) writes.
Definition serialize_failed (writes : list (ConvertPagesResponse * bool)) : bool :=
  existsb (λ w : ConvertPagesResponse * bool, bool_decide (json_of_event w.1 = None)) writes.
(** The loop over the events, a comma before each but the first. *)
Fixpoint join_events (events : list bytes) (first : bool) : bytes :=
  match events with
  | [] => []
  | event :: events => (if first then [] else lit ",") ++ event ++ join_events events false
  end.

(** [handle_convert] once the pipeline has run: what it wrote, and its status. *)
Definition convert_status (writes : list (ConvertPagesResponse * bool)) (status : Status) : Status :=
  if serialize_failed writes && status_ok status
  then mk_Status INTERNAL (lit "event JSON serialization failed") else status.
Definition convert_answer (writes : list (ConvertPagesResponse * bool)) (status : Status) : HttpAnswer :=
  let status := convert_status writes status in
  mk_HttpAnswer (if status_ok status then 200 else http_status_for (status_code status)) []
    (lit "application/json")
    (open_events ++ join_events (written writes) true ++ lit "]" ++
     (if status_ok status then [] else and_error ++ error_json (status_code status) (status_message status)) ++
     lit "}").

(** [handle_convert_stream]: the lines of the chunked body. *)
Definition stream_lines (writes : list (ConvertPagesResponse * bool)) (status : Status) : list bytes :=
  written writes ++
  (if status_ok status then []
   else [only_error ++ error_json (status_code status) (status_message status) ++ lit "}"]).
End Gateway.

(** * The pipeline under a handler *)

Section Handlers.
Context `{ProtobufSize} `{Stb} `{Json} `{ProtoJson}.
Variables (version : bytes) (backoff_base_ms : Z).
Variable config : Config.

(** [ConvertPagesCore] over a request sequence: the pipeline it ran, as it ended,
    if the options let it run one; what it handed to [write], with what [write]
    said; and the status it returned. *)
Inductive ConvertPagesCore (has_probe : bool) (process_bytes slots : Ledger Ticket)
    : list ConvertPagesRequest → option Stream → list (ConvertPagesResponse * bool) → Status → Prop :=
  | core_rejects requests status :
      accept_options config (head requests) = inl status →
      ConvertPagesCore has_probe process_bytes slots requests None [] status
  | core_streams requests session actors s status :
      accept_options config (head requests) = inr session →
      stream_run version backoff_base_ms config session has_probe
        (Stream_init config session process_bytes slots (tail requests)) actors s →
      mn_phase (st_main s) = Finished status →
      ConvertPagesCore has_probe process_bytes slots requests (Some s) (sh_writes (st_shared s)) status.

(** [handle_convert], with the pipeline it ran: every write says whether its
    event serialized. *)
Inductive handle_convert (process_bytes slots : Ledger Ticket) (request : HttpCall)
    : option Stream → HttpAnswer → Prop :=
  | convert_refuses error :
      parse_convert_body (hc_body request) = inl error →
      handle_convert process_bytes slots request None (bad_body no_events error)
  | convert_runs requests ran writes status :
      parse_convert_body (hc_body request) = inr requests →
      ConvertPagesCore true process_bytes slots requests ran writes status →
      Forall (λ w, w.2 = bool_decide (is_Some (json_of_event w.1))) writes →
      handle_convert process_bytes slots request ran (convert_answer writes status).

(** [handle_convert_stream]: a write also fails when the connection does. *)
Inductive handle_convert_stream (process_bytes slots : Ledger Ticket) (request : HttpCall)
    : HttpAnswer + list bytes → Prop :=
  | stream_refuses error :
      parse_convert_body (hc_body request) = inl error →
      handle_convert_stream process_bytes slots request (inl (bad_body only_error error))
  | stream_runs requests ran writes status :
      parse_convert_body (hc_body request) = inr requests →
      ConvertPagesCore true process_bytes slots requests ran writes status →
      Forall (λ w, w.2 = true → is_Some (json_of_event w.1)) writes →
      handle_convert_stream process_bytes slots request (inr (stream_lines writes status)).

(** What the server does with a request: the routes of the constructor behind
    the pre-routing handler. *)
Inductive served (process_bytes slots : Ledger Ticket) (request : HttpCall) : HttpAnswer + list bytes → Prop :=
  | served_early answer :
      pre_routing config request = Some answer → served process_bytes slots request (inl answer)
  | served_health :
      pre_routing config request = None →
      hc_method request = lit "GET" → hc_path request = lit "/healthz" →
      served process_bytes slots request (inl (mk_HttpAnswer 200 [] (lit "text/plain") (lit "ok")))
  | served_convert ran answer :
      pre_routing config request = None →
      hc_method request = lit "POST" → hc_path request = lit "/v1/convert" →
      handle_convert process_bytes slots request ran answer → served process_bytes slots request (inl answer)
  | served_stream answer :
      pre_routing config request = None →
      hc_method request = lit "POST" → hc_path request = lit "/v1/convert/stream" →
      handle_convert_stream process_bytes slots request answer → served process_bytes slots request answer.
End Handlers.

(** * What a body is read as *)

Section BodyFacts.
Context `{Json} `{ProtoJson}.

Lemma parse_pages_iff index elements requests :
  parse_pages index elements = inr requests ↔
  ∃ images, requests = (Some ∘ kPageImage <$> images) ∧
    Forall2 (λ element image, image_of_json (json_dump element) = inr image) elements images.
Proof.
  revert index requests. induction elements as [|element elements IH]; intros index requests; cbn.
  - split; [intros [= <-]; by exists []|]. intros (images & -> & Hi). by apply Forall2_nil_inv_l in Hi as ->.
  - split.
    + destruct (image_of_json _) as [|image] eqn:E; [done|].
      destruct (parse_pages _ _) as [|rest] eqn:Er; [done|]. intros [= <-].
      apply IH in Er as (images & -> & Hi). exists (image :: images). split; [done|by constructor].
    + intros (images & -> & Hi). apply Forall2_cons_inv_l in Hi as (image & images' & Ei & Hi & ->).
      rewrite Ei. by rewrite (proj2 (IH (index + 1) (Some ∘ kPageImage <$> images'))) by eauto.
Qed.

Lemma parse_options_iff members first :
  parse_options members = inr first ↔
  match member (lit "options") members with
  | None => first = None
  | Some element => ∃ options, options_of_json (json_dump element) = inr options ∧ first = Some (kOptions options)
  end.
Proof.
  unfold parse_options. destruct (member _ _) as [element|]; [|split; [by intros [= <-]|by intros ->]].
  destruct (options_of_json _) as [|options]; [split; [done|by intros (? & ? & _)]|].
  split; [intros [= <-]; by exists options|]. intros (options' & [= ->] & ->). done.
Qed.

(** C13: A convert request becomes the message sequence a gRPC client would have
    streamed, and only a well-formed one does: a JSON object whose options, if
    any, are the first message (one without payload otherwise), then one message
    per element of its pages array, in order, every one of them readable. *)
Theorem parse_convert_body_iff body requests :
  parse_convert_body body = inr requests ↔
  ∃ members first images,
    json_parse body = Some (JObject members) ∧
    requests = first :: (Some ∘ kPageImage <$> images) ∧
    match member (lit "options") members with
    | None => first = None
    | Some element =>
        ∃ options, options_of_json (json_dump element) = inr options ∧ first = Some (kOptions options)
    end ∧
    match member (lit "pages") members with
    | None => images = []
    | Some (JArray elements) =>
        Forall2 (λ element image, image_of_json (json_dump element) = inr image) elements images
    | Some _ => False
    end.
Proof.
  unfold parse_convert_body. split.
  - destruct (json_parse body) as [[]|]; try done.
    destruct (parse_options _) as [|first] eqn:Ho; [done|]. apply parse_options_iff in Ho.
    destruct (member (lit "pages") _) as [[]|] eqn:Hm; try done.
    + destruct (parse_pages _ _) as [|rest] eqn:Hp; [done|]. intros [= <-].
      apply parse_pages_iff in Hp as (images & -> & Hi). eexists _, first, images. by rewrite Hm.
    + intros [= <-]. eexists _, first, []. by rewrite Hm.
  - intros (members & first & images & -> & -> & Ho%parse_options_iff & Hp). rewrite Ho.
    destruct (member _ _) as [[]|]; try done; [|by subst images].
    by rewrite (proj2 (parse_pages_iff 0 _ (Some ∘ kPageImage <$> images))) by eauto.
Qed.
End BodyFacts.

(** * Who gets in *)

Section ServerFacts.
Context `{ProtobufSize} `{Stb} `{Json} `{ProtoJson}.
Variables (version : bytes) (backoff_base_ms : Z).
Variable config : Config.

Lemma bearer_matches_iff request token :
  bearer_matches request token = true ↔
  secret_value token ≠ [] ∧ hc_authorization request = kBearer ++ secret_value token.
Proof.
  unfold bearer_matches. rewrite andb_true_iff, starts_with_app, secret_matches_value. split.
  - intros [[rest Hr] [Hne Hv]]. split; [done|]. rewrite Hr in Hv |- *. f_equal.
    rewrite <- Hv. unfold substr_from. by rewrite drop_app_length.
  - intros [Hne ->]. split; [by eexists|]. split; [done|]. unfold substr_from. by rewrite drop_app_length.
Qed.

(** C12: With a token configured nothing but the health check is served without
    it: whatever the server answers on any other path, either the request
    carried exactly "Bearer " and the token, or the answer is the 401 that
    closes the connection, whose body does not depend on the token. *)
Theorem token_required process_bytes slots request answer :
  secret_value (cf_http_token config) ≠ [] → hc_path request ≠ lit "/healthz" →
  served version backoff_base_ms config process_bytes slots request answer →
  hc_authorization request = kBearer ++ secret_value (cf_http_token config) ∨
  ∃ body, answer = inl (mk_HttpAnswer 401
    [(lit "WWW-Authenticate", lit "Bearer"); (lit "Connection", lit "close")] (lit "application/json") body) ∧
    (body = no_events ++ error_json UNAUTHENTICATED kUnauthenticated ++ lit "}" ∨
     body = only_error ++ error_json UNAUTHENTICATED kUnauthenticated ++ lit "}").
Proof.
  intros Htoken Hpath Hserved.
  assert (Hpre : hc_authorization request = kBearer ++ secret_value (cf_http_token config) ∨
    pre_routing config request ≠ None).
  { destruct (bearer_matches request (cf_http_token config)) eqn:Hb.
    - left. by apply bearer_matches_iff in Hb as [_ ?].
    - right. unfold pre_routing, secret_is_empty. rewrite bool_decide_false by done.
      rewrite (bool_decide_false (hc_path request = _)) by done. by rewrite Hb. }
  destruct Hpre as [?|Hpre]; [by left|right]. destruct Hserved as [answer Ha| | |]; [|done..].
  revert Ha. unfold pre_routing. destruct (secret_is_empty _); [done|]. destruct (_ || _); [done|].
  intros [= <-]. eexists. split; [done|]. case_bool_decide; auto.
Qed.

(** * What a 200 means *)

Lemma http_status_not_200 code : http_status_for code ≠ 200.
Proof. by destruct code. Qed.

Lemma written_all writes :
  Forall (λ w, w.2 = bool_decide (is_Some (json_of_event w.1))) writes → serialize_failed writes = false →
  Forall2 (λ w event, json_of_event w.1 = Some event) writes (written writes).
Proof.
  induction 1 as [|[event taken] writes Hw _ IH]; [constructor|]. cbn in *.
  destruct (json_of_event event) as [json|] eqn:E; cbn; intros Hf.
  - rewrite bool_decide_true in Hw by (by eexists). subst taken. constructor; [done|]. by apply IH.
  - done.
Qed.

Lemma written_taken writes :
  Forall (λ w, w.2 = bool_decide (is_Some (json_of_event w.1))) writes → serialize_failed writes = false →
  Forall (λ w, w.2 = true) writes.
Proof.
  intros Hw Hs. pose proof (written_all _ Hw Hs) as Hall. clear Hs. revert Hw.
  induction Hall as [|w event writes events He _ IH]; [constructor|]. intros [Hw Hws]%Forall_cons.
  constructor; [|by apply IH]. rewrite Hw. apply bool_decide_true. by eexists.
Qed.

Hypothesis concurrency_unsigned : ∀ s options, options_of_json s = inr options → 0 <= co_concurrency options.

(** The pipeline's options, when a body gave them, are unsigned. *)
Lemma parsed_concurrency body requests session :
  sound_config config → parse_convert_body body = inr requests →
  accept_options config (head requests) = inr session → 1 <= se_concurrency session.
Proof using concurrency_unsigned.
  intros Hc Hp (options & Hhead & Ha)%accept_options_accepted.
  pose proof (sc_concurrency _ Hc). rewrite (ac_concurrency _ _ _ Ha).
  assert (Hn : 0 <= co_concurrency options).
  { revert Hp. rewrite parse_convert_body_iff. intros (members & first & images & _ & -> & Ho & _).
    injection Hhead as ->. destruct (member _ _); [|done]. destruct Ho as (options' & Ho & [= <-]).
    by eapply concurrency_unsigned. }
  destruct (Z.eqb_spec (co_concurrency options) 0); lia.
Qed.

(** C11: A 200 from POST /v1/convert carries the whole conversion of its own
    request: the handler ran a pipeline on the messages the body was parsed to,
    under the options it carried; that very pipeline ended OK and complete (every
    page of the body announced and answered once, the trailer last, see
    stream_ok_complete); and the answer's events are the JSON of exactly what that
    pipeline wrote, trailer included, in order, none missing. *)
Theorem convert_200_complete process_bytes slots request ran answer :
  sound_config config →
  handle_convert version backoff_base_ms config process_bytes slots request ran answer →
  ha_status answer = 200 →
  ∃ s requests session actors status events,
    ran = Some s ∧
    parse_convert_body (hc_body request) = inr requests ∧
    accept_options config (head requests) = inr session ∧
    stream_run version backoff_base_ms config session true
      (Stream_init config session process_bytes slots (tail requests)) actors s ∧
    mn_phase (st_main s) = Finished status ∧ status_ok status = true ∧
    complete session (tail requests) s ∧
    Forall (λ w, w.2 = true) (sh_writes (st_shared s)) ∧
    Forall2 (λ w event, json_of_event w.1 = Some event) (sh_writes (st_shared s)) events ∧
    ha_body answer = open_events ++ join_events events true ++ lit "]" ++ lit "}".
Proof using concurrency_unsigned.
  intros Hc [error _|requests ran' writes status Hparse Hcore Hwrites] H200; [done|].
  unfold convert_answer in *. cbn [ha_status ha_body] in *.
  destruct (status_ok (convert_status writes status)) eqn:Hok; [|by destruct (http_status_not_200 _ H200)].
  assert (Hst : serialize_failed writes = false ∧ status_ok status = true).
  { revert Hok. unfold convert_status. destruct (serialize_failed writes), (status_ok status) eqn:E;
      cbn; rewrite ?E; try done. }
  destruct Hst as [Hser Hst].
  destruct Hcore as [requests status Hrej|requests session actors s status Hacc Hrun Hfin].
  { exfalso. revert Hst Hrej. unfold accept_options, endpoint_for, format_for, apply_format_raw,
      check_logprobs, client_error. intros Hst Hrej. repeat case_match; simplify_eq; done. }
  exists s, requests, session, actors, status, (written (sh_writes (st_shared s))).
  pose proof (parsed_concurrency _ _ _ Hc Hparse Hacc) as Hn.
  split_and!; try done; [| |by apply written_all].
  - apply (si_complete _ _ _ _ (stream_inv_run _ _ _ _ _ _ _ _ _ _ Hn Hrun) status Hfin Hst).
  - by apply written_taken.
Qed.

(** An event other than the trailer that does not serialize ends the pipeline as
    if the client had gone: the INTERNAL status written for it is never used. *)
Lemma serialization_failure_misreported process_bytes slots request requests ran writes status event :
  sound_config config → parse_convert_body (hc_body request) = inr requests →
  ConvertPagesCore version backoff_base_ms config true process_bytes slots requests ran writes status →
  (event, false) ∈ writes → (∀ complete, event ≠ kComplete complete) →
  status_ok status = false ∧ convert_status writes status = status.
Proof using concurrency_unsigned.
  intros Hc Hparse Hcore Hin Hev.
  assert (Hbad : status_ok status = false).
  { destruct (status_ok status) eqn:Hst; [exfalso|done].
    destruct Hcore as [requests status Hrej|requests session actors s status Hacc Hrun Hfin];
      [by apply elem_of_nil in Hin|].
    pose proof (parsed_concurrency _ _ _ Hc Hparse Hacc) as Hn.
    destruct (si_complete _ _ _ _ (stream_inv_run _ _ _ _ _ _ _ _ _ _ Hn Hrun) status Hfin Hst)
      as (events & taken & Hw & _).
    rewrite Hw in Hin. apply elem_of_app in Hin as [Hin|Hin].
    - apply list_elem_of_fmap in Hin as (e & [=] & _).
    - apply list_elem_of_singleton in Hin. injection Hin as -> _. by eapply Hev. }
  split; [done|]. unfold convert_status. rewrite Hbad. by rewrite andb_false_r.
Qed.
End ServerFacts.

(** * Concrete instances *)

Definition toy_http_json : Json :=
  Build_Json (λ body, if body =b lit "request" then
                        Some (JObject [(lit "options", JString (lit "o")); (lit "pages", JArray [JString (lit "p")])])
                      else @json_parse toy_json body)
    (λ value, match value with JString s => s | _ => lit "{}" end).
Definition toy_proto_json : ProtoJson :=
  Build_ProtoJson (λ s, if s =b lit "o" then inr toy_options else inl (lit "bad"))
    (λ s, if s =b lit "p" then inr toy_image else inl (lit "bad"))
    (λ event, Some (match event with kComplete _ => lit "done" | _ => lit "event" end)).
Definition toy_call : HttpCall := mk_HttpCall (lit "POST") (lit "/v1/convert") [] (lit "request").

Definition toy_guarded : Config :=
  match load_config_from_env (λ name,
    if name =b lit "GRPC_VLM_HTTP_TOKEN" then Some (lit "s3cret") else toy_environment name) with
  | inr config => config
  | inl _ => toy_config
  end.

(** The caller that never sends the token. *)
Lemma token_required_witness :
  secret_value (cf_http_token toy_guarded) = lit "s3cret" ∧
  ∃ answer,
    @served toy_size toy_stb toy_http_json toy_proto_json (lit "1.0") 0 toy_guarded
      (Ledger_new 100) (Ledger_new 8) toy_call answer ∧
    ∃ body, answer = inl (mk_HttpAnswer 401
      [(lit "WWW-Authenticate", lit "Bearer"); (lit "Connection", lit "close")] (lit "application/json") body).
Proof.
  split; [vm_compute; reflexivity|].
  destruct (@pre_routing toy_http_json toy_guarded toy_call) as [answer|] eqn:E;
    [|vm_compute in E; discriminate E].
  exists (inl answer).
  assert (Hserved : @served toy_size toy_stb toy_http_json toy_proto_json (lit "1.0") 0 toy_guarded
      (Ledger_new 100) (Ledger_new 8) toy_call (inl answer)) by (by apply served_early).
  split; [exact Hserved|].
  destruct (@token_required toy_size toy_stb toy_http_json toy_proto_json (lit "1.0") 0 toy_guarded
    (Ledger_new 100) (Ledger_new 8) toy_call (inl answer)) as [Ha|(body & Hb & _)];
    [vm_compute; discriminate|vm_compute; discriminate|exact Hserved|vm_compute in Ha; discriminate Ha|by exists body].
Defined.

(** One page, from body to answer. *)
Definition toy_http_stream : Stream :=
  Stream_init toy_config toy_session (Ledger_new (512 * 1024 * 1024)) (Ledger_new 8) [Some (kPageImage toy_image)].
Definition toy_http_schedule : list Choice :=
  replicate 9 (ChooseMain true) ++ replicate 7 (ChooseWorker 0 toy_answer) ++
  replicate 3 (ChooseWriter true true) ++ replicate 3 (ChooseWorker 0 toy_answer) ++
  [ChooseMain true] ++ (flip ChooseWorker toy_answer <$> [3; 2; 1; 0]%nat) ++
  [ChooseMain true] ++ replicate 2 (ChooseWriter true true) ++ [ChooseMain true].
Definition toy_http_finished : Stream :=
  default toy_http_stream (@fires toy_size toy_stb toy_http_json (lit "1.0") 0 toy_config toy_session true toy_http_stream
    toy_http_schedule).

Lemma toy_http_core :
  @ConvertPagesCore toy_size toy_stb toy_http_json (lit "1.0") 0 toy_config true
    (Ledger_new (512 * 1024 * 1024)) (Ledger_new 8) [Some (kOptions toy_options); Some (kPageImage toy_image)]
    (Some toy_http_finished) (sh_writes (st_shared toy_http_finished)) Status_OK.
Proof.
  assert (Hrun : ∃ actors, @stream_run toy_size toy_stb toy_http_json (lit "1.0") 0 toy_config
    toy_session true toy_http_stream actors toy_http_finished)
    by (apply (fires_run _ _ _ _ _ _ toy_http_schedule); vm_compute; reflexivity).
  destruct Hrun as [actors Hrun]. apply (core_streams _ _ _ _ _ _ _ toy_session actors);
    [vm_compute; reflexivity|exact Hrun|vm_compute; reflexivity].
Qed.

Lemma convert_200_complete_witness :
  ∃ requests session,
    @parse_convert_body toy_http_json toy_proto_json (lit "request") = inr requests ∧
    complete session (tail requests) toy_http_finished.
Proof.
  set (writes := sh_writes (st_shared toy_http_finished)).
  assert (Hanswer : @handle_convert toy_size toy_stb toy_http_json toy_proto_json (lit "1.0") 0
    toy_config (Ledger_new (512 * 1024 * 1024)) (Ledger_new 8) toy_call (Some toy_http_finished)
    (@convert_answer toy_http_json toy_proto_json writes Status_OK)).
  { eapply convert_runs; [|apply toy_http_core|]; [vm_compute; reflexivity|].
    vm_compute. repeat constructor. }
  destruct (@convert_200_complete toy_size toy_stb toy_http_json toy_proto_json (lit "1.0") 0
    toy_config) with (process_bytes := Ledger_new (T := Ticket) (512 * 1024 * 1024)) (slots := Ledger_new (T := Ticket) 8)
    (request := toy_call) (ran := Some toy_http_finished)
    (answer := @convert_answer toy_http_json toy_proto_json writes Status_OK)
    as (s & requests & session & actors & status & events & Hran & Hp & _ & _ & _ & _ & Hs & _);
    [|apply toy_config_sound|exact Hanswer|vm_compute; reflexivity|].
  { intros text options. cbn. case_bool_decide; [|done]. intros [= <-]. by compute. }
  apply (inj Some) in Hran. subst s. exists requests, session. split; [exact Hp|exact Hs].
Defined.
