(* ===== verification/Main.v ===== *)
(** The process (src/main.cpp): what it does with its configuration before it
    serves, and how its threads bring it down.  The signal handler writes a byte
    to a pipe that holds so many, a thread that reads one shuts the gRPC server
    down with a deadline, the metrics thread sleeps on a condition variable, and
    [main] waits for the server, stops the gateway and joins the threads.  gRPC's
    server and httplib's are taken at their documented behaviour: [Shutdown] and
    [Wait] return when no RPC is left, those under way are cancelled at the
    deadline, and a stopped listener's thread ends with its last request.  What is
    proved: the process serves only what it could bind, it goes down only when
    asked to, and then always can unless the pipe is full. *)
From S2P Require Import Prelude Numbers Secret Presets Endpoint Config.

(** * Startup *)

(** How far the process gets: an exit code with the line on stderr, or serving. *)
Inductive Startup :=
  | Exits (code : Z) (message : bytes)
  | Serves (config : Config) (gateway_port : option Z).

Section Startup.
(** What the system and the servers answer: the pipe is made, gRPC listens on an
    address, httplib binds a port or any port of a host. *)
Variable pipe_made : bool.
Variable grpc_listens : bytes → bool.
Variable bind_to_port : bytes → Z → bool.
Variable bind_to_any_port : bytes → Z.

(** [HttpGateway::start]: the port it serves on. *)
Definition gateway_start (host : bytes) (port : Z) : option Z :=
  let bound := if port =? 0 then bind_to_any_port host else if bind_to_port host port then port else -1 in
  if bound <? 0 then None else Some bound.
Definition startup (env : bytes → option bytes) : Startup :=
  let failed error := Exits 1 (lit "Startup failed: " ++ error) in
  if negb pipe_made then failed (lit "shutdown pipe creation failed") else
  match load_config_from_env env with
  | inl error => failed error
  | inr config =>
      if negb (grpc_listens (cf_listen_address config)) then
        Exits 1 (lit "Unable to listen on " ++ cf_listen_address config)
      else if cf_http_port config =? 0 then Serves config None
      else
        match gateway_start (cf_http_host config) (cf_http_port config) with
        | Some port => Serves config (Some port)
        | None =>
            Exits 1 (lit "Unable to listen on " ++ cf_http_host config ++ lit ":" ++
                     to_string (cf_http_port config) ++ lit " (HTTP)")
        end
  end.
End Startup.

(** * Running *)

(** [main], after the threads are started.  [http_gateway.stop()] is its two
    calls, and neither runs when the listener was never started. *)
Inductive MainPhase :=
  | ServerWait      (** [server->Wait()] *)
  | GatewayStop     (** [server_.stop()] *)
  | GatewayJoin     (** [thread_.join()] *)
  | Wake            (** [handle_shutdown(0)]: the write to the pipe *)
  | JoinShutdown    (** [shutdown_thread.join()] *)
  | SetStopping     (** the flag, under the mutex *)
  | Notify          (** [metrics_stop.notify_all()] *)
  | JoinMetrics     (** [metrics_thread.join()], if it was started *)
  | Returned.       (** [return 0] *)
#[export] Instance MainPhase_eq_dec : EqDecision MainPhase.
Proof. solve_decision. Defined.
(** The shutdown thread: in [read], before [Shutdown], inside it, done. *)
Inductive ShutdownPhase := ReadPipe | CallShutdown | InShutdown | ShutdownDone.
#[export] Instance ShutdownPhase_eq_dec : EqDecision ShutdownPhase.
Proof. solve_decision. Defined.
(** The metrics thread: inside [wait_for] it looks at the flag with the mutex
    held and sleeps with the mutex free; a wait that times out prints. *)
Inductive MetricsPhase := NoThread | Looks | Sleeps | Prints | MetricsDone.

(** gRPC's server: it takes RPCs; [Shutdown] refuses new ones, waits for those
    under way and cancels them at its deadline; when none is left it is down, and
    only then [Wait] and [Shutdown] return. *)
Inductive GrpcServer :=
  | Accepting (rpcs : nat)
  | Closing (rpcs : nat) (deadline_passed : bool)
  | Down.
#[export] Instance GrpcServer_eq_dec : EqDecision GrpcServer.
Proof. solve_decision. Defined.
(** httplib's server and its listening thread: stopped, it takes no more requests
    and its thread ends with the last one under way. *)
Inductive Gateway :=
  | NoGateway
  | Serving (requests : nat)
  | Draining (requests : nat)
  | Drained.

(** The threads a signal can be delivered to. *)
Inductive Thread := MainThread | ShutdownThread | MetricsThread | OtherThread.
#[export] Instance Thread_eq_dec : EqDecision Thread.
Proof. solve_decision. Defined.

(** [pc_handling]: the threads inside the signal handler, before its write. *)
Record Process := mk_Process {
  pc_main : MainPhase;
  pc_shutdown : ShutdownPhase;
  pc_metrics : MetricsPhase;
  pc_pipe : nat;               (** bytes in the pipe *)
  pc_handling : list Thread;
  pc_server : GrpcServer;
  pc_gateway : Gateway;
  pc_stopping : bool;
  pc_lines : nat }.            (** metrics lines printed *)
Definition Process_start (gateway metrics : bool) : Process :=
  mk_Process ServerWait ReadPipe (if metrics then Looks else NoThread) 0 [] (Accepting 0)
    (if gateway then Serving 0 else NoGateway) false 0.

Section Running.
(** The bytes the pipe holds (65536 on Linux); a write to a full one blocks. *)
Variable pipe_capacity : nat.

Definition metrics_hold_mutex (phase : MetricsPhase) : bool :=
  match phase with Looks | Prints => true | _ => false end.
(** The next step of [main]; none while it is blocked or in the handler. *)
Definition main_next (p : Process) : option Process :=
  let '(mk_Process main shutdown metrics pipe handling server gateway stopping lines) := p in
  if bool_decide (MainThread ∈ handling) then None else
  match main with
  | ServerWait =>
      match server with
      | Down => Some (mk_Process GatewayStop shutdown metrics pipe handling server gateway stopping lines)
      | _ => None
      end
  | GatewayStop =>
      match gateway with
      | Serving requests =>
          Some (mk_Process GatewayJoin shutdown metrics pipe handling server (Draining requests) stopping lines)
      | _ => Some (mk_Process Wake shutdown metrics pipe handling server gateway stopping lines)
      end
  | GatewayJoin =>
      match gateway with
      | Drained => Some (mk_Process Wake shutdown metrics pipe handling server gateway stopping lines)
      | _ => None
      end
  | Wake =>
      if (pipe <? pipe_capacity)%nat
      then Some (mk_Process JoinShutdown shutdown metrics (S pipe) handling server gateway stopping lines)
      else None
  | JoinShutdown =>
      match shutdown with
      | ShutdownDone => Some (mk_Process SetStopping shutdown metrics pipe handling server gateway stopping lines)
      | _ => None
      end
  | SetStopping =>
      if metrics_hold_mutex metrics then None
      else Some (mk_Process Notify shutdown metrics pipe handling server gateway true lines)
  | Notify =>
      Some (mk_Process JoinMetrics shutdown (match metrics with Sleeps => Looks | _ => metrics end) pipe
              handling server gateway stopping lines)
  | JoinMetrics =>
      match metrics with
      | NoThread | MetricsDone =>
          Some (mk_Process Returned shutdown metrics pipe handling server gateway stopping lines)
      | _ => None
      end
  | Returned => None
  end.
(** The shutdown thread; its call to [Shutdown] closes the server and comes back
    once that is down. *)
Definition shutdown_next (p : Process) : option Process :=
  let '(mk_Process main shutdown metrics pipe handling server gateway stopping lines) := p in
  if bool_decide (ShutdownThread ∈ handling) then None else
  match shutdown with
  | ReadPipe =>
      match pipe with
      | S pipe => Some (mk_Process main CallShutdown metrics pipe handling server gateway stopping lines)
      | O => None
      end
  | CallShutdown =>
      Some (mk_Process main InShutdown metrics pipe handling
              (match server with Accepting rpcs => Closing rpcs false | _ => server end) gateway stopping lines)
  | InShutdown =>
      match server with
      | Closing O _ => Some (mk_Process main ShutdownDone metrics pipe handling Down gateway stopping lines)
      | Down => Some (mk_Process main ShutdownDone metrics pipe handling Down gateway stopping lines)
      | _ => None
      end
  | ShutdownDone => None
  end.
(** What the metrics thread does without the clock. *)
Definition metrics_next (p : Process) : option Process :=
  let '(mk_Process main shutdown metrics pipe handling server gateway stopping lines) := p in
  if bool_decide (MetricsThread ∈ handling) then None else
  match metrics with
  | Looks =>
      Some (mk_Process main shutdown (if stopping then MetricsDone else Sleeps) pipe handling server gateway stopping lines)
  | Prints => Some (mk_Process main shutdown Looks pipe handling server gateway stopping (S lines))
  | _ => None
  end.
(** A sleep that times out: the wait gives the flag. *)
Definition metrics_timeout (p : Process) : option Process :=
  let '(mk_Process main shutdown metrics pipe handling server gateway stopping lines) := p in
  match metrics with
  | Sleeps =>
      Some (mk_Process main shutdown (if stopping then MetricsDone else Prints) pipe handling server gateway stopping lines)
  | _ => None
  end.
(** A request the gateway serves is answered; its thread ends with the last. *)
Definition gateway_next (p : Process) : option Process :=
  let '(mk_Process main shutdown metrics pipe handling server gateway stopping lines) := p in
  match gateway with
  | Serving (S requests) =>
      Some (mk_Process main shutdown metrics pipe handling server (Serving requests) stopping lines)
  | Draining (S requests) =>
      Some (mk_Process main shutdown metrics pipe handling server (Draining requests) stopping lines)
  | Draining O => Some (mk_Process main shutdown metrics pipe handling server Drained stopping lines)
  | _ => None
  end.
(** An RPC that was cancelled ends. *)
Definition rpc_next (p : Process) : option Process :=
  let '(mk_Process main shutdown metrics pipe handling server gateway stopping lines) := p in
  match server with
  | Closing (S rpcs) true =>
      Some (mk_Process main shutdown metrics pipe handling (Closing rpcs true) gateway stopping lines)
  | _ => None
  end.
(** [handle_shutdown] on a thread: it writes its byte, and goes back. *)
Inductive handler_step : Process → Process → Prop :=
  | handler main shutdown metrics pipe before thread after server gateway stopping lines :
      (pipe < pipe_capacity)%nat →
      handler_step (mk_Process main shutdown metrics pipe (before ++ thread :: after) server gateway stopping lines)
        (mk_Process main shutdown metrics (S pipe) (before ++ after) server gateway stopping lines).
(** The deadline given to [Shutdown] passes. *)
Inductive deadline_step : Process → Process → Prop :=
  | deadline main shutdown metrics pipe handling rpcs gateway stopping lines :
      deadline_step (mk_Process main shutdown metrics pipe handling (Closing rpcs false) gateway stopping lines)
        (mk_Process main shutdown metrics pipe handling (Closing rpcs true) gateway stopping lines).

(** The process's own steps: its threads', its handlers', and the deadline its
    shutdown thread set. *)
Inductive thread_step (p p' : Process) : Prop :=
  | step_main : main_next p = Some p' → thread_step p p'
  | step_shutdown : shutdown_next p = Some p' → thread_step p p'
  | step_metrics : metrics_next p = Some p' → thread_step p p'
  | step_gateway : gateway_next p = Some p' → thread_step p p'
  | step_rpc : rpc_next p = Some p' → thread_step p p'
  | step_handler : handler_step p p' → thread_step p p'
  | step_deadline : deadline_step p p' → thread_step p p'.
(** What asks the process to go down: a signal, delivered to any of its threads
    ([read] fails on a signal that interrupts it); a server that is down by
    itself. *)
Inductive asking_step : Process → Process → Prop :=
  | signal thread main shutdown metrics pipe handling server gateway stopping lines :
      asking_step (mk_Process main shutdown metrics pipe handling server gateway stopping lines)
        (mk_Process main shutdown metrics pipe (thread :: handling) server gateway stopping lines)
  | signal_interrupts main metrics pipe handling server gateway stopping lines :
      asking_step (mk_Process main ReadPipe metrics pipe handling server gateway stopping lines)
        (mk_Process main CallShutdown metrics pipe (ShutdownThread :: handling) server gateway stopping lines)
  | server_stops main shutdown metrics pipe handling server gateway stopping lines :
      asking_step (mk_Process main shutdown metrics pipe handling server gateway stopping lines)
        (mk_Process main shutdown metrics pipe handling Down gateway stopping lines).
(** The metrics interval and a wake-up without a notification. *)
Inductive clock_step : Process → Process → Prop :=
  | timeout p p' : metrics_timeout p = Some p' → clock_step p p'
  | spurious main shutdown pipe handling server gateway stopping lines :
      clock_step (mk_Process main shutdown Sleeps pipe handling server gateway stopping lines)
        (mk_Process main shutdown Looks pipe handling server gateway stopping lines).
(** The clients: RPCs come and end, requests come. *)
Inductive client_step : Process → Process → Prop :=
  | rpc_comes main shutdown metrics pipe handling rpcs gateway stopping lines :
      client_step (mk_Process main shutdown metrics pipe handling (Accepting rpcs) gateway stopping lines)
        (mk_Process main shutdown metrics pipe handling (Accepting (S rpcs)) gateway stopping lines)
  | rpc_ends main shutdown metrics pipe handling rpcs gateway stopping lines :
      client_step (mk_Process main shutdown metrics pipe handling (Accepting (S rpcs)) gateway stopping lines)
        (mk_Process main shutdown metrics pipe handling (Accepting rpcs) gateway stopping lines)
  | rpc_ends_closing main shutdown metrics pipe handling rpcs passed gateway stopping lines :
      client_step (mk_Process main shutdown metrics pipe handling (Closing (S rpcs) passed) gateway stopping lines)
        (mk_Process main shutdown metrics pipe handling (Closing rpcs passed) gateway stopping lines)
  | request_comes main shutdown metrics pipe handling server requests stopping lines :
      client_step (mk_Process main shutdown metrics pipe handling server (Serving requests) stopping lines)
        (mk_Process main shutdown metrics pipe handling server (Serving (S requests)) stopping lines).
Definition process_step (p p' : Process) : Prop :=
  thread_step p p' ∨ asking_step p p' ∨ clock_step p p' ∨ client_step p p'.

(** * What holds of every run *)

(** How far [main] and the threads are from their ends. *)
Definition main_rank (phase : MainPhase) : nat :=
  match phase with
  | ServerWait => 8 | GatewayStop => 7 | GatewayJoin => 6 | Wake => 5 | JoinShutdown => 4
  | SetStopping => 3 | Notify => 2 | JoinMetrics => 1 | Returned => 0
  end.
Definition shutdown_rank (phase : ShutdownPhase) : nat :=
  match phase with ReadPipe => 3 | CallShutdown => 2 | InShutdown => 1 | ShutdownDone => 0 end.
Definition metrics_rank (phase : MetricsPhase) : nat :=
  match phase with Prints => 3 | Looks => 2 | Sleeps => 1 | MetricsDone | NoThread => 0 end.
Definition server_rank (server : GrpcServer) : nat :=
  match server with
  | Accepting rpcs => S rpcs | Closing rpcs false => S rpcs | Closing rpcs true => rpcs | Down => 0
  end.
Definition gateway_rank (gateway : Gateway) : nat :=
  match gateway with
  | Serving requests => requests | Draining requests => S requests | NoGateway | Drained => 0
  end.
Definition process_rank (p : Process) : nat :=
  4 * main_rank (pc_main p) + shutdown_rank (pc_shutdown p) + metrics_rank (pc_metrics p) +
  server_rank (pc_server p) + gateway_rank (pc_gateway p) + length (pc_handling p).

(** The process was asked to go down. *)
Definition asked (p : Process) : Prop :=
  (shutdown_rank (pc_shutdown p) < 3)%nat ∨ pc_server p = Down ∨ (0 < pc_pipe p)%nat ∨ pc_handling p ≠ [].
(** The pipe has room for the bytes of the handlers under way and for [main]'s. *)
Definition main_byte (phase : MainPhase) : nat :=
  match phase with ServerWait | GatewayStop | GatewayJoin | Wake => 1 | _ => 0 end.
Definition pipe_fits (p : Process) : Prop :=
  (pc_pipe p + length (pc_handling p) + main_byte (pc_main p) ≤ pipe_capacity)%nat.

(** Past its wait, [main] knows the server down; a joined thread has finished; no
    sleeper misses the notification, since the flag is set under the mutex. *)
Record process_inv (p : Process) : Prop := {
  pi_down : (main_rank (pc_main p) < 8)%nat → pc_server p = Down;
  pi_shut : pc_shutdown p = ShutdownDone → pc_server p = Down;
  pi_closed : pc_shutdown p = InShutdown → ∀ rpcs, pc_server p ≠ Accepting rpcs;
  pi_woken : (main_rank (pc_main p) < 5)%nat → pc_shutdown p = ReadPipe → (0 < pc_pipe p)%nat;
  pi_joined : (main_rank (pc_main p) < 4)%nat → pc_shutdown p = ShutdownDone;
  pi_stopping : (main_rank (pc_main p) < 3)%nat → pc_stopping p = true;
  pi_notified : (main_rank (pc_main p) < 2)%nat → pc_metrics p ≠ Sleeps;
  pi_metrics : (main_rank (pc_main p) < 1)%nat → pc_metrics p = NoThread ∨ pc_metrics p = MetricsDone;
  pi_serving : (6 < main_rank (pc_main p))%nat → pc_gateway p = NoGateway ∨ ∃ requests, pc_gateway p = Serving requests;
  pi_draining : pc_main p = GatewayJoin → pc_gateway p = Drained ∨ ∃ requests, pc_gateway p = Draining requests;
  pi_gateway : (main_rank (pc_main p) < 6)%nat → pc_gateway p = NoGateway ∨ pc_gateway p = Drained }.

Lemma process_inv_start gateway metrics : process_inv (Process_start gateway metrics).
Proof. split; cbn; try lia; try done. intros _. destruct gateway; [right; by eexists|by left]. Qed.

(** A step of a thread, case by case. *)
Ltac open_thread E :=
  match type of E with _ ?p = Some _ => destruct p end;
  cbn in E; repeat case_match; simplify_eq; cbn in *.
Ltac keep_inv Hinv :=
  destruct Hinv; cbn in *; split; cbn in *; intros;
  repeat match goal with
  | H : (_ < _)%nat → _ |- _ => first [specialize (H ltac:(lia)) | clear H]
  | H : ?a = ?b → _ |- _ => first [specialize (H eq_refl) | assert (a ≠ b) by congruence; clear H]
  end;
  try solve [lia | done | congruence | naive_solver].

Lemma process_inv_main p p' : main_next p = Some p' → process_inv p → process_inv p'.
Proof. intros E Hinv. open_thread E; keep_inv Hinv. Qed.
Lemma process_inv_shutdown p p' : shutdown_next p = Some p' → process_inv p → process_inv p'.
Proof. intros E Hinv. open_thread E; keep_inv Hinv. Qed.
Lemma process_inv_metrics p p' : metrics_next p = Some p' → process_inv p → process_inv p'.
Proof. intros E Hinv. open_thread E; keep_inv Hinv. Qed.
Lemma process_inv_gateway p p' : gateway_next p = Some p' → process_inv p → process_inv p'.
Proof. intros E Hinv. open_thread E; keep_inv Hinv. Qed.
Lemma process_inv_rpc p p' : rpc_next p = Some p' → process_inv p → process_inv p'.
Proof. intros E Hinv. open_thread E; keep_inv Hinv. Qed.
Lemma process_inv_thread p p' : thread_step p p' → process_inv p → process_inv p'.
Proof.
  intros [E|E|E|E|E|[]|[]] Hinv; [by eapply process_inv_main|by eapply process_inv_shutdown|
    by eapply process_inv_metrics|by eapply process_inv_gateway|by eapply process_inv_rpc| |]; keep_inv Hinv.
Qed.
Lemma process_inv_asking p p' : asking_step p p' → process_inv p → process_inv p'.
Proof. intros [] Hinv; keep_inv Hinv. Qed.
Lemma process_inv_clock p p' : clock_step p p' → process_inv p → process_inv p'.
Proof. intros [q q' E|] Hinv; [open_thread E|]; keep_inv Hinv. Qed.
Lemma process_inv_client p p' : client_step p p' → process_inv p → process_inv p'.
Proof. intros [] Hinv; keep_inv Hinv. Qed.
Lemma process_inv_run p p' : rtc process_step p p' → process_inv p → process_inv p'.
Proof.
  induction 1 as [|p q r [Hs|[Hs|[Hs|Hs]]] _ IH]; [done|..]; intros Hp; apply IH;
    [by eapply process_inv_thread|by eapply process_inv_asking|by eapply process_inv_clock|
     by eapply process_inv_client].
Qed.

Lemma thread_step_rank p p' : thread_step p p' → (process_rank p' < process_rank p)%nat.
Proof.
  intros [E|E|E|E|E|[]|[]]; try open_thread E; unfold process_rank; cbn; rewrite ?length_app; cbn; lia.
Qed.
Lemma thread_step_asked p p' : thread_step p p' → asked p → asked p'.
Proof.
  unfold asked. intros [E|E|E|E|E|[]|[]]; try open_thread E; cbn in *; intros [?|[?|[?|?]]]; try lia;
    try done; auto; try (by left; lia); try (by right; right; left; lia).
Qed.
Lemma thread_step_fits p p' : thread_step p p' → pipe_fits p → pipe_fits p'.
Proof.
  unfold pipe_fits. intros [E|E|E|E|E|[]|[]]; try open_thread E; cbn in *; rewrite ?length_app; cbn;
    rewrite ?Nat.ltb_lt in *; lia.
Qed.

(** No thread waits for ever on another one. *)
Lemma thread_step_enabled p :
  process_inv p → asked p → pipe_fits p → pc_main p ≠ Returned → ∃ p', thread_step p p'.
Proof.
  destruct p as [main shutdown metrics pipe handling server gateway stopping lines].
  intros Hinv Ha Hfits Hne. destruct handling as [|thread handling].
  2:{ eexists. apply step_handler, (handler _ _ _ _ []). unfold pipe_fits in Hfits. cbn in Hfits. lia. }
  assert (Hshutdown : shutdown ≠ ShutdownDone → (shutdown = ReadPipe → (0 < pipe)%nat) →
    ∃ p', thread_step (mk_Process main shutdown metrics pipe [] server gateway stopping lines) p').
  { intros Hs Hp. destruct shutdown as [| | |]; [| | |done].
    - destruct pipe as [|pipe]; [by specialize (Hp eq_refl); lia|]. eexists. by apply step_shutdown.
    - eexists. by apply step_shutdown.
    - destruct server as [rpcs|[|rpcs] [|]|].
      + by destruct (pi_closed _ Hinv eq_refl rpcs).
      + eexists. by apply step_shutdown.
      + eexists. by apply step_shutdown.
      + eexists. by apply step_rpc.
      + eexists. apply step_deadline. constructor.
      + eexists. by apply step_shutdown. }
  assert (Hmetrics : metrics = Looks ∨ metrics = Prints →
    ∃ p', thread_step (mk_Process main shutdown metrics pipe [] server gateway stopping lines) p')
    by (intros [-> | ->]; eexists; by apply step_metrics).
  destruct main; cbn in *.
  - destruct (decide (server = Down)) as [->|Hup]; [eexists; by apply step_main|].
    apply Hshutdown; [intros ->; by apply Hup, (pi_shut _ Hinv)|]. intros ->. unfold asked in Ha.
    cbn in Ha. destruct Ha as [?|[?|[?|?]]]; [lia|done|done|done].
  - destruct gateway; eexists; by apply step_main.
  - destruct (pi_draining _ Hinv eq_refl) as [E|[requests E]]; cbn in E; subst gateway.
    + eexists. by apply step_main.
    + destruct requests; eexists; by apply step_gateway.
  - assert (Hp : (pipe <? pipe_capacity)%nat = true)
      by (apply Nat.ltb_lt; unfold pipe_fits in Hfits; cbn in Hfits; lia).
    eexists. apply step_main. cbn -[Nat.ltb]. by rewrite Hp.
  - destruct (decide (shutdown = ShutdownDone)) as [->|Hs]; [eexists; by apply step_main|].
    apply Hshutdown; [done|]. apply (pi_woken _ Hinv). cbn. lia.
  - destruct metrics; try (by apply Hmetrics; auto); eexists; by apply step_main.
  - eexists. by apply step_main.
  - destruct metrics; try (by apply Hmetrics; auto); try (eexists; by apply step_main).
    by destruct (pi_notified _ Hinv ltac:(cbn; lia)).
  - done.
Qed.

Definition going_down (p : Process) : Prop := process_inv p ∧ asked p ∧ pipe_fits p.
Lemma going_down_step p p' : going_down p → thread_step p p' → going_down p' ∧ (process_rank p' < process_rank p)%nat.
Proof.
  intros (Hinv & Ha & Hf) Hs. split; [split_and!|by apply thread_step_rank];
    [by eapply process_inv_thread|by eapply thread_step_asked|by eapply thread_step_fits].
Qed.
Lemma going_down_live p : going_down p → pc_main p = Returned ∨ ∃ p', thread_step p p'.
Proof.
  intros (Hinv & Ha & Hf). destruct (decide (pc_main p = Returned)); [by left|right; by apply thread_step_enabled].
Qed.
(** What it waits for besides its own threads. *)
Definition under_way (p : Process) : nat :=
  server_rank (pc_server p) + gateway_rank (pc_gateway p) + length (pc_handling p).
Lemma process_rank_bound p : (process_rank p ≤ 38 + under_way p)%nat.
Proof. unfold process_rank, under_way. destruct (pc_main p), (pc_shutdown p), (pc_metrics p); cbn; lia. Qed.

(** Nothing is left running. *)
Definition all_down (p : Process) : Prop :=
  pc_server p = Down ∧ (pc_gateway p = NoGateway ∨ pc_gateway p = Drained) ∧ pc_shutdown p = ShutdownDone ∧
  (pc_metrics p = NoThread ∨ pc_metrics p = MetricsDone).
Lemma returned_all_down p : process_inv p → pc_main p = Returned → all_down p.
Proof.
  intros [] Hr. unfold all_down. rewrite Hr in *. cbn in *. split_and!; auto with lia.
Qed.

(** * Properties *)

(** C7: Whatever happened before (signals on any of its threads, RPCs, requests,
    time-outs, wake-ups), a process that was asked to go down does, as long as
    the pipe has room for one byte more than the signals delivered and not yet
    read: its own steps and the one deadline its shutdown thread set need no
    further signal, no order of them blocks before [main] returns, no order takes
    more than 38 besides the calls and handlers under way, and when it returns the
    servers are down and both threads are joined.  So no signal is lost between
    the handler and the thread, and the metrics thread misses no notification.
    (With a full pipe [main] blocks in its own write: [full_pipe_hangs].) *)
Theorem process_exits gateway metrics p :
  rtc process_step (Process_start gateway metrics) p → asked p →
  (pc_pipe p + length (pc_handling p) < pipe_capacity)%nat →
  (∃ p', rtc thread_step p p' ∧ pc_main p' = Returned ∧ all_down p') ∧
  (∀ n p', nsteps thread_step n p p' →
     (n ≤ 38 + under_way p)%nat ∧ (pc_main p' = Returned ∧ all_down p' ∨ ∃ p'', thread_step p' p'')).
Proof.
  intros Hrun Ha Hroom. assert (going_down p) as Hp.
  { split_and!; [eapply process_inv_run; [apply Hrun|apply process_inv_start]|done|].
    unfold pipe_fits. destruct (pc_main p); cbn; lia. }
  destruct (descent_total _ _ _ _ going_down_step going_down_live p Hp) as [(p' & Hd & [Hinv _] & Hr) Hall]. split.
  - exists p'. split_and!; [done..|by apply returned_all_down].
  - intros n q Hn. destruct (Hall n q Hn) as (? & [Hq _] & Hend). pose proof (process_rank_bound p). split; [lia|].
    destruct Hend as [Hr'|?]; [left; split; [done|by apply returned_all_down]|by right].
Qed.

(** The shutdown thread reads once: if the pipe is full when [main] comes to
    write and the thread is past its read, no step of anybody lets it return. *)
Definition hung (p : Process) : Prop :=
  pc_main p = Wake ∧ (pipe_capacity ≤ pc_pipe p)%nat ∧ pc_shutdown p ≠ ReadPipe.
Lemma full_pipe_hangs p p' : rtc process_step p p' → hung p → hung p'.
Proof.
  induction 1 as [|p q r Hs _ IH]; [done|]. intros Hp. apply IH. clear IH. revert Hp. unfold hung.
  destruct Hs as [[E|E|E|E|E|[]|[]]|[[]|[[q0 r0 E|]|[]]]]; try open_thread E; cbn;
    intros (? & ? & ?); split_and!; try done; try lia; try discriminate.
  match goal with H : (_ <=? _)%nat = true |- _ => apply Nat.leb_le in H; lia end.
Qed.

(** Unasked it serves on: without a signal and with a server that does not stop
    by itself, [main] never leaves its wait, whatever the clock and the clients do. *)
Definition serving (p : Process) : Prop :=
  pc_main p = ServerWait ∧ pc_shutdown p = ReadPipe ∧ pc_pipe p = 0%nat ∧ pc_handling p = [] ∧
  ∃ rpcs, pc_server p = Accepting rpcs.
Theorem process_stays_up gateway metrics p :
  rtc (λ p p', thread_step p p' ∨ clock_step p p' ∨ client_step p p') (Process_start gateway metrics) p →
  serving p.
Proof.
  intros Hrun. assert (Hp : serving (Process_start gateway metrics)) by (split_and!; try done; by eexists).
  induction Hrun as [|p q r Hs _ IH]; [done|]. apply IH. clear IH. revert Hp. unfold serving.
  destruct Hs as [[E|E|E|E|E|[]|[]]|[[q0 r0 E|]|[]]]; try open_thread E; cbn;
    intros (? & ? & ? & ? & ? & ?); simplify_eq; try (by destruct before); split_and!; try done; by eexists.
Qed.
End Running.

(** A process that serves has a sound configuration, gRPC listens on its
    address, and the HTTP front end is off exactly where its port is 0; where it
    is on it has bound that port, on loopback or behind a token. *)
Theorem startup_serves pipe_made grpc_listens bind_to_port bind_to_any_port env config port :
  startup pipe_made grpc_listens bind_to_port bind_to_any_port env = Serves config port →
  load_config_from_env env = inr config ∧ sound_config config ∧ grpc_listens (cf_listen_address config) = true ∧
  match port with
  | None => cf_http_port config = 0
  | Some port =>
      port = cf_http_port config ∧ 1 <= port <= 65535 ∧ bind_to_port (cf_http_host config) port = true ∧
      (is_loopback_host (cf_http_host config) = true ∨ secret_value (cf_http_token config) ≠ [])
  end.
Proof.
  unfold startup. destruct pipe_made; [|done]. cbn [negb].
  destruct (load_config_from_env env) as [error|config'] eqn:Hload; [done|].
  destruct (grpc_listens _) eqn:Hlisten; [|done]. cbn [negb].
  pose proof (load_config_checked _ _ Hload) as Hsound.
  destruct (Z.eqb_spec (cf_http_port config') 0) as [Hz|Hz]; [by intros [= <- <-]|].
  unfold gateway_start. rewrite (proj2 (Z.eqb_neq _ _)) by done.
  destruct (sc_http_port _ Hsound) as [?|Hport]; [done|].
  destruct (bind_to_port _ _) eqn:Hbind; [|by cbn]. rewrite (proj2 (Z.ltb_ge _ _)) by lia.
  intros [= <- <-]. split_and!; try done; try lia. destruct (sc_http_auth _ Hsound) as [Hp|Hp]; [by destruct Hz|exact Hp].
Qed.

(** ** Witnesses *)

(** What a pipe holds on Linux. *)
Definition linux_pipe : nat := Z.to_nat 65536.
(** A signal while an RPC is under way: the process goes down. *)
Lemma process_exits_witness :
  ∃ p', rtc (thread_step linux_pipe)
    (mk_Process ServerWait ReadPipe Looks 0 [OtherThread] (Accepting 1) (Serving 0) false 0) p' ∧
    pc_main p' = Returned ∧ all_down p'.
Proof.
  assert (Hrun : rtc (process_step linux_pipe) (Process_start true true)
    (mk_Process ServerWait ReadPipe Looks 0 [OtherThread] (Accepting 1) (Serving 0) false 0)).
  { eapply rtc_l; [right; right; right; apply rpc_comes|].
    apply rtc_once. right. left. apply signal. }
  apply (process_exits linux_pipe true true _ Hrun).
  - right; right; right. discriminate.
  - apply Nat.ltb_lt. vm_compute. reflexivity.
Defined.
Lemma startup_serves_witness : sound_config toy_config.
Proof.
  apply (startup_serves true (λ _, true) (λ _ _, true) (λ _, 0) toy_environment toy_config (Some (cf_http_port toy_config))).
  vm_compute. reflexivity.
Defined.
